(* ===== verification/_CoqProject ===== *)
-Q . S2P
Prelude.v
Bits.v
Axmap.v
Crc.v
Stream.v
Md5.v
Sha1.v
Sha2.v
Sha256.v
Sha512.v
Sha3.v
Xxhash.v
Hash.v
Bloom.v
Fifo.v
IoUQueue.v
Lfsr.v
Stat.v
Flist.v
Smalloc.v
Rand.v
Period.v
Gauss.v
Offset.v
Pattern.v
Verify.v
Sem.v
Workqueue.v
WqSystem.v
RbTree.v
RbOps.v
IoHist.v
Zbd.v
ZbdInv.v
ZbdJob.v
ZbdInit.v
Net.v
NetWire.v
NetRecv.v
NetLaws.v
