(* ===== verification/Prelude.v ===== *)
(** * A verification development for fio

    The repository holds the experiments of a paper on io_uring: C++ benchmarks under
    src/src, and fio, the flexible I/O tester, under src/fio.  fio is the program whose
    own logic is modelled here; all file names below are relative to src/fio.

    ** The program

    A job of fio (backend.c) takes a free unit of I/O from a stack, asks where the next
    I/O goes and how long it is (io_u.c), fills the buffer and, for verification, writes
    headers and checksums into it (verify.c), hands it to an engine, accounts the
    latency (stat.c) and puts the unit back.  Which blocks of a file are still to be
    visited is known by a bitmap (lib/axmap.c) or by the state of a shift register
    (lib/lfsr.c); random numbers come from lib/rand.c; files with the same name are
    found with a Bloom filter (filehash.c); structures that processes share live in a
    memory pool (smalloc.c).  What was written and is to be verified is kept in a
    red-black tree or a list (iolog.c, lib/rbtree.c); a job may hand its units to worker
    threads (workqueue.c); on a zoned device its writes go where the zones are open (zbd.c);
    a server runs the jobs that clients send it (server.c, client.c); semaphores are built of mutexes and conditions (fio_sem.c).

    ** How code becomes definitions

    A word of [w] bits is a [Z] with its wrap-around written out ([addw], [mulw], ...); a
    buffer is a list of bytes.  Every access to an array and every copy is checked, and
    [None] stands for behaviour that C does not define: an access out of bounds, an
    overflow of a signed type, a division by zero, a failed assertion.  So a theorem that
    says that a function is [Some] also says that it is safe.  A loop is a [Fixpoint] on
    the data where the code walks the data, and on fuel otherwise; [None] when the fuel
    ends.  The theorems show that the fuel given is enough: the fuel of the loops over a
    buffer is the length of the buffer, that of the spin of the register comes from its
    cycle, and the theorems on draws that can repeat (C27, C28, C31) say that some number of
    turns is enough; [gauss_next_hangs] and [split_never_ends] show loops that have no end.  The loops on a tree are given as
    fuel the number of its nodes.  The loops of zbd.c that try again get as fuel the number
    of zones, or two turns where the code allows no more.  The loops on a socket get what is
    left of its bytes and answers, since every turn takes one of them.  Threads (Sem, WqSystem,
    NetLaws) are a step relation: a step is what a thread does while it holds a lock, in any
    order; [inevitably] says that every schedule comes to a state.  State is passed explicitly.  The names of the source are kept; what is in no place of the source is
    at the head of a section "Proofs".

    ** The files

    - Prelude: words, arrays and bits; the hint databases [word] and the tactics [bits],
      [wraps] and [zcases].
    - Bits (lib/ffz.h, lib/fls.h, lib/hweight.c, lib/pow2.h, lib/roundup.h): bit scans.
    - Axmap (lib/axmap.c): the bitmap of bitmaps.  [axmap_ok] says that every level
      summarises the one below, [member] is the set of blocks it stands for.  Setting
      claims the free prefix of a range (C1), the search finds the next free block around
      the end (C2); tests and construction ([axmap_isset_correct], [axmap_new_correct]).
    - Crc (crc/crc7.c, crc16.c, crc32.c, crc32c.c, crc64.c, crct10dif_common.c): the table
      driven sums are remainders over GF(2) (C5, C6), can be computed in pieces
      ([crc_incremental]), and notice a changed byte ([fold_detects], used by Verify).
    - Stream: the class [Digest], what each digest promises to its callers: fed with
      pieces of any size and closed, it returns the reference digest of all of them.
      Md5, Sha1, Sha256, Sha512, Sha3 and Xxhash (crc/) are its instances (C10 - C12,
      [md5_digest_correct], [sha1_digest_correct], [xxh_streaming_correct]);
      Sha2 is the reference that Sha256 and Sha512 share.
    - Hash (hash.h, crc/fnv.c, crc/murmur3.c): the mixing steps are invertible
      ([mixing_reversible]).
    - Bloom (lib/bloom.c, filehash.c): the list of names behind the filter is exact (C15).
    - Fifo (fifo.c), IoUQueue (io_u_queue.c): a byte queue, a stack and a ring refine
      lists (C16, C17).
    - Lfsr (lib/lfsr.c): every tap table has the full period, so that each value is
      visited once (C18).
    - Stat (stat.c, and the marks of io_u.c): buckets, percentiles (C19) and coarse
      distributions ([latency_distribution_correct]).
    - Flist (flist.h): circular lists on a heap refine lists (C21).
    - Smalloc (smalloc.c): a pool refines a set of live allocations (C22, C23).
    - Rand (lib/rand.c, lib/rand.h): the generators never die ([generators_stay_alive]),
      ranges (C25), buffers ([fill_random_buf_words]).
    - Period: the matrices over GF(2) of the two generators.  Each of their components runs
      through all its values ([full_reaches], checked with the powers of its matrix), the
      periods have no common factor, and so the generators come from any state that is alive
      to every draw ([rand32_reaches], [rand64_reaches]): a loop that draws until the result
      pleases it ends if some draw does.
    - Gauss (lib/gauss.c): draws end (C27).
    - Offset (io_u.c, filesetup.c, io_ddir.h): the class [BlockMap] is the interface of
      the bitmap; the laws [BlockMapLaws] are proved of Axmap.  A random job issues each
      block once per pass, with a map (C28) or with the register (C29); an I/O claims
      exactly the free blocks it covers (C30); a length from a range or a
      split fits and is aligned, and the loop that draws it ends exactly when it can (C31);
      sequential jobs (C32).
    - Pattern (lib/pattern.c, lib/rand.c): copying and comparing patterns (C33), filling.
    - Verify (verify.c, verify.h): what is written verifies (C34), and damage of one byte
      is noticed (C35).
    - Sem (fio_sem.c): the threads on one semaphore; value and waiters (C36), and used as
      a lock nobody sleeps on for ever (C37); [wakeup_lost] shows a sleeper that does.
    - Workqueue (workqueue.c): the steps of the workers and of the owner of the queue;
      WqSystem: work is handled once and in order (C38), flush and exit end (C39).
    - RbTree, RbOps (lib/rbtree.c): nodes in memory; RbTree has the operations and what it
      means that memory [holds] a tree in a context, RbOps shows that they keep red-black
      trees and act as insertion and removal on the sequence of nodes (C40).
    - IoHist (iolog.c, verify.c, trim.c): the pieces of past writes, in a tree of RbOps; in
      order, without overlaps, and each verified once (C24).  Its Examples show what goes
      wrong when a write fails that was overlapped, or that is to be trimmed.
    - Zbd (zbd.c, zbd.h): one job on a zoned block device, whose zones are written in
      order: the table of zones and how it is made, the limits, the choice of a zone to
      write to, the place of every unit, its queueing and its end.  ZbdInv has the
      invariant - geometry, write targets, mutexes, a device that replays the commands -
      and what each operation does to it; ZbdJob runs a job from unit to unit; ZbdInit
      begins it with the reports of a device or with a file.  Together: the device
      accepts every command (C7), no step fails or lasts (C14), units go where there is
      room or data (C20), targets and mutexes are as they should be (C26).  Examples at
      its end show what goes wrong: a retry without end where zones cannot be finished, and
      assertions that trims and preferred zones fail.  [blkzoned_finish_zone] and
      [blkzoned_reset_wp] (oslib/linux-blkzoned.c) are what the kernel's answers become.
    - Net (server.c, server.h, client.c, os/os.h): the commands of clients and servers: byte
      orders, sockets that move what they like, headers with checksums, fragments, vectors,
      the queue of a server, replies, texts and command lines.  NetWire has the format of the
      wire and what is written; NetRecv what is made of any bytes that come; NetLaws puts the
      two ends together: a command arrives whole (C3), only commands are taken (C4) and no
      damaged one if it has a payload (C9), the queue keeps its order, loses nothing and delivers
      whole commands (C8), a command line is what it was (C13).  Examples at its end show what goes wrong.

    Each claim is the theorem whose comment begins with its number; its witness applies
    it to concrete input.  Examples show behaviour that is not what the code means.

    ** Bounds

    Digests are fed less than 2^29 bytes, the limit of some of their counters
    ([Sha512.sha512_count_large] shows one of them beyond it); blocks that are verified
    are shorter than that.  The Offset theorems are for fixed block sizes and one file of
    whole blocks; the definitions are not.  The host is little-endian with 64-bit words;
    other configurations of the source ([CONFIG_SEED_BUCKETS], the stack contents of the
    checks of SHA-256 and SHA-512) are variables.  Floating point appears in Rand only,
    as the exact rounding of the conversion of a 64-bit integer to a double.  The runs of
    ZbdJob are of reads and writes by an engine that is not busy, without verifying reads of a
    job that writes; what is queued completes without an error, and failed writes are not
    recovered.  Either zones can be finished, or their capacities and rests are of whole blocks,
    as zbd.c expects of a device; the witnesses are of the second kind, with a kernel that
    refuses to finish.  Zones that are only preferred are not open at the start.  Devices have less than 2^31 zones and 2^63 bytes,
    emulated ones at most 2^61.  A socket answers a call with a part of what was asked for, or with
    an error, as a list says; when the list ends it moves all there is, so that every run that
    ends is one of the model.  Commands that are sent as one buffer are delivered however little a call
    moves; those sent from a vector only where every call moves at least a fragment, and C8
    says what a shorter call does.  A signal of a condition variable goes to a thread that
    still sleeps (Sem, WqSystem); that a wait which has run out takes one is not modelled.

    ** Not modelled

    Options and their parsers (options.c, parse.c, init.c): tables and C strings; the
    options that the modelled code reads are fields of its records.  The engines, the
    clocks and processes: calls of the system; of the network, the connections, the actions
    of the commands, the timeouts of replies and compressed logs.  The formats of logs (iolog.c),
    locks on files (filelock.c), the growth of statistics logs (stat.c), the conversion of
    structures for the network (cconv.c), and the parser of numbers (parse.c).  lib/zipf.c
    draws with the power function of the C library and is a parameter of Offset.  Several
    jobs on one zoned device: there the mutexes of Zbd would have to be steps of their own.
    The graphical client, tests, tools, C++ programs and generated files are
    left out. *)
From Stdlib Require Export ZArith Lia List Bool Btauto.
From stdpp Require Export base tactics option list numbers.
Export ListNotations.
#[export] Set Default Goal Selector "!".
#[global] Open Scope Z_scope.

(** * Machine words

    A C unsigned integer of [w] bits is a [Z] in [[0, 2^w)]; every operation that
    can leave that range is followed by [wrap w], the reduction the C standard
    prescribes for unsigned types. *)

Definition wrap (w z : Z) : Z := z mod 2 ^ w.
Definition addw (w a b : Z) : Z := wrap w (a + b).
Definition subw (w a b : Z) : Z := wrap w (a - b).
Definition mulw (w a b : Z) : Z := wrap w (a * b).
Definition shlw (w a n : Z) : Z := wrap w (Z.shiftl a n).
Definition notw (w a : Z) : Z := wrap w (Z.lnot a).
Definition rolw (w a n : Z) : Z := Z.lor (shlw w a n) (Z.shiftr a (w - n)).
Definition rorw (w a n : Z) : Z := Z.lor (Z.shiftr a n) (shlw w a (w - n)).

(** The word with all [w] bits set: [-1U], [-1UL], [~0]. *)
Definition all_ones (w : Z) : Z := 2 ^ w - 1.

Definition is_word (w z : Z) : Prop := 0 <= z < 2 ^ w.

#[global] Instance is_word_dec w z : Decision (is_word w z).
Proof. unfold is_word. apply _. Defined.

(** C truth values. *)
Definition c_true (z : Z) : bool := negb (z =? 0).

Declare Scope word_scope.
Delimit Scope word_scope with word.
Notation "a & b" := (Z.land a b) (at level 45, left associativity) : word_scope.
Notation "a ^^ b" := (Z.lxor a b) (at level 50, left associativity) : word_scope.
Notation "a >> n" := (Z.shiftr a n) (at level 42, left associativity) : word_scope.

Create HintDb word.
Create Rewrite HintDb word.

(** * Undefined behaviour

    A step that may be undefined, or abort, returns an [option]; [let*] sequences
    such steps. *)

Notation "'let*' x ':=' e 'in' k" :=
  (mbind (M := option) (fun x => k) e)
  (at level 10, x binder, e at level 200, k at level 200,
   format "'[hv' 'let*'  x  ':='  e  'in'  '//' k ']'").
Notation "'let*' ' p ':=' e 'in' k" :=
  (mbind (M := option) (fun x => match x with p => k end) e)
  (at level 10, p strict pattern, e at level 200, k at level 200,
   format "'[hv' 'let*'  ' p  ':='  e  'in'  '//' k ']'").

(** * C arrays

    An array is a list; an access outside of it is undefined behaviour in C and
    [None] here, so that a theorem [... = Some _] also says that the accesses stay
    within bounds. *)

Definition arr_get {A} (l : list A) (i : Z) : option A :=
  if i <? 0 then None else l !! Z.to_nat i.

Definition arr_set {A} (l : list A) (i : Z) (x : A) : option (list A) :=
  if (0 <=? i) && (i <? Z.of_nat (length l)) then Some (<[Z.to_nat i := x]> l) else None.

(** [x++] and [x--] on an [int]. *)
Definition int_inc (x : Z) : option Z := if x <? 2 ^ 31 - 1 then Some (x + 1) else None.
Definition int_dec (x : Z) : option Z := if - 2 ^ 31 <? x then Some (x - 1) else None.

(** An [assert()] of the source: a failed one aborts, which is [None]. *)
Definition c_assert (b : bool) : option unit := if b then Some tt else None.

(** [e] is defined and its value has [Q]. *)
Definition ok {A} (e : option A) (Q : A -> Prop) : Prop := exists a, e = Some a /\ Q a.

Definition zlength {A} (l : list A) : Z := Z.of_nat (length l).

(** Reads with a default, for tables whose index is in range by construction. *)
Definition tbl (l : list Z) (i : Z) : Z := nth (Z.to_nat i) l 0.

(** ** Results *)

Lemma ok_ret {A} (a : A) (Q : A -> Prop) : Q a -> ok (Some a) Q.
Proof. intros H. by exists a. Qed.

Lemma ok_bind {A B} (e : option A) (k : A -> option B) (P : A -> Prop) (Q : B -> Prop) : ok e P -> (forall a, P a -> ok (k a) Q) -> ok (e ≫= k) Q.
Proof. intros (a & -> & Ha) Hk. by apply Hk. Qed.

Lemma ok_assert {B} (b : bool) (k : unit -> option B) (Q : B -> Prop) : b = true -> ok (k tt) Q -> ok (c_assert b ≫= k) Q.
Proof. intros ->. done. Qed.

Lemma ok_impl {A} (e : option A) (P Q : A -> Prop) : ok e P -> (forall a, P a -> Q a) -> ok e Q.
Proof. intros (a & -> & Ha) H. exists a. auto. Qed.

(** ** Words *)

Lemma wrap_range w z : 0 <= w -> is_word w (wrap w z).
Proof. intros. apply Z.mod_pos_bound. lia. Qed.

Lemma wrap_small w z : is_word w z -> wrap w z = z.
Proof. apply Z.mod_small. Qed.

Lemma wrap_idemp w z : 0 <= w -> wrap w (wrap w z) = wrap w z.
Proof. intros. by apply wrap_small, wrap_range. Qed.

Lemma wrap_add_l w a b : wrap w (wrap w a + b) = wrap w (a + b).
Proof. unfold wrap. apply Zplus_mod_idemp_l. Qed.

Lemma wrap_add_r w a b : wrap w (a + wrap w b) = wrap w (a + b).
Proof. unfold wrap. apply Zplus_mod_idemp_r. Qed.

Lemma wrap_sub_l w a b : wrap w (wrap w a - b) = wrap w (a - b).
Proof. unfold wrap. apply Zminus_mod_idemp_l. Qed.

Lemma wrap_sub_r w a b : wrap w (a - wrap w b) = wrap w (a - b).
Proof. unfold wrap. apply Zminus_mod_idemp_r. Qed.

Lemma wrap_mul_l w a b : wrap w (wrap w a * b) = wrap w (a * b).
Proof. unfold wrap. apply Zmult_mod_idemp_l. Qed.

Lemma wrap_mul_r w a b : wrap w (a * wrap w b) = wrap w (a * b).
Proof. unfold wrap. apply Zmult_mod_idemp_r. Qed.

(** Equality modulo [2^w], the equivalence that unsigned arithmetic respects. *)
Definition eqw (w a b : Z) : Prop := wrap w a = wrap w b.

#[global] Instance eqw_equivalence w : Equivalence (eqw w).
Proof. split; unfold eqw, Reflexive, Symmetric, Transitive; congruence. Qed.

#[global] Instance eqw_add w : Proper (eqw w ==> eqw w ==> eqw w) Z.add.
Proof.
  intros a a' Ha b b' Hb. unfold eqw in *.
  by rewrite <- (wrap_add_l w a), <- (wrap_add_r w _ b), Ha, Hb, wrap_add_l, wrap_add_r.
Qed.

#[global] Instance eqw_sub w : Proper (eqw w ==> eqw w ==> eqw w) Z.sub.
Proof.
  intros a a' Ha b b' Hb. unfold eqw in *.
  by rewrite <- (wrap_sub_l w a), <- (wrap_sub_r w _ b), Ha, Hb, wrap_sub_l, wrap_sub_r.
Qed.

#[global] Instance eqw_mul w : Proper (eqw w ==> eqw w ==> eqw w) Z.mul.
Proof.
  intros a a' Ha b b' Hb. unfold eqw in *.
  by rewrite <- (wrap_mul_l w a), <- (wrap_mul_r w _ b), Ha, Hb, wrap_mul_l, wrap_mul_r.
Qed.

#[global] Instance wrap_proper w : Proper (eqw w ==> eq) (wrap w).
Proof. intros a b H. exact H. Qed.

Lemma wrap_eqw w z : eqw w (wrap w z) z.
Proof. apply Zmod_mod. Qed.

Lemma wrap_bits w z i : 0 <= w -> Z.testbit (wrap w z) i = Z.testbit z i && (i <? w).
Proof.
  intros. unfold wrap. destruct (Z.ltb_spec i w) as [Hlt|Hge].
  - destruct (Z.neg_nonneg_cases i).
    + by rewrite !Z.testbit_neg_r.
    + by rewrite Z.mod_pow2_bits_low, andb_true_r.
  - rewrite Z.mod_pow2_bits_high by lia. by rewrite andb_false_r.
Qed.

Lemma is_word_bits w z i : is_word w z -> w <= i -> Z.testbit z i = false.
Proof.
  intros Hz Hi. assert (0 <= w \/ w < 0) as [Hw|Hw] by lia.
  - rewrite <- (wrap_small w z Hz), wrap_bits by lia.
    destruct (Z.ltb_spec i w); [lia|]. by rewrite andb_false_r.
  - unfold is_word in Hz. rewrite Z.pow_neg_r in Hz by lia. lia.
Qed.

Lemma is_word_intro w z :
  0 <= w -> 0 <= z -> (forall i, w <= i -> Z.testbit z i = false) -> is_word w z.
Proof.
  intros Hw Hz Hbits. split; [done|].
  destruct (Z.eq_dec z 0) as [->|Hnz]; [apply Z.pow_pos_nonneg; lia|].
  apply Z.log2_lt_pow2; [lia|].
  destruct (Z.lt_ge_cases (Z.log2 z) w) as [|Hge]; [done|].
  specialize (Hbits _ Hge). rewrite Z.bit_log2 in Hbits by lia. done.
Qed.

Lemma is_word_eq w a b :
  is_word w a -> is_word w b ->
  (forall i, 0 <= i < w -> Z.testbit a i = Z.testbit b i) -> a = b.
Proof.
  intros Ha Hb H. apply Z.bits_inj'. intros i Hi.
  destruct (Z.lt_ge_cases i w); [by apply H|].
  by rewrite !(is_word_bits w).
Qed.

Lemma is_word_land_l w a b : 0 <= w -> is_word w a -> is_word w (Z.land a b).
Proof.
  intros Hw Ha. apply is_word_intro; [done| |].
  - apply Z.land_nonneg. left. apply Ha.
  - intros i Hi. by rewrite Z.land_spec, (is_word_bits w a).
Qed.

Lemma is_word_land_r w a b : 0 <= w -> is_word w b -> is_word w (Z.land a b).
Proof. rewrite Z.land_comm. apply is_word_land_l. Qed.

Lemma is_word_lor w a b : 0 <= w -> is_word w a -> is_word w b -> is_word w (Z.lor a b).
Proof.
  intros Hw Ha Hb. apply is_word_intro; [done| |].
  - apply Z.lor_nonneg. unfold is_word in *. lia.
  - intros i Hi. by rewrite Z.lor_spec, !(is_word_bits w).
Qed.

Lemma is_word_lxor w a b : 0 <= w -> is_word w a -> is_word w b -> is_word w (Z.lxor a b).
Proof.
  intros Hw Ha Hb. apply is_word_intro; [done| |].
  - apply Z.lxor_nonneg. unfold is_word in *. lia.
  - intros i Hi. by rewrite Z.lxor_spec, !(is_word_bits w).
Qed.

Lemma is_word_shiftr w a n : 0 <= w -> 0 <= n -> is_word w a -> is_word w (Z.shiftr a n).
Proof.
  intros Hw Hn Ha. apply is_word_intro; [done| |].
  - apply Z.shiftr_nonneg. apply Ha.
  - intros i Hi. rewrite Z.shiftr_spec by lia. apply (is_word_bits w); [done|lia].
Qed.

Lemma is_word_weaken w w' a : w <= w' -> is_word w a -> is_word w' a.
Proof.
  intros Hw [H1 H2]. split; [done|]. eapply Z.lt_le_trans; [done|].
  apply Z.pow_le_mono_r; lia.
Qed.

Lemma is_word_shiftr_sub w n a : 0 <= n <= w -> is_word w a -> is_word (w - n) (Z.shiftr a n).
Proof.
  intros Hn Ha. apply is_word_intro; [lia| |].
  - apply Z.shiftr_nonneg. apply Ha.
  - intros i Hi. rewrite Z.shiftr_spec by lia. apply (is_word_bits w); [done|lia].
Qed.

Lemma is_word_all_ones w : 0 <= w -> is_word w (all_ones w).
Proof. intros. unfold is_word, all_ones. pose proof (Z.pow_pos_nonneg 2 w). lia. Qed.

Lemma addw_range w a b : 0 <= w -> is_word w (addw w a b).
Proof. apply wrap_range. Qed.
Lemma subw_range w a b : 0 <= w -> is_word w (subw w a b).
Proof. apply wrap_range. Qed.
Lemma mulw_range w a b : 0 <= w -> is_word w (mulw w a b).
Proof. apply wrap_range. Qed.
Lemma shlw_range w a b : 0 <= w -> is_word w (shlw w a b).
Proof. apply wrap_range. Qed.
Lemma notw_range w a : 0 <= w -> is_word w (notw w a).
Proof. apply wrap_range. Qed.

Lemma addw_zero w a : is_word w a -> addw w a 0 = a.
Proof. intros. unfold addw. by rewrite Z.add_0_r, wrap_small. Qed.

Lemma rolw_range w a n : 0 <= n <= w -> is_word w a -> is_word w (rolw w a n).
Proof.
  intros Hn Ha. unfold rolw. apply is_word_lor; [lia|apply shlw_range; lia|].
  apply is_word_shiftr; [lia|lia|done].
Qed.

Lemma rorw_range w a n : 0 <= n <= w -> is_word w a -> is_word w (rorw w a n).
Proof.
  intros Hn Ha. unfold rorw. apply is_word_lor; [lia| |apply shlw_range; lia].
  apply is_word_shiftr; [lia|lia|done].
Qed.

#[export] Hint Resolve wrap_range addw_range subw_range mulw_range shlw_range notw_range
  is_word_lor is_word_lxor is_word_land_l is_word_shiftr rolw_range rorw_range
  is_word_all_ones : word.

Lemma wrap_all_ones w z : 0 <= w -> wrap w z = Z.land z (all_ones w).
Proof.
  intros. unfold wrap, all_ones. rewrite <- Z.land_ones by done. by rewrite Z.ones_equiv, Z.sub_1_r.
Qed.

Lemma all_ones_bits w i : 0 <= w -> Z.testbit (all_ones w) i = (0 <=? i) && (i <? w).
Proof.
  intros. replace (all_ones w) with (Z.ones w) by (rewrite Z.ones_equiv; unfold all_ones; lia).
  destruct (Z.leb_spec 0 i).
  - rewrite Z.testbit_ones_nonneg by lia. done.
  - by rewrite Z.testbit_neg_r.
Qed.

Lemma shlw_bits w a n i : 0 <= w -> 0 <= i -> 0 <= n ->
  Z.testbit (shlw w a n) i = Z.testbit a (i - n) && (i <? w).
Proof. intros. unfold shlw. by rewrite wrap_bits, Z.shiftl_spec. Qed.

Lemma notw_bits w a i : 0 <= w -> 0 <= i ->
  Z.testbit (notw w a) i = negb (Z.testbit a i) && (i <? w).
Proof. intros. unfold notw. by rewrite wrap_bits, Z.lnot_spec. Qed.

Lemma notw_eq w a : is_word w a -> notw w a = all_ones w - a.
Proof.
  intros Ha. unfold notw, wrap, all_ones, Z.lnot.
  replace (Z.pred (- a)) with ((2 ^ w - 1 - a) + (-1) * 2 ^ w) by lia.
  rewrite Z.mod_add by (unfold is_word in Ha; lia).
  apply Z.mod_small. unfold is_word in Ha. lia.
Qed.

Lemma notw_zero_iff w a : is_word w a -> notw w a = 0 <-> a = all_ones w.
Proof. intros. rewrite notw_eq by done. lia. Qed.

Lemma word_nonzero_bit w a :
  is_word w a -> a <> 0 -> exists i, 0 <= i < w /\ Z.testbit a i = true.
Proof.
  intros Ha Hnz. exists (Z.log2 a). unfold is_word in Ha.
  split; [|apply Z.bit_log2; lia]. split; [apply Z.log2_nonneg|].
  apply Z.log2_lt_pow2; lia.
Qed.

Lemma all_ones_iff w a : 0 <= w -> is_word w a ->
  a = all_ones w <-> forall i, 0 <= i < w -> Z.testbit a i = true.
Proof.
  intros Hw Ha. split.
  - intros -> i Hi. rewrite all_ones_bits by done.
    apply andb_true_intro. split; [apply Z.leb_le|apply Z.ltb_lt]; lia.
  - intros H. apply (is_word_eq w); [done|by apply is_word_all_ones|].
    intros i Hi. rewrite H, all_ones_bits by done. symmetry.
    apply andb_true_intro. split; [apply Z.leb_le|apply Z.ltb_lt]; lia.
Qed.

Lemma c_true_iff z : c_true z = true <-> z <> 0.
Proof. unfold c_true. rewrite negb_true_iff. apply Z.eqb_neq. Qed.

Lemma c_true_false_iff z : c_true z = false <-> z = 0.
Proof. unfold c_true. rewrite negb_false_iff. apply Z.eqb_eq. Qed.

(** ** Arrays *)

Lemma drop_notin {A} (x : A) pre post : NoDup (pre ++ x :: post) -> NoDup (pre ++ post) /\ (x ∉ pre ++ post).
Proof. intros H. rewrite <- Permutation_middle in H. apply list.NoDup_cons in H. tauto. Qed.

Lemma arr_get_Some {A} (l : list A) i :
  0 <= i < zlength l -> exists x, arr_get l i = Some x.
Proof.
  intros Hi. unfold arr_get, zlength in *. destruct (Z.ltb_spec i 0); [lia|].
  apply lookup_lt_is_Some. lia.
Qed.

Lemma arr_get_range {A} (l : list A) i x :
  arr_get l i = Some x -> 0 <= i < zlength l.
Proof.
  unfold arr_get, zlength. destruct (Z.ltb_spec i 0); [done|].
  intros Hx%lookup_lt_Some. lia.
Qed.

Lemma arr_get_nat {A} (l : list A) (i : nat) : arr_get l (Z.of_nat i) = l !! i.
Proof. unfold arr_get. destruct (Z.ltb_spec (Z.of_nat i) 0); [lia|]. by rewrite Nat2Z.id. Qed.

Lemma arr_set_Some {A} (l : list A) i x :
  0 <= i < zlength l -> arr_set l i x = Some (<[Z.to_nat i := x]> l).
Proof.
  unfold zlength, arr_set. intros Hi.
  destruct (Z.leb_spec 0 i), (Z.ltb_spec i (Z.of_nat (length l))); try lia. done.
Qed.

Lemma arr_get_insert {A} (l : list A) i j x :
  0 <= i < zlength l ->
  arr_get (<[Z.to_nat i := x]> l) j = if decide (i = j) then Some x else arr_get l j.
Proof.
  unfold zlength, arr_get. intros Hi. destruct (Z.ltb_spec j 0).
  { rewrite decide_False by lia. done. }
  case_decide; subst.
  - apply list_lookup_insert_eq. lia.
  - apply list_lookup_insert_ne. lia.
Qed.

Lemma zlength_to_nat {A} (l : list A) : Z.to_nat (zlength l) = length l.
Proof. apply Nat2Z.id. Qed.

Lemma zlength_app {A} (l k : list A) : zlength (l ++ k) = zlength l + zlength k.
Proof. unfold zlength. rewrite length_app. lia. Qed.

Lemma zlength_insert {A} (l : list A) (i : nat) x : zlength (<[i := x]> l) = zlength l.
Proof. unfold zlength. by rewrite length_insert. Qed.

#[export] Hint Rewrite @zlength_insert : word.

Lemma tbl_replicate n d i : tbl (replicate n d) i = d \/ tbl (replicate n d) i = 0.
Proof.
  unfold tbl. rewrite nth_lookup. destruct (_ !! _) eqn:E; [|by right].
  apply lookup_replicate in E as [-> _]. by left.
Qed.

Lemma tbl_zeros n i : tbl (replicate n 0) i = 0.
Proof. by destruct (tbl_replicate n 0 i). Qed.

(** Unfolding equations, stated for any step function so that checking them never
    looks inside the step. *)
Lemma fold_left_cons {A B} (f : A -> B -> A) b l c : fold_left f (b :: l) c = fold_left f l (f c b).
Proof. reflexivity. Qed.

Lemma fmap_list_cons {A B} (f : A -> B) b l : f <$> (b :: l) = f b :: (f <$> l).
Proof. reflexivity. Qed.

Lemma fold_left_length {A B} (f : list A -> B -> list A) n : (forall l b, length (f l b) = n) ->
  forall l c, length c = n -> length (fold_left f l c) = n.
Proof. intros H l. induction l as [|b l IH]; intros c Hc; [done|]. rewrite fold_left_cons. by apply IH. Qed.

Lemma fold_left_ext_in {A B} (f g : A -> B -> A) l : (forall a b, b ∈ l -> f a b = g a b) ->
  forall c, fold_left f l c = fold_left g l c.
Proof.
  induction l as [|b l IH]; intros H c; [done|]. rewrite !fold_left_cons, H by apply list_elem_of_here.
  apply IH. intros. apply H. by apply list_elem_of_further.
Qed.

Lemma fold_left_ext {A B} (f g : A -> B -> A) : (forall a b, f a b = g a b) ->
  forall l c, fold_left f l c = fold_left g l c.
Proof. intros H l. induction l as [|b l IH]; intros c; [done|]. by rewrite !fold_left_cons, H, IH. Qed.

(** ** Counting *)

Definition count_if {A} (p : A -> bool) (xs : list A) : Z := zlength (List.filter p xs).

Lemma count_if_app {A} (p : A -> bool) xs ys : count_if p (xs ++ ys) = count_if p xs + count_if p ys.
Proof. unfold count_if. by rewrite List.filter_app, zlength_app. Qed.

Lemma count_if_le {A} (p : A -> bool) xs : 0 <= count_if p xs <= zlength xs.
Proof. unfold count_if, zlength. pose proof (List.filter_length_le p xs). lia. Qed.

Lemma count_if_ext {A} (p q : A -> bool) xs : (forall x, x ∈ xs -> p x = q x) -> count_if p xs = count_if q xs.
Proof.
  intros H. unfold count_if. f_equal. apply List.filter_ext_in. intros x Hx. apply H. by apply list_elem_of_In.
Qed.

Lemma count_if_perm {A} (p : A -> bool) xs ys : xs ≡ₚ ys -> count_if p xs = count_if p ys.
Proof.
  unfold count_if, zlength. induction 1 as [|x l l' _ IH|x y l|l l' l'' _ IH _ IH']; cbn [List.filter]; [done| | |lia].
  - destruct (p x); cbn [length]; lia.
  - destruct (p x), (p y); cbn [length]; lia.
Qed.

Lemma count_if_insert {A} (p : A -> bool) xs i a b : xs !! i = Some a ->
  count_if p (<[i := b]> xs) = count_if p xs - Z.b2z (p a) + Z.b2z (p b).
Proof.
  intros Hi. rewrite <- (take_drop_middle xs i a Hi) at 2. rewrite insert_take_drop by (by eapply lookup_lt_Some).
  rewrite !count_if_app. unfold count_if. cbn [List.filter]. destruct (p a), (p b); unfold zlength; cbn [length Z.b2z]; lia.
Qed.

Lemma count_if_pos {A} (p : A -> bool) xs : 0 < count_if p xs -> exists i a, xs !! i = Some a /\ p a = true.
Proof.
  unfold count_if. destruct (List.filter p xs) as [|a l] eqn:E; [done|]. intros _.
  assert (List.In a (List.filter p xs)) as [Ha Hp]%List.filter_In by (rewrite E; by left).
  apply list_elem_of_In, list_elem_of_lookup in Ha as [i Hi]. by exists i, a.
Qed.

Lemma count_if_some {A} (p : A -> bool) xs i a : xs !! i = Some a -> p a = true -> 0 < count_if p xs.
Proof.
  intros Hi Hp. pose proof (count_if_insert p xs i a a Hi) as H. rewrite <- (take_drop_middle xs i a Hi), count_if_app. unfold count_if at 2.
  cbn [List.filter]. rewrite Hp. pose proof (count_if_le p (take i xs)). unfold zlength in *. cbn [length]. lia.
Qed.

Definition in_range (lo n x : Z) : bool := (lo <=? x) && (x <? lo + n).

Lemma count_seq_split p lo n k : 0 <= k <= n ->
  count_if p (seqZ lo n) = count_if p (seqZ lo k) + count_if p (seqZ (lo + k) (n - k)).
Proof. intros. replace n with (k + (n - k)) at 1 by lia. rewrite seqZ_app by lia. apply count_if_app. Qed.

Lemma count_all p lo n : 0 <= n -> (forall x, lo <= x < lo + n -> p x = true) -> count_if p (seqZ lo n) = n.
Proof.
  intros Hn H. unfold count_if. rewrite List.forallb_filter_id.
  - unfold zlength. rewrite length_seqZ. lia.
  - apply forallb_forall. intros x Hx%list_elem_of_In%elem_of_seqZ. apply H. lia.
Qed.

Lemma count_none p lo n : (forall x, lo <= x < lo + n -> p x = false) -> count_if p (seqZ lo n) = 0.
Proof.
  intros H. rewrite (count_if_ext p (fun _ => false)); [|intros x Hx%elem_of_seqZ; apply H; lia].
  unfold count_if. by induction (seqZ lo n).
Qed.

Lemma zlength_seqZ lo n : 0 <= n -> zlength (seqZ lo n) = n.
Proof. intros. unfold zlength. rewrite length_seqZ. lia. Qed.

(** ** Tactics *)

(** Equalities between bitwise expressions, bit by bit. *)
Ltac bits :=
  apply Z.bits_inj'; intros ?i ?Hi;
  rewrite ?Z.lxor_spec, ?Z.land_spec, ?Z.lor_spec, ?Z.lnot_spec by assumption;
  rewrite ?Z.lxor_spec, ?Z.land_spec, ?Z.lor_spec, ?Z.lnot_spec, ?Z.bits_0 by assumption;
  btauto.

(** Remove the reductions under an outer [wrap]. *)
Ltac wraps :=
  unfold addw, subw, mulw;
  lazymatch goal with |- wrap ?w ?a = wrap ?w ?b => change (eqw w a b) end;
  rewrite ?wrap_eqw; unfold eqw.

(** Iterates that come back. *)
Lemma iter_mul {A} (f : A -> A) a k u : Nat.iter a f u = u -> Nat.iter (k * a) f u = u.
Proof. intros H. induction k as [|k IH]; [done|]. cbn [Nat.mul]. by rewrite Nat.iter_add, IH. Qed.

Lemma iter_mod {A} (f : A -> A) a m u : a <> 0%nat -> Nat.iter a f u = u -> Nat.iter m f u = Nat.iter (m mod a) f u.
Proof.
  intros Ha H. transitivity (Nat.iter (m mod a + m / a * a) f u).
  - f_equal. pose proof (Nat.div_mod m a Ha). lia.
  - by rewrite Nat.iter_add, iter_mul.
Qed.

Lemma iter_gcd {A} (f : A -> A) a : forall b u, Nat.iter a f u = u -> Nat.iter b f u = u -> Nat.iter (Nat.gcd a b) f u = u.
Proof.
  induction (lt_wf a) as [a _ IH]. intros b u Ha Hb. destruct a as [|a]; [done|].
  change (Nat.gcd (S a) b) with (Nat.gcd (b mod S a) (S a)). apply IH; [pose proof (Nat.mod_upper_bound b (S a)); lia| |done].
  by rewrite <- iter_mod.
Qed.

(** Case analysis on every boolean comparison of integers in the goal. *)
Ltac zcases :=
  repeat match goal with
  | |- context [?a <? ?b] => destruct (Z.ltb_spec a b)
  | |- context [?a <=? ?b] => destruct (Z.leb_spec a b)
  | |- context [?a =? ?b] => destruct (Z.eqb_spec a b)
  end.

Ltac zcases_in H :=
  repeat match type of H with
  | context [?a <? ?b] => destruct (Z.ltb_spec a b)
  | context [?a <=? ?b] => destruct (Z.leb_spec a b)
  | context [?a =? ?b] => destruct (Z.eqb_spec a b)
  end.

(** Changing a predicate from [c] to the other value on a range changes the count by
    the length of the range. *)
Lemma count_flip (p p' : Z -> bool) c lo n N : 0 <= lo -> 0 <= n -> lo + n <= N -> (forall x, lo <= x < lo + n -> p x = c) ->
  (forall x, 0 <= x < N -> p' x = if in_range lo n x then negb c else p x) ->
  count_if p' (seqZ 0 N) = count_if p (seqZ 0 N) + (if c then - n else n).
Proof.
  intros Hlo Hn Hin Hr Hx. rewrite !(count_seq_split _ 0 N lo) by lia. rewrite !(count_seq_split _ (0 + lo) (N - lo) n) by lia.
  assert (forall a b, 0 <= a -> a + b <= N -> (forall x, a <= x < a + b -> in_range lo n x = false) ->
    count_if p' (seqZ a b) = count_if p (seqZ a b)) as Hout.
  { intros a b Ha Hab H. apply count_if_ext. intros x Hx'%elem_of_seqZ. rewrite Hx, H by lia. done. }
  rewrite (Hout 0 lo), (Hout (0 + lo + n) (N - lo - n)) by (lia || (intros x ?; unfold in_range; zcases; cbn; done || lia)).
  assert (forall x, 0 + lo <= x < 0 + lo + n -> p x = c /\ p' x = negb c) as Hmid.
  { intros x Hx'. split; [apply Hr; lia|]. rewrite Hx by lia. unfold in_range.
    destruct (Z.leb_spec lo x), (Z.ltb_spec x (lo + n)); done || lia. }
  destruct c; cbn [negb] in Hmid.
  - rewrite (count_none p' (0 + lo) n), (count_all p (0 + lo) n); [lia|lia| |]; intros x Hx'; by destruct (Hmid x Hx').
  - rewrite (count_all p' (0 + lo) n), (count_none p (0 + lo) n); [lia| |lia|]; intros x Hx'; by destruct (Hmid x Hx').
Qed.

(** * What happens whatever is chosen

    Every way to go on comes to a state that [P] holds of, and none of them is stuck
    before. *)
Inductive inevitably {A} (R : A -> A -> Prop) (P : A -> Prop) (a : A) : Prop :=
  | inevitably_now : P a -> inevitably R P a
  | inevitably_later : (exists b, R a b) -> (forall b, R a b -> inevitably R P b) -> inevitably R P a.

(** A measure that each step lowers. *)
Lemma inevitably_measure {A} (R : A -> A -> Prop) (P I : A -> Prop) (m : A -> Z) : (forall a, I a -> 0 <= m a) ->
  (forall a, I a -> P a \/ (exists b, R a b) /\ forall b, R a b -> I b /\ m b < m a) -> forall a, I a -> inevitably R P a.
Proof.
  intros Hpos Hstep. assert (forall (n : nat) a, m a < Z.of_nat n -> I a -> inevitably R P a) as Hn.
  { induction n as [|n IH]; intros a Hm Ha; [pose proof (Hpos a Ha); lia|]. destruct (Hstep a Ha) as [Hp|[He Hall]]; [by apply inevitably_now|].
    apply inevitably_later; [done|]. intros b Hb. destruct (Hall b Hb). apply IH; [lia|done]. }
  intros a Ha. apply (Hn (S (Z.to_nat (m a)))); [pose proof (Hpos a Ha); lia|done].
Qed.
