(* ===== verification/Bits.v ===== *)
(** Bit-scan and population-count helpers: lib/ffz.h, lib/fls.h, lib/hweight.c,
    lib/pow2.h and lib/roundup.h. *)
From S2P Require Import Prelude.

(** * Definitions *)

(** [ffs64]: binary search for the lowest set bit, each [if] as in the source. *)
Definition ffs64 (word : Z) : Z :=
  let r := 0 in
  let '(word, r) := if Z.land word 0xffffffff =? 0 then (Z.shiftr word 32, r + 32) else (word, r) in
  let '(word, r) := if Z.land word 0xffff =? 0 then (Z.shiftr word 16, r + 16) else (word, r) in
  let '(word, r) := if Z.land word 0xff =? 0 then (Z.shiftr word 8, r + 8) else (word, r) in
  let '(word, r) := if Z.land word 0xf =? 0 then (Z.shiftr word 4, r + 4) else (word, r) in
  let '(word, r) := if Z.land word 3 =? 0 then (Z.shiftr word 2, r + 2) else (word, r) in
  if Z.land word 1 =? 0 then r + 1 else r.

(** [ffz] takes an [unsigned long], 64 bits wide on the LP64 targets modelled here. *)
Definition ffz (bitmask : Z) : Z := ffs64 (notw 64 bitmask).
Definition ffz64 (bitmask : Z) : Z := ffs64 (notw 64 bitmask).

(** [__fls]: the argument is an [int]; its bit pattern is the 32-bit word [x]. *)
Definition __fls (x : Z) : Z :=
  let r := 32 in
  if x =? 0 then 0 else
  let '(x, r) := if Z.land x 0xffff0000 =? 0 then (shlw 32 x 16, r - 16) else (x, r) in
  let '(x, r) := if Z.land x 0xff000000 =? 0 then (shlw 32 x 8, r - 8) else (x, r) in
  let '(x, r) := if Z.land x 0xf0000000 =? 0 then (shlw 32 x 4, r - 4) else (x, r) in
  let '(x, r) := if Z.land x 0xc0000000 =? 0 then (shlw 32 x 2, r - 2) else (x, r) in
  if Z.land x 0x80000000 =? 0 then r - 1 else r.

Definition is_power_of_2 (val : Z) : bool :=
  c_true val && (Z.land val (subw 64 val 1) =? 0).

(** [roundup_pow2] returns [unsigned]: [1UL << 32] is truncated to 0. *)
Definition roundup_pow2 (depth : Z) : Z :=
  wrap 32 (shlw 64 1 (__fls (subw 32 depth 1))).

Definition hweight8 (w : Z) : Z :=
  let res := subw 32 w (Z.land (Z.shiftr w 1) 0x55) in
  let res := addw 32 (Z.land res 0x33) (Z.land (Z.shiftr res 2) 0x33) in
  Z.land (addw 32 res (Z.shiftr res 4)) 0x0F.

Definition hweight32 (w : Z) : Z :=
  let res := subw 32 w (Z.land (Z.shiftr w 1) 0x55555555) in
  let res := addw 32 (Z.land res 0x33333333) (Z.land (Z.shiftr res 2) 0x33333333) in
  let res := Z.land (addw 32 res (Z.shiftr res 4)) 0x0F0F0F0F in
  let res := addw 32 res (Z.shiftr res 8) in
  Z.land (addw 32 res (Z.shiftr res 16)) 0x000000FF.

Definition hweight64 (w : Z) : Z :=
  let res := subw 64 w (Z.land (Z.shiftr w 1) 0x5555555555555555) in
  let res := addw 64 (Z.land res 0x3333333333333333)
                     (Z.land (Z.shiftr res 2) 0x3333333333333333) in
  let res := Z.land (addw 64 res (Z.shiftr res 4)) 0x0F0F0F0F0F0F0F0F in
  let res := addw 64 res (Z.shiftr res 8) in
  let res := addw 64 res (Z.shiftr res 16) in
  Z.land (addw 64 res (Z.shiftr res 32)) 0x00000000000000FF.

(** * The lowest set bit *)

(** [r] is the index of the lowest set bit of [z]. *)
Definition lowest_bit (z r : Z) : Prop :=
  0 <= r /\ Z.testbit z r = true /\ forall j, 0 <= j < r -> Z.testbit z j = false.

Lemma lowest_bit_unique z r r' : lowest_bit z r -> lowest_bit z r' -> r = r'.
Proof.
  intros (H1 & H2 & H3) (H4 & H5 & H6).
  destruct (Z.lt_trichotomy r r') as [Hlt|[->|Hlt]]; [|done|].
  - rewrite H6 in H2 by lia. done.
  - rewrite H3 in H5 by lia. done.
Qed.

(** One step of the binary search: either the low half is empty and the word is
    shifted down, or the lowest bit lies in the low half. *)
Lemma ffs_step k z r : 0 < k -> lowest_bit z r -> r < 2 * k ->
  exists r', r = r' + (if Z.land z (Z.ones k) =? 0 then k else 0) /\
    lowest_bit (if Z.land z (Z.ones k) =? 0 then Z.shiftr z k else z) r' /\ r' < k.
Proof.
  intros Hk (Hr & Hbit & Hlow) Hlt. destruct (Z.eqb_spec (Z.land z (Z.ones k)) 0) as [E|E].
  - assert (k <= r) as Hkr.
    { destruct (Z.lt_ge_cases r k) as [Hlt'|]; [|done].
      assert (Z.testbit (Z.land z (Z.ones k)) r = true) as Ht.
      { rewrite Z.land_spec, Hbit, Z.testbit_ones_nonneg by lia. apply Z.ltb_lt. lia. }
      by rewrite E, Z.bits_0 in Ht. }
    exists (r - k). split; [lia|]. split; [|lia]. split; [lia|]. split.
    + rewrite Z.shiftr_spec by lia. by replace (r - k + k) with r by lia.
    + intros j Hj. rewrite Z.shiftr_spec by lia. apply Hlow. lia.
  - exists r. split; [lia|]. split; [done|].
    destruct (Z.lt_ge_cases r k) as [|Hge]; [done|]. exfalso. apply E.
    apply Z.bits_inj'. intros i Hi. rewrite Z.land_spec, Z.bits_0.
    rewrite Z.testbit_ones_nonneg by lia. destruct (Z.ltb_spec i k).
    + by rewrite Hlow by lia.
    + by rewrite andb_false_r.
Qed.

Lemma ffs64_spec z r : lowest_bit z r -> r < 64 -> ffs64 z = r.
Proof.
  intros Hl Hlt. unfold ffs64.
  destruct (ffs_step 32 z r ltac:(lia) Hl Hlt) as (r1 & E1 & H1 & L1).
  change (Z.ones 32) with 0xffffffff in *. destruct (Z.land z 0xffffffff =? 0).
  all: match type of H1 with lowest_bit ?x _ => set (z1 := x) in * end.
  all: destruct (ffs_step 16 z1 r1 ltac:(lia) H1 ltac:(lia)) as (r2 & E2 & H2 & L2).
  all: change (Z.ones 16) with 0xffff in *; destruct (Z.land z1 0xffff =? 0).
  all: match type of H2 with lowest_bit ?x _ => set (z2 := x) in * end.
  all: destruct (ffs_step 8 z2 r2 ltac:(lia) H2 ltac:(lia)) as (r3 & E3 & H3 & L3).
  all: change (Z.ones 8) with 0xff in *; destruct (Z.land z2 0xff =? 0).
  all: match type of H3 with lowest_bit ?x _ => set (z3 := x) in * end.
  all: destruct (ffs_step 4 z3 r3 ltac:(lia) H3 ltac:(lia)) as (r4 & E4 & H4 & L4).
  all: change (Z.ones 4) with 0xf in *; destruct (Z.land z3 0xf =? 0).
  all: match type of H4 with lowest_bit ?x _ => set (z4 := x) in * end.
  all: destruct (ffs_step 2 z4 r4 ltac:(lia) H4 ltac:(lia)) as (r5 & E5 & H5 & L5).
  all: change (Z.ones 2) with 3 in *; destruct (Z.land z4 3 =? 0).
  all: match type of H5 with lowest_bit ?x _ => set (z5 := x) in * end.
  all: destruct (ffs_step 1 z5 r5 ltac:(lia) H5 ltac:(lia)) as (r6 & E6 & H6 & L6).
  all: change (Z.ones 1) with 1 in *; destruct (Z.land z5 1 =? 0); destruct H6; lia.
Qed.

Lemma lowest_bit_below z (n : nat) :
  (exists r, lowest_bit z r /\ r < Z.of_nat n) \/
  (forall j, 0 <= j < Z.of_nat n -> Z.testbit z j = false).
Proof.
  induction n as [|n [(r & ? & ?)|IH]]; [right; lia|left; exists r; split; [done|lia]|].
  destruct (Z.testbit z (Z.of_nat n)) eqn:E.
  - left. exists (Z.of_nat n). split; [|lia]. split; [lia|]. split; [done|]. auto.
  - right. intros j Hj. destruct (Z.eq_dec j (Z.of_nat n)) as [->|]; [done|]. apply IH. lia.
Qed.

Lemma lowest_bit_exists w z : is_word w z -> z <> 0 ->
  exists r, lowest_bit z r /\ 0 <= r < w.
Proof.
  intros Hz Hnz. destruct (word_nonzero_bit w z Hz Hnz) as (i & Hi & Hb).
  destruct (lowest_bit_below z (Z.to_nat w)) as [(r & Hr & ?)|H].
  - exists r. split; [done|]. destruct Hr. lia.
  - rewrite H in Hb by lia. done.
Qed.

(** [ffs64] of a nonzero 64-bit word is the index of its lowest set bit. *)
Lemma ffs64_lowest z : is_word 64 z -> z <> 0 -> lowest_bit z (ffs64 z) /\ 0 <= ffs64 z < 64.
Proof.
  intros Hz Hnz. destruct (lowest_bit_exists 64 z Hz Hnz) as (r & Hr & Hlt).
  rewrite (ffs64_spec z r) by (done || lia). done.
Qed.

Lemma ffz_spec z : is_word 64 z -> z <> all_ones 64 ->
  0 <= ffz z < 64 /\ Z.testbit z (ffz z) = false /\
  forall j, 0 <= j < ffz z -> Z.testbit z j = true.
Proof.
  intros Hz Hne. unfold ffz.
  destruct (ffs64_lowest (notw 64 z)) as ((H1 & H2 & H3) & H4).
  - apply notw_range. lia.
  - rewrite notw_zero_iff by done. done.
  - split; [done|]. split.
    + rewrite notw_bits in H2 by lia. by destruct (Z.testbit z _).
    + intros j Hj. specialize (H3 j Hj). rewrite notw_bits in H3 by lia.
      destruct (Z.ltb_spec j 64); [|lia]. by destruct (Z.testbit z j).
Qed.

Lemma is_power_of_2_spec v : is_power_of_2 v = true -> is_word 64 v -> exists k, 0 <= k /\ v = 2 ^ k.
Proof.
  unfold is_power_of_2. intros [Hv%c_true_iff Hl%Z.eqb_eq]%andb_prop Hw. unfold is_word in Hw. exists (Z.log2 v).
  split; [apply Z.log2_nonneg|]. pose proof (Z.log2_spec v ltac:(lia)) as [Hlo Hhi].
  destruct (Z.eq_dec v (2 ^ Z.log2 v)) as [|Hne]; [done|]. exfalso.
  assert (Z.log2 (v - 1) = Z.log2 v) as El by (apply Z.log2_unique; [apply Z.log2_nonneg|lia]).
  apply (f_equal (fun x => Z.testbit x (Z.log2 v))) in Hl. rewrite Z.land_spec, Z.bits_0, Z.bit_log2 in Hl by lia.
  unfold subw in Hl. rewrite wrap_small in Hl by (unfold is_word; lia). rewrite <- El in Hl at 1. rewrite El in Hl.
  rewrite <- El, Z.bit_log2 in Hl; [done|]. apply Z.le_succ_l. destruct (Z.eq_dec v 1) as [->|]; [done|lia].
Qed.
