(* ===== verification/Axmap.v ===== *)
(** lib/axmap.c: the bitmap of bitmaps that records which blocks of a file have
    been visited.  Level 0 holds one bit per block; a bit of level [n+1] says that
    the corresponding word of level [n] is full. *)
From S2P Require Import Prelude Bits.

Definition UNIT_SHIFT : Z := 6.
Definition BLOCKS_PER_UNIT : Z := 64.
Definition BLOCKS_PER_UNIT_MASK : Z := 63.
Definition ULONG_MAX : Z := all_ones 64.

(** The table [bit_masks]: entry [n] has the [n] low bits set. *)
Definition bit_masks : list Z := [
  0x0000000000000000; 0x0000000000000001; 0x0000000000000003; 0x0000000000000007;
  0x000000000000000f; 0x000000000000001f; 0x000000000000003f; 0x000000000000007f;
  0x00000000000000ff; 0x00000000000001ff; 0x00000000000003ff; 0x00000000000007ff;
  0x0000000000000fff; 0x0000000000001fff; 0x0000000000003fff; 0x0000000000007fff;
  0x000000000000ffff; 0x000000000001ffff; 0x000000000003ffff; 0x000000000007ffff;
  0x00000000000fffff; 0x00000000001fffff; 0x00000000003fffff; 0x00000000007fffff;
  0x0000000000ffffff; 0x0000000001ffffff; 0x0000000003ffffff; 0x0000000007ffffff;
  0x000000000fffffff; 0x000000001fffffff; 0x000000003fffffff; 0x000000007fffffff;
  0x00000000ffffffff;
  0x00000001ffffffff; 0x00000003ffffffff; 0x00000007ffffffff; 0x0000000fffffffff;
  0x0000001fffffffff; 0x0000003fffffffff; 0x0000007fffffffff; 0x000000ffffffffff;
  0x000001ffffffffff; 0x000003ffffffffff; 0x000007ffffffffff; 0x00000fffffffffff;
  0x00001fffffffffff; 0x00003fffffffffff; 0x00007fffffffffff; 0x0000ffffffffffff;
  0x0001ffffffffffff; 0x0003ffffffffffff; 0x0007ffffffffffff; 0x000fffffffffffff;
  0x001fffffffffffff; 0x003fffffffffffff; 0x007fffffffffffff; 0x00ffffffffffffff;
  0x01ffffffffffffff; 0x03ffffffffffffff; 0x07ffffffffffffff; 0x0fffffffffffffff;
  0x1fffffffffffffff; 0x3fffffffffffffff; 0x7fffffffffffffff; 0xffffffffffffffff ].

Record axmap_level : Type := mk_level {
  level : Z;
  map_size : Z;
  map : list Z;
}.

Record axmap : Type := mk_axmap {
  nr_levels : Z;
  levels : list axmap_level;
  nr_bits : Z;
}.

Definition set_map (al : axmap_level) (m : list Z) : axmap_level :=
  mk_level (level al) (map_size al) m.

Definition set_levels (ax : axmap) (ls : list axmap_level) : axmap :=
  mk_axmap (nr_levels ax) ls (nr_bits ax).

(** [axmap_reset]: every word of every level becomes 0. *)
Definition axmap_reset (ax : axmap) : axmap :=
  set_levels ax ((fun al => set_map al (replicate (Z.to_nat (map_size al)) 0)) <$> levels ax).

(** The number of levels, counted in a [while (i > 1)] loop on an [unsigned int]. *)
Fixpoint count_levels (fuel : nat) (i levels : Z) : Z :=
  match fuel with
  | O => levels
  | S fuel =>
      if 1 <? i then
        count_levels fuel (Z.shiftr (addw 32 i (BLOCKS_PER_UNIT - 1)) UNIT_SHIFT) (levels + 1)
      else levels
  end.

(** The level array: [nr_bits] shrinks 64-fold per level.  [None] is the failure
    of a [malloc], which [alloc] decides from the number of bytes asked for. *)
Fixpoint build_levels (alloc : Z -> bool) (n : nat) (i nr_bits : Z) : option (list axmap_level) :=
  match n with
  | O => Some []
  | S n =>
      let nr_bits := Z.shiftr (addw 64 nr_bits (BLOCKS_PER_UNIT - 1)) UNIT_SHIFT in
      if alloc (mulw 64 nr_bits 8) then
        let* rest := build_levels alloc n (i + 1) nr_bits in
        Some (mk_level i nr_bits (replicate (Z.to_nat nr_bits) 0) :: rest)
      else None
  end.

(** [axmap_new]; [None] is the [NULL] result.  32 iterations are enough for
    [count_levels]: each divides a 32-bit number by 64.  [struct axmap] and
    [struct axmap_level] are 24 bytes each. *)
Definition axmap_new (alloc : Z -> bool) (nr_bits : Z) : option axmap :=
  if negb (alloc 24) then None else
  let i := wrap 32 (Z.shiftr (addw 64 nr_bits (BLOCKS_PER_UNIT - 1)) UNIT_SHIFT) in
  let levels := count_levels 32 i 1 in
  if negb (alloc (levels * 24)) then None else
  let* ls := build_levels alloc (Z.to_nat levels) 0 nr_bits in
  Some (axmap_reset (mk_axmap levels ls nr_bits)).

(** [axmap_handler]: [func] on each level from level 0 up, until it returns true.
    [func] may update the level and the caller's data. *)
Fixpoint axmap_handler {D} (func : axmap_level -> Z -> Z -> D -> option (bool * axmap_level * D))
    (ls : list axmap_level) (index : Z) (data : D) : option (bool * list axmap_level * D) :=
  match ls with
  | [] => Some (false, [], data)
  | al :: rest =>
      let offset := Z.shiftr index UNIT_SHIFT in
      let bit := Z.land index BLOCKS_PER_UNIT_MASK in
      let* '(stop, al, data) := func al offset bit data in
      if (stop : bool) then Some (true, al :: rest, data) else
      let index := if c_true index then Z.shiftr index UNIT_SHIFT else index in
      let* '(res, rest, data) := axmap_handler func rest index data in
      Some (res, al :: rest, data)
  end.

(** [axmap_handler_topdown]: from the highest level down; [n] levels remain. *)
Fixpoint axmap_handler_topdown (func : axmap_level -> Z -> Z -> option bool)
    (ls : list axmap_level) (n : nat) (bit_nr : Z) : option bool :=
  match n with
  | O => Some false
  | S i =>
      let index := Z.shiftr bit_nr (UNIT_SHIFT * Z.of_nat i) in
      let offset := Z.shiftr index UNIT_SHIFT in
      let bit := Z.land index BLOCKS_PER_UNIT_MASK in
      let* al := ls !! i in
      let* r := func al offset bit in
      if (r : bool) then Some true else axmap_handler_topdown func ls i bit_nr
  end.

Record axmap_set_data : Type := mk_set_data { d_nr_bits : Z; d_set_bits : Z }.

(** [axmap_set_fn]: set at most [d_nr_bits] bits of one word; true stops the walk. *)
Definition axmap_set_fn (al : axmap_level) (offset bit : Z) (data : axmap_set_data)
    : option (bool * axmap_level * axmap_set_data) :=
  let nr_bits := Z.min (d_nr_bits data) (BLOCKS_PER_UNIT - bit) in
  let* m := arr_get bit_masks nr_bits in
  let mask := shlw 64 m bit in
  let* word := arr_get (map al) offset in
  let overlap := Z.land word mask in
  if overlap =? mask then Some (true, al, mk_set_data (d_nr_bits data) 0) else
  let nr_bits' := if c_true overlap then ffz (notw 64 overlap) - bit else nr_bits in
  if c_true overlap && (nr_bits' =? 0) then Some (true, al, data) else
  let* m' := arr_get bit_masks nr_bits' in
  let mask := if c_true overlap then shlw 64 m' bit else mask in
  let* _ := c_assert (c_true mask) in
  let* _ := c_assert (negb (c_true (Z.land word mask))) in
  let* new_map := arr_set (map al) offset (Z.lor word mask) in
  let set_bits := if level al =? 0 then nr_bits' else d_set_bits data in
  Some (negb (Z.lor word mask =? ULONG_MAX), set_map al new_map, mk_set_data 1 set_bits).

(** [__axmap_set]; the clipped bit count is computed and only used by the assertion. *)
Definition __axmap_set (ax : axmap) (bit_nr : Z) (data : axmap_set_data)
    : option (axmap * axmap_set_data) :=
  let n := d_nr_bits data in
  if nr_bits ax <? bit_nr then Some (ax, data) else
  let n := if nr_bits ax <? addw 64 bit_nr n then wrap 32 (nr_bits ax - bit_nr) else n in
  let* _ := c_assert (n <=? BLOCKS_PER_UNIT) in
  let* '(_, ls, data) := axmap_handler axmap_set_fn (levels ax) bit_nr data in
  Some (set_levels ax ls, data).

Definition axmap_set (ax : axmap) (bit_nr : Z) : option axmap :=
  let* r := __axmap_set ax bit_nr (mk_set_data 1 0) in
  Some (fst r).

(** [axmap_set_nr]: the [do ... while (nr_bits)] loop, one word per iteration.
    [fuel] bounds the iterations. *)
Fixpoint axmap_set_nr_loop (fuel : nat) (ax : axmap) (bit_nr nr_bits set_bits : Z)
    : option (axmap * Z) :=
  match fuel with
  | O => None
  | S fuel =>
      let max_bits := BLOCKS_PER_UNIT - Z.land bit_nr BLOCKS_PER_UNIT_MASK in
      let this_set := if max_bits <? nr_bits then max_bits else nr_bits in
      let* '(ax, data) := __axmap_set ax bit_nr (mk_set_data this_set 0) in
      let set_bits := addw 32 set_bits (d_set_bits data) in
      if negb (d_set_bits data =? this_set) then Some (ax, set_bits) else
      let nr_bits := subw 32 nr_bits (d_set_bits data) in
      let bit_nr := addw 64 bit_nr (d_set_bits data) in
      if c_true nr_bits then axmap_set_nr_loop fuel ax bit_nr nr_bits set_bits
      else Some (ax, set_bits)
  end.

(** An iteration that continues consumes at least one of the [nr_bits] bits. *)
Definition axmap_set_nr (ax : axmap) (bit_nr nr_bits : Z) : option (axmap * Z) :=
  axmap_set_nr_loop (S (Z.to_nat nr_bits)) ax bit_nr nr_bits 0.

Definition axmap_isset_fn (al : axmap_level) (offset bit : Z) : option bool :=
  let* word := arr_get (map al) offset in
  Some (c_true (Z.land word (shlw 64 1 bit))).

Definition axmap_isset (ax : axmap) (bit_nr : Z) : option bool :=
  if bit_nr <=? nr_bits ax then
    axmap_handler_topdown axmap_isset_fn (levels ax) (Z.to_nat (nr_levels ax)) bit_nr
  else Some false.

(** The inner [for (offset++; offset < al->map_size; offset++)] of
    [axmap_find_first_free]: the first word with a free bit, with [temp]. *)
Fixpoint find_word (n : nat) (al : axmap_level) (offset : Z) : option (option (Z * Z)) :=
  match n with
  | O => Some None
  | S n =>
      if offset <? map_size al then
        let* word := arr_get (map al) offset in
        let temp := notw 64 word in
        if c_true temp then Some (Some (offset, temp)) else find_word n al (offset + 1)
      else Some None
  end.

(** One level of [axmap_find_first_free]: the index found at the level below the
    previous one, or [Some None] for the early [return -1]. *)
Definition find_level (al : axmap_level) (i index bit_nr : Z) : option (option Z) :=
  let index := shlw 64 index UNIT_SHIFT in
  let base_index := Z.shiftr bit_nr (UNIT_SHIFT * i) in
  let index := if index <? base_index then base_index else index in
  let offset := Z.shiftr index UNIT_SHIFT in
  let bit := Z.land index BLOCKS_PER_UNIT_MASK in
  if map_size al <=? offset then Some None else
  let* word := arr_get (map al) offset in
  let* m := arr_get bit_masks bit in
  let temp := Z.land (notw 64 m) (notw 64 word) in
  let* found := (if c_true temp then Some (Some (offset, temp))
                 else find_word (Z.to_nat (map_size al)) al (offset + 1)) in
  Some (match found with
        | Some (offset, temp) => Some (addw 64 (shlw 64 offset UNIT_SHIFT) (ffz (notw 64 temp)))
        | None => None
        end).

Fixpoint find_first_free_loop (ls : list axmap_level) (n : nat) (index bit_nr : Z)
    : option (option Z) :=
  match n with
  | O => Some (Some index)
  | S i =>
      let* al := ls !! i in
      let* r := find_level al (Z.of_nat i) index bit_nr in
      match r with
      | None => Some None
      | Some index => find_first_free_loop ls i index bit_nr
      end
  end.

(** [-1ULL] is the failure value. *)
Definition axmap_find_first_free (ax : axmap) (bit_nr : Z) : option Z :=
  let* r := find_first_free_loop (levels ax) (Z.to_nat (nr_levels ax)) 0 bit_nr in
  match r with
  | None => Some ULONG_MAX
  | Some index => Some (if nr_bits ax <=? index then ULONG_MAX else index)
  end.

Definition axmap_next_free (ax : axmap) (bit_nr : Z) : option Z :=
  if nr_bits ax <=? bit_nr then Some ULONG_MAX else
  let next_bit := addw 64 bit_nr 1 in
  let next_bit := if next_bit =? nr_bits ax then 0 else next_bit in
  let offset := Z.shiftr next_bit UNIT_SHIFT in
  let bit := Z.land next_bit BLOCKS_PER_UNIT_MASK in
  let* al := levels ax !! 0%nat in
  let* word := arr_get (map al) offset in
  let* m := arr_get bit_masks bit in
  let temp := Z.land (notw 64 m) (notw 64 word) in
  let* ret := (if c_true temp then
                 let ret := addw 64 (shlw 64 offset UNIT_SHIFT) (ffz (notw 64 temp)) in
                 Some (if nr_bits ax <=? ret then ULONG_MAX else ret)
               else axmap_find_first_free ax next_bit) in
  if (ret =? ULONG_MAX) && negb (next_bit =? 0) then axmap_find_first_free ax 0 else Some ret.

(** ** Sample runs *)

Definition sample : option axmap := axmap_new (fun _ => true) 200.

Example sample_set :
  (let* ax := sample in let* r := axmap_set_nr ax 60 80 in Some (snd r)) = Some 80.
Proof. vm_compute. reflexivity. Qed.

Example sample_isset :
  (let* ax := sample in let* r := axmap_set_nr ax 60 80 in axmap_isset (fst r) 139) = Some true.
Proof. vm_compute. reflexivity. Qed.

Example sample_next :
  (let* ax := sample in let* r := axmap_set_nr ax 60 80 in axmap_next_free (fst r) 61) = Some 140.
Proof. vm_compute. reflexivity. Qed.

Example sample_wrap :
  (let* ax := sample in let* r := axmap_set_nr ax 60 140 in axmap_next_free (fst r) 61) = Some 0.
Proof. vm_compute. reflexivity. Qed.
(** * Invariant *)

(** Bit [k] of a level, false outside of its map. *)
Definition lbit (al : axmap_level) (k : Z) : bool :=
  match arr_get (map al) (k / 64) with
  | Some w => Z.testbit w (k mod 64)
  | None => false
  end.

(** Word [k] of a level is full. *)
Definition full (al : axmap_level) (k : Z) : bool :=
  match arr_get (map al) k with
  | Some w => w =? ULONG_MAX
  | None => false
  end.

Definition wf_level (al : axmap_level) : Prop :=
  zlength (map al) = map_size al /\ Forall (is_word 64) (map al).

(** [up] summarises [lo]: one bit per word, set exactly when the word is full. *)
Definition summary (lo up : axmap_level) : Prop :=
  map_size up = (map_size lo + 63) / 64 /\
  forall k, 0 <= k -> lbit up k = full lo k.

Fixpoint wf_levels (i : Z) (ls : list axmap_level) : Prop :=
  match ls with
  | [] => True
  | al :: rest =>
      level al = i /\ wf_level al /\
      match rest with [] => True | up :: _ => summary al up end /\
      wf_levels (i + 1) rest
  end.

(** A map made by [axmap_new] and updated by the operations below. *)
Definition axmap_ok (ax : axmap) : Prop :=
  nr_levels ax = zlength (levels ax) /\ 1 <= nr_levels ax /\
  0 <= nr_bits ax < 2 ^ 62 /\ wf_levels 0 (levels ax) /\
  forall al, levels ax !! 0%nat = Some al -> map_size al = (nr_bits ax + 63) / 64.

(** The abstract value of a map: the set of the block numbers recorded in it. *)
Definition member (ax : axmap) (k : Z) : bool :=
  match levels ax !! 0%nat with Some al => lbit al k | None => false end.

(** [r] is the length of the run of free blocks at [b], cut at [n]. *)
Definition free_run (f : Z -> bool) (b n r : Z) : Prop :=
  0 <= r <= n /\ (forall j, b <= j < b + r -> f j = false) /\ (r < n -> f (b + r) = true).

(** [r] is the first free block at or after [b] and below [e], if there is one. *)
Definition first_free (f : Z -> bool) (b e : Z) (r : option Z) : Prop :=
  match r with
  | Some j => b <= j < e /\ f j = false /\ forall k, b <= k < j -> f k = true
  | None => forall k, b <= k < e -> f k = true
  end.

(** ** Words, masks and levels *)

Lemma shiftr6 z : Z.shiftr z UNIT_SHIFT = z / 64.
Proof. unfold UNIT_SHIFT. by rewrite Z.shiftr_div_pow2. Qed.

Lemma land63 z : Z.land z BLOCKS_PER_UNIT_MASK = z mod 64.
Proof. unfold BLOCKS_PER_UNIT_MASK. change 63 with (Z.ones 6). by rewrite Z.land_ones. Qed.

Lemma shiftr_unit z i : 0 <= i -> Z.shiftr z (UNIT_SHIFT * i) = z / 64 ^ i.
Proof.
  intros. unfold UNIT_SHIFT. rewrite Z.shiftr_div_pow2 by lia.
  by rewrite Z.pow_mul_r by lia.
Qed.

Lemma bit_masks_get n : 0 <= n <= 64 -> arr_get bit_masks n = Some (Z.ones n).
Proof.
  intros Hn.
  assert (forall k : nat, (k < 65)%nat -> bit_masks !! k = Some (Z.ones (Z.of_nat k))) as H.
  { intros k Hk. do 65 (destruct k as [|k]; [reflexivity|]). lia. }
  unfold arr_get. destruct (Z.ltb_spec n 0); [lia|]. rewrite H by lia. do 2 f_equal. lia.
Qed.

Lemma mask_bits n bit i : 0 <= n <= 64 -> 0 <= bit -> bit + n <= 64 -> 0 <= i ->
  Z.testbit (shlw 64 (Z.ones n) bit) i = (bit <=? i) && (i <? bit + n).
Proof.
  intros. rewrite shlw_bits by lia. destruct (Z.leb_spec bit i).
  - rewrite Z.testbit_ones_nonneg by lia. destruct (Z.ltb_spec (i - bit) n), (Z.ltb_spec i (bit + n)), (Z.ltb_spec i 64); simpl; lia || done.
  - rewrite Z.testbit_neg_r by lia. done.
Qed.

Lemma divmod64 j a : 0 <= a ->
  j / 64 = a / 64 -> j mod 64 = (j - a) + a mod 64.
Proof. intros. pose proof (Z.div_mod j 64). pose proof (Z.div_mod a 64). lia. Qed.

Lemma wf_level_get al k : wf_level al -> 0 <= k < map_size al ->
  exists w, arr_get (map al) k = Some w /\ is_word 64 w.
Proof.
  intros [Hlen Hw] Hk. destruct (arr_get_Some (map al) k) as [w E]; [lia|].
  exists w. split; [done|]. unfold arr_get in E. destruct (k <? 0); [done|].
  by eapply Forall_lookup_1 in E.
Qed.

Lemma lbit_get al k w : arr_get (map al) (k / 64) = Some w -> lbit al k = Z.testbit w (k mod 64).
Proof. unfold lbit. by intros ->. Qed.

Lemma full_lbit al k : wf_level al -> 0 <= k < map_size al ->
  full al k = true <-> forall j, j / 64 = k -> lbit al j = true.
Proof.
  intros Hwf Hk. destruct (wf_level_get al k Hwf Hk) as (w & E & Hw).
  unfold full. rewrite E, Z.eqb_eq. unfold ULONG_MAX.
  rewrite all_ones_iff by (done || lia). split.
  - intros H j <-. rewrite (lbit_get _ _ _ E). apply H. apply Z.mod_pos_bound. lia.
  - intros H i Hi. assert ((64 * k + i) / 64 = k) as Hd.
    { rewrite Z.mul_comm, Z.div_add_l by lia. rewrite Z.div_small by lia. lia. }
    specialize (H (64 * k + i) Hd). unfold lbit in H. rewrite Hd, E in H.
    rewrite Z.mul_comm, Z.add_comm, Z.mod_add, Z.mod_small in H by lia. done.
Qed.

Lemma full_out al k : wf_level al -> ~ (0 <= k < map_size al) -> full al k = false.
Proof.
  intros [Hlen _] Hk. unfold full. destruct (arr_get (map al) k) eqn:E; [|done].
  apply arr_get_range in E. lia.
Qed.

Lemma lbit_out al k : wf_level al -> ~ (0 <= k < 64 * map_size al) -> lbit al k = false.
Proof.
  intros [Hlen _] Hk. unfold lbit. destruct (arr_get (map al) (k / 64)) eqn:E; [|done].
  apply arr_get_range in E. exfalso. apply Hk.
  pose proof (Z.div_mod k 64). pose proof (Z.mod_pos_bound k 64). lia.
Qed.

(** ** Setting bits *)

(** The word written by [axmap_set_fn] when it sets [r] bits from [k]. *)
Definition set_run (al : axmap_level) (k r : Z) : axmap_level :=
  match arr_get (map al) (k / 64) with
  | Some w => set_map al (<[Z.to_nat (k / 64) := Z.lor w (shlw 64 (Z.ones r) (k mod 64))]> (map al))
  | None => al
  end.

Lemma set_run_lbit al k r j : wf_level al -> 0 <= k -> k / 64 < map_size al ->
  0 <= r -> k mod 64 + r <= 64 -> 0 <= j ->
  lbit (set_run al k r) j = lbit al j || ((k <=? j) && (j <? k + r)).
Proof.
  intros Hwf Hk Hin Hr Hfit Hj. pose proof (Z.div_pos k 64).
  destruct (wf_level_get al (k / 64)) as (w & E & Hw); [done|lia|].
  unfold set_run, lbit. rewrite E. cbn [map set_map]. rewrite arr_get_insert; [|].
  2: { destruct Hwf. lia. }
  pose proof (Z.mod_pos_bound k 64). pose proof (Z.mod_pos_bound j 64).
  pose proof (Z.div_mod k 64). pose proof (Z.div_mod j 64).
  case_decide as Hd.
  - rewrite <- Hd, E. rewrite Z.lor_spec, mask_bits by lia. f_equal.
    rewrite (divmod64 j k) by lia.
    zcases; simpl; lia || done.
  - destruct (arr_get (map al) (j / 64)); zcases; simpl; rewrite ?orb_false_r; try done; nia.
Qed.

Lemma set_run_wf al k r : wf_level al -> 0 <= k -> k / 64 < map_size al ->
  wf_level (set_run al k r).
Proof.
  intros Hwf Hk Hin. pose proof (Z.div_pos k 64).
  destruct (wf_level_get al (k / 64)) as (w & E & Hw); [done|lia|].
  unfold set_run. rewrite E. destruct Hwf as [Hlen Hf]. split; cbn [map set_map map_size].
  - by rewrite zlength_insert.
  - apply Forall_insert; [done|]. apply is_word_lor; [lia|done|apply shlw_range; lia].
Qed.

Lemma set_run_size al k r : map_size (set_run al k r) = map_size al.
Proof. unfold set_run. by destruct (arr_get _ _). Qed.

Lemma set_run_level al k r : level (set_run al k r) = level al.
Proof. unfold set_run. by destruct (arr_get _ _). Qed.

Lemma set_run_full_other al k r j : wf_level al -> 0 <= k -> k / 64 < map_size al ->
  j <> k / 64 -> full (set_run al k r) j = full al j.
Proof.
  intros Hwf Hk Hin Hne. pose proof (Z.div_pos k 64).
  destruct (wf_level_get al (k / 64)) as (w & E & Hw); [done|lia|].
  unfold set_run, full. rewrite E. cbn [map set_map]. rewrite arr_get_insert.
  - by rewrite decide_False.
  - destruct Hwf. lia.
Qed.

Lemma set_run_full_self al k r : wf_level al -> 0 <= k -> k / 64 < map_size al ->
  full (set_run al k r) (k / 64) =
  (Z.lor (default 0 (arr_get (map al) (k / 64))) (shlw 64 (Z.ones r) (k mod 64)) =? ULONG_MAX).
Proof.
  intros Hwf Hk Hin. pose proof (Z.div_pos k 64).
  destruct (wf_level_get al (k / 64)) as (w & E & Hw); [done|lia|].
  unfold set_run, full. rewrite E. cbn [map set_map]. rewrite arr_get_insert.
  - by rewrite decide_True.
  - destruct Hwf. lia.
Qed.

(** What [axmap_set_fn] does: the run at [k] is set, and the walk goes on exactly
    when the word became full. *)

(** A run of blocks that stays in one word, seen as a run of bits of that word. *)
Definition word_run (w b n r : Z) : Prop :=
  (forall i, b <= i < b + r -> Z.testbit w i = false) /\ (r < n -> Z.testbit w (b + r) = true).

Lemma same_word k i : 0 <= k -> 0 <= i -> k mod 64 + i < 64 ->
  (k + i) / 64 = k / 64 /\ (k + i) mod 64 = k mod 64 + i.
Proof.
  intros Hk Hi Hlt. pose proof (Z.div_mod k 64). pose proof (Z.mod_pos_bound k 64).
  assert ((k + i) / 64 = k / 64) as Hd.
  { symmetry. apply Z.div_unique with (k mod 64 + i); lia. }
  split; [done|]. rewrite (divmod64 (k + i) k) by lia. lia.
Qed.

Lemma free_run_word al k n r w : 0 <= k -> arr_get (map al) (k / 64) = Some w ->
  k mod 64 + n <= 64 -> 0 <= r <= n -> free_run (lbit al) k n r -> word_run w (k mod 64) n r.
Proof.
  intros Hk E Hfit Hr (_ & Hfree & Hstop). pose proof (Z.mod_pos_bound k 64). split.
  - intros i Hi. destruct (same_word k (i - k mod 64)) as [Hd Hm]; [lia..|].
    specialize (Hfree (k + (i - k mod 64)) ltac:(lia)).
    rewrite (lbit_get al _ w), Hm in Hfree by (by rewrite Hd). rewrite <- Hfree. f_equal. lia.
  - intros Hlt. destruct (same_word k r) as [Hd Hm]; [lia..|].
    specialize (Hstop Hlt). by rewrite (lbit_get al _ w), Hm in Hstop by (by rewrite Hd).
Qed.

Lemma notw_notw a : is_word 64 a -> notw 64 (notw 64 a) = a.
Proof.
  intros Ha. rewrite (notw_eq 64 (notw 64 a)), notw_eq by (done || apply notw_range; lia). lia.
Qed.

Lemma overlap_bits w b n i : 0 <= n <= 64 -> 0 <= b -> b + n <= 64 -> 0 <= i ->
  Z.testbit (Z.land w (shlw 64 (Z.ones n) b)) i = Z.testbit w i && ((b <=? i) && (i <? b + n)).
Proof. intros. by rewrite Z.land_spec, mask_bits. Qed.

(** The [ffz(~overlap) - bit] of [axmap_set_fn] is the length of the run. *)
Lemma overlap_run w b n r : is_word 64 w -> 0 <= b -> b + n <= 64 -> 0 <= r <= n ->
  word_run w b n r ->
  let ov := Z.land w (shlw 64 (Z.ones n) b) in
  (if c_true ov then ffz (notw 64 ov) - b else n) = r.
Proof.
  intros Hw Hb Hfit Hr [Hfree Hstop] ov.
  assert (forall i, 0 <= i -> Z.testbit ov i = Z.testbit w i && ((b <=? i) && (i <? b + n))) as Hov
    by (intros; apply overlap_bits; lia).
  destruct (c_true ov) eqn:Ec.
  - apply c_true_iff in Ec. unfold ffz. rewrite notw_notw by (apply is_word_land_l; [lia|done]).
    assert (r < n) as Hlt.
    { destruct (Z.lt_ge_cases r n) as [|Hge]; [done|]. exfalso. apply Ec.
      apply Z.bits_inj'. intros i Hi. rewrite Hov, Z.bits_0 by lia.
      zcases; simpl; rewrite ?andb_false_r; try done. by rewrite Hfree by lia. }
    rewrite (ffs64_spec ov (b + r)); [lia| |lia]. split; [lia|]. split.
    + rewrite Hov, Hstop by lia. zcases; simpl; lia || done.
    + intros j Hj. rewrite Hov by lia. zcases; simpl; rewrite ?andb_false_r; try done.
      by rewrite Hfree by lia.
  - apply c_true_false_iff in Ec. destruct (Z.eq_dec r n) as [|Hrn]; [done|]. exfalso.
    specialize (Hov (b + r) ltac:(lia)). rewrite Ec, Z.bits_0, Hstop in Hov by lia.
    zcases_in Hov; simpl in Hov; lia || done.
Qed.

Lemma mask_nonzero r b : 1 <= r -> 0 <= b -> b + r <= 64 -> shlw 64 (Z.ones r) b <> 0.
Proof.
  intros Hr Hb Hfit Hz. assert (Z.testbit (shlw 64 (Z.ones r) b) b = true) as Ht.
  { rewrite mask_bits by lia. zcases; simpl; lia || done. }
  by rewrite Hz, Z.bits_0 in Ht.
Qed.

Lemma run_disjoint w b n r : 0 <= b -> b + r <= 64 -> 0 <= r -> word_run w b n r ->
  Z.land w (shlw 64 (Z.ones r) b) = 0.
Proof.
  intros Hb Hfit Hr [Hfree _]. apply Z.bits_inj'. intros i Hi. rewrite overlap_bits, Z.bits_0 by lia.
  zcases; simpl; rewrite ?andb_false_r; try done. by rewrite Hfree by lia.
Qed.

(** When the first block is taken nothing is set, and the count stays 0. *)
Lemma axmap_set_fn_none al k n :
  wf_level al -> 0 <= k -> k / 64 < map_size al -> 1 <= n -> k mod 64 + n <= 64 ->
  lbit al k = true ->
  axmap_set_fn al (k / 64) (k mod 64) (mk_set_data n 0) = Some (true, al, mk_set_data n 0).
Proof.
  intros Hwf Hk Hin Hn Hfit Hset. pose proof (Z.div_pos k 64). pose proof (Z.mod_pos_bound k 64).
  destruct (wf_level_get al (k / 64)) as (w & E & Hw); [done|lia|].
  rewrite (lbit_get _ _ _ E) in Hset.
  assert (word_run w (k mod 64) n 0) as Hrun.
  { split; [lia|]. by rewrite Z.add_0_r. }
  pose proof (overlap_run w (k mod 64) n 0 Hw ltac:(lia) ltac:(lia) ltac:(lia) Hrun) as Hov.
  unfold axmap_set_fn. cbn [d_nr_bits d_set_bits]. unfold BLOCKS_PER_UNIT.
  rewrite Z.min_l, bit_masks_get by lia. cbn [mbind option_bind]. rewrite E. cbn [mbind option_bind].
  destruct (Z.eqb_spec (Z.land w (shlw 64 (Z.ones n) (k mod 64))) (shlw 64 (Z.ones n) (k mod 64)));
    [done|].
  cbv zeta in Hov. destruct (c_true _); [|lia]. rewrite Hov. done.
Qed.

Lemma axmap_set_fn_some al k n sb r :
  wf_level al -> 0 <= k -> k / 64 < map_size al -> k mod 64 + n <= 64 ->
  free_run (lbit al) k n r -> 1 <= r ->
  axmap_set_fn al (k / 64) (k mod 64) (mk_set_data n sb) =
  Some (negb (full (set_run al k r) (k / 64)), set_run al k r,
        mk_set_data 1 (if level al =? 0 then r else sb)).
Proof.
  intros Hwf Hk Hin Hfit Hrun Hr1. assert (0 <= r <= n) as Hr by apply Hrun.
  pose proof (Z.div_pos k 64). pose proof (Z.mod_pos_bound k 64).
  rewrite set_run_full_self by done.
  destruct (wf_level_get al (k / 64)) as (w & E & Hw); [done|lia|].
  apply (free_run_word al k n r w) in Hrun; [|done..].
  pose proof (overlap_run w (k mod 64) n r Hw ltac:(lia) ltac:(lia) ltac:(lia) Hrun) as Hov.
  cbv zeta in Hov.
  unfold axmap_set_fn, set_run. cbn [d_nr_bits d_set_bits]. unfold BLOCKS_PER_UNIT.
  rewrite Z.min_l, bit_masks_get by lia. cbn [mbind option_bind].
  rewrite E. cbn [mbind option_bind default].
  destruct (Z.eqb_spec (Z.land w (shlw 64 (Z.ones n) (k mod 64))) (shlw 64 (Z.ones n) (k mod 64)))
    as [Heq|Hne].
  { exfalso. pose proof (mask_bits n (k mod 64) (k mod 64)) as Hm. rewrite <- Heq, overlap_bits in Hm by lia.
    destruct Hrun as [Hfree _]. rewrite Hfree in Hm by lia. zcases_in Hm; simpl in Hm; lia || naive_solver lia. }
  rewrite Hov. destruct (Z.eqb_spec r 0); [lia|]. rewrite andb_false_r.
  rewrite bit_masks_get by lia. cbn [mbind option_bind].
  assert ((if c_true (Z.land w (shlw 64 (Z.ones n) (k mod 64))) then shlw 64 (Z.ones r) (k mod 64)
     else shlw 64 (Z.ones n) (k mod 64)) = shlw 64 (Z.ones r) (k mod 64)) as ->.
  { destruct (c_true _); [done|]. by rewrite Hov. }
  rewrite (proj2 (c_true_iff _) (mask_nonzero r (k mod 64) ltac:(lia) ltac:(lia) ltac:(lia))).
  rewrite (run_disjoint w (k mod 64) n r) by (done || lia). cbn [c_assert c_true Z.eqb negb mbind option_bind].
  rewrite arr_set_Some by (destruct Hwf; lia). cbn [mbind option_bind]. done.
Qed.

Lemma set_run_summary al up k r : wf_level al -> 0 <= k -> k / 64 < map_size al ->
  full al (k / 64) = full (set_run al k r) (k / 64) ->
  summary al up -> summary (set_run al k r) up.
Proof.
  intros Hwf Hk Hin Hsame [Hsz Hs]. split; [by rewrite set_run_size|].
  intros j Hj. rewrite Hs by done. destruct (Z.eq_dec j (k / 64)) as [->|]; [done|].
  by rewrite set_run_full_other.
Qed.

Lemma free_not_full al k : wf_level al -> 0 <= k -> k / 64 < map_size al ->
  lbit al k = false -> full al (k / 64) = false.
Proof.
  intros Hwf Hk Hin Hfree. pose proof (Z.div_pos k 64).
  destruct (full al (k / 64)) eqn:Hf; [|done].
  rewrite full_lbit in Hf by (done || lia). by rewrite Hf in Hfree.
Qed.

(** The summary bit of a word lies in the map of the level above. *)
Lemma summary_in_range al up k : summary al up -> 0 <= k < map_size al -> k / 64 < map_size up.
Proof.
  intros [Hsz _] Hk. rewrite Hsz. apply Z.div_lt_upper_bound; [lia|].
  pose proof (Z.div_mod (map_size al + 63) 64). pose proof (Z.mod_pos_bound (map_size al + 63) 64). lia.
Qed.

Lemma summary_set al up k r : wf_level al -> wf_level up -> 0 <= k -> k / 64 < map_size al ->
  full (set_run al k r) (k / 64) = true ->
  summary al up -> summary (set_run al k r) (set_run up (k / 64) 1).
Proof.
  intros Hwf Hwfu Hk Hin Hfull Hsum. pose proof (Z.div_pos k 64).
  pose proof (summary_in_range al up (k / 64) Hsum ltac:(lia)). destruct Hsum as [Hsz Hs].
  split; [by rewrite !set_run_size|]. intros j Hj. pose proof (Z.mod_pos_bound (k / 64) 64).
  rewrite set_run_lbit by (done || lia).
  destruct (Z.eq_dec j (k / 64)) as [->|Hne].
  - rewrite Hfull. zcases; simpl; rewrite ?orb_true_r; lia || done.
  - rewrite set_run_full_other, Hs by done. zcases; simpl; rewrite ?orb_false_r; lia || done.
Qed.

(** The walk of [axmap_handler] up the levels sets the run at the bottom, keeps
    every summary exact and never touches the count above level 0. *)
Lemma set_walk ls : forall i al rest k n r sb,
  ls = al :: rest -> 0 <= i -> wf_levels i ls -> 0 <= k -> k / 64 < map_size al ->
  k mod 64 + n <= 64 -> free_run (lbit al) k n r -> 1 <= r ->
  exists stop rest', axmap_handler axmap_set_fn ls k (mk_set_data n sb) =
    Some (stop, set_run al k r :: rest', mk_set_data 1 (if i =? 0 then r else sb)) /\
    wf_levels i (set_run al k r :: rest') /\ length rest' = length rest.
Proof.
  induction ls as [|al' ls IH]; intros i al rest k n r sb [= -> ->] Hi0 Hwf Hk Hin Hfit Hrun Hr.
  destruct Hwf as (Hlev & Hwf & Hsum & Hrest).
  pose proof (Z.div_pos k 64). pose proof (Z.mod_pos_bound k 64).
  cbn [axmap_handler]. rewrite shiftr6, land63.
  rewrite (axmap_set_fn_some al k n sb r) by (done || lia). cbn [mbind option_bind].
  rewrite Hlev. pose proof (set_run_wf al k r Hwf Hk Hin) as Hwf'.
  assert (lbit al k = false) as Hfree by (apply Hrun; lia).
  destruct (full (set_run al k r) (k / 64)) eqn:Hfull; cbn [negb].
  - destruct rest as [|up rest].
    { exists false, []. cbn. rewrite set_run_level. done. }
    assert ((if c_true k then k / 64 else k) = k / 64) as ->
      by (unfold c_true; by destruct (Z.eqb_spec k 0) as [->|]).
    assert (lbit up (k / 64) = false) as Hup.
    { destruct Hsum as [_ Hs]. rewrite Hs by lia. by apply free_not_full. }
    assert (free_run (lbit up) (k / 64) 1 1) as Hrun1.
    { split; [lia|]. split; [|lia]. intros j Hj. by replace j with (k / 64) by lia. }
    pose proof (summary_in_range al up (k / 64) Hsum ltac:(lia)).
    pose proof (Z.mod_pos_bound (k / 64) 64).
    destruct (IH (i + 1) up rest (k / 64) 1 1 (if i =? 0 then r else sb))
      as (stop & rest' & Heq & Hwf1 & Hlen); try (done || lia).
    rewrite Heq. cbn [mbind option_bind]. exists stop, (set_run up (k / 64) 1 :: rest').
    destruct (Z.eqb_spec (i + 1) 0); [lia|]. split; [done|]. split; [|cbn; by rewrite Hlen].
    cbn [wf_levels] in Hwf1 |- *. rewrite set_run_level. split_and!; try done; try apply Hwf1.
    apply summary_set; try done. apply Hrest.
  - exists true, rest. split; [done|]. split; [|done]. cbn [wf_levels].
    rewrite set_run_level. split_and!; try done.
    destruct rest as [|up rest]; [done|]. apply set_run_summary; try done.
    rewrite Hfull. by apply free_not_full.
Qed.

(** ** [axmap_set] and [axmap_set_nr] *)

Lemma axmap_ok_level0 ax : axmap_ok ax ->
  exists al rest, levels ax = al :: rest /\ map_size al = (nr_bits ax + 63) / 64.
Proof.
  intros (Hn & H1 & Hb & Hwf & Hsz). destruct (levels ax) as [|al rest].
  - unfold zlength in Hn. cbn in Hn. lia.
  - exists al, rest. split; [done|]. by apply Hsz.
Qed.

Lemma block_in_map nr k : 0 <= k < nr -> k / 64 < (nr + 63) / 64.
Proof.
  intros. apply Z.div_lt_upper_bound; [lia|].
  pose proof (Z.div_mod (nr + 63) 64). pose proof (Z.mod_pos_bound (nr + 63) 64). lia.
Qed.

(** Membership after setting the [r] blocks from [b]. *)
Definition set_member (ax ax' : axmap) (b r : Z) : Prop :=
  forall j, 0 <= j -> member ax' j = member ax j || ((b <=? j) && (j <? b + r)).

Lemma set_member_none ax b : set_member ax ax b 0.
Proof. intros j Hj. zcases; simpl; rewrite ?orb_false_r; lia || done. Qed.

Lemma free_run_exists f b n : 0 <= n -> exists r, free_run f b n r.
Proof.
  intros Hn. pattern n. apply natlike_ind; [|clear n Hn; intros n Hn (r & Hr & Hf & Hs)|done].
  { exists 0. split; [lia|]. split; [lia|]. lia. }
  destruct (Z.eq_dec r n) as [->|].
  - destruct (f (b + n)) eqn:E.
    + exists n. split; [lia|]. split; done.
    + exists (n + 1). split; [lia|]. split; [|lia]. intros j Hj.
      destruct (Z.eq_dec j (b + n)) as [->|]; [done|]. apply Hf. lia.
  - exists r. split; [lia|]. split; [done|]. intros _. apply Hs. lia.
Qed.

Lemma __axmap_set_spec ax b n : axmap_ok ax -> 0 <= b -> 1 <= n -> b + n <= nr_bits ax ->
  b mod 64 + n <= 64 ->
  exists ax' r d, __axmap_set ax b (mk_set_data n 0) = Some (ax', mk_set_data d r) /\
    axmap_ok ax' /\ nr_bits ax' = nr_bits ax /\ free_run (member ax) b n r /\ set_member ax ax' b r.
Proof.
  intros Hok Hb Hn Hle Hfit. pose proof Hok as (Hlen & Hn1 & Hrange & Hwf & _).
  destruct (axmap_ok_level0 ax Hok) as (al & rest & Hls & Hsz).
  unfold __axmap_set. cbn [d_nr_bits].
  destruct (Z.ltb_spec (nr_bits ax) b); [lia|].
  unfold addw. rewrite wrap_small by (unfold is_word; lia).
  destruct (Z.ltb_spec (nr_bits ax) (b + n)); [lia|].
  unfold BLOCKS_PER_UNIT. pose proof (Z.mod_pos_bound b 64).
  destruct (Z.leb_spec n 64); [|lia]. cbn [c_assert mbind option_bind].
  pose proof (block_in_map (nr_bits ax) b ltac:(lia)) as Hin. rewrite <- Hsz in Hin.
  destruct (free_run_exists (member ax) b n ltac:(lia)) as [r Hrun].
  assert (free_run (lbit al) b n r) as Hrun'.
  { unfold member in Hrun. by rewrite Hls in Hrun. }
  rewrite Hls in *. assert (0 <= r <= n) as Hr by apply Hrun.
  destruct (Z.eq_dec r 0) as [->|Hr0].
  - exists ax, 0, n. cbn [axmap_handler]. rewrite shiftr6, land63.
    rewrite axmap_set_fn_none; try (done || lia); [|apply Hwf|].
    2: { destruct Hrun' as (_ & _ & Hs). specialize (Hs ltac:(lia)). by rewrite Z.add_0_r in Hs. }
    cbn [mbind option_bind]. split_and!; try done; [|by apply set_member_none].
    unfold set_levels. rewrite <- Hls. by destruct ax.
  - destruct (set_walk (al :: rest) 0 al rest b n r 0) as (stop & rest' & -> & Hwf' & Hl);
      try (done || lia).
    cbn [mbind option_bind]. eexists _, r, 1. split; [done|].
    unfold axmap_ok, set_levels, set_member, member; cbn [nr_levels levels nr_bits]. rewrite Hls in *.
    unfold zlength in *. cbn [length] in *. split_and!; try done; try lia; try apply Hrun'.
    + intros al' [= <-]. by rewrite set_run_size.
    + intros j Hj. cbn. apply set_run_lbit; try (done || lia). apply Hwf.
Qed.

Lemma free_run_app f b n1 r2 n2 : 0 <= n1 -> free_run f b n1 n1 ->
  free_run f (b + n1) n2 r2 -> free_run f b (n1 + n2) (n1 + r2).
Proof.
  intros Hn1 (_ & H1 & _) (Hr & H2 & H3). split; [lia|]. split.
  - intros j Hj. destruct (Z.lt_ge_cases j (b + n1)); [apply H1; lia|apply H2; lia].
  - intros Hlt. replace (b + (n1 + r2)) with (b + n1 + r2) by lia. apply H3. lia.
Qed.

Lemma free_run_ext f g b n r : (forall j, b <= j -> f j = g j) -> free_run f b n r -> free_run g b n r.
Proof.
  intros Hfg (Hr & H1 & H2). split; [done|]. split.
  - intros j Hj. rewrite <- Hfg by lia. apply H1. lia.
  - intros Hlt. rewrite <- Hfg by lia. by apply H2.
Qed.

Lemma free_run_stop f b n m r : r < n <= m -> free_run f b n r -> free_run f b m r.
Proof. intros Hn (Hr & H1 & H2). split; [lia|]. split; [done|]. intros _. apply H2. lia. Qed.

Lemma axmap_set_nr_loop_spec fuel : forall ax b n sb,
  axmap_ok ax -> 0 <= b -> 1 <= n -> b + n <= nr_bits ax -> 0 <= sb -> sb + n < 2 ^ 32 ->
  n < Z.of_nat fuel ->
  exists ax' r, axmap_set_nr_loop fuel ax b n sb = Some (ax', sb + r) /\
    axmap_ok ax' /\ nr_bits ax' = nr_bits ax /\ free_run (member ax) b n r /\ set_member ax ax' b r.
Proof.
  induction fuel as [|fuel IH]; intros ax b n sb Hok Hb Hn Hle Hsb Hov Hfuel; [lia|].
  cbn [axmap_set_nr_loop]. rewrite land63. unfold BLOCKS_PER_UNIT.
  pose proof (Z.mod_pos_bound b 64 ltac:(lia)) as Hmod.
  set (t := if 64 - b mod 64 <? n then 64 - b mod 64 else n).
  assert (1 <= t <= n /\ b mod 64 + t <= 64) as [Ht Hfit] by (subst t; zcases; lia).
  destruct (__axmap_set_spec ax b t) as (ax1 & r & d & -> & Hok1 & Hnb & Hrun & Hmem);
    try (done || lia).
  cbn [mbind option_bind d_set_bits]. assert (0 <= r <= t) as Hr by apply Hrun.
  unfold addw, subw. rewrite !wrap_small by (unfold is_word; pose proof Hok as (_ & _ & ? & _); lia).
  destruct (Z.eqb_spec r t) as [->|Hne]; cbn [negb].
  - destruct (c_true (n - t)) eqn:Ec.
    + apply c_true_iff in Ec.
      destruct (IH ax1 (b + t) (n - t) (sb + t)) as (ax2 & r2 & -> & Hok2 & Hnb2 & Hrun2 & Hmem2);
        try (done || lia).
      exists ax2, (t + r2). split; [do 2 f_equal; lia|]. split_and!; try done; [by rewrite Hnb2| |].
      * replace n with (t + (n - t)) by lia. apply free_run_app; [lia|done|].
        eapply free_run_ext; [|done]. intros j Hj. rewrite Hmem by lia.
        zcases; simpl; rewrite ?orb_false_r; lia || done.
      * assert (0 <= r2) by apply Hrun2. intros j Hj. rewrite Hmem2, Hmem by done.
        destruct (member ax j); simpl; [done|]. zcases; simpl; lia || done.
    + apply c_true_false_iff in Ec. exists ax1, t. replace n with t by lia. done.
  - exists ax1, r. split_and!; try done. eapply free_run_stop; [|done]. lia.
Qed.

(** ** [axmap_isset] *)

Lemma wf_levels_lookup ls : forall i (n : nat) al,
  wf_levels i ls -> ls !! n = Some al -> level al = i + Z.of_nat n /\ wf_level al.
Proof.
  induction ls as [|al' ls IH]; intros i n al Hwf Hl; [done|].
  destruct Hwf as (Hlev & Hwf & _ & Hrest). destruct n as [|n].
  - injection Hl as <-. split; [lia|done].
  - destruct (IH (i + 1) n al Hrest Hl). split; [lia|done].
Qed.

Lemma wf_levels_summary ls : forall i (n : nat) lo up,
  wf_levels i ls -> ls !! n = Some lo -> ls !! S n = Some up -> summary lo up.
Proof.
  induction ls as [|al' ls IH]; intros i n lo up Hwf Hlo Hup; [done|].
  destruct Hwf as (_ & _ & Hsum & Hrest). destruct n as [|n].
  - injection Hlo as <-. cbn in Hup. destruct ls as [|up' ls]; [done|].
    injection Hup as <-. done.
  - by apply (IH (i + 1) n).
Qed.

(** The ancestor at level [n] of block [b], as the code computes it. *)
Lemma ancestor_succ b (n : nat) : 0 <= b -> b / 64 ^ Z.of_nat n / 64 = b / 64 ^ Z.of_nat (S n).
Proof.
  intros. rewrite Z.div_div by lia. f_equal. rewrite Nat2Z.inj_succ, Z.pow_succ_r by lia. lia.
Qed.

Lemma isset_fn_spec al k : wf_level al -> 0 <= k -> k / 64 < map_size al ->
  axmap_isset_fn al (k / 64) (k mod 64) = Some (lbit al k).
Proof.
  intros Hwf Hk Hin. pose proof (Z.div_pos k 64). pose proof (Z.mod_pos_bound k 64).
  destruct (wf_level_get al (k / 64)) as (w & E & Hw); [done|lia|].
  unfold axmap_isset_fn. rewrite E, (lbit_get _ _ _ E). cbn. f_equal.
  change 1 with (Z.ones 1). destruct (Z.testbit w (k mod 64)) eqn:Hb.
  - apply c_true_iff. intros Hz. assert (Z.testbit 0 (k mod 64) = true) as Hc; [|by rewrite Z.bits_0 in Hc].
    rewrite <- Hz, overlap_bits, Hb by lia. zcases; simpl; lia || done.
  - apply c_true_false_iff. apply Z.bits_inj'. intros i Hi. rewrite overlap_bits, Z.bits_0 by lia.
    destruct (Z.eq_dec i (k mod 64)) as [->|]; [by rewrite Hb|].
    zcases; simpl; rewrite ?andb_false_r; lia || done.
Qed.

(** A set bit of an upper level stands for 64 set bits below, down to level 0. *)
Lemma ancestor_set ls b : wf_levels 0 ls -> 0 <= b -> forall (n : nat) al al0,
  ls !! n = Some al -> ls !! 0%nat = Some al0 -> lbit al (b / 64 ^ Z.of_nat n) = true -> lbit al0 b = true.
Proof.
  intros Hwf Hb. induction n as [|n IH]; intros al al0 Hal H0 Hbit.
  - rewrite H0 in Hal. injection Hal as <-. by rewrite Z.div_1_r in Hbit.
  - destruct (lookup_lt_is_Some_2 ls n) as [lo Hlo].
    { apply lookup_lt_Some in Hal. lia. }
    apply (IH lo al0); [done..|]. pose proof (wf_levels_summary ls 0 n lo al Hwf Hlo Hal) as [_ Hs].
    assert (0 <= b / 64 ^ Z.of_nat (S n)) by (apply Z.div_pos; lia).
    rewrite Hs in Hbit by done. destruct (wf_levels_lookup ls 0 n lo Hwf Hlo) as [_ Hwlo].
    destruct (decide (0 <= b / 64 ^ Z.of_nat (S n) < map_size lo)) as [Hin|Hout].
    + rewrite full_lbit in Hbit by done. apply Hbit. by apply ancestor_succ.
    + rewrite full_out in Hbit by done. done.
Qed.

Lemma ancestor_in_map ls b : wf_levels 0 ls -> 0 <= b -> forall (n : nat) al al0,
  ls !! n = Some al -> ls !! 0%nat = Some al0 -> b / 64 < map_size al0 ->
  b / 64 ^ Z.of_nat n / 64 < map_size al.
Proof.
  intros Hwf Hb. induction n as [|n IH]; intros al al0 Hal H0 Hin.
  - rewrite H0 in Hal. injection Hal as <-. by rewrite Z.div_1_r.
  - destruct (lookup_lt_is_Some_2 ls n) as [lo Hlo].
    { apply lookup_lt_Some in Hal. lia. }
    rewrite <- ancestor_succ by done.
    apply (summary_in_range lo); [by eapply wf_levels_summary|]. split.
    + apply Z.div_pos; [|lia]. apply Z.div_pos; lia.
    + by apply (IH lo al0).
Qed.

Lemma topdown_isset ls b al0 : wf_levels 0 ls -> 0 <= b -> ls !! 0%nat = Some al0 ->
  b / 64 < map_size al0 -> forall n : nat, (n <= length ls)%nat -> (0 < n)%nat ->
  axmap_handler_topdown axmap_isset_fn ls n b = Some (lbit al0 b).
Proof.
  intros Hwf Hb H0 Hin. induction n as [|n IH]; intros Hn Hpos; [lia|].
  cbn [axmap_handler_topdown]. rewrite shiftr_unit, shiftr6, land63 by lia.
  destruct (lookup_lt_is_Some_2 ls n) as [al Hal]; [lia|]. rewrite Hal. cbn [mbind option_bind].
  destruct (wf_levels_lookup ls 0 n al Hwf Hal) as [_ Hwal].
  rewrite isset_fn_spec; [|done|apply Z.div_pos; lia|by eapply ancestor_in_map].
  cbn [mbind option_bind]. destruct (lbit al (b / 64 ^ Z.of_nat n)) eqn:Hbit.
  - f_equal. symmetry. by eapply ancestor_set.
  - destruct n as [|n].
    + rewrite H0 in Hal. injection Hal as <-. rewrite Z.div_1_r in Hbit. by rewrite Hbit.
    + apply IH; lia.
Qed.

(** ** [axmap_find_first_free] *)

Lemma lbit_word al k w : arr_get (map al) (k / 64) = Some w -> is_word 64 w ->
  Z.testbit (notw 64 w) (k mod 64) = negb (lbit al k).
Proof.
  intros E Hw. pose proof (Z.mod_pos_bound k 64). rewrite (lbit_get _ _ _ E), notw_bits by lia.
  zcases; [|lia]. by rewrite andb_true_r.
Qed.

Lemma find_word_spec n : forall al off, wf_level al -> 0 <= off -> map_size al <= off + Z.of_nat n ->
  exists r, find_word n al off = Some r /\
  match r with
  | Some (o, temp) => off <= o < map_size al /\ (forall k, off <= k < o -> full al k = true) /\
      temp <> 0 /\ exists w, arr_get (map al) o = Some w /\ is_word 64 w /\ temp = notw 64 w
  | None => forall k, off <= k < map_size al -> full al k = true
  end.
Proof.
  induction n as [|n IH]; intros al off Hwf Hoff Hn; cbn [find_word].
  { exists None. split; [done|]. lia. }
  destruct (Z.ltb_spec off (map_size al)) as [Hlt|]; [|exists None; split; [done|]; lia].
  destruct (wf_level_get al off Hwf) as (w & E & Hw); [lia|]. rewrite E. cbn [mbind option_bind].
  destruct (c_true (notw 64 w)) eqn:Ec.
  - apply c_true_iff in Ec. eexists; split; [done|]. split; [lia|]. split; [lia|]. split; [done|]. eauto.
  - apply c_true_false_iff in Ec. rewrite notw_zero_iff in Ec by done.
    assert (full al off = true) as Hfull by (unfold full; rewrite E, Ec; apply Z.eqb_refl).
    destruct (IH al (off + 1) Hwf) as (r & -> & Hr); [lia..|]. exists r. split; [done|].
    destruct r as [[o temp]|].
    + destruct Hr as (Ho & Hf & Ht). split; [lia|]. split; [|done].
      intros k Hk. destruct (Z.eq_dec k off) as [->|]; [done|]. apply Hf. lia.
    + intros k Hk. destruct (Z.eq_dec k off) as [->|]; [done|]. apply Hr. lia.
Qed.

Lemma shlw6 o : 0 <= o < 2 ^ 57 -> shlw 64 o UNIT_SHIFT = 64 * o.
Proof.
  intros. unfold shlw, UNIT_SHIFT. rewrite Z.shiftl_mul_pow2, wrap_small by (unfold is_word; lia). lia.
Qed.

(** The free bit picked in a word: the lowest one at or above [lo]. *)
Lemma pick_bit al o temp lo w : wf_level al -> 0 <= o < 2 ^ 57 -> arr_get (map al) o = Some w ->
  is_word 64 w -> 0 <= lo <= 64 ->
  (forall i, 0 <= i -> Z.testbit temp i = (lo <=? i) && Z.testbit (notw 64 w) i) -> temp <> 0 ->
  is_word 64 temp ->
  let j := addw 64 (shlw 64 o UNIT_SHIFT) (ffz (notw 64 temp)) in
  j / 64 = o /\ 64 * o + lo <= j < 64 * o + 64 /\ lbit al j = false /\
  forall k, 64 * o + lo <= k < j -> lbit al k = true.
Proof.
  intros Hwf Ho E Hw Hlo Hbits Hnz Htw j. destruct (ffs64_lowest temp Htw Hnz) as ((H1 & H2 & H3) & H4).
  assert (j = 64 * o + ffs64 temp) as Hj.
  { subst j. unfold ffz, addw. rewrite notw_notw, shlw6 by (done || lia).
    rewrite wrap_small by (unfold is_word; lia). done. }
  assert (forall i, 0 <= i < 64 -> (64 * o + i) / 64 = o /\ (64 * o + i) mod 64 = i) as Hdm.
  { intros i Hi. split; [symmetry; apply Z.div_unique with i; lia|symmetry; apply Z.mod_unique with o; lia]. }
  rewrite Hbits in H2 by lia. apply andb_true_iff in H2 as [Hge Hfree]. apply Z.leb_le in Hge.
  destruct (Hdm (ffs64 temp) ltac:(lia)) as [Hd Hm]. rewrite Hj.
  split; [done|]. split; [lia|]. split.
  - rewrite <- Hm, (lbit_word al _ w) in Hfree by (rewrite ?Hd; done). by destruct (lbit al _).
  - intros k Hk. specialize (H3 (k - 64 * o) ltac:(lia)). rewrite Hbits in H3 by lia.
    destruct (Hdm (k - 64 * o) ltac:(lia)) as [Hd' Hm'].
    replace (64 * o + (k - 64 * o)) with k in * by lia.
    destruct (Z.leb_spec lo (k - 64 * o)); [|lia]. cbn in H3.
    rewrite <- Hm', (lbit_word al _ w) in H3 by (rewrite ?Hd'; done). by destruct (lbit al k).
Qed.

(** The free bits of a word from a given position: [~bit_masks[bit] & ~word]. *)
Lemma word_from_bits w lo i : is_word 64 w -> 0 <= lo < 64 -> 0 <= i ->
  Z.testbit (Z.land (notw 64 (Z.ones lo)) (notw 64 w)) i = (lo <=? i) && Z.testbit (notw 64 w) i.
Proof.
  intros Hw Hlo Hi. rewrite Z.land_spec, (notw_bits 64 (Z.ones lo)), Z.testbit_ones_nonneg by lia.
  rewrite (notw_bits 64 w) by lia. zcases; simpl; try lia; by destruct (Z.testbit w i).
Qed.

Lemma word_from_spec al k w : wf_level al -> 0 <= k -> k / 64 < 2 ^ 57 ->
  arr_get (map al) (k / 64) = Some w -> is_word 64 w ->
  let temp := Z.land (notw 64 (Z.ones (k mod 64))) (notw 64 w) in
  if c_true temp then
    let j := addw 64 (shlw 64 (k / 64) UNIT_SHIFT) (ffz (notw 64 temp)) in
    first_free (lbit al) k (64 * (k / 64) + 64) (Some j)
  else first_free (lbit al) k (64 * (k / 64) + 64) None.
Proof.
  intros Hwf Hk Hsz E Hw temp. pose proof (Z.mod_pos_bound k 64). pose proof (Z.div_mod k 64).
  pose proof (Z.div_pos k 64).
  assert (forall i, 0 <= i -> Z.testbit temp i = (k mod 64 <=? i) && Z.testbit (notw 64 w) i) as Hb
    by (intros; apply word_from_bits; done || lia).
  destruct (c_true temp) eqn:Ec.
  - apply c_true_iff in Ec.
    destruct (pick_bit al (k / 64) temp (k mod 64) w) as (Hj1 & Hj2 & Hj3 & Hj4); try (done || lia).
    { apply is_word_land_l; [lia|apply notw_range; lia]. }
    split; [lia|]. split; [done|]. intros i Hi. apply Hj4. lia.
  - apply c_true_false_iff in Ec. intros j Hj.
    destruct (same_word k (j - k)) as [Hd Hm]; [lia..|].
    replace (k + (j - k)) with j in * by lia.
    specialize (Hb (j mod 64) ltac:(lia)). rewrite Ec, Z.bits_0, (lbit_word al j w) in Hb by (rewrite ?Hd; done).
    destruct (Z.leb_spec (k mod 64) (j mod 64)); [|lia]. cbn in Hb. by destruct (lbit al j).
Qed.

(** Words after the first one: the result of [find_word] read at the level of bits. *)
Lemma find_word_first_free al off r : wf_level al -> 0 <= off -> map_size al < 2 ^ 57 ->
  match r with
  | Some (o, temp) => off <= o < map_size al /\ (forall k, off <= k < o -> full al k = true) /\
      temp <> 0 /\ exists w, arr_get (map al) o = Some w /\ is_word 64 w /\ temp = notw 64 w
  | None => forall k, off <= k < map_size al -> full al k = true
  end ->
  first_free (lbit al) (64 * off) (64 * map_size al)
    match r with
    | Some (o, temp) => Some (addw 64 (shlw 64 o UNIT_SHIFT) (ffz (notw 64 temp)))
    | None => None
    end.
Proof.
  intros Hwf Hoff Hsz Hr.
  assert (forall j, 64 * off <= j -> off <= j / 64) as Hdiv by (intros; apply Z.div_le_lower_bound; lia).
  destruct r as [[o temp]|].
  - destruct Hr as (Ho & Hfull & Hnz & w & E & Hw & ->).
    destruct (pick_bit al o (notw 64 w) 0 w) as (Hj1 & Hj2 & Hj3 & Hj4); try (done || lia).
    { intros i Hi. zcases; [done|lia]. }
    { apply notw_range. lia. }
    split; [lia|]. split; [done|]. intros k Hk.
    destruct (Z.lt_ge_cases k (64 * o)) as [Hlt|]; [|apply Hj4; lia].
    assert (off <= k / 64 < o) as Hko.
    { split; [apply Hdiv; lia|apply Z.div_lt_upper_bound; lia]. }
    specialize (Hfull _ Hko). rewrite full_lbit in Hfull by (done || lia). by apply Hfull.
  - intros k Hk. assert (off <= k / 64 < map_size al) as Hko.
    { split; [apply Hdiv; lia|apply Z.div_lt_upper_bound; lia]. }
    specialize (Hr _ Hko). rewrite full_lbit in Hr by (done || lia). by apply Hr.
Qed.

Lemma first_free_chain f b m e r : b <= m <= e -> (forall k, b <= k < m -> f k = true) ->
  first_free f m e r -> first_free f b e r.
Proof.
  intros Hbm Hset. destruct r as [j|].
  - intros (Hj & Hf & Hall). split; [lia|]. split; [done|]. intros k Hk.
    destruct (Z.lt_ge_cases k m); [apply Hset|apply Hall]; lia.
  - intros Hall k Hk. destruct (Z.lt_ge_cases k m); [apply Hset|apply Hall]; lia.
Qed.

Lemma first_free_extend f b m e j : m <= e -> first_free f b m (Some j) -> first_free f b e (Some j).
Proof. intros Hme (Hj & Hf & Hall). split; [lia|]. done. Qed.

Lemma find_level_spec al (i : nat) index b : wf_level al -> map_size al < 2 ^ 57 ->
  0 <= b -> 0 <= index < 2 ^ 57 ->
  let start := Z.max (64 * index) (b / 64 ^ Z.of_nat i) in
  exists r, find_level al (Z.of_nat i) index b = Some r /\
    first_free (lbit al) start (64 * map_size al) r.
Proof.
  intros Hwf Hsz Hb Hidx start. unfold find_level; cbv zeta.
  rewrite shiftr_unit, (shlw6 index) by lia.
  assert ((if 64 * index <? b / 64 ^ Z.of_nat i then b / 64 ^ Z.of_nat i else 64 * index) = start)
    as -> by (subst start; zcases; lia).
  assert (0 <= start) as Hs by (subst start; lia). clearbody start.
  rewrite shiftr6, land63. pose proof (Z.div_mod start 64). pose proof (Z.mod_pos_bound start 64).
  destruct (Z.leb_spec (map_size al) (start / 64)).
  { exists None. split; [done|]. intros k Hk. lia. }
  pose proof (Z.div_pos start 64).
  destruct (wf_level_get al (start / 64)) as (w & E & Hw); [done|lia|].
  rewrite E, bit_masks_get by lia. cbn [mbind option_bind].
  pose proof (word_from_spec al start w Hwf Hs ltac:(lia) E Hw) as Hfirst. cbv zeta in Hfirst.
  destruct (c_true _).
  - cbn [mbind option_bind]. eexists. split; [done|]. eapply first_free_extend; [|done]. lia.
  - destruct (find_word_spec (Z.to_nat (map_size al)) al (start / 64 + 1)) as (r & -> & Hr); [done|lia..|].
    cbn [mbind option_bind]. eexists. split; [done|].
    apply (first_free_chain _ _ (64 * (start / 64 + 1))); [lia| |].
    + intros k Hk. apply Hfirst. lia.
    + by apply find_word_first_free; try (done || lia).
Qed.

(** Levels shrink, so one bound on level 0 covers every index computed on the way. *)
Lemma level_sizes ls (n : nat) al al0 : wf_levels 0 ls -> ls !! n = Some al -> ls !! 0%nat = Some al0 ->
  map_size al0 < 2 ^ 57 -> map_size al < 2 ^ 57.
Proof.
  intros Hwf. revert al. induction n as [|n IH]; intros al Hal H0 Hsz.
  { rewrite Hal in H0. by injection H0 as <-. }
  destruct (lookup_lt_is_Some_2 ls n) as [lo Hlo]; [apply lookup_lt_Some in Hal; lia|].
  specialize (IH lo Hlo H0 Hsz). destruct (wf_levels_summary ls 0 n lo al Hwf Hlo Hal) as [-> _].
  apply Z.div_lt_upper_bound; lia.
Qed.

(** A free block at level 0 leaves its ancestors free. *)
Lemma ancestor_free ls b : wf_levels 0 ls -> 0 <= b -> forall (n : nat) al al0,
  ls !! n = Some al -> ls !! 0%nat = Some al0 -> lbit al0 b = false -> lbit al (b / 64 ^ Z.of_nat n) = false.
Proof.
  intros Hwf Hb n al al0 Hal H0 Hf. destruct (lbit al (b / 64 ^ Z.of_nat n)) eqn:E; [|done].
  rewrite (ancestor_set ls b Hwf Hb n al al0) in Hf by done. done.
Qed.

(** No free bit at some level: no free block below it either. *)
Lemma level_none ls b (n : nat) al al0 : wf_levels 0 ls -> 0 <= b ->
  ls !! n = Some al -> ls !! 0%nat = Some al0 ->
  first_free (lbit al) (b / 64 ^ Z.of_nat n) (64 * map_size al) None ->
  first_free (lbit al0) b (64 * map_size al0) None.
Proof.
  intros Hwf Hb Hal H0 Hnone k Hk. destruct (lbit al0 k) eqn:Hfree; [done|].
  pose proof (ancestor_free ls k Hwf ltac:(lia) n al al0 Hal H0 Hfree) as Ha.
  rewrite Hnone in Ha; [done|]. split; [apply Z.div_le_mono; lia|].
  pose proof (ancestor_in_map ls k Hwf ltac:(lia) n al al0 Hal H0
    ltac:(apply Z.div_lt_upper_bound; lia)).
  pose proof (Z.div_mod (k / 64 ^ Z.of_nat n) 64).
  pose proof (Z.mod_pos_bound (k / 64 ^ Z.of_nat n) 64). lia.
Qed.

(** The search of a level restarts where the level above left off. *)
Lemma level_restart ls b (n : nat) lo al j : wf_levels 0 ls -> 0 <= b ->
  ls !! n = Some lo -> ls !! S n = Some al ->
  first_free (lbit al) (b / 64 ^ Z.of_nat (S n)) (64 * map_size al) (Some j) ->
  forall k, b / 64 ^ Z.of_nat n <= k < 64 * j -> lbit lo k = true.
Proof.
  intros Hwf Hb Hlo Hal (Hj & _ & Hset) k Hk.
  assert (0 <= b / 64 ^ Z.of_nat n) by (apply Z.div_pos; lia).
  destruct (wf_levels_lookup ls 0 n lo Hwf Hlo) as [_ Hwlo].
  destruct (wf_levels_summary ls 0 n lo al Hwf Hlo Hal) as [_ Hsum].
  assert (b / 64 ^ Z.of_nat (S n) <= k / 64 < j) as Hkj.
  { rewrite <- ancestor_succ by done.
    split; [apply Z.div_le_mono; lia|apply Z.div_lt_upper_bound; lia]. }
  assert (0 <= k / 64) by (apply Z.div_pos; lia).
  specialize (Hset _ Hkj). rewrite Hsum in Hset by lia.
  destruct (decide (k / 64 < map_size lo)).
  - rewrite full_lbit in Hset by (done || lia). by apply Hset.
  - rewrite full_out in Hset by (done || lia). done.
Qed.

Lemma first_free_max f b m e r : 0 <= b -> (forall k, b <= k < m -> f k = true) ->
  (forall k, e <= k -> f k = false) -> first_free f (Z.max m b) e r -> first_free f b e r.
Proof.
  intros Hb Hset Hout Hr. destruct (Z.le_gt_cases m b).
  - by rewrite Z.max_r in Hr by lia.
  - rewrite Z.max_l in Hr by lia. destruct (Z.le_gt_cases m e).
    + eapply first_free_chain; [|done..]. lia.
    + destruct (Z.le_gt_cases b e).
      * specialize (Hset e ltac:(lia)). by rewrite Hout in Hset.
      * destruct r as [j|]; [destruct Hr; lia|]. intros k Hk. lia.
Qed.

Lemma find_first_free_loop_spec ls al0 b : wf_levels 0 ls -> ls !! 0%nat = Some al0 ->
  map_size al0 < 2 ^ 57 -> 0 <= b -> forall (n : nat) index, (0 < n <= length ls)%nat ->
  0 <= index < 2 ^ 57 ->
  (forall al k, ls !! (n - 1)%nat = Some al ->
     b / 64 ^ Z.of_nat (n - 1) <= k < 64 * index -> lbit al k = true) ->
  exists r, find_first_free_loop ls n index b = Some r /\
    first_free (lbit al0) b (64 * map_size al0) r.
Proof.
  intros Hwf H0 Hsz Hb. induction n as [|n IH]; intros index Hn Hidx Hbelow; [lia|].
  replace (S n - 1)%nat with n in Hbelow by lia. cbn [find_first_free_loop].
  destruct (lookup_lt_is_Some_2 ls n) as [al Hal]; [lia|]. rewrite Hal. cbn [mbind option_bind].
  destruct (wf_levels_lookup ls 0 n al Hwf Hal) as [_ Hwal].
  pose proof (level_sizes ls n al al0 Hwf Hal H0 Hsz) as Hszn.
  destruct (find_level_spec al n index b Hwal Hszn Hb Hidx) as (r & -> & Hr). cbn [mbind option_bind].
  apply first_free_max in Hr.
  2: { apply Z.div_pos; lia. }
  2: { intros k Hk. by apply Hbelow. }
  2: { intros k Hk. apply lbit_out; [done|lia]. }
  destruct r as [j|]; [|exists None; split; [done|]; by eapply level_none].
  destruct n as [|n].
  { rewrite H0 in Hal. injection Hal as <-. exists (Some j). by rewrite Z.div_1_r in Hr. }
  destruct (lookup_lt_is_Some_2 ls n) as [lo Hlo]; [lia|].
  pose proof (level_sizes ls n lo al0 Hwf Hlo H0 Hsz).
  assert (0 <= b / 64 ^ Z.of_nat (S n)) by (apply Z.div_pos; lia).
  apply IH; [lia| |].
  - destruct (wf_levels_summary ls 0 n lo al Hwf Hlo Hal) as [Hup _].
    destruct Hr as [Hj _]. split; [lia|]. rewrite Hup in Hj.
    pose proof (Z.div_mod (map_size lo + 63) 64).
    pose proof (Z.mod_pos_bound (map_size lo + 63) 64). lia.
  - replace (S n - 1)%nat with n by lia. intros al' k Hal' Hk. rewrite Hlo in Hal'. injection Hal' as <-.
    by apply (level_restart ls b n lo al j).
Qed.

(** ** Construction *)

Lemma count_levels_ge fuel : forall i l, l <= count_levels fuel i l.
Proof.
  induction fuel as [|fuel IH]; intros i l; cbn [count_levels]; [lia|].
  zcases; [|lia]. etrans; [|apply IH]. lia.
Qed.

Definition zero_level (al : axmap_level) : Prop :=
  0 <= map_size al /\ map al = replicate (Z.to_nat (map_size al)) 0.

Lemma zero_level_wf al : zero_level al -> wf_level al.
Proof.
  intros [Hs Hm]. unfold wf_level. rewrite Hm. split.
  - unfold zlength. rewrite length_replicate. lia.
  - apply Forall_replicate. unfold is_word. lia.
Qed.

Lemma zero_get n k w : arr_get (replicate n 0) k = Some w -> w = 0.
Proof. unfold arr_get. destruct (k <? 0); [done|]. by intros [-> _]%lookup_replicate. Qed.

Lemma zero_level_bits al k : zero_level al -> lbit al k = false /\ full al k = false.
Proof.
  intros [_ Hm]. unfold lbit, full. rewrite Hm. split.
  - destruct (arr_get _ (k / 64)) as [w|] eqn:E; [|done]. by rewrite (zero_get _ _ _ E), Z.bits_0.
  - destruct (arr_get _ k) as [w|] eqn:E; [|done]. by rewrite (zero_get _ _ _ E).
Qed.

Lemma build_levels_spec alloc n : forall i nb, 0 <= nb < 2 ^ 62 ->
  match build_levels alloc n i nb with
  | Some ls => length ls = n /\ wf_levels i ls /\ Forall zero_level ls /\
      forall al, ls !! 0%nat = Some al -> map_size al = (nb + 63) / 64
  | None => exists m, alloc m = false
  end.
Proof.
  induction n as [|n IH]; intros i nb Hnb; cbn [build_levels].
  { split_and!; done. }
  unfold addw, BLOCKS_PER_UNIT. rewrite wrap_small by (unfold is_word; lia). rewrite shiftr6.
  replace (nb + (64 - 1)) with (nb + 63) by lia.
  destruct (alloc (mulw 64 ((nb + 63) / 64) 8)) eqn:Ha; [|by eexists].
  assert (0 <= (nb + 63) / 64 < 2 ^ 62) as Hnb'.
  { split; [apply Z.div_pos; lia|apply Z.div_lt_upper_bound; lia]. }
  specialize (IH (i + 1) _ Hnb'). destruct (build_levels alloc n (i + 1) _) as [rest|]; [|done].
  cbn [mbind option_bind]. destruct IH as (Hlen & Hwf & Hz & Hhd).
  set (al := mk_level i _ _). assert (zero_level al) as Hal by (split; cbn; [lia|done]).
  split_and!; [cbn; by rewrite Hlen| |by constructor|by intros ? [= <-]].
  cbn [wf_levels]. split_and!; [done|by apply zero_level_wf| |done].
  destruct rest as [|up rest]; [done|]. split.
  - rewrite (Hhd up); done.
  - intros k _. inversion Hz as [|?? Hup _]. by rewrite !(proj1 (zero_level_bits up k Hup)), (proj2 (zero_level_bits al k Hal)).
Qed.

Lemma reset_zero ls : Forall zero_level ls ->
  (fun al => set_map al (replicate (Z.to_nat (map_size al)) 0)) <$> ls = ls.
Proof.
  induction 1 as [|al ls [_ Hm] _ IH]; [done|]. cbn. rewrite IH. f_equal.
  unfold set_map. rewrite <- Hm. by destruct al.
Qed.

Lemma reset_levels ls : forall i, wf_levels i ls ->
  wf_levels i ((fun al => set_map al (replicate (Z.to_nat (map_size al)) 0)) <$> ls).
Proof.
  induction ls as [|al ls IH]; intros i; [done|]. intros (Hl & [Hz Hw] & Hs & Hwf). cbn [fmap list_fmap wf_levels].
  assert (forall al : axmap_level, 0 <= map_size al -> zero_level (set_map al (replicate (Z.to_nat (map_size al)) 0))) as Hzero.
  { intros a Ha. by split. }
  assert (0 <= map_size al) as Hal by (unfold zlength in Hz; lia).
  split_and!; [done|by apply zero_level_wf, Hzero| |by apply IH].
  destruct ls as [|up ls]; [done|]. destruct Hs as [Hs _]. cbn [fmap list_fmap].
  assert (0 <= map_size up) as Hup by (rewrite Hs; apply Z.div_pos; lia).
  split; [done|]. intros k _. by rewrite (proj1 (zero_level_bits _ k (Hzero up Hup))), (proj2 (zero_level_bits _ k (Hzero al Hal))).
Qed.

(** * Properties *)

Lemma axmap_reset_spec ax : axmap_ok ax ->
  axmap_ok (axmap_reset ax) /\ nr_bits (axmap_reset ax) = nr_bits ax /\ forall k, member (axmap_reset ax) k = false.
Proof.
  intros (Hlen & Hn & Hr & Hwf & H0). unfold axmap_ok, axmap_reset, set_levels, zlength, member in *. cbn [nr_levels nr_bits levels].
  rewrite length_fmap, list_lookup_fmap. split_and!; try done; try lia; [by apply reset_levels| |].
  - intros al. destruct (levels ax !! 0%nat) as [al0|] eqn:E; [|done]. intros [= <-]. cbn. by apply H0.
  - intros k. destruct (levels ax) as [|al rest]; [done|]. cbn. destruct Hwf as (_ & [Hz _] & _).
    apply (zero_level_bits (set_map al _) k). unfold zlength in Hz. by split; [cbn; lia|].
Qed.

Lemma axmap_set_nr_spec ax b n :
  axmap_ok ax -> 0 <= b -> 1 <= n < 2 ^ 32 -> b + n <= nr_bits ax ->
  exists ax' r, axmap_set_nr ax b n = Some (ax', r) /\
    axmap_ok ax' /\ nr_bits ax' = nr_bits ax /\
    free_run (member ax) b n r /\ set_member ax ax' b r.
Proof.
  intros Hok Hb Hn Hle. unfold axmap_set_nr.
  destruct (axmap_set_nr_loop_spec (S (Z.to_nat n)) ax b n 0) as (ax' & r & H & ?); try (done || lia).
  by exists ax', r.
Qed.

(** C1: [axmap_set_nr] on a well-formed map and a range of blocks inside the file
    never leaves the bounds of its arrays, never trips an assertion, and terminates;
    it returns the length of the run of free blocks at [b] (cut at [n]), adds exactly
    these blocks to the set, and keeps every level consistent with the one below. *)
Theorem axmap_set_nr_correct ax b n :
  axmap_ok ax -> 0 <= b -> 1 <= n < 2 ^ 32 -> b + n <= nr_bits ax ->
  exists ax' r, axmap_set_nr ax b n = Some (ax', r) /\
    axmap_ok ax' /\ nr_bits ax' = nr_bits ax /\
    free_run (member ax) b n r /\ set_member ax ax' b r.
Proof. apply axmap_set_nr_spec. Qed.

Lemma find_first_free_spec ax b : axmap_ok ax -> 0 <= b < nr_bits ax ->
  exists r, axmap_find_first_free ax b = Some (default ULONG_MAX r) /\
    first_free (member ax) b (nr_bits ax) r.
Proof.
  intros Hok Hb. pose proof Hok as (Hlen & Hn1 & Hrange & Hwf & _).
  destruct (axmap_ok_level0 ax Hok) as (al & rest & Hls & Hsz).
  pose proof (Z.div_mod (nr_bits ax + 63) 64 ltac:(lia)).
  pose proof (Z.mod_pos_bound (nr_bits ax + 63) 64 ltac:(lia)).
  unfold axmap_find_first_free, member. rewrite Hls in *. unfold zlength in Hlen. cbn [length] in Hlen.
  destruct (find_first_free_loop_spec (al :: rest) al b Hwf eq_refl ltac:(lia) ltac:(lia)
    (Z.to_nat (nr_levels ax)) 0) as (r & -> & Hr); [cbn [length]; lia|lia| |].
  { intros al' k _ Hk. assert (0 <= b / 64 ^ Z.of_nat (Z.to_nat (nr_levels ax) - 1)) by (apply Z.div_pos; lia). lia. }
  cbn [mbind option_bind]. destruct r as [j|].
  - destruct Hr as (Hj & Hf & Hset). destruct (Z.leb_spec (nr_bits ax) j).
    + exists None. split; [done|]. intros k Hk. apply Hset. lia.
    + exists (Some j). split; [done|]. split; [lia|]. done.
  - exists None. split; [done|]. intros k Hk. apply Hr. lia.
Qed.

(** The next free block after [b] in cyclic order, [-1ULL] when every block is set. *)
Definition cyclic_next (f : Z -> bool) (nr b r : Z) : Prop :=
  (b < r < nr /\ f r = false /\ forall k, b < k < r -> f k = true) \/
  (0 <= r <= b /\ f r = false /\ (forall k, b < k < nr -> f k = true) /\
     forall k, 0 <= k < r -> f k = true) \/
  (r = ULONG_MAX /\ forall k, 0 <= k < nr -> f k = true).

(** The search of [axmap_next_free] before it wraps around. *)
Lemma next_free_first ax al rest b w : axmap_ok ax -> levels ax = al :: rest ->
  0 <= b < nr_bits ax -> arr_get (map al) (b / 64) = Some w -> is_word 64 w ->
  let temp := Z.land (notw 64 (Z.ones (b mod 64))) (notw 64 w) in
  exists r, (if c_true temp then
               let ret := addw 64 (shlw 64 (b / 64) UNIT_SHIFT) (ffz (notw 64 temp)) in
               Some (if nr_bits ax <=? ret then ULONG_MAX else ret)
             else axmap_find_first_free ax b) = Some (default ULONG_MAX r) /\
    first_free (member ax) b (nr_bits ax) r.
Proof.
  intros Hok Hls Hb E Hw temp. pose proof Hok as (_ & _ & Hrange & Hwf & _).
  assert (b / 64 < 2 ^ 57) by (apply Z.div_lt_upper_bound; lia).
  assert (wf_level al) as Hwal by (rewrite Hls in Hwf; apply Hwf).
  pose proof (word_from_spec al b w Hwal ltac:(lia) ltac:(lia) E Hw) as Hff. cbv zeta in Hff.
  fold temp in Hff. destruct (c_true temp); [|by apply find_first_free_spec].
  cbv zeta. set (j := addw 64 _ _) in *. destruct Hff as (Hj & Hf & Hset).
  unfold member. rewrite Hls. destruct (Z.leb_spec (nr_bits ax) j).
  - exists None. split; [done|]. intros k Hk. apply Hset. lia.
  - exists (Some j). split; [done|]. split; [lia|]. done.
Qed.

Lemma axmap_next_free_spec ax b :
  axmap_ok ax -> 0 <= b < nr_bits ax ->
  exists r, axmap_next_free ax b = Some r /\ cyclic_next (member ax) (nr_bits ax) b r.
Proof.
  intros Hok Hb. pose proof Hok as (_ & _ & Hrange & Hwf & _).
  destruct (axmap_ok_level0 ax Hok) as (al & rest & Hls & Hsz).
  assert (wf_level al) as Hwal by (rewrite Hls in Hwf; apply Hwf).
  unfold axmap_next_free. destruct (Z.leb_spec (nr_bits ax) b); [lia|].
  cbv zeta. assert (addw 64 b 1 = b + 1) as -> by (apply wrap_small; unfold is_word; lia).
  set (nx := if b + 1 =? nr_bits ax then 0 else b + 1).
  assert (0 <= nx < nr_bits ax /\ (nx = b + 1 \/ nx = 0 /\ b + 1 = nr_bits ax)) as [Hnx Hcase]
    by (subst nx; zcases; lia).
  clearbody nx. rewrite Hls. cbn [mbind option_bind list_lookup lookup]. rewrite shiftr6, land63.
  pose proof (block_in_map (nr_bits ax) nx ltac:(lia)) as Hin. rewrite <- Hsz in Hin.
  pose proof (Z.div_pos nx 64). pose proof (Z.mod_pos_bound nx 64).
  destruct (wf_level_get al (nx / 64) Hwal ltac:(lia)) as (w & E & Hw).
  rewrite E, bit_masks_get by lia. cbn [mbind option_bind].
  destruct (next_free_first ax al rest nx w Hok Hls Hnx E Hw) as (r & Hr & Hff).
  cbv zeta in Hr. rewrite Hr. cbn [mbind option_bind].
  assert (nr_bits ax < ULONG_MAX) by (unfold ULONG_MAX, all_ones; lia).
  destruct r as [j|]; cbn [from_option id].
  - destruct Hff as (Hj & Hf & Hset). destruct (Z.eqb_spec j ULONG_MAX); [lia|]. cbn.
    exists j. split; [done|]. destruct Hcase as [->|[-> Hend]].
    + left. split; [lia|]. split; [done|]. intros k Hk. apply Hset. lia.
    + right; left. split; [lia|]. split; [done|]. split; [lia|]. intros k Hk. apply Hset. lia.
  - rewrite Z.eqb_refl. destruct (Z.eqb_spec nx 0) as [->|Hnz]; cbn [negb andb].
    + exists ULONG_MAX. split; [done|]. right; right. done.
    + destruct (find_first_free_spec ax 0 Hok ltac:(lia)) as (r & -> & Hr0). exists (default ULONG_MAX r).
      split; [done|]. destruct r as [j|]; cbn [from_option id]; [|by right; right].
      destruct Hr0 as (Hj & Hf & Hset). right; left. destruct Hcase as [->|]; [|lia]. cbn in Hff.
      split; [|split; [done|split; [intros; apply Hff; lia|done]]].
      destruct (Z.le_gt_cases j b); [lia|]. rewrite Hff in Hf by lia. done.
Qed.

(** C2: [axmap_next_free] finds the next free block after [b], going around the end
    of the map to its beginning, and returns [-1ULL] only when no block is free. *)
Theorem axmap_next_free_correct ax b :
  axmap_ok ax -> 0 <= b < nr_bits ax ->
  exists r, axmap_next_free ax b = Some r /\ cyclic_next (member ax) (nr_bits ax) b r.
Proof. apply axmap_next_free_spec. Qed.

Lemma axmap_isset_spec ax b : axmap_ok ax -> 0 <= b < nr_bits ax ->
  axmap_isset ax b = Some (member ax b).
Proof.
  intros Hok Hb. pose proof Hok as (Hlen & Hn1 & _ & Hwf & _).
  destruct (axmap_ok_level0 ax Hok) as (al & rest & Hls & Hsz).
  unfold axmap_isset, member. destruct (Z.leb_spec b (nr_bits ax)); [|lia].
  rewrite Hls in *. unfold zlength in Hlen. cbn [length] in Hlen.
  rewrite (topdown_isset (al :: rest) b al); try (done || lia).
  - rewrite Hsz. by apply block_in_map.
  - cbn [length]. lia.
Qed.

(** [axmap_isset] answers membership in the set for every block of the file. *)
Theorem axmap_isset_correct ax b : axmap_ok ax -> 0 <= b < nr_bits ax ->
  axmap_isset ax b = Some (member ax b).
Proof. apply axmap_isset_spec. Qed.

Lemma axmap_new_spec alloc nr : 0 <= nr < 2 ^ 62 ->
  match axmap_new alloc nr with
  | Some ax => axmap_ok ax /\ nr_bits ax = nr /\ forall k, member ax k = false
  | None => exists n, alloc n = false
  end.
Proof.
  intros Hnr. unfold axmap_new. destruct (alloc 24) eqn:Ha; cbn [negb]; [|by eexists].
  set (lv := count_levels _ _ _). cbv zeta.
  destruct (alloc (lv * 24)) eqn:Hl; cbn [negb]; [|by eexists].
  assert (1 <= lv) as Hlv by apply count_levels_ge.
  pose proof (build_levels_spec alloc (Z.to_nat lv) 0 nr Hnr) as H.
  destruct (build_levels alloc (Z.to_nat lv) 0 nr) as [ls|]; [|done].
  cbn [mbind option_bind]. destruct H as (Hlen & Hwf & Hz & Hhd).
  unfold axmap_reset, set_levels. cbn [levels nr_levels nr_bits]. rewrite reset_zero by done.
  split_and!; [|done|].
  - split_and!; cbn [levels nr_levels nr_bits]; try done; try lia. unfold zlength. lia.
  - intros k. unfold member. cbn. destruct (ls !! 0%nat) as [al|] eqn:E; [|done].
    apply Forall_lookup_1 with (i := 0%nat) (x := al) in Hz; [|done]. apply (zero_level_bits al k Hz).
Qed.

(** [axmap_new] either reports a failed allocation or builds a well-formed map
    of the requested size that holds no block. *)
Theorem axmap_new_correct alloc nr : 0 <= nr < 2 ^ 62 ->
  match axmap_new alloc nr with
  | Some ax => axmap_ok ax /\ nr_bits ax = nr /\ forall k, member ax k = false
  | None => exists n, alloc n = false
  end.
Proof. apply axmap_new_spec. Qed.

(** ** Witnesses: a map of 200 blocks *)

Definition sample_map : axmap := default (mk_axmap 0 [] 0) sample.

Lemma sample_map_ok : axmap_ok sample_map.
Proof.
  pose proof (axmap_new_spec (fun _ => true) 200 ltac:(lia)) as H. unfold sample_map, sample.
  destruct (axmap_new (fun _ => true) 200); [apply H|by destruct H].
Qed.

Lemma axmap_set_nr_witness :
  exists ax' r, axmap_set_nr sample_map 60 80 = Some (ax', r) /\
    axmap_ok ax' /\ nr_bits ax' = nr_bits sample_map /\
    free_run (member sample_map) 60 80 r /\ set_member sample_map ax' 60 r.
Proof. apply (axmap_set_nr_correct sample_map 60 80); [apply sample_map_ok|lia|lia|vm_compute; discriminate]. Defined.

Lemma axmap_next_free_witness :
  exists r, axmap_next_free sample_map 199 = Some r /\ cyclic_next (member sample_map) (nr_bits sample_map) 199 r.
Proof. apply (axmap_next_free_correct sample_map 199); [apply sample_map_ok|vm_compute; split; [discriminate|reflexivity]]. Defined.

Lemma axmap_isset_witness : axmap_isset sample_map 130 = Some (member sample_map 130).
Proof. apply (axmap_isset_correct sample_map 130); [apply sample_map_ok|vm_compute; split; [discriminate|reflexivity]]. Defined.

Lemma axmap_new_witness :
  match axmap_new (fun n => n <? 1000) 20000 with
  | Some ax => axmap_ok ax /\ nr_bits ax = 20000 /\ forall k, member ax k = false
  | None => exists n, (n <? 1000) = false
  end.
Proof. apply (axmap_new_correct (fun n => n <? 1000) 20000). lia. Defined.

(** ** Behaviour at the end of the map *)

(** [axmap_isset] accepts [bit_nr == nr_bits]; with a multiple of 64 blocks it then
    reads past the end of the level-0 map. *)
Example axmap_isset_end :
  (let* ax := axmap_new (fun _ => true) 64 in axmap_isset ax 64) = None.
Proof. reflexivity. Qed.

(** The count clipped by [__axmap_set] is not the one handed to [axmap_set_fn]: bits
    past [nr_bits] are set and counted. *)
Example axmap_set_past_end :
  (let* ax := axmap_new (fun _ => true) 100 in let* '(ax, r) := axmap_set_nr ax 96 8 in
   Some (r, member ax 103)) = Some (8, true).
Proof. vm_compute. reflexivity. Qed.
