(* ===== verification/Crc.v ===== *)
(** crc/: the cyclic redundancy checks.  The table-driven loops of the source are
    proved to compute the remainder of a division of polynomials over GF(2). *)
From S2P Require Import Prelude.

(** A buffer is a list of bytes, each in [[0, 256)]. *)
Definition is_bytes (l : list Z) : Prop := Forall (is_word 8) l.

(** The table [crc7_syndrome_table] of crc/crc7.c. *)
Definition crc7_syndrome_table : list Z := [
  0x00; 0x09; 0x12; 0x1b; 0x24; 0x2d; 0x36; 0x3f;
  0x48; 0x41; 0x5a; 0x53; 0x6c; 0x65; 0x7e; 0x77;
  0x19; 0x10; 0x0b; 0x02; 0x3d; 0x34; 0x2f; 0x26;
  0x51; 0x58; 0x43; 0x4a; 0x75; 0x7c; 0x67; 0x6e;
  0x32; 0x3b; 0x20; 0x29; 0x16; 0x1f; 0x04; 0x0d;
  0x7a; 0x73; 0x68; 0x61; 0x5e; 0x57; 0x4c; 0x45;
  0x2b; 0x22; 0x39; 0x30; 0x0f; 0x06; 0x1d; 0x14;
  0x63; 0x6a; 0x71; 0x78; 0x47; 0x4e; 0x55; 0x5c;
  0x64; 0x6d; 0x76; 0x7f; 0x40; 0x49; 0x52; 0x5b;
  0x2c; 0x25; 0x3e; 0x37; 0x08; 0x01; 0x1a; 0x13;
  0x7d; 0x74; 0x6f; 0x66; 0x59; 0x50; 0x4b; 0x42;
  0x35; 0x3c; 0x27; 0x2e; 0x11; 0x18; 0x03; 0x0a;
  0x56; 0x5f; 0x44; 0x4d; 0x72; 0x7b; 0x60; 0x69;
  0x1e; 0x17; 0x0c; 0x05; 0x3a; 0x33; 0x28; 0x21;
  0x4f; 0x46; 0x5d; 0x54; 0x6b; 0x62; 0x79; 0x70;
  0x07; 0x0e; 0x15; 0x1c; 0x23; 0x2a; 0x31; 0x38;
  0x41; 0x48; 0x53; 0x5a; 0x65; 0x6c; 0x77; 0x7e;
  0x09; 0x00; 0x1b; 0x12; 0x2d; 0x24; 0x3f; 0x36;
  0x58; 0x51; 0x4a; 0x43; 0x7c; 0x75; 0x6e; 0x67;
  0x10; 0x19; 0x02; 0x0b; 0x34; 0x3d; 0x26; 0x2f;
  0x73; 0x7a; 0x61; 0x68; 0x57; 0x5e; 0x45; 0x4c;
  0x3b; 0x32; 0x29; 0x20; 0x1f; 0x16; 0x0d; 0x04;
  0x6a; 0x63; 0x78; 0x71; 0x4e; 0x47; 0x5c; 0x55;
  0x22; 0x2b; 0x30; 0x39; 0x06; 0x0f; 0x14; 0x1d;
  0x25; 0x2c; 0x37; 0x3e; 0x01; 0x08; 0x13; 0x1a;
  0x6d; 0x64; 0x7f; 0x76; 0x49; 0x40; 0x5b; 0x52;
  0x3c; 0x35; 0x2e; 0x27; 0x18; 0x11; 0x0a; 0x03;
  0x74; 0x7d; 0x66; 0x6f; 0x50; 0x59; 0x42; 0x4b;
  0x17; 0x1e; 0x05; 0x0c; 0x33; 0x3a; 0x21; 0x28;
  0x5f; 0x56; 0x4d; 0x44; 0x7b; 0x72; 0x69; 0x60;
  0x0e; 0x07; 0x1c; 0x15; 0x2a; 0x23; 0x38; 0x31;
  0x46; 0x4f; 0x54; 0x5d; 0x62; 0x6b; 0x70; 0x79 ].

(** The table [crc16_table] of crc/crc16.c. *)
Definition crc16_table : list Z := [
  0x0000; 0xC0C1; 0xC181; 0x0140; 0xC301; 0x03C0; 0x0280; 0xC241;
  0xC601; 0x06C0; 0x0780; 0xC741; 0x0500; 0xC5C1; 0xC481; 0x0440;
  0xCC01; 0x0CC0; 0x0D80; 0xCD41; 0x0F00; 0xCFC1; 0xCE81; 0x0E40;
  0x0A00; 0xCAC1; 0xCB81; 0x0B40; 0xC901; 0x09C0; 0x0880; 0xC841;
  0xD801; 0x18C0; 0x1980; 0xD941; 0x1B00; 0xDBC1; 0xDA81; 0x1A40;
  0x1E00; 0xDEC1; 0xDF81; 0x1F40; 0xDD01; 0x1DC0; 0x1C80; 0xDC41;
  0x1400; 0xD4C1; 0xD581; 0x1540; 0xD701; 0x17C0; 0x1680; 0xD641;
  0xD201; 0x12C0; 0x1380; 0xD341; 0x1100; 0xD1C1; 0xD081; 0x1040;
  0xF001; 0x30C0; 0x3180; 0xF141; 0x3300; 0xF3C1; 0xF281; 0x3240;
  0x3600; 0xF6C1; 0xF781; 0x3740; 0xF501; 0x35C0; 0x3480; 0xF441;
  0x3C00; 0xFCC1; 0xFD81; 0x3D40; 0xFF01; 0x3FC0; 0x3E80; 0xFE41;
  0xFA01; 0x3AC0; 0x3B80; 0xFB41; 0x3900; 0xF9C1; 0xF881; 0x3840;
  0x2800; 0xE8C1; 0xE981; 0x2940; 0xEB01; 0x2BC0; 0x2A80; 0xEA41;
  0xEE01; 0x2EC0; 0x2F80; 0xEF41; 0x2D00; 0xEDC1; 0xEC81; 0x2C40;
  0xE401; 0x24C0; 0x2580; 0xE541; 0x2700; 0xE7C1; 0xE681; 0x2640;
  0x2200; 0xE2C1; 0xE381; 0x2340; 0xE101; 0x21C0; 0x2080; 0xE041;
  0xA001; 0x60C0; 0x6180; 0xA141; 0x6300; 0xA3C1; 0xA281; 0x6240;
  0x6600; 0xA6C1; 0xA781; 0x6740; 0xA501; 0x65C0; 0x6480; 0xA441;
  0x6C00; 0xACC1; 0xAD81; 0x6D40; 0xAF01; 0x6FC0; 0x6E80; 0xAE41;
  0xAA01; 0x6AC0; 0x6B80; 0xAB41; 0x6900; 0xA9C1; 0xA881; 0x6840;
  0x7800; 0xB8C1; 0xB981; 0x7940; 0xBB01; 0x7BC0; 0x7A80; 0xBA41;
  0xBE01; 0x7EC0; 0x7F80; 0xBF41; 0x7D00; 0xBDC1; 0xBC81; 0x7C40;
  0xB401; 0x74C0; 0x7580; 0xB541; 0x7700; 0xB7C1; 0xB681; 0x7640;
  0x7200; 0xB2C1; 0xB381; 0x7340; 0xB101; 0x71C0; 0x7080; 0xB041;
  0x5000; 0x90C1; 0x9181; 0x5140; 0x9301; 0x53C0; 0x5280; 0x9241;
  0x9601; 0x56C0; 0x5780; 0x9741; 0x5500; 0x95C1; 0x9481; 0x5440;
  0x9C01; 0x5CC0; 0x5D80; 0x9D41; 0x5F00; 0x9FC1; 0x9E81; 0x5E40;
  0x5A00; 0x9AC1; 0x9B81; 0x5B40; 0x9901; 0x59C0; 0x5880; 0x9841;
  0x8801; 0x48C0; 0x4980; 0x8941; 0x4B00; 0x8BC1; 0x8A81; 0x4A40;
  0x4E00; 0x8EC1; 0x8F81; 0x4F40; 0x8D01; 0x4DC0; 0x4C80; 0x8C41;
  0x4400; 0x84C1; 0x8581; 0x4540; 0x8701; 0x47C0; 0x4680; 0x8641;
  0x8201; 0x42C0; 0x4380; 0x8341; 0x4100; 0x81C1; 0x8081; 0x4040 ].

(** The table [crctab] of crc/crc32.c. *)
Definition crctab : list Z := [
  0x0; 0x04C11DB7; 0x09823B6E; 0x0D4326D9; 0x130476DC; 0x17C56B6B; 0x1A864DB2; 0x1E475005;
  0x2608EDB8; 0x22C9F00F; 0x2F8AD6D6; 0x2B4BCB61; 0x350C9B64; 0x31CD86D3; 0x3C8EA00A; 0x384FBDBD;
  0x4C11DB70; 0x48D0C6C7; 0x4593E01E; 0x4152FDA9; 0x5F15ADAC; 0x5BD4B01B; 0x569796C2; 0x52568B75;
  0x6A1936C8; 0x6ED82B7F; 0x639B0DA6; 0x675A1011; 0x791D4014; 0x7DDC5DA3; 0x709F7B7A; 0x745E66CD;
  0x9823B6E0; 0x9CE2AB57; 0x91A18D8E; 0x95609039; 0x8B27C03C; 0x8FE6DD8B; 0x82A5FB52; 0x8664E6E5;
  0xBE2B5B58; 0xBAEA46EF; 0xB7A96036; 0xB3687D81; 0xAD2F2D84; 0xA9EE3033; 0xA4AD16EA; 0xA06C0B5D;
  0xD4326D90; 0xD0F37027; 0xDDB056FE; 0xD9714B49; 0xC7361B4C; 0xC3F706FB; 0xCEB42022; 0xCA753D95;
  0xF23A8028; 0xF6FB9D9F; 0xFBB8BB46; 0xFF79A6F1; 0xE13EF6F4; 0xE5FFEB43; 0xE8BCCD9A; 0xEC7DD02D;
  0x34867077; 0x30476DC0; 0x3D044B19; 0x39C556AE; 0x278206AB; 0x23431B1C; 0x2E003DC5; 0x2AC12072;
  0x128E9DCF; 0x164F8078; 0x1B0CA6A1; 0x1FCDBB16; 0x018AEB13; 0x054BF6A4; 0x0808D07D; 0x0CC9CDCA;
  0x7897AB07; 0x7C56B6B0; 0x71159069; 0x75D48DDE; 0x6B93DDDB; 0x6F52C06C; 0x6211E6B5; 0x66D0FB02;
  0x5E9F46BF; 0x5A5E5B08; 0x571D7DD1; 0x53DC6066; 0x4D9B3063; 0x495A2DD4; 0x44190B0D; 0x40D816BA;
  0xACA5C697; 0xA864DB20; 0xA527FDF9; 0xA1E6E04E; 0xBFA1B04B; 0xBB60ADFC; 0xB6238B25; 0xB2E29692;
  0x8AAD2B2F; 0x8E6C3698; 0x832F1041; 0x87EE0DF6; 0x99A95DF3; 0x9D684044; 0x902B669D; 0x94EA7B2A;
  0xE0B41DE7; 0xE4750050; 0xE9362689; 0xEDF73B3E; 0xF3B06B3B; 0xF771768C; 0xFA325055; 0xFEF34DE2;
  0xC6BCF05F; 0xC27DEDE8; 0xCF3ECB31; 0xCBFFD686; 0xD5B88683; 0xD1799B34; 0xDC3ABDED; 0xD8FBA05A;
  0x690CE0EE; 0x6DCDFD59; 0x608EDB80; 0x644FC637; 0x7A089632; 0x7EC98B85; 0x738AAD5C; 0x774BB0EB;
  0x4F040D56; 0x4BC510E1; 0x46863638; 0x42472B8F; 0x5C007B8A; 0x58C1663D; 0x558240E4; 0x51435D53;
  0x251D3B9E; 0x21DC2629; 0x2C9F00F0; 0x285E1D47; 0x36194D42; 0x32D850F5; 0x3F9B762C; 0x3B5A6B9B;
  0x0315D626; 0x07D4CB91; 0x0A97ED48; 0x0E56F0FF; 0x1011A0FA; 0x14D0BD4D; 0x19939B94; 0x1D528623;
  0xF12F560E; 0xF5EE4BB9; 0xF8AD6D60; 0xFC6C70D7; 0xE22B20D2; 0xE6EA3D65; 0xEBA91BBC; 0xEF68060B;
  0xD727BBB6; 0xD3E6A601; 0xDEA580D8; 0xDA649D6F; 0xC423CD6A; 0xC0E2D0DD; 0xCDA1F604; 0xC960EBB3;
  0xBD3E8D7E; 0xB9FF90C9; 0xB4BCB610; 0xB07DABA7; 0xAE3AFBA2; 0xAAFBE615; 0xA7B8C0CC; 0xA379DD7B;
  0x9B3660C6; 0x9FF77D71; 0x92B45BA8; 0x9675461F; 0x8832161A; 0x8CF30BAD; 0x81B02D74; 0x857130C3;
  0x5D8A9099; 0x594B8D2E; 0x5408ABF7; 0x50C9B640; 0x4E8EE645; 0x4A4FFBF2; 0x470CDD2B; 0x43CDC09C;
  0x7B827D21; 0x7F436096; 0x7200464F; 0x76C15BF8; 0x68860BFD; 0x6C47164A; 0x61043093; 0x65C52D24;
  0x119B4BE9; 0x155A565E; 0x18197087; 0x1CD86D30; 0x029F3D35; 0x065E2082; 0x0B1D065B; 0x0FDC1BEC;
  0x3793A651; 0x3352BBE6; 0x3E119D3F; 0x3AD08088; 0x2497D08D; 0x2056CD3A; 0x2D15EBE3; 0x29D4F654;
  0xC5A92679; 0xC1683BCE; 0xCC2B1D17; 0xC8EA00A0; 0xD6AD50A5; 0xD26C4D12; 0xDF2F6BCB; 0xDBEE767C;
  0xE3A1CBC1; 0xE760D676; 0xEA23F0AF; 0xEEE2ED18; 0xF0A5BD1D; 0xF464A0AA; 0xF9278673; 0xFDE69BC4;
  0x89B8FD09; 0x8D79E0BE; 0x803AC667; 0x84FBDBD0; 0x9ABC8BD5; 0x9E7D9662; 0x933EB0BB; 0x97FFAD0C;
  0xAFB010B1; 0xAB710D06; 0xA6322BDF; 0xA2F33668; 0xBCB4666D; 0xB8757BDA; 0xB5365D03; 0xB1F740B4 ].

(** The table [crc32c_table] of crc/crc32c.c. *)
Definition crc32c_table : list Z := [
  0x00000000; 0xF26B8303; 0xE13B70F7; 0x1350F3F4; 0xC79A971F; 0x35F1141C;
  0x26A1E7E8; 0xD4CA64EB; 0x8AD958CF; 0x78B2DBCC; 0x6BE22838; 0x9989AB3B;
  0x4D43CFD0; 0xBF284CD3; 0xAC78BF27; 0x5E133C24; 0x105EC76F; 0xE235446C;
  0xF165B798; 0x030E349B; 0xD7C45070; 0x25AFD373; 0x36FF2087; 0xC494A384;
  0x9A879FA0; 0x68EC1CA3; 0x7BBCEF57; 0x89D76C54; 0x5D1D08BF; 0xAF768BBC;
  0xBC267848; 0x4E4DFB4B; 0x20BD8EDE; 0xD2D60DDD; 0xC186FE29; 0x33ED7D2A;
  0xE72719C1; 0x154C9AC2; 0x061C6936; 0xF477EA35; 0xAA64D611; 0x580F5512;
  0x4B5FA6E6; 0xB93425E5; 0x6DFE410E; 0x9F95C20D; 0x8CC531F9; 0x7EAEB2FA;
  0x30E349B1; 0xC288CAB2; 0xD1D83946; 0x23B3BA45; 0xF779DEAE; 0x05125DAD;
  0x1642AE59; 0xE4292D5A; 0xBA3A117E; 0x4851927D; 0x5B016189; 0xA96AE28A;
  0x7DA08661; 0x8FCB0562; 0x9C9BF696; 0x6EF07595; 0x417B1DBC; 0xB3109EBF;
  0xA0406D4B; 0x522BEE48; 0x86E18AA3; 0x748A09A0; 0x67DAFA54; 0x95B17957;
  0xCBA24573; 0x39C9C670; 0x2A993584; 0xD8F2B687; 0x0C38D26C; 0xFE53516F;
  0xED03A29B; 0x1F682198; 0x5125DAD3; 0xA34E59D0; 0xB01EAA24; 0x42752927;
  0x96BF4DCC; 0x64D4CECF; 0x77843D3B; 0x85EFBE38; 0xDBFC821C; 0x2997011F;
  0x3AC7F2EB; 0xC8AC71E8; 0x1C661503; 0xEE0D9600; 0xFD5D65F4; 0x0F36E6F7;
  0x61C69362; 0x93AD1061; 0x80FDE395; 0x72966096; 0xA65C047D; 0x5437877E;
  0x4767748A; 0xB50CF789; 0xEB1FCBAD; 0x197448AE; 0x0A24BB5A; 0xF84F3859;
  0x2C855CB2; 0xDEEEDFB1; 0xCDBE2C45; 0x3FD5AF46; 0x7198540D; 0x83F3D70E;
  0x90A324FA; 0x62C8A7F9; 0xB602C312; 0x44694011; 0x5739B3E5; 0xA55230E6;
  0xFB410CC2; 0x092A8FC1; 0x1A7A7C35; 0xE811FF36; 0x3CDB9BDD; 0xCEB018DE;
  0xDDE0EB2A; 0x2F8B6829; 0x82F63B78; 0x709DB87B; 0x63CD4B8F; 0x91A6C88C;
  0x456CAC67; 0xB7072F64; 0xA457DC90; 0x563C5F93; 0x082F63B7; 0xFA44E0B4;
  0xE9141340; 0x1B7F9043; 0xCFB5F4A8; 0x3DDE77AB; 0x2E8E845F; 0xDCE5075C;
  0x92A8FC17; 0x60C37F14; 0x73938CE0; 0x81F80FE3; 0x55326B08; 0xA759E80B;
  0xB4091BFF; 0x466298FC; 0x1871A4D8; 0xEA1A27DB; 0xF94AD42F; 0x0B21572C;
  0xDFEB33C7; 0x2D80B0C4; 0x3ED04330; 0xCCBBC033; 0xA24BB5A6; 0x502036A5;
  0x4370C551; 0xB11B4652; 0x65D122B9; 0x97BAA1BA; 0x84EA524E; 0x7681D14D;
  0x2892ED69; 0xDAF96E6A; 0xC9A99D9E; 0x3BC21E9D; 0xEF087A76; 0x1D63F975;
  0x0E330A81; 0xFC588982; 0xB21572C9; 0x407EF1CA; 0x532E023E; 0xA145813D;
  0x758FE5D6; 0x87E466D5; 0x94B49521; 0x66DF1622; 0x38CC2A06; 0xCAA7A905;
  0xD9F75AF1; 0x2B9CD9F2; 0xFF56BD19; 0x0D3D3E1A; 0x1E6DCDEE; 0xEC064EED;
  0xC38D26C4; 0x31E6A5C7; 0x22B65633; 0xD0DDD530; 0x0417B1DB; 0xF67C32D8;
  0xE52CC12C; 0x1747422F; 0x49547E0B; 0xBB3FFD08; 0xA86F0EFC; 0x5A048DFF;
  0x8ECEE914; 0x7CA56A17; 0x6FF599E3; 0x9D9E1AE0; 0xD3D3E1AB; 0x21B862A8;
  0x32E8915C; 0xC083125F; 0x144976B4; 0xE622F5B7; 0xF5720643; 0x07198540;
  0x590AB964; 0xAB613A67; 0xB831C993; 0x4A5A4A90; 0x9E902E7B; 0x6CFBAD78;
  0x7FAB5E8C; 0x8DC0DD8F; 0xE330A81A; 0x115B2B19; 0x020BD8ED; 0xF0605BEE;
  0x24AA3F05; 0xD6C1BC06; 0xC5914FF2; 0x37FACCF1; 0x69E9F0D5; 0x9B8273D6;
  0x88D28022; 0x7AB90321; 0xAE7367CA; 0x5C18E4C9; 0x4F48173D; 0xBD23943E;
  0xF36E6F75; 0x0105EC76; 0x12551F82; 0xE03E9C81; 0x34F4F86A; 0xC69F7B69;
  0xD5CF889D; 0x27A40B9E; 0x79B737BA; 0x8BDCB4B9; 0x988C474D; 0x6AE7C44E;
  0xBE2DA0A5; 0x4C4623A6; 0x5F16D052; 0xAD7D5351 ].

(** The table [crctab64] of crc/crc64.c. *)
Definition crctab64 : list Z := [
  0x0000000000000000; 0x7ad870c830358979; 0xf5b0e190606b12f2;
  0x8f689158505e9b8b; 0xc038e5739841b68f; 0xbae095bba8743ff6;
  0x358804e3f82aa47d; 0x4f50742bc81f2d04; 0xab28ecb46814fe75;
  0xd1f09c7c5821770c; 0x5e980d24087fec87; 0x24407dec384a65fe;
  0x6b1009c7f05548fa; 0x11c8790fc060c183; 0x9ea0e857903e5a08;
  0xe478989fa00bd371; 0x7d08ff3b88be6f81; 0x07d08ff3b88be6f8;
  0x88b81eabe8d57d73; 0xf2606e63d8e0f40a; 0xbd301a4810ffd90e;
  0xc7e86a8020ca5077; 0x4880fbd87094cbfc; 0x32588b1040a14285;
  0xd620138fe0aa91f4; 0xacf86347d09f188d; 0x2390f21f80c18306;
  0x594882d7b0f40a7f; 0x1618f6fc78eb277b; 0x6cc0863448deae02;
  0xe3a8176c18803589; 0x997067a428b5bcf0; 0xfa11fe77117cdf02;
  0x80c98ebf2149567b; 0x0fa11fe77117cdf0; 0x75796f2f41224489;
  0x3a291b04893d698d; 0x40f16bccb908e0f4; 0xcf99fa94e9567b7f;
  0xb5418a5cd963f206; 0x513912c379682177; 0x2be1620b495da80e;
  0xa489f35319033385; 0xde51839b2936bafc; 0x9101f7b0e12997f8;
  0xebd98778d11c1e81; 0x64b116208142850a; 0x1e6966e8b1770c73;
  0x8719014c99c2b083; 0xfdc17184a9f739fa; 0x72a9e0dcf9a9a271;
  0x08719014c99c2b08; 0x4721e43f0183060c; 0x3df994f731b68f75;
  0xb29105af61e814fe; 0xc849756751dd9d87; 0x2c31edf8f1d64ef6;
  0x56e99d30c1e3c78f; 0xd9810c6891bd5c04; 0xa3597ca0a188d57d;
  0xec09088b6997f879; 0x96d1784359a27100; 0x19b9e91b09fcea8b;
  0x636199d339c963f2; 0xdf7adabd7a6e2d6f; 0xa5a2aa754a5ba416;
  0x2aca3b2d1a053f9d; 0x50124be52a30b6e4; 0x1f423fcee22f9be0;
  0x659a4f06d21a1299; 0xeaf2de5e82448912; 0x902aae96b271006b;
  0x74523609127ad31a; 0x0e8a46c1224f5a63; 0x81e2d7997211c1e8;
  0xfb3aa75142244891; 0xb46ad37a8a3b6595; 0xceb2a3b2ba0eecec;
  0x41da32eaea507767; 0x3b024222da65fe1e; 0xa2722586f2d042ee;
  0xd8aa554ec2e5cb97; 0x57c2c41692bb501c; 0x2d1ab4dea28ed965;
  0x624ac0f56a91f461; 0x1892b03d5aa47d18; 0x97fa21650afae693;
  0xed2251ad3acf6fea; 0x095ac9329ac4bc9b; 0x7382b9faaaf135e2;
  0xfcea28a2faafae69; 0x8632586aca9a2710; 0xc9622c4102850a14;
  0xb3ba5c8932b0836d; 0x3cd2cdd162ee18e6; 0x460abd1952db919f;
  0x256b24ca6b12f26d; 0x5fb354025b277b14; 0xd0dbc55a0b79e09f;
  0xaa03b5923b4c69e6; 0xe553c1b9f35344e2; 0x9f8bb171c366cd9b;
  0x10e3202993385610; 0x6a3b50e1a30ddf69; 0x8e43c87e03060c18;
  0xf49bb8b633338561; 0x7bf329ee636d1eea; 0x012b592653589793;
  0x4e7b2d0d9b47ba97; 0x34a35dc5ab7233ee; 0xbbcbcc9dfb2ca865;
  0xc113bc55cb19211c; 0x5863dbf1e3ac9dec; 0x22bbab39d3991495;
  0xadd33a6183c78f1e; 0xd70b4aa9b3f20667; 0x985b3e827bed2b63;
  0xe2834e4a4bd8a21a; 0x6debdf121b863991; 0x1733afda2bb3b0e8;
  0xf34b37458bb86399; 0x8993478dbb8deae0; 0x06fbd6d5ebd3716b;
  0x7c23a61ddbe6f812; 0x3373d23613f9d516; 0x49aba2fe23cc5c6f;
  0xc6c333a67392c7e4; 0xbc1b436e43a74e9d; 0x95ac9329ac4bc9b5;
  0xef74e3e19c7e40cc; 0x601c72b9cc20db47; 0x1ac40271fc15523e;
  0x5594765a340a7f3a; 0x2f4c0692043ff643; 0xa02497ca54616dc8;
  0xdafce7026454e4b1; 0x3e847f9dc45f37c0; 0x445c0f55f46abeb9;
  0xcb349e0da4342532; 0xb1eceec59401ac4b; 0xfebc9aee5c1e814f;
  0x8464ea266c2b0836; 0x0b0c7b7e3c7593bd; 0x71d40bb60c401ac4;
  0xe8a46c1224f5a634; 0x927c1cda14c02f4d; 0x1d148d82449eb4c6;
  0x67ccfd4a74ab3dbf; 0x289c8961bcb410bb; 0x5244f9a98c8199c2;
  0xdd2c68f1dcdf0249; 0xa7f41839ecea8b30; 0x438c80a64ce15841;
  0x3954f06e7cd4d138; 0xb63c61362c8a4ab3; 0xcce411fe1cbfc3ca;
  0x83b465d5d4a0eece; 0xf96c151de49567b7; 0x76048445b4cbfc3c;
  0x0cdcf48d84fe7545; 0x6fbd6d5ebd3716b7; 0x15651d968d029fce;
  0x9a0d8ccedd5c0445; 0xe0d5fc06ed698d3c; 0xaf85882d2576a038;
  0xd55df8e515432941; 0x5a3569bd451db2ca; 0x20ed197575283bb3;
  0xc49581ead523e8c2; 0xbe4df122e51661bb; 0x3125607ab548fa30;
  0x4bfd10b2857d7349; 0x04ad64994d625e4d; 0x7e7514517d57d734;
  0xf11d85092d094cbf; 0x8bc5f5c11d3cc5c6; 0x12b5926535897936;
  0x686de2ad05bcf04f; 0xe70573f555e26bc4; 0x9ddd033d65d7e2bd;
  0xd28d7716adc8cfb9; 0xa85507de9dfd46c0; 0x273d9686cda3dd4b;
  0x5de5e64efd965432; 0xb99d7ed15d9d8743; 0xc3450e196da80e3a;
  0x4c2d9f413df695b1; 0x36f5ef890dc31cc8; 0x79a59ba2c5dc31cc;
  0x037deb6af5e9b8b5; 0x8c157a32a5b7233e; 0xf6cd0afa9582aa47;
  0x4ad64994d625e4da; 0x300e395ce6106da3; 0xbf66a804b64ef628;
  0xc5bed8cc867b7f51; 0x8aeeace74e645255; 0xf036dc2f7e51db2c;
  0x7f5e4d772e0f40a7; 0x05863dbf1e3ac9de; 0xe1fea520be311aaf;
  0x9b26d5e88e0493d6; 0x144e44b0de5a085d; 0x6e963478ee6f8124;
  0x21c640532670ac20; 0x5b1e309b16452559; 0xd476a1c3461bbed2;
  0xaeaed10b762e37ab; 0x37deb6af5e9b8b5b; 0x4d06c6676eae0222;
  0xc26e573f3ef099a9; 0xb8b627f70ec510d0; 0xf7e653dcc6da3dd4;
  0x8d3e2314f6efb4ad; 0x0256b24ca6b12f26; 0x788ec2849684a65f;
  0x9cf65a1b368f752e; 0xe62e2ad306bafc57; 0x6946bb8b56e467dc;
  0x139ecb4366d1eea5; 0x5ccebf68aecec3a1; 0x2616cfa09efb4ad8;
  0xa97e5ef8cea5d153; 0xd3a62e30fe90582a; 0xb0c7b7e3c7593bd8;
  0xca1fc72bf76cb2a1; 0x45775673a732292a; 0x3faf26bb9707a053;
  0x70ff52905f188d57; 0x0a2722586f2d042e; 0x854fb3003f739fa5;
  0xff97c3c80f4616dc; 0x1bef5b57af4dc5ad; 0x61372b9f9f784cd4;
  0xee5fbac7cf26d75f; 0x9487ca0fff135e26; 0xdbd7be24370c7322;
  0xa10fceec0739fa5b; 0x2e675fb4576761d0; 0x54bf2f7c6752e8a9;
  0xcdcf48d84fe75459; 0xb71738107fd2dd20; 0x387fa9482f8c46ab;
  0x42a7d9801fb9cfd2; 0x0df7adabd7a6e2d6; 0x772fdd63e7936baf;
  0xf8474c3bb7cdf024; 0x829f3cf387f8795d; 0x66e7a46c27f3aa2c;
  0x1c3fd4a417c62355; 0x935745fc4798b8de; 0xe98f353477ad31a7;
  0xa6df411fbfb21ca3; 0xdc0731d78f8795da; 0x536fa08fdfd90e51;
  0x29b7d047efec8728 ].

(** The table [crc64nvmetable] of crc/crc64table.h. *)
Definition crc64nvmetable : list Z := [
  0x0000000000000000; 0x7f6ef0c830358979; 0xfedde190606b12f2;
  0x81b31158505e9b8b; 0xc962e5739841b68f; 0xb60c15bba8743ff6;
  0x37bf04e3f82aa47d; 0x48d1f42bc81f2d04; 0xa61cecb46814fe75;
  0xd9721c7c5821770c; 0x58c10d24087fec87; 0x27affdec384a65fe;
  0x6f7e09c7f05548fa; 0x1010f90fc060c183; 0x91a3e857903e5a08;
  0xeecd189fa00bd371; 0x78e0ff3b88be6f81; 0x078e0ff3b88be6f8;
  0x863d1eabe8d57d73; 0xf953ee63d8e0f40a; 0xb1821a4810ffd90e;
  0xceecea8020ca5077; 0x4f5ffbd87094cbfc; 0x30310b1040a14285;
  0xdefc138fe0aa91f4; 0xa192e347d09f188d; 0x2021f21f80c18306;
  0x5f4f02d7b0f40a7f; 0x179ef6fc78eb277b; 0x68f0063448deae02;
  0xe943176c18803589; 0x962de7a428b5bcf0; 0xf1c1fe77117cdf02;
  0x8eaf0ebf2149567b; 0x0f1c1fe77117cdf0; 0x7072ef2f41224489;
  0x38a31b04893d698d; 0x47cdebccb908e0f4; 0xc67efa94e9567b7f;
  0xb9100a5cd963f206; 0x57dd12c379682177; 0x28b3e20b495da80e;
  0xa900f35319033385; 0xd66e039b2936bafc; 0x9ebff7b0e12997f8;
  0xe1d10778d11c1e81; 0x606216208142850a; 0x1f0ce6e8b1770c73;
  0x8921014c99c2b083; 0xf64ff184a9f739fa; 0x77fce0dcf9a9a271;
  0x08921014c99c2b08; 0x4043e43f0183060c; 0x3f2d14f731b68f75;
  0xbe9e05af61e814fe; 0xc1f0f56751dd9d87; 0x2f3dedf8f1d64ef6;
  0x50531d30c1e3c78f; 0xd1e00c6891bd5c04; 0xae8efca0a188d57d;
  0xe65f088b6997f879; 0x9931f84359a27100; 0x1882e91b09fcea8b;
  0x67ec19d339c963f2; 0xd75adabd7a6e2d6f; 0xa8342a754a5ba416;
  0x29873b2d1a053f9d; 0x56e9cbe52a30b6e4; 0x1e383fcee22f9be0;
  0x6156cf06d21a1299; 0xe0e5de5e82448912; 0x9f8b2e96b271006b;
  0x71463609127ad31a; 0x0e28c6c1224f5a63; 0x8f9bd7997211c1e8;
  0xf0f5275142244891; 0xb824d37a8a3b6595; 0xc74a23b2ba0eecec;
  0x46f932eaea507767; 0x3997c222da65fe1e; 0xafba2586f2d042ee;
  0xd0d4d54ec2e5cb97; 0x5167c41692bb501c; 0x2e0934dea28ed965;
  0x66d8c0f56a91f461; 0x19b6303d5aa47d18; 0x980521650afae693;
  0xe76bd1ad3acf6fea; 0x09a6c9329ac4bc9b; 0x76c839faaaf135e2;
  0xf77b28a2faafae69; 0x8815d86aca9a2710; 0xc0c42c4102850a14;
  0xbfaadc8932b0836d; 0x3e19cdd162ee18e6; 0x41773d1952db919f;
  0x269b24ca6b12f26d; 0x59f5d4025b277b14; 0xd846c55a0b79e09f;
  0xa72835923b4c69e6; 0xeff9c1b9f35344e2; 0x90973171c366cd9b;
  0x1124202993385610; 0x6e4ad0e1a30ddf69; 0x8087c87e03060c18;
  0xffe938b633338561; 0x7e5a29ee636d1eea; 0x0134d92653589793;
  0x49e52d0d9b47ba97; 0x368bddc5ab7233ee; 0xb738cc9dfb2ca865;
  0xc8563c55cb19211c; 0x5e7bdbf1e3ac9dec; 0x21152b39d3991495;
  0xa0a63a6183c78f1e; 0xdfc8caa9b3f20667; 0x97193e827bed2b63;
  0xe877ce4a4bd8a21a; 0x69c4df121b863991; 0x16aa2fda2bb3b0e8;
  0xf86737458bb86399; 0x8709c78dbb8deae0; 0x06bad6d5ebd3716b;
  0x79d4261ddbe6f812; 0x3105d23613f9d516; 0x4e6b22fe23cc5c6f;
  0xcfd833a67392c7e4; 0xb0b6c36e43a74e9d; 0x9a6c9329ac4bc9b5;
  0xe50263e19c7e40cc; 0x64b172b9cc20db47; 0x1bdf8271fc15523e;
  0x530e765a340a7f3a; 0x2c608692043ff643; 0xadd397ca54616dc8;
  0xd2bd67026454e4b1; 0x3c707f9dc45f37c0; 0x431e8f55f46abeb9;
  0xc2ad9e0da4342532; 0xbdc36ec59401ac4b; 0xf5129aee5c1e814f;
  0x8a7c6a266c2b0836; 0x0bcf7b7e3c7593bd; 0x74a18bb60c401ac4;
  0xe28c6c1224f5a634; 0x9de29cda14c02f4d; 0x1c518d82449eb4c6;
  0x633f7d4a74ab3dbf; 0x2bee8961bcb410bb; 0x548079a98c8199c2;
  0xd53368f1dcdf0249; 0xaa5d9839ecea8b30; 0x449080a64ce15841;
  0x3bfe706e7cd4d138; 0xba4d61362c8a4ab3; 0xc52391fe1cbfc3ca;
  0x8df265d5d4a0eece; 0xf29c951de49567b7; 0x732f8445b4cbfc3c;
  0x0c41748d84fe7545; 0x6bad6d5ebd3716b7; 0x14c39d968d029fce;
  0x95708ccedd5c0445; 0xea1e7c06ed698d3c; 0xa2cf882d2576a038;
  0xdda178e515432941; 0x5c1269bd451db2ca; 0x237c997575283bb3;
  0xcdb181ead523e8c2; 0xb2df7122e51661bb; 0x336c607ab548fa30;
  0x4c0290b2857d7349; 0x04d364994d625e4d; 0x7bbd94517d57d734;
  0xfa0e85092d094cbf; 0x856075c11d3cc5c6; 0x134d926535897936;
  0x6c2362ad05bcf04f; 0xed9073f555e26bc4; 0x92fe833d65d7e2bd;
  0xda2f7716adc8cfb9; 0xa54187de9dfd46c0; 0x24f29686cda3dd4b;
  0x5b9c664efd965432; 0xb5517ed15d9d8743; 0xca3f8e196da80e3a;
  0x4b8c9f413df695b1; 0x34e26f890dc31cc8; 0x7c339ba2c5dc31cc;
  0x035d6b6af5e9b8b5; 0x82ee7a32a5b7233e; 0xfd808afa9582aa47;
  0x4d364994d625e4da; 0x3258b95ce6106da3; 0xb3eba804b64ef628;
  0xcc8558cc867b7f51; 0x8454ace74e645255; 0xfb3a5c2f7e51db2c;
  0x7a894d772e0f40a7; 0x05e7bdbf1e3ac9de; 0xeb2aa520be311aaf;
  0x944455e88e0493d6; 0x15f744b0de5a085d; 0x6a99b478ee6f8124;
  0x224840532670ac20; 0x5d26b09b16452559; 0xdc95a1c3461bbed2;
  0xa3fb510b762e37ab; 0x35d6b6af5e9b8b5b; 0x4ab846676eae0222;
  0xcb0b573f3ef099a9; 0xb465a7f70ec510d0; 0xfcb453dcc6da3dd4;
  0x83daa314f6efb4ad; 0x0269b24ca6b12f26; 0x7d0742849684a65f;
  0x93ca5a1b368f752e; 0xeca4aad306bafc57; 0x6d17bb8b56e467dc;
  0x12794b4366d1eea5; 0x5aa8bf68aecec3a1; 0x25c64fa09efb4ad8;
  0xa4755ef8cea5d153; 0xdb1bae30fe90582a; 0xbcf7b7e3c7593bd8;
  0xc399472bf76cb2a1; 0x422a5673a732292a; 0x3d44a6bb9707a053;
  0x759552905f188d57; 0x0afba2586f2d042e; 0x8b48b3003f739fa5;
  0xf42643c80f4616dc; 0x1aeb5b57af4dc5ad; 0x6585ab9f9f784cd4;
  0xe436bac7cf26d75f; 0x9b584a0fff135e26; 0xd389be24370c7322;
  0xace74eec0739fa5b; 0x2d545fb4576761d0; 0x523aaf7c6752e8a9;
  0xc41748d84fe75459; 0xbb79b8107fd2dd20; 0x3acaa9482f8c46ab;
  0x45a459801fb9cfd2; 0x0d75adabd7a6e2d6; 0x721b5d63e7936baf;
  0xf3a84c3bb7cdf024; 0x8cc6bcf387f8795d; 0x620ba46c27f3aa2c;
  0x1d6554a417c62355; 0x9cd645fc4798b8de; 0xe3b8b53477ad31a7;
  0xab69411fbfb21ca3; 0xd407b1d78f8795da; 0x55b4a08fdfd90e51;
  0x2ada5047efec8728 ].

(** The table [t10_dif_crc_table] of crc/crct10dif_common.c. *)
Definition t10_dif_crc_table : list Z := [
  0x0000; 0x8BB7; 0x9CD9; 0x176E; 0xB205; 0x39B2; 0x2EDC; 0xA56B;
  0xEFBD; 0x640A; 0x7364; 0xF8D3; 0x5DB8; 0xD60F; 0xC161; 0x4AD6;
  0x54CD; 0xDF7A; 0xC814; 0x43A3; 0xE6C8; 0x6D7F; 0x7A11; 0xF1A6;
  0xBB70; 0x30C7; 0x27A9; 0xAC1E; 0x0975; 0x82C2; 0x95AC; 0x1E1B;
  0xA99A; 0x222D; 0x3543; 0xBEF4; 0x1B9F; 0x9028; 0x8746; 0x0CF1;
  0x4627; 0xCD90; 0xDAFE; 0x5149; 0xF422; 0x7F95; 0x68FB; 0xE34C;
  0xFD57; 0x76E0; 0x618E; 0xEA39; 0x4F52; 0xC4E5; 0xD38B; 0x583C;
  0x12EA; 0x995D; 0x8E33; 0x0584; 0xA0EF; 0x2B58; 0x3C36; 0xB781;
  0xD883; 0x5334; 0x445A; 0xCFED; 0x6A86; 0xE131; 0xF65F; 0x7DE8;
  0x373E; 0xBC89; 0xABE7; 0x2050; 0x853B; 0x0E8C; 0x19E2; 0x9255;
  0x8C4E; 0x07F9; 0x1097; 0x9B20; 0x3E4B; 0xB5FC; 0xA292; 0x2925;
  0x63F3; 0xE844; 0xFF2A; 0x749D; 0xD1F6; 0x5A41; 0x4D2F; 0xC698;
  0x7119; 0xFAAE; 0xEDC0; 0x6677; 0xC31C; 0x48AB; 0x5FC5; 0xD472;
  0x9EA4; 0x1513; 0x027D; 0x89CA; 0x2CA1; 0xA716; 0xB078; 0x3BCF;
  0x25D4; 0xAE63; 0xB90D; 0x32BA; 0x97D1; 0x1C66; 0x0B08; 0x80BF;
  0xCA69; 0x41DE; 0x56B0; 0xDD07; 0x786C; 0xF3DB; 0xE4B5; 0x6F02;
  0x3AB1; 0xB106; 0xA668; 0x2DDF; 0x88B4; 0x0303; 0x146D; 0x9FDA;
  0xD50C; 0x5EBB; 0x49D5; 0xC262; 0x6709; 0xECBE; 0xFBD0; 0x7067;
  0x6E7C; 0xE5CB; 0xF2A5; 0x7912; 0xDC79; 0x57CE; 0x40A0; 0xCB17;
  0x81C1; 0x0A76; 0x1D18; 0x96AF; 0x33C4; 0xB873; 0xAF1D; 0x24AA;
  0x932B; 0x189C; 0x0FF2; 0x8445; 0x212E; 0xAA99; 0xBDF7; 0x3640;
  0x7C96; 0xF721; 0xE04F; 0x6BF8; 0xCE93; 0x4524; 0x524A; 0xD9FD;
  0xC7E6; 0x4C51; 0x5B3F; 0xD088; 0x75E3; 0xFE54; 0xE93A; 0x628D;
  0x285B; 0xA3EC; 0xB482; 0x3F35; 0x9A5E; 0x11E9; 0x0687; 0x8D30;
  0xE232; 0x6985; 0x7EEB; 0xF55C; 0x5037; 0xDB80; 0xCCEE; 0x4759;
  0x0D8F; 0x8638; 0x9156; 0x1AE1; 0xBF8A; 0x343D; 0x2353; 0xA8E4;
  0xB6FF; 0x3D48; 0x2A26; 0xA191; 0x04FA; 0x8F4D; 0x9823; 0x1394;
  0x5942; 0xD2F5; 0xC59B; 0x4E2C; 0xEB47; 0x60F0; 0x779E; 0xFC29;
  0x4BA8; 0xC01F; 0xD771; 0x5CC6; 0xF9AD; 0x721A; 0x6574; 0xEEC3;
  0xA415; 0x2FA2; 0x38CC; 0xB37B; 0x1610; 0x9DA7; 0x8AC9; 0x017E;
  0x1F65; 0x94D2; 0x83BC; 0x080B; 0xAD60; 0x26D7; 0x31B9; 0xBA0E;
  0xF0D8; 0x7B6F; 0x6C01; 0xE7B6; 0x42DD; 0xC96A; 0xDE04; 0x55B3 ].

(** * The checksum loops

    [while (len--)] walks the buffer byte by byte: a fold over the list. *)

Definition crc7_byte (crc data : Z) : Z :=
  tbl crc7_syndrome_table (Z.lxor (Z.shiftl crc 1) data).

Definition fio_crc7 (buffer : list Z) : Z := fold_left crc7_byte buffer 0.

Definition crc16_byte (crc data : Z) : Z :=
  Z.lxor (Z.shiftr crc 8) (tbl crc16_table (Z.land (Z.lxor crc data) 0xff)).

Definition fio_crc16 (buffer : list Z) : Z := fold_left crc16_byte buffer 0.

Definition crc32_byte (crc data : Z) : Z :=
  Z.lxor (shlw 32 crc 8) (tbl crctab (Z.land (Z.lxor (Z.shiftr crc 24) data) 0xFF)).

Definition fio_crc32 (buffer : list Z) : Z := fold_left crc32_byte buffer 0.

Definition crc32c_byte (crc data : Z) : Z :=
  Z.lxor (tbl crc32c_table (Z.land (Z.lxor crc data) 0xFF)) (Z.shiftr crc 8).

Definition crc32c_sw (data : list Z) : Z := fold_left crc32c_byte data (notw 32 0).

Definition crc64_byte (crc data : Z) : Z :=
  Z.lxor (tbl crctab64 (Z.land (Z.lxor crc data) 0xff)) (Z.shiftr crc 8).

Definition fio_crc64 (buffer : list Z) : Z := fold_left crc64_byte buffer 0.

Definition crc64_nvme_byte (crc data : Z) : Z :=
  Z.lxor (Z.shiftr crc 8) (tbl crc64nvmetable (Z.lxor (Z.land crc 0xff) data)).

Definition fio_crc64_nvme (crc : Z) (p : list Z) : Z :=
  notw 64 (fold_left crc64_nvme_byte p (notw 64 crc)).

(** The index and the sum are [int]; the assignment truncates to [unsigned short]. *)
Definition t10dif_byte (crc data : Z) : Z :=
  wrap 16 (Z.lxor (Z.shiftl crc 8)
    (tbl t10_dif_crc_table (Z.land (Z.lxor (Z.shiftr crc 8) data) 0xff))).

Definition fio_crc_t10dif (crc : Z) (buffer : list Z) : Z := fold_left t10dif_byte buffer crc.

(** ** Check values: the checksum of the nine characters "123456789" *)

Definition digits : list Z := [0x31; 0x32; 0x33; 0x34; 0x35; 0x36; 0x37; 0x38; 0x39].

Example crc7_digits : fio_crc7 digits = 0x75.
Proof. vm_compute. reflexivity. Qed.
Example crc16_digits : fio_crc16 digits = 0xbb3d.
Proof. vm_compute. reflexivity. Qed.
Example crc32c_digits : notw 32 (crc32c_sw digits) = 0xe3069283.
Proof. vm_compute. reflexivity. Qed.
Example crc64_nvme_digits : fio_crc64_nvme 0 digits = 0xae8b14860a799888.
Proof. vm_compute. reflexivity. Qed.
Example t10dif_digits : fio_crc_t10dif 0 digits = 0xd0db.
Proof. vm_compute. reflexivity. Qed.

(** * Polynomials over GF(2)

    Bit [i] of an integer is the coefficient of [x^i]; addition is [Z.lxor] and
    multiplication by [x^k] is [Z.shiftl _ k]. *)

(** [cong P a b]: [a] and [b] differ by a multiple of [P], a sum of [x^k * P]. *)
Inductive cong (P : Z) : Z -> Z -> Prop :=
  | cong_refl a : cong P a a
  | cong_step a b k : 0 <= k -> cong P a b -> cong P a (Z.lxor b (Z.shiftl P k)).

Lemma lxor_cancel a b : Z.lxor (Z.lxor a b) b = a.
Proof. by rewrite Z.lxor_assoc, Z.lxor_nilpotent, Z.lxor_0_r. Qed.

Lemma lxor_swap a b c : Z.lxor (Z.lxor a b) c = Z.lxor (Z.lxor a c) b.
Proof. by rewrite !Z.lxor_assoc, (Z.lxor_comm b c). Qed.

Lemma cong_trans P a b c : cong P a b -> cong P b c -> cong P a c.
Proof. intros Hab Hbc. induction Hbc; [done|]. constructor; auto. Qed.

Lemma cong_sym P a b : cong P a b -> cong P b a.
Proof.
  induction 1 as [|a b k Hk _ IH]; [constructor|]. apply (cong_trans _ _ b); [|done].
  rewrite <- (lxor_cancel b (Z.shiftl P k)) at 2. apply cong_step; [done|constructor].
Qed.

Lemma cong_lxor_r P a b c : cong P a b -> cong P (Z.lxor a c) (Z.lxor b c).
Proof.
  induction 1 as [|a b k Hk _ IH]; [constructor|]. rewrite lxor_swap. by constructor.
Qed.

Lemma cong_shiftl P a b n : 0 <= n -> cong P a b -> cong P (Z.shiftl a n) (Z.shiftl b n).
Proof.
  intros Hn. induction 1 as [|a b k Hk _ IH]; [constructor|].
  rewrite Z.shiftl_lxor, Z.shiftl_shiftl by done. constructor; [lia|done].
Qed.

#[global] Instance cong_equivalence P : Equivalence (cong P).
Proof.
  split; [intros a; constructor|intros a b; apply cong_sym|intros a b c; apply cong_trans].
Qed.

(** * Bit-serial division

    One bit of the shift register that divides by [x^w + poly], most significant
    coefficient first. *)
Definition msb_bit (w poly c : Z) : Z :=
  Z.lxor (shlw w c 1) (if Z.testbit c (w - 1) then poly else 0).

(** The same register with the bits in reverse order. *)
Definition lsb_bit (poly c : Z) : Z :=
  Z.lxor (Z.shiftr c 1) (if Z.testbit c 0 then poly else 0).

Definition msb_byte (w poly c b : Z) : Z :=
  Nat.iter 8 (msb_bit w poly) (Z.lxor c (Z.shiftl b (w - 8))).

Definition lsb_byte (poly c b : Z) : Z := Nat.iter 8 (lsb_bit poly) (Z.lxor c b).

(** A message as a polynomial, first byte and most significant bit first. *)
Definition message (l : list Z) : Z := fold_left (fun m b => Z.lxor (Z.shiftl m 8) b) l 0.

(** The [n] low bits of [c] in reverse order. *)
Fixpoint reflect (n : nat) (c : Z) : Z :=
  match n with
  | O => 0
  | S n => Z.lxor (if Z.testbit c 0 then 2 ^ Z.of_nat n else 0) (reflect n (Z.shiftr c 1))
  end.

(** [r] is the remainder of [init * x^(8n) + message * x^w] by [x^w + poly], where
    [n] is the number of bytes: what a CRC with initial value [init] must return. *)
Definition is_crc (w poly init : Z) (l : list Z) (r : Z) : Prop :=
  is_word w r /\
  cong (2 ^ w + poly)
    (Z.lxor (Z.shiftl init (8 * zlength l)) (Z.shiftl (message l) w)) r.

(** ** Remainders are unique *)

(** The product of the polynomials [q] (of degree below [n]) and [P]. *)
Fixpoint clmul (n : nat) (q P : Z) : Z :=
  match n with
  | O => 0
  | S n => Z.lxor (clmul n q P) (if Z.testbit q (Z.of_nat n) then Z.shiftl P (Z.of_nat n) else 0)
  end.

Lemma clmul_lxor_pow n q P k : 0 <= k ->
  clmul n (Z.lxor q (2 ^ k)) P = Z.lxor (clmul n q P) (if k <? Z.of_nat n then Z.shiftl P k else 0).
Proof.
  intros Hk. induction n as [|n IH]; cbn [clmul].
  { destruct (Z.ltb_spec k (Z.of_nat 0)); [lia|done]. }
  rewrite IH, Z.lxor_spec. destruct (Z.eq_dec k (Z.of_nat n)) as [->|Hne].
  - rewrite Z.pow2_bits_true, xorb_true_r by lia.
    destruct (Z.ltb_spec (Z.of_nat n) (Z.of_nat n)), (Z.ltb_spec (Z.of_nat n) (Z.of_nat (S n))); try lia.
    rewrite Z.lxor_0_r. destruct (Z.testbit q (Z.of_nat n)); cbn [negb];
      rewrite ?Z.lxor_0_r, ?lxor_cancel; done.
  - rewrite Z.pow2_bits_false, xorb_false_r by lia. rewrite lxor_swap. f_equal.
    destruct (Z.ltb_spec k (Z.of_nat n)), (Z.ltb_spec k (Z.of_nat (S n))); lia || done.
Qed.

Lemma clmul_more n m q P : 0 <= q < 2 ^ Z.of_nat n -> clmul (m + n) q P = clmul n q P.
Proof.
  intros Hq. induction m as [|m IH]; [done|]. cbn [clmul Nat.add].
  rewrite IH, (is_word_bits (Z.of_nat n) q) by (done || lia). apply Z.lxor_0_r.
Qed.

Lemma cong_clmul P a b : cong P a b ->
  exists n q, 0 <= q < 2 ^ Z.of_nat n /\ Z.lxor a b = clmul n q P.
Proof.
  induction 1 as [a|a b k Hk _ (n & q & Hq & E)].
  { exists 0%nat, 0. split; [done|]. apply Z.lxor_nilpotent. }
  set (m := S (Z.to_nat k)). exists (m + n)%nat, (Z.lxor q (2 ^ k)). split.
  - apply (is_word_lxor (Z.of_nat (m + n))); [lia|apply (is_word_weaken (Z.of_nat n)); [lia|done]|].
    split; [lia|]. apply Z.pow_lt_mono_r; lia.
  - rewrite clmul_lxor_pow, clmul_more, <- E by done.
    destruct (Z.ltb_spec k (Z.of_nat (m + n))); [|lia]. by rewrite Z.lxor_assoc.
Qed.

(** The product has the leading term of its factors. *)
Lemma clmul_top w poly n q m : 0 <= w -> is_word w poly -> 0 <= m ->
  Z.testbit q m = true -> (forall i, m < i -> Z.testbit q i = false) ->
  Z.testbit (clmul n q (2 ^ w + poly)) (m + w) = (m <? Z.of_nat n).
Proof.
  intros Hw Hp Hm Hq Hhi. set (P := 2 ^ w + poly).
  assert (HP : Z.testbit P w = true /\ forall i, w < i -> Z.testbit P i = false).
  { split.
    - unfold P. apply Z.testbit_true; [lia|]. rewrite <- Z.mul_1_l with (n := 2 ^ w) at 1.
      rewrite Z.div_add_l by lia. rewrite Z.div_small by done. done.
    - intros i Hi. apply (is_word_bits (w + 1)); [|lia]. unfold is_word, P in *.
      rewrite Z.pow_add_r by lia. lia. }
  destruct HP as [HP1 HP2]. induction n as [|n IH]; cbn [clmul].
  { rewrite Z.bits_0. by destruct (Z.ltb_spec m (Z.of_nat 0)); [lia|]. }
  rewrite Z.lxor_spec, IH. destruct (Z.lt_trichotomy m (Z.of_nat n)) as [Hlt|[->|Hgt]].
  - rewrite Hhi by lia. rewrite Z.bits_0. zcases; lia || done.
  - rewrite Hq, Z.shiftl_spec by lia. replace (Z.of_nat n + w - Z.of_nat n) with w by lia.
    rewrite HP1. zcases; lia || done.
  - assert (Z.testbit (if Z.testbit q (Z.of_nat n) then Z.shiftl P (Z.of_nat n) else 0) (m + w) = false) as ->.
    { destruct (Z.testbit q (Z.of_nat n)); [|apply Z.bits_0]. rewrite Z.shiftl_spec by lia. apply HP2. lia. }
    zcases; lia || done.
Qed.

(** Two congruent polynomials of degree below [w] are equal. *)
Lemma cong_small w poly a b : 0 <= w -> is_word w poly -> is_word w a -> is_word w b ->
  cong (2 ^ w + poly) a b -> a = b.
Proof.
  intros Hw Hp Ha Hb (n & q & Hq & E)%cong_clmul.
  destruct (Z.eq_dec q 0) as [->|Hnz].
  - apply Z.lxor_eq. rewrite E. clear. induction n as [|n IH]; [done|]. cbn [clmul].
    by rewrite IH, Z.bits_0.
  - pose proof (clmul_top w poly n q (Z.log2 q) Hw Hp (Z.log2_nonneg q)) as Ht.
    assert (is_word w (Z.lxor a b)) as Hab by (apply is_word_lxor; done).
    pose proof (Z.log2_nonneg q). rewrite <- E, (is_word_bits w _ _ Hab) in Ht by lia.
    assert (Z.log2 q < Z.of_nat n) by (apply Z.log2_lt_pow2; lia).
    destruct (Z.ltb_spec (Z.log2 q) (Z.of_nat n)); [|lia].
    exfalso. apply diff_false_true, Ht; [apply Z.bit_log2; lia|].
    intros i Hi. apply Z.bits_above_log2; lia.
Qed.

Lemma is_crc_unique w poly init l r r' : 0 <= w -> is_word w poly ->
  is_crc w poly init l r -> is_crc w poly init l r' -> r = r'.
Proof.
  intros Hw Hp [H1 H2] [H3 H4]. apply (cong_small w poly); try done. by rewrite <- H2, H4.
Qed.

(** ** Bits of the register *)

Lemma msb_bit_range w poly c : 0 < w -> is_word w poly -> is_word w (msb_bit w poly c).
Proof.
  intros Hw Hp. unfold msb_bit. apply is_word_lxor; [lia|apply shlw_range; lia|].
  destruct (Z.testbit c (w - 1)); [done|]. unfold is_word. lia.
Qed.

Lemma msb_bit_cong w poly c : 0 < w -> is_word w poly -> is_word w c ->
  cong (2 ^ w + poly) (Z.shiftl c 1) (msb_bit w poly c).
Proof.
  intros Hw Hp Hc. unfold msb_bit.
  assert (Z.shiftl c 1 = Z.lxor (shlw w c 1) (if Z.testbit c (w - 1) then 2 ^ w else 0)) as ->.
  { apply Z.bits_inj'. intros i Hi. rewrite Z.lxor_spec, shlw_bits, Z.shiftl_spec by lia.
    destruct (Z.lt_trichotomy i w) as [Hlt|[->|Hgt]].
    - assert (Z.testbit (if Z.testbit c (w - 1) then 2 ^ w else 0) i = false) as ->.
      { destruct (Z.testbit c (w - 1)); [apply Z.pow2_bits_false; lia|apply Z.bits_0]. }
      zcases; [by rewrite andb_true_r, xorb_false_r|lia].
    - rewrite Z.ltb_irrefl, andb_false_r. cbn.
      destruct (Z.testbit c (w - 1)); [by rewrite Z.pow2_bits_true by lia|by rewrite Z.bits_0].
    - rewrite (is_word_bits w c) by (done || lia). cbn.
      destruct (Z.testbit c (w - 1)); [by rewrite Z.pow2_bits_false by lia|by rewrite Z.bits_0]. }
  destruct (Z.testbit c (w - 1)); [|reflexivity].
  assert (2 ^ w + poly = Z.lxor (2 ^ w) poly) as Hsum.
  { rewrite Z.add_nocarry_lxor; [done|]. apply Z.bits_inj'. intros i Hi.
    rewrite Z.land_spec, Z.bits_0. destruct (Z.eq_dec i w) as [->|].
    - by rewrite (is_word_bits w poly), andb_false_r by (done || lia).
    - by rewrite Z.pow2_bits_false by lia. }
  replace (Z.lxor (shlw w c 1) poly)
    with (Z.lxor (Z.lxor (shlw w c 1) (2 ^ w)) (Z.shiftl (2 ^ w + poly) 0)).
  - constructor; [lia|reflexivity].
  - rewrite Z.shiftl_0_r, Hsum, <- Z.lxor_assoc, lxor_cancel. done.
Qed.

Lemma iter_S {A} (f : A -> A) n x : Nat.iter (S n) f x = f (Nat.iter n f x).
Proof. done. Qed.

Lemma msb_iter w poly n : forall c, 0 < w -> is_word w poly -> is_word w c ->
  is_word w (Nat.iter n (msb_bit w poly) c) /\
  cong (2 ^ w + poly) (Z.shiftl c (Z.of_nat n)) (Nat.iter n (msb_bit w poly) c).
Proof.
  intros c Hw Hp Hc. induction n as [|n [IHr IHc]].
  - split; [done|]. by rewrite Z.shiftl_0_r.
  - rewrite iter_S. split; [by apply msb_bit_range|].
    rewrite <- msb_bit_cong by done. rewrite Nat2Z.inj_succ.
    replace (Z.succ (Z.of_nat n)) with (Z.of_nat n + 1) by lia.
    rewrite <- Z.shiftl_shiftl by lia. by apply cong_shiftl.
Qed.

Lemma byte_shift_range w b : 8 <= w -> is_word 8 b -> is_word w (Z.shiftl b (w - 8)).
Proof.
  intros Hw [H1 H2]. unfold is_word. rewrite Z.shiftl_mul_pow2 by lia.
  replace (2 ^ w) with (2 ^ 8 * 2 ^ (w - 8)) by (rewrite <- Z.pow_add_r by lia; f_equal; lia).
  nia.
Qed.

Lemma msb_byte_spec w poly c b : 8 <= w -> is_word w poly -> is_word w c -> is_word 8 b ->
  is_word w (msb_byte w poly c b) /\
  cong (2 ^ w + poly) (Z.lxor (Z.shiftl c 8) (Z.shiftl b w)) (msb_byte w poly c b).
Proof.
  intros Hw Hp Hc Hb.
  destruct (msb_iter w poly 8 (Z.lxor c (Z.shiftl b (w - 8)))) as [H1 H2]; [lia|done| |].
  { apply is_word_lxor; [lia|done|by apply byte_shift_range]. }
  split; [done|]. rewrite <- H2. rewrite Z.shiftl_lxor, Z.shiftl_shiftl by lia.
  replace (w - 8 + Z.of_nat 8) with w by lia. reflexivity.
Qed.

Lemma message_snoc l b : message (l ++ [b]) = Z.lxor (Z.shiftl (message l) 8) b.
Proof. unfold message. by rewrite fold_left_app. Qed.

(** The bit-serial register computes the remainder. *)
Lemma msb_crc_spec w poly init l : 8 <= w -> is_word w poly -> is_word w init -> is_bytes l ->
  is_crc w poly init l (fold_left (msb_byte w poly) l init).
Proof.
  intros Hw Hp Hi. induction l as [|b l IH] using rev_ind; intros Hl.
  - split; [done|]. cbn. by rewrite Z.shiftl_0_r, Z.shiftl_0_l, Z.lxor_0_r.
  - apply Forall_app in Hl as [Hl Hb]. inversion Hb as [|?? Hb' _]; subst.
    destruct (IH Hl) as [IHr IHc]. rewrite fold_left_app. cbn [fold_left].
    destruct (msb_byte_spec w poly (fold_left (msb_byte w poly) l init) b) as [H1 H2]; try done.
    split; [done|]. rewrite <- H2. unfold zlength in *. rewrite length_app, message_snoc. cbn [length].
    rewrite Z.shiftl_lxor, Z.shiftl_shiftl by lia.
    replace (8 + w) with (w + 8) by lia. rewrite <- Z.shiftl_shiftl by lia.
    replace (8 * Z.of_nat (length l + 1)) with (8 * Z.of_nat (length l) + 8) by lia.
    rewrite <- (Z.shiftl_shiftl init) by lia. rewrite <- Z.lxor_assoc, <- Z.shiftl_lxor.
    apply cong_lxor_r, cong_shiftl; [lia|done].
Qed.

(** ** Table-driven bytes *)

Lemma msb_bit_lxor w poly a b : 0 < w ->
  msb_bit w poly (Z.lxor a b) = Z.lxor (msb_bit w poly a) (msb_bit w poly b).
Proof.
  intros Hw. apply Z.bits_inj'. intros i Hi. unfold msb_bit.
  rewrite !Z.lxor_spec, !shlw_bits, Z.lxor_spec by lia.
  destruct (Z.testbit a (w - 1)), (Z.testbit b (w - 1)); cbn; rewrite ?Z.bits_0; btauto.
Qed.

Lemma msb_iter_lxor w poly n a b : 0 < w ->
  Nat.iter n (msb_bit w poly) (Z.lxor a b) =
  Z.lxor (Nat.iter n (msb_bit w poly) a) (Nat.iter n (msb_bit w poly) b).
Proof. intros Hw. induction n as [|n IH]; [done|]. by rewrite !iter_S, IH, msb_bit_lxor. Qed.

(** Bits that do not reach the top are only shifted. *)
Lemma msb_iter_low w poly n a : 0 < w -> 0 <= a < 2 ^ (w - Z.of_nat n) -> Z.of_nat n <= w ->
  Nat.iter n (msb_bit w poly) a = Z.shiftl a (Z.of_nat n).
Proof.
  intros Hw. induction n as [|n IH]; intros Ha Hn; [by rewrite Z.shiftl_0_r|].
  assert (2 ^ (w - Z.of_nat (S n)) <= 2 ^ (w - Z.of_nat n)) by (apply Z.pow_le_mono_r; lia).
  rewrite iter_S, IH by lia. unfold msb_bit.
  assert (Z.testbit (Z.shiftl a (Z.of_nat n)) (w - 1) = false) as ->.
  { destruct (Z.neg_nonneg_cases (w - 1 - Z.of_nat n)); [lia|].
    rewrite Z.shiftl_spec by lia. apply (is_word_bits (w - Z.of_nat (S n))); [done|lia]. }
  rewrite Z.lxor_0_r. unfold shlw. rewrite Z.shiftl_shiftl by lia.
  replace (Z.of_nat n + 1) with (Z.of_nat (S n)) by lia. apply wrap_small.
  rewrite Z.shiftl_mul_pow2 by lia. split; [lia|].
  replace (2 ^ w) with (2 ^ (w - Z.of_nat (S n)) * 2 ^ Z.of_nat (S n))
    by (rewrite <- Z.pow_add_r by lia; f_equal; lia). nia.
Qed.

(** A table is right when entry [i] is what eight single steps make of byte [i]. *)
Definition msb_table (w poly : Z) (t : list Z) : bool :=
  forallb (fun i => tbl t (Z.of_nat i) =? Nat.iter 8 (msb_bit w poly) (Z.shiftl (Z.of_nat i) (w - 8)))
    (seq 0 256).

Definition lsb_table (poly : Z) (t : list Z) : bool :=
  forallb (fun i => tbl t (Z.of_nat i) =? Nat.iter 8 (lsb_bit poly) (Z.of_nat i)) (seq 0 256).

Lemma forallb_byte (f : nat -> bool) i : forallb f (seq 0 256) = true -> is_word 8 i ->
  f (Z.to_nat i) = true.
Proof.
  intros H Hi. unfold is_word in Hi. rewrite forallb_forall in H. apply H, in_seq. lia.
Qed.

Lemma msb_table_get w poly t i : msb_table w poly t = true -> is_word 8 i ->
  tbl t i = Nat.iter 8 (msb_bit w poly) (Z.shiftl i (w - 8)).
Proof.
  intros Ht Hi. pose proof (forallb_byte _ i Ht Hi) as H. cbn beta in H.
  rewrite Z2Nat.id in H by apply Hi. by apply Z.eqb_eq.
Qed.

Lemma lsb_table_get poly t i : lsb_table poly t = true -> is_word 8 i ->
  tbl t i = Nat.iter 8 (lsb_bit poly) i.
Proof.
  intros Ht Hi. pose proof (forallb_byte _ i Ht Hi) as H. cbn beta in H.
  rewrite Z2Nat.id in H by apply Hi. by apply Z.eqb_eq.
Qed.

(** The low part of the register is shifted, the high byte goes through the steps. *)
Lemma msb_iter_split w poly c : 8 <= w -> is_word w c ->
  Nat.iter 8 (msb_bit w poly) c =
  Z.lxor (shlw w c 8) (Nat.iter 8 (msb_bit w poly) (Z.shiftl (Z.shiftr c (w - 8)) (w - 8))).
Proof.
  intros Hw Hc. set (lo := Z.land c (Z.ones (w - 8))).
  set (hi := Z.shiftl (Z.shiftr c (w - 8)) (w - 8)).
  assert (c = Z.lxor lo hi) as Hsplit.
  { apply Z.bits_inj'. intros i Hi. subst lo hi.
    rewrite Z.lxor_spec, Z.land_spec, Z.testbit_ones_nonneg, Z.shiftl_spec by lia.
    destruct (Z.ltb_spec i (w - 8)).
    - rewrite (Z.testbit_neg_r _ (i - (w - 8))) by lia. by rewrite andb_true_r, xorb_false_r.
    - rewrite Z.shiftr_spec by lia. replace (i - (w - 8) + (w - 8)) with i by lia. by rewrite andb_false_r. }
  assert (Nat.iter 8 (msb_bit w poly) lo = shlw w c 8) as <-.
  { rewrite msb_iter_low; [|lia| |lia].
    - apply Z.bits_inj'. intros i Hi. rewrite shlw_bits by lia. change (Z.of_nat 8) with 8.
      rewrite Z.shiftl_spec by lia. subst lo. destruct (Z.neg_nonneg_cases (i - 8)).
      { by rewrite !Z.testbit_neg_r by lia. }
      rewrite Z.land_spec, Z.testbit_ones_nonneg by lia. f_equal. zcases; lia || done.
    - subst lo. change (Z.of_nat 8) with 8. rewrite Z.land_ones by lia. apply Z.mod_pos_bound. lia. }
  rewrite Hsplit at 1. by rewrite msb_iter_lxor by lia.
Qed.

Lemma high_byte w c : 8 <= w -> is_word w c -> is_word 8 (Z.shiftr c (w - 8)).
Proof.
  intros Hw Hc. replace 8 with (w - (w - 8)) at 1 by lia. apply is_word_shiftr_sub; [lia|done].
Qed.

Lemma msb_table_byte w poly t c b : 8 <= w -> msb_table w poly t = true ->
  is_word w c -> is_word 8 b ->
  Z.lxor (shlw w c 8) (tbl t (Z.lxor (Z.shiftr c (w - 8)) b)) = msb_byte w poly c b.
Proof.
  intros Hw Ht Hc Hb. rewrite (msb_table_get w poly);
    [|done|apply is_word_lxor; [lia|by apply high_byte|done]].
  unfold msb_byte. rewrite Z.shiftl_lxor, !msb_iter_lxor, (msb_iter_split w poly c) by (done || lia).
  by rewrite Z.lxor_assoc.
Qed.

Lemma lsb_bit_lxor poly a b : lsb_bit poly (Z.lxor a b) = Z.lxor (lsb_bit poly a) (lsb_bit poly b).
Proof.
  apply Z.bits_inj'. intros i Hi. unfold lsb_bit.
  rewrite !Z.lxor_spec, !Z.shiftr_spec, Z.lxor_spec by lia.
  destruct (Z.testbit a 0), (Z.testbit b 0); cbn; rewrite ?Z.bits_0; btauto.
Qed.

Lemma lsb_iter_lxor poly n a b :
  Nat.iter n (lsb_bit poly) (Z.lxor a b) =
  Z.lxor (Nat.iter n (lsb_bit poly) a) (Nat.iter n (lsb_bit poly) b).
Proof. induction n as [|n IH]; [done|]. by rewrite !iter_S, IH, lsb_bit_lxor. Qed.

Lemma lsb_iter_high poly n a : (forall i, 0 <= i < Z.of_nat n -> Z.testbit a i = false) ->
  Nat.iter n (lsb_bit poly) a = Z.shiftr a (Z.of_nat n).
Proof.
  induction n as [|n IH]; intros Ha; [by rewrite Z.shiftr_0_r|].
  rewrite iter_S, IH by (intros; apply Ha; lia). unfold lsb_bit.
  rewrite Z.shiftr_spec by lia. rewrite Ha by lia. rewrite Z.lxor_0_r, Z.shiftr_shiftr by lia.
  f_equal. lia.
Qed.

Lemma land_byte c : is_word 8 (Z.land c 255).
Proof. apply is_word_land_r; [lia|done]. Qed.

Lemma lsb_table_byte poly t c b : lsb_table poly t = true -> 0 <= c -> is_word 8 b ->
  Z.lxor (Z.shiftr c 8) (tbl t (Z.land (Z.lxor c b) 255)) = lsb_byte poly c b.
Proof.
  intros Ht Hc Hb. rewrite (lsb_table_get poly) by (done || apply land_byte).
  unfold lsb_byte. set (hi := Z.ldiff c 255).
  assert (Z.lxor c b = Z.lxor hi (Z.land (Z.lxor c b) 255)) as Hsplit.
  { apply Z.bits_inj'. intros i Hi. subst hi. change 255 with (Z.ones 8).
    rewrite !Z.lxor_spec, Z.ldiff_spec, Z.land_spec, Z.lxor_spec, Z.testbit_ones_nonneg by lia.
    destruct (Z.ltb_spec i 8); [btauto|]. rewrite (is_word_bits 8 b) by done. btauto. }
  rewrite Hsplit at 2. rewrite lsb_iter_lxor. f_equal.
  rewrite lsb_iter_high.
  - apply Z.bits_inj'. intros i Hi. subst hi. change 255 with (Z.ones 8). change (Z.of_nat 8) with 8.
    rewrite !Z.shiftr_spec, Z.ldiff_spec, Z.testbit_ones_nonneg by lia. zcases; [lia|]. by rewrite andb_true_r.
  - intros i Hi. subst hi. change 255 with (Z.ones 8).
    rewrite Z.ldiff_spec, Z.testbit_ones_nonneg by lia. zcases; [by rewrite andb_false_r|lia].
Qed.

(** ** Reflected registers *)

Lemma reflect_bits n : forall c i, 0 <= i ->
  Z.testbit (reflect n c) i = (i <? Z.of_nat n) && Z.testbit c (Z.of_nat n - 1 - i).
Proof.
  induction n as [|n IH]; intros c i Hi; cbn [reflect].
  { rewrite Z.bits_0. destruct (Z.ltb_spec i (Z.of_nat 0)); [lia|done]. }
  rewrite Z.lxor_spec, IH by done. destruct (Z.lt_trichotomy i (Z.of_nat n)) as [Hlt|[->|Hgt]].
  - rewrite Z.shiftr_spec by lia. replace (Z.of_nat n - 1 - i + 1) with (Z.of_nat (S n) - 1 - i) by lia.
    assert (Z.testbit (if Z.testbit c 0 then 2 ^ Z.of_nat n else 0) i = false) as ->.
    { destruct (Z.testbit c 0); [apply Z.pow2_bits_false; lia|apply Z.bits_0]. }
    zcases; lia || done.
  - rewrite Z.ltb_irrefl. replace (Z.of_nat (S n) - 1 - Z.of_nat n) with 0 by lia.
    destruct (Z.ltb_spec (Z.of_nat n) (Z.of_nat (S n))); [|lia]. cbn [andb].
    destruct (Z.testbit c 0); [by rewrite Z.pow2_bits_true by lia|by rewrite Z.bits_0].
  - assert (Z.testbit (if Z.testbit c 0 then 2 ^ Z.of_nat n else 0) i = false) as ->.
    { destruct (Z.testbit c 0); [apply Z.pow2_bits_false; lia|apply Z.bits_0]. }
    zcases; lia || done.
Qed.

Lemma reflect_range n c : is_word (Z.of_nat n) (reflect n c).
Proof.
  apply is_word_intro; [lia| |].
  - apply Z.bits_iff_nonneg_ex. exists (Z.of_nat n). intros i Hi.
    rewrite reflect_bits by lia. zcases; lia || done.
  - intros i Hi. rewrite reflect_bits by lia. zcases; lia || done.
Qed.

Lemma reflect_lxor n a b : reflect n (Z.lxor a b) = Z.lxor (reflect n a) (reflect n b).
Proof.
  apply Z.bits_inj'. intros i Hi. rewrite Z.lxor_spec, !reflect_bits, Z.lxor_spec by done.
  destruct (i <? Z.of_nat n); done.
Qed.

Lemma reflect_byte n b : 8 <= Z.of_nat n -> is_word 8 b ->
  reflect n b = Z.shiftl (reflect 8 b) (Z.of_nat n - 8).
Proof.
  intros Hn Hb. apply Z.bits_inj'. intros i Hi. rewrite Z.shiftl_spec, reflect_bits by lia.
  destruct (Z.neg_nonneg_cases (i - (Z.of_nat n - 8))).
  - rewrite (Z.testbit_neg_r _ (i - _)) by lia. rewrite (is_word_bits 8 b) by (done || lia).
    by rewrite andb_false_r.
  - rewrite reflect_bits by lia. change (Z.of_nat 8) with 8.
    replace (8 - 1 - (i - (Z.of_nat n - 8))) with (Z.of_nat n - 1 - i) by lia.
    zcases; lia || done.
Qed.

Lemma reflect_lsb_bit n poly c : (0 < n)%nat -> is_word (Z.of_nat n) c ->
  reflect n (lsb_bit poly c) = msb_bit (Z.of_nat n) (reflect n poly) (reflect n c).
Proof.
  intros Hn Hc. apply Z.bits_inj'. intros i Hi. unfold lsb_bit, msb_bit.
  rewrite reflect_lxor, !Z.lxor_spec, shlw_bits by lia. f_equal.
  - rewrite reflect_bits by lia. destruct (Z.eq_dec i 0) as [->|].
    + rewrite (Z.testbit_neg_r (reflect n c)) by lia. rewrite Z.shiftr_spec by lia.
      rewrite (is_word_bits (Z.of_nat n) c) by (done || lia). by rewrite andb_false_r.
    + rewrite reflect_bits by lia. destruct (Z.ltb_spec i (Z.of_nat n)); [|by rewrite andb_false_r].
      rewrite Z.shiftr_spec by lia. replace (Z.of_nat n - 1 - i + 1) with (Z.of_nat n - 1 - (i - 1)) by lia.
      zcases; lia || by rewrite andb_true_r.
  - rewrite (reflect_bits n c) by lia. replace (Z.of_nat n - 1 - (Z.of_nat n - 1)) with 0 by lia.
    destruct (Z.ltb_spec (Z.of_nat n - 1) (Z.of_nat n)); [|lia]. cbn [andb].
    destruct (Z.testbit c 0); [done|]. rewrite reflect_bits, !Z.bits_0 by lia. by rewrite andb_false_r.
Qed.

Lemma lsb_bit_range w poly c : 0 <= w -> is_word w poly -> is_word w c -> is_word w (lsb_bit poly c).
Proof.
  intros Hw Hp Hc. unfold lsb_bit. apply is_word_lxor; [done|by apply is_word_shiftr|].
  destruct (Z.testbit c 0); [done|]. unfold is_word in *. lia.
Qed.

Lemma lsb_iter_range w poly k x : 0 <= w -> is_word w poly -> is_word w x ->
  is_word w (Nat.iter k (lsb_bit poly) x).
Proof. intros Hw Hp Hx. induction k as [|k IH]; [done|]. rewrite iter_S. by apply lsb_bit_range. Qed.

Lemma reflect_lsb_iter n poly k x : (0 < n)%nat -> is_word (Z.of_nat n) poly -> is_word (Z.of_nat n) x ->
  reflect n (Nat.iter k (lsb_bit poly) x) =
  Nat.iter k (msb_bit (Z.of_nat n) (reflect n poly)) (reflect n x).
Proof.
  intros Hn Hp Hx. induction k as [|k IH]; [done|].
  rewrite !iter_S, reflect_lsb_bit by (done || (apply lsb_iter_range; [lia|done..])). by rewrite IH.
Qed.

Lemma lsb_byte_range w poly c b : 8 <= w -> is_word w poly -> is_word w c -> is_word 8 b ->
  is_word w (lsb_byte poly c b).
Proof.
  intros Hw Hp Hc Hb. apply lsb_iter_range; [lia|done|].
  apply is_word_lxor; [lia|done|]. by apply (is_word_weaken 8); [lia|].
Qed.

Lemma lsb_byte_eq poly c b : lsb_byte poly c b = Nat.iter 8 (lsb_bit poly) (Z.lxor c b).
Proof. reflexivity. Qed.

Lemma msb_byte_eq w poly c b :
  msb_byte w poly c b = Nat.iter 8 (msb_bit w poly) (Z.lxor c (Z.shiftl b (w - 8))).
Proof. reflexivity. Qed.

#[local] Opaque msb_byte lsb_byte reflect Nat.iter.

Lemma reflect_lsb_byte n poly c b : 8 <= Z.of_nat n -> is_word (Z.of_nat n) poly ->
  is_word (Z.of_nat n) c -> is_word 8 b ->
  reflect n (lsb_byte poly c b) = msb_byte (Z.of_nat n) (reflect n poly) (reflect n c) (reflect 8 b).
Proof.
  intros Hn Hp Hc Hb. rewrite lsb_byte_eq, msb_byte_eq.
  rewrite <- reflect_byte, <- reflect_lxor by done. apply reflect_lsb_iter; [lia|done|].
  apply is_word_lxor; [lia|done|]. by apply (is_word_weaken 8); [lia|].
Qed.

Lemma lsb_crc_range w poly l : forall c, 8 <= w -> is_word w poly -> is_word w c -> is_bytes l ->
  is_word w (fold_left (lsb_byte poly) l c).
Proof.
  induction l as [|b l IH]; intros c Hw Hp Hc Hl; [done|].
  apply Forall_cons_1 in Hl as [Hb Hl]. rewrite fold_left_cons.
  apply IH; [done|done|by apply lsb_byte_range|done].
Qed.

(** A reflected register, read backwards, divides the message read backwards. *)
Lemma lsb_crc_spec n poly l : forall init, 8 <= Z.of_nat n -> is_word (Z.of_nat n) poly ->
  is_word (Z.of_nat n) init -> is_bytes l ->
  reflect n (fold_left (lsb_byte poly) l init) =
  fold_left (msb_byte (Z.of_nat n) (reflect n poly)) (reflect 8 <$> l) (reflect n init).
Proof.
  induction l as [|b l IH]; intros c Hn Hp Hc Hl; [done|].
  apply Forall_cons_1 in Hl as [Hb Hl].
  rewrite fmap_list_cons, !fold_left_cons, <- reflect_lsb_byte by done.
  apply IH; [done|done|by apply lsb_byte_range|done].
Qed.

Lemma reflect_bytes l : is_bytes (reflect 8 <$> l).
Proof. apply Forall_fmap, Forall_true. intros b. apply (reflect_range 8). Qed.

(** What a reflected CRC must return: its bits reversed are the remainder for the
    message whose bytes are bit-reversed; [poly] is given in the usual order. *)
Definition is_crc_reflected (n : nat) (poly init : Z) (l : list Z) (r : Z) : Prop :=
  is_word (Z.of_nat n) r /\
  is_crc (Z.of_nat n) poly (reflect n init) (reflect 8 <$> l) (reflect n r).

Lemma reflected_crc_spec n rpoly init l : 8 <= Z.of_nat n -> is_word (Z.of_nat n) rpoly ->
  is_word (Z.of_nat n) init -> is_bytes l ->
  is_crc_reflected n (reflect n rpoly) init l (fold_left (lsb_byte rpoly) l init).
Proof.
  intros Hn Hp Hi Hl. split; [by apply lsb_crc_range|].
  rewrite lsb_crc_spec by done. apply msb_crc_spec; [done|apply reflect_range..|apply reflect_bytes].
Qed.

(** Two folds agree when their steps agree on states kept in range by one of them. *)
Lemma fold_left_agree (f g : Z -> Z -> Z) w l : forall c,
  (forall c b, is_word w c -> is_word 8 b -> f c b = g c b /\ is_word w (g c b)) ->
  is_word w c -> is_bytes l -> fold_left f l c = fold_left g l c.
Proof.
  induction l as [|b l IH]; intros c H Hc Hl; [done|]. apply Forall_cons_1 in Hl as [Hb Hl].
  rewrite !fold_left_cons. destruct (H c b) as [-> ?]; [done..|]. by apply IH.
Qed.

(** * The checksums of the source *)

Definition CRC7_POLY : Z := 0x09.        (* x^7 + x^3 + 1 *)
Definition CRC16_POLY : Z := 0x8005.     (* x^16 + x^15 + x^2 + 1 *)
Definition CRC32_POLY : Z := 0x04C11DB7.
Definition CRC32C_POLY : Z := 0x1EDC6F41.
Definition CRC64_POLY : Z := 0xad93d23594c935a9.
Definition CRC64_NVME_POLY : Z := 0xad93d23594c93659.
Definition T10DIF_POLY : Z := 0x8bb7.

(** The register of [fio_crc7] is 7 bits wide; doubled, it is an 8-bit register. *)
Lemma crc7_doubled c b : is_word 7 c -> is_word 8 b ->
  2 * crc7_byte c b = msb_byte 8 (2 * CRC7_POLY) (2 * c) b /\ is_word 7 (crc7_byte c b).
Proof.
  intros Hc Hb. unfold crc7_byte. rewrite Z.shiftl_mul_pow2 by lia. change (2 ^ 1) with 2.
  rewrite (Z.mul_comm c 2).
  assert (is_word 8 (Z.lxor (2 * c) b)) as Hi.
  { apply is_word_lxor; [lia| |done]. unfold is_word in *. lia. }
  rewrite msb_byte_eq. change (8 - 8) with 0. rewrite Z.shiftl_0_r.
  revert Hi. generalize (Z.lxor (2 * c) b) as i. intros i Hi.
  assert (forallb (fun k => (2 * tbl crc7_syndrome_table (Z.of_nat k) =?
      Nat.iter 8 (msb_bit 8 (2 * CRC7_POLY)) (Z.of_nat k)) &&
      bool_decide (is_word 7 (tbl crc7_syndrome_table (Z.of_nat k)))) (seq 0 256) = true) as H
    by (vm_compute; reflexivity).
  pose proof (forallb_byte _ i H Hi) as Hk. cbn beta in Hk. rewrite Z2Nat.id in Hk by apply Hi.
  apply andb_true_iff in Hk as [H1 H2]. apply Z.eqb_eq in H1. apply bool_decide_eq_true in H2.
  exact (conj H1 H2).
Qed.

Lemma crc7_fold l : forall c, is_word 7 c -> is_bytes l ->
  2 * fold_left crc7_byte l c = fold_left (msb_byte 8 (2 * CRC7_POLY)) l (2 * c) /\
  is_word 7 (fold_left crc7_byte l c).
Proof.
  induction l as [|b l IH]; intros c Hc Hl; [done|]. apply Forall_cons_1 in Hl as [Hb Hl].
  rewrite !fold_left_cons. destruct (crc7_doubled c b) as [<- ?]; [done..|]. by apply IH.
Qed.

Lemma crc32_byte_spec c b : is_word 32 c -> is_word 8 b ->
  crc32_byte c b = msb_byte 32 CRC32_POLY c b /\ is_word 32 (msb_byte 32 CRC32_POLY c b).
Proof.
  intros Hc Hb. split; [|by apply msb_byte_spec]. unfold crc32_byte.
  change 0xFF with (Z.ones 8). rewrite Z.land_ones, Z.mod_small by
    (lia || (apply (is_word_lxor 8); [lia|apply (high_byte 32); [lia|done]|done])).
  apply (msb_table_byte 32); [lia|vm_compute; reflexivity|done..].
Qed.

Lemma t10dif_byte_spec c b : is_word 16 c -> is_word 8 b ->
  t10dif_byte c b = msb_byte 16 T10DIF_POLY c b /\ is_word 16 (msb_byte 16 T10DIF_POLY c b).
Proof.
  intros Hc Hb. split; [|by apply msb_byte_spec].
  rewrite <- (msb_table_byte 16 T10DIF_POLY t10_dif_crc_table) by (done || lia || (vm_compute; reflexivity)).
  unfold t10dif_byte.
  change 0xff with (Z.ones 8). rewrite Z.land_ones, Z.mod_small by
    (lia || (apply (is_word_lxor 8); [lia|apply (high_byte 16); [lia|done]|done])).
  assert (is_word 16 (tbl t10_dif_crc_table (Z.lxor (Z.shiftr c (16 - 8)) b))) as Ht.
  { rewrite (msb_table_get 16 T10DIF_POLY);
      [|vm_compute; reflexivity|apply is_word_lxor; [lia|apply (high_byte 16); [lia|done]|done]].
    apply msb_iter; [lia|done|]. apply byte_shift_range; [lia|].
    apply is_word_lxor; [lia|apply (high_byte 16); [lia|done]|done]. }
  apply Z.bits_inj'. intros i Hi. rewrite wrap_bits, !Z.lxor_spec, shlw_bits, Z.shiftl_spec by lia.
  destruct (Z.ltb_spec i 16); [by rewrite !andb_true_r|].
  change (16 - 8) with 8 in *. rewrite (is_word_bits 16 _ i Ht) by done.
  by rewrite !andb_false_r.
Qed.

(** C5: the checksums processed most significant bit first.  On every buffer of
    bytes [fio_crc32], [fio_crc_t10dif] (with any starting value) and [fio_crc7]
    return the remainder of the message polynomial by their generator polynomial;
    for the 7-bit code the remainder is [fio_crc7] scaled to the 8-bit register. *)
Theorem crc_msb_correct l crc : is_bytes l -> is_word 16 crc ->
  is_crc 32 CRC32_POLY 0 l (fio_crc32 l) /\
  is_crc 16 T10DIF_POLY crc l (fio_crc_t10dif crc l) /\
  is_crc 8 (2 * CRC7_POLY) 0 l (2 * fio_crc7 l) /\ is_word 7 (fio_crc7 l).
Proof.
  intros Hl Hc. unfold fio_crc32, fio_crc_t10dif, fio_crc7. split_and!.
  - rewrite (fold_left_agree _ _ 32 l 0 crc32_byte_spec) by done.
    by apply msb_crc_spec.
  - rewrite (fold_left_agree _ _ 16 l crc t10dif_byte_spec) by done.
    by apply msb_crc_spec.
  - rewrite (proj1 (crc7_fold l 0 ltac:(done) Hl)). by apply msb_crc_spec.
  - apply (crc7_fold l 0 ltac:(done) Hl).
Qed.

(** The step of a reflected checksum is the bit-serial one when its table is right. *)
Lemma lsb_step_spec w poly t c b : 8 <= w -> is_word w poly -> lsb_table poly t = true ->
  is_word w c -> is_word 8 b ->
  Z.lxor (Z.shiftr c 8) (tbl t (Z.land (Z.lxor c b) 255)) = lsb_byte poly c b /\
  is_word w (lsb_byte poly c b).
Proof.
  intros Hw Hp Ht Hc Hb. split; [|by apply lsb_byte_range]. apply lsb_table_byte; [done|apply Hc|done].
Qed.

Lemma nvme_index c b : is_word 8 b -> Z.lxor (Z.land c 255) b = Z.land (Z.lxor c b) 255.
Proof.
  intros Hb. apply Z.bits_inj'. intros i Hi. change 255 with (Z.ones 8).
  rewrite Z.lxor_spec, !Z.land_spec, Z.lxor_spec, Z.testbit_ones_nonneg by lia.
  destruct (Z.ltb_spec i 8); [btauto|]. rewrite (is_word_bits 8 b) by done. btauto.
Qed.

Lemma crc16_byte_spec c b : is_word 16 c -> is_word 8 b ->
  crc16_byte c b = lsb_byte 0xa001 c b /\ is_word 16 (lsb_byte 0xa001 c b).
Proof. apply lsb_step_spec; [lia|done|vm_compute; reflexivity]. Qed.

Lemma crc32c_byte_spec c b : is_word 32 c -> is_word 8 b ->
  crc32c_byte c b = lsb_byte 0x82f63b78 c b /\ is_word 32 (lsb_byte 0x82f63b78 c b).
Proof.
  unfold crc32c_byte. rewrite Z.lxor_comm. apply lsb_step_spec; [lia|done|vm_compute; reflexivity].
Qed.

Lemma crc64_byte_spec c b : is_word 64 c -> is_word 8 b ->
  crc64_byte c b = lsb_byte 0x95ac9329ac4bc9b5 c b /\ is_word 64 (lsb_byte 0x95ac9329ac4bc9b5 c b).
Proof.
  unfold crc64_byte. rewrite Z.lxor_comm. apply lsb_step_spec; [lia|done|vm_compute; reflexivity].
Qed.

(** ** A changed byte changes the sum *)

Lemma lsb_bit_zero w poly c : 0 < w -> is_word w c -> Z.testbit poly (w - 1) = true -> lsb_bit poly c = 0 -> c = 0.
Proof.
  intros Hw Hc Hp E%Z.lxor_eq.
  assert (Z.testbit c 0 = false) as H0.
  { destruct (Z.testbit c 0) eqn:E0; [|done]. rewrite <- E, Z.shiftr_spec in Hp by lia. by rewrite (is_word_bits w c) in Hp by (done || lia). }
  rewrite H0 in E. apply Z.bits_inj'. intros i Hi. rewrite Z.bits_0. destruct (Z.eq_dec i 0) as [->|]; [done|].
  pose proof (f_equal (fun z => Z.testbit z (i - 1)) E) as Hb. cbn beta in Hb. rewrite Z.shiftr_spec, Z.bits_0 in Hb by lia. by replace (i - 1 + 1) with i in Hb by lia.
Qed.

Lemma msb_bit_zero w poly c : 0 < w -> is_word w c -> Z.testbit poly 0 = true -> msb_bit w poly c = 0 -> c = 0.
Proof.
  intros Hw Hc Hp E%Z.lxor_eq.
  assert (Z.testbit c (w - 1) = false) as H0.
  { destruct (Z.testbit c (w - 1)) eqn:E0; [|done]. rewrite <- E in Hp. unfold shlw, wrap in Hp. rewrite Z.mod_pow2_bits_low, Z.shiftl_spec in Hp by lia. by rewrite Z.testbit_neg_r in Hp by lia. }
  rewrite H0 in E. apply Z.bits_inj'. intros i Hi. rewrite Z.bits_0. destruct (Z.lt_ge_cases i w) as [Hlt|]; [|by apply (is_word_bits w)].
  destruct (Z.eq_dec i (w - 1)) as [->|]; [done|].
  pose proof (f_equal (fun z => Z.testbit z (i + 1)) E) as Hb. cbn beta in Hb. unfold shlw, wrap in Hb.
  rewrite Z.mod_pow2_bits_low, Z.shiftl_spec, Z.bits_0 in Hb by lia. by replace (i + 1 - 1) with i in Hb by lia.
Qed.

(** A step that is additive, keeps words and has no zero but zero is one to one. *)
Lemma additive_iter_inj w (f : Z -> Z) n : (forall a b, f (Z.lxor a b) = Z.lxor (f a) (f b)) ->
  (forall a, is_word w a -> is_word w (f a)) -> (forall a, is_word w a -> f a = 0 -> a = 0) -> 0 <= w ->
  forall a b, is_word w a -> is_word w b -> Nat.iter n f a = Nat.iter n f b -> a = b.
Proof.
  intros Hadd Hw Hz Hw0. induction n as [|n IH]; intros a b Ha Hb E; [done|]. rewrite !Nat.iter_succ_r in E. apply IH in E; [|by apply Hw..].
  apply Z.lxor_eq, Hz; [by apply is_word_lxor|]. by rewrite Hadd, E, Z.lxor_nilpotent.
Qed.

(** The steps of the checksums, one to one in the register and in the byte. *)
Definition step_detects (w : Z) (f : Z -> Z -> Z) : Prop :=
  (forall c b, is_word w c -> is_word 8 b -> is_word w (f c b)) /\
  (forall c c' b, is_word w c -> is_word w c' -> is_word 8 b -> f c b = f c' b -> c = c') /\
  (forall c b b', is_word w c -> is_word 8 b -> is_word 8 b' -> f c b = f c b' -> b = b').

Lemma lxor_inj_l a b c : Z.lxor a b = Z.lxor a c -> b = c.
Proof. intros E. rewrite <- (lxor_cancel b a), <- (lxor_cancel c a), (Z.lxor_comm b), (Z.lxor_comm c). by rewrite E. Qed.

Lemma lxor_inj_r a b c : Z.lxor b a = Z.lxor c a -> b = c.
Proof. rewrite !(Z.lxor_comm _ a). apply lxor_inj_l. Qed.

Lemma lsb_step_detects w poly f : 8 <= w -> is_word w poly -> Z.testbit poly (w - 1) = true ->
  (forall c b, is_word w c -> is_word 8 b -> f c b = lsb_byte poly c b /\ is_word w (lsb_byte poly c b)) -> step_detects w f.
Proof.
  intros Hw Hp Ht Hf.
  assert (forall a b, is_word w a -> is_word w b -> Nat.iter 8 (lsb_bit poly) a = Nat.iter 8 (lsb_bit poly) b -> a = b) as Hi.
  { apply additive_iter_inj; [apply lsb_bit_lxor|intros; by apply lsb_bit_range; [lia|..]|intros a Ha; apply (lsb_bit_zero w); done || lia|lia]. }
  assert (forall c b, is_word w c -> is_word 8 b -> is_word w (Z.lxor c b)) as Hx.
  { intros c b Hc Hb. apply is_word_lxor; [lia|done|]. by apply (is_word_weaken 8); [lia|]. }
  split; [intros c b Hc Hb; destruct (Hf c b Hc Hb) as [-> H]; exact H|]. split.
  - intros c c' b Hc Hc' Hb. rewrite (proj1 (Hf c b Hc Hb)), (proj1 (Hf c' b Hc' Hb)). rewrite !lsb_byte_eq. intros E%Hi; [by apply lxor_inj_r in E|by apply Hx..].
  - intros c b b' Hc Hb Hb'. rewrite (proj1 (Hf c b Hc Hb)), (proj1 (Hf c b' Hc Hb')). rewrite !lsb_byte_eq. intros E%Hi; [by apply lxor_inj_l in E|by apply Hx..].
Qed.

Lemma msb_step_detects w poly f : 8 <= w -> is_word w poly -> Z.testbit poly 0 = true ->
  (forall c b, is_word w c -> is_word 8 b -> f c b = msb_byte w poly c b /\ is_word w (msb_byte w poly c b)) -> step_detects w f.
Proof.
  intros Hw Hp Ht Hf.
  assert (forall a b, is_word w a -> is_word w b -> Nat.iter 8 (msb_bit w poly) a = Nat.iter 8 (msb_bit w poly) b -> a = b) as Hi.
  { apply additive_iter_inj; [intros; apply msb_bit_lxor; lia|intros; by apply msb_bit_range; [lia|..]|intros a Ha; apply (msb_bit_zero w); done || lia|lia]. }
  assert (forall c b, is_word w c -> is_word 8 b -> is_word w (Z.lxor c (Z.shiftl b (w - 8)))) as Hx.
  { intros c b Hc Hb. apply is_word_lxor; [lia|done|by apply byte_shift_range]. }
  split; [intros c b Hc Hb; destruct (Hf c b Hc Hb) as [-> H]; exact H|]. split.
  - intros c c' b Hc Hc' Hb. rewrite (proj1 (Hf c b Hc Hb)), (proj1 (Hf c' b Hc' Hb)). rewrite !msb_byte_eq. intros E%Hi; [by apply lxor_inj_r in E|by apply Hx..].
  - intros c b b' Hc Hb Hb'. rewrite (proj1 (Hf c b Hc Hb)), (proj1 (Hf c b' Hc Hb')). rewrite !msb_byte_eq. intros E%Hi; [|by apply Hx..].
    apply lxor_inj_l in E. rewrite !Z.shiftl_mul_pow2 in E by lia. by apply Z.mul_cancel_r in E; [|lia].
Qed.

Lemma crc_steps_detect : step_detects 16 crc16_byte /\ step_detects 32 crc32_byte /\ step_detects 32 crc32c_byte /\ step_detects 64 crc64_byte.
Proof.
  split; [|split; [|split]].
  - apply (lsb_step_detects 16 0xa001); [lia|vm_compute; split; congruence|done|apply crc16_byte_spec].
  - apply (msb_step_detects 32 CRC32_POLY); [lia|vm_compute; split; congruence|done|apply crc32_byte_spec].
  - apply (lsb_step_detects 32 0x82f63b78); [lia|vm_compute; split; congruence|done|apply crc32c_byte_spec].
  - apply (lsb_step_detects 64 0x95ac9329ac4bc9b5); [lia|vm_compute; split; congruence|done|apply crc64_byte_spec].
Qed.

Lemma fold_detects_range w f l : step_detects w f -> forall c, is_word w c -> is_bytes l -> is_word w (fold_left f l c).
Proof.
  intros (H1 & _). induction l as [|b l IH]; intros c Hc Hl; [done|]. apply Forall_cons_1 in Hl as [Hb Hl]. cbn [fold_left]. by apply IH; [apply H1|].
Qed.

Lemma fold_detects_inj w f l : step_detects w f -> forall c c', is_word w c -> is_word w c' -> is_bytes l -> fold_left f l c = fold_left f l c' -> c = c'.
Proof.
  intros Hd. pose proof Hd as (H1 & H2 & _). induction l as [|b l IH]; intros c c' Hc Hc' Hl E; [done|]. apply Forall_cons_1 in Hl as [Hb Hl]. cbn [fold_left] in E.
  apply (H2 _ _ b); try done. apply IH; try done; by apply H1.
Qed.

(** One byte of the message changed. *)
Lemma fold_detects w f l j x c : step_detects w f -> is_word w c -> is_bytes l -> is_word 8 x -> (j < length l)%nat -> x <> tbl l (Z.of_nat j) ->
  fold_left f (<[j := x]> l) c <> fold_left f l c.
Proof.
  intros Hd Hc Hl Hx Hj Hne E. pose proof Hd as (H1 & _ & H3). destruct (lookup_lt_is_Some_2 l j Hj) as [b Hb].
  assert (tbl l (Z.of_nat j) = b) as Hbj by (unfold tbl; by rewrite nth_lookup, Nat2Z.id, Hb). rewrite Hbj in Hne.
  rewrite <- (take_drop_middle l j b Hb) in E. rewrite insert_app_r_alt in E by (rewrite length_take; lia).
  rewrite length_take, Nat.min_l, Nat.sub_diag in E by lia. cbn [insert list_insert] in E. rewrite !fold_left_app in E. cbn [fold_left] in E.
  assert (is_bytes (take j l)) as Ht by by apply Forall_take. assert (is_bytes (drop (S j) l)) as Hdr by by apply Forall_drop.
  assert (is_word 8 b) as Hwb by exact (Forall_lookup_1 _ _ _ _ Hl Hb).
  pose proof (fold_detects_range w f _ Hd c Hc Ht) as Hr. apply Hne, (H3 (fold_left f (take j l) c)); try done.
  eapply fold_detects_inj; [exact Hd| | |exact Hdr|exact E]; by apply H1.
Qed.

Lemma crc64_nvme_byte_spec c b : is_word 64 c -> is_word 8 b ->
  crc64_nvme_byte c b = lsb_byte 0x9a6c9329ac4bc9b5 c b /\ is_word 64 (lsb_byte 0x9a6c9329ac4bc9b5 c b).
Proof.
  intros Hc Hb. unfold crc64_nvme_byte. rewrite nvme_index by done.
  apply lsb_step_spec; [lia|done|vm_compute; reflexivity|done..].
Qed.

Lemma notw_involutive w a : is_word w a -> notw w (notw w a) = a.
Proof.
  intros Ha. assert (0 <= w) as Hw.
  { destruct (Z.le_gt_cases 0 w); [done|]. unfold is_word in Ha. rewrite Z.pow_neg_r in Ha by lia. lia. }
  rewrite (notw_eq w (notw w a)), notw_eq by (done || by apply notw_range). lia.
Qed.

(** C6: the reflected checksums.  [fio_crc16], [crc32c_sw] and [fio_crc64] return the
    bit-reversed remainder of the bit-reversed message; [fio_crc64_nvme] does so
    between two complements, for any starting value. *)
Theorem crc_lsb_correct l crc : is_bytes l -> is_word 64 crc ->
  is_crc_reflected 16 CRC16_POLY 0 l (fio_crc16 l) /\
  is_crc_reflected 32 CRC32C_POLY (all_ones 32) l (crc32c_sw l) /\
  is_crc_reflected 64 CRC64_POLY 0 l (fio_crc64 l) /\
  is_crc_reflected 64 CRC64_NVME_POLY (notw 64 crc) l (notw 64 (fio_crc64_nvme crc l)).
Proof.
  intros Hl Hc. unfold fio_crc16, crc32c_sw, fio_crc64, fio_crc64_nvme.
  assert (is_word 64 (notw 64 crc)) as Hn by (apply notw_range; lia). split_and!.
  - rewrite (fold_left_agree _ _ 16 l 0 crc16_byte_spec) by done.
    by apply (reflected_crc_spec 16 0xa001).
  - rewrite (fold_left_agree _ _ 32 l _ crc32c_byte_spec) by done.
    by apply (reflected_crc_spec 32 0x82f63b78).
  - rewrite (fold_left_agree _ _ 64 l 0 crc64_byte_spec) by done.
    by apply (reflected_crc_spec 64 0x95ac9329ac4bc9b5).
  - rewrite (fold_left_agree _ _ 64 l _ crc64_nvme_byte_spec) by done.
    rewrite notw_involutive by (apply lsb_crc_range; done || lia).
    by apply (reflected_crc_spec 64 0x9a6c9329ac4bc9b5).
Qed.

(** [fio_crc64_nvme] and [fio_crc_t10dif] may be called piecewise, each call
    starting from the value returned by the previous one. *)
Theorem crc_incremental crc l1 l2 : is_bytes l1 -> is_word 64 crc ->
  fio_crc64_nvme crc (l1 ++ l2) = fio_crc64_nvme (fio_crc64_nvme crc l1) l2 /\
  fio_crc_t10dif crc (l1 ++ l2) = fio_crc_t10dif (fio_crc_t10dif crc l1) l2.
Proof.
  intros Hl Hc. unfold fio_crc64_nvme, fio_crc_t10dif. rewrite !fold_left_app. split; [|done].
  assert (is_word 64 (notw 64 crc)) as Hn by (apply notw_range; lia).
  rewrite notw_involutive; [done|].
  rewrite (fold_left_agree _ _ 64 l1 _ crc64_nvme_byte_spec) by done. by apply lsb_crc_range.
Qed.

(** The remainder determines the checksum: two values that satisfy the specification
    for the same buffer are equal, so C5 and C6 pin the functions down completely. *)
Lemma is_crc_reflected_unique n poly init l r r' : is_word (Z.of_nat n) poly ->
  is_crc_reflected n poly init l r -> is_crc_reflected n poly init l r' -> r = r'.
Proof.
  intros Hp [Hr H] [Hr' H'].
  pose proof (is_crc_unique (Z.of_nat n) _ _ _ _ _ ltac:(lia) Hp H H') as E.
  apply (is_word_eq (Z.of_nat n)); [done..|]. intros i Hi.
  assert (Z.testbit (reflect n r) (Z.of_nat n - 1 - i) = Z.testbit (reflect n r') (Z.of_nat n - 1 - i)) as Hb
    by (by rewrite E).
  rewrite !reflect_bits in Hb by lia. replace (Z.of_nat n - 1 - (Z.of_nat n - 1 - i)) with i in Hb by lia.
  destruct (Z.ltb_spec (Z.of_nat n - 1 - i) (Z.of_nat n)); [done|lia].
Qed.

(** ** Witnesses *)

Lemma digits_bytes : is_bytes digits.
Proof. repeat constructor; done. Qed.

Lemma crc_msb_witness :
  is_crc 32 CRC32_POLY 0 digits (fio_crc32 digits) /\
  is_crc 16 T10DIF_POLY 0xffff digits (fio_crc_t10dif 0xffff digits) /\
  is_crc 8 (2 * CRC7_POLY) 0 digits (2 * fio_crc7 digits) /\ is_word 7 (fio_crc7 digits).
Proof. apply (crc_msb_correct digits 0xffff); [apply digits_bytes|unfold is_word; lia]. Defined.

Lemma crc_lsb_witness :
  is_crc_reflected 16 CRC16_POLY 0 digits (fio_crc16 digits) /\
  is_crc_reflected 32 CRC32C_POLY (all_ones 32) digits (crc32c_sw digits) /\
  is_crc_reflected 64 CRC64_POLY 0 digits (fio_crc64 digits) /\
  is_crc_reflected 64 CRC64_NVME_POLY (notw 64 5) digits (notw 64 (fio_crc64_nvme 5 digits)).
Proof. apply (crc_lsb_correct digits 5); [apply digits_bytes|unfold is_word; lia]. Defined.

Lemma crc_incremental_witness :
  fio_crc64_nvme 5 (digits ++ digits) = fio_crc64_nvme (fio_crc64_nvme 5 digits) digits /\
  fio_crc_t10dif 5 (digits ++ digits) = fio_crc_t10dif (fio_crc_t10dif 5 digits) digits.
Proof. apply (crc_incremental 5 digits digits); [apply digits_bytes|unfold is_word; lia]. Defined.
