(* ===== verification/Stream.v ===== *)
(** Block streaming: what every message digest of crc/ promises to its callers, and
    the lemmas on splitting a message into blocks that the implementations share. *)
From S2P Require Import Prelude.

Definition bytes (l : list Z) : Prop := Forall (is_word 8) l.

(** * Memory copies

    [memcpy(dst + off, src, ...)] into an array; out of bounds is undefined. *)
Definition memcpy (dst : list Z) (off : Z) (src : list Z) : option (list Z) :=
  if (0 <=? off) && (off + zlength src <=? zlength dst) then
    Some (take (Z.to_nat off) dst ++ src ++ drop (Z.to_nat off + length src) dst)
  else None.

(** [n] bytes read from a pointer into [src]. *)
Definition read_bytes (n : Z) (src : list Z) : option (list Z) :=
  if (0 <=? n) && (n <=? zlength src) then Some (take (Z.to_nat n) src) else None.

Definition memset (dst : list Z) (off v n : Z) : option (list Z) :=
  if n <? 0 then None else memcpy dst off (replicate (Z.to_nat n) v).

(** Integers stored in memory, least or most significant byte first. *)
Fixpoint le_bytes (n : nat) (z : Z) : list Z :=
  match n with O => [] | S n => z mod 256 :: le_bytes n (z / 256) end.

Definition be_bytes (n : nat) (z : Z) : list Z := rev (le_bytes n z).

Fixpoint le_value (l : list Z) : Z :=
  match l with [] => 0 | b :: l => b + 256 * le_value l end.

Definition be_value (l : list Z) : Z := le_value (rev l).

(** The [i]-th group of [n] bytes of a buffer read as one integer. *)
Definition word_le (n : nat) (l : list Z) (i : nat) : Z := le_value (take n (drop (n * i) l)).
Definition word_be (n : nat) (l : list Z) (i : nat) : Z := be_value (take n (drop (n * i) l)).

(** * Blocks of a message *)

Section Blocks.
Context (B : nat) (HB : (0 < B)%nat).

Fixpoint cut (n : nat) (m : list Z) : list (list Z) :=
  match n with
  | O => []
  | S n => take B m :: cut n (drop B m)
  end.

(** The complete blocks of a message, and the bytes left over. *)
Definition full_blocks (m : list Z) : list (list Z) := cut (length m / B) m.
Definition rest (m : list Z) : list Z := drop (B * (length m / B)) m.

Lemma length_rest m : length (rest m) = (length m mod B)%nat.
Proof using HB.
  unfold rest. rewrite length_drop. pose proof (Nat.div_mod (length m) B ltac:(lia)). lia.
Qed.

Lemma rest_lt m : (length (rest m) < B)%nat.
Proof using HB. rewrite length_rest. apply Nat.mod_upper_bound. lia. Qed.

Lemma full_blocks_short m : (length m < B)%nat -> full_blocks m = [] /\ rest m = m.
Proof using HB.
  intros H. unfold full_blocks, rest. rewrite Nat.div_small by done. by rewrite Nat.mul_0_r.
Qed.

Lemma div_step n : (B <= n)%nat -> (n / B = S ((n - B) / B))%nat.
Proof using HB.
  intros H. replace n with ((n - B) + 1 * B)%nat at 1 by lia. rewrite Nat.div_add by lia. lia.
Qed.

Lemma full_blocks_long m : (B <= length m)%nat ->
  full_blocks m = take B m :: full_blocks (drop B m) /\ rest m = rest (drop B m).
Proof using HB.
  intros H. unfold full_blocks, rest. rewrite length_drop, (div_step (length m)) by done.
  split; [done|]. rewrite drop_drop. f_equal. lia.
Qed.

Lemma full_blocks_app k : forall m1 m2, length m1 = (k * B)%nat ->
  full_blocks (m1 ++ m2) = full_blocks m1 ++ full_blocks m2 /\ rest (m1 ++ m2) = rest m2.
Proof using HB.
  induction k as [|k IH]; intros m1 m2 Hl.
  { destruct m1; [|done]. destruct (full_blocks_short []) as [E _]; [cbn; lia|]. by rewrite E. }
  destruct (full_blocks_long (m1 ++ m2)) as [-> ->]; [rewrite length_app; lia|].
  destruct (full_blocks_long m1) as [-> _]; [lia|].
  rewrite take_app_le, drop_app_le by lia. destruct (IH (drop B m1) m2) as [-> ->].
  { rewrite length_drop. lia. }
  done.
Qed.

(** Appending data to a message only concerns the bytes left over. *)
Lemma blocks_append m d :
  full_blocks (m ++ d) = full_blocks m ++ full_blocks (rest m ++ d) /\
  rest (m ++ d) = rest (rest m ++ d).
Proof using HB.
  set (n := (B * (length m / B))%nat). assert (n <= length m)%nat as Hn.
  { subst n. pose proof (Nat.div_mod (length m) B ltac:(lia)). lia. }
  assert (m = take n m ++ rest m) as Hm by (unfold rest; by rewrite take_drop).
  assert (length (take n m) = (length m / B) * B)%nat as Hl.
  { rewrite length_take. subst n. lia. }
  destruct (full_blocks_app _ (take n m) (rest m ++ d) Hl) as [E1 E2].
  destruct (full_blocks_app _ (take n m) (rest m) Hl) as [E3 _].
  destruct (full_blocks_short (rest m)) as [E4 _]; [apply rest_lt|].
  rewrite E4, app_nil_r in E3. rewrite app_assoc, <- Hm in E1, E2. rewrite <- Hm in E3.
  by rewrite E1, E2, E3.
Qed.

Lemma blocks_append_short m d : (length (rest m) + length d < B)%nat ->
  full_blocks (m ++ d) = full_blocks m /\ rest (m ++ d) = rest m ++ d.
Proof using HB.
  intros H. destruct (blocks_append m d) as [-> ->].
  destruct (full_blocks_short (rest m ++ d)) as [-> ->]; [by rewrite length_app|].
  by rewrite app_nil_r.
Qed.

Lemma blocks_append_long m d : (B <= length (rest m) + length d)%nat ->
  let k := (B - length (rest m))%nat in
  full_blocks (m ++ d) = full_blocks m ++ (rest m ++ take k d) :: full_blocks (drop k d) /\
  rest (m ++ d) = rest (drop k d).
Proof using HB.
  intros H k. pose proof (rest_lt m). destruct (blocks_append m d) as [-> ->].
  destruct (full_blocks_long (rest m ++ d)) as [-> ->]; [by rewrite length_app|].
  rewrite take_app_ge, drop_app_ge by lia. done.
Qed.

Lemma full_blocks_one m : length m = B -> full_blocks m = [m] /\ rest m = [].
Proof using HB.
  intros H. destruct (full_blocks_long m) as [-> ->]; [lia|].
  rewrite take_ge, drop_ge by lia. by destruct (full_blocks_short []) as [-> ->].
Qed.

Lemma full_blocks_cons a m : length a = B ->
  full_blocks (a ++ m) = a :: full_blocks m /\ rest (a ++ m) = rest m.
Proof using HB.
  intros H. destruct (full_blocks_app 1 a m) as [-> ->]; [lia|].
  by destruct (full_blocks_one a H) as [-> _].
Qed.
End Blocks.

(** The usual closing pad: a 1 bit, zero bytes, and [enc], the encoded length, to
    fill the last block. *)
Definition md_pad (B : nat) (enc m : list Z) : list Z :=
  m ++ [0x80] ++
  replicate ((2 * B - 1 - length enc - length m mod B) mod B) 0 ++ enc.

(** * The interface

    A digest context is fed pieces of a message and closed once.  [represents m c]
    says that context [c] is the one reached after the bytes [m], however they were
    cut into pieces. *)

Class Digest (ctx out : Type) := {
  d_init : ctx;
  d_update : ctx -> list Z -> option ctx;
  d_final : ctx -> option out;
  (** the pieces the implementation accepts, and the total it can count *)
  d_piece : list Z -> Prop;
  d_limit : Z;
  represents : list Z -> ctx -> Prop;
  reference : list Z -> out;
  represents_init : represents [] d_init;
  represents_update : forall m c d, represents m c -> bytes d -> d_piece d ->
    zlength (m ++ d) < d_limit ->
    exists c', d_update c d = Some c' /\ represents (m ++ d) c';
  final_reference : forall m c, represents m c -> zlength m < d_limit ->
    d_final c = Some (reference m);
}.

(** Feed a list of pieces. *)
Fixpoint feed `{Digest ctx out} (c : ctx) (pieces : list (list Z)) : option ctx :=
  match pieces with
  | [] => Some c
  | d :: pieces => let* c := d_update c d in feed c pieces
  end.

Lemma feed_represents `{Digest ctx out} pieces : forall m c, represents m c ->
  Forall bytes pieces -> Forall d_piece pieces -> zlength (m ++ concat pieces) < d_limit ->
  exists c', feed c pieces = Some c' /\ represents (m ++ concat pieces) c'.
Proof.
  induction pieces as [|d pieces IH]; intros m c Hc Hb Hp Hlim.
  { exists c. split; [done|]. cbn. by rewrite app_nil_r. }
  apply Forall_cons_1 in Hb as [Hb Hbs]. apply Forall_cons_1 in Hp as [Hp Hps].
  assert (zlength (m ++ d) < d_limit) as Hl.
  { cbn in Hlim. unfold zlength in *. rewrite !length_app in Hlim. rewrite length_app. lia. }
  destruct (represents_update m c d Hc Hb Hp Hl) as (c1 & E1 & H1).
  cbn [feed concat] in *. rewrite E1. cbn [mbind option_bind]. rewrite app_assoc in *. by apply IH.
Qed.

(** However a message is cut, the digest is the reference digest of the whole. *)
Lemma digest_pieces `{Digest ctx out} pieces :
  Forall bytes pieces -> Forall d_piece pieces -> zlength (concat pieces) < d_limit ->
  (let* c := feed d_init pieces in d_final c) = Some (reference (concat pieces)).
Proof.
  intros Hb Hp Hl.
  destruct (feed_represents pieces [] d_init represents_init Hb Hp Hl) as (c & E & Hc).
  rewrite E. cbn [mbind option_bind]. by apply final_reference.
Qed.

(** ** Copies and reads *)

Lemma memcpy_Some dst off src : 0 <= off -> off + zlength src <= zlength dst ->
  memcpy dst off src = Some (take (Z.to_nat off) dst ++ src ++ drop (Z.to_nat off + length src) dst).
Proof. intros. unfold memcpy. zcases; lia || done. Qed.

Lemma memcpy_length dst off src r : memcpy dst off src = Some r -> length r = length dst.
Proof.
  unfold memcpy, zlength. zcases; try done. intros [= <-].
  rewrite !length_app, length_take, length_drop. lia.
Qed.

(** A copy right after the bytes already held extends them. *)
Lemma memcpy_append dst (p : nat) src r : memcpy dst (Z.of_nat p) src = Some r ->
  take (p + length src) r = take p dst ++ src.
Proof.
  unfold memcpy, zlength. zcases; try done. intros [= <-]. rewrite Nat2Z.id, app_assoc.
  rewrite take_app_length'; [done|]. rewrite length_app, length_take. lia.
Qed.

Lemma read_bytes_Some n src : 0 <= n <= zlength src -> read_bytes n src = Some (take (Z.to_nat n) src).
Proof. intros. unfold read_bytes. zcases; lia || done. Qed.

Lemma le_bytes_length n z : length (le_bytes n z) = n.
Proof. revert z. induction n as [|n IH]; intros z; cbn; [done|]. by rewrite IH. Qed.

Lemma be_bytes_length n z : length (be_bytes n z) = n.
Proof. unfold be_bytes. by rewrite length_rev, le_bytes_length. Qed.

Lemma le_bytes_bytes n z : bytes (le_bytes n z).
Proof.
  revert z. induction n as [|n IH]; intros z; cbn; [constructor|]. constructor; [|apply IH].
  unfold is_word. apply Z.mod_pos_bound. lia.
Qed.

Lemma be_bytes_bytes n z : bytes (be_bytes n z).
Proof. apply Forall_rev, le_bytes_bytes. Qed.

Lemma le_value_bytes n z : le_value (le_bytes n z) = z mod 2 ^ (8 * Z.of_nat n).
Proof.
  revert z. induction n as [|n IH]; intros z; cbn [le_bytes le_value]; [by rewrite Z.mod_1_r|].
  rewrite IH. replace (8 * Z.of_nat (S n)) with (8 + 8 * Z.of_nat n) by lia.
  rewrite Z.pow_add_r by lia. change (2 ^ 8) with 256. rewrite Z.rem_mul_r by lia. done.
Qed.

Lemma le_bytes_app n k z : le_bytes (n + k) z = le_bytes n z ++ le_bytes k (z / 2 ^ (8 * Z.of_nat n)).
Proof.
  revert z. induction n as [|n IH]; intros z; cbn [le_bytes Nat.add app].
  { cbn. by rewrite Z.div_1_r. }
  rewrite IH. do 2 f_equal. rewrite Z.div_div by lia. f_equal. f_equal.
  replace (8 * Z.of_nat (S n)) with (8 + 8 * Z.of_nat n) by lia. by rewrite Z.pow_add_r by lia.
Qed.

Lemma le_bytes_mod n z : le_bytes n z = le_bytes n (z mod 2 ^ (8 * Z.of_nat n)).
Proof.
  revert z. induction n as [|n IH]; intros z; cbn [le_bytes]; [done|].
  replace (8 * Z.of_nat (S n)) with (8 + 8 * Z.of_nat n) by lia.
  rewrite Z.pow_add_r by lia. change (2 ^ 8) with 256. pose proof (Z.pow_pos_nonneg 2 (8 * Z.of_nat n)).
  rewrite Z.rem_mul_r by lia. f_equal.
  - rewrite Z.mul_comm, Z.mod_add by lia. by rewrite Z.mod_mod by lia.
  - rewrite (Z.mul_comm 256), Z.div_add by lia. rewrite (Z.div_small (z mod 256)) by (apply Z.mod_pos_bound; lia).
    by rewrite IH.
Qed.

(** * Contexts that buffer an incomplete block *)

Section Buffered.
Context {S : Type} (B : nat) (HB : (0 < B)%nat) (f : S -> list Z -> S) (init : S).

(** The state after the complete blocks of [m], and a buffer that starts with the
    bytes left over. *)
Definition buffered (m : list Z) (st : S) (buf : list Z) : Prop :=
  st = fold_left f (full_blocks B m) init /\ length buf = B /\
  take (length (rest B m)) buf = rest B m.

Lemma buffered_init buf : length buf = B -> buffered [] init buf.
Proof using HB.
  intros H. destruct (full_blocks_short B HB []) as [E1 E2]; [done|].
  unfold buffered. by rewrite E1, E2.
Qed.

Lemma buffered_short m st buf d : buffered m st buf -> (length (rest B m) + length d < B)%nat ->
  exists buf', memcpy buf (Z.of_nat (length (rest B m))) d = Some buf' /\ buffered (m ++ d) st buf'.
Proof using HB.
  intros (-> & Hlen & Htake) Hlt.
  destruct (blocks_append_short B HB m d Hlt) as [E1 E2].
  rewrite memcpy_Some by (unfold zlength; lia). eexists. split; [done|].
  unfold buffered. rewrite E1, E2. split; [done|]. split.
  - rewrite !length_app, length_take, length_drop. lia.
  - rewrite Nat2Z.id, Htake, app_assoc. rewrite take_app_length; done.
Qed.

Lemma buffered_long m st buf d : buffered m st buf -> (B <= length (rest B m) + length d)%nat ->
  let k := (B - length (rest B m))%nat in
  memcpy buf (Z.of_nat (length (rest B m))) (take k d) = Some (rest B m ++ take k d) /\
  fold_left f (full_blocks B (m ++ d)) init =
    fold_left f (full_blocks B (drop k d)) (f st (rest B m ++ take k d)) /\
  rest B (m ++ d) = rest B (drop k d) /\ (k <= length d)%nat.
Proof using HB.
  intros (-> & Hlen & Htake) Hge k. pose proof (rest_lt B HB m).
  destruct (blocks_append_long B HB m d Hge) as [E1 E2].
  assert (length (take k d) = k) as Hk by (rewrite length_take; lia).
  split; [|split; [by rewrite E1, fold_left_app|split; [done|lia]]].
  rewrite memcpy_Some by (unfold zlength; lia). f_equal. rewrite Nat2Z.id, Htake, Hk.
  rewrite (drop_ge buf) by lia. by rewrite app_nil_r.
Qed.

(** Storing the last bytes of the data at the start of the buffer. *)
Lemma buffered_store m st buf x : st = fold_left f (full_blocks B m) init -> length buf = B ->
  rest B m = rest B x ->
  exists buf', memcpy buf 0 (rest B x) = Some buf' /\ buffered m st buf'.
Proof using HB.
  intros -> Hlen Hx. pose proof (rest_lt B HB x).
  rewrite memcpy_Some by (unfold zlength; lia). eexists. split; [done|].
  unfold buffered. rewrite Hx. split; [done|]. change (Z.to_nat 0) with 0%nat. rewrite take_0, app_nil_l, Nat.add_0_l. split.
  - rewrite length_app, length_drop. lia.
  - by rewrite take_app_length.
Qed.

(** The blocks of a padded message, for a closing pad that fits in the last block
    and for one that needs another block. *)
Lemma pad_blocks_one m enc st : st = fold_left f (full_blocks B m) init ->
  (length (rest B m) + 1 + length enc <= B)%nat ->
  fold_left f (full_blocks B (md_pad B enc m)) init =
  f st (rest B m ++ [0x80] ++ replicate (B - 1 - length enc - length (rest B m)) 0 ++ enc).
Proof using HB.
  intros -> Hle. unfold md_pad. pose proof (length_rest B HB m) as Hr. rewrite <- Hr.
  replace ((2 * B - 1 - length enc - length (rest B m)) mod B)%nat
    with (B - 1 - length enc - length (rest B m))%nat.
  2: { apply Nat.mod_unique with 1%nat; lia. }
  destruct (blocks_append B HB m ([0x80] ++ replicate (B - 1 - length enc - length (rest B m)) 0 ++ enc))
    as [-> _].
  destruct (full_blocks_one B HB
    (rest B m ++ [0x80] ++ replicate (B - 1 - length enc - length (rest B m)) 0 ++ enc)) as [-> _].
  { rewrite !length_app, length_replicate. cbn [length]. lia. }
  by rewrite fold_left_app.
Qed.

Lemma pad_blocks_two m enc st : st = fold_left f (full_blocks B m) init ->
  (B < length (rest B m) + 1 + length enc)%nat -> (length enc < B)%nat ->
  fold_left f (full_blocks B (md_pad B enc m)) init =
  f (f st (rest B m ++ [0x80] ++ replicate (B - 1 - length (rest B m)) 0))
    (replicate (B - length enc) 0 ++ enc).
Proof using HB.
  intros -> Hgt He. unfold md_pad. pose proof (length_rest B HB m) as Hr. rewrite <- Hr.
  pose proof (rest_lt B HB m).
  replace ((2 * B - 1 - length enc - length (rest B m)) mod B)%nat
    with ((B - 1 - length (rest B m)) + (B - length enc))%nat.
  2: { apply Nat.mod_unique with 0%nat; lia. }
  rewrite replicate_add. destruct (blocks_append B HB m ([0x80] ++
    (replicate (B - 1 - length (rest B m)) 0 ++ replicate (B - length enc) 0) ++ enc)) as [-> _].
  rewrite fold_left_app. rewrite <- !app_assoc, !(app_assoc (rest B m)), (app_assoc _ (replicate _ _) (_ ++ enc)).
  destruct (full_blocks_cons B HB ((rest B m ++ [0x80]) ++ replicate (B - 1 - length (rest B m)) 0)
    (replicate (B - length enc) 0 ++ enc)) as [-> _].
  { rewrite !length_app, length_replicate. cbn [length]. lia. }
  destruct (full_blocks_one B HB (replicate (B - length enc) 0 ++ enc)) as [-> _].
  { rewrite length_app, length_replicate. lia. }
  done.
Qed.
End Buffered.

(** The low six bits of a byte counter locate the buffered bytes. *)
Lemma count_rest w k m : 0 <= k <= w ->
  Z.land (wrap w (zlength m)) (Z.ones k) = Z.of_nat (length (rest (Z.to_nat (2 ^ k)) m)).
Proof.
  intros Hk. pose proof (Z.pow_pos_nonneg 2 k).
  rewrite length_rest by lia. rewrite Z.land_ones by lia. unfold wrap, zlength.
  replace w with (k + (w - k)) by lia. rewrite Z.pow_add_r by lia.
  pose proof (Z.pow_pos_nonneg 2 (w - k)).
  rewrite Z.rem_mul_r by lia. rewrite Z.mul_comm, Z.mod_add, Z.mod_mod by lia.
  rewrite Nat2Z.inj_mod. by rewrite Z2Nat.id by lia.
Qed.

(** A copy that fits extends the prefix written so far and keeps the length. *)
Lemma memcpy_extend dst (p : nat) src off : off = Z.of_nat p -> (p + length src <= length dst)%nat ->
  exists r, memcpy dst off src = Some r /\ length r = length dst /\
    take (p + length src) r = take p dst ++ src.
Proof.
  intros -> H. rewrite memcpy_Some by (unfold zlength; lia). eexists. split; [done|]. split.
  - rewrite !length_app, length_take, length_drop. lia.
  - rewrite Nat2Z.id, app_assoc. rewrite take_app_length'; [done|]. rewrite length_app, length_take. lia.
Qed.

Lemma memset_extend dst (p n : nat) v off k : off = Z.of_nat p -> k = Z.of_nat n -> (p + n <= length dst)%nat ->
  exists r, memset dst off v k = Some r /\ length r = length dst /\
    take (p + n) r = take p dst ++ replicate n v.
Proof.
  intros -> -> H. unfold memset. zcases; [lia|]. rewrite Nat2Z.id.
  destruct (memcpy_extend dst p (replicate n v) _ eq_refl) as (r & E & Hl & Ht).
  { by rewrite length_replicate. }
  exists r. by rewrite length_replicate in Ht.
Qed.

Lemma count_append w (m d : list Z) : wrap w (wrap w (zlength m) + zlength d) = wrap w (zlength (m ++ d)).
Proof. rewrite wrap_add_l. unfold zlength. by rewrite length_app, Nat2Z.inj_add. Qed.

(** A 64-bit length stored as two 32-bit halves. *)
Lemma le_bytes_halves z : 0 <= z ->
  le_bytes 4 (wrap 32 z) ++ le_bytes 4 (wrap 32 (z / 2 ^ 32)) = le_bytes 8 z.
Proof.
  intros Hz. rewrite (le_bytes_app 4 4). rewrite (le_bytes_mod 4 z), (le_bytes_mod 4 (z / _)). done.
Qed.

(** ** Padding by further updates

    The SHA implementations close a message by updating with the pad, then with the
    encoded length. *)

Definition pad_first (B : nat) (enc m : list Z) : nat :=
  ((2 * B - 1 - length enc - length m mod B) mod B + 1)%nat.

Lemma md_pad_updates B enc m : (0 < B)%nat ->
  md_pad B enc m = (m ++ take (pad_first B enc m) (0x80 :: replicate (B - 1) 0)) ++ enc.
Proof.
  intros HB. unfold md_pad, pad_first. set (k := ((_ - _) mod B)%nat).
  assert (k < B)%nat by (apply Nat.mod_upper_bound; lia).
  rewrite Nat.add_1_r, firstn_cons, take_replicate, Nat.min_l by lia.
  by rewrite <- !app_assoc.
Qed.

Lemma length_md_pad B enc m : (0 < B)%nat -> (length enc < B)%nat ->
  exists k, length (md_pad B enc m) = (k * B)%nat.
Proof.
  intros HB He. unfold md_pad. rewrite !length_app, length_replicate. cbn [length].
  pose proof (Nat.div_mod (length m) B ltac:(lia)) as E.
  pose proof (Nat.mod_upper_bound (length m) B ltac:(lia)) as Hr. set (r := (length m mod B)%nat) in *.
  pose proof (Nat.div_mod (2 * B - 1 - length enc - r) B ltac:(lia)) as E2.
  set (q := ((2 * B - 1 - length enc - r) / B)%nat) in *. set (z := ((_ - r) mod B)%nat) in *.
  exists (length m / B + 2 - q)%nat.
  rewrite Nat.mul_sub_distr_r, Nat.mul_add_distr_r, (Nat.mul_comm q), (Nat.mul_comm (length m / B)). lia.
Qed.

(** * Message schedules

    A list built word by word, each from the words before it; and the same words
    written in order into an array. *)

Fixpoint unroll (g : nat -> list Z -> Z) (n : nat) : list Z :=
  match n with
  | O => []
  | S t => let w := unroll g t in w ++ [g t w]
  end.

Lemma unroll_length g n : length (unroll g n) = n.
Proof. induction n as [|n IH]; cbn; [done|]. rewrite length_app, IH. cbn. lia. Qed.

Lemma take_unroll g n t : (t <= n)%nat -> take t (unroll g n) = unroll g t.
Proof.
  induction n as [|n IH]; intros Ht; [by assert (t = 0)%nat as -> by lia|].
  destruct (decide (t = S n)) as [->|]; [by rewrite take_ge by (rewrite unroll_length; lia)|].
  cbn [unroll]. rewrite take_app_le by (rewrite unroll_length; lia). apply IH. lia.
Qed.

Lemma nth_take_lt {A} (l : list A) t i d : (i < t)%nat -> nth i (take t l) d = nth i l d.
Proof.
  revert l i. induction t as [|t IH]; intros l i Hi; [lia|].
  destruct l as [|x l]; [done|]. destruct i as [|i]; [done|]. cbn. apply IH. lia.
Qed.

Lemma nth_unroll_le g n t i : (i < t)%nat -> (t <= n)%nat ->
  nth i (unroll g t) 0 = nth i (unroll g n) 0.
Proof. intros. rewrite <- (take_unroll g n t) by lia. apply nth_take_lt. lia. Qed.

Lemma nth_unroll g n t : (t < n)%nat -> nth t (unroll g n) 0 = g t (unroll g t).
Proof.
  intros Ht. rewrite <- (nth_unroll_le g n (S t)) by lia. cbn [unroll].
  rewrite app_nth2; rewrite unroll_length; [|lia]. by rewrite Nat.sub_diag.
Qed.

Definition store (g : nat -> list Z -> Z) (W : list Z) (t : nat) : list Z := <[t := g t W]> W.

Lemma store_unroll g : (forall t W, g t W = g t (take t W)) ->
  forall n W, (n <= length W)%nat -> fold_left (store g) (seq 0 n) W = unroll g n ++ drop n W.
Proof.
  intros Hg n W Hn. induction n as [|n IH]; [done|].
  rewrite seq_S, fold_left_app, IH by lia. cbn [fold_left Nat.add unroll]. unfold store.
  rewrite Hg, take_app_length', insert_app_r_alt by (rewrite unroll_length; lia).
  rewrite unroll_length, Nat.sub_diag, <- app_assoc. f_equal. cbn [app].
  destruct (drop n W) as [|x l] eqn:E.
  { apply (f_equal length) in E. rewrite length_drop in E. cbn in E. lia. }
  cbn [insert list_insert]. f_equal. rewrite <- Nat.add_1_r, <- drop_drop, E. done.
Qed.

(** * The do-while loop of the implementations that transform in place

    [do { transform(src); done += B; src = data + done; } while (done + (B - 1) < len)]
    with [unsigned int] counters, where the first block may lie in the context's buffer
    and [done] start below zero. *)

Section DoBlocks.
Context {St : Type} (B : nat) (HB : (0 < B)%nat /\ Z.of_nat B < 2 ^ 16) (f : St -> list Z -> St).

Fixpoint do_blocks (fuel : nat) (st : St) (src data : list Z) (don : Z) : option (St * list Z * Z) :=
  match fuel with
  | O => None
  | S fuel =>
      let* blk := read_bytes (Z.of_nat B) src in
      let st := f st blk in
      let don := addw 32 don (Z.of_nat B) in
      let src := drop (Z.to_nat don) data in
      if addw 32 don (Z.of_nat B - 1) <? zlength data then do_blocks fuel st src data don
      else Some (st, src, don)
  end.

(** From a first block taken from [src] and [k] bytes of the data behind it. *)
Lemma do_blocks_spec fuel : forall st src data don k,
  addw 32 don (Z.of_nat B) = Z.of_nat k -> (k <= length data)%nat -> (length data - k < fuel)%nat ->
  zlength data < 2 ^ 32 - Z.of_nat B -> (B <= length src)%nat ->
  exists don', do_blocks fuel st src data don = Some
    (fold_left f (full_blocks B (drop k data)) (f st (take B src)),
     rest B (drop k data), don') /\
    subw 32 (zlength data) don' = zlength (rest B (drop k data)).
Proof using HB.
  induction fuel as [|fuel IH]; intros st src data don k Hdon Hk Hf Hlim Hsrc; [lia|]. cbn [do_blocks].
  rewrite read_bytes_Some by (unfold zlength; lia). cbn [mbind option_bind]. rewrite Hdon.
  rewrite !Nat2Z.id. unfold zlength in *.
  assert (addw 32 (Z.of_nat k) (Z.of_nat B - 1) = Z.of_nat k + (Z.of_nat B - 1)) as ->.
  { apply wrap_small. unfold is_word. lia. }
  destruct (Z.ltb_spec (Z.of_nat k + (Z.of_nat B - 1)) (Z.of_nat (length data))).
  - destruct (full_blocks_long B ltac:(lia) (drop k data)) as [-> ->]; [rewrite length_drop; lia|].
    rewrite fold_left_cons, drop_drop.
    apply IH; [|lia|lia|done|rewrite length_drop; lia].
    unfold addw. rewrite wrap_small by (unfold is_word; lia). lia.
  - destruct (full_blocks_short B ltac:(lia) (drop k data)) as [-> ->]; [rewrite length_drop; lia|].
    exists (Z.of_nat k). split; [reflexivity|].
    unfold subw. rewrite length_drop, wrap_small by (unfold is_word; lia). lia.
Qed.
End DoBlocks.

(** A copy that fits a prefix of the buffer acts on that prefix. *)
Lemma memcpy_prefix B dst off src r : (B <= length dst)%nat -> memcpy (take B dst) off src = Some r ->
  exists r', memcpy dst off src = Some r' /\ take B r' = r /\ length r' = length dst.
Proof.
  intros HB. unfold memcpy, zlength. rewrite length_take, Nat.min_l by done.
  destruct (Z.leb_spec 0 off) as [H1|H1]; [|done].
  destruct (Z.leb_spec (off + Z.of_nat (length src)) (Z.of_nat B)) as [H2|H2]; [|done]. intros [= <-].
  destruct (Z.leb_spec (off + Z.of_nat (length src)) (Z.of_nat (length dst))) as [H3|H3]; [|lia].
  eexists. split; [done|]. split.
  - rewrite take_take, Nat.min_l by lia. rewrite app_assoc, take_app_ge by (rewrite length_app, length_take; lia).
    rewrite <- app_assoc. do 2 f_equal. rewrite length_app, length_take, Nat.min_l by lia.
    rewrite take_drop_commute. f_equal. f_equal. lia.
  - rewrite !length_app, length_take, length_drop. lia.
Qed.
