(* ===== verification/Md5.v ===== *)
(** crc/md5.c: the MD5 digest. *)
From S2P Require Import Prelude Stream.
Local Open Scope word_scope.

Definition F1 (x y z : Z) : Z := z ^^ (x & (y ^^ z)).
Definition F2 (x y z : Z) : Z := F1 z x y.
Definition F3 (x y z : Z) : Z := x ^^ y ^^ z.
Definition F4 (x y z : Z) : Z := y ^^ Z.lor x (notw 32 z).

(** [MD5STEP(f, w, x, y, z, in, s)]: the new value of [w]. *)
Definition MD5STEP (f : Z -> Z -> Z -> Z) (w x y z inp s : Z) : Z :=
  let w := addw 32 w (addw 32 (f x y z) inp) in
  addw 32 (Z.lor (shlw 32 w s) (w >> (32 - s))) x.

(** The 64 calls of [md5_transform]: function, input word, constant, rotation. *)
Definition md5_steps : list ((Z -> Z -> Z -> Z) * nat * Z * Z) := [
  (F1, 0%nat, 0xd76aa478, 7); (F1, 1%nat, 0xe8c7b756, 12);
  (F1, 2%nat, 0x242070db, 17); (F1, 3%nat, 0xc1bdceee, 22);
  (F1, 4%nat, 0xf57c0faf, 7); (F1, 5%nat, 0x4787c62a, 12);
  (F1, 6%nat, 0xa8304613, 17); (F1, 7%nat, 0xfd469501, 22);
  (F1, 8%nat, 0x698098d8, 7); (F1, 9%nat, 0x8b44f7af, 12);
  (F1, 10%nat, 0xffff5bb1, 17); (F1, 11%nat, 0x895cd7be, 22);
  (F1, 12%nat, 0x6b901122, 7); (F1, 13%nat, 0xfd987193, 12);
  (F1, 14%nat, 0xa679438e, 17); (F1, 15%nat, 0x49b40821, 22);
  (F2, 1%nat, 0xf61e2562, 5); (F2, 6%nat, 0xc040b340, 9);
  (F2, 11%nat, 0x265e5a51, 14); (F2, 0%nat, 0xe9b6c7aa, 20);
  (F2, 5%nat, 0xd62f105d, 5); (F2, 10%nat, 0x02441453, 9);
  (F2, 15%nat, 0xd8a1e681, 14); (F2, 4%nat, 0xe7d3fbc8, 20);
  (F2, 9%nat, 0x21e1cde6, 5); (F2, 14%nat, 0xc33707d6, 9);
  (F2, 3%nat, 0xf4d50d87, 14); (F2, 8%nat, 0x455a14ed, 20);
  (F2, 13%nat, 0xa9e3e905, 5); (F2, 2%nat, 0xfcefa3f8, 9);
  (F2, 7%nat, 0x676f02d9, 14); (F2, 12%nat, 0x8d2a4c8a, 20);
  (F3, 5%nat, 0xfffa3942, 4); (F3, 8%nat, 0x8771f681, 11);
  (F3, 11%nat, 0x6d9d6122, 16); (F3, 14%nat, 0xfde5380c, 23);
  (F3, 1%nat, 0xa4beea44, 4); (F3, 4%nat, 0x4bdecfa9, 11);
  (F3, 7%nat, 0xf6bb4b60, 16); (F3, 10%nat, 0xbebfbc70, 23);
  (F3, 13%nat, 0x289b7ec6, 4); (F3, 0%nat, 0xeaa127fa, 11);
  (F3, 3%nat, 0xd4ef3085, 16); (F3, 6%nat, 0x04881d05, 23);
  (F3, 9%nat, 0xd9d4d039, 4); (F3, 12%nat, 0xe6db99e5, 11);
  (F3, 15%nat, 0x1fa27cf8, 16); (F3, 2%nat, 0xc4ac5665, 23);
  (F4, 0%nat, 0xf4292244, 6); (F4, 7%nat, 0x432aff97, 10);
  (F4, 14%nat, 0xab9423a7, 15); (F4, 5%nat, 0xfc93a039, 21);
  (F4, 12%nat, 0x655b59c3, 6); (F4, 3%nat, 0x8f0ccc92, 10);
  (F4, 10%nat, 0xffeff47d, 15); (F4, 1%nat, 0x85845dd1, 21);
  (F4, 8%nat, 0x6fa87e4f, 6); (F4, 15%nat, 0xfe2ce6e0, 10);
  (F4, 6%nat, 0xa3014314, 15); (F4, 13%nat, 0x4e0811a1, 21);
  (F4, 4%nat, 0xf7537e82, 6); (F4, 11%nat, 0xbd3af235, 10);
  (F4, 2%nat, 0x2ad7d2bb, 15); (F4, 9%nat, 0xeb86d391, 21) ].

(** Each call names the registers one place further on: [(a, b, c, d)], then
    [(d, a, b, c)], and so on; 64 calls bring them back. *)
Definition md5_call (inp : list Z) (r : Z * Z * Z * Z)
    (st : (Z -> Z -> Z -> Z) * nat * Z * Z) : Z * Z * Z * Z :=
  let '(w, x, y, z) := r in
  let '(f, k, c, s) := st in
  (z, MD5STEP f w x y z (addw 32 (nth k inp 0) c) s, x, y).

Definition md5_transform (hash inp : list Z) : list Z :=
  let a := tbl hash 0 in let b := tbl hash 1 in let c := tbl hash 2 in let d := tbl hash 3 in
  let '(a', b', c', d') := fold_left (md5_call inp) md5_steps (a, b, c, d) in
  [addw 32 a a'; addw 32 b b'; addw 32 c c'; addw 32 d d'].

(** The 64-byte block as sixteen [uint32_t] of a little-endian host. *)
Definition block_words (block : list Z) : list Z := word_le 4 block <$> seq 0 16.

Record fio_md5_ctx : Type := mk_md5 {
  hash : list Z;
  block : list Z;
  byte_count : Z;
}.

Definition md5_initial : list Z := [0x67452301; 0xefcdab89; 0x98badcfe; 0x10325476].

(** [fio_md5_init] sets the hash only: the caller zeroes the rest of the context. *)
Definition fio_md5_init (mctx : fio_md5_ctx) : fio_md5_ctx :=
  mk_md5 md5_initial (block mctx) (byte_count mctx).

Definition md5_block (hash block : list Z) : list Z := md5_transform hash (block_words block).

(** [while (len >= sizeof(mctx->block))] *)
Fixpoint md5_loop (fuel : nat) (hash block data : list Z) : option (list Z * list Z * list Z) :=
  match fuel with
  | O => Some (hash, block, data)
  | S fuel =>
      if 64 <=? zlength data then
        let* d := read_bytes 64 data in
        let* block := memcpy block 0 d in
        md5_loop fuel (md5_block hash block) block (drop 64 data)
      else Some (hash, block, data)
  end.

(** [len] is the length of [data]; each iteration of the loop consumes 64 bytes. *)
Definition fio_md5_update (mctx : fio_md5_ctx) (data : list Z) : option fio_md5_ctx :=
  let len := zlength data in
  let avail := 64 - Z.land (byte_count mctx) 0x3f in
  let count := addw 64 (byte_count mctx) len in
  if len <? avail then
    let* blk := memcpy (block mctx) (64 - avail) data in
    Some (mk_md5 (hash mctx) blk count)
  else
    let* d := read_bytes avail data in
    let* blk := memcpy (block mctx) (64 - avail) d in
    let h := md5_block (hash mctx) blk in
    let* '(h, blk, data) := md5_loop (length data) h blk (drop (Z.to_nat avail) data) in
    let* blk := memcpy blk 0 data in
    Some (mk_md5 h blk count).

Definition fio_md5_final (mctx : fio_md5_ctx) : option (list Z) :=
  let offset := Z.land (byte_count mctx) 0x3f in
  let padding := 56 - (offset + 1) in
  let* blk := memcpy (block mctx) offset [0x80] in
  let* '(h, blk, p, padding) :=
    (if padding <? 0 then
       let* blk := memset blk (offset + 1) 0 (padding + 8) in
       Some (md5_block (hash mctx) blk, blk, 0, 56)
     else Some (hash mctx, blk, offset + 1, padding)) in
  let* blk := memset blk p 0 padding in
  let* blk := memcpy blk 56 (le_bytes 4 (shlw 32 (byte_count mctx) 3)) in
  let* blk := memcpy blk 60 (le_bytes 4 (wrap 32 (byte_count mctx >> 29))) in
  Some (md5_block h blk).

(** A context as fio sets it up: zeroed, then initialised. *)
Definition md5_start : fio_md5_ctx := fio_md5_init (mk_md5 [0; 0; 0; 0] (replicate 64 0) 0).

(** ** RFC 1321

    The compression function as the RFC tabulates it: round [i / 16] fixes the
    auxiliary function and the order in which the input words are taken, step [i] its
    constant and its rotation. *)

Definition rfc_F (x y z : Z) : Z := Z.lor (x & y) (Z.lnot x & z).
Definition rfc_G (x y z : Z) : Z := Z.lor (x & z) (y & Z.lnot z).
Definition rfc_H (x y z : Z) : Z := x ^^ y ^^ z.
Definition rfc_I (x y z : Z) : Z := y ^^ Z.lor x (notw 32 z).

Definition rfc_round (i : nat) : (Z -> Z -> Z -> Z) * nat * list Z :=
  match (i / 16)%nat with
  | 0%nat => (rfc_F, i, [7; 12; 17; 22])
  | 1%nat => (rfc_G, (5 * i + 1)%nat, [5; 9; 14; 20])
  | 2%nat => (rfc_H, (3 * i + 5)%nat, [4; 11; 16; 23])
  | _ => (rfc_I, (7 * i)%nat, [6; 10; 15; 21])
  end.

Definition rfc_T : list Z := [
  0xd76aa478; 0xe8c7b756; 0x242070db; 0xc1bdceee; 0xf57c0faf; 0x4787c62a; 0xa8304613; 0xfd469501;
  0x698098d8; 0x8b44f7af; 0xffff5bb1; 0x895cd7be; 0x6b901122; 0xfd987193; 0xa679438e; 0x49b40821;
  0xf61e2562; 0xc040b340; 0x265e5a51; 0xe9b6c7aa; 0xd62f105d; 0x02441453; 0xd8a1e681; 0xe7d3fbc8;
  0x21e1cde6; 0xc33707d6; 0xf4d50d87; 0x455a14ed; 0xa9e3e905; 0xfcefa3f8; 0x676f02d9; 0x8d2a4c8a;
  0xfffa3942; 0x8771f681; 0x6d9d6122; 0xfde5380c; 0xa4beea44; 0x4bdecfa9; 0xf6bb4b60; 0xbebfbc70;
  0x289b7ec6; 0xeaa127fa; 0xd4ef3085; 0x04881d05; 0xd9d4d039; 0xe6db99e5; 0x1fa27cf8; 0xc4ac5665;
  0xf4292244; 0x432aff97; 0xab9423a7; 0xfc93a039; 0x655b59c3; 0x8f0ccc92; 0xffeff47d; 0x85845dd1;
  0x6fa87e4f; 0xfe2ce6e0; 0xa3014314; 0x4e0811a1; 0xf7537e82; 0xbd3af235; 0x2ad7d2bb; 0xeb86d391].

Definition rfc_step (X : list Z) (r : Z * Z * Z * Z) (i : nat) : Z * Z * Z * Z :=
  let '(a, b, c, d) := r in
  let '(f, k, s) := rfc_round i in
  (d, addw 32 b (rolw 32 (wrap 32 (a + f b c d + nth (k mod 16) X 0 + nth i rfc_T 0)) (nth (i mod 4) s 0)), b, c).

Definition rfc_compress (h blk : list Z) : list Z :=
  let a := tbl h 0 in let b := tbl h 1 in let c := tbl h 2 in let d := tbl h 3 in
  let '(a', b', c', d') := fold_left (rfc_step (block_words blk)) (seq 0 64) (a, b, c, d) in
  [addw 32 a a'; addw 32 b b'; addw 32 c c'; addw 32 d d'].

(** Padding, then the compression function over the blocks. *)
Definition md5_reference (m : list Z) : list Z :=
  fold_left rfc_compress (full_blocks 64 (md_pad 64 (le_bytes 8 (8 * zlength m)) m)) md5_initial.

Example md5_reference_abc :
  concat (le_bytes 4 <$> md5_reference [0x61; 0x62; 0x63]) =
  [0x90; 0x01; 0x50; 0x98; 0x3c; 0xd2; 0x4f; 0xb0; 0xd6; 0x96; 0x3f; 0x7d; 0x28; 0xe1; 0x7f; 0x72].
Proof. vm_compute. reflexivity. Qed.

Example md5_abc :
  (let* c := fio_md5_update md5_start [0x61; 0x62; 0x63] in
   let* h := fio_md5_final c in Some (concat (le_bytes 4 <$> h))) =
  Some [0x90; 0x01; 0x50; 0x98; 0x3c; 0xd2; 0x4f; 0xb0; 0xd6; 0x96; 0x3f; 0x7d; 0x28; 0xe1; 0x7f; 0x72].
Proof. vm_compute. reflexivity. Qed.

(** * Proofs *)

(** ** The transform is the one of the RFC *)

Lemma F1_rfc x y z : F1 x y z = rfc_F x y z.
Proof. unfold F1, rfc_F. bits. Qed.
Lemma F2_rfc x y z : F2 x y z = rfc_G x y z.
Proof. unfold F2, F1, rfc_G. bits. Qed.

Definition rfc_call (i : nat) : (Z -> Z -> Z -> Z) * nat * Z * Z :=
  let '(f, k, s) := rfc_round i in (f, (k mod 16)%nat, nth i rfc_T 0, nth (i mod 4) s 0).

(** Calls that agree on everything but the spelling of the auxiliary function. *)
Definition same_call (p q : (Z -> Z -> Z -> Z) * nat * Z * Z) : Prop :=
  let '(f, k, c, s) := p in let '(f', k', c', s') := q in
  (forall x y z, f x y z = f' x y z) /\ k = k' /\ c = c' /\ s = s'.

Lemma md5_steps_rfc : Forall2 same_call md5_steps (rfc_call <$> seq 0 64).
Proof.
  cbv -[F1 F2 F3 F4 rfc_F rfc_G rfc_H rfc_I same_call].
  repeat (constructor; [split; [intros; first [apply F1_rfc | apply F2_rfc | reflexivity]|done]|]).
  constructor.
Qed.

Lemma md5_call_rfc X r p i : same_call p (rfc_call i) -> md5_call X r p = rfc_step X r i.
Proof.
  destruct r as [[[a b] c] d], p as [[[f k] t] s]. unfold rfc_call, rfc_step.
  destruct (rfc_round i) as [[g k'] ss]. intros (Hf & -> & -> & ->). unfold md5_call, MD5STEP.
  rewrite Hf. set (x := nth (k' mod 16) X 0). set (c' := nth i rfc_T 0).
  assert (addw 32 a (addw 32 (g b c d) (addw 32 x c')) = wrap 32 (a + g b c d + x + c')) as ->.
  { wraps. f_equal.
lia. }
  do 3 f_equal. unfold addw. by rewrite Z.add_comm.
Qed.

Lemma md5_block_rfc h blk : md5_block h blk = rfc_compress h blk.
Proof.
  unfold md5_block, md5_transform, rfc_compress.
  enough (forall r, fold_left (md5_call (block_words blk)) md5_steps r =
    fold_left (rfc_step (block_words blk)) (seq 0 64) r) as -> by done.
  generalize md5_steps_rfc. generalize (seq 0 64). intros l. generalize md5_steps.
  induction l as [|i l IH]; intros ps Hps r.
  - by apply Forall2_nil_inv_r in Hps as ->.
  - apply Forall2_cons_inv_r in Hps as (p & ps' & Hp & Hps & ->).
    rewrite !fold_left_cons, (md5_call_rfc _ _ _ i) by done. by apply IH.
Qed.

#[local] Opaque md5_block rfc_compress.

Lemma md5_loop_spec fuel : forall h blk data, (length data <= fuel)%nat -> length blk = 64%nat ->
  exists blk', md5_loop fuel h blk data =
    Some (fold_left md5_block (full_blocks 64 data) h, blk', rest 64 data) /\ length blk' = 64%nat.
Proof.
  induction fuel as [|fuel IH]; intros h blk data Hf Hb; cbn [md5_loop].
  - destruct data; [|cbn in Hf; lia]. by exists blk.
  - unfold zlength. destruct (Z.leb_spec 64 (Z.of_nat (length data))).
    + rewrite read_bytes_Some by (unfold zlength; lia). change (Z.to_nat 64) with 64%nat.
      assert (length (take 64 data) = 64%nat) as Hl by (rewrite length_take; lia).
      cbn [mbind option_bind]. rewrite memcpy_Some by (unfold zlength; lia).
      cbn [mbind option_bind]. rewrite Hl, drop_ge, app_nil_r by (cbn; lia).
      change (take (Z.to_nat 0) blk) with (@nil Z). rewrite app_nil_l.
      destruct (IH (md5_block h (take 64 data)) (take 64 data) (drop 64 data)) as (blk' & -> & Hb');
        [rewrite length_drop; lia|done|].
      exists blk'. destruct (full_blocks_long 64 ltac:(lia) data) as [-> ->]; [lia|].
      rewrite fold_left_cons. split; [reflexivity|done].
    + exists blk. destruct (full_blocks_short 64 ltac:(lia) data) as [-> ->]; [lia|]. done.
Qed.

Definition md5_represents (m : list Z) (c : fio_md5_ctx) : Prop :=
  buffered 64 md5_block md5_initial m (hash c) (block c) /\ byte_count c = wrap 64 (zlength m).

Lemma md5_offset m c : md5_represents m c ->
  Z.land (byte_count c) 0x3f = Z.of_nat (length (rest 64 m)).
Proof. intros [_ ->]. apply (count_rest 64 6). lia. Qed.

Lemma md5_update_spec m c d : md5_represents m c ->
  exists c', fio_md5_update c d = Some c' /\ md5_represents (m ++ d) c'.
Proof.
  intros Hrep. pose proof (md5_offset m c Hrep) as Hoff. destruct Hrep as [Hbuf Hcnt].
  pose proof (rest_lt 64 ltac:(lia) m). unfold fio_md5_update, addw. rewrite Hoff, Hcnt, count_append.
  replace (64 - (64 - Z.of_nat (length (rest 64 m)))) with (Z.of_nat (length (rest 64 m))) by lia.
  unfold zlength at 1. destruct (Z.ltb_spec (Z.of_nat (length d)) (64 - Z.of_nat (length (rest 64 m)))).
  - destruct (buffered_short 64 ltac:(lia) _ _ m _ _ d Hbuf) as (b & -> & Hb); [lia|].
    eexists. split; [done|]. done.
  - destruct (buffered_long 64 ltac:(lia) _ _ m _ _ d Hbuf) as (E1 & E2 & E3 & Hk); [lia|].
    rewrite read_bytes_Some by (unfold zlength; lia). cbn [mbind option_bind].
    replace (Z.to_nat (64 - Z.of_nat (length (rest 64 m)))) with (64 - length (rest 64 m))%nat by lia.
    rewrite E1. cbn [mbind option_bind].
    destruct (md5_loop_spec (length d) (md5_block (hash c) (rest 64 m ++ take (64 - length (rest 64 m)) d))
      (rest 64 m ++ take (64 - length (rest 64 m)) d) (drop (64 - length (rest 64 m)) d)) as (b & -> & Hb).
    { rewrite length_drop. lia. }
    { rewrite length_app, length_take. lia. }
    cbn [mbind option_bind]. rewrite <- E2.
    destruct (buffered_store 64 ltac:(lia) md5_block md5_initial (m ++ d) _ b
      (drop (64 - length (rest 64 m)) d) eq_refl Hb E3) as (b' & -> & Hb').
    eexists. split; [done|]. done.
Qed.

Lemma md5_length_words m c : md5_represents m c -> zlength m < 2 ^ 61 ->
  le_bytes 4 (shlw 32 (byte_count c) 3) ++ le_bytes 4 (wrap 32 (byte_count c >> 29)) =
  le_bytes 8 (8 * zlength m).
Proof.
  intros [_ ->] Hlim. unfold zlength in *. rewrite wrap_small by (unfold is_word; lia).
  rewrite <- le_bytes_halves by lia. unfold shlw. rewrite Z.shiftl_mul_pow2, Z.shiftr_div_pow2 by lia.
  change (2 ^ 32) with (8 * 2 ^ 29). rewrite Z.div_mul_cancel_l by lia.
  rewrite (Z.mul_comm _ (2 ^ 3)). reflexivity.
Qed.

(** The last four writes of [fio_md5_final], from a block whose first [p] bytes are set. *)
Lemma md5_close h blk (p : nat) w1 w2 : length blk = 64%nat -> (p <= 56)%nat ->
  (let* blk := memset blk (Z.of_nat p) 0 (56 - Z.of_nat p) in
   let* blk := memcpy blk 56 (le_bytes 4 w1) in
   let* blk := memcpy blk 60 (le_bytes 4 w2) in
   Some (md5_block h blk)) =
  Some (md5_block h (take p blk ++ replicate (56 - p) 0 ++ le_bytes 4 w1 ++ le_bytes 4 w2)).
Proof.
  intros Hlen Hp.
  destruct (memset_extend blk p (56 - p) 0 _ (56 - Z.of_nat p) eq_refl) as (b1 & -> & L1 & T1); [lia..|].
  cbn [mbind option_bind].
  destruct (memcpy_extend b1 56 (le_bytes 4 w1) 56 eq_refl) as (b2 & -> & L2 & T2);
    [rewrite le_bytes_length; lia|]. cbn [mbind option_bind].
  destruct (memcpy_extend b2 60 (le_bytes 4 w2) 60 eq_refl) as (b3 & -> & L3 & T3);
    [rewrite le_bytes_length; lia|]. cbn [mbind option_bind]. do 2 f_equal.
  rewrite le_bytes_length in T2, T3. replace (p + (56 - p))%nat with 56%nat in T1 by lia.
  change (56 + 4)%nat with 60%nat in T2. rewrite T2, T1 in T3.
  rewrite take_ge in T3 by lia. by rewrite T3, <- !app_assoc.
Qed.

Lemma md5_final_spec m c : md5_represents m c -> zlength m < 2 ^ 61 ->
  fio_md5_final c = Some (md5_reference m).
Proof.
  intros Hrep Hlim. pose proof (md5_offset m c Hrep) as Hoff.
  pose proof (md5_length_words m c Hrep Hlim) as Hw. destruct Hrep as [(Hst & Hlen & Htake) _].
  pose proof (rest_lt 64 ltac:(lia) m) as Hlt. set (p := length (rest 64 m)) in *.
  unfold fio_md5_final, md5_reference.
  rewrite <- (fold_left_ext md5_block rfc_compress md5_block_rfc). rewrite Hoff.
  destruct (memcpy_extend (block c) p [0x80] _ eq_refl) as (b & -> & Hb & Tb); [cbn [length]; lia|].
  cbn [mbind option_bind length] in *. rewrite Htake in Tb.
  destruct (Z.ltb_spec (56 - (Z.of_nat p + 1)) 0).
  - destruct (memset_extend b (p + 1) (63 - p) 0 (Z.of_nat p + 1) (56 - (Z.of_nat p + 1) + 8))
      as (b1 & -> & L1 & T1); [lia..|]. cbn [mbind option_bind].
    replace (p + 1 + (63 - p))%nat with 64%nat in T1 by lia. rewrite take_ge, Tb in T1 by lia.
    rewrite (md5_close (md5_block (hash c) b1) b1 0) by lia. rewrite Hw, T1, <- app_assoc.
    rewrite (pad_blocks_two 64 ltac:(lia) md5_block md5_initial m _ (hash c)) by (rewrite ?le_bytes_length; done || lia).
    rewrite le_bytes_length. reflexivity.
  - cbn [mbind option_bind]. replace (Z.of_nat p + 1) with (Z.of_nat (p + 1)) by lia.
    rewrite md5_close by lia. rewrite Hw, Tb, <- app_assoc.
    rewrite (pad_blocks_one 64 ltac:(lia) md5_block md5_initial m _ (hash c)) by (rewrite ?le_bytes_length; done || lia).
    rewrite le_bytes_length. fold p. replace (64 - 1 - 8 - p)%nat with (56 - (p + 1))%nat by lia. reflexivity.
Qed.

#[export] Instance md5_digest : Digest fio_md5_ctx (list Z).
Proof.
  refine {| d_init := md5_start; d_update := fio_md5_update; d_final := fio_md5_final;
    d_piece d := zlength d < 2 ^ 32; d_limit := 2 ^ 61;
    represents := md5_represents; reference := md5_reference |}.
  - split; [by apply (buffered_init 64); [lia|]|done].
  - intros m c d Hc _ _ _. by apply md5_update_spec.
  - apply md5_final_spec.
Defined.

(** MD5 as the crc/ library computes it, over any way of cutting a message into
    updates of less than 4 GiB, is the digest of RFC 1321: the padding, the block
    buffer, the byte counter and the unrolled rounds together compute the RFC's
    function of the whole message, for messages shorter than 2^61 bytes, and every
    copy stays inside the 64-byte block. *)
Theorem md5_digest_correct pieces :
  Forall bytes pieces -> Forall (fun d => zlength d < 2 ^ 32) pieces ->
  zlength (concat pieces) < 2 ^ 61 ->
  (let* c := feed md5_start pieces in fio_md5_final c) = Some (md5_reference (concat pieces)).
Proof. exact (@digest_pieces _ _ md5_digest pieces). Qed.

Lemma md5_digest_witness :
  (let* c := feed md5_start [[0x61]; replicate 70 0x62; []] in fio_md5_final c) =
  Some (md5_reference (concat [[0x61]; replicate 70 0x62; []])).
Proof.
  apply md5_digest_correct; [|repeat constructor|reflexivity].
  unfold bytes. apply (bool_decide_unpack _). vm_compute. exact I.
Defined.
