(* ===== verification/Sha1.v ===== *)
(** crc/sha1.c: the SHA-1 digest, with its rolling 16-word message schedule, against
    the definition of FIPS 180. *)
From S2P Require Import Prelude Stream.
Local Open Scope word_scope.

Definition SHA_ROL (x n : Z) : Z := rolw 32 x n.
Definition SHA_ROR (x n : Z) : Z := rorw 32 x n.

(** [W(x)] reads [array[x & 15]]. *)
Definition W (array : list Z) (x : Z) : Z := tbl array (x & 15).

(** [SHA_SRC]: the input word, converted from big endian; [SHA_MIX]: the schedule. *)
Definition SHA_SRC (data : list Z) (t : nat) : Z := word_be 4 data t.
Definition SHA_MIX (array : list Z) (t : Z) : Z :=
  SHA_ROL (W array (t + 13) ^^ W array (t + 8) ^^ W array (t + 2) ^^ W array t) 1.

(** The registers in the order of the parameters of a [T_x_y] call. *)
Record regs : Type := mk_regs { rA : Z; rB : Z; rC : Z; rD : Z; rE : Z }.

Definition fn_0_19 (r : regs) : Z := ((rC r ^^ rD r) & rB r) ^^ rD r.
Definition fn_parity (r : regs) : Z := rB r ^^ rC r ^^ rD r.
Definition fn_40_59 (r : regs) : Z := addw 32 (rB r & rC r) (rD r & (rB r ^^ rC r)).

(** [SHA_ROUND], followed by the renaming of the next call: [T(t, A, B, C, D, E)] is
    followed by [T(t + 1, E, A, B, C, D)]. *)
Definition SHA_ROUND (temp : Z) (fn constant : Z) (r : regs) : regs :=
  let E := addw 32 (rE r) (addw 32 (addw 32 (addw 32 temp (SHA_ROL (rA r) 5)) fn) constant) in
  mk_regs E (rA r) (SHA_ROR (rB r) 2) (rC r) (rD r).

(** Call number [t] of the 80 calls: input, function and constant by range. *)
Definition sha1_call (data : list Z) (s : list Z * regs) (t : nat) : list Z * regs :=
  let '(array, r) := s in
  let temp := if (t <? 16)%nat then SHA_SRC data t else SHA_MIX array (Z.of_nat t) in
  let array := <[Z.to_nat (Z.of_nat t & 15) := temp]> array in
  if (t <? 20)%nat then (array, SHA_ROUND temp (fn_0_19 r) 0x5a827999 r)
  else if (t <? 40)%nat then (array, SHA_ROUND temp (fn_parity r) 0x6ed9eba1 r)
  else if (t <? 60)%nat then (array, SHA_ROUND temp (fn_40_59 r) 0x8f1bbcdc r)
  else (array, SHA_ROUND temp (fn_parity r) 0xca62c1d6 r).

(** [blk_SHA1Block]: the array is uninitialised in the source; every word is written
    before it is read. *)
Definition blk_SHA1Block (H data : list Z) : list Z :=
  let r := mk_regs (tbl H 0) (tbl H 1) (tbl H 2) (tbl H 3) (tbl H 4) in
  let '(_, r') := fold_left (sha1_call data) (seq 0 80) (replicate 16 0, r) in
  [addw 32 (rA r) (rA r'); addw 32 (rB r) (rB r'); addw 32 (rC r) (rC r');
   addw 32 (rD r) (rD r'); addw 32 (rE r) (rE r')].

Record fio_sha1_ctx : Type := mk_sha1 { sH : list Z; sW : list Z; size : Z }.

Definition sha1_initial : list Z := [0x67452301; 0xefcdab89; 0x98badcfe; 0x10325476; 0xc3d2e1f0].

Definition fio_sha1_init (ctx : fio_sha1_ctx) : fio_sha1_ctx := mk_sha1 sha1_initial (sW ctx) 0.

(** [while (len >= 64)] over the caller's data. *)
Fixpoint sha1_loop (fuel : nat) (H data : list Z) : option (list Z * list Z) :=
  match fuel with
  | O => Some (H, data)
  | S fuel =>
      if 64 <=? zlength data then
        let* d := read_bytes 64 data in
        sha1_loop fuel (blk_SHA1Block H d) (drop 64 data)
      else Some (H, data)
  end.

(** The code after the partially filled block has been dealt with. *)
Definition sha1_tail (H buf data : list Z) (size : Z) : option fio_sha1_ctx :=
  let* '(H, data) := sha1_loop (length data) H data in
  let* buf := (if c_true (zlength data) then memcpy buf 0 data else Some buf) in
  Some (mk_sha1 H buf size).

Definition fio_sha1_update (ctx : fio_sha1_ctx) (data : list Z) : option fio_sha1_ctx :=
  let len := zlength data in
  let lenW := size ctx & 63 in
  let sz := addw 64 (size ctx) len in
  if c_true lenW then
    let left := 64 - lenW in
    let left := if len <? left then len else left in
    let* d := read_bytes left data in
    let* buf := memcpy (sW ctx) lenW d in
    let lenW := (lenW + left) & 63 in
    let data := drop (Z.to_nat left) data in
    if c_true lenW then Some (mk_sha1 (sH ctx) buf sz)
    else sha1_tail (blk_SHA1Block (sH ctx) buf) buf data sz
  else sha1_tail (sH ctx) (sW ctx) data sz.

Definition fio_sha1_final (ctx : fio_sha1_ctx) : option (list Z) :=
  let pad := 0x80 :: replicate 63 0 in
  let padlen := be_bytes 4 (wrap 32 (size ctx >> 29)) ++ be_bytes 4 (shlw 32 (size ctx) 3) in
  let i := size ctx & 63 in
  let* d := read_bytes (1 + (63 & (55 - i))) pad in
  let* ctx := fio_sha1_update ctx d in
  let* ctx := fio_sha1_update ctx padlen in
  Some (sH ctx).

(** * FIPS 180 *)

Definition Ch (x y z : Z) : Z := Z.lor (x & y) (Z.lnot x & z).
Definition Parity (x y z : Z) : Z := x ^^ y ^^ z.
Definition Maj (x y z : Z) : Z := Z.lor (Z.lor (x & y) (x & z)) (y & z).

Definition fips_word (M : list Z) (t : nat) (w : list Z) : Z :=
  if (t <? 16)%nat then word_be 4 M t
  else rolw 32 (nth (t - 3) w 0 ^^ nth (t - 8) w 0 ^^ nth (t - 14) w 0 ^^ nth (t - 16) w 0) 1.

(** The first [n] words of the 80-word schedule. *)
Definition schedule (M : list Z) (n : nat) : list Z := unroll (fips_word M) n.

Definition fips_fn (r : regs) (t : nat) : Z * Z :=
  if (t <? 20)%nat then (Ch (rB r) (rC r) (rD r), 0x5a827999)
  else if (t <? 40)%nat then (Parity (rB r) (rC r) (rD r), 0x6ed9eba1)
  else if (t <? 60)%nat then (Maj (rB r) (rC r) (rD r), 0x8f1bbcdc)
  else (Parity (rB r) (rC r) (rD r), 0xca62c1d6).

Definition fips_round (wd : list Z) (r : regs) (t : nat) : regs :=
  let '(f, k) := fips_fn r t in
  let T := wrap 32 (rolw 32 (rA r) 5 + f + rE r + k + nth t wd 0) in
  mk_regs T (rA r) (rolw 32 (rB r) 30) (rC r) (rD r).

Definition fips_compress (H M : list Z) : list Z :=
  let r := mk_regs (tbl H 0) (tbl H 1) (tbl H 2) (tbl H 3) (tbl H 4) in
  let r' := fold_left (fips_round (schedule M 80)) (seq 0 80) r in
  [addw 32 (rA r) (rA r'); addw 32 (rB r) (rB r'); addw 32 (rC r) (rC r');
   addw 32 (rD r) (rD r'); addw 32 (rE r) (rE r')].

Definition sha1_reference (m : list Z) : list Z :=
  fold_left fips_compress (full_blocks 64 (md_pad 64 (be_bytes 8 (8 * zlength m)) m)) sha1_initial.

Definition sha1_start : fio_sha1_ctx := fio_sha1_init (mk_sha1 [0; 0; 0; 0; 0] (replicate 64 0) 0).

Example sha1_abc :
  (let* c := fio_sha1_update sha1_start [0x61; 0x62; 0x63] in fio_sha1_final c) =
  Some [0xa9993e36; 0x4706816a; 0xba3e2571; 0x7850c26c; 0x9cd0d89d].
Proof. vm_compute. reflexivity. Qed.

Example sha1_reference_abc :
  sha1_reference [0x61; 0x62; 0x63] = [0xa9993e36; 0x4706816a; 0xba3e2571; 0x7850c26c; 0x9cd0d89d].
Proof. vm_compute. reflexivity. Qed.

(** * Proofs *)

(** ** The compression function *)

Lemma fn_0_19_Ch r : fn_0_19 r = Ch (rB r) (rC r) (rD r).
Proof. unfold fn_0_19, Ch. bits. Qed.

Lemma fn_40_59_Maj r : fn_40_59 r = wrap 32 (Maj (rB r) (rC r) (rD r)).
Proof.
  unfold fn_40_59, Maj, addw. f_equal. rewrite Z.add_nocarry_lxor.
  - bits.
  - transitivity (Z.land 0 0); [|done]. bits.
Qed.

Lemma SHA_ROUND_fips wd r t fn k temp : nth t wd 0 = temp ->
  (let '(f, k') := fips_fn r t in eqw 32 fn f /\ k = k') ->
  SHA_ROUND temp fn k r = fips_round wd r t.
Proof.
  intros Hw Hf. unfold fips_round, SHA_ROUND. destruct (fips_fn r t) as [f k'].
  destruct Hf as [Hf ->]. rewrite Hw. f_equal.
  - wraps. rewrite Hf. apply (f_equal (wrap 32)). unfold SHA_ROL. lia.
  - unfold SHA_ROR, rorw, rolw. apply Z.lor_comm.
Qed.

Lemma sha1_call_fips M N a r t temp : nth t (schedule M N) 0 = temp ->
  temp = (if (t <? 16)%nat then SHA_SRC M t else SHA_MIX a (Z.of_nat t)) ->
  sha1_call M (a, r) t = (<[Z.to_nat (Z.of_nat t & 15) := temp]> a, fips_round (schedule M N) r t).
Proof.
  intros Hw Ht. unfold sha1_call. rewrite <- Ht.
  assert (forall fn k, (let '(f, k') := fips_fn r t in eqw 32 fn f /\ k = k') ->
    SHA_ROUND temp fn k r = fips_round (schedule M N) r t) as H by (intros; by apply SHA_ROUND_fips).
  unfold fips_fn in H.
  destruct (t <? 20)%nat; [|destruct (t <? 40)%nat; [|destruct (t <? 60)%nat]]; f_equal; apply H; (split; [|reflexivity]).
  - by rewrite fn_0_19_Ch.
  - reflexivity.
  - rewrite fn_40_59_Maj. apply wrap_eqw.
  - reflexivity.
Qed.

(** The array holds the last sixteen words of the schedule. *)
Definition holds (w a : list Z) (t : nat) : Prop :=
  length a = 16%nat /\ forall s, (s < t <= s + 16)%nat -> nth (s mod 16) a 0 = nth s w 0.

Lemma W_holds w a t s x : holds w a t -> (s < t <= s + 16)%nat -> x mod 16 = Z.of_nat s mod 16 ->
  W a x = nth s w 0.
Proof.
  intros [_ H] Hs Hx. rewrite <- H by done. unfold W, tbl. f_equal.
  change 15 with (Z.ones 4). rewrite Z.land_ones by lia. change (2 ^ 4) with 16. rewrite Hx.
  change 16 with (Z.of_nat 16). rewrite <- Nat2Z.inj_mod. apply Nat2Z.id.
Qed.

Lemma schedule_rec M N t : (16 <= t < N)%nat -> nth t (schedule M N) 0 =
  let w := unroll (fips_word M) t in
  rolw 32 (nth (t - 3) w 0 ^^ nth (t - 8) w 0 ^^ nth (t - 14) w 0 ^^ nth (t - 16) w 0) 1.
Proof.
  intros Ht. unfold schedule. rewrite nth_unroll by lia. generalize (unroll (fips_word M) t). intros w.
  unfold fips_word. by destruct (Nat.ltb_spec t 16); [lia|].
Qed.

Lemma SHA_MIX_word M N a t : (16 <= t < N)%nat -> holds (schedule M N) a t ->
  SHA_MIX a (Z.of_nat t) = nth t (schedule M N) 0.
Proof.
  intros Ht Ha. rewrite schedule_rec by lia. cbv zeta. rewrite !(nth_unroll_le _ N t) by lia. unfold SHA_MIX, SHA_ROL.
  assert (forall k, (k <= 16)%nat -> (0 < k)%nat ->
    W a (Z.of_nat t + (16 - Z.of_nat k)) = nth (t - k) (schedule M N) 0) as HW.
  { intros k Hk Hk0. apply (W_holds _ _ t); [done|lia|].
    replace (Z.of_nat t + (16 - Z.of_nat k)) with (Z.of_nat (t - k) + 1 * 16) by lia.
    by rewrite Z.mod_add. }
  unfold schedule in HW. rewrite <- (HW 3%nat), <- (HW 8%nat), <- (HW 14%nat), <- (HW 16%nat) by lia.
  do 2 f_equal. f_equal. lia.
Qed.

Lemma holds_step w a t temp : holds w a t -> nth t w 0 = temp ->
  holds w (<[Z.to_nat (Z.of_nat t & 15) := temp]> a) (S t).
Proof.
  intros [Hlen H] Ht. split; [by rewrite length_insert|]. intros s Hs.
  change 15 with (Z.ones 4). rewrite Z.land_ones by lia. change (2 ^ 4) with (Z.of_nat 16).
  rewrite <- Nat2Z.inj_mod, Nat2Z.id. pose proof (Nat.mod_upper_bound t 16 ltac:(lia)).
  rewrite !nth_lookup.
  destruct (decide (s = t)) as [->|Hne].
  { rewrite list_lookup_insert_eq by lia. by rewrite <- nth_lookup, Ht. }
  assert (t mod 16 <> s mod 16)%nat.
  { pose proof (Nat.div_mod t 16 ltac:(lia)). pose proof (Nat.div_mod s 16 ltac:(lia)). lia. }
  rewrite list_lookup_insert_ne by done. rewrite <- !nth_lookup. apply H. lia.
Qed.

Lemma sha1_calls M N n : forall r, (n <= N)%nat -> exists a,
  fold_left (sha1_call M) (seq 0 n) (replicate 16 0, r) =
    (a, fold_left (fips_round (schedule M N)) (seq 0 n) r) /\ holds (schedule M N) a n.
Proof.
  induction n as [|n IH]; intros r Hn; [exists (replicate 16 0); split; [done|split; [done|lia]]|].
  destruct (IH r) as (a & E & Ha); [lia|]. rewrite seq_S, !fold_left_app, E. cbn [fold_left Nat.add].
  set (temp := nth n (schedule M N) 0).
  exists (<[Z.to_nat (Z.of_nat n & 15) := temp]> a). split; [|by apply holds_step].
  apply sha1_call_fips; [done|]. subst temp. destruct (Nat.ltb_spec n 16).
  - unfold schedule. rewrite nth_unroll by lia. unfold fips_word. destruct (Nat.ltb_spec n 16); [done|lia].
  - symmetry. apply SHA_MIX_word; [lia|done].
Qed.

Lemma blk_SHA1Block_fips H M : blk_SHA1Block H M = fips_compress H M.
Proof.
  unfold blk_SHA1Block, fips_compress.
  destruct (sha1_calls M 80 80 (mk_regs (tbl H 0) (tbl H 1) (tbl H 2) (tbl H 3) (tbl H 4)))
    as (a & -> & _); [lia|]. reflexivity.
Qed.

(** ** Streaming *)

#[local] Opaque blk_SHA1Block fips_compress.

Definition sha1_represents (m : list Z) (c : fio_sha1_ctx) : Prop :=
  buffered 64 blk_SHA1Block sha1_initial m (sH c) (sW c) /\ size c = wrap 64 (zlength m).

Lemma sha1_loop_spec fuel : forall H data, (length data <= fuel)%nat ->
  sha1_loop fuel H data = Some (fold_left blk_SHA1Block (full_blocks 64 data) H, rest 64 data).
Proof.
  induction fuel as [|fuel IH]; intros H data Hf; cbn [sha1_loop].
  { destruct data; [done|cbn in Hf; lia]. }
  unfold zlength. destruct (Z.leb_spec 64 (Z.of_nat (length data))).
  - rewrite read_bytes_Some by (unfold zlength; lia). change (Z.to_nat 64) with 64%nat.
    cbn [mbind option_bind]. rewrite IH by (rewrite length_drop; lia).
    destruct (full_blocks_long 64 ltac:(lia) data) as [-> ->]; [lia|]. by rewrite fold_left_cons.
  - by destruct (full_blocks_short 64 ltac:(lia) data) as [-> ->]; [lia|].
Qed.

(** Once the partial block has been dealt with, the rest is a matter of full blocks. *)
Lemma sha1_tail_spec m st buf data sz : length buf = 64%nat -> rest 64 m = rest 64 data ->
  fold_left blk_SHA1Block (full_blocks 64 m) sha1_initial =
    fold_left blk_SHA1Block (full_blocks 64 data) st ->
  sz = wrap 64 (zlength m) ->
  exists c, sha1_tail st buf data sz = Some c /\ sha1_represents m c.
Proof.
  intros Hb Hr Hf ->. unfold sha1_tail. rewrite sha1_loop_spec by lia. cbn [mbind option_bind].
  rewrite <- Hf.
  destruct (buffered_store 64 ltac:(lia) blk_SHA1Block sha1_initial m _ buf data eq_refl Hb Hr) as (b & E & Hb').
  destruct (c_true _) eqn:Hc.
  - rewrite E. eexists. split; [reflexivity|]. split; [exact Hb'|reflexivity].
  - apply c_true_false_iff in Hc. destruct (rest 64 data) as [|x l]; [|by unfold zlength in Hc].
    rewrite memcpy_Some in E by (unfold zlength; cbn [length]; lia). injection E as <-.
    eexists. split; [reflexivity|]. split; [exact Hb'|reflexivity].
Qed.

Lemma sha1_offset m c : sha1_represents m c -> size c & 63 = Z.of_nat (length (rest 64 m)).
Proof. intros [_ ->]. apply (count_rest 64 6). lia. Qed.

Lemma sha1_update_spec m c d : sha1_represents m c ->
  exists c', fio_sha1_update c d = Some c' /\ sha1_represents (m ++ d) c'.
Proof.
  intros Hrep. pose proof (sha1_offset m c Hrep) as Hoff. destruct Hrep as [Hbuf Hcnt].
  pose proof (rest_lt 64 ltac:(lia) m) as Hlt. unfold fio_sha1_update, addw.
  rewrite Hoff, Hcnt, count_append. set (p := length (rest 64 m)) in *.
  destruct (c_true (Z.of_nat p)) eqn:Hp.
  - apply c_true_iff in Hp. change (zlength d) with (Z.of_nat (length d)).
    destruct (Z.ltb_spec (Z.of_nat (length d)) (64 - Z.of_nat p)).
    + rewrite read_bytes_Some by (unfold zlength; lia). cbn [mbind option_bind].
      rewrite Nat2Z.id, take_ge by lia. unfold p.
      destruct (buffered_short 64 ltac:(lia) _ _ m _ _ d Hbuf) as (b & -> & Hb); [fold p; lia|].
      cbn [mbind option_bind]. fold p. change 63 with (Z.ones 6). rewrite Z.land_ones, Z.mod_small by lia.
      destruct (c_true _) eqn:Hq; [|apply c_true_false_iff in Hq; lia].
      eexists. split; [reflexivity|]. split; [exact Hb|reflexivity].
    + destruct (buffered_long 64 ltac:(lia) _ _ m _ _ d Hbuf) as (E1 & E2 & E3 & Hk); [fold p; lia|].
      rewrite read_bytes_Some by (unfold zlength; lia). cbn [mbind option_bind].
      replace (Z.to_nat (64 - Z.of_nat p)) with (64 - p)%nat by lia. fold p in E1, E2, E3, Hk.
      rewrite E1. cbn [mbind option_bind]. replace (Z.of_nat p + (64 - Z.of_nat p)) with 64 by lia.
      change (c_true (64 & 63)) with false. cbv iota.
      apply sha1_tail_spec; [|done|done|done]. rewrite length_app, length_take. fold p. lia.
  - apply c_true_false_iff in Hp. assert (rest 64 m = []) as Hr by (apply length_zero_iff_nil; fold p; lia).
    destruct (blocks_append 64 ltac:(lia) m d) as [E1 E2]. rewrite Hr, app_nil_l in E1, E2.
    destruct Hbuf as (Hst & Hlen & _). apply sha1_tail_spec; [done|done| |done].
    by rewrite E1, fold_left_app, <- Hst.
Qed.

Lemma sha1_pad_bytes m c : sha1_represents m c ->
  read_bytes (1 + (63 & (55 - (size c & 63)))) (0x80 :: replicate 63 0) =
  Some (take (pad_first 64 (be_bytes 8 (8 * zlength m)) m) (0x80 :: replicate (64 - 1) 0)).
Proof.
  intros Hrep. rewrite (sha1_offset m c Hrep). pose proof (rest_lt 64 ltac:(lia) m).
  unfold pad_first. rewrite <- (length_rest 64 ltac:(lia) m), be_bytes_length.
  set (p := length (rest 64 m)) in *. rewrite Z.land_comm. change 63 with (Z.ones 6) at 1.
  rewrite Z.land_ones by lia. change (2 ^ 6) with 64.
  assert ((55 - Z.of_nat p) mod 64 = Z.of_nat ((2 * 64 - 1 - 8 - p) mod 64)) as ->.
  { rewrite Nat2Z.inj_mod. symmetry. rewrite Nat2Z.inj_sub by lia.
    replace (Z.of_nat (2 * 64 - 1 - 8) - Z.of_nat p) with (55 - Z.of_nat p + 1 * 64) by lia.
    change (Z.of_nat 64) with 64. by rewrite Z.mod_add. }
  pose proof (Nat.mod_upper_bound (2 * 64 - 1 - 8 - p) 64 ltac:(lia)).
  set (k := ((2 * 64 - 1 - 8 - p) mod 64)%nat) in *. unfold read_bytes, zlength.
  change (length (0x80 :: replicate 63 0)) with 64%nat. zcases; [|lia..]. cbn [andb]. do 2 f_equal. lia.
Qed.

Lemma sha1_length_words m c : sha1_represents m c -> zlength m < 2 ^ 61 ->
  be_bytes 4 (wrap 32 (size c >> 29)) ++ be_bytes 4 (shlw 32 (size c) 3) = be_bytes 8 (8 * zlength m).
Proof.
  intros [_ ->] Hlim. unfold zlength in *. rewrite (wrap_small 64) by (unfold is_word; lia).
  unfold be_bytes. rewrite <- rev_app_distr. f_equal.
  rewrite <- (le_bytes_halves (8 * _)) by lia. unfold shlw. rewrite Z.shiftl_mul_pow2, Z.shiftr_div_pow2 by lia.
  change (2 ^ 32) with (8 * 2 ^ 29). rewrite Z.div_mul_cancel_l by lia.
  rewrite (Z.mul_comm _ (2 ^ 3)). reflexivity.
Qed.

Lemma sha1_final_spec m c : sha1_represents m c -> zlength m < 2 ^ 61 ->
  fio_sha1_final c = Some (sha1_reference m).
Proof.
  intros Hrep Hlim. unfold fio_sha1_final. rewrite (sha1_pad_bytes m c Hrep), (sha1_length_words m c Hrep Hlim).
  cbn [mbind option_bind].
  destruct (sha1_update_spec _ _ (take (pad_first 64 (be_bytes 8 (8 * zlength m)) m)
    (0x80 :: replicate (64 - 1) 0)) Hrep) as (c1 & -> & H1). cbn [mbind option_bind].
  destruct (sha1_update_spec _ _ (be_bytes 8 (8 * zlength m)) H1) as (c2 & -> & [(H2 & _) _]).
  cbn [mbind option_bind]. rewrite H2, <- md_pad_updates by lia. unfold sha1_reference.
  by rewrite (fold_left_ext _ _ blk_SHA1Block_fips).
Qed.

#[export] Instance sha1_digest : Digest fio_sha1_ctx (list Z).
Proof.
  refine {| d_init := sha1_start; d_update := fio_sha1_update; d_final := fio_sha1_final;
    d_piece d := zlength d < 2 ^ 32; d_limit := 2 ^ 61;
    represents := sha1_represents; reference := sha1_reference |}.
  - split; [by apply (buffered_init 64); [lia|]|done].
  - intros m c d Hc _ _ _. by apply sha1_update_spec.
  - apply sha1_final_spec.
Defined.

(** SHA-1 as the crc/ library computes it, over any way of cutting a message into
    updates of less than 4 GiB, is the digest of FIPS 180: the rolling sixteen-word
    schedule replaces the standard's eighty words, and closing by two further updates
    produces the standard's padding, for messages shorter than 2^61 bytes. *)
Theorem sha1_digest_correct pieces :
  Forall bytes pieces -> Forall (fun d => zlength d < 2 ^ 32) pieces ->
  zlength (concat pieces) < 2 ^ 61 ->
  (let* c := feed sha1_start pieces in fio_sha1_final c) = Some (sha1_reference (concat pieces)).
Proof. exact (@digest_pieces _ _ sha1_digest pieces). Qed.

Lemma sha1_digest_witness :
  (let* c := feed sha1_start [[0x61]; replicate 70 0x62; []] in fio_sha1_final c) =
  Some (sha1_reference (concat [[0x61]; replicate 70 0x62; []])).
Proof.
  apply sha1_digest_correct; [|repeat constructor|reflexivity].
  unfold bytes. apply (bool_decide_unpack _). vm_compute. exact I.
Defined.
