(* ===== verification/Sha2.v ===== *)
(** The SHA-2 family of FIPS 180-4, the specification that Sha256 and Sha512 are proved
    against: both standards are one function of the word size, the number of rounds,
    the rotation amounts and the round constants. *)
From S2P Require Import Prelude Stream.
Local Open Scope word_scope.

(** The eight working variables. *)
Record regs : Type := mk_regs {
  ra : Z; rb : Z; rc : Z; rd : Z; re : Z; rf : Z; rg : Z; rh : Z }.

Definition load_regs (H : list Z) : regs :=
  mk_regs (tbl H 0) (tbl H 1) (tbl H 2) (tbl H 3) (tbl H 4) (tbl H 5) (tbl H 6) (tbl H 7).

Definition add_regs (w : Z) (H : list Z) (r : regs) : list Z :=
  [addw w (tbl H 0) (ra r); addw w (tbl H 1) (rb r); addw w (tbl H 2) (rc r); addw w (tbl H 3) (rd r);
   addw w (tbl H 4) (re r); addw w (tbl H 5) (rf r); addw w (tbl H 6) (rg r); addw w (tbl H 7) (rh r)].

Section FIPS_180_4.
(** Word size in bits and in bytes, number of rounds, the functions Sigma_0, Sigma_1,
    sigma_0 and sigma_1, the constants. *)
Context (w : Z) (nb rounds : nat) (Sigma0 Sigma1 sigma0 sigma1 : Z -> Z) (K : list Z).

Definition fips_Ch (x y z : Z) : Z := (x & y) ^^ (Z.lnot x & z).
Definition fips_Maj (x y z : Z) : Z := (x & y) ^^ (x & z) ^^ (y & z).

Definition fips_word (M : list Z) (t : nat) (W : list Z) : Z :=
  if (t <? 16)%nat then word_be nb M t
  else wrap w (sigma1 (nth (t - 2) W 0) + nth (t - 7) W 0 + sigma0 (nth (t - 15) W 0) + nth (t - 16) W 0).

Definition fips_schedule (M : list Z) : list Z := unroll (fips_word M) rounds.

Definition fips_round (W : list Z) (r : regs) (t : nat) : regs :=
  let T1 := rh r + Sigma1 (re r) + fips_Ch (re r) (rf r) (rg r) + nth t K 0 + nth t W 0 in
  let T2 := Sigma0 (ra r) + fips_Maj (ra r) (rb r) (rc r) in
  mk_regs (wrap w (T1 + T2)) (ra r) (rb r) (rc r) (wrap w (rd r + T1)) (re r) (rf r) (rg r).

Definition fips_compress (H M : list Z) : list Z :=
  add_regs w H (fold_left (fips_round (fips_schedule M)) (seq 0 rounds) (load_regs H)).
End FIPS_180_4.

(** The two spellings of the choice and majority functions. *)
Lemma Ch_fips x y z : z ^^ (x & (y ^^ z)) = fips_Ch x y z.
Proof. unfold fips_Ch. bits. Qed.

Lemma Maj_fips x y z : Z.lor (x & y) (z & Z.lor x y) = fips_Maj x y z.
Proof. unfold fips_Maj. bits. Qed.

(** What a schedule filled in place computes. *)
Definition fill (load : nat -> Z) (blend : list Z -> nat -> Z) (n : nat) (W : list Z) : list Z :=
  fold_left (fun W t => <[t := blend W t]> W) (seq 16 (n - 16))
    (fold_left (fun W t => <[t := load t]> W) (seq 0 16) W).

Lemma fill_unroll load blend g n W : (16 <= n)%nat -> length W = n ->
  (forall t W, (t < 16)%nat -> g t W = load t) ->
  (forall t W, (16 <= t)%nat -> g t W = blend W t) ->
  (forall t W, (16 <= t)%nat -> blend W t = blend (take t W) t) ->
  fill load blend n W = unroll g n.
Proof.
  intros Hn HW H1 H2 H3. unfold fill.
  assert (fold_left (fun W t => <[t := load t]> W) (seq 0 16) W = fold_left (store g) (seq 0 16) W) as ->.
  { apply fold_left_ext_in. intros l t Ht%elem_of_seq. unfold store. by rewrite H1 by lia. }
  erewrite fold_left_ext_in; [rewrite <- fold_left_app|].
  - change (seq 16 (n - 16)) with (seq (0 + 16) (n - 16)). rewrite <- seq_app.
    replace (16 + (n - 16))%nat with n by lia. rewrite store_unroll; [by rewrite drop_ge, app_nil_r by lia| |lia].
    intros t l. destruct (decide (t < 16)%nat); [by rewrite !H1|].
    rewrite !H2 by lia. apply H3. lia.
  - intros l t Ht%elem_of_seq. unfold store. by rewrite H2 by lia.
Qed.

(** The last block of the padded message, which the closing updates leave in the
    context's buffer. *)
Definition last_block (B : nat) (pm : list Z) : list Z := drop (length pm - B) pm.

Lemma last_block_rest B m enc : (0 < B)%nat -> (length (rest B m) + length enc = B)%nat ->
  last_block B (m ++ enc) = rest B m ++ enc.
Proof.
  intros HB He. unfold last_block. rewrite length_app. rewrite length_rest in He by done.
  pose proof (Nat.div_mod (length m) B ltac:(lia)).
  rewrite drop_app_le by lia. unfold rest. do 2 f_equal. lia.
Qed.

(** Where the pad of two updates leaves the buffer. *)
Lemma rest_pad_first B enc m : (0 < B)%nat -> (0 < length enc < B)%nat ->
  (length (rest B (m ++ take (pad_first B enc m) (0x80%Z :: replicate (B - 1) 0%Z))) + length enc = B)%nat.
Proof.
  intros HB He. rewrite length_rest by done.
  destruct (length_md_pad B enc m HB ltac:(lia)) as [k Hk]. rewrite md_pad_updates, length_app in Hk by done.
  set (n := length (m ++ _)) in *. assert (k <> 0)%nat by (intros ->; unfold n in Hk; unfold pad_first in Hk;
    rewrite length_app, length_take in Hk; cbn [length] in Hk; lia).
  assert (n mod B = B - length enc)%nat as ->; [|lia].
  symmetry. apply Nat.mod_unique with (k - 1)%nat; [lia|].
  rewrite Nat.mul_sub_distr_l. assert (B <= B * k)%nat by nia. lia.
Qed.
