(* ===== verification/Sha256.v ===== *)
(** crc/sha256.c: the SHA-256 digest as fio computes it.

    The transform is the one of FIPS 180-4; the length that closes the message is
    stored in host (little-endian) order and the digest left in the buffer is the low
    byte of each state word, so the result is a function of the message but not the
    standard's digest. *)
From S2P Require Import Prelude Stream Sha2.
Local Open Scope word_scope.

Definition Ch (x y z : Z) : Z := z ^^ (x & (y ^^ z)).
Definition Maj (x y z : Z) : Z := Z.lor (x & y) (z & Z.lor x y).
Definition ror32 (word shift : Z) : Z := rorw 32 word shift.

Definition e0 (x : Z) : Z := ror32 x 2 ^^ ror32 x 13 ^^ ror32 x 22.
Definition e1 (x : Z) : Z := ror32 x 6 ^^ ror32 x 11 ^^ ror32 x 25.
Definition s0 (x : Z) : Z := ror32 x 7 ^^ ror32 x 18 ^^ (x >> 3).
Definition s1 (x : Z) : Z := ror32 x 17 ^^ ror32 x 19 ^^ (x >> 10).

(** [LOAD_OP] converts the word from big endian. *)
Definition LOAD_OP (input : list Z) (I : nat) : Z := word_be 4 input I.
Definition BLEND_OP (W : list Z) (I : nat) : Z :=
  addw 32 (addw 32 (addw 32 (s1 (nth (I - 2) W 0)) (nth (I - 7) W 0)) (s0 (nth (I - 15) W 0))) (nth (I - 16) W 0).

(** The constants of the 64 unrolled rounds, in order. *)
Definition sha256_K : list Z := concat [
  [0x428a2f98; 0x71374491; 0xb5c0fbcf; 0xe9b5dba5; 0x3956c25b; 0x59f111f1; 0x923f82a4; 0xab1c5ed5];
  [0xd807aa98; 0x12835b01; 0x243185be; 0x550c7dc3; 0x72be5d74; 0x80deb1fe; 0x9bdc06a7; 0xc19bf174];
  [0xe49b69c1; 0xefbe4786; 0x0fc19dc6; 0x240ca1cc; 0x2de92c6f; 0x4a7484aa; 0x5cb0a9dc; 0x76f988da];
  [0x983e5152; 0xa831c66d; 0xb00327c8; 0xbf597fc7; 0xc6e00bf3; 0xd5a79147; 0x06ca6351; 0x14292967];
  [0x27b70a85; 0x2e1b2138; 0x4d2c6dfc; 0x53380d13; 0x650a7354; 0x766a0abb; 0x81c2c92e; 0x92722c85];
  [0xa2bfe8a1; 0xa81a664b; 0xc24b8b70; 0xc76c51a3; 0xd192e819; 0xd6990624; 0xf40e3585; 0x106aa070];
  [0x19a4c116; 0x1e376c08; 0x2748774c; 0x34b0bcb5; 0x391c0cb3; 0x4ed8aa4a; 0x5b9cca4f; 0x682e6ff3];
  [0x748f82ee; 0x78a5636f; 0x84c87814; 0x8cc70208; 0x90befffa; 0xa4506ceb; 0xbef9a3f7; 0xc67178f2]].

(** One pair of lines [t1 = ...; t2 = ...; d += t1; h = t1 + t2]; the next pair names
    the registers one place further on. *)
Definition sha256_line (W : list Z) (r : regs) (i : nat) : regs :=
  let t1 := addw 32 (addw 32 (addw 32 (addw 32 (rh r) (e1 (re r))) (Ch (re r) (rf r) (rg r)))
              (nth i sha256_K 0)) (nth i W 0) in
  let t2 := addw 32 (e0 (ra r)) (Maj (ra r) (rb r) (rc r)) in
  mk_regs (addw 32 t1 t2) (ra r) (rb r) (rc r) (addw 32 (rd r) t1) (re r) (rf r) (rg r).

(** [W] is uninitialised in the source and written before it is read. *)
Definition sha256_transform (state input : list Z) : list Z :=
  let W := fill (LOAD_OP input) BLEND_OP 64 (replicate 64 0) in
  add_regs 32 state (fold_left (sha256_line W) (seq 0 64) (load_regs state)).

Record fio_sha256_ctx : Type := mk_sha256 { count : Z; state : list Z; buf : list Z }.

Definition sha256_initial : list Z :=
  [0x6a09e667; 0xbb67ae85; 0x3c6ef372; 0xa54ff53a; 0x510e527f; 0x9b05688c; 0x1f83d9ab; 0x5be0cd19].

Definition fio_sha256_init (sctx : fio_sha256_ctx) : fio_sha256_ctx :=
  mk_sha256 0 sha256_initial (buf sctx).

(** The [do ... while (done + 63 < len)] loop; [fuel] bounds the iterations. *)
Definition sha256_do := do_blocks 64 sha256_transform.

Definition fio_sha256_update (sctx : fio_sha256_ctx) (data : list Z) : option fio_sha256_ctx :=
  let len := zlength data in
  let partial := count sctx & 0x3f in
  let cnt := addw 32 (count sctx) len in
  if 63 <? addw 32 partial len then
    let* '(bf, src, don) :=
      (if c_true partial then
         let don := wrap 32 (- partial) in
         let* d := read_bytes (addw 32 don 64) data in
         let* bf := memcpy (buf sctx) partial d in
         Some (bf, bf, don)
       else Some (buf sctx, data, 0)) in
    let* '(st, src, don) := sha256_do (S (length data)) (state sctx) src data don in
    let* d := read_bytes (subw 32 len don) src in
    let* bf := memcpy bf 0 d in
    Some (mk_sha256 cnt st bf)
  else
    let* bf := memcpy (buf sctx) partial data in
    Some (mk_sha256 cnt (state sctx) bf).

(** The digest is left in the caller's buffer. *)
Definition fio_sha256_final (sctx : fio_sha256_ctx) : option (list Z) :=
  let padding := 0x80 :: replicate 63 0 in
  let bits := shlw 64 (count sctx) 3 in
  let index := count sctx & 0x3f in
  let pad_len := if index <? 56 then 56 - index else (64 + 56) - index in
  let* d := read_bytes pad_len padding in
  let* sctx := fio_sha256_update sctx d in
  let* sctx := fio_sha256_update sctx (le_bytes 8 bits) in
  memcpy (buf sctx) 0 (wrap 8 <$> take 8 (state sctx)).

(** The context of a caller: a buffer of one block. *)
Definition sha256_start : fio_sha256_ctx := fio_sha256_init (mk_sha256 0 [] (replicate 64 0)).

(** ** FIPS 180-4 *)

Definition sha256_compress : list Z -> list Z -> list Z :=
  fips_compress 32 4 64
    (fun x => rorw 32 x 2 ^^ rorw 32 x 13 ^^ rorw 32 x 22)
    (fun x => rorw 32 x 6 ^^ rorw 32 x 11 ^^ rorw 32 x 25)
    (fun x => rorw 32 x 7 ^^ rorw 32 x 18 ^^ (x >> 3))
    (fun x => rorw 32 x 17 ^^ rorw 32 x 19 ^^ (x >> 10)) sha256_K.

Definition sha256_hash (enc m : list Z) : list Z :=
  fold_left sha256_compress (full_blocks 64 (md_pad 64 enc m)) sha256_initial.

(** The standard's digest, and the one this code defines. *)
Definition sha256_standard (m : list Z) : list Z :=
  concat (be_bytes 4 <$> sha256_hash (be_bytes 8 (8 * zlength m)) m).

Definition sha256_reference (m : list Z) : list Z :=
  let enc := le_bytes 8 (8 * zlength m) in
  (wrap 8 <$> sha256_hash enc m) ++ drop 8 (last_block 64 (md_pad 64 enc m)).

Example sha256_standard_abc :
  sha256_standard [0x61; 0x62; 0x63] =
  be_bytes 32 0xba7816bf8f01cfea414140de5dae2223b00361a396177a9cb410ff61f20015ad.
Proof. vm_compute. reflexivity. Qed.

(** The digest of the code is another one. *)
Example sha256_abc :
  (let* c := fio_sha256_update sha256_start [0x61; 0x62; 0x63] in
   let* d := fio_sha256_final c in Some (take 8 d)) =
  Some (take 8 (sha256_reference [0x61; 0x62; 0x63])) /\
  take 8 (sha256_reference [0x61; 0x62; 0x63]) <> take 8 (sha256_standard [0x61; 0x62; 0x63]).
Proof. vm_compute. split; [reflexivity|discriminate]. Qed.

(** * Proofs *)

(** ** The transform *)

Lemma sha256_line_fips W r i :
  sha256_line W r i = fips_round 32 e0 e1 sha256_K W r i.
Proof.
  unfold sha256_line, fips_round, Ch, Maj. rewrite Ch_fips, Maj_fips.
  generalize (fips_Ch (re r) (rf r) (rg r)) (fips_Maj (ra r) (rb r) (rc r)) (e0 (ra r)) (e1 (re r)).
  intros ch maj z0 z1. f_equal; (wraps; apply (f_equal (wrap 32)); lia).
Qed.

Lemma sha256_blend_take W t : (16 <= t)%nat -> BLEND_OP W t = BLEND_OP (take t W) t.
Proof. intros Ht. unfold BLEND_OP. by rewrite !nth_take_lt by lia. Qed.

Lemma sha256_schedule input n : (16 <= n)%nat ->
  fill (LOAD_OP input) BLEND_OP n (replicate n 0) = fips_schedule 32 4 n s0 s1 input.
Proof.
  intros Hn. apply fill_unroll; [done|apply length_replicate|..|intros; by apply sha256_blend_take].
  - intros t W Ht. unfold fips_word. by destruct (Nat.ltb_spec t 16); [|lia].
  - intros t W Ht. unfold fips_word. destruct (Nat.ltb_spec t 16); [lia|].
    unfold BLEND_OP. wraps. done.
Qed.

Lemma sha256_transform_fips st input : sha256_transform st input = sha256_compress st input.
Proof.
  unfold sha256_transform, sha256_compress, fips_compress. rewrite sha256_schedule by lia. f_equal.
  apply fold_left_ext. intros r i. apply sha256_line_fips.
Qed.

Lemma sha256_compress_length h b : length (sha256_compress h b) = 8%nat.
Proof. reflexivity. Qed.

#[local] Opaque sha256_transform sha256_compress.

(** ** Streaming *)

Definition sha256_represents (m : list Z) (c : fio_sha256_ctx) : Prop :=
  buffered 64 sha256_transform sha256_initial m (state c) (buf c) /\ count c = wrap 32 (zlength m).

Lemma sha256_offset m c : sha256_represents m c -> count c & 0x3f = Z.of_nat (length (rest 64 m)).
Proof. intros [_ ->]. apply (count_rest 32 6). lia. Qed.

(** What follows the loop. *)
Lemma sha256_store m st b bf src data don k cnt :
  addw 32 don 64 = Z.of_nat k -> (k <= length data)%nat -> zlength data < 2 ^ 32 - 64 ->
  length bf = 64%nat -> take 64 src = b -> length b = 64%nat ->
  fold_left sha256_transform (full_blocks 64 m) sha256_initial =
    fold_left sha256_transform (full_blocks 64 (drop k data)) (sha256_transform st b) ->
  rest 64 m = rest 64 (drop k data) -> cnt = wrap 32 (zlength m) ->
  exists c', (let* '(st, src, don) := sha256_do (S (length data)) st src data don in
    let* d := read_bytes (subw 32 (zlength data) don) src in
    let* bf := memcpy bf 0 d in
    Some (mk_sha256 cnt st bf)) = Some c' /\ sha256_represents m c' /\
    (rest 64 m = [] -> buf c' = bf).
Proof.
  intros Hdon Hk Hlim Hbf Hb Hlb Hst Hr ->.
  unfold sha256_do.
  destruct (do_blocks_spec 64 ltac:(lia) sha256_transform (S (length data)) st src data don k)
    as (don' & -> & Hd); [done|done|lia|unfold zlength in *; lia| |].
  { rewrite <- Hb, length_take in Hlb. lia. }
  cbn [mbind option_bind]. rewrite Hd, Hb, <- Hst.
  rewrite read_bytes_Some by (unfold zlength; lia). cbn [mbind option_bind].
  rewrite zlength_to_nat, take_ge by lia.
  destruct (buffered_store 64 ltac:(lia) sha256_transform sha256_initial m _ bf (drop k data) eq_refl Hbf Hr)
    as (b' & E & Hb'). rewrite E. eexists. split; [reflexivity|]. split; [split; [exact Hb'|reflexivity]|].
  intros Hnil. rewrite <- Hr, Hnil, memcpy_Some in E by (unfold zlength; cbn [length]; lia).
  injection E as <-. reflexivity.
Qed.

Lemma sha256_update_spec m c d : sha256_represents m c -> zlength d < 2 ^ 32 - 64 ->
  exists c', fio_sha256_update c d = Some c' /\ sha256_represents (m ++ d) c' /\
    ((0 < length d)%nat -> (length (rest 64 m) + length d = 64)%nat -> rest 64 m <> [] -> buf c' = rest 64 m ++ d).
Proof.
  intros Hrep Hlim. pose proof (sha256_offset m c Hrep) as Hoff. destruct Hrep as [Hbuf Hcnt].
  pose proof (rest_lt 64 ltac:(lia) m) as Hlt. unfold fio_sha256_update.
  rewrite Hoff. set (p := length (rest 64 m)) in *.
  assert (addw 32 (count c) (zlength d) = wrap 32 (zlength (m ++ d))) as ->.
  { unfold addw. by rewrite Hcnt, count_append. }
  assert (addw 32 (Z.of_nat p) (zlength d) = Z.of_nat p + zlength d) as ->.
  { apply wrap_small. unfold zlength, is_word in *. lia. }
  destruct (Z.ltb_spec 63 (Z.of_nat p + zlength d)) as [Hge|Hge]; unfold zlength in Hge.
  - destruct (buffered_long 64 ltac:(lia) _ _ m _ _ d Hbuf) as (E1 & E2 & E3 & Hk); [fold p; lia|].
    fold p in E1, E2, E3, Hk. destruct (c_true (Z.of_nat p)) eqn:Hp.
    + apply c_true_iff in Hp.
      assert (addw 32 (wrap 32 (- Z.of_nat p)) 64 = Z.of_nat (64 - p)) as Hd.
      { unfold addw. rewrite wrap_add_l, wrap_small by (unfold is_word; lia). lia. }
      rewrite Hd. rewrite read_bytes_Some by (unfold zlength; lia). cbn [mbind option_bind].
      rewrite Nat2Z.id, E1. cbn [mbind option_bind].
      assert (length (rest 64 m ++ take (64 - p) d) = 64%nat) as Hl.
      { rewrite length_app, length_take. fold p. lia. }
      destruct (sha256_store (m ++ d) (state c) (rest 64 m ++ take (64 - p) d) (rest 64 m ++ take (64 - p) d)
        (rest 64 m ++ take (64 - p) d) d (wrap 32 (- Z.of_nat p)) (64 - p) (wrap 32 (zlength (m ++ d))))
        as (c' & E & H1 & H2); [done|lia|done|done|by apply take_ge; lia|done|done|done|done|].
      exists c'. split; [exact E|]. split; [exact H1|]. intros _ Hfull _. rewrite H2.
      * rewrite (take_ge d) by lia. reflexivity.
      * rewrite E3, drop_ge by lia. by destruct (full_blocks_short 64 ltac:(lia) []) as [_ ->]; [cbn; lia|].
    + apply c_true_false_iff in Hp. assert (rest 64 m = []) as Hr by (apply length_zero_iff_nil; fold p; lia).
      cbn [mbind option_bind]. replace (64 - p)%nat with 64%nat in * by lia. rewrite Hr, app_nil_l in E2.
      destruct (sha256_store (m ++ d) (state c) (take 64 d) (buf c) d d 0 64 (wrap 32 (zlength (m ++ d))))
        as (c' & E & H1 & H2); [done|lia|done|apply Hbuf|done|rewrite length_take; lia|done|done|done|].
      exists c'. split; [exact E|]. split; [exact H1|]. done.
  - unfold p. destruct (buffered_short 64 ltac:(lia) _ _ m _ _ d Hbuf) as (b & -> & Hb); [fold p; lia|].
    eexists. split; [reflexivity|]. split; [split; [exact Hb|reflexivity]|]. fold p. intros; lia.
Qed.

Lemma sha256_pad_bytes m c : sha256_represents m c ->
  let index := count c & 0x3f in
  read_bytes (if index <? 56 then 56 - index else (64 + 56) - index) (0x80 :: replicate 63 0) =
  Some (take (pad_first 64 (le_bytes 8 (8 * zlength m)) m) (0x80 :: replicate (64 - 1) 0)).
Proof.
  intros Hrep index. unfold index. rewrite (sha256_offset m c Hrep). pose proof (rest_lt 64 ltac:(lia) m).
  unfold pad_first. rewrite <- (length_rest 64 ltac:(lia) m), le_bytes_length.
  set (p := length (rest 64 m)) in *. unfold read_bytes, zlength.
  change (length (0x80 :: replicate 63 0)) with 64%nat.
  destruct (Z.ltb_spec (Z.of_nat p) 56).
  - rewrite <- (Nat.mod_unique (2 * 64 - 1 - 8 - p) 64 1 (55 - p)) by lia.
    zcases; [|lia..]. cbn [andb]. do 2 f_equal. lia.
  - rewrite Nat.mod_small by lia. zcases; [|lia..]. cbn [andb]. do 2 f_equal. lia.
Qed.

Lemma sha256_final_spec m c : sha256_represents m c -> zlength m < 2 ^ 32 ->
  fio_sha256_final c = Some (sha256_reference m).
Proof.
  intros Hrep Hlim. unfold fio_sha256_final. rewrite (sha256_pad_bytes m c Hrep).
  assert (shlw 64 (count c) 3 = 8 * zlength m) as ->.
  { destruct Hrep as [_ ->]. unfold zlength, shlw in *. rewrite (wrap_small 32) by (unfold is_word; lia).
    rewrite Z.shiftl_mul_pow2, wrap_small by (unfold is_word; lia). lia. }
  cbn [mbind option_bind]. set (enc := le_bytes 8 (8 * zlength m)).
  assert (length enc = 8)%nat as He by apply le_bytes_length.
  set (pad := take (pad_first 64 enc m) (0x80 :: replicate (64 - 1) 0)).
  assert (length pad <= 64)%nat by (unfold pad; rewrite length_take; cbn [length]; rewrite length_replicate; lia).
  destruct (sha256_update_spec _ _ pad Hrep) as (c1 & -> & H1 & _); [unfold zlength; lia|].
  cbn [mbind option_bind].
  destruct (sha256_update_spec _ _ enc H1) as (c2 & -> & [[H2 H3] _] & H4); [unfold zlength; lia|].
  assert (length (rest 64 (m ++ pad)) + length enc = 64)%nat as Hr by (apply rest_pad_first; lia).
  cbn [mbind option_bind]. rewrite H4 by (try lia; intros E; rewrite E in Hr; cbn [length] in Hr; lia).
  unfold sha256_reference. fold enc. rewrite md_pad_updates by lia. fold pad.
  rewrite (last_block_rest 64) by (done || lia). unfold pad in H2. rewrite <- (md_pad_updates 64 enc m) in H2 by lia.
  rewrite H2. unfold sha256_hash. rewrite (fold_left_ext _ _ sha256_transform_fips).
  set (h := fold_left _ _ _). assert (length h = 8)%nat as Hh.
  { unfold h. apply fold_left_length; [intros; apply sha256_compress_length|reflexivity]. }
  rewrite take_ge by lia. rewrite memcpy_Some by (unfold zlength; rewrite ?length_fmap, ?length_app; lia).
  by rewrite length_fmap, Hh.
Qed.

#[export] Instance sha256_digest : Digest fio_sha256_ctx (list Z).
Proof.
  refine {| d_init := sha256_start; d_update := fio_sha256_update; d_final := fio_sha256_final;
    d_piece d := zlength d < 2 ^ 32 - 64; d_limit := 2 ^ 32;
    represents := sha256_represents; reference := sha256_reference |}.
  - split; [by apply (buffered_init 64); [lia|]|done].
  - intros m c d Hc _ Hd _. destruct (sha256_update_spec m c d Hc Hd) as (c' & E & H & _). by exists c'.
  - apply sha256_final_spec.
Defined.

(** C10: The crc/ library's SHA-256, over any way of cutting a message shorter than
    4 GiB into updates, leaves in the caller's 64-byte buffer a function of the message
    alone: the compression function of FIPS 180-4 over the message padded with its
    length in little-endian order, each state word truncated to a byte, then the rest of
    the last padded block; so the 64 bytes that verification compares are
    deterministic, though they are not the standard's digest. *)
Theorem sha256_digest_correct pieces :
  Forall bytes pieces -> Forall (fun d => zlength d < 2 ^ 32 - 64) pieces ->
  zlength (concat pieces) < 2 ^ 32 ->
  (let* c := feed sha256_start pieces in fio_sha256_final c) = Some (sha256_reference (concat pieces)).
Proof. exact (@digest_pieces _ _ sha256_digest pieces). Qed.

Lemma sha256_digest_witness :
  (let* c := feed sha256_start [[0x61]; replicate 70 0x62; []] in fio_sha256_final c) =
  Some (sha256_reference (concat [[0x61]; replicate 70 0x62; []])).
Proof.
  apply sha256_digest_correct; [|repeat constructor|reflexivity].
  unfold bytes. apply (bool_decide_unpack _). vm_compute. exact I.
Defined.
