(* ===== verification/Sha512.v ===== *)
(** crc/sha512.c: the SHA-512 digest, with its 128-bit bit counter in four words. *)
From S2P Require Import Prelude Stream Sha2.
Local Open Scope word_scope.

Definition Ch (x y z : Z) : Z := z ^^ (x & (y ^^ z)).
Definition Maj (x y z : Z) : Z := Z.lor (x & y) (z & Z.lor x y).
Definition RORuint64_t (x y : Z) : Z := rorw 64 x y.

Definition sha512_K : list Z := [
  0x428a2f98d728ae22; 0x7137449123ef65cd; 0xb5c0fbcfec4d3b2f; 0xe9b5dba58189dbbc;
  0x3956c25bf348b538; 0x59f111f1b605d019; 0x923f82a4af194f9b; 0xab1c5ed5da6d8118;
  0xd807aa98a3030242; 0x12835b0145706fbe; 0x243185be4ee4b28c; 0x550c7dc3d5ffb4e2;
  0x72be5d74f27b896f; 0x80deb1fe3b1696b1; 0x9bdc06a725c71235; 0xc19bf174cf692694;
  0xe49b69c19ef14ad2; 0xefbe4786384f25e3; 0x0fc19dc68b8cd5b5; 0x240ca1cc77ac9c65;
  0x2de92c6f592b0275; 0x4a7484aa6ea6e483; 0x5cb0a9dcbd41fbd4; 0x76f988da831153b5;
  0x983e5152ee66dfab; 0xa831c66d2db43210; 0xb00327c898fb213f; 0xbf597fc7beef0ee4;
  0xc6e00bf33da88fc2; 0xd5a79147930aa725; 0x06ca6351e003826f; 0x142929670a0e6e70;
  0x27b70a8546d22ffc; 0x2e1b21385c26c926; 0x4d2c6dfc5ac42aed; 0x53380d139d95b3df;
  0x650a73548baf63de; 0x766a0abb3c77b2a8; 0x81c2c92e47edaee6; 0x92722c851482353b;
  0xa2bfe8a14cf10364; 0xa81a664bbc423001; 0xc24b8b70d0f89791; 0xc76c51a30654be30;
  0xd192e819d6ef5218; 0xd69906245565a910; 0xf40e35855771202a; 0x106aa07032bbd1b8;
  0x19a4c116b8d2d0c8; 0x1e376c085141ab53; 0x2748774cdf8eeb99; 0x34b0bcb5e19b48a8;
  0x391c0cb3c5c95a63; 0x4ed8aa4ae3418acb; 0x5b9cca4f7763e373; 0x682e6ff3d6b2b8a3;
  0x748f82ee5defb2fc; 0x78a5636f43172f60; 0x84c87814a1f0ab72; 0x8cc702081a6439ec;
  0x90befffa23631e28; 0xa4506cebde82bde9; 0xbef9a3f7b2c67915; 0xc67178f2e372532b;
  0xca273eceea26619c; 0xd186b8c721c0c207; 0xeada7dd6cde0eb1e; 0xf57d4f7fee6ed178;
  0x06f067aa72176fba; 0x0a637dc5a2c898a6; 0x113f9804bef90dae; 0x1b710b35131c471b;
  0x28db77f523047d84; 0x32caab7b40c72493; 0x3c9ebe0a15c9bebc; 0x431d67c49c100d4c;
  0x4cc5d4becb3e42b6; 0x597f299cfc657e2a; 0x5fcb6fab3ad6faec; 0x6c44198c4a475817].

Definition e0 (x : Z) : Z := RORuint64_t x 28 ^^ RORuint64_t x 34 ^^ RORuint64_t x 39.
Definition e1 (x : Z) : Z := RORuint64_t x 14 ^^ RORuint64_t x 18 ^^ RORuint64_t x 41.
Definition s0 (x : Z) : Z := RORuint64_t x 1 ^^ RORuint64_t x 8 ^^ (x >> 7).
Definition s1 (x : Z) : Z := RORuint64_t x 19 ^^ RORuint64_t x 61 ^^ (x >> 6).

Definition LOAD_OP (input : list Z) (I : nat) : Z := word_be 8 input I.
Definition BLEND_OP (W : list Z) (I : nat) : Z :=
  addw 64 (addw 64 (addw 64 (s1 (nth (I - 2) W 0)) (nth (I - 7) W 0)) (s0 (nth (I - 15) W 0))) (nth (I - 16) W 0).

(** One pair of lines of the loop body, which names the registers one place further on
    from pair to pair; eight pairs bring them back. *)
Definition sha512_line (W : list Z) (r : regs) (i : nat) : regs :=
  let t1 := addw 64 (addw 64 (addw 64 (addw 64 (rh r) (e1 (re r))) (Ch (re r) (rf r) (rg r)))
              (nth i sha512_K 0)) (nth i W 0) in
  let t2 := addw 64 (e0 (ra r)) (Maj (ra r) (rb r) (rc r)) in
  mk_regs (addw 64 t1 t2) (ra r) (rb r) (rc r) (addw 64 (rd r) t1) (re r) (rf r) (rg r).

(** [for (i = 0; i < 80; i += 8)] with its eight pairs of lines. *)
Definition sha512_eight (W : list Z) (r : regs) (i : nat) : regs :=
  fold_left (sha512_line W) (seq (8 * i) 8) r.

(** The new state and the schedule left in the context's scratch array. *)
Definition sha512_transform (state W input : list Z) : list Z * list Z :=
  let W := fill (LOAD_OP input) BLEND_OP 80 W in
  (add_regs 64 state (fold_left (sha512_eight W) (seq 0 10) (load_regs state)), W).

Record fio_sha512_ctx : Type := mk_sha512 {
  state : list Z; count : list Z; buf : list Z; sctx_W : list Z }.

Definition sha512_initial : list Z := [
  0x6a09e667f3bcc908; 0xbb67ae8584caa73b; 0x3c6ef372fe94f82b; 0xa54ff53a5f1d36f1;
  0x510e527fade682d1; 0x9b05688c2b3e6c1f; 0x1f83d9abfb41bd6b; 0x5be0cd19137e2179].

Definition fio_sha512_init (sctx : fio_sha512_ctx) : fio_sha512_ctx :=
  mk_sha512 sha512_initial [0; 0; 0; 0] (buf sctx) (sctx_W sctx).

(** The bit counter: [count[0] += len << 3] and its carries. *)
Definition sha512_count (count : list Z) (len : Z) : list Z :=
  let c0 := addw 32 (tbl count 0) (shlw 32 len 3) in
  let c1 := tbl count 1 in let c2 := tbl count 2 in let c3 := tbl count 3 in
  if c0 <? shlw 32 len 3 then
    let c1 := addw 32 c1 1 in
    let '(c2, c3) :=
      (if c1 <? 1 then
         let c2 := addw 32 c2 1 in (c2, if c2 <? 1 then addw 32 c3 1 else c3)
       else (c2, c3)) in
    [c0; addw 32 c1 (len >> 29); c2; c3]
  else [c0; c1; c2; c3].

(** [for (i = part_len; i + 127 < len; i += 128)] *)
Fixpoint sha512_loop (fuel : nat) (st W data : list Z) (i : Z) : option (list Z * list Z * Z) :=
  match fuel with
  | O => None
  | S fuel =>
      if addw 32 i 127 <? zlength data then
        let* blk := read_bytes 128 (drop (Z.to_nat i) data) in
        let '(st, W) := sha512_transform st W blk in
        sha512_loop fuel st W data (addw 32 i 128)
      else Some (st, W, i)
  end.

Definition fio_sha512_update (sctx : fio_sha512_ctx) (data : list Z) : option fio_sha512_ctx :=
  let len := zlength data in
  let idx := tbl (count sctx) 0 >> 3 & 0x7F in
  let cnt := sha512_count (count sctx) len in
  let part_len := 128 - idx in
  let* '(st, bf, idx, i) :=
    (if part_len <=? len then
       let* d := read_bytes part_len data in
       let* bf := memcpy (buf sctx) idx d in
       let* blk := read_bytes 128 bf in
       let '(st, W) := sha512_transform (state sctx) (sctx_W sctx) blk in
       let* '(st, W, i) := sha512_loop (S (length data)) st W data part_len in
       Some (st, bf, 0, i)
     else Some (state sctx, buf sctx, idx, 0)) in
  let* d := read_bytes (subw 32 len i) (drop (Z.to_nat i) data) in
  let* bf := memcpy bf idx d in
  Some (mk_sha512 st cnt bf (replicate 80 0)).

(** The digest is left at the start of the caller's buffer. *)
Definition fio_sha512_final (sctx : fio_sha512_ctx) : option (list Z) :=
  let padding := 0x80 :: replicate 127 0 in
  let c := count sctx in
  let bits := be_bytes 4 (tbl c 3) ++ be_bytes 4 (tbl c 2) ++ be_bytes 4 (tbl c 1) ++ be_bytes 4 (tbl c 0) in
  let index := tbl c 0 >> 3 & 0x7f in
  let pad_len := if index <? 112 then 112 - index else (128 + 112) - index in
  let* d := read_bytes pad_len padding in
  let* sctx := fio_sha512_update sctx d in
  let* sctx := fio_sha512_update sctx bits in
  memcpy (buf sctx) 0 (concat (be_bytes 8 <$> take 8 (state sctx))).

Definition sha512_start : fio_sha512_ctx :=
  fio_sha512_init (mk_sha512 [] [] (replicate 128 0) (replicate 80 0)).

(** ** FIPS 180-4 *)

Definition sha512_compress : list Z -> list Z -> list Z :=
  fips_compress 64 8 80
    (fun x => rorw 64 x 28 ^^ rorw 64 x 34 ^^ rorw 64 x 39)
    (fun x => rorw 64 x 14 ^^ rorw 64 x 18 ^^ rorw 64 x 41)
    (fun x => rorw 64 x 1 ^^ rorw 64 x 8 ^^ (x >> 7))
    (fun x => rorw 64 x 19 ^^ rorw 64 x 61 ^^ (x >> 6)) sha512_K.

Definition sha512_hash (m : list Z) : list Z :=
  fold_left sha512_compress (full_blocks 128 (md_pad 128 (be_bytes 16 (8 * zlength m)) m)) sha512_initial.

Definition sha512_standard (m : list Z) : list Z := concat (be_bytes 8 <$> sha512_hash m).

(** The whole buffer: the standard's digest, then the end of the last padded block. *)
Definition sha512_reference (m : list Z) : list Z :=
  sha512_standard m ++ drop 64 (last_block 128 (md_pad 128 (be_bytes 16 (8 * zlength m)) m)).

Example sha512_standard_abc :
  sha512_standard [0x61; 0x62; 0x63] = be_bytes 64
    0xddaf35a193617abacc417349ae20413112e6fa4e89a97ea20a9eeee64b55d39a2192992a274fc1a836ba3c23a3feebbd454d4423643ce80e2a9ac94fa54ca49f.
Proof. vm_compute. reflexivity. Qed.

Example sha512_abc :
  (let* c := fio_sha512_update sha512_start [0x61; 0x62; 0x63] in fio_sha512_final c) =
  Some (sha512_reference [0x61; 0x62; 0x63]).
Proof. vm_compute. reflexivity. Qed.

(** An update of 2^29 bytes or more does not count them all: the upper bits of the
    length are added only together with a carry out of the low word. *)
Example sha512_count_large :
  sha512_count [0; 0; 0; 0] (2 ^ 29) = [0; 0; 0; 0] /\
  sha512_count [0; 0; 0; 0] (2 ^ 29 + 1) = [8; 0; 0; 0].
Proof. split; reflexivity. Qed.

(** * Proofs *)

(** ** The transform *)

Lemma sha512_line_fips W r i :
  sha512_line W r i = fips_round 64 e0 e1 sha512_K W r i.
Proof.
  unfold sha512_line, fips_round, Ch, Maj. rewrite Ch_fips, Maj_fips.
  generalize (fips_Ch (re r) (rf r) (rg r)) (fips_Maj (ra r) (rb r) (rc r)) (e0 (ra r)) (e1 (re r)).
  intros ch maj z0 z1. f_equal; (wraps; apply (f_equal (wrap 64)); lia).
Qed.

Lemma sha512_eights W n : forall r,
  fold_left (sha512_eight W) (seq 0 n) r = fold_left (sha512_line W) (seq 0 (8 * n)) r.
Proof.
  induction n as [|n IH]; intros r; [done|].
  rewrite seq_S, fold_left_app, IH. replace (8 * S n)%nat with (8 * n + 8)%nat by lia.
  rewrite seq_app, fold_left_app. reflexivity.
Qed.

Lemma sha512_blend_take W t : (16 <= t)%nat -> BLEND_OP W t = BLEND_OP (take t W) t.
Proof. intros Ht. unfold BLEND_OP. by rewrite !nth_take_lt by lia. Qed.

Lemma sha512_schedule input n W : (16 <= n)%nat -> length W = n ->
  fill (LOAD_OP input) BLEND_OP n W = fips_schedule 64 8 n s0 s1 input.
Proof.
  intros Hn HW. apply fill_unroll; [done|done|..|intros; by apply sha512_blend_take].
  - intros t w Ht. unfold fips_word. by destruct (Nat.ltb_spec t 16); [|lia].
  - intros t w Ht. unfold fips_word. destruct (Nat.ltb_spec t 16); [lia|].
    unfold BLEND_OP. wraps. done.
Qed.

Lemma sha512_transform_fips st W input : length W = 80%nat ->
  exists W', sha512_transform st W input = (sha512_compress st input, W') /\ length W' = 80%nat.
Proof.
  intros HW. exists (fill (LOAD_OP input) BLEND_OP 80 W). unfold sha512_transform. split.
  - f_equal. rewrite sha512_schedule by (done || lia). unfold sha512_compress, fips_compress. f_equal.
    rewrite sha512_eights. apply fold_left_ext. intros r i. apply sha512_line_fips.
  - rewrite sha512_schedule by (done || lia). apply unroll_length.
Qed.

Lemma sha512_compress_length h b : length (sha512_compress h b) = 8%nat.
Proof. reflexivity. Qed.

#[local] Opaque sha512_transform sha512_compress.

(** ** The bit counter *)

Definition count_value (c : list Z) : Z :=
  tbl c 0 + 2 ^ 32 * tbl c 1 + 2 ^ 64 * tbl c 2 + 2 ^ 96 * tbl c 3.

Definition count_ok (c : list Z) (v : Z) : Prop :=
  count_value c = v /\ Forall (is_word 32) c /\ length c = 4%nat.

Lemma count4_ok c0 c1 c2 c3 v : is_word 32 c0 -> is_word 32 c1 -> is_word 32 c2 -> is_word 32 c3 ->
  c0 + 2 ^ 32 * c1 + 2 ^ 64 * c2 + 2 ^ 96 * c3 = v -> count_ok [c0; c1; c2; c3] v.
Proof. intros. split; [done|]. split; [|done]. repeat (apply Forall_cons_2; [done|]). apply Forall_nil_2. Qed.

Definition sha512_count4 (c0 c1 c2 c3 len : Z) : list Z := Eval cbv -[addw shlw Z.shiftr Z.ltb] in
  sha512_count [c0; c1; c2; c3] len.

Lemma sha512_count_ok c v len : count_ok c v -> 0 <= len < 2 ^ 29 -> v + 8 * len < 2 ^ 128 ->
  count_ok (sha512_count c len) (v + 8 * len).
Proof.
  intros (Hv & Hw & Hl) Hlen Hlim.
  destruct c as [|c0 [|c1 [|c2 [|c3 [|]]]]]; try done.
  repeat match goal with H : Forall _ (_ :: _) |- _ => apply Forall_cons_1 in H as [? H] end.
  unfold is_word in *. change (c0 + 2 ^ 32 * c1 + 2 ^ 64 * c2 + 2 ^ 96 * c3 = v) in Hv.
  change (sha512_count _ _) with (sha512_count4 c0 c1 c2 c3 len). unfold sha512_count4.
  assert (shlw 32 len 3 = 8 * len) as ->.
  { unfold shlw. rewrite Z.shiftl_mul_pow2, wrap_small by (unfold is_word; lia). lia. }
  assert (len >> 29 = 0) as -> by (rewrite Z.shiftr_div_pow2, Z.div_small; lia).
  assert (forall a b, 0 <= a < 2 ^ 32 -> 0 <= b < 2 ^ 32 ->
    addw 32 a b = a + b /\ a + b < 2 ^ 32 \/ addw 32 a b = a + b - 2 ^ 32 /\ 2 ^ 32 <= a + b) as Hadd.
  { intros a b Ha Hb. unfold addw, wrap. destruct (Z.lt_ge_cases (a + b) (2 ^ 32)).
    - left. rewrite Z.mod_small; lia.
    - right. split; [|lia]. symmetry. apply Z.mod_unique with 1; lia. }
  destruct (Hadd c0 (8 * len) ltac:(lia) ltac:(lia)) as [[-> ?]|[-> ?]];
  destruct (Hadd c1 1 ltac:(lia) ltac:(lia)) as [[E1 ?]|[E1 ?]]; rewrite ?E1;
  destruct (Hadd c2 1 ltac:(lia) ltac:(lia)) as [[E2 ?]|[E2 ?]]; rewrite ?E2;
  destruct (Hadd c3 1 ltac:(lia) ltac:(lia)) as [[E3 ?]|[E3 ?]]; rewrite ?E3;
  zcases; try lia;
  (rewrite ?(addw_zero 32) by (unfold is_word; lia); apply count4_ok; unfold is_word; lia).
Qed.

(** ** Streaming *)

Definition sha512_represents (m : list Z) (c : fio_sha512_ctx) : Prop :=
  buffered 128 sha512_compress sha512_initial m (state c) (buf c) /\
  count_ok (count c) (8 * zlength m) /\ length (sctx_W c) = 80%nat.

Lemma sha512_offset m c : sha512_represents m c ->
  tbl (count c) 0 >> 3 & 0x7f = Z.of_nat (length (rest 128 m)).
Proof.
  intros (_ & (Hv & Hw & Hl) & _). destruct (count c) as [|c0 [|c1 [|c2 [|c3 [|]]]]]; try done.
  change (c0 + 2 ^ 32 * c1 + 2 ^ 64 * c2 + 2 ^ 96 * c3 = 8 * zlength m) in Hv.
  change (tbl [c0; c1; c2; c3] 0) with c0. rewrite <- (count_rest 64 7) by lia.
  change 0x7f with (Z.ones 7). rewrite !Z.land_ones, Z.shiftr_div_pow2 by lia.
  unfold wrap. replace 64 with (7 + 57) by lia. rewrite (Z.pow_add_r 2 7 57) by lia.
  rewrite Z.rem_mul_r by lia. rewrite (Z.mul_comm (2 ^ 7)), Z.mod_add, Z.mod_mod by lia.
  replace (zlength m) with (c0 / 2 ^ 3 + (2 ^ 22 * c1 + 2 ^ 54 * c2 + 2 ^ 86 * c3) * 2 ^ 7).
  - by rewrite Z.mod_add.
  - pose proof (Z.div_mod c0 (2 ^ 3) ltac:(lia)). pose proof (Z.mod_pos_bound c0 (2 ^ 3) ltac:(lia)). lia.
Qed.

Lemma sha512_loop_spec fuel : forall st W data k, length W = 80%nat ->
  (k <= length data)%nat -> (length data - k < fuel)%nat -> zlength data < 2 ^ 29 ->
  exists W' i, sha512_loop fuel st W data (Z.of_nat k) = Some
    (fold_left sha512_compress (full_blocks 128 (drop k data)) st, W', i) /\
    length W' = 80%nat /\ drop (Z.to_nat i) data = rest 128 (drop k data) /\
    subw 32 (zlength data) i = zlength (rest 128 (drop k data)).
Proof.
  induction fuel as [|fuel IH]; intros st W data k HW Hk Hf Hlim; [lia|]. cbn [sha512_loop].
  unfold zlength in *. unfold addw at 1. rewrite wrap_small by (unfold is_word; lia). rewrite Nat2Z.id.
  destruct (Z.ltb_spec (Z.of_nat k + 127) (Z.of_nat (length data))).
  - rewrite read_bytes_Some by (unfold zlength; rewrite length_drop; lia). cbn [mbind option_bind].
    change (Z.to_nat 128) with 128%nat.
    destruct (sha512_transform_fips st W (take 128 (drop k data)) HW) as (W1 & -> & HW1).
    destruct (full_blocks_long 128 ltac:(lia) (drop k data)) as [-> ->]; [rewrite length_drop; lia|].
    rewrite fold_left_cons, drop_drop.
    replace (addw 32 (Z.of_nat k) 128) with (Z.of_nat (k + 128)).
    + apply IH; [done|lia..].
    + unfold addw. rewrite wrap_small by (unfold is_word; lia). lia.
  - destruct (full_blocks_short 128 ltac:(lia) (drop k data)) as [-> ->]; [rewrite length_drop; lia|].
    exists W, (Z.of_nat k). rewrite Nat2Z.id. split; [done|]. split; [done|]. split; [done|].
    unfold subw. rewrite length_drop, wrap_small by (unfold is_word; lia). lia.
Qed.

Lemma sha512_update_spec m c d : sha512_represents m c -> zlength d < 2 ^ 29 ->
  zlength (m ++ d) < 2 ^ 125 ->
  exists c', fio_sha512_update c d = Some c' /\ sha512_represents (m ++ d) c' /\
    ((length (rest 128 m) + length d = 128)%nat -> buf c' = rest 128 m ++ d).
Proof.
  intros Hrep Hlim Htot. pose proof (sha512_offset m c Hrep) as Hoff. destruct Hrep as (Hbuf & Hcnt & HW).
  pose proof (rest_lt 128 ltac:(lia) m) as Hlt. unfold fio_sha512_update. rewrite Hoff.
  rewrite zlength_app in Htot.
  apply (sha512_count_ok _ _ (zlength d)) in Hcnt; [|unfold zlength in *; lia..].
  rewrite <- Z.mul_add_distr_l, <- zlength_app in Hcnt. set (p := length (rest 128 m)) in *.
  destruct (Z.leb_spec (128 - Z.of_nat p) (zlength d)) as [Hge|Hge]; unfold zlength in Hge.
  - destruct (buffered_long 128 ltac:(lia) _ _ m _ _ d Hbuf) as (E1 & E2 & E3 & Hk); [fold p; lia|].
    fold p in E1, E2, E3, Hk. rewrite read_bytes_Some by (unfold zlength; lia). cbn [mbind option_bind].
    replace (128 - Z.of_nat p) with (Z.of_nat (128 - p)) by lia. rewrite Nat2Z.id, E1. cbn [mbind option_bind].
    assert (length (rest 128 m ++ take (128 - p) d) = 128%nat) as Hl.
    { rewrite length_app, length_take. fold p. lia. }
    rewrite read_bytes_Some by (unfold zlength; lia). cbn [mbind option_bind].
    rewrite (take_ge _ (Z.to_nat 128)) by lia.
    destruct (sha512_transform_fips (state c) (sctx_W c) (rest 128 m ++ take (128 - p) d) HW) as (W1 & -> & HW1).
    destruct (sha512_loop_spec (S (length d)) (sha512_compress (state c) (rest 128 m ++ take (128 - p) d))
      W1 d (128 - p)) as (W2 & i & -> & HW2 & Hi & Hi'); [done|lia|lia|done|]. cbn [mbind option_bind].
    rewrite Hi, Hi', <- E2, read_bytes_Some by (unfold zlength; lia). cbn [mbind option_bind].
    rewrite zlength_to_nat, firstn_all.
    destruct (buffered_store 128 ltac:(lia) sha512_compress sha512_initial (m ++ d) _ _ _ eq_refl Hl E3)
      as (b' & E & Hb'). rewrite E. eexists. split; [reflexivity|]. split.
    { split; [exact Hb'|]. split; [exact Hcnt|]. apply length_replicate. }
    intros Hfull. rewrite (drop_ge d), (take_ge d) in E by lia.
    destruct (full_blocks_short 128 ltac:(lia) []) as [_ Hnil]; [cbn; lia|].
    rewrite Hnil, memcpy_Some in E by (unfold zlength; cbn [length]; lia). injection E as <-. reflexivity.
  - cbn [mbind option_bind]. change (drop (Z.to_nat 0) d) with d.
    assert (subw 32 (zlength d) 0 = zlength d) as ->.
    { unfold subw. rewrite Z.sub_0_r, wrap_small; unfold zlength, is_word in *; lia. }
    rewrite read_bytes_Some by (unfold zlength; lia). cbn [mbind option_bind].
    rewrite zlength_to_nat, firstn_all. unfold p.
    destruct (buffered_short 128 ltac:(lia) _ _ m _ _ d Hbuf) as (b & -> & Hb); [fold p; lia|].
    eexists. split; [reflexivity|]. split.
    { split; [exact Hb|]. split; [exact Hcnt|]. apply length_replicate. }
    fold p. intros; lia.
Qed.

Lemma sha512_pad_bytes m c : sha512_represents m c ->
  let index := tbl (count c) 0 >> 3 & 0x7f in
  read_bytes (if index <? 112 then 112 - index else (128 + 112) - index) (0x80 :: replicate 127 0) =
  Some (take (pad_first 128 (be_bytes 16 (8 * zlength m)) m) (0x80 :: replicate (128 - 1) 0)).
Proof.
  intros Hrep index. unfold index. rewrite (sha512_offset m c Hrep). pose proof (rest_lt 128 ltac:(lia) m).
  unfold pad_first. rewrite <- (length_rest 128 ltac:(lia) m), be_bytes_length.
  set (p := length (rest 128 m)) in *. unfold read_bytes, zlength.
  change (length (0x80 :: replicate 127 0)) with 128%nat.
  destruct (Z.ltb_spec (Z.of_nat p) 112).
  - rewrite <- (Nat.mod_unique (2 * 128 - 1 - 16 - p) 128 1 (111 - p)) by lia.
    zcases; [|lia..]. cbn [andb]. do 2 f_equal. lia.
  - rewrite Nat.mod_small by lia. zcases; [|lia..]. cbn [andb]. do 2 f_equal. lia.
Qed.

Lemma sha512_bits m c : sha512_represents m c ->
  be_bytes 4 (tbl (count c) 3) ++ be_bytes 4 (tbl (count c) 2) ++
    be_bytes 4 (tbl (count c) 1) ++ be_bytes 4 (tbl (count c) 0) =
  be_bytes 16 (8 * zlength m).
Proof.
  intros (_ & (Hv & Hw & Hl) & _). destruct (count c) as [|c0 [|c1 [|c2 [|c3 [|]]]]]; try done.
  change (c0 + 2 ^ 32 * c1 + 2 ^ 64 * c2 + 2 ^ 96 * c3 = 8 * zlength m) in Hv. rewrite <- Hv.
  repeat match goal with H : Forall _ (_ :: _) |- _ => apply Forall_cons_1 in H as [? H] end.
  unfold be_bytes. rewrite <- !rev_app_distr. f_equal. unfold is_word in *.
  change (tbl [c0; c1; c2; c3] 0) with c0. change (tbl [c0; c1; c2; c3] 1) with c1.
  change (tbl [c0; c1; c2; c3] 2) with c2. change (tbl [c0; c1; c2; c3] 3) with c3.
  assert (forall k a b, 0 <= a < 2 ^ 32 ->
    le_bytes (4 + k) (a + 2 ^ 32 * b) = le_bytes 4 a ++ le_bytes k b) as Happ.
  { intros k a b Ha. rewrite le_bytes_app, le_bytes_mod. change (8 * Z.of_nat 4) with 32.
    rewrite (Z.mul_comm (2 ^ 32)), Z.mod_add, Z.div_add, Z.mod_small, Z.div_small by lia. done. }
  replace (c0 + 2 ^ 32 * c1 + 2 ^ 64 * c2 + 2 ^ 96 * c3)
    with (c0 + 2 ^ 32 * (c1 + 2 ^ 32 * (c2 + 2 ^ 32 * c3))) by lia.
  rewrite (Happ 12%nat), (Happ 8%nat), (Happ 4%nat) by done. by rewrite <- !app_assoc.
Qed.

Lemma sha512_final_spec m c : sha512_represents m c -> zlength m < 2 ^ 125 - 256 ->
  fio_sha512_final c = Some (sha512_reference m).
Proof.
  intros Hrep Hlim. unfold fio_sha512_final. rewrite (sha512_pad_bytes m c Hrep), (sha512_bits m c Hrep).
  cbn [mbind option_bind]. set (enc := be_bytes 16 (8 * zlength m)).
  assert (length enc = 16)%nat as He by apply be_bytes_length.
  set (pad := take (pad_first 128 enc m) (0x80 :: replicate (128 - 1) 0)).
  assert (length pad <= 128)%nat by (unfold pad; rewrite length_take; cbn [length]; rewrite length_replicate; lia).
  destruct (sha512_update_spec _ _ pad Hrep) as (c1 & -> & H1 & _);
    [unfold zlength; lia|rewrite zlength_app; unfold zlength in *; lia|]. cbn [mbind option_bind].
  destruct (sha512_update_spec _ _ enc H1) as (c2 & -> & [[H2 H3] _] & H4);
    [unfold zlength; lia|rewrite !zlength_app; unfold zlength in *; lia|].
  assert (length (rest 128 (m ++ pad)) + length enc = 128)%nat as Hr by (apply rest_pad_first; lia).
  cbn [mbind option_bind]. rewrite H4 by done.
  unfold sha512_reference, sha512_standard. fold enc. rewrite md_pad_updates by lia. fold pad.
  rewrite (last_block_rest 128) by (done || lia). unfold pad in H2. rewrite <- (md_pad_updates 128 enc m) in H2 by lia.
  rewrite H2. unfold sha512_hash. fold enc.
  set (h := fold_left _ _ _). assert (length h = 8)%nat as Hh.
  { unfold h. apply fold_left_length; [intros; apply sha512_compress_length|reflexivity]. }
  rewrite take_ge by lia.
  assert (length (concat (be_bytes 8 <$> h)) = 64)%nat as Hc.
  { do 8 (destruct h as [|? h]; [done|]). by destruct h. }
  rewrite memcpy_Some by (unfold zlength; rewrite ?Hc, ?length_app; lia). by rewrite Hc.
Qed.

#[export] Instance sha512_digest : Digest fio_sha512_ctx (list Z).
Proof.
  refine {| d_init := sha512_start; d_update := fio_sha512_update; d_final := fio_sha512_final;
    d_piece d := zlength d < 2 ^ 29; d_limit := 2 ^ 125 - 256;
    represents := sha512_represents; reference := sha512_reference |}.
  - split; [by apply (buffered_init 128); [lia|]|]. split; [|done]. by apply count4_ok.
  - intros m c d Hc _ Hd Ht. destruct (sha512_update_spec m c d Hc Hd) as (c' & E & H & _); [lia|]. by exists c'.
  - apply sha512_final_spec.
Defined.

(** C11: The crc/ library's SHA-512, over any way of cutting a message into updates of
    less than 2^29 bytes, leaves in the caller's 128-byte buffer the digest of FIPS
    180-4, followed by the end of the last padded block: the four-word bit counter
    carries correctly for messages up to about 2^125 bytes, and the digest does not
    depend on the cutting. *)
Theorem sha512_digest_correct pieces :
  Forall bytes pieces -> Forall (fun d => zlength d < 2 ^ 29) pieces ->
  zlength (concat pieces) < 2 ^ 125 - 256 ->
  (let* c := feed sha512_start pieces in fio_sha512_final c) = Some (sha512_reference (concat pieces)).
Proof. exact (@digest_pieces _ _ sha512_digest pieces). Qed.

Lemma sha512_digest_witness :
  (let* c := feed sha512_start [[0x61]; replicate 130 0x62; []] in fio_sha512_final c) =
  Some (sha512_reference (concat [[0x61]; replicate 130 0x62; []])).
Proof.
  apply sha512_digest_correct; [|repeat constructor|reflexivity].
  unfold bytes. apply (bool_decide_unpack _). vm_compute. exact I.
Defined.
