(* ===== verification/Sha3.v ===== *)
(** crc/sha3.c: the SHA-3 digests, against the Keccak permutation of FIPS 202 written
    on its five-by-five array of lanes. *)
From S2P Require Import Prelude Stream.
Local Open Scope word_scope.

Definition ROTL64 (x y : Z) : Z := rolw 64 x y.

Definition keccakf_rndc : list Z := [
  0x0000000000000001; 0x0000000000008082; 0x800000000000808a;
  0x8000000080008000; 0x000000000000808b; 0x0000000080000001;
  0x8000000080008081; 0x8000000000008009; 0x000000000000008a;
  0x0000000000000088; 0x0000000080008009; 0x000000008000000a;
  0x000000008000808b; 0x800000000000008b; 0x8000000000008089;
  0x8000000000008003; 0x8000000000008002; 0x8000000000000080;
  0x000000000000800a; 0x800000008000000a; 0x8000000080008081;
  0x8000000000008080; 0x0000000080000001; 0x8000000080008008].

Definition keccakf_rotc : list Z := [
  1; 3; 6; 10; 15; 21; 28; 36; 45; 55; 2; 14;
  27; 41; 56; 8; 25; 43; 62; 18; 39; 61; 20; 44].

Definition keccakf_piln : list nat := [
  10; 7; 11; 17; 18; 3; 5; 16; 8; 21; 24; 4;
  15; 23; 19; 13; 12; 2; 20; 14; 22; 9; 6; 1]%nat.

Definition lane (st : list Z) (i : nat) : Z := nth i st 0.

(** Theta: the five column parities, then every lane. *)
Definition theta (st : list Z) : list Z :=
  let bc := (fun i => lane st i ^^ lane st (i + 5) ^^ lane st (i + 10) ^^ lane st (i + 15)
                        ^^ lane st (i + 20)) <$> seq 0 5 in
  fold_left (fun st i =>
    let t := lane bc ((i + 4) mod 5) ^^ ROTL64 (lane bc ((i + 1) mod 5)) 1 in
    fold_left (fun st j => <[(j + i)%nat := lane st (j + i) ^^ t]> st) [0; 5; 10; 15; 20]%nat st)
  (seq 0 5) st.

(** Rho and Pi: [t] walks the cycle of lane positions. *)
Definition rho_pi (st : list Z) : list Z :=
  fst (fold_left (fun '(st, t) i =>
    let j := nth i keccakf_piln 0%nat in
    (<[j := ROTL64 t (nth i keccakf_rotc 0)]> st, lane st j))
  (seq 0 24) (st, lane st 1)).

(** Chi, row by row from a copy of the row. *)
Definition chi (st : list Z) : list Z :=
  fold_left (fun st j =>
    let bc := (fun i => lane st (j + i)) <$> seq 0 5 in
    fold_left (fun st i =>
      <[(j + i)%nat := lane st (j + i) ^^ (notw 64 (lane bc ((i + 1) mod 5)) & lane bc ((i + 2) mod 5))]> st)
    (seq 0 5) st)
  [0; 5; 10; 15; 20]%nat st.

Definition iota_step (round : nat) (st : list Z) : list Z :=
  <[0%nat := lane st 0 ^^ nth round keccakf_rndc 0]> st.

Definition keccakf_round (st : list Z) (round : nat) : list Z :=
  iota_step round (chi (rho_pi (theta st))).

Definition keccakf (st : list Z) : list Z := fold_left keccakf_round (seq 0 24) st.

Record fio_sha3_ctx : Type := mk_sha3 {
  st : list Z; md_len : Z; rsiz : Z; rsizw : Z; partial : Z; buf : list Z }.

(** [digest_sz] is 28, 32, 48 or 64 in the four exported initialisers. *)
Definition fio_sha3_init (digest_sz : Z) : fio_sha3_ctx :=
  let rsiz := subw 32 200 (mulw 32 2 digest_sz) in
  mk_sha3 (replicate 25 0) digest_sz rsiz (rsiz / 8) 0 (replicate 144 0).

Definition fio_sha3_224_init : fio_sha3_ctx := fio_sha3_init (224 / 8).
Definition fio_sha3_256_init : fio_sha3_ctx := fio_sha3_init (256 / 8).
Definition fio_sha3_384_init : fio_sha3_ctx := fio_sha3_init (384 / 8).
Definition fio_sha3_512_init : fio_sha3_ctx := fio_sha3_init (512 / 8).

(** [for (i = 0; i < rsizw; i++) st[i] ^= ((uint64_t * ) src)[i]], on a
    little-endian host; then the permutation. *)
Definition absorb (rsizw : nat) (st src : list Z) : list Z :=
  keccakf (fold_left (fun st i => <[i := lane st i ^^ word_le 8 src i]> st) (seq 0 rsizw) st).

Definition fio_sha3_update (sctx : fio_sha3_ctx) (data : list Z) : option fio_sha3_ctx :=
  let len := zlength data in
  let finish st bf src don partial :=
    let* d := read_bytes (subw 32 len don) src in
    let* bf := memcpy bf partial d in
    Some (mk_sha3 st (md_len sctx) (rsiz sctx) (rsizw sctx) (addw 32 partial (subw 32 len don)) bf) in
  if subw 32 (rsiz sctx) 1 <? addw 32 (partial sctx) len then
    let* '(bf, src, don) :=
      (if c_true (partial sctx) then
         let don := wrap 32 (- partial sctx) in
         let* d := read_bytes (addw 32 don (rsiz sctx)) data in
         let* bf := memcpy (buf sctx) (partial sctx) d in
         Some (bf, bf, don)
       else Some (buf sctx, data, 0)) in
    let* '(s, src, don) :=
      do_blocks (Z.to_nat (rsiz sctx)) (absorb (Z.to_nat (rsizw sctx))) (S (length data)) (st sctx) src data don in
    finish s bf src don 0
  else finish (st sctx) (buf sctx) data 0 (partial sctx).

(** The bytes written to the caller's digest. *)
Definition fio_sha3_final (sctx : fio_sha3_ctx) : option (list Z) :=
  let inlen := partial sctx in
  let* bf := memcpy (buf sctx) inlen [0x06] in
  let inlen := addw 32 inlen 1 in
  let* bf := memset bf inlen 0 (subw 32 (rsiz sctx) inlen) in
  let* last := arr_get bf (rsiz sctx - 1) in
  let* bf := arr_set bf (rsiz sctx - 1) (Z.lor last 0x80) in
  let s := absorb (Z.to_nat (rsizw sctx)) (st sctx) bf in
  read_bytes (md_len sctx) (concat (le_bytes 8 <$> s)).

(** ** FIPS 202 *)

(** Lane [A[x, y]] is word [x + 5 y] of the state. *)
Definition array := nat -> nat -> Z.
Definition of_lanes (st : list Z) : array := fun x y => lane st (x + 5 * y).
Definition to_lanes (A : array) : list Z := (fun i => A (i mod 5) (i / 5))%nat <$> seq 0 25.

Definition fips_theta (A : array) : array := fun x y =>
  let C x := A x 0%nat ^^ A x 1%nat ^^ A x 2%nat ^^ A x 3%nat ^^ A x 4%nat in
  let D x := C ((x + 4) mod 5)%nat ^^ rolw 64 (C ((x + 1) mod 5)%nat) 1 in
  A x y ^^ D x.

(** The rho offsets: (t + 1)(t + 2) / 2 along the walk (x, y) -> (y, 2x + 3y) from (1, 0). *)
Fixpoint rho_walk (n t x y : nat) (x0 y0 : nat) : Z :=
  match n with
  | O => 0
  | S n => if (x =? x0)%nat && (y =? y0)%nat then Z.of_nat ((t + 1) * (t + 2) / 2) mod 64
           else rho_walk n (S t) y ((2 * x + 3 * y) mod 5) x0 y0
  end.

Definition rho_offset (x y : nat) : Z := rho_walk 24 0 1 0 x y.

Definition rotl (a n : Z) : Z := if n =? 0 then a else rolw 64 a n.
Definition fips_rho (A : array) : array := fun x y => rotl (A x y) (rho_offset x y).
Definition fips_pi (A : array) : array := fun x y => A ((x + 3 * y) mod 5)%nat x.
Definition fips_chi (A : array) : array := fun x y =>
  A x y ^^ (notw 64 (A ((x + 1) mod 5)%nat y) & A ((x + 2) mod 5)%nat y).

(** Bit [t] of the round-constant sequence: an eight-bit shift register. *)
Definition rc_step (R : list bool) : list bool :=
  match R with
  | [r0; r1; r2; r3; r4; r5; r6; r7] => [r7; r0; r1; r2; xorb r3 r7; xorb r4 r7; xorb r5 r7; r6]
  | _ => R
  end.

Definition rc (t : nat) : bool := nth 0 (Nat.iter t rc_step [true; false; false; false; false; false; false; false]) false.

Definition fips_RC (round : nat) : Z :=
  fold_left (fun z j => if rc (j + 7 * round) then Z.lor z (Z.shiftl 1 (2 ^ Z.of_nat j - 1)) else z) (seq 0 7) 0.

Definition fips_iota (round : nat) (A : array) : array := fun x y =>
  if (x =? 0)%nat && (y =? 0)%nat then A x y ^^ fips_RC round else A x y.

Definition fips_round (st : list Z) (round : nat) : list Z :=
  to_lanes (fips_iota round (fips_chi (fips_pi (fips_rho (fips_theta (of_lanes st)))))).

Definition keccak_f (st : list Z) : list Z := fold_left fips_round (seq 0 24) st.

(** The sponge: rate [r] bytes, the block xored into the first [r / 8] lanes. *)
Definition fips_absorb (r : nat) (st blk : list Z) : list Z :=
  keccak_f (zip_with Z.lxor (take (r / 8) st) (word_le 8 blk <$> seq 0 (r / 8)) ++ drop (r / 8) st).

(** The domain bits 01 and the padding 10*1, in bytes. *)
Definition sha3_pad (r : nat) (m : list Z) : list Z :=
  let q := (r - length m mod r)%nat in
  m ++ (if (q =? 1)%nat then [0x86] else 0x06 :: replicate (q - 2) 0 ++ [0x80]).

Definition sha3_reference (d : nat) (m : list Z) : list Z :=
  let r := (200 - 2 * d)%nat in
  take d (concat (le_bytes 8 <$> fold_left (fips_absorb r) (full_blocks r (sha3_pad r m)) (replicate 25 0))).

Example sha3_256_abc :
  sha3_reference 32 [0x61; 0x62; 0x63] =
  be_bytes 32 0x3a985da74fe225b2045c172d6bd390bd855f086e3e9d525b46bfe24511431532.
Proof. vm_compute. reflexivity. Qed.

Example fio_sha3_512_abc :
  (let* c := fio_sha3_update fio_sha3_512_init [0x61; 0x62; 0x63] in fio_sha3_final c) =
  Some (be_bytes 64 0xb751850b1a57168a5693cd924b6b096e08f621827444f70d884f5d0240d2712e10e116e9192af3c91a7ec57647e3934057340b4cf408d5a56592f8274eec53f0).
Proof. vm_compute. reflexivity. Qed.

(** * Proofs *)

(** ** The permutation *)

Lemma RC_table : (fips_RC <$> seq 0 24) = keccakf_rndc.
Proof. vm_compute. reflexivity. Qed.

Lemma RC_nth round : (round < 24)%nat -> nth round keccakf_rndc 0 = fips_RC round.
Proof.
  intros H. rewrite <- RC_table, nth_lookup, list_lookup_fmap, lookup_seq_lt by done. done.
Qed.

(** The lanes of a state, as variables. *)
Ltac lanes s H :=
  do 25 (destruct s as [|? s]; [discriminate H|]); destruct s; [clear H|discriminate H].

(** Both rounds, expanded on 25 symbolic lanes, are the same terms. *)
Lemma theta_fips s : length s = 25%nat -> theta s = to_lanes (fips_theta (of_lanes s)).
Proof.
  intros H. lanes s H.
  cbv -[Z.lxor rolw]. reflexivity.
Qed.

Lemma rho_pi_fips s : length s = 25%nat -> rho_pi s = to_lanes (fips_pi (fips_rho (of_lanes s))).
Proof.
  intros H. lanes s H.
  cbv -[Z.lxor rolw]. reflexivity.
Qed.

Lemma chi_fips s : length s = 25%nat -> chi s = to_lanes (fips_chi (of_lanes s)).
Proof.
  intros H. lanes s H.
  cbv -[Z.lxor Z.land notw]. reflexivity.
Qed.

Lemma iota_fips s round : length s = 25%nat -> (round < 24)%nat ->
  iota_step round s = to_lanes (fips_iota round (of_lanes s)).
Proof.
  intros H Hr. unfold iota_step. rewrite RC_nth by done. unfold fips_iota. generalize (fips_RC round). intros z.
  lanes s H.
  cbv -[Z.lxor]. reflexivity.
Qed.

Lemma to_lanes_length A : length (to_lanes A) = 25%nat.
Proof. reflexivity. Qed.

Lemma of_to_lanes A x y : (x < 5)%nat -> (y < 5)%nat -> of_lanes (to_lanes A) x y = A x y.
Proof.
  intros Hx Hy. unfold of_lanes, to_lanes, lane. rewrite nth_lookup, list_lookup_fmap, lookup_seq_lt by lia.
  cbn [fmap option_fmap option_map from_option id Nat.add].
  f_equal; [symmetry; apply Nat.mod_unique with y; lia|symmetry; apply Nat.div_unique with x; lia].
Qed.

(** Lanes of arrays that agree on the five-by-five square. *)
Lemma to_lanes_ext A B : (forall x y, (x < 5)%nat -> (y < 5)%nat -> A x y = B x y) -> to_lanes A = to_lanes B.
Proof.
  intros H. unfold to_lanes. apply list_fmap_ext. intros i j Hj. apply lookup_seq in Hj as [-> Hi].
  apply H; [apply Nat.mod_upper_bound; lia|]. apply Nat.Div0.div_lt_upper_bound. lia.
Qed.

Lemma keccakf_round_fips s round : length s = 25%nat -> (round < 24)%nat ->
  keccakf_round s round = fips_round s round.
Proof.
  intros Hs Hr. unfold keccakf_round, fips_round.
  rewrite theta_fips, rho_pi_fips, chi_fips, iota_fips by (done || apply to_lanes_length).
  apply to_lanes_ext. intros x y Hx Hy. unfold fips_iota at 1 2.
  assert (forall x y, (x < 5)%nat -> (y < 5)%nat ->
    of_lanes (to_lanes (fips_chi (of_lanes (to_lanes (fips_pi (fips_rho (of_lanes (to_lanes (fips_theta (of_lanes s)))))))))) x y =
    fips_chi (fips_pi (fips_rho (fips_theta (of_lanes s)))) x y) as E.
  { clear x y Hx Hy. intros x y Hx Hy. rewrite of_to_lanes by done. unfold fips_chi, fips_pi, fips_rho.
    pose proof (fun a => Nat.mod_upper_bound a 5 ltac:(lia)) as Hm. rewrite !of_to_lanes by (done || apply Hm). done. }
  by rewrite E.
Qed.

Lemma fips_round_length s round : length (fips_round s round) = 25%nat.
Proof. reflexivity. Qed.

Lemma keccakf_fips s : length s = 25%nat -> keccakf s = keccak_f s.
Proof.
  unfold keccakf, keccak_f. assert (Forall (fun r => (r < 24)%nat) (seq 0 24)) as Hl.
  { apply List.Forall_forall. intros r Hr%in_seq. lia. }
  revert s. induction Hl as [|r l Hr Hl IH]; intros s Hs; [done|].
  rewrite !fold_left_cons, keccakf_round_fips by done. apply IH, fips_round_length.
Qed.

Lemma keccak_f_length s : length s = 25%nat -> length (keccak_f s) = 25%nat.
Proof. intros. apply fold_left_length; [intros; apply fips_round_length|done]. Qed.

(** ** The sponge *)

#[local] Opaque keccakf keccak_f.

Lemma xor_lanes (g : nat -> Z) n : forall s, (n <= length s)%nat ->
  fold_left (fun s i => <[i := lane s i ^^ g i]> s) (seq 0 n) s =
  zip_with Z.lxor (take n s) (g <$> seq 0 n) ++ drop n s.
Proof.
  induction n as [|n IH]; intros s Hn; [done|].
  rewrite seq_S, fold_left_app, IH by lia. cbn [fold_left Nat.add].
  destruct (lookup_lt_is_Some_2 s n) as [a Ha]; [lia|].
  assert (length (zip_with Z.lxor (take n s) (g <$> seq 0 n)) = n) as Hz.
  { rewrite length_zip_with, length_take, length_fmap, length_seq. lia. }
  unfold lane. rewrite app_nth2 by lia. rewrite Hz, Nat.sub_diag, (drop_S s a n) by done. cbn [nth].
  rewrite insert_app_r_alt by lia. rewrite Hz, Nat.sub_diag. cbn [insert list_insert].
  rewrite fmap_app, (take_S_r s n a) by done.
  rewrite zip_with_app by (rewrite length_take, length_fmap, length_seq; lia). cbn [fmap list_fmap zip_with].
  by rewrite <- app_assoc.
Qed.

Lemma fips_absorb_length r s b : (r / 8 <= 25)%nat -> length s = 25%nat -> length (fips_absorb r s b) = 25%nat.
Proof.
  intros Hr Hs. unfold fips_absorb. apply keccak_f_length.
  rewrite length_app, length_zip_with, length_take, length_fmap, length_seq, length_drop. lia.
Qed.

Lemma absorb_fips r s b : (r / 8 <= 25)%nat -> length s = 25%nat -> absorb (r / 8) s b = fips_absorb r s b.
Proof.
  intros Hr Hs. unfold absorb, fips_absorb. rewrite xor_lanes by lia. apply keccakf_fips.
  rewrite length_app, length_zip_with, length_take, length_fmap, length_seq, length_drop. lia.
Qed.

Lemma word_le_take n k l i : (i < k)%nat -> word_le n (take (n * k) l) i = word_le n l i.
Proof.
  intros Hi. unfold word_le. f_equal. rewrite skipn_firstn_comm, take_take. f_equal. nia.
Qed.

Lemma fips_absorb_take r s b : fips_absorb r s (take (8 * (r / 8)) b) = fips_absorb r s b.
Proof.
  unfold fips_absorb.
  assert (word_le 8 (take (8 * (r / 8)) b) <$> seq 0 (r / 8) = word_le 8 b <$> seq 0 (r / 8)) as ->; [|reflexivity].
  apply list_fmap_ext. intros i j Hj. apply lookup_seq in Hj as [-> Hi]. apply word_le_take. lia.
Qed.

#[local] Opaque absorb fips_absorb.

(** The four digest sizes and their initialisers. *)
Inductive sha3_size : Type := SHA3_224 | SHA3_256 | SHA3_384 | SHA3_512.

Definition digest_size (z : sha3_size) : nat :=
  match z with SHA3_224 => 28 | SHA3_256 => 32 | SHA3_384 => 48 | SHA3_512 => 64 end.

Definition sha3_start (z : sha3_size) : fio_sha3_ctx :=
  match z with
  | SHA3_224 => fio_sha3_224_init | SHA3_256 => fio_sha3_256_init
  | SHA3_384 => fio_sha3_384_init | SHA3_512 => fio_sha3_512_init
  end.

Section Sponge.
Context (z : sha3_size).
Let r : nat := 200 - 2 * digest_size z.

Lemma rate_bounds : (0 < r <= 144)%nat /\ (r / 8 <= 25)%nat /\ (2 <= r)%nat.
Proof using. unfold r. destruct z; cbn; lia. Qed.

Definition sha3_represents (m : list Z) (c : fio_sha3_ctx) : Prop :=
  buffered r (fips_absorb r) (replicate 25 0) m (st c) (take r (buf c)) /\
  length (buf c) = 144%nat /\ partial c = Z.of_nat (length (rest r m)) /\
  md_len c = Z.of_nat (digest_size z) /\ rsiz c = Z.of_nat r /\ rsizw c = Z.of_nat (r / 8).

Lemma sha3_state_length m c : sha3_represents m c -> length (st c) = 25%nat.
Proof using.
  intros [[-> _] _]. pose proof rate_bounds. revert H. generalize (full_blocks r m). intros l H.
  assert (forall s, length s = 25%nat -> length (fold_left (fips_absorb r) l s) = 25%nat) as Hl; [|by apply Hl].
  induction l as [|b l IH]; intros s Hs; [done|]. rewrite fold_left_cons. apply IH, fips_absorb_length; [lia|done].
Qed.

(** The loop absorbs with the code's [absorb], which is the standard's on states of 25 lanes. *)
Lemma do_absorb fuel : forall s src data don, length s = 25%nat ->
  do_blocks r (absorb (r / 8)) fuel s src data don = do_blocks r (fips_absorb r) fuel s src data don.
Proof using.
  pose proof rate_bounds. induction fuel as [|fuel IH]; intros s src data don Hs; [done|].
  cbn [do_blocks]. destruct (read_bytes _ src) as [b|]; [|done]. cbn [mbind option_bind].
  rewrite absorb_fips by (done || lia). destruct (_ <? _); [|done]. apply IH, fips_absorb_length; [lia|done].
Qed.

(** The end of an update: what is left goes to the start of the buffer. *)
Lemma sha3_store m s bf d c : fold_left (fips_absorb r) (full_blocks r m) (replicate 25 0) = s ->
  length bf = 144%nat -> rest r m = rest r d -> md_len c = Z.of_nat (digest_size z) ->
  exists c', (let* d := read_bytes (zlength (rest r m)) (rest r m) in
    let* bf := memcpy bf 0 d in
    Some (mk_sha3 s (md_len c) (Z.of_nat r) (Z.of_nat (r / 8)) (addw 32 0 (zlength (rest r m))) bf)) = Some c' /\
    sha3_represents m c'.
Proof using.
  intros Hs Hbf Hr H1. pose proof rate_bounds.
  rewrite read_bytes_Some by (unfold zlength; lia). cbn [mbind option_bind]. rewrite zlength_to_nat, firstn_all.
  destruct (buffered_store r ltac:(lia) (fips_absorb r) (replicate 25 0) m s (take r bf) d (eq_sym Hs))
    as (b & E & Hb); [rewrite length_take; lia|done|].
  rewrite <- Hr in E. destruct (memcpy_prefix r bf 0 _ b ltac:(lia) E) as (b' & -> & Hb' & Hl). cbn [mbind option_bind].
  eexists. split; [reflexivity|]. unfold sha3_represents. cbn [st buf partial md_len rsiz rsizw].
  rewrite Hb'. split; [done|]. split; [lia|]. split; [|done].
  pose proof (rest_lt r ltac:(lia) m). unfold addw. rewrite wrap_small; unfold zlength, is_word; lia.
Qed.

Lemma sha3_update_spec m c d : sha3_represents m c -> zlength d < 2 ^ 32 - 288 ->
  exists c', fio_sha3_update c d = Some c' /\ sha3_represents (m ++ d) c'.
Proof using.
  intros Hrep Hlim. pose proof (sha3_state_length m c Hrep) as Hst.
  destruct Hrep as (Hbuf & Hlen & Hp & Hmd & Hrs & Hrw). pose proof rate_bounds as (Hr & Hr8 & _).
  pose proof (rest_lt r ltac:(lia) m) as Hlt. unfold fio_sha3_update.
  rewrite Hrs, Hrw, !Nat2Z.id. set (p := length (rest r m)) in *.
  assert (addw 32 (partial c) (zlength d) = Z.of_nat p + zlength d) as ->.
  { rewrite Hp. apply wrap_small. unfold zlength, is_word in *. lia. }
  assert (subw 32 (Z.of_nat r) 1 = Z.of_nat r - 1) as -> by (apply wrap_small; unfold is_word; lia).
  destruct (Z.ltb_spec (Z.of_nat r - 1) (Z.of_nat p + zlength d)) as [Hge|Hge]; unfold zlength in Hge.
  - destruct (buffered_long r ltac:(lia) _ _ m _ _ d Hbuf) as (E1 & E2 & E3 & Hk); [fold p; lia|].
    fold p in E1, E2, E3, Hk. rewrite Hp. destruct (c_true (Z.of_nat p)) eqn:Hp0.
    + apply c_true_iff in Hp0.
      assert (addw 32 (wrap 32 (- Z.of_nat p)) (Z.of_nat r) = Z.of_nat (r - p)) as Hd.
      { unfold addw. rewrite wrap_add_l, wrap_small by (unfold is_word; lia). lia. }
      rewrite Hd, read_bytes_Some by (unfold zlength; lia). cbn [mbind option_bind]. rewrite Nat2Z.id.
      destruct (memcpy_prefix r (buf c) _ _ _ ltac:(lia) E1) as (b & -> & Hb & Hbl). cbn [mbind option_bind].
      rewrite do_absorb by done.
      destruct (do_blocks_spec r ltac:(lia) (fips_absorb r) (S (length d)) (st c) b d (wrap 32 (- Z.of_nat p)) (r - p))
        as (don & -> & Hdon); [done|lia|lia|lia|lia|]. cbn [mbind option_bind].
      rewrite Hdon, Hb, <- E2, <- E3.
      apply (sha3_store _ _ _ (drop (r - p) d)); done || lia.
    + apply c_true_false_iff in Hp0. cbn [mbind option_bind]. rewrite do_absorb by done.
      assert (rest r m = []) as Hnil by (apply length_zero_iff_nil; fold p; lia).
      replace (r - p)%nat with r in * by lia. rewrite Hnil, app_nil_l in E2.
      destruct (do_blocks_spec r ltac:(lia) (fips_absorb r) (S (length d)) (st c) d d 0 r)
        as (don & -> & Hdon); [|lia|lia|lia|lia|].
      { unfold addw. rewrite wrap_small by (unfold is_word; lia). lia. }
      cbn [mbind option_bind]. rewrite Hdon, <- E2, <- E3.
      apply (sha3_store _ _ _ (drop r d)); done || lia.
  - assert (subw 32 (zlength d) 0 = zlength d) as ->.
    { unfold subw. rewrite Z.sub_0_r, wrap_small; unfold zlength, is_word in *; lia. }
    rewrite read_bytes_Some by (unfold zlength; lia). cbn [mbind option_bind].
    rewrite zlength_to_nat, firstn_all, Hp. unfold p.
    destruct (buffered_short r ltac:(lia) _ _ m _ _ d Hbuf) as (b & E & Hb); [fold p; lia|].
    destruct (memcpy_prefix r (buf c) _ _ _ ltac:(lia) E) as (b' & -> & Hb' & Hbl). cbn [mbind option_bind].
    eexists. split; [reflexivity|]. unfold sha3_represents. cbn [st buf partial md_len rsiz rsizw].
    rewrite Hb'. split; [done|]. split; [lia|]. split; [|done].
    destruct (blocks_append_short r ltac:(lia) m d) as [_ ->]; [fold p; lia|].
    unfold addw. rewrite wrap_small, length_app; unfold zlength, is_word; fold p; lia.
Qed.
End Sponge.

(** ** The last block *)

Lemma sha3_pad_blocks r m : (2 <= r)%nat -> let p := length (rest r m) in
  full_blocks r (sha3_pad r m) = full_blocks r m ++
    [rest r m ++ (if (r - p =? 1)%nat then [0x86] else 0x06 :: replicate (r - p - 2) 0 ++ [0x80])].
Proof.
  intros Hr p. unfold sha3_pad. rewrite <- length_rest by lia. fold p. pose proof (rest_lt r ltac:(lia) m).
  set (x := if (r - p =? 1)%nat then _ else _). assert (length x = r - p)%nat as Hx.
  { unfold x. destruct (Nat.eqb_spec (r - p) 1); [by rewrite e|].
    cbn [length]. rewrite length_app, length_replicate. cbn [length]. fold p in H. lia. }
  destruct (blocks_append r ltac:(lia) m x) as [-> _]. f_equal.
  apply full_blocks_one; [lia|]. rewrite length_app. fold p in H |- *. lia.
Qed.

(** The bytes [fio_sha3_final] writes after the message. *)
Lemma sha3_close bf (p r : nat) : (p < r <= length bf)%nat -> Z.of_nat r < 2 ^ 32 ->
  exists b1 b2 last b3,
    memcpy bf (Z.of_nat p) [0x06] = Some b1 /\
    memset b1 (addw 32 (Z.of_nat p) 1) 0 (subw 32 (Z.of_nat r) (addw 32 (Z.of_nat p) 1)) = Some b2 /\
    arr_get b2 (Z.of_nat r - 1) = Some last /\ arr_set b2 (Z.of_nat r - 1) (Z.lor last 0x80) = Some b3 /\
    take r b3 = take p bf ++ (if (r - p =? 1)%nat then [0x86] else 0x06 :: replicate (r - p - 2) 0 ++ [0x80]).
Proof.
  intros Hp Hr. destruct (memcpy_extend bf p [0x06] _ eq_refl) as (b1 & E1 & L1 & T1); [cbn [length]; lia|].
  cbn [length] in T1.
  assert (addw 32 (Z.of_nat p) 1 = Z.of_nat (p + 1)) as -> by (unfold addw; rewrite wrap_small; unfold is_word; lia).
  assert (subw 32 (Z.of_nat r) (Z.of_nat (p + 1)) = Z.of_nat (r - (p + 1))) as ->
    by (unfold subw; rewrite wrap_small; unfold is_word; lia).
  destruct (memset_extend b1 (p + 1) (r - (p + 1)) 0 _ _ eq_refl eq_refl) as (b2 & E2 & L2 & T2); [lia|].
  replace (p + 1 + (r - (p + 1)))%nat with r in T2 by lia. rewrite T1 in T2.
  replace (Z.of_nat r - 1) with (Z.of_nat (r - 1)) by lia.
  destruct (lookup_lt_is_Some_2 b2 (r - 1)) as [x Hx]; [lia|].
  exists b1, b2, x, (<[(r - 1)%nat := Z.lor x 0x80]> b2).
  split; [done|]. split; [done|]. split; [by rewrite arr_get_nat|].
  split; [rewrite arr_set_Some by (unfold zlength; lia); by rewrite Nat2Z.id|].
  rewrite take_insert_lt by lia. rewrite <- (lookup_take_lt _ r) in Hx by lia. rewrite T2 in Hx |- *.
  rewrite <- app_assoc in Hx |- *. rewrite lookup_app_r in Hx by (rewrite length_take; lia).
  rewrite insert_app_r_alt by (rewrite length_take; lia). f_equal.
  rewrite length_take, Nat.min_l in * by lia. destruct (Nat.eqb_spec (r - p) 1) as [e|e].
  - replace (r - 1 - p)%nat with 0%nat in * by lia. replace (r - (p + 1))%nat with 0%nat by lia.
    by injection Hx as <-.
  - replace (r - 1 - p)%nat with (S (r - p - 2)) in * by lia. replace (r - (p + 1))%nat with (S (r - p - 2)) in * by lia.
    cbn [app] in *. change (replicate (S (r - p - 2)) 0 !! (r - p - 2)%nat = Some x) in Hx.
    change (6 :: <[(r - p - 2)%nat := Z.lor x 128]> (replicate (S (r - p - 2)) 0) =
      6 :: replicate (r - p - 2) 0 ++ [128]).
    rewrite lookup_replicate_2 in Hx by lia. injection Hx as <-. f_equal. change (Z.lor 0 128) with 128.
    replace (S (r - p - 2)) with ((r - p - 2) + 1)%nat by lia. rewrite replicate_add.
    rewrite insert_app_r_alt by (rewrite length_replicate; lia). by rewrite length_replicate, Nat.sub_diag.
Qed.

Lemma sha3_final_spec z m c : sha3_represents z m c ->
  fio_sha3_final c = Some (sha3_reference (digest_size z) m).
Proof.
  intros Hrep. pose proof (sha3_state_length z m c Hrep) as Hst. destruct (rate_bounds z) as (Hr & Hr8 & Hr2).
  destruct Hrep as ((Hf & _ & Ht) & Hlen & Hp & Hmd & Hrs & Hrw). set (r := (200 - 2 * digest_size z)%nat) in *.
  pose proof (rest_lt r ltac:(lia) m) as Hlt. unfold fio_sha3_final. rewrite Hp, Hrs, Hrw, Hmd.
  destruct (sha3_close (buf c) (length (rest r m)) r) as (b1 & b2 & x & b3 & E1 & E2 & E3 & E4 & E5); [lia..|].
  rewrite E1. cbn [mbind option_bind]. rewrite E2. cbn [mbind option_bind]. rewrite E3. cbn [mbind option_bind].
  rewrite E4. cbn [mbind option_bind]. rewrite Nat2Z.id, absorb_fips, <- fips_absorb_take by (done || lia).
  assert (8 * (r / 8) = r)%nat as -> by (unfold r; by destruct z). rewrite E5.
  rewrite take_take, Nat.min_l in Ht by lia. rewrite Ht.
  unfold sha3_reference. fold r. rewrite sha3_pad_blocks by lia. rewrite fold_left_app, <- Hf. cbn [fold_left].
  match goal with |- read_bytes _ (concat (_ <$> ?s)) = _ =>
    assert (length s = 25%nat) as Hl by (by apply fips_absorb_length); set (s' := s) in * end.
  rewrite read_bytes_Some; [by rewrite Nat2Z.id|]. unfold zlength.
  assert (length (concat (le_bytes 8 <$> s')) = 200)%nat as ->.
  { clear -Hl. do 25 (destruct s' as [|? s']; [discriminate Hl|]). by destruct s'. }
  destruct z; cbn [digest_size]; lia.
Qed.

#[export] Instance sha3_digest (z : sha3_size) : Digest fio_sha3_ctx (list Z).
Proof.
  refine {| d_init := sha3_start z; d_update := fio_sha3_update; d_final := fio_sha3_final;
    d_piece d := zlength d < 2 ^ 32 - 288; d_limit := 2 ^ 64;
    represents := sha3_represents z; reference := sha3_reference (digest_size z) |}.
  - destruct z; (split; [apply (buffered_init _); [cbn; lia|reflexivity]|]); done.
  - intros m c d Hc _ Hd _. by apply sha3_update_spec.
  - intros m c Hc _. by apply sha3_final_spec.
Defined.

(** C12: For each of the four SHA-3 sizes, over any way of cutting a message into
    updates, the crc/ library computes the digest of FIPS 202: the in-place permutation
    on 25 words is Keccak-f[1600] on the five-by-five array of lanes, its tables are
    the rho offsets, the pi positions and the shift-register round constants, and
    buffer, loop and padding are the sponge over the padded message. *)
Theorem sha3_digest_correct z pieces :
  Forall bytes pieces -> Forall (fun d => zlength d < 2 ^ 32 - 288) pieces ->
  zlength (concat pieces) < 2 ^ 64 ->
  (let* c := feed (H := sha3_digest z) (sha3_start z) pieces in fio_sha3_final c) =
  Some (sha3_reference (digest_size z) (concat pieces)).
Proof. exact (@digest_pieces _ _ (sha3_digest z) pieces). Qed.

Lemma sha3_digest_witness :
  (let* c := feed (H := sha3_digest SHA3_512) (sha3_start SHA3_512) [[0x61]; replicate 80 0x62; []] in
   fio_sha3_final c) =
  Some (sha3_reference (digest_size SHA3_512) (concat [[0x61]; replicate 80 0x62; []])).
Proof.
  apply (sha3_digest_correct SHA3_512); [|repeat constructor|reflexivity].
  unfold bytes. apply (bool_decide_unpack _). vm_compute. exact I.
Defined.
