(* ===== verification/Xxhash.v ===== *)
(** crc/xxhash.c: the 32-bit xxHash in its one-shot and its streaming form, on a
    little-endian host. *)
From S2P Require Import Prelude Stream.
Local Open Scope word_scope.

Definition XXH_rotl32 (x r : Z) : Z := rolw 32 x r.

Definition PRIME32_1 : Z := 2654435761.
Definition PRIME32_2 : Z := 2246822519.
Definition PRIME32_3 : Z := 3266489917.
Definition PRIME32_4 : Z := 668265263.
Definition PRIME32_5 : Z := 374761393.

Record lanes : Type := mk_lanes { v1 : Z; v2 : Z; v3 : Z; v4 : Z }.

(** [v += read(p) * PRIME32_2; v = rotl(v, 13); v *= PRIME32_1] *)
Definition xxh_lane (v input : Z) : Z :=
  mulw 32 (XXH_rotl32 (addw 32 v (mulw 32 input PRIME32_2)) 13) PRIME32_1.

(** The four lines that consume sixteen bytes. *)
Definition xxh_stripe (v : lanes) (p : list Z) : lanes :=
  mk_lanes (xxh_lane (v1 v) (word_le 4 p 0)) (xxh_lane (v2 v) (word_le 4 p 1))
           (xxh_lane (v3 v) (word_le 4 p 2)) (xxh_lane (v4 v) (word_le 4 p 3)).

(** [do { ... } while (p <= limit)] with [limit = bEnd - 16]; [fuel] bounds the
    iterations. *)
Fixpoint xxh_do (fuel : nat) (v : lanes) (p : list Z) : option (lanes * list Z) :=
  match fuel with
  | O => None
  | S fuel =>
      let* s := read_bytes 16 p in
      let v := xxh_stripe v s in
      let p := drop 16 p in
      if 16 <=? zlength p then xxh_do fuel v p else Some (v, p)
  end.

Definition xxh_converge (v : lanes) : Z :=
  addw 32 (addw 32 (addw 32 (XXH_rotl32 (v1 v) 1) (XXH_rotl32 (v2 v) 7)) (XXH_rotl32 (v3 v) 12)) (XXH_rotl32 (v4 v) 18).

(** [while (p <= bEnd - 4)], then [while (p < bEnd)]. *)
Fixpoint xxh_words (fuel : nat) (h32 : Z) (p : list Z) : Z * list Z :=
  match fuel with
  | O => (h32, p)
  | S fuel =>
      if 4 <=? zlength p then
        let h32 := addw 32 h32 (mulw 32 (word_le 4 p 0) PRIME32_3) in
        xxh_words fuel (mulw 32 (XXH_rotl32 h32 17) PRIME32_4) (drop 4 p)
      else (h32, p)
  end.

Fixpoint xxh_tail (h32 : Z) (p : list Z) : Z :=
  match p with
  | [] => h32
  | b :: p => xxh_tail (mulw 32 (XXH_rotl32 (addw 32 h32 (mulw 32 b PRIME32_5)) 11) PRIME32_1) p
  end.

Definition xxh_avalanche (h32 : Z) : Z :=
  let h32 := h32 ^^ (h32 >> 15) in
  let h32 := mulw 32 h32 PRIME32_2 in
  let h32 := h32 ^^ (h32 >> 13) in
  let h32 := mulw 32 h32 PRIME32_3 in
  h32 ^^ (h32 >> 16).

Definition xxh_finish (h32 : Z) (p : list Z) : Z :=
  let '(h32, p) := xxh_words (length p) h32 p in xxh_avalanche (xxh_tail h32 p).

Definition xxh_seed (seed : Z) : lanes :=
  mk_lanes (addw 32 (addw 32 seed PRIME32_1) PRIME32_2) (addw 32 seed PRIME32_2)
           (addw 32 seed 0) (subw 32 seed PRIME32_1).

(** [XXH32]; both alignments read the same words. *)
Definition XXH32_endian_align (input : list Z) (seed : Z) : option Z :=
  let len := zlength input in
  let* '(h32, p) :=
    (if 16 <=? len then
       let* '(v, p) := xxh_do (length input) (xxh_seed seed) input in Some (xxh_converge v, p)
     else Some (addw 32 seed PRIME32_5, input)) in
  Some (xxh_finish (addw 32 h32 (wrap 32 len)) p).

Definition XXH32 (input : list Z) (seed : Z) : option Z := XXH32_endian_align input seed.

Record XXH_state32_t : Type := mk_state {
  total_len : Z; xseed : Z; vs : lanes; memsize : Z; memory : list Z }.

Definition XXH32_resetState (memory : list Z) (seed : Z) : XXH_state32_t :=
  mk_state 0 seed (xxh_seed seed) 0 memory.

(** [XXH32_init]: the buffer of the allocated state is uninitialised; any contents do. *)
Definition XXH32_init (seed : Z) : XXH_state32_t := XXH32_resetState (replicate 16 0) seed.

Definition XXH32_update (state : XXH_state32_t) (input : list Z) : option XXH_state32_t :=
  let len := zlength input in
  let total := addw 64 (total_len state) len in
  if memsize state + len <? 16 then
    let* m := memcpy (memory state) (memsize state) input in
    Some (mk_state total (xseed state) (vs state) (memsize state + len) m)
  else
    let* '(v, m, p, msize) :=
      (if c_true (memsize state) then
         let* d := read_bytes (16 - memsize state) input in
         let* m := memcpy (memory state) (memsize state) d in
         Some (xxh_stripe (vs state) m, m, drop (Z.to_nat (16 - memsize state)) input, 0)
       else Some (vs state, memory state, input, memsize state)) in
    let* '(v, p) := (if 16 <=? zlength p then xxh_do (length p) v p else Some (v, p)) in
    if 0 <? zlength p then
      let* m := memcpy m 0 p in
      Some (mk_state total (xseed state) v (zlength p) m)
    else Some (mk_state total (xseed state) v msize m).

Definition XXH32_intermediateDigest (state : XXH_state32_t) : option Z :=
  let* p := read_bytes (memsize state) (memory state) in
  let h32 := if 16 <=? total_len state then xxh_converge (vs state) else addw 32 (xseed state) PRIME32_5 in
  Some (xxh_finish (addw 32 h32 (wrap 32 (total_len state))) p).

(** [XXH32_digest] also frees the state. *)
Definition XXH32_digest (state : XXH_state32_t) : option Z := XXH32_intermediateDigest state.

(** The published value of the empty input, and of a longer one. *)
Example XXH32_empty : XXH32 [] 0 = Some 0x02cc5d05.
Proof. vm_compute. reflexivity. Qed.

Example XXH32_abc : XXH32 [0x61; 0x62; 0x63] 0 = Some 0x32d153ff.
Proof. vm_compute. reflexivity. Qed.

(** * Proofs *)

#[local] Opaque xxh_stripe.

(** The hash as a function of the blocks of the message. *)
Definition xxh_reference (seed : Z) (m : list Z) : Z :=
  let h32 := if 16 <=? zlength m then
      xxh_converge (fold_left xxh_stripe (full_blocks 16 m) (xxh_seed seed))
    else addw 32 seed PRIME32_5 in
  xxh_finish (addw 32 h32 (wrap 32 (zlength m))) (rest 16 m).

Lemma xxh_do_spec fuel : forall v p, (16 <= length p)%nat -> (length p <= fuel)%nat ->
  xxh_do fuel v p = Some (fold_left xxh_stripe (full_blocks 16 p) v, rest 16 p).
Proof.
  induction fuel as [|fuel IH]; intros v p Hp Hf; [lia|]. cbn [xxh_do].
  rewrite read_bytes_Some by (unfold zlength; lia). cbn [mbind option_bind]. change (Z.to_nat 16) with 16%nat.
  destruct (full_blocks_long 16 ltac:(lia) p) as [-> ->]; [lia|]. rewrite fold_left_cons.
  unfold zlength. destruct (Z.leb_spec 16 (Z.of_nat (length (drop 16 p)))).
  - apply IH; [lia|rewrite length_drop; lia].
  - by destruct (full_blocks_short 16 ltac:(lia) (drop 16 p)) as [-> ->]; [lia|].
Qed.

Lemma XXH32_spec m seed : XXH32 m seed = Some (xxh_reference seed m).
Proof.
  unfold XXH32, XXH32_endian_align, xxh_reference, zlength.
  destruct (Z.leb_spec 16 (Z.of_nat (length m))).
  - rewrite xxh_do_spec by lia. reflexivity.
  - destruct (full_blocks_short 16 ltac:(lia) m) as [_ ->]; [lia|]. reflexivity.
Qed.

Section Streaming.
Context (seed : Z).

Definition xxh_represents (m : list Z) (c : XXH_state32_t) : Prop :=
  buffered 16 xxh_stripe (xxh_seed seed) m (vs c) (memory c) /\
  memsize c = Z.of_nat (length (rest 16 m)) /\ xseed c = seed /\ total_len c = wrap 64 (zlength m).

(** The end of an update: [p] is what follows the buffered block. *)
Lemma xxh_store m v buf p msize total : length buf = 16%nat -> rest 16 m = rest 16 p ->
  fold_left xxh_stripe (full_blocks 16 m) (xxh_seed seed) = fold_left xxh_stripe (full_blocks 16 p) v ->
  msize = 0 -> total = wrap 64 (zlength m) ->
  exists c, (let* '(v, p) := (if 16 <=? zlength p then xxh_do (length p) v p else Some (v, p)) in
    if 0 <? zlength p then
      let* m := memcpy buf 0 p in Some (mk_state total seed v (zlength p) m)
    else Some (mk_state total seed v msize buf)) = Some c /\ xxh_represents m c.
Proof using.
  intros Hbuf Hr Hf -> ->.
  assert ((if 16 <=? zlength p then xxh_do (length p) v p else Some (v, p)) =
    Some (fold_left xxh_stripe (full_blocks 16 m) (xxh_seed seed), rest 16 m)) as ->.
  { rewrite Hf, Hr. unfold zlength. destruct (Z.leb_spec 16 (Z.of_nat (length p))).
    - apply xxh_do_spec; lia.
    - by destruct (full_blocks_short 16 ltac:(lia) p) as [-> ->]; [lia|]. }
  cbn [mbind option_bind]. unfold zlength at 1.
  destruct (buffered_store 16 ltac:(lia) xxh_stripe (xxh_seed seed) m _ buf m eq_refl Hbuf eq_refl)
    as (b & E & Hb).
  destruct (Z.ltb_spec 0 (Z.of_nat (length (rest 16 m)))) as [H|H].
  - rewrite E. eexists. split; [reflexivity|]. split; [exact Hb|]. done.
  - assert (rest 16 m = []) as Hnil by (apply length_zero_iff_nil; lia).
    eexists. split; [reflexivity|]. unfold xxh_represents, buffered. cbn [vs memory memsize xseed total_len].
    rewrite Hnil. done.
Qed.

Lemma xxh_update_spec m c d : xxh_represents m c ->
  exists c', XXH32_update c d = Some c' /\ xxh_represents (m ++ d) c'.
Proof using.
  intros (Hbuf & Hms & Hs & Htot). pose proof (rest_lt 16 ltac:(lia) m). unfold XXH32_update.
  assert (addw 64 (total_len c) (zlength d) = wrap 64 (zlength (m ++ d))) as ->.
  { unfold addw. by rewrite Htot, count_append. }
  rewrite Hms, Hs. set (p := length (rest 16 m)) in *. unfold zlength at 1 2.
  destruct (Z.ltb_spec (Z.of_nat p + Z.of_nat (length d)) 16).
  - unfold p. destruct (buffered_short 16 ltac:(lia) _ _ m _ _ d Hbuf) as (b & -> & Hb); [fold p; lia|].
    eexists. split; [reflexivity|]. split; [exact Hb|]. cbn [memsize xseed total_len]. split; [|done].
    destruct (blocks_append_short 16 ltac:(lia) m d) as [_ ->]; [fold p; lia|]. rewrite length_app. unfold zlength. fold p. lia.
  - destruct (buffered_long 16 ltac:(lia) _ _ m _ _ d Hbuf) as (E1 & E2 & E3 & Hk); [fold p; lia|].
    fold p in E1, E2, E3, Hk. destruct (c_true (Z.of_nat p)) eqn:Hp.
    + replace (16 - Z.of_nat p) with (Z.of_nat (16 - p)) by lia.
      rewrite read_bytes_Some by (unfold zlength; lia). cbn [mbind option_bind]. rewrite Nat2Z.id, E1.
      cbn [mbind option_bind]. apply xxh_store; [|done|done|done|done].
      rewrite length_app, length_take. fold p. lia.
    + apply c_true_false_iff in Hp. cbn [mbind option_bind].
      assert (rest 16 m = []) as Hnil by (apply length_zero_iff_nil; fold p; lia).
      replace (16 - p)%nat with 16%nat in * by lia. rewrite Hnil, app_nil_l in E2.
      destruct (full_blocks_long 16 ltac:(lia) d) as [F1 F2]; [lia|].
      apply xxh_store; [apply Hbuf| | |done|done]; [by rewrite E3, F2|by rewrite E2, F1, fold_left_cons].
Qed.

Lemma xxh_digest_spec m c : xxh_represents m c -> zlength m < 2 ^ 64 ->
  XXH32_digest c = Some (xxh_reference seed m).
Proof using.
  intros ((Hst & Hlen & Ht) & Hms & Hs & Htot) Hlim. pose proof (rest_lt 16 ltac:(lia) m).
  unfold XXH32_digest, XXH32_intermediateDigest. rewrite Hms, Htot, Hs, Hst.
  rewrite (wrap_small 64) by (unfold is_word, zlength in *; lia).
  rewrite read_bytes_Some by (unfold zlength; lia). cbn [mbind option_bind]. by rewrite Nat2Z.id, Ht.
Qed.
End Streaming.

#[export] Instance xxh_digest (seed : Z) : Digest XXH_state32_t Z.
Proof.
  refine {| d_init := XXH32_init seed; d_update := XXH32_update; d_final := XXH32_digest;
    d_piece d := zlength d < 2 ^ 31 - 16; d_limit := 2 ^ 64;
    represents := xxh_represents seed; reference := xxh_reference seed |}.
  - split; [apply (buffered_init 16); [lia|reflexivity]|done].
  - intros m c d Hc _ _ _. by apply xxh_update_spec.
  - apply xxh_digest_spec.
Defined.

Lemma xxh_streaming seed pieces : Forall bytes pieces ->
  Forall (fun d => zlength d < 2 ^ 31 - 16) pieces -> zlength (concat pieces) < 2 ^ 64 ->
  (let* c := feed (H := xxh_digest seed) (XXH32_init seed) pieces in XXH32_digest c) =
  XXH32 (concat pieces) seed.
Proof. intros Hb Hp Hl. rewrite XXH32_spec. exact (@digest_pieces _ _ (xxh_digest seed) pieces Hb Hp Hl). Qed.

(** The streaming xxHash is the one-shot xxHash: for every seed and every way of
    cutting a message into updates, feeding the pieces and closing gives what [XXH32]
    gives on the whole message, and no copy leaves the sixteen-byte buffer. *)
Theorem xxh_streaming_correct seed pieces :
  Forall bytes pieces -> Forall (fun d => zlength d < 2 ^ 31 - 16) pieces ->
  zlength (concat pieces) < 2 ^ 64 ->
  (let* c := feed (H := xxh_digest seed) (XXH32_init seed) pieces in XXH32_digest c) =
  XXH32 (concat pieces) seed.
Proof. apply xxh_streaming. Qed.

Lemma xxh_streaming_witness :
  (let* c := feed (H := xxh_digest 7) (XXH32_init 7) [[1; 2; 3]; replicate 40 9; [5]] in XXH32_digest c) =
  XXH32 (concat [[1; 2; 3]; replicate 40 9; [5]]) 7.
Proof.
  apply (xxh_streaming_correct 7); [|repeat constructor|reflexivity].
  unfold bytes. apply (bool_decide_unpack _). vm_compute. exact I.
Defined.
