(* ===== verification/Hash.v ===== *)
(** hash.h, crc/fnv.c, crc/murmur3.c: the non-cryptographic hashes, and the inverses of
    their mixing steps. *)
From S2P Require Import Prelude Stream.
Local Open Scope word_scope.

(** * hash.h *)

Definition GOLDEN_RATIO_32 : Z := 0x61C88647.
Definition GOLDEN_RATIO_64 : Z := 0x61C8864680B583EB.

Definition __hash_long (val : Z) : Z := mulw 64 val GOLDEN_RATIO_64.
Definition hash_long (val bits : Z) : Z := __hash_long val >> (64 - bits).
Definition __hash_u64 (val : Z) : Z := mulw 64 val GOLDEN_RATIO_64.

Definition JHASH_INITVAL : Z := GOLDEN_RATIO_32.
Definition rol32 (word shift : Z) : Z := rolw 32 word shift.

(** One line [x -= z; x ^= rol32(z, k); z += y] of [__jhash_mix]. *)
Definition jhash_line (k x y z : Z) : Z * Z := (subw 32 x z ^^ rol32 z k, addw 32 z y).

Definition __jhash_mix (abc : Z * Z * Z) : Z * Z * Z :=
  let '(a, b, c) := abc in
  let '(a, c) := jhash_line 4 a b c in
  let '(b, a) := jhash_line 6 b c a in
  let '(c, b) := jhash_line 8 c a b in
  let '(a, c) := jhash_line 16 a b c in
  let '(b, a) := jhash_line 19 b c a in
  let '(c, b) := jhash_line 4 c a b in
  (a, b, c).

(** One step [x ^= y; x -= rol32(y, k)] of [__jhash_final]. *)
Definition jhash_final_step (k x y : Z) : Z := subw 32 (x ^^ y) (rol32 y k).

Definition __jhash_final (abc : Z * Z * Z) : Z * Z * Z :=
  let '(a, b, c) := abc in
  let c := jhash_final_step 14 c b in
  let a := jhash_final_step 11 a c in
  let b := jhash_final_step 25 b a in
  let c := jhash_final_step 16 c b in
  let a := jhash_final_step 4 a c in
  let b := jhash_final_step 14 b a in
  let c := jhash_final_step 24 c b in
  (a, b, c).

(** [while (length > 12)]: one byte of each four is mixed in. *)
Fixpoint jhash_loop (fuel : nat) (abc : Z * Z * Z) (k : list Z) : Z * Z * Z * list Z :=
  match fuel with
  | O => (abc, k)
  | S fuel =>
      if 12 <? zlength k then
        let '(a, b, c) := abc in
        let abc := __jhash_mix (addw 32 a (tbl k 0), addw 32 b (tbl k 4), addw 32 c (tbl k 8)) in
        jhash_loop fuel abc (drop 12 k)
      else (abc, k)
  end.

(** The [case n: x += k[n - 1] << s] of the fall-through switch. *)
Definition jhash_case (k : list Z) (n s x : Z) : Z :=
  if n <=? zlength k then addw 32 x (shlw 32 (tbl k (n - 1)) s) else x.

Definition jhash (key : list Z) (initval : Z) : Z :=
  let i := addw 32 (addw 32 JHASH_INITVAL (zlength key)) initval in
  let '(a, b, c, k) := jhash_loop (length key) (i, i, i) key in
  let c := jhash_case k 9 0 (jhash_case k 10 8 (jhash_case k 11 16 (jhash_case k 12 24 c))) in
  let b := jhash_case k 5 0 (jhash_case k 6 8 (jhash_case k 7 16 (jhash_case k 8 24 b))) in
  let a := jhash_case k 1 0 (jhash_case k 2 8 (jhash_case k 3 16 (jhash_case k 4 24 a))) in
  if 1 <=? zlength k then let '(_, _, c) := __jhash_final (a, b, c) in c else c.

(** * crc/fnv.c *)

Definition FNV_PRIME : Z := 0x100000001b3.

Fixpoint fnv_loop (fuel : nat) (buf : list Z) (hval : Z) : Z :=
  match fuel with
  | O => hval
  | S fuel =>
      if zlength buf =? 0 then hval else
      let hval := mulw 64 hval FNV_PRIME in
      if 8 <=? zlength buf then fnv_loop fuel (drop 8 buf) (hval ^^ word_le 8 buf 0)
      else hval ^^ fold_left (fun val b => Z.lor (shlw 64 val 8) b) buf 0
  end.

Definition fnv (buf : list Z) (hval : Z) : Z := fnv_loop (length buf) buf hval.

(** * crc/murmur3.c *)

Definition rotl32 (x r : Z) : Z := rolw 32 x r.

Definition fmix32 (h : Z) : Z :=
  let h := h ^^ (h >> 16) in
  let h := mulw 32 h 0x85ebca6b in
  let h := h ^^ (h >> 13) in
  let h := mulw 32 h 0xc2b2ae35 in
  h ^^ (h >> 16).

Definition murmur3_c1 : Z := 0xcc9e2d51.
Definition murmur3_c2 : Z := 0x1b873593.

Definition murmur3_k (k1 : Z) : Z := mulw 32 (rotl32 (mulw 32 k1 murmur3_c1) 15) murmur3_c2.

(** [tail] is what follows the complete words; the cases fall through. *)
Definition murmur3_tail (data tail : list Z) (h1 : Z) : Z :=
  let len := zlength data in
  let k1 := 0 in
  let k1 := if (len & 3) =? 3 then k1 ^^ Z.shiftl (tbl tail 2) 16 else k1 in
  let k1 := if 2 <=? (len & 3) then k1 ^^ Z.shiftl (tbl tail 1) 8 else k1 in
  let h1 := if 1 <=? (len & 3) then h1 ^^ murmur3_k (k1 ^^ tbl tail 0) else h1 in
  fmix32 (h1 ^^ len).

Definition murmur3_block (data : list Z) (h1 : Z) (i : nat) : Z :=
  let h1 := h1 ^^ murmur3_k (word_le 4 data i) in
  let h1 := rotl32 h1 13 in
  addw 32 (mulw 32 h1 5) 0xe6546b64.

Definition murmurhash3 (key : list Z) (seed : Z) : Z :=
  let nblocks := (length key / 4)%nat in
  let h1 := fold_left (murmur3_block key) (seq 0 nblocks) seed in
  murmur3_tail key (drop (nblocks * 4) key) h1.

(** Published values. *)
Example murmurhash3_test : murmurhash3 [0x74; 0x65; 0x73; 0x74] 0 = 0xba6bd213.
Proof. vm_compute. reflexivity. Qed.

Example murmurhash3_abc : murmurhash3 [0x61; 0x62; 0x63] 0 = 0xb3dd93fa.
Proof. vm_compute. reflexivity. Qed.

(** * Proofs *)

(** ** Inverses of the mixing steps *)

Lemma subw_addw w x z : is_word w x -> addw w (subw w x z) z = x.
Proof. intros. unfold addw, subw. rewrite wrap_add_l, Z.sub_add. by apply wrap_small. Qed.

Lemma addw_subw w x z : is_word w x -> subw w (addw w x z) z = x.
Proof. intros. unfold addw, subw. rewrite wrap_sub_l, Z.add_simpl_r. by apply wrap_small. Qed.

Lemma lxor_undo x y : (x ^^ y) ^^ y = x.
Proof. by rewrite Z.lxor_assoc, Z.lxor_nilpotent, Z.lxor_0_r. Qed.

(** Multiplication by an odd constant, undone by its inverse modulo [2^w]. *)
Lemma mulw_inverse w c d x : is_word w x -> wrap w (c * d) = 1 -> mulw w (mulw w x c) d = x.
Proof.
  intros Hx Hcd. unfold mulw. rewrite wrap_mul_l, <- Z.mul_assoc, <- wrap_mul_r, Hcd, Z.mul_1_r.
  by apply wrap_small.
Qed.

(** [x ^= x >> n], undone by xoring with the shifts of the result. *)
Lemma xorshift_half w n x : is_word w x -> 0 <= n -> w <= 2 * n ->
  let y := x ^^ (x >> n) in y ^^ (y >> n) = x.
Proof.
  intros Hx Hn Hw y. unfold y. rewrite Z.shiftr_lxor, Z.shiftr_shiftr by done.
  assert (x >> (n + n) = 0) as ->; [|rewrite Z.lxor_0_r; apply lxor_undo].
  apply Z.bits_inj'. intros i Hi. rewrite Z.shiftr_spec, Z.bits_0 by done. apply (is_word_bits w); [done|lia].
Qed.

Lemma xorshift_third w n x : is_word w x -> 0 <= n -> w <= 3 * n ->
  let y := x ^^ (x >> n) in y ^^ (y >> n) ^^ (y >> (2 * n)) = x.
Proof.
  intros Hx Hn Hw y. unfold y. rewrite !Z.shiftr_lxor, !Z.shiftr_shiftr by lia.
  assert (x >> (n + 2 * n) = 0) as ->.
  { apply Z.bits_inj'. intros i Hi. rewrite Z.shiftr_spec, Z.bits_0 by done. apply (is_word_bits w); [done|lia]. }
  replace (n + n) with (2 * n) by lia. rewrite Z.lxor_0_r.
  generalize (x >> n) (x >> (2 * n)). intros a b. bits.
Qed.

(** The inverse of one line of [__jhash_mix], and of the whole of it. *)
Definition jhash_unline (k x y z : Z) : Z * Z :=
  let z := subw 32 z y in (addw 32 (x ^^ rol32 z k) z, z).

Lemma jhash_line_inverse k x y z : is_word 32 x -> is_word 32 z ->
  let '(x', z') := jhash_line k x y z in jhash_unline k x' y z' = (x, z).
Proof.
  intros Hx Hz. unfold jhash_line, jhash_unline. rewrite addw_subw by done. rewrite lxor_undo.
  by rewrite subw_addw.
Qed.

Definition jhash_unmix (abc : Z * Z * Z) : Z * Z * Z :=
  let '(a, b, c) := abc in
  let '(c, b) := jhash_unline 4 c a b in
  let '(b, a) := jhash_unline 19 b c a in
  let '(a, c) := jhash_unline 16 a b c in
  let '(c, b) := jhash_unline 8 c a b in
  let '(b, a) := jhash_unline 6 b c a in
  let '(a, c) := jhash_unline 4 a b c in
  (a, b, c).

Lemma jhash_line_word k x y z : 0 <= k <= 32 -> is_word 32 z ->
  is_word 32 (fst (jhash_line k x y z)) /\ is_word 32 (snd (jhash_line k x y z)).
Proof.
  intros Hk Hz. split; cbn [fst snd jhash_line]; [|apply addw_range; lia].
  apply is_word_lxor; [lia|apply subw_range; lia|]. by apply rolw_range.
Qed.

(** Run one line forwards, and remember how to run it backwards. *)
Ltac mix_line k x y z x' z' :=
  let E := fresh "E" in let H := fresh "H" in let W := fresh "W" in
  pose proof (jhash_line_inverse k x y z ltac:(assumption) ltac:(assumption)) as H;
  pose proof (jhash_line_word k x y z ltac:(lia) ltac:(assumption)) as W;
  destruct (jhash_line k x y z) as [x' z'] eqn:E; cbn [fst snd] in W; destruct W.

Lemma jhash_mix_inverse a b c : is_word 32 a -> is_word 32 b -> is_word 32 c ->
  jhash_unmix (__jhash_mix (a, b, c)) = (a, b, c).
Proof.
  intros Ha Hb Hc. unfold __jhash_mix.
  mix_line 4 a b c a1 c1. mix_line 6 b c1 a1 b1 a2. mix_line 8 c1 a2 b1 c2 b2.
  mix_line 16 a2 b2 c2 a3 c3. mix_line 19 b2 c3 a3 b3 a4. mix_line 4 c3 a4 b3 c4 b4.
  unfold jhash_unmix. do 6 match goal with H : jhash_unline ?k ?x ?y ?z = _ |- context [jhash_unline ?k ?x ?y ?z] => rewrite H end.
  done.
Qed.

Definition fmix32_inverse (h : Z) : Z :=
  let h := h ^^ (h >> 16) in
  let h := mulw 32 h 0x7ed1b41d in
  let h := h ^^ (h >> 13) ^^ (h >> (2 * 13)) in
  let h := mulw 32 h 0xa5cb9243 in
  h ^^ (h >> 16).

Lemma xorshift_word n x : 0 <= n -> is_word 32 x -> is_word 32 (x ^^ (x >> n)).
Proof. intros. apply is_word_lxor; [lia|done|]. by apply is_word_shiftr. Qed.

Lemma fmix32_inverse_l h : is_word 32 h -> fmix32_inverse (fmix32 h) = h.
Proof.
  intros Hh. unfold fmix32, fmix32_inverse.
  assert (is_word 32 (h ^^ (h >> 16))) as H1 by (by apply xorshift_word).
  set (h1 := h ^^ (h >> 16)) in *.
  assert (is_word 32 (mulw 32 h1 0x85ebca6b)) as H2 by (apply mulw_range; lia).
  set (h2 := mulw 32 h1 _) in *.
  assert (is_word 32 (h2 ^^ (h2 >> 13))) as H3 by (by apply xorshift_word).
  set (h3 := h2 ^^ (h2 >> 13)) in *.
  assert (is_word 32 (mulw 32 h3 0xc2b2ae35)) as H4 by (apply mulw_range; lia).
  rewrite (xorshift_half 32 16 (mulw 32 h3 0xc2b2ae35)) by (done || lia).
  rewrite (mulw_inverse 32 0xc2b2ae35 0x7ed1b41d) by done. unfold h3.
  rewrite (xorshift_third 32 13 h2) by (done || lia). unfold h2.
  rewrite (mulw_inverse 32 0x85ebca6b 0xa5cb9243) by done. unfold h1.
  by rewrite (xorshift_half 32 16 h) by (done || lia).
Qed.

(** The mixing steps lose nothing: the six lines of [__jhash_mix] are reversible,
    as its comment says, and so are murmur3's finaliser and the golden-ratio
    multiplication of [__hash_u64]; each has the inverse written here, on every word. *)
Theorem mixing_reversible :
  (forall a b c, is_word 32 a -> is_word 32 b -> is_word 32 c ->
     jhash_unmix (__jhash_mix (a, b, c)) = (a, b, c)) /\
  (forall h, is_word 32 h -> fmix32_inverse (fmix32 h) = h) /\
  (forall v, is_word 64 v -> mulw 64 (__hash_u64 v) 0x0e217c1e66c88cc3 = v).
Proof.
  split; [apply jhash_mix_inverse|]. split; [apply fmix32_inverse_l|].
  intros v Hv. by apply mulw_inverse.
Qed.

Lemma mixing_reversible_witness :
  jhash_unmix (__jhash_mix (1, 2, 3)) = (1, 2, 3) /\ fmix32_inverse (fmix32 5) = 5.
Proof.
  destruct mixing_reversible as (H1 & H2 & _). split; [apply H1|apply H2]; apply (bool_decide_unpack _); exact I.
Defined.
