(* ===== verification/Bloom.v ===== *)
(** lib/bloom.c and its client in filesetup.c: a Bloom filter of five hashes, and the
    list of allocated file names that it guards. *)
From S2P Require Import Prelude Bits Stream Crc Hash Xxhash.
Local Open Scope word_scope.

Record bloom : Type := mk_bloom { nentries : Z; bmap : list Z }.

Definition BITS_PER_INDEX : Z := 4 * 8.
Definition BITS_INDEX_MASK : Z := BITS_PER_INDEX - 1.
Definition BLOOM_SEED : Z := 0x8989.

(** [fio_crc32c] on a host without the CRC instructions; they compute the same sum. *)
Definition bloom_crc32c (buf : list Z) (seed : Z) : Z := crc32c_sw buf.
Definition bloom_fnv (buf : list Z) (seed : Z) : Z := wrap 32 (fnv buf seed).

Definition hashes : list (Z * (list Z -> Z -> option Z)) := [
  (BLOOM_SEED, fun d s => Some (jhash d s));
  (BLOOM_SEED, XXH32);
  (BLOOM_SEED, fun d s => Some (murmurhash3 d s));
  (BLOOM_SEED, fun d s => Some (bloom_crc32c d s));
  (BLOOM_SEED, fun d s => Some (bloom_fnv d s))].

Definition N_HASHES : Z := 5.

(** [alloc] tells whether the allocation of the map succeeds. *)
Definition bloom_new (alloc : bool) (entries : Z) : option bloom :=
  let no_uints := addw 64 entries (BITS_PER_INDEX - 1) / BITS_PER_INDEX in
  if alloc then Some (mk_bloom entries (replicate (Z.to_nat no_uints) 0)) else None.

(** [hash[i] = hashes[i].fn(...); hash[i] = hash[i] % nentries] *)
Definition bloom_hash (b : bloom) (data : list Z) (h : Z * (list Z -> Z -> option Z)) : option Z :=
  let '(seed, fn) := h in
  let* x := fn data seed in
  if nentries b =? 0 then None else Some (wrap 32 (x mod nentries b)).

(** The second loop, which leaves at the first clear bit unless it sets it. *)
Fixpoint bloom_loop (set : bool) (hash : list Z) (m : list Z) (was_set : Z) : option (list Z * Z) :=
  match hash with
  | [] => Some (m, was_set)
  | h :: hash =>
      let index := h / BITS_PER_INDEX in
      let bit := h & BITS_INDEX_MASK in
      let* word := arr_get m index in
      if c_true (word & shlw 32 1 bit) then bloom_loop set hash m (was_set + 1)
      else if set then
        let* m := arr_set m index (Z.lor word (shlw 32 1 bit)) in
        bloom_loop set hash m was_set
      else Some (m, was_set)
  end.

Definition __bloom_check (b : bloom) (data : list Z) (set : bool) : option (bool * bloom) :=
  let* hash := mapM (bloom_hash b data) hashes in
  let* '(m, was_set) := bloom_loop set hash (bmap b) 0 in
  Some (was_set =? N_HASHES, mk_bloom (nentries b) m).

(** [bloom_set] hashes the words' bytes. *)
Definition bloom_set (b : bloom) (data : list Z) : option (bool * bloom) :=
  __bloom_check b (concat (le_bytes 4 <$> data)) true.

Definition bloom_string (b : bloom) (data : list Z) (set : bool) : option (bool * bloom) :=
  __bloom_check b data set.

(** * The allocated file names of filesetup.c

    The hash lock makes each call below one step. *)

Record name_state : Type := mk_names { file_bloom : bloom; filename_list : list (list Z) }.

Definition BLOOM_SIZE : Z := 16 * 1024 * 1024.

Definition file_bloom_exists (b : bloom) (fname : list Z) (set : bool) : option (bool * bloom) :=
  bloom_string b fname set.

(** The list is searched only when the filter has seen the name. *)
Definition __is_already_allocated (s : name_state) (fname : list Z) (set : bool) : option (bool * name_state) :=
  let* '(ret, b) := file_bloom_exists (file_bloom s) fname set in
  let s := mk_names b (filename_list s) in
  Some (ret && bool_decide (fname ∈ filename_list s), s).

Definition is_already_allocated (s : name_state) (fname : list Z) : option (bool * name_state) :=
  __is_already_allocated s fname false.

Definition set_already_allocated (s : name_state) (fname : list Z) : option name_state :=
  let* '(found, s) := __is_already_allocated s fname true in
  Some (if (found : bool) then s else mk_names (file_bloom s) (filename_list s ++ [fname])).

(** A run of calls that record names. *)
Fixpoint allocate_all (s : name_state) (names : list (list Z)) : option name_state :=
  match names with
  | [] => Some s
  | n :: names => let* s := set_already_allocated s n in allocate_all s names
  end.

(** * Proofs *)

Definition bit_set (m : list Z) (x : Z) : bool := Z.testbit (tbl m (x / 32)) (x mod 32).

Definition bloom_ok (b : bloom) : Prop :=
  0 < nentries b < 2 ^ 32 /\ nentries b <= 32 * zlength (bmap b) /\ Forall (is_word 32) (bmap b).

Lemma bit_test m x w : Forall (is_word 32) m -> 0 <= x -> arr_get m (x / 32) = Some w ->
  c_true (w & shlw 32 1 (x & BITS_INDEX_MASK)) = bit_set m x /\ tbl m (x / 32) = w.
Proof.
  intros Hm Hx Hw. assert (tbl m (x / 32) = w) as Ht.
  { unfold tbl, arr_get in *. destruct (Z.ltb_spec (x / 32) 0); [done|].
    by rewrite nth_lookup, Hw. }
  split; [|done]. unfold bit_set. rewrite Ht. unfold BITS_INDEX_MASK, BITS_PER_INDEX.
  change (4 * 8 - 1) with (Z.ones 5). rewrite Z.land_ones by lia. change (2 ^ 5) with 32.
  pose proof (Z.mod_pos_bound x 32 ltac:(lia)) as Hb. set (i := x mod 32) in *.
  destruct (Z.testbit w i) eqn:E.
  - apply c_true_iff. intros H. apply (f_equal (fun z => Z.testbit z i)) in H.
    rewrite Z.land_spec, shlw_bits, E, Z.sub_diag, Z.bits_0 in H by lia.
    destruct (Z.ltb_spec i 32); [done|lia].
  - apply c_true_false_iff. apply Z.bits_inj'. intros j Hj.
    rewrite Z.land_spec, shlw_bits, Z.bits_0 by lia. destruct (Z.eq_dec j i) as [->|Hne]; [by rewrite E|].
    replace (Z.testbit 1 (j - i)) with false; [by rewrite andb_false_r|].
    symmetry. destruct (Z.lt_ge_cases j i); [apply Z.testbit_neg_r; lia|].
    apply (is_word_bits 1); [unfold is_word; lia|lia].
Qed.

(** The word written when a bit is added. *)
Lemma bit_added m x w y : Forall (is_word 32) m -> 0 <= x -> 0 <= y -> arr_get m (x / 32) = Some w ->
  bit_set (<[Z.to_nat (x / 32) := Z.lor w (shlw 32 1 (x & BITS_INDEX_MASK))]> m) y =
  bit_set m y || (x =? y).
Proof.
  intros Hm Hx Hy Hw. destruct (bit_test m x w Hm Hx Hw) as [_ Ht].
  pose proof (arr_get_range _ _ _ Hw) as Hr. unfold bit_set, tbl.
  unfold BITS_INDEX_MASK, BITS_PER_INDEX. change (4 * 8 - 1) with (Z.ones 5).
  rewrite Z.land_ones by lia. change (2 ^ 5) with 32.
  pose proof (Z.div_mod x 32 ltac:(lia)). pose proof (Z.div_mod y 32 ltac:(lia)).
  pose proof (Z.mod_pos_bound x 32 ltac:(lia)). pose proof (Z.mod_pos_bound y 32 ltac:(lia)).
  pose proof (Z.div_pos y 32 Hy ltac:(lia)).
  rewrite !nth_lookup. destruct (Z.eq_dec (x / 32) (y / 32)) as [e|n].
  - rewrite <- e, list_lookup_insert_eq by (unfold zlength in Hr; lia). cbn [from_option id].
    rewrite Z.lor_spec, shlw_bits by lia. unfold tbl in Ht. rewrite nth_lookup in Ht. rewrite Ht. f_equal.
    destruct (Z.ltb_spec (y mod 32) 32); [|lia]. rewrite andb_true_r.
    destruct (Z.eqb_spec x y) as [->|Hne]; [by rewrite Z.sub_diag|].
    destruct (Z.lt_ge_cases (y mod 32) (x mod 32)); [apply Z.testbit_neg_r; lia|].
    apply (is_word_bits 1); [unfold is_word; lia|lia].
  - rewrite list_lookup_insert_ne by lia. destruct (Z.eqb_spec x y) as [->|_]; [done|]. by rewrite orb_false_r.
Qed.

Lemma one_bit_word x : is_word 32 (shlw 32 1 x).
Proof. apply shlw_range. lia. Qed.

(** What a pass over the hashes does, with and without setting. *)
Lemma bloom_loop_spec set hash : forall m k, Forall (is_word 32) m ->
  Forall (fun h => 0 <= h < 32 * zlength m) hash ->
  exists m' n, bloom_loop set hash m k = Some (m', n) /\ n <= k + zlength hash /\
    (n = k + zlength hash <-> Forall (fun h => bit_set m h = true) hash) /\
    zlength m' = zlength m /\ Forall (is_word 32) m' /\
    (forall y, 0 <= y -> bit_set m' y = bit_set m y || (set && bool_decide (y ∈ hash))).
Proof.
  induction hash as [|h hash IH]; intros m k Hm Hh; cbn [bloom_loop].
  { exists m, k. change (zlength []) with 0. split; [done|]. split; [lia|]. split; [|split; [done|split; [done|]]].
    - split; intros; (lia || constructor).
    - intros y Hy. rewrite bool_decide_false by apply not_elem_of_nil. by rewrite andb_false_r, orb_false_r. }
  apply Forall_cons_1 in Hh as [Hh Hhs].
  destruct (arr_get_Some m (h / 32)) as [w Hw].
  { split; [apply Z.div_pos; lia|]. apply Z.div_lt_upper_bound; lia. }
  change BITS_PER_INDEX with 32. rewrite Hw. cbn [mbind option_bind].
  destruct (bit_test m h w Hm ltac:(lia) Hw) as [Hb Ht]. rewrite Hb.
  assert (zlength (h :: hash) = 1 + zlength hash) as El by (unfold zlength; cbn [length]; lia). rewrite El.
  destruct (bit_set m h) eqn:Hbit.
  - destruct (IH m (k + 1) Hm Hhs) as (m' & n & -> & H1 & H2 & H3 & H4 & H5).
    exists m', n. split; [done|]. split; [lia|]. split; [|split; [done|split; [done|]]].
    + split; [intros; constructor; [done|apply H2; lia]|]. intros [_ HF]%Forall_cons_1. apply H2 in HF. lia.
    + intros y Hy. rewrite H5 by done. destruct (decide (y = h)) as [->|Hne]; [by rewrite Hbit|].
      do 2 f_equal. apply bool_decide_ext. split; [apply list_elem_of_further|by intros [?|?]%elem_of_cons].
  - destruct set.
    + rewrite arr_set_Some by (by eapply arr_get_range). cbn [mbind option_bind].
      set (m1 := <[_ := _]> m). assert (zlength m1 = zlength m) as Hl by apply zlength_insert.
      assert (Forall (is_word 32) m1) as Hm1.
      { apply Forall_insert; [done|]. apply is_word_lor; [lia| |apply one_bit_word].
        unfold arr_get in Hw. destruct (_ <? 0); [done|]. by eapply Forall_lookup_1. }
      destruct (IH m1 k Hm1) as (m' & n & -> & H1 & H2 & H3 & H4 & H5); [by rewrite Hl|].
      exists m', n. split; [done|]. split; [lia|]. split; [|split; [congruence|split; [done|]]].
      * split; [lia|]. intros [HF _]%Forall_cons_1. congruence.
      * intros y Hy. rewrite H5 by done. unfold m1. rewrite bit_added by (done || lia).
        rewrite andb_true_l, <- orb_assoc. f_equal. destruct (Z.eqb_spec h y) as [->|Hne].
        -- symmetry. apply bool_decide_true, list_elem_of_here.
        -- apply bool_decide_ext. split; [apply list_elem_of_further|by intros [?|?]%elem_of_cons].
    + exists m, k. split; [done|]. split; [unfold zlength; lia|].
      split; [|split; [done|split; [done|intros; by rewrite orb_false_r]]].
      split; [unfold zlength; lia|]. intros [HF _]%Forall_cons_1. congruence.
Qed.

(** ** A filter as a set of numbers *)

(** The numbers that [data] hashes to, below [n]. *)
Definition hash_values (n : Z) (data : list Z) : list Z :=
  (fun x => x mod n) <$> [jhash data BLOOM_SEED; xxh_reference BLOOM_SEED data;
    murmurhash3 data BLOOM_SEED; bloom_crc32c data BLOOM_SEED; bloom_fnv data BLOOM_SEED].

Lemma bloom_hash_values b data : 0 < nentries b < 2 ^ 32 ->
  mapM (bloom_hash b data) hashes = Some (hash_values (nentries b) data).
Proof.
  intros Hn. assert (forall x, (if nentries b =? 0 then None else Some (wrap 32 (x mod nentries b))) =
    Some (x mod nentries b)) as E.
  { intros x. destruct (Z.eqb_spec (nentries b) 0); [lia|]. rewrite wrap_small; [done|].
    pose proof (Z.mod_pos_bound x (nentries b) ltac:(lia)). unfold is_word. lia. }
  unfold hashes, hash_values. cbn [mapM bloom_hash mbind option_bind].
  rewrite XXH32_spec. cbn [mbind option_bind]. by rewrite !E.
Qed.

Definition bloom_member (b : bloom) (x : Z) : bool := bit_set (bmap b) x.

(** A check answers whether all the hashes of the data were set; setting adds them. *)
Lemma bloom_check_spec b data set : bloom_ok b ->
  exists b', __bloom_check b data set =
    Some (forallb (bloom_member b) (hash_values (nentries b) data), b') /\
    bloom_ok b' /\ nentries b' = nentries b /\
    forall y, 0 <= y -> bloom_member b' y =
      bloom_member b y || (set && bool_decide (y ∈ hash_values (nentries b) data)).
Proof.
  intros (Hn & Hlen & Hw). unfold __bloom_check. rewrite bloom_hash_values by done. cbn [mbind option_bind].
  set (hs := hash_values (nentries b) data).
  assert (Forall (fun h => 0 <= h < 32 * zlength (bmap b)) hs) as Hhs.
  { unfold hs, hash_values. apply Forall_fmap, Forall_true. intros x. cbn.
    pose proof (Z.mod_pos_bound x (nentries b) ltac:(lia)). lia. }
  destruct (bloom_loop_spec set hs (bmap b) 0 Hw Hhs) as (m' & n & -> & H1 & H2 & H3 & H4 & H5).
  cbn [mbind option_bind]. exists (mk_bloom (nentries b) m'). split; [|split; [|split; [done|exact H5]]].
  - do 2 f_equal. assert (zlength hs = 5) as Hl by done. rewrite Hl in H2. unfold N_HASHES.
    apply eq_iff_eq_true. rewrite Z.eqb_eq, H2, forallb_forall, List.Forall_forall. done.
  - unfold bloom_ok. cbn [nentries bmap]. by rewrite H3.
Qed.

Lemma bloom_new_ok alloc entries b : 0 < entries < 2 ^ 32 -> bloom_new alloc entries = Some b ->
  bloom_ok b /\ nentries b = entries /\ forall y, 0 <= y -> bloom_member b y = false.
Proof.
  intros He. unfold bloom_new. destruct alloc; [|done]. intros [= <-]. unfold addw, BITS_PER_INDEX.
  rewrite wrap_small by (unfold is_word; lia). change (4 * 8) with 32.
  pose proof (Z.div_mod (entries + (32 - 1)) 32 ltac:(lia)).
  pose proof (Z.mod_pos_bound (entries + (32 - 1)) 32 ltac:(lia)).
  split; [|split; [done|]].
  - split; [done|]. cbn [nentries bmap]. unfold zlength. rewrite length_replicate. split; [lia|].
    apply Forall_replicate. unfold is_word. lia.
  - intros y Hy. unfold bloom_member, bit_set. cbn [bmap]. rewrite tbl_zeros. apply Z.bits_0.
Qed.

(** ** The names *)

(** Every recorded name has all its hashes in the filter, and is recorded once. *)
Definition names_ok (s : name_state) : Prop :=
  bloom_ok (file_bloom s) /\ NoDup (filename_list s) /\
  forall n, n ∈ filename_list s ->
    forallb (bloom_member (file_bloom s)) (hash_values (nentries (file_bloom s)) n) = true.

Lemma hash_values_nonneg n data h : 0 < n -> h ∈ hash_values n data -> 0 <= h.
Proof. intros Hn (x & -> & _)%list_elem_of_fmap. apply Z.mod_pos_bound. lia. Qed.

Lemma forallb_member_mono b b' n data : 0 < n ->
  (forall y, 0 <= y -> bloom_member b y = true -> bloom_member b' y = true) ->
  forallb (bloom_member b) (hash_values n data) = true ->
  forallb (bloom_member b') (hash_values n data) = true.
Proof.
  intros Hn Hm. rewrite !forallb_forall. intros H x Hx. apply Hm; [|by apply H].
  apply (hash_values_nonneg n data); [done|]. by apply list_elem_of_In.
Qed.

Lemma is_allocated_spec s fname set : names_ok s ->
  exists s', __is_already_allocated s fname set = Some (bool_decide (fname ∈ filename_list s), s') /\
    filename_list s' = filename_list s /\ names_ok s' /\
    (set = true -> forallb (bloom_member (file_bloom s'))
      (hash_values (nentries (file_bloom s')) fname) = true).
Proof.
  intros (Hb & Hnd & Hin). unfold __is_already_allocated, file_bloom_exists, bloom_string.
  destruct (bloom_check_spec (file_bloom s) fname set Hb) as (b' & -> & Hb' & Hn & Hm).
  cbn [mbind option_bind filename_list]. exists (mk_names b' (filename_list s)). split; [|split; [done|split]].
  - do 2 f_equal. case_bool_decide as E; [|by rewrite andb_false_r]. by rewrite Hin.
  - split; [done|]. split; [done|]. cbn [file_bloom filename_list]. intros n Hl. rewrite Hn.
    apply (forallb_member_mono (file_bloom s)); [apply Hb| |by apply Hin].
    intros y Hy H. by rewrite Hm, H.
  - intros ->. cbn [file_bloom]. rewrite Hn, forallb_forall. intros x Hx%list_elem_of_In.
    rewrite Hm by (eapply hash_values_nonneg; [|done]; apply Hb).
    rewrite bool_decide_true by done. apply orb_true_r.
Qed.

Lemma set_allocated_spec s fname : names_ok s ->
  exists s', set_already_allocated s fname = Some s' /\ names_ok s' /\
    filename_list s' = filename_list s ++ (if bool_decide (fname ∈ filename_list s) then [] else [fname]).
Proof.
  intros Hs. unfold set_already_allocated.
  destruct (is_allocated_spec s fname true Hs) as (s1 & -> & Hl & Hs1 & Hf). cbn [mbind option_bind].
  eexists. split; [done|]. case_bool_decide as E; [by rewrite app_nil_r|].
  split; [|cbn [filename_list]; by rewrite Hl]. destruct Hs1 as (Hb & Hnd & Hin).
  split; [done|]. cbn [file_bloom filename_list]. split.
  - apply list.NoDup_app. split; [done|]. split; [|apply NoDup_singleton].
    intros x Hx H. apply list_elem_of_singleton in H as ->. by rewrite Hl in Hx.
  - intros n [H|H]%elem_of_app; [by apply Hin|]. apply list_elem_of_singleton in H as ->. by apply Hf.
Qed.

Lemma allocate_all_spec names : forall s, names_ok s ->
  exists s', allocate_all s names = Some s' /\ names_ok s' /\
    forall n, n ∈ filename_list s' <-> n ∈ filename_list s \/ n ∈ names.
Proof.
  induction names as [|f names IH]; intros s Hs; cbn [allocate_all].
  { exists s. split; [done|]. split; [done|]. intros n. split; [by left|]. by intros [H|H%not_elem_of_nil]. }
  destruct (set_allocated_spec s f Hs) as (s1 & -> & H1 & E1). cbn [mbind option_bind].
  destruct (IH s1 H1) as (s2 & -> & H2 & E2). exists s2. split; [done|]. split; [done|].
  intros n. rewrite E2, E1, elem_of_app, elem_of_cons. case_bool_decide as E.
  - split; [intros [[H|H%not_elem_of_nil]|H]|intros [H|[->|H]]]; auto; done.
  - rewrite list_elem_of_singleton. tauto.
Qed.

(** C15: The file-name check is exact although the filter in front of it is not: after
    any run of recorded names, from a fresh filter of any size, asking for a name
    answers whether it was recorded - the filter never hides a recorded name, the list
    removes its false positives - no name is recorded twice, and no access leaves the
    filter's map. *)
Theorem already_allocated_exact entries b names fname :
  0 < entries < 2 ^ 32 -> bloom_new true entries = Some b ->
  exists s s', allocate_all (mk_names b []) names = Some s /\
    is_already_allocated s fname = Some (bool_decide (fname ∈ names), s') /\
    filename_list s' = filename_list s /\ NoDup (filename_list s).
Proof.
  intros He Hb. destruct (bloom_new_ok _ _ _ He Hb) as (Hok & _ & _).
  destruct (allocate_all_spec names (mk_names b [])) as (s & E & Hs & Hl).
  { split; [done|]. split; [constructor|]. by intros n H%not_elem_of_nil. }
  destruct (is_allocated_spec s fname false Hs) as (s' & E' & Hl' & _).
  exists s, s'. split; [done|]. split; [|split; [done|apply Hs]]. unfold is_already_allocated. rewrite E'.
  do 2 f_equal. apply bool_decide_ext. rewrite Hl. cbn [filename_list].
  split; [by intros [H%not_elem_of_nil|H]|by right].
Qed.

Lemma already_allocated_witness :
  exists b s s', bloom_new true 64 = Some b /\ allocate_all (mk_names b []) [[0x61]; [0x62]; [0x61]] = Some s /\
    is_already_allocated s [0x62] = Some (bool_decide ([0x62] ∈ [[0x61]; [0x62]; [0x61]]), s') /\
    filename_list s' = filename_list s /\ NoDup (filename_list s).
Proof.
  destruct (already_allocated_exact 64 (mk_bloom 64 [0; 0]) [[0x61]; [0x62]; [0x61]] [0x62]) as (s & s' & H);
    [lia|reflexivity|].
  exists (mk_bloom 64 [0; 0]), s, s'. split; [reflexivity|]. exact H.
Defined.
