(* ===== verification/Fifo.v ===== *)
(** fifo.c and fifo.h: the byte queue in a ring buffer with free-running 32-bit
    indices, refined to a list. *)
From S2P Require Import Prelude Bits Stream.
Local Open Scope word_scope.

Record fifo : Type := mk_fifo { buffer : list Z; fsize : Z; fin : Z; fout : Z }.

(** [alloc] is the memory that [malloc(size)] returns, whatever it contains. *)
Definition fifo_alloc (alloc : list Z) : fifo := mk_fifo alloc (zlength alloc) 0 0.

Definition fifo_len (f : fifo) : Z := subw 32 (fin f) (fout f).
Definition fifo_room (f : fifo) : Z := addw 32 (subw 32 (fsize f) (fin f)) (fout f).

Definition fifo_put (f : fifo) (data : list Z) (len : Z) : option (Z * fifo) :=
  let len := Z.min len (fifo_room f) in
  let pos := fin f & subw 32 (fsize f) 1 in
  let l := Z.min len (subw 32 (fsize f) pos) in
  let* d := read_bytes l data in
  let* b := memcpy (buffer f) pos d in
  let* d := read_bytes (len - l) (drop (Z.to_nat l) data) in
  let* b := memcpy b 0 d in
  Some (len, mk_fifo b (fsize f) (addw 32 (fin f) len) (fout f)).

(** [want] tells whether the caller passes a buffer; the bytes copied to it are returned. *)
Definition fifo_get (f : fifo) (want : bool) (len : Z) : option (Z * list Z * fifo) :=
  let len := Z.min len (fifo_len f) in
  let* bytes :=
    (if want then
       let pos := fout f & subw 32 (fsize f) 1 in
       let l := Z.min len (subw 32 (fsize f) pos) in
       let* d1 := read_bytes l (drop (Z.to_nat pos) (buffer f)) in
       let* d2 := read_bytes (len - l) (buffer f) in
       Some (d1 ++ d2)
     else Some []) in
  let out := addw 32 (fout f) len in
  let '(i, o) := if fin f =? out then (0, 0) else (fin f, out) in
  Some (len, bytes, mk_fifo (buffer f) (fsize f) i o).

(** * Proofs *)

(** Byte number [i] of the queue. *)
Definition fifo_byte (f : fifo) (i : Z) : Z := tbl (buffer f) ((fout f + i) mod fsize f).

(** The queue [q] is held between [out] and [in]. *)
Definition fifo_holds (f : fifo) (q : list Z) : Prop :=
  (exists k, 0 <= k < 32 /\ fsize f = 2 ^ k) /\ zlength (buffer f) = fsize f /\
  is_word 32 (fin f) /\ is_word 32 (fout f) /\ fifo_len f = zlength q /\ zlength q <= fsize f /\
  forall i, 0 <= i < zlength q -> fifo_byte f i = tbl q i.

Lemma tbl_memcpy dst off src r j : memcpy dst off src = Some r -> 0 <= j ->
  tbl r j = if (off <=? j) && (j <? off + zlength src) then tbl src (j - off) else tbl dst j.
Proof.
  unfold memcpy, zlength, tbl. destruct (Z.leb_spec 0 off); [|done].
  destruct (Z.leb_spec (off + Z.of_nat (length src)) (Z.of_nat (length dst))); [|done]. intros [= <-] Hj.
  assert (length (take (Z.to_nat off) dst) = Z.to_nat off) as Hl by (rewrite length_take; lia).
  destruct (Z.leb_spec off j).
  - rewrite app_nth2 by lia. rewrite Hl. replace (Z.to_nat j - Z.to_nat off)%nat with (Z.to_nat (j - off)) by lia.
    destruct (Z.ltb_spec j (off + Z.of_nat (length src))); cbn [andb].
    + by rewrite app_nth1 by lia.
    + rewrite app_nth2 by lia. rewrite nth_skipn. f_equal. lia.
  - cbn [andb]. rewrite app_nth1 by lia. apply nth_take_lt. lia.
Qed.

Lemma tbl_app l k i : 0 <= i -> tbl (l ++ k) i = if i <? zlength l then tbl l i else tbl k (i - zlength l).
Proof.
  intros Hi. unfold tbl, zlength. destruct (Z.ltb_spec i (Z.of_nat (length l))).
  - apply app_nth1. lia.
  - rewrite app_nth2 by lia. f_equal. lia.
Qed.

Lemma tbl_take l n i : 0 <= i < n -> tbl (take (Z.to_nat n) l) i = tbl l i.
Proof. intros. apply nth_take_lt. lia. Qed.

Lemma tbl_drop l n i : 0 <= i -> 0 <= n -> tbl (drop (Z.to_nat n) l) i = tbl l (n + i).
Proof. intros. unfold tbl. rewrite nth_skipn. f_equal. lia. Qed.

Lemma zlength_take l n : 0 <= n <= zlength l -> zlength (take (Z.to_nat n) l : list Z) = n.
Proof. unfold zlength. intros. rewrite length_take. lia. Qed.

Lemma zlength_drop l n : 0 <= n <= zlength l -> zlength (drop (Z.to_nat n) l : list Z) = zlength l - n.
Proof. unfold zlength. intros. rewrite length_drop. lia. Qed.

Lemma list_eq_tbl l k : zlength l = zlength k -> (forall i, 0 <= i < zlength l -> tbl l i = tbl k i) -> l = k.
Proof.
  unfold zlength. intros Hl H. apply (nth_ext _ _ 0 0); [lia|]. intros n Hn.
  specialize (H (Z.of_nat n) ltac:(lia)). unfold tbl in H. by rewrite Nat2Z.id in H.
Qed.

(** ** Index arithmetic *)

Section Ring.
Context (f : fifo) (q : list Z) (Hf : fifo_holds f q).

Lemma ring_size : 0 < fsize f <= 2 ^ 31 /\ exists m, 2 ^ 32 = m * fsize f.
Proof using Hf.
  destruct Hf as ((k & Hk & ->) & _). split.
  - pose proof (Z.pow_pos_nonneg 2 k). pose proof (Z.pow_le_mono_r 2 k 31). lia.
  - exists (2 ^ (32 - k)). rewrite <- Z.pow_add_r by lia. f_equal. lia.
Qed.

Lemma ring_mask x : 0 <= x -> x & subw 32 (fsize f) 1 = x mod fsize f.
Proof using Hf.
  intros Hx. pose proof ring_size as [Hs _]. destruct Hf as ((k & Hk & E) & _).
  unfold subw. rewrite wrap_small by (unfold is_word; lia). rewrite E.
  replace (2 ^ k - 1) with (Z.ones k) by (rewrite Z.ones_equiv; lia). apply Z.land_ones. lia.
Qed.

Lemma ring_wrap x : wrap 32 x mod fsize f = x mod fsize f.
Proof using Hf.
  destruct ring_size as [Hs [m Hm]]. unfold wrap. rewrite Hm.
  rewrite Z.mul_comm. pose proof (Z.mod_pos_bound x (fsize f) ltac:(lia)).
  rewrite Z.rem_mul_r by lia. rewrite Z.mul_comm, Z.mod_add, Z.mod_mod by lia. done.
Qed.

Lemma ring_in : fin f = wrap 32 (fout f + zlength q).
Proof using Hf.
  destruct Hf as (_ & _ & Hi & Ho & Hl & _). unfold fifo_len, subw in Hl. rewrite <- Hl, wrap_add_r.
  replace (fout f + (fin f - fout f)) with (fin f) by lia. symmetry. by apply wrap_small.
Qed.

Lemma ring_room : fifo_room f = fsize f - zlength q.
Proof using Hf.
  pose proof ring_size as [Hs _]. destruct Hf as (_ & _ & Hi & Ho & Hl & Hle & _).
  unfold fifo_room, subw. unfold addw. rewrite wrap_add_l, ring_in.
  replace (fsize f - wrap 32 (fout f + zlength q) + fout f)
    with (fsize f + fout f - wrap 32 (fout f + zlength q)) by lia.
  rewrite wrap_sub_r. replace (fsize f + fout f - (fout f + zlength q)) with (fsize f - zlength q) by lia.
  apply wrap_small. unfold is_word, zlength in *. lia.
Qed.

(** Two positions of the ring less than a turn apart are different. *)
Lemma ring_apart x y : x < y < x + fsize f -> x mod fsize f <> y mod fsize f.
Proof using Hf.
  pose proof ring_size as [Hs _]. intros Hxy E.
  pose proof (Z.div_mod x (fsize f) ltac:(lia)). pose proof (Z.div_mod y (fsize f) ltac:(lia)).
  rewrite E in H. assert (y - x = fsize f * (y / fsize f - x / fsize f)) as Hd by (rewrite Z.mul_sub_distr_l; lia).
  clear E H H0. set (d := y / fsize f - x / fsize f) in *. assert (d <= 0 \/ 1 <= d) as [|] by lia; nia.
Qed.

(** Where a run of [n] bytes from [x] goes: up to the end, then from the start. *)
Lemma ring_split x k : 0 <= x -> 0 <= k < fsize f ->
  (x + k) mod fsize f =
  if k <? fsize f - x mod fsize f then x mod fsize f + k else k - (fsize f - x mod fsize f).
Proof using Hf.
  pose proof ring_size as [Hs _]. intros Hx Hk. pose proof (Z.mod_pos_bound x (fsize f) ltac:(lia)).
  rewrite <- Zplus_mod_idemp_l. destruct (Z.ltb_spec k (fsize f - x mod fsize f)).
  - apply Z.mod_small. lia.
  - symmetry. apply Z.mod_unique with 1; lia.
Qed.

Lemma fifo_put_spec data len : 0 <= len -> len <= zlength data ->
  let n := Z.min len (fsize f - zlength q) in
  exists f', fifo_put f data len = Some (n, f') /\ fifo_holds f' (q ++ take (Z.to_nat n) data).
Proof using Hf.
  intros Hlen Hd n. pose proof ring_size as [Hs _]. pose proof ring_in as Hin. pose proof ring_room as Hroom.
  pose proof Hf as (Hk & Hb & Hi & Ho & Hl & Hle & Hq).
  unfold fifo_put. rewrite Hroom. fold n. unfold is_word in *. rewrite ring_mask by lia.
  assert (0 <= zlength q) as Hq0 by (unfold zlength; lia).
  assert (0 <= n <= zlength data /\ n <= fsize f - zlength q) as Hn by (unfold n; lia).
  set (pos := fin f mod fsize f). assert (0 <= pos < fsize f) as Hpos by (apply Z.mod_pos_bound; lia).
  assert (subw 32 (fsize f) pos = fsize f - pos) as -> by (apply wrap_small; unfold is_word; lia).
  set (l := Z.min n (fsize f - pos)). assert (0 <= l <= n) as Hl0 by lia.
  rewrite (read_bytes_Some l) by lia. cbn [mbind option_bind].
  destruct (memcpy (buffer f) pos (take (Z.to_nat l) data)) as [b|] eqn:E1.
  2: { rewrite memcpy_Some in E1; [done|lia|]. rewrite zlength_take by lia. lia. }
  cbn [mbind option_bind]. rewrite read_bytes_Some by (rewrite zlength_drop by lia; lia). cbn [mbind option_bind].
  assert (zlength b = fsize f) as Hb1 by (apply memcpy_length in E1; unfold zlength in *; lia).
  destruct (memcpy b 0 _) as [b'|] eqn:E2.
  2: { rewrite memcpy_Some in E2; [done|lia|]. rewrite zlength_take by (rewrite zlength_drop by lia; lia). lia. }
  cbn [mbind option_bind]. eexists. split; [reflexivity|].
  assert (zlength (q ++ take (Z.to_nat n) data) = zlength q + n) as Hq'.
  { rewrite zlength_app, zlength_take by lia. done. }
  unfold fifo_holds, fifo_len, fifo_byte. cbn [buffer fsize fin fout]. rewrite Hq'.
  split; [done|]. split; [apply memcpy_length in E2; unfold zlength in *; lia|].
  split; [apply addw_range; lia|]. split; [done|]. split.
  { unfold subw, addw. rewrite wrap_sub_l, Hin. replace (wrap 32 (fout f + zlength q) + n - fout f)
      with (wrap 32 (fout f + zlength q) + (n - fout f)) by lia. rewrite wrap_add_l.
    replace (fout f + zlength q + (n - fout f)) with (zlength q + n) by lia.
    apply wrap_small. unfold is_word, zlength in *. lia. }
  split; [lia|]. intros i Hir.
  rewrite (tbl_memcpy _ _ _ _ _ E2), (tbl_memcpy _ _ _ _ _ E1) by (apply Z.mod_pos_bound; lia).
  rewrite !zlength_take by (rewrite ?zlength_drop by lia; lia).
  rewrite tbl_app by lia. pose proof (Z.mod_pos_bound (fout f + i) (fsize f) ltac:(lia)).
  assert (forall k, 0 <= k < fsize f -> (fout f + (zlength q + k)) mod fsize f =
    if k <? fsize f - pos then pos + k else k - (fsize f - pos)) as Hsplit.
  { intros k Hk0. unfold pos. rewrite <- ring_split by lia. rewrite Hin.
    rewrite <- (Zplus_mod_idemp_l (wrap 32 _)), ring_wrap, Zplus_mod_idemp_l. f_equal. lia. }
  destruct (Z.ltb_spec i (zlength q)) as [Hold|Hnew].
  - assert (forall k, 0 <= k < n -> (fout f + i) mod fsize f <> (fout f + (zlength q + k)) mod fsize f) as Hne.
    { intros k Hk0. apply ring_apart. lia. }
    set (p := (fout f + i) mod fsize f) in *. rewrite <- Hq by lia. unfold fifo_byte. fold p.
    destruct (Z.leb_spec 0 p); [|lia]. destruct (Z.ltb_spec p (0 + (n - l))); cbn [andb].
    { exfalso. apply (Hne (l + p)); [lia|]. rewrite Hsplit by lia. destruct (Z.ltb_spec (l + p) (fsize f - pos)); lia. }
    destruct (Z.leb_spec pos p); cbn [andb]; [|done]. destruct (Z.ltb_spec p (pos + l)); [|done].
    exfalso. apply (Hne (p - pos)); [lia|]. rewrite Hsplit by lia.
    destruct (Z.ltb_spec (p - pos) (fsize f - pos)); lia.
  - replace (fout f + i) with (fout f + (zlength q + (i - zlength q))) in * by lia. rewrite Hsplit in * by lia.
    set (k := i - zlength q) in *. rewrite (tbl_take data n k) by lia.
    destruct (Z.ltb_spec k (fsize f - pos)).
    + destruct (Z.leb_spec 0 (pos + k)), (Z.ltb_spec (pos + k) (0 + (n - l))), (Z.leb_spec pos (pos + k)),
        (Z.ltb_spec (pos + k) (pos + l)); cbn [andb]; try lia. rewrite tbl_take by lia. f_equal. lia.
    + destruct (Z.leb_spec 0 (k - (fsize f - pos))), (Z.ltb_spec (k - (fsize f - pos)) (0 + (n - l)));
        cbn [andb]; try lia. rewrite tbl_take, tbl_drop by lia. f_equal. lia.
Qed.

Lemma fifo_get_spec want len : 0 <= len ->
  let n := Z.min len (zlength q) in
  exists f', fifo_get f want len = Some (n, if want then take (Z.to_nat n) q else [], f') /\
    fifo_holds f' (drop (Z.to_nat n) q).
Proof using Hf.
  intros Hlen n. pose proof ring_size as [Hs _]. pose proof ring_in as Hin.
  pose proof Hf as (Hk & Hb & Hi & Ho & Hl & Hle & Hq). unfold is_word in *.
  assert (0 <= zlength q) as Hq0 by (unfold zlength; lia). assert (0 <= n <= zlength q) as Hn by (unfold n; lia).
  unfold fifo_get. rewrite Hl. fold n. rewrite ring_mask by lia.
  set (pos := fout f mod fsize f). assert (0 <= pos < fsize f) as Hpos by (apply Z.mod_pos_bound; lia).
  assert (subw 32 (fsize f) pos = fsize f - pos) as -> by (apply wrap_small; unfold is_word; lia).
  set (l := Z.min n (fsize f - pos)). assert (0 <= l <= n) as Hl0 by lia.
  match goal with |- context [mbind _ ?e] => assert (e = Some (if want then take (Z.to_nat n) q else [])) as -> end.
  { destruct want; [|done].
    rewrite (read_bytes_Some l) by (rewrite zlength_drop by lia; lia). cbn [mbind option_bind].
    rewrite read_bytes_Some by lia. cbn [mbind option_bind]. f_equal. apply list_eq_tbl.
    - rewrite zlength_app, !zlength_take by (rewrite ?zlength_drop by lia; lia). lia.
    - intros i Hir. rewrite zlength_app, !zlength_take in Hir by (rewrite ?zlength_drop by lia; lia).
      rewrite tbl_app, zlength_take by (rewrite ?zlength_drop by lia; lia).
      rewrite (tbl_take q n i) by lia. rewrite <- Hq by lia. unfold fifo_byte. rewrite ring_split by lia. fold pos.
      destruct (Z.ltb_spec i l), (Z.ltb_spec i (fsize f - pos)); try lia.
      + by rewrite tbl_take, tbl_drop by lia.
      + rewrite tbl_take by lia. f_equal. lia. }
  cbn [mbind option_bind].
  assert (wrap 32 (fout f + n) = fin f <-> n = zlength q) as Hend.
  { rewrite Hin. split; [|by intros ->]. intros E. unfold zlength in *. unfold wrap in E.
    pose proof (Z.div_mod (fout f + n) (2 ^ 32) ltac:(lia)).
    pose proof (Z.div_mod (fout f + Z.of_nat (length q)) (2 ^ 32) ltac:(lia)). rewrite E in *. nia. }
  assert (zlength (drop (Z.to_nat n) q) = zlength q - n) as Hd by (apply zlength_drop; lia).
  unfold addw. destruct (Z.eqb_spec (fin f) (wrap 32 (fout f + n))) as [E|E];
    (eexists; split; [reflexivity|]); unfold fifo_holds, fifo_len, fifo_byte; cbn [buffer fsize fin fout]; rewrite Hd.
  - assert (n = zlength q) as Hnq by (by apply Hend). rewrite Hnq.
    unfold is_word. split; [done|]. split; [done|]. split; [lia|]. split; [lia|].
    split; [by rewrite Z.sub_diag|]. split; [lia|]. intros i Hir. lia.
  - split; [done|]. split; [done|]. split; [done|]. split; [apply wrap_range; lia|]. split; [|split; [lia|]].
    + unfold subw. rewrite wrap_sub_r. replace (fin f - (fout f + n)) with ((fin f - fout f) - n) by lia.
      rewrite <- wrap_sub_l. fold (subw 32 (fin f) (fout f)). fold (fifo_len f). rewrite Hl.
      apply wrap_small. unfold is_word, zlength in *. lia.
    + intros i Hir. rewrite tbl_drop by lia. rewrite <- Hq by lia. unfold fifo_byte.
      rewrite <- (Zplus_mod_idemp_l (wrap 32 _)), ring_wrap, Zplus_mod_idemp_l. do 2 f_equal. lia.
Qed.
End Ring.

Lemma fifo_alloc_holds alloc k : zlength alloc = 2 ^ k -> 0 <= k < 32 -> fifo_holds (fifo_alloc alloc) [].
Proof.
  intros Ha Hk. pose proof (Z.pow_pos_nonneg 2 k). unfold fifo_holds, fifo_alloc. cbn [fsize buffer fin fout].
  split; [by exists k|]. split; [done|]. unfold is_word. split; [lia|]. split; [lia|].
  split; [reflexivity|]. change (zlength []) with 0. split; [lia|]. intros i Hi. lia.
Qed.

(** C16: The byte FIFO is a queue: a fresh one of a power-of-two size is empty; putting
    accepts as many bytes as there is room for and appends exactly those; getting
    removes, and if asked copies out, the oldest bytes, as many as asked for and held;
    all of it across the wrap-around of the ring and of the 32-bit indices, with every
    copy inside the buffer. *)
Theorem fifo_refines_queue :
  (forall alloc k, zlength alloc = 2 ^ k -> 0 <= k < 32 -> fifo_holds (fifo_alloc alloc) []) /\
  (forall f q data len, fifo_holds f q -> 0 <= len <= zlength data ->
     let n := Z.min len (fsize f - zlength q) in
     exists f', fifo_put f data len = Some (n, f') /\ fifo_holds f' (q ++ take (Z.to_nat n) data)) /\
  (forall f q want len, fifo_holds f q -> 0 <= len ->
     let n := Z.min len (zlength q) in
     exists f', fifo_get f want len = Some (n, if want then take (Z.to_nat n) q else [], f') /\
       fifo_holds f' (drop (Z.to_nat n) q)).
Proof.
  split; [apply fifo_alloc_holds|]. split.
  - intros f q data len Hf Hlen. by apply fifo_put_spec; [|lia|lia].
  - intros f q want len Hf Hlen. by apply fifo_get_spec.
Qed.

Lemma fifo_refines_queue_witness :
  exists f1 f2, fifo_put (fifo_alloc [0; 0; 0; 0]) [1; 2; 3] 3 = Some (3, f1) /\ fifo_holds f1 [1; 2; 3] /\
    fifo_get f1 true 2 = Some (2, [1; 2], f2) /\ fifo_holds f2 [3].
Proof.
  destruct fifo_refines_queue as (Ha & Hp & Hg).
  pose proof (Ha [0; 0; 0; 0] 2 eq_refl ltac:(lia)) as H0.
  destruct (Hp _ _ [1; 2; 3] 3 H0 ltac:(unfold zlength; cbn [length]; lia)) as (f1 & E1 & H1).
  destruct (Hg _ _ true 2 H1 ltac:(lia)) as (f2 & E2 & H2).
  exists f1, f2. split; [exact E1|]. split; [exact H1|]. split; [exact E2|exact H2].
Defined.
