(* ===== verification/IoUQueue.v ===== *)
(** io_u_queue.c and io_u_queue.h: the stack of free I/O units and the ring of units to
    requeue.  [A] is the type of the units pointed to; [None] is the null pointer. *)
From S2P Require Import Prelude Bits Stream Fifo.
Local Open Scope word_scope.

Section Queues.
Context {A : Type}.

Record io_u_queue : Type := mk_queue { io_us : list (option A); qnr : Z; qmax : Z }.

(** [alloc] tells whether the allocation succeeds. *)
Definition io_u_qinit (alloc : bool) (nr : Z) : option io_u_queue :=
  if alloc then Some (mk_queue (replicate (Z.to_nat nr) None) 0 nr) else None.

(** The unit popped, or the null pointer of an empty queue. *)
Definition io_u_qpop (q : io_u_queue) : option (option A * io_u_queue) :=
  if c_true (qnr q) then
    let next := subw 32 (qnr q) 1 in
    let* io_u := arr_get (io_us q) next in
    let* l := arr_set (io_us q) next None in
    Some (io_u, mk_queue l next (qmax q))
  else Some (None, q).

(** [assert(0)] when the queue is full. *)
Definition io_u_qpush (q : io_u_queue) (io_u : A) : option io_u_queue :=
  if qnr q <? qmax q then
    let* l := arr_set (io_us q) (qnr q) (Some io_u) in
    Some (mk_queue l (addw 32 (qnr q) 1) (qmax q))
  else None.

Definition io_u_qempty (q : io_u_queue) : bool := negb (c_true (qnr q)).

(** [io_u_qiter]: the units visited, up to [nr] or the first null pointer. *)
Fixpoint io_u_qiter (l : list (option A)) (nr : nat) : list A :=
  match nr, l with
  | S nr, Some io_u :: l => io_u :: io_u_qiter l nr
  | _, _ => []
  end.

Record io_u_ring : Type := mk_ring { rhead : Z; rtail : Z; rmax : Z; ring : list (option A) }.

Definition smear (n : Z) : Z :=
  let n := Z.lor n (n >> 1) in let n := Z.lor n (n >> 2) in let n := Z.lor n (n >> 4) in
  let n := Z.lor n (n >> 8) in Z.lor n (n >> 16).

Definition io_u_rinit (alloc : bool) (nr : Z) : option io_u_ring :=
  let max := addw 32 nr 1 in
  let max := if c_true (max & subw 32 max 1) then addw 32 (smear (subw 32 max 1)) 1 else max in
  if alloc then Some (mk_ring 0 0 max (replicate (Z.to_nat max) None)) else None.

Definition io_u_rpush (r : io_u_ring) (io_u : A) : option io_u_ring :=
  if negb (addw 32 (rhead r) 1 =? rtail r) then
    let* l := arr_set (ring r) (rhead r) (Some io_u) in
    Some (mk_ring (addw 32 (rhead r) 1 & subw 32 (rmax r) 1) (rtail r) (rmax r) l)
  else None.

Definition io_u_rpop (r : io_u_ring) : option (option A * io_u_ring) :=
  if negb (rhead r =? rtail r) then
    let* io_u := arr_get (ring r) (rtail r) in
    Some (io_u, mk_ring (rhead r) (addw 32 (rtail r) 1 & subw 32 (rmax r) 1) (rmax r) (ring r))
  else Some (None, r).

Definition io_u_rempty (r : io_u_ring) : bool := rhead r =? rtail r.

(** ** The stack *)

(** The queue holds the units of [s], the top one last, and null pointers above. *)
Definition stack_holds (q : io_u_queue) (s : list A) : Prop :=
  qmax q < 2 ^ 32 /\ qnr q = zlength s /\ zlength (io_us q) = qmax q /\
  io_us q = (Some <$> s) ++ replicate (length (io_us q) - length s) None.

Lemma qinit_holds nr q : 0 <= nr < 2 ^ 32 -> io_u_qinit true nr = Some q -> stack_holds q [] /\ qmax q = nr.
Proof using.
  intros Hnr [= <-]. unfold stack_holds. cbn [qmax qnr io_us]. split; [|done].
  unfold zlength. rewrite length_replicate. split; [lia|]. split; [done|]. split; [lia|].
  cbn [length fmap list_fmap app]. by rewrite Nat.sub_0_r.
Qed.

Lemma stack_room q s : stack_holds q s -> zlength s <= qmax q.
Proof using.
  intros (_ & _ & Hl & E). apply (f_equal length) in E.
  rewrite length_app, length_fmap, length_replicate in E. unfold zlength in *. lia.
Qed.

Lemma qpush_spec q s x : stack_holds q s ->
  io_u_qpush q x = None /\ zlength s = qmax q \/
  exists q', io_u_qpush q x = Some q' /\ stack_holds q' (s ++ [x]) /\ qmax q' = qmax q /\ zlength s < qmax q.
Proof using.
  intros Hq. pose proof (stack_room q s Hq) as Hr. destruct Hq as (Hm & Hn & Hl & E).
  unfold io_u_qpush. rewrite Hn. destruct (Z.ltb_spec (zlength s) (qmax q)); [right|left; split; [done|lia]].
  rewrite arr_set_Some by (unfold zlength in *; lia). cbn [mbind option_bind].
  eexists. split; [reflexivity|]. split; [|done]. unfold stack_holds. cbn [qmax qnr io_us].
  rewrite zlength_insert, zlength_to_nat, length_insert. split; [done|]. split.
  { unfold addw. rewrite wrap_small by (unfold is_word, zlength in *; lia). rewrite zlength_app. reflexivity. }
  split; [done|]. rewrite E at 1. rewrite insert_app_r_alt by (rewrite length_fmap; lia).
  rewrite length_fmap, Nat.sub_diag, fmap_app, length_app, <- app_assoc. f_equal. cbn [length].
  destruct (length (io_us q) - length s)%nat as [|k] eqn:Ek; [unfold zlength in *; lia|].
  replace (length (io_us q) - (length s + 1))%nat with k by lia. reflexivity.
Qed.

Lemma qpop_spec q s : stack_holds q s ->
  match list.last s with
  | None => io_u_qpop q = Some (None, q)
  | Some x => exists q', io_u_qpop q = Some (Some x, q') /\ stack_holds q' (removelast s) /\ qmax q' = qmax q
  end.
Proof using.
  intros Hq. pose proof (stack_room q s Hq) as Hr. destruct Hq as (Hm & Hn & Hl & E).
  unfold io_u_qpop. rewrite Hn. destruct s as [|x s] using rev_ind; [done|]. clear IHs.
  rewrite list.last_snoc, removelast_last. rewrite zlength_app in *. change (zlength [x]) with 1 in *.
  destruct (c_true (zlength s + 1)) eqn:Hc; [|apply c_true_false_iff in Hc; unfold zlength in Hc; lia].
  assert (subw 32 (zlength s + 1) 1 = zlength s) as ->.
  { unfold subw. rewrite Z.add_simpl_r, wrap_small; [done|]. unfold is_word, zlength in *. lia. }
  assert (io_us q !! length s = Some (Some x)) as Hx.
  { rewrite E, fmap_app, <- app_assoc. rewrite lookup_app_r by (rewrite length_fmap; lia).
    by rewrite length_fmap, Nat.sub_diag. }
  change (zlength s) with (Z.of_nat (length s)). rewrite arr_get_nat, Hx. cbn [mbind option_bind].
  apply lookup_lt_Some in Hx as Hlt. rewrite arr_set_Some by (unfold zlength; lia). cbn [mbind option_bind].
  eexists. split; [reflexivity|]. split; [|done]. unfold stack_holds. cbn [qmax qnr io_us].
  rewrite zlength_insert, Nat2Z.id, length_insert. split; [done|]. split; [done|]. split; [done|].
  rewrite E at 1. rewrite fmap_app, <- app_assoc, insert_app_r_alt by (rewrite length_fmap; lia).
  rewrite length_fmap, Nat.sub_diag. f_equal. rewrite length_app. cbn [length fmap list_fmap app insert list_insert].
  replace (length (io_us q) - length s)%nat with (S (length (io_us q) - (length s + 1))) by lia. reflexivity.
Qed.

(** ** The ring *)

Lemma smear_step m z n :
  (forall i, 0 <= i -> Z.testbit z i = existsb (fun j => Z.testbit m (i + Z.of_nat j)) (seq 0 n)) ->
  forall i, 0 <= i -> Z.testbit (Z.lor z (z >> Z.of_nat n)) i =
    existsb (fun j => Z.testbit m (i + Z.of_nat j)) (seq 0 (n + n)).
Proof using.
  intros H i Hi. rewrite Z.lor_spec, Z.shiftr_spec, !H, seq_app, existsb_app by lia. f_equal.
  apply eq_iff_eq_true. rewrite !existsb_exists. split; intros (j & Hj%in_seq & E).
  - exists (n + j)%nat. split; [apply in_seq; lia|]. rewrite <- E. f_equal. lia.
  - exists (j - n)%nat. split; [apply in_seq; lia|]. rewrite <- E. f_equal. lia.
Qed.

Lemma smear_bits m i : 0 <= i ->
  Z.testbit (smear m) i = existsb (fun j => Z.testbit m (i + Z.of_nat j)) (seq 0 32).
Proof using.
  unfold smear. intros Hi. revert i Hi.
  apply (smear_step m _ 16), (smear_step m _ 8), (smear_step m _ 4), (smear_step m _ 2), (smear_step m _ 1).
  intros i Hi. cbn [seq existsb]. by rewrite Z.add_0_r, orb_false_r.
Qed.

Lemma smear_ones m : 0 < m < 2 ^ 32 -> smear m = 2 ^ (Z.log2 m + 1) - 1.
Proof using.
  intros Hm. assert (0 <= Z.log2 m < 32) as Hl.
  { split; [apply Z.log2_nonneg|]. apply Z.log2_lt_pow2; lia. }
  replace (2 ^ (Z.log2 m + 1) - 1) with (Z.ones (Z.log2 m + 1)) by (rewrite Z.ones_equiv; lia).
  apply Z.bits_inj'. intros i Hi. rewrite smear_bits, Z.testbit_ones_nonneg by lia.
  apply eq_iff_eq_true. rewrite existsb_exists, Z.ltb_lt. split.
  - intros (j & _ & E). destruct (Z.lt_ge_cases (i + Z.of_nat j) (Z.log2 m + 1)); [lia|].
    rewrite Z.bits_above_log2 in E by lia. done.
  - intros H. exists (Z.to_nat (Z.log2 m - i)). split; [apply in_seq; lia|].
    replace (i + Z.of_nat (Z.to_nat (Z.log2 m - i))) with (Z.log2 m) by lia. apply Z.bit_log2. lia.
Qed.

(** A word with no bit in common with its predecessor is a power of two. *)
Lemma pow2_test m : 0 < m < 2 ^ 32 -> (m & (m - 1)) = 0 -> exists k, 0 <= k < 32 /\ m = 2 ^ k.
Proof using.
  intros Hm H. exists (Z.log2 m).
  assert (0 <= Z.log2 m < 32) as Hl by (split; [apply Z.log2_nonneg|apply Z.log2_lt_pow2; lia]).
  split; [done|]. pose proof (Z.log2_spec m ltac:(lia)) as [H1 H2].
  destruct (Z.eq_dec m (2 ^ Z.log2 m)) as [|Hne]; [done|]. exfalso.
  apply (f_equal (fun z => Z.testbit z (Z.log2 m))) in H. rewrite Z.land_spec, Z.bit_log2, Z.bits_0 in H by lia.
  assert (Z.log2 (m - 1) = Z.log2 m) as E.
  { apply Z.log2_unique; [lia|]. split; [lia|]. unfold Z.succ in *. lia. }
  rewrite <- E, Z.bit_log2 in H by lia. done.
Qed.

Lemma rinit_max nr : 0 <= nr < 2 ^ 31 - 1 ->
  let max := addw 32 nr 1 in
  let max := if c_true (max & subw 32 max 1) then addw 32 (smear (subw 32 max 1)) 1 else max in
  exists k, 0 <= k < 32 /\ max = 2 ^ k /\ nr < max /\ max <= 2 * nr + 1.
Proof using.
  intros Hnr max. unfold max. assert (addw 32 nr 1 = nr + 1) as -> by (apply wrap_small; unfold is_word; lia).
  assert (subw 32 (nr + 1) 1 = nr) as ->.
  { unfold subw. rewrite Z.add_simpl_r. apply wrap_small. unfold is_word. lia. }
  destruct (c_true _) eqn:E.
  - apply c_true_iff in E. assert (nr <> 0) by (intros ->; done).
    pose proof (Z.log2_spec nr ltac:(lia)) as [H1 H2].
    assert (0 <= Z.log2 nr < 31) as Hl by (split; [apply Z.log2_nonneg|apply Z.log2_lt_pow2; lia]).
    exists (Z.log2 nr + 1). rewrite smear_ones by lia.
    assert (2 ^ (Z.log2 nr + 1) <= 2 ^ 31) by (apply Z.pow_le_mono_r; lia).
    assert (addw 32 (2 ^ (Z.log2 nr + 1) - 1) 1 = 2 ^ (Z.log2 nr + 1)) as ->.
    { unfold addw. rewrite Z.sub_add. apply wrap_small. unfold is_word. lia. }
    unfold Z.succ in H2. split; [lia|]. split; [done|]. split; [lia|]. rewrite Z.pow_add_r by lia. lia.
  - apply c_true_false_iff in E. destruct (pow2_test (nr + 1)) as (k & Hk & Ek); [lia| |].
    { by replace (nr + 1 - 1) with nr by lia. }
    exists k. split; [done|]. split; [done|]. lia.
Qed.

(** The ring holds the units of [q], oldest first, from [tail] on. *)
Definition ring_holds (r : io_u_ring) (q : list A) : Prop :=
  (exists k, 0 <= k < 32 /\ rmax r = 2 ^ k) /\ zlength (ring r) = rmax r /\
  0 <= rhead r < rmax r /\ 0 <= rtail r < rmax r /\ zlength q < rmax r /\
  rhead r = (rtail r + zlength q) mod rmax r /\
  forall i x, q !! i = Some x -> arr_get (ring r) ((rtail r + Z.of_nat i) mod rmax r) = Some (Some x).

Lemma rmask r q x : ring_holds r q -> 0 <= x < rmax r ->
  addw 32 x 1 & subw 32 (rmax r) 1 = (x + 1) mod rmax r.
Proof using.
  intros ((k & Hk & E) & _) Hx. pose proof (Z.pow_le_mono_r 2 k 31 ltac:(lia) ltac:(lia)).
  unfold addw, subw. rewrite !wrap_small by (unfold is_word; lia). rewrite E.
  replace (2 ^ k - 1) with (Z.ones k) by (rewrite Z.ones_equiv; lia). apply Z.land_ones. lia.
Qed.

Lemma rpop_spec r q : ring_holds r q ->
  match q with
  | [] => io_u_rpop r = Some (None, r)
  | x :: q => exists r', io_u_rpop r = Some (Some x, r') /\ ring_holds r' q /\ rmax r' = rmax r
  end.
Proof using.
  intros Hr. pose proof Hr as (Hk & Hl & Hh & Ht & Hq & Hhd & Hel). unfold io_u_rpop.
  destruct q as [|x q].
  - change (zlength []) with 0 in Hhd. rewrite Z.add_0_r, Z.mod_small in Hhd by lia. by rewrite Hhd, Z.eqb_refl.
  - pose proof (Hel 0%nat x eq_refl) as H0. rewrite Z.add_0_r, Z.mod_small in H0 by lia.
    change (x :: q) with ([x] ++ q) in *. rewrite zlength_app in *. change (zlength [x]) with 1 in *.
    destruct (Z.eqb_spec (rhead r) (rtail r)) as [E|E]; cbn [negb].
    { exfalso. rewrite Hhd in E. assert (0 <= zlength q) by (unfold zlength; lia).
      destruct (Z.lt_ge_cases (rtail r + (1 + zlength q)) (rmax r)); [rewrite Z.mod_small in E; lia|].
      rewrite <- (Z.mod_unique _ (rmax r) 1 (rtail r + (1 + zlength q) - rmax r)) in E; lia. }
    rewrite H0. cbn [mbind option_bind]. eexists. split; [reflexivity|]. split; [|done].
    rewrite (rmask r _ _ Hr) by done. unfold ring_holds. cbn [rhead rtail rmax ring].
    split; [done|]. split; [done|]. split; [done|]. split; [apply Z.mod_pos_bound; lia|].
    split; [lia|]. split; [rewrite Zplus_mod_idemp_l, Hhd; f_equal; lia|].
    intros i y Hy. rewrite Zplus_mod_idemp_l.
    replace (rtail r + 1 + Z.of_nat i) with (rtail r + Z.of_nat (S i)) by lia. by apply Hel.
Qed.

(** Pushing works as long as one slot stays free. *)
Lemma rpush_spec r q x : ring_holds r q -> zlength q + 1 < rmax r ->
  exists r', io_u_rpush r x = Some r' /\ ring_holds r' (q ++ [x]) /\ rmax r' = rmax r.
Proof using.
  intros Hr Hroom. pose proof Hr as (Hk & Hl & Hh & Ht & Hq & Hhd & Hel). unfold io_u_rpush.
  assert (rmax r <= 2 ^ 31) as Hm by (destruct Hk as (k & Hk & ->); apply Z.pow_le_mono_r; lia).
  assert (0 <= zlength q) as Hq0 by (unfold zlength; lia).
  assert (addw 32 (rhead r) 1 = rhead r + 1) as E1 by (apply wrap_small; unfold is_word; lia).
  destruct (Z.eqb_spec (addw 32 (rhead r) 1) (rtail r)) as [E|E]; cbn [negb].
  { exfalso. rewrite E1, Hhd in E. destruct (Z.lt_ge_cases (rtail r + zlength q) (rmax r)).
    - rewrite Z.mod_small in E; lia.
    - rewrite <- (Z.mod_unique _ (rmax r) 1 (rtail r + zlength q - rmax r)) in E; lia. }
  rewrite arr_set_Some by lia. cbn [mbind option_bind]. eexists. split; [reflexivity|]. split; [|done].
  rewrite (rmask r _ _ Hr) by done. unfold ring_holds. cbn [rhead rtail rmax ring].
  rewrite zlength_insert, zlength_app. change (zlength [x]) with 1.
  split; [done|]. split; [done|]. split; [apply Z.mod_pos_bound; lia|]. split; [done|]. split; [lia|].
  split; [rewrite Hhd, Zplus_mod_idemp_l; f_equal; lia|].
  intros i y Hy. rewrite arr_get_insert by lia. apply lookup_app_Some in Hy as [Hy|[Hi Hy]].
  - rewrite decide_False; [by apply Hel|]. apply lookup_lt_Some in Hy.
    rewrite Hhd. intros E2. assert (exists d, zlength q - Z.of_nat i = rmax r * d) as [d Hd].
    { exists ((rtail r + zlength q) / rmax r - (rtail r + Z.of_nat i) / rmax r).
      pose proof (Z.div_mod (rtail r + zlength q) (rmax r) ltac:(lia)).
      pose proof (Z.div_mod (rtail r + Z.of_nat i) (rmax r) ltac:(lia)). rewrite Z.mul_sub_distr_l. lia. }
    unfold zlength in *. assert (d <= 0 \/ 1 <= d) as [|] by lia; nia.
  - apply list_lookup_singleton_Some in Hy as [Hi0 <-].
    rewrite decide_True; [done|]. rewrite Hhd. f_equal. unfold zlength. lia.
Qed.

Lemma rinit_holds nr r : 0 <= nr < 2 ^ 31 - 1 -> io_u_rinit true nr = Some r ->
  ring_holds r [] /\ nr < rmax r.
Proof using.
  intros Hnr. unfold io_u_rinit. cbv zeta. intros [= <-].
  destruct (rinit_max nr Hnr) as (k & Hk & E & H1 & H2). cbv zeta in E, H1, H2. rewrite E in H1, H2 |- *.
  unfold ring_holds. cbn [rmax ring rhead rtail].
  split; [|done]. split; [by exists k|]. split; [unfold zlength; rewrite length_replicate; lia|].
  split; [lia|]. split; [lia|]. change (zlength []) with 0. split; [lia|]. split; [by rewrite Z.mod_0_l by lia|].
  intros i x Hx. by rewrite lookup_nil in Hx.
Qed.
End Queues.
Arguments io_u_queue : clear implicits.
Arguments io_u_ring : clear implicits.

(** The full test of the ring is not masked: in the one position where the head is at
    the end of the array and the tail at its start, pushing onto a full ring leaves it
    looking empty instead of failing. *)
Example rpush_full_lost :
  exists r : io_u_ring nat, ring_holds r [1; 2; 3]%nat /\ rmax r = 4 /\
    (exists r', io_u_rpush r 4%nat = Some r' /\ io_u_rempty r' = true).
Proof.
  exists (mk_ring 3 0 4 [Some 1; Some 2; Some 3; None]%nat). split; [|split; [done|]].
  - split; [by exists 2|]. unfold zlength. cbn [rmax ring rhead rtail length].
    split; [done|]. split; [lia|]. split; [lia|]. split; [lia|]. split; [done|].
    intros i x Hx. destruct i as [|[|[|i]]]; cbn in Hx; try discriminate; by injection Hx as <-.
  - eexists. split; reflexivity.
Qed.

(** C17: The two queues of I/O units keep what is pushed: the free list is a stack that
    never overflows its array - a push onto a full one is refused - and pops the unit
    pushed last, or null when empty; the requeue ring, made for [nr] units, is
    allocated with a power of two of slots greater than [nr] and at most [2 nr + 1], and
    returns units in the order pushed as long as a slot stays free, which it does while
    no more than [nr] units exist. *)
Theorem io_u_queues_keep (A : Type) :
  (forall (q : io_u_queue A) s x, stack_holds q s ->
     io_u_qpush q x = None /\ zlength s = qmax q \/
     exists q', io_u_qpush q x = Some q' /\ stack_holds q' (s ++ [x]) /\ qmax q' = qmax q /\ zlength s < qmax q) /\
  (forall (q : io_u_queue A) s, stack_holds q s ->
     match list.last s with
     | None => io_u_qpop q = Some (None, q)
     | Some x => exists q', io_u_qpop q = Some (Some x, q') /\ stack_holds q' (removelast s) /\ qmax q' = qmax q
     end) /\
  (forall nr (r : io_u_ring A), 0 <= nr < 2 ^ 31 - 1 -> io_u_rinit true nr = Some r ->
     ring_holds r [] /\ nr < rmax r) /\
  (forall (r : io_u_ring A) q x, ring_holds r q -> zlength q + 1 < rmax r ->
     exists r', io_u_rpush r x = Some r' /\ ring_holds r' (q ++ [x]) /\ rmax r' = rmax r) /\
  (forall (r : io_u_ring A) q, ring_holds r q ->
     match q with
     | [] => io_u_rpop r = Some (None, r)
     | x :: q => exists r', io_u_rpop r = Some (Some x, r') /\ ring_holds r' q /\ rmax r' = rmax r
     end).
Proof.
  split; [apply qpush_spec|]. split; [apply qpop_spec|]. split; [apply rinit_holds|].
  split; [apply rpush_spec|apply rpop_spec].
Qed.

Lemma io_u_queues_keep_witness :
  exists r0 r1 r2 : io_u_ring nat, io_u_rinit true 3 = Some r0 /\ io_u_rpush r0 7%nat = Some r1 /\
    io_u_rpop r1 = Some (Some 7%nat, r2) /\ ring_holds r2 [].
Proof.
  destruct (io_u_queues_keep nat) as (_ & _ & Hi & Hp & Hg).
  destruct (Hi 3 (mk_ring 0 0 4 [None; None; None; None]) ltac:(lia) eq_refl) as [H0 _].
  destruct (Hp _ _ 7%nat H0 ltac:(reflexivity)) as (r1 & E1 & H1 & _).
  destruct (Hg _ _ H1) as (r2 & E2 & H2 & _).
  exists (mk_ring 0 0 4 [None; None; None; None]), r1, r2.
  split; [reflexivity|]. split; [exact E1|]. split; [exact E2|exact H2].
Defined.
