(* ===== verification/Lfsr.v ===== *)
(** lib/lfsr.c: the linear feedback shift register that visits the blocks of a file in
    a pseudo-random order, each exactly once. *)
From Stdlib Require Import Znumtheory.
#[local] Set Warnings "-deprecated-since-Stdlib-9.1".
From S2P Require Import Prelude Bits Stream.
Local Open Scope word_scope.

Definition FIO_MAX_TAPS : nat := 6.

(** Row [n] holds the taps of the [n]-bit register, padded with zeros in the source. *)
Definition lfsr_taps : list (list Z) := [
  [0]; [0]; [0]; [3; 2];
  [4; 3]; [5; 3]; [6; 5]; [7; 6];
  [8; 6; 5; 4]; [9; 5]; [10; 7]; [11; 9];
  [12; 6; 4; 1]; [13; 4; 3; 1]; [14; 5; 3; 1]; [15; 14];
  [16; 15; 13; 4]; [17; 14]; [18; 11]; [19; 6; 2; 1];
  [20; 17]; [21; 19]; [22; 21]; [23; 18];
  [24; 23; 22; 17]; [25; 22]; [26; 6; 2; 1]; [27; 5; 2; 1];
  [28; 25]; [29; 27]; [30; 6; 4; 1]; [31; 28];
  [32; 31; 29; 1]; [33; 20]; [34; 27; 2; 1]; [35; 33];
  [36; 25]; [37; 5; 4; 3; 2; 1]; [38; 6; 5; 1]; [39; 35];
  [40; 38; 21; 19]; [41; 38]; [42; 41; 20; 19]; [43; 42; 38; 37];
  [44; 43; 18; 17]; [45; 44; 42; 41]; [46; 45; 26; 25]; [47; 42];
  [48; 47; 21; 20]; [49; 40]; [50; 49; 24; 23]; [51; 50; 36; 35];
  [52; 49]; [53; 52; 38; 37]; [54; 53; 18; 17]; [55; 31];
  [56; 55; 35; 34]; [57; 50]; [58; 39]; [59; 58; 38; 37];
  [60; 59]; [61; 60; 46; 45]; [62; 61; 6; 5]; [63; 62]].

Record fio_lfsr : Type := mk_lfsr {
  xormask : Z; last_val : Z; cached_bit : Z; max_val : Z; num_vals : Z;
  cycle_length : Z; cached_cycle_length : Z; spin : Z }.

(** [__LFSR_NEXT]: one step of the register. *)
Definition __LFSR_NEXT (fl : fio_lfsr) (v : Z) : Z :=
  Z.lor (v >> 1) (cached_bit fl) ^^ (subw 64 (v & 1) 1 & xormask fl).

Definition set_last (fl : fio_lfsr) (v : Z) : fio_lfsr :=
  mk_lfsr (xormask fl) v (cached_bit fl) (max_val fl) (num_vals fl) (cycle_length fl)
    (cached_cycle_length fl) (spin fl).

(** The fall-through switch: [spin + 1] steps, and none for an argument above 15. *)
Definition __lfsr_next (fl : fio_lfsr) (spin : Z) : fio_lfsr :=
  if (0 <=? spin) && (spin <=? 15)
  then set_last fl (Nat.iter (S (Z.to_nat spin)) (__LFSR_NEXT fl) (last_val fl))
  else fl.

(** One turn of the loop of [lfsr_next]. *)
Definition lfsr_turn (fl : fio_lfsr) : fio_lfsr :=
  if c_true (cycle_length fl) then
    let cl := subw 64 (cycle_length fl) 1 in
    let fl' cl := mk_lfsr (xormask fl) (last_val fl) (cached_bit fl) (max_val fl) (num_vals fl) cl
      (cached_cycle_length fl) (spin fl) in
    if c_true cl then __lfsr_next (fl' cl) (spin fl)
    else
      let fl1 := __lfsr_next (fl' cl) (addw 32 (spin fl) 1) in
      mk_lfsr (xormask fl1) (last_val fl1) (cached_bit fl1) (max_val fl1) (num_vals fl1)
        (cached_cycle_length fl1) (cached_cycle_length fl1) (spin fl1)
  else __lfsr_next fl (spin fl).

(** [do { ... } while (last_val > max_val)], at most [fuel] turns. *)
Fixpoint lfsr_loop (fuel : nat) (fl : fio_lfsr) : option fio_lfsr :=
  match fuel with
  | O => None
  | S fuel =>
      let fl := lfsr_turn fl in
      if max_val fl <? last_val fl then lfsr_loop fuel fl else Some fl
  end.

(** The offset, or the exhausted generator. *)
Definition lfsr_next (fuel : nat) (fl : fio_lfsr) : option (option Z * fio_lfsr) :=
  let fl' := mk_lfsr (xormask fl) (last_val fl) (cached_bit fl) (max_val fl) (addw 64 (num_vals fl) 1)
    (cycle_length fl) (cached_cycle_length fl) (spin fl) in
  if max_val fl <? num_vals fl then Some (None, fl')
  else
    let* fl' := lfsr_loop fuel fl' in
    Some (Some (last_val fl'), fl').

(** [for (i = 0; i < FIO_MAX_TAPS && taps[i] != 0; i++)] *)
Fixpoint lfsr_create_xormask (taps : list Z) : Z :=
  match taps with
  | [] => 0
  | t :: taps => if t =? 0 then 0 else Z.lor (shlw 64 1 (t - 1)) (lfsr_create_xormask taps)
  end.

(** [for (i = 3; i < 64; i++) if ((1ULL << i) > size)] *)
Definition find_lfsr (size : Z) : option (list Z) :=
  let* i := List.find (fun i => size <? shlw 64 1 (Z.of_nat i)) (seq 3 61) in
  lfsr_taps !! i.

(** [for (i = 1; i <= spin; i++)], leaving at the first repetition. *)
Definition find_cycle (x y spin : Z) : Z :=
  match List.find (fun i => wrap 64 (y * Z.of_nat i) mod (spin + 1) =? 0) (seq 1 (Z.to_nat spin)) with
  | Some i => addw 64 (mulw 64 x (Z.of_nat i)) (wrap 64 (y * Z.of_nat i) / (spin + 1))
  | None => 0
  end.

Definition prepare_spin (fl : fio_lfsr) (spin : Z) : option fio_lfsr :=
  let max := subw 64 (shlw 64 (cached_bit fl) 1) 1 in
  if 15 <? spin then None else
  let x := max / (spin + 1) in
  let y := max mod (spin + 1) in
  let c := find_cycle x y spin in
  Some (mk_lfsr (xormask fl) (last_val fl) (cached_bit fl) (max_val fl) (num_vals fl) (addw 64 c 1) c spin).

(** What [lfsr_reset] assigns, also where it then reports an error. *)
Definition lfsr_reset_state (fl : fio_lfsr) (seed : Z) : fio_lfsr :=
  let bitmask := subw 64 (shlw 64 (cached_bit fl) 1) 1 in
  mk_lfsr (xormask fl) (seed & bitmask) (cached_bit fl) (max_val fl) 0 (cycle_length fl)
    (cached_cycle_length fl) (spin fl).

Definition lfsr_reset (fl : fio_lfsr) (seed : Z) : option fio_lfsr :=
  let bitmask := subw 64 (shlw 64 (cached_bit fl) 1) 1 in
  let fl := lfsr_reset_state fl seed in
  if last_val fl =? bitmask then None else Some fl.

(** The structure handed in is uninitialised; every field is written here. *)
Definition lfsr_init (nums seed spin : Z) : option fio_lfsr :=
  let* taps := find_lfsr nums in
  let* t0 := arr_get taps 0 in
  let* fl := prepare_spin (mk_lfsr (lfsr_create_xormask taps) 0 (shlw 64 1 (t0 - 1)) (subw 64 nums 1) 0 0 0 0) spin in
  lfsr_reset fl seed.

(** [n] calls, with the offsets they return. *)
Fixpoint lfsr_calls (fuel n : nat) (fl : fio_lfsr) : option (list (option Z) * fio_lfsr) :=
  match n with
  | O => Some ([], fl)
  | S n =>
      let* '(o, fl) := lfsr_next fuel fl in
      let* '(os, fl) := lfsr_calls fuel n fl in
      Some (o :: os, fl)
  end.

Example lfsr_ten :
  (let* fl := lfsr_init 10 5 0 in let* '(os, _) := lfsr_calls 16 11 fl in Some os) =
  Some [Some 1; Some 8; Some 0; Some 4; Some 6; Some 7; Some 3; Some 9; Some 2; Some 5; None].
Proof. vm_compute. reflexivity. Qed.

(** * Prime factors *)

(** Trial division; [fuel] bounds the divisors tried. *)
Fixpoint trial (fuel : nat) (d q : Z) : bool :=
  match fuel with
  | O => false
  | S fuel => if q <? d * d then true else if q mod d =? 0 then false else trial fuel (d + 1) q
  end.

Definition prime_check (q : Z) : bool := (1 <? q) && trial (Z.to_nat 50000) 2 q.

Lemma trial_spec fuel : forall d q, trial fuel d q = true -> 0 < d ->
  forall k, d <= k -> k * k <= q -> ~ (k | q).
Proof.
  induction fuel as [|fuel IH]; intros d q H Hd k Hk Hkk; [done|]. cbn [trial] in H.
  destruct (Z.ltb_spec q (d * d)); [nia|]. destruct (Z.eqb_spec (q mod d) 0) as [|Hm]; [done|].
  destruct (Z.eq_dec k d) as [->|]; [by intros Hdiv%Z.mod_divide; [|lia]|].
  apply (IH (d + 1)); [done|lia|lia|done].
Qed.

Lemma prime_check_spec q : prime_check q = true -> prime q.
Proof.
  unfold prime_check. intros [H1%Z.ltb_lt H2]%andb_prop. apply prime_alt. split; [done|].
  intros k Hk Hdiv. destruct (Z.le_gt_cases (k * k) q) as [H|H].
  - exact (trial_spec _ _ _ H2 ltac:(lia) k ltac:(lia) H Hdiv).
  - destruct Hdiv as [m Hm]. assert (1 < m < k) by nia.
    apply (trial_spec _ _ _ H2 ltac:(lia) m ltac:(lia)); [nia|]. exists k. lia.
Qed.

Definition product (l : list Z) : Z := fold_right Z.mul 1 l.

(** A proper divisor of a product of primes divides it with one of them left out. *)
Lemma proper_divisor l g : Forall prime l -> 0 < g -> g < product l -> (g | product l) ->
  exists q, q ∈ l /\ (g | product l / q).
Proof.
  intros Hl Hg Hlt [m Hm].
  assert (forall l', Forall prime l' -> (exists q, q ∈ l' /\ (q | m)) \/ rel_prime m (product l')) as Hcase.
  { intros l' Hl'. induction Hl' as [|q l' Hq Hl' IH].
    - right. apply rel_prime_sym, rel_prime_1.
    - destruct (Zdivide_dec q m) as [Hd|Hd]; [left; exists q; split; [apply list_elem_of_here|done]|].
      destruct IH as [(q' & Hin & Hd')|Hr]; [left; exists q'; split; [by apply list_elem_of_further|done]|].
      right. apply rel_prime_mult; [|done]. apply rel_prime_sym. by apply prime_rel_prime. }
  destruct (Hcase l Hl) as [(q & Hin & [k Hk])|Hr].
  - exists q. split; [done|]. exists k. rewrite Hm, Hk.
    assert (prime q) as Hq.
    { rewrite List.Forall_forall in Hl. by apply Hl, list_elem_of_In. }
    pose proof (prime_ge_2 q Hq).
    replace (k * q * g) with (k * g * q) by lia. by rewrite Z.div_mul by lia.
  - exfalso. assert (m | 1) as H1.
    { apply (Gauss m (product l) 1); [|done]. exists g. lia. }
    apply Z.divide_1_r in H1. nia.
Qed.

Lemma product_ge l q : Forall prime l -> q ∈ l -> q <= product l.
Proof.
  intros Hl Hq. assert (forall l, Forall prime l -> 0 < product l) as Hpos.
  { intros k Hk. induction Hk as [|p k Hp Hk IH]; [done|]. pose proof (prime_ge_2 p Hp). change (0 < p * product k). nia. }
  induction Hq as [q l|q p l Hq IH]; apply Forall_cons_1 in Hl as [Hp Hl]; pose proof (Hpos l Hl);
    pose proof (prime_ge_2 _ Hp).
  - change (q <= q * product l). nia.
  - specialize (IH Hl). change (q <= p * product l). nia.
Qed.

(** * The period of the register

    On the complement of its state the register is linear: it shifts right and xors the
    mask when a one falls out.  Operators that commute with the step are determined by
    their value on the one-bit state [unit], which lets powers of the step be computed
    by repeated squaring and the period be checked from the factors of [2^n - 1]. *)

Section Register.
Context (n : nat) (mask : Z) (Hn : (0 < n)%nat) (Hmask : is_word (Z.of_nat n) mask).

Definition rstep (u : Z) : Z := (u >> 1) ^^ (if Z.odd u then mask else 0).
Definition rsteps (k : nat) (u : Z) : Z := Nat.iter k rstep u.
Definition runit : Z := 2 ^ (Z.of_nat n - 1).

Lemma rstep_word u : is_word (Z.of_nat n) u -> is_word (Z.of_nat n) (rstep u).
Proof using Hn Hmask.
  intros Hu. unfold rstep. apply is_word_lxor; [lia|apply is_word_shiftr; [lia|lia|done]|].
  destruct (Z.odd u); [done|]. unfold is_word. pose proof (Z.pow_pos_nonneg 2 (Z.of_nat n)). lia.
Qed.

Lemma rstep_lxor a b : rstep (a ^^ b) = rstep a ^^ rstep b.
Proof using Hn Hmask.
  unfold rstep. rewrite Z.shiftr_lxor.
  assert (Z.odd (a ^^ b) = xorb (Z.odd a) (Z.odd b)) as -> by (rewrite <- !Z.bit0_odd; apply Z.lxor_spec).
  generalize (a >> 1) (b >> 1). intros x y.
  destruct (Z.odd a), (Z.odd b); cbn [xorb]; rewrite ?Z.lxor_0_r; bits.
Qed.

Lemma rsteps_S k u : rsteps (S k) u = rstep (rsteps k u).
Proof using Hn Hmask. reflexivity. Qed.

Lemma rsteps_add k l u : rsteps (k + l) u = rsteps k (rsteps l u).
Proof using Hn Hmask. apply Nat.iter_add. Qed.

Lemma rsteps_lxor k a b : rsteps k (a ^^ b) = rsteps k a ^^ rsteps k b.
Proof using Hn Hmask. induction k as [|k IH]; [done|]. by rewrite !rsteps_S, IH, rstep_lxor. Qed.

Lemma rsteps_0 k : rsteps k 0 = 0.
Proof using Hn Hmask. induction k as [|k IH]; [done|]. by rewrite rsteps_S, IH. Qed.

Lemma rsteps_word k u : is_word (Z.of_nat n) u -> is_word (Z.of_nat n) (rsteps k u).
Proof using Hn Hmask. intros Hu. induction k as [|k IH]; [done|]. rewrite rsteps_S. by apply rstep_word. Qed.

(** [mul b a]: the combination of the first [n] steps of [a] that the bits of [b]
    select, the top bit selecting [a] itself. *)
Fixpoint rmul_loop (k : nat) (b a : Z) : Z :=
  match k with
  | O => 0
  | S k => (if Z.testbit b (Z.of_nat k) then a else 0) ^^ rmul_loop k b (rstep a)
  end.

Definition rmul (b a : Z) : Z := rmul_loop n b a.

Lemma rmul_loop_lxor k b : forall x y, rmul_loop k b (x ^^ y) = rmul_loop k b x ^^ rmul_loop k b y.
Proof using Hn Hmask.
  induction k as [|k IH]; intros x y; [done|]. cbn [rmul_loop]. rewrite rstep_lxor, IH.
  generalize (rmul_loop k b (rstep x)) (rmul_loop k b (rstep y)). intros p q.
  destruct (Z.testbit b (Z.of_nat k)); bits.
Qed.

Lemma rmul_loop_step k b : forall x, rmul_loop k b (rstep x) = rstep (rmul_loop k b x).
Proof using Hn Hmask.
  induction k as [|k IH]; intros x; [done|]. cbn [rmul_loop]. rewrite rstep_lxor, IH. f_equal.
  by destruct (Z.testbit b (Z.of_nat k)).
Qed.

(** An operator that is linear and commutes with the step. *)
Definition commuting (T : Z -> Z) : Prop :=
  (forall a b, T (a ^^ b) = T a ^^ T b) /\ (forall a, T (rstep a) = rstep (T a)).

Lemma commuting_rmul b : commuting (rmul b).
Proof using Hn Hmask. split; intros; [apply rmul_loop_lxor|apply rmul_loop_step]. Qed.

Lemma commuting_rsteps k : commuting (rsteps k).
Proof using Hn Hmask.
  split; intros; [apply rsteps_lxor|]. induction k as [|k IH]; [done|]. by rewrite !rsteps_S, IH.
Qed.

Lemma commuting_compose S T : commuting S -> commuting T -> commuting (fun a => S (T a)).
Proof using Hn Hmask. intros [S1 S2] [T1 T2]. split; intros; [by rewrite T1, S1|by rewrite T2, S2]. Qed.

Lemma commuting_lxor S T : commuting S -> commuting T -> commuting (fun a => S a ^^ T a).
Proof using Hn Hmask.
  intros [S1 S2] [T1 T2]. split; intros.
  - rewrite S1, T1. generalize (S a) (S b) (T a) (T b). intros. bits.
  - by rewrite S2, T2, rstep_lxor.
Qed.

Lemma commuting_0 T : commuting T -> T 0 = 0.
Proof using Hn Hmask. intros [T1 _]. pose proof (T1 0 0) as H. rewrite !Z.lxor_nilpotent in H. exact H. Qed.

(** The steps of the unit state are the other one-bit states. *)
Lemma rstep_pow2 k : rstep (2 ^ Z.of_nat (S k)) = 2 ^ Z.of_nat k.
Proof using Hn Hmask.
  unfold rstep. rewrite Nat2Z.inj_succ, Z.pow_succ_r by lia.
  rewrite Z.odd_mul. cbn [Z.odd andb]. rewrite Z.lxor_0_r, Z.shiftr_div_pow2, Z.mul_comm by lia.
  apply Z.div_mul. lia.
Qed.

Lemma rmul_loop_unit T k b : commuting T ->
  (forall i, Z.of_nat k <= i -> Z.testbit b i = false) -> 0 <= b ->
  rmul_loop k b (T (2 ^ (Z.of_nat k - 1))) = T b.
Proof using Hn Hmask.
  intros HT. revert b. induction k as [|k IH]; intros b Hb Hb0; cbn [rmul_loop].
  { rewrite <- (commuting_0 T HT). f_equal. symmetry. apply Z.bits_inj_0. intros i.
    destruct (Z.neg_nonneg_cases i); [by apply Z.testbit_neg_r|]. apply Hb. lia. }
  replace (Z.of_nat (S k) - 1) with (Z.of_nat k) by lia.
  set (b' := if Z.testbit b (Z.of_nat k) then b ^^ 2 ^ Z.of_nat k else b).
  assert (forall i, 0 <= i -> Z.testbit b' i = Z.testbit b i && negb (i =? Z.of_nat k)) as Hb'.
  { intros i Hi. unfold b'. destruct (Z.testbit b (Z.of_nat k)) eqn:E.
    - rewrite Z.lxor_spec, Z.pow2_bits_eqb by lia. rewrite (Z.eqb_sym i).
      destruct (Z.eqb_spec (Z.of_nat k) i) as [<-|]; [by rewrite E|]. by rewrite xorb_false_r, andb_true_r.
    - destruct (Z.eqb_spec i (Z.of_nat k)) as [->|]; [by rewrite E|]. by rewrite andb_true_r. }
  assert (rmul_loop k b (rstep (T (2 ^ Z.of_nat k))) = T b') as ->.
  { transitivity (rmul_loop k b' (rstep (T (2 ^ Z.of_nat k)))).
    - generalize (rstep (T (2 ^ Z.of_nat k))). clear -Hb'. generalize (le_n k). generalize k at 1 3 4.
      intros j. induction j as [|j IH]; intros Hj x; cbn [rmul_loop]; [done|]. rewrite IH by lia. f_equal.
      rewrite Hb' by lia. destruct (Z.eqb_spec (Z.of_nat j) (Z.of_nat k)); [lia|]. by rewrite andb_true_r.
    - destruct k as [|k].
      + cbn [rmul_loop]. rewrite <- (commuting_0 T HT). f_equal. symmetry. apply Z.bits_inj_0. intros i.
        destruct (Z.neg_nonneg_cases i); [by apply Z.testbit_neg_r|]. rewrite Hb' by done.
        destruct (Z.eqb_spec i (Z.of_nat 0)); [apply andb_false_r|]. rewrite Hb by lia. done.
      + rewrite <- (proj2 HT), rstep_pow2. replace (Z.of_nat k) with (Z.of_nat (S k) - 1) by lia.
        apply IH.
        * intros i Hi. rewrite Hb' by lia. destruct (Z.eqb_spec i (Z.of_nat (S k))); [apply andb_false_r|].
          rewrite Hb by lia. done.
        * apply Z.bits_iff_nonneg_ex. exists (Z.of_nat (S (S k))). intros i Hi. rewrite Hb' by lia.
          rewrite Hb by lia. done. }
  unfold b'. destruct (Z.testbit b (Z.of_nat k)); [|apply Z.lxor_0_l].
  rewrite <- (proj1 HT). f_equal. rewrite Z.lxor_comm, Z.lxor_assoc, Z.lxor_nilpotent. apply Z.lxor_0_r.
Qed.

(** The value of a commuting operator on any state, from its value on the unit. *)
Lemma commuting_value T b : commuting T -> is_word (Z.of_nat n) b -> T b = rmul b (T runit).
Proof using Hn Hmask.
  intros HT Hb. symmetry. apply rmul_loop_unit; [done| |apply Hb].
  intros i Hi. by apply (is_word_bits (Z.of_nat n)).
Qed.

Lemma runit_word : is_word (Z.of_nat n) runit.
Proof using Hn.
  unfold runit, is_word. split; [apply Z.pow_nonneg; lia|]. apply Z.pow_lt_mono_r; lia.
Qed.

(** The power [k] of the step, as a state, by repeated squaring. *)
Fixpoint rpow (k : positive) : Z :=
  match k with
  | xH => rstep runit
  | xO k => let x := rpow k in rmul x x
  | xI k => let x := rpow k in rstep (rmul x x)
  end.

Lemma rpow_spec k : rpow k = rsteps (Pos.to_nat k) runit.
Proof using Hn Hmask.
  assert (forall k, rmul (rsteps k runit) (rsteps k runit) = rsteps (k + k) runit) as Hsq.
  { intros m. rewrite rsteps_add. symmetry. apply commuting_value; [apply commuting_rsteps|].
    apply rsteps_word, runit_word. }
  induction k as [k IH|k IH|]; cbn [rpow]; [| |done].
  - rewrite IH, Hsq, <- rsteps_S. f_equal. lia.
  - rewrite IH, Hsq. f_equal. lia.
Qed.

(** ** Checking the period *)

Definition period : Z := 2 ^ Z.of_nat n - 1.

Fixpoint rexp (g : Z) (k : positive) : Z :=
  match k with
  | xH => g
  | xO k => let x := rexp g k in rmul x x
  | xI k => let x := rexp g k in rmul g (rmul x x)
  end.

(** The step has order [period], and no state but zero repeats after [period / q] steps, because
    the state [x^(period/q) - 1] has an inverse. *)
Definition period_check (factors : list Z) : bool :=
  forallb prime_check factors && (product factors =? period) && (rpow (Z.to_pos period) =? runit) &&
  forallb (fun q =>
    let g := rpow (Z.to_pos (period / q)) ^^ runit in
    rmul (rexp g (Z.to_pos (period - 1))) g =? runit) factors.

Lemma rsteps_mul a k u : rsteps a u = u -> rsteps (k * a) u = u.
Proof using Hn Hmask. apply iter_mul. Qed.

Lemma rsteps_gcd a b u : rsteps a u = u -> rsteps b u = u -> rsteps (Nat.gcd a b) u = u.
Proof using Hn Hmask. apply iter_gcd. Qed.

Lemma period_check_spec factors u : period_check factors = true -> is_word (Z.of_nat n) u -> u <> 0 ->
  rsteps (Z.to_nat period) u = u /\
  forall e, 0 < Z.of_nat e < period -> rsteps e u <> u.
Proof using Hn Hmask.
  unfold period_check. rewrite !andb_true_iff, Z.eqb_eq, Z.eqb_eq, !forallb_forall.
  intros (((Hpr & Hprod) & Hone) & Hinv) Hu Hu0.
  assert (0 < period) as HN by (unfold period; pose proof (Z.pow_gt_1 2 (Z.of_nat n)); lia).
  assert (forall a, 0 < a -> rpow (Z.to_pos a) = rsteps (Z.to_nat a) runit) as Hpow.
  { intros a Ha. rewrite rpow_spec. f_equal. rewrite <- (Z2Pos.id a) at 2 by done. done. }
  assert (rsteps (Z.to_nat period) u = u) as HNu.
  { rewrite (commuting_value (rsteps (Z.to_nat period))) by (by try apply commuting_rsteps).
    rewrite <- Hpow, Hone by done. symmetry.
    apply (commuting_value (fun a => a)); [by split|done]. }
  split; [done|]. intros e He Heu.
  set (g := Nat.gcd e (Z.to_nat period)). assert (rsteps g u = u) as Hgu by (by apply rsteps_gcd).
  destruct (proper_divisor factors (Z.of_nat g)) as (q & Hq & [k Hk]).
  - apply List.Forall_forall. intros q Hq. by apply prime_check_spec, Hpr.
  - pose proof (Nat.gcd_eq_0 e (Z.to_nat period)). unfold g. lia.
  - rewrite Hprod. assert (g <= e)%nat; [|lia]. apply Nat.divide_pos_le; [lia|]. apply Nat.gcd_divide_l.
  - rewrite Hprod. destruct (Nat.gcd_divide_r e (Z.to_nat period)) as [k Hk]. exists (Z.of_nat k). fold g in Hk. lia.
  - pose proof Hq as Hq'. rewrite Hprod in Hk. apply list_elem_of_In in Hq. specialize (Hinv q Hq). rewrite Z.eqb_eq in Hinv.
    apply Hpr, prime_check_spec in Hq. pose proof (prime_ge_2 q Hq) as Hq2.
    assert (0 < period / q) as HNq.
    { destruct (Z.eq_dec (period / q) 0) as [E|]; [|pose proof (Z.div_pos period q); lia].
      exfalso. apply (product_ge factors q) in Hq'; [|by apply List.Forall_forall; intros; apply prime_check_spec, Hpr].
      rewrite Hprod in Hq'. apply Z.div_small_iff in E; lia. }
    apply Hu0. set (x := rpow (Z.to_pos (period / q))) in *. set (h := rexp _ _) in *.
    assert (rsteps (Z.to_nat (period / q)) u = u) as Hqu.
    { replace (Z.to_nat (period / q)) with (Z.to_nat k * g)%nat by nia. by apply rsteps_mul. }
    transitivity (rmul h (rsteps (Z.to_nat (period / q)) u ^^ u)).
    + set (T := fun a => rmul h (rsteps (Z.to_nat (period / q)) a ^^ a)). change (u = T u).
      assert (commuting T) as HT.
      { apply (commuting_compose (rmul h)); [by apply commuting_rmul|].
        apply (commuting_lxor (rsteps _) (fun a => a)); [by apply commuting_rsteps|by split]. }
      rewrite (commuting_value T) by done. unfold T at 1. rewrite <- Hpow by done.
      fold x. rewrite Hinv. apply (commuting_value (fun a => a)); [by split|done].
    + rewrite Hqu, Z.lxor_nilpotent. apply (commuting_0). by apply commuting_rmul.
Qed.
End Register.

(** The prime factors of [2^n - 1], for [n] up to 48. *)
Definition mersenne_factors : list (list Z) := [
  []; []; []; [7];
  [3; 5]; [31]; [3; 3; 7]; [127];
  [3; 5; 17]; [7; 73]; [3; 11; 31]; [23; 89];
  [3; 3; 5; 7; 13]; [8191]; [3; 43; 127]; [7; 31; 151];
  [3; 5; 17; 257]; [131071]; [3; 3; 3; 7; 19; 73]; [524287];
  [3; 5; 5; 11; 31; 41]; [7; 7; 127; 337]; [3; 23; 89; 683]; [47; 178481];
  [3; 3; 5; 7; 13; 17; 241]; [31; 601; 1801]; [3; 2731; 8191]; [7; 73; 262657];
  [3; 5; 29; 43; 113; 127]; [233; 1103; 2089]; [3; 3; 7; 11; 31; 151; 331]; [2147483647];
  [3; 5; 17; 257; 65537]; [7; 23; 89; 599479]; [3; 43691; 131071]; [31; 71; 127; 122921];
  [3; 3; 3; 5; 7; 13; 19; 37; 73; 109]; [223; 616318177]; [3; 174763; 524287]; [7; 79; 8191; 121369];
  [3; 5; 5; 11; 17; 31; 41; 61681]; [13367; 164511353]; [3; 3; 7; 7; 43; 127; 337; 5419]; [431; 9719; 2099863];
  [3; 5; 23; 89; 397; 683; 2113]; [7; 31; 73; 151; 631; 23311]; [3; 47; 178481; 2796203]; [2351; 4513; 13264529];
  [3; 3; 5; 7; 13; 17; 97; 241; 257; 673]].

(** Every register of the table up to 48 bits has the full period. *)
Lemma taps_period : forallb (fun n =>
    let taps := nth n lfsr_taps [] in
    period_check n (lfsr_create_xormask taps) (nth n mersenne_factors [])) (seq 3 46) = true.
Proof. vm_compute. reflexivity. Qed.

(** * The generator *)

(** The offsets that [count] turns from [v] would give, before the range check. *)
Fixpoint orbit (f : Z -> Z) (v : Z) (count : nat) : list Z :=
  match count with
  | O => []
  | S c => f v :: orbit f (f v) c
  end.

(** The loop of one call, on the register alone. *)
Fixpoint pick (f : Z -> Z) (max : Z) (fuel : nat) (v : Z) : option Z :=
  match fuel with
  | O => None
  | S fuel => let v := f v in if max <? v then pick f max fuel v else Some v
  end.

Fixpoint picks (f : Z -> Z) (max : Z) (fuel n : nat) (v : Z) : option (list Z) :=
  match n with
  | O => Some []
  | S n => let* v := pick f max fuel v in let* l := picks f max fuel n v in Some (v :: l)
  end.

Lemma orbit_iter f v c : orbit f v c = (fun k => Nat.iter (S k) f v) <$> seq 0 c.
Proof.
  revert v. induction c as [|c IH]; intros v; [done|]. cbn [orbit seq]. rewrite fmap_list_cons, IH. f_equal.
  rewrite <- fmap_S_seq, <- list_fmap_compose. apply list_fmap_ext. intros i k _. 
  symmetry. apply (Nat.iter_succ_r (S k)).
Qed.

Lemma pick_mono f max fuel : forall v x, pick f max fuel v = Some x -> pick f max (S fuel) v = Some x.
Proof.
  induction fuel as [|fuel IH]; intros v x H; [done|]. cbn [pick] in H. change (pick f max (S (S fuel)) v)
    with (if max <? f v then pick f max (S fuel) (f v) else Some (f v)).
  destruct (max <? f v); [by apply IH|done].
Qed.

(** Calling until the orbit is used up gives its values in range, in order. *)
Lemma picks_orbit f max m : forall v fuel, (m <= fuel)%nat ->
  let l := List.filter (fun x => x <=? max) (orbit f v m) in
  picks f max fuel (length l) v = Some l.
Proof.
  induction m as [|m IH]; intros v fuel Hf; [done|]. destruct fuel as [|fuel]; [lia|].
  cbn [orbit List.filter]. destruct (Z.leb_spec (f v) max) as [Hle|Hgt].
  - cbn [length picks pick]. destruct (Z.ltb_spec max (f v)); [lia|]. cbn [mbind option_bind].
    by rewrite (IH (f v) (S fuel)) by lia.
  - pose proof (IH (f v) fuel ltac:(lia)) as H1. pose proof (IH (f v) (S fuel) ltac:(lia)) as H2. cbv zeta in *.
    set (l := List.filter _ _) in *. clearbody l. destruct l as [|x l]; [done|]. cbn [length picks] in *.
    change (pick f max (S fuel) v) with (if max <? f v then pick f max fuel (f v) else Some (f v)).
    destruct (Z.ltb_spec max (f v)); [|lia].
    destruct (pick f max fuel (f v)) as [y|] eqn:E; [|done]. rewrite (pick_mono _ _ _ _ _ E) in H2.
    cbn [mbind option_bind] in *. exact H2.
Qed.

Lemma filter_Permutation {A} (p : A -> bool) l k : l ≡ₚ k -> List.filter p l ≡ₚ List.filter p k.
Proof.
  induction 1 as [|x l k _ IH|x y l|l k m _ IH1 _ IH2]; cbn [List.filter]; [done|..|by rewrite IH1].
  - by destruct (p x); rewrite IH.
  - destruct (p x), (p y); done || apply perm_swap.
Qed.

Lemma filter_id {A} (p : A -> bool) l : (forall x, x ∈ l -> p x = true) -> List.filter p l = l.
Proof.
  induction l as [|x l IH]; intros H; [done|]. cbn. rewrite H by apply list_elem_of_here. f_equal.
  apply IH. intros y Hy. by apply H, list_elem_of_further.
Qed.

Lemma filter_nil {A} (p : A -> bool) l : (forall x, x ∈ l -> p x = false) -> List.filter p l = [].
Proof.
  induction l as [|x l IH]; intros H; [done|]. cbn. rewrite H by apply list_elem_of_here.
  apply IH. intros y Hy. by apply H, list_elem_of_further.
Qed.

(** ** The register of a given width *)

Section Width.
Context (n : nat) (mask : Z) (Hn : (0 < n <= 63)%nat) (Hmask : is_word (Z.of_nat n) mask).
Context (factors : list Z) (Hcheck : period_check n mask factors = true).

Definition ones : Z := all_ones (Z.of_nat n).
Definition xnor (v : Z) : Z := Z.lor (v >> 1) (2 ^ (Z.of_nat n - 1)) ^^ (subw 64 (v & 1) 1 & mask).

Lemma ones_half : ones ^^ (ones >> 1) = 2 ^ (Z.of_nat n - 1).
Proof using Hn Hmask Hcheck.
  apply Z.bits_inj'. intros i Hi. unfold ones.
  rewrite Z.lxor_spec, Z.shiftr_spec, !all_ones_bits, Z.pow2_bits_eqb by lia.
  destruct (Z.leb_spec 0 i), (Z.leb_spec 0 (i + 1)), (Z.ltb_spec i (Z.of_nat n)), (Z.ltb_spec (i + 1) (Z.of_nat n)),
    (Z.eqb_spec (Z.of_nat n - 1) i); cbn; lia || done.
Qed.

(** The source's step is the linear step on the complement. *)
Lemma xnor_rstep v : is_word (Z.of_nat n) v -> xnor v = ones ^^ rstep mask (ones ^^ v).
Proof using Hn Hmask Hcheck.
  intros Hv. unfold xnor, rstep. rewrite Z.shiftr_lxor.
  assert (Z.odd (ones ^^ v) = negb (Z.odd v)) as ->.
  { rewrite <- !Z.bit0_odd, Z.lxor_spec. unfold ones. rewrite all_ones_bits by lia.
    destruct (Z.ltb_spec 0 (Z.of_nat n)); [|lia]. by destruct (Z.testbit v 0). }
  assert (Z.lor (v >> 1) (2 ^ (Z.of_nat n - 1)) = (v >> 1) ^^ 2 ^ (Z.of_nat n - 1)) as ->.
  { apply Z.bits_inj'. intros i Hi. rewrite Z.lor_spec, Z.lxor_spec, Z.shiftr_spec, Z.pow2_bits_eqb by lia.
    destruct (Z.eqb_spec (Z.of_nat n - 1) i) as [<-|]; [|by rewrite orb_false_r, xorb_false_r].
    rewrite (is_word_bits (Z.of_nat n)) by (done || lia). done. }
  assert ((subw 64 (v & 1) 1 & mask) = if negb (Z.odd v) then mask else 0) as ->.
  { change 1 with (Z.ones 1) at 1. rewrite Z.land_ones, Z.pow_1_r, Zmod_odd by lia. destruct (Z.odd v); [done|].
    cbn [negb]. change (subw 64 0 1) with (all_ones 64). rewrite Z.land_comm.
    rewrite <- wrap_all_ones, wrap_small by (lia || by apply (is_word_weaken (Z.of_nat n)); [lia|done]). done. }
  rewrite <- ones_half. generalize (if negb (Z.odd v) then mask else 0) (v >> 1) (ones >> 1). intros. bits.
Qed.

Lemma ones_word : is_word (Z.of_nat n) ones.
Proof using Hn Hmask Hcheck. apply is_word_all_ones. lia. Qed.

Lemma lxor_ones v : ones ^^ (ones ^^ v) = v.
Proof using Hn Hmask Hcheck. by rewrite <- Z.lxor_assoc, Z.lxor_nilpotent, Z.lxor_0_l. Qed.

Lemma comp_word v : is_word (Z.of_nat n) v -> is_word (Z.of_nat n) (ones ^^ v).
Proof using Hn Hmask Hcheck. intros. apply is_word_lxor; [lia|apply ones_word|done]. Qed.

Lemma xnor_iter k v : is_word (Z.of_nat n) v -> Nat.iter k xnor v = ones ^^ rsteps mask k (ones ^^ v).
Proof using Hn Hmask Hcheck.
  intros Hv. induction k as [|k IH]; [cbn; by rewrite lxor_ones|].
  rewrite Nat.iter_succ, IH, xnor_rstep, lxor_ones; [done|].
  apply comp_word, rsteps_word; [lia|done|by apply comp_word].
Qed.

Lemma comp_nonzero v : v <> ones -> ones ^^ v <> 0.
Proof using Hn Hmask Hcheck. intros Hv E. apply Hv. symmetry. by apply Z.lxor_eq. Qed.

Lemma rsteps_nonzero k u : is_word (Z.of_nat n) u -> u <> 0 -> rsteps mask k u <> 0.
Proof using Hn Hmask Hcheck.
  intros Hu Hu0 E. destruct (period_check_spec n mask ltac:(lia) Hmask factors u Hcheck Hu Hu0) as [HN _].
  assert (rsteps mask (k * Z.to_nat (period n)) u = u) as H by (by apply (rsteps_mul n mask ltac:(lia) Hmask)).
  apply Hu0. rewrite <- H. destruct (Z.to_nat (period n)) as [|p] eqn:Ep.
  { unfold period in Ep. pose proof (Z.pow_gt_1 2 (Z.of_nat n)). lia. }
  rewrite Nat.mul_comm. cbn [Nat.mul]. rewrite Nat.add_comm, (rsteps_add n mask ltac:(lia) Hmask), E. apply (rsteps_0 n mask ltac:(lia) Hmask).
Qed.

(** From any legal state, a full period visits every legal state once. *)
Lemma orbit_permutation v : is_word (Z.of_nat n) v -> v <> ones ->
  orbit xnor v (Z.to_nat (period n)) ≡ₚ seqZ 0 (period n).
Proof using Hn Hmask Hcheck.
  intros Hv Hv1. assert (0 < period n) as Hp.
  { unfold period. pose proof (Z.pow_gt_1 2 (Z.of_nat n)). lia. }
  pose proof (comp_word v Hv) as Hu. pose proof (comp_nonzero v Hv1) as Hu0.
  apply NoDup_Permutation_bis.
  - rewrite orbit_iter. apply NoDup_ListNoDup, NoDup_fmap_2_strong; [|apply NoDup_seq].
    intros i j Hi%elem_of_seq Hj%elem_of_seq E. rewrite !xnor_iter in E by done.
    apply (f_equal (fun x => ones ^^ x)) in E. rewrite !lxor_ones in E.
    assert (forall i j, (i < j)%nat -> (j < Z.to_nat (period n))%nat ->
      rsteps mask (S i) (ones ^^ v) <> rsteps mask (S j) (ones ^^ v)) as Hne.
    { clear i j Hi Hj E. intros i j Hij Hj E.
      replace (S j) with ((j - i) + S i)%nat in E by lia. rewrite (rsteps_add n mask ltac:(lia) Hmask) in E.
      set (w := rsteps mask (S i) (ones ^^ v)) in *.
      apply (proj2 (period_check_spec n mask ltac:(lia) Hmask factors w Hcheck
        (rsteps_word n mask ltac:(lia) Hmask _ _ Hu) (rsteps_nonzero _ _ Hu Hu0)) (j - i)%nat); [lia|done]. }
    destruct (Nat.lt_trichotomy i j) as [H|[H|H]]; [|done|]; exfalso.
    + apply (Hne i j); [done|lia|done].
    + apply (Hne j i); [done|lia|done].
  - rewrite orbit_iter, length_fmap, length_seq, length_seqZ. lia.
  - intros x Hx%list_elem_of_In. apply list_elem_of_In. rewrite orbit_iter in Hx.
    apply list_elem_of_fmap in Hx as (k & -> & _). apply elem_of_seqZ. rewrite xnor_iter by done.
    pose proof (rsteps_word n mask ltac:(lia) Hmask (S k) _ Hu) as Hw.
    pose proof (rsteps_nonzero (S k) _ Hu Hu0) as Hw0. set (w := rsteps mask (S k) _) in *.
    assert (ones ^^ w = ones - w) as ->.
    { rewrite <- (notw_eq (Z.of_nat n)) by done. apply Z.bits_inj'. intros i Hi.
      rewrite Z.lxor_spec, notw_bits by lia. unfold ones. rewrite all_ones_bits by lia.
      destruct (Z.leb_spec 0 i), (Z.ltb_spec i (Z.of_nat n)); cbn [andb]; try lia.
      - by destruct (Z.testbit w i).
      - by rewrite (is_word_bits (Z.of_nat n)) by (done || lia). }
    unfold is_word, ones, all_ones, period in *. lia.
Qed.

(** The offsets below [nums], each once. *)
Lemma orbit_offsets v nums : is_word (Z.of_nat n) v -> v <> ones -> 0 <= nums <= period n ->
  List.filter (fun x => x <=? nums - 1) (orbit xnor v (Z.to_nat (period n))) ≡ₚ seqZ 0 nums.
Proof using Hn Hmask Hcheck.
  intros Hv Hv1 Hnums. rewrite (filter_Permutation _ _ _ (orbit_permutation v Hv Hv1)).
  replace (period n) with (nums + (period n - nums)) by lia. rewrite seqZ_app by lia.
  rewrite List.filter_app, filter_id, filter_nil.
  - by rewrite app_nil_r.
  - intros x Hx%elem_of_seqZ. apply Z.leb_gt. lia.
  - intros x Hx%elem_of_seqZ. apply Z.leb_le. lia.
Qed.
End Width.

(** ** The calls *)

Definition mask_of (n : nat) : Z := lfsr_create_xormask (nth n lfsr_taps []).
Definition step (n : nat) (v : Z) : Z := xnor n (mask_of n) v.

(** A generator about to start a pass over [nums] offsets with an [n]-bit register and
    no spin. *)
Definition fresh (n : nat) (nums : Z) (fl : fio_lfsr) : Prop :=
  xormask fl = mask_of n /\ cached_bit fl = 2 ^ (Z.of_nat n - 1) /\
  max_val fl = nums - 1 /\ num_vals fl = 0 /\ spin fl = 0 /\ cached_cycle_length fl = 0 /\
  (cycle_length fl = 0 \/ cycle_length fl = 1) /\
  is_word (Z.of_nat n) (last_val fl) /\ last_val fl <> ones n.

(** The state between two calls of the same pass. *)
Definition running (n : nat) (nums k v : Z) (fl : fio_lfsr) : Prop :=
  xormask fl = mask_of n /\ cached_bit fl = 2 ^ (Z.of_nat n - 1) /\
  max_val fl = nums - 1 /\ num_vals fl = k /\ spin fl = 0 /\ cached_cycle_length fl = 0 /\
  cycle_length fl = 0 /\ last_val fl = v.



Lemma loop_pick fuel n nums k : forall v fl, running n nums k v fl ->
  match pick (step n) (nums - 1) fuel v with
  | Some x => exists fl', lfsr_loop fuel fl = Some fl' /\ running n nums k x fl'
  | None => lfsr_loop fuel fl = None
  end.
Proof.
  induction fuel as [|fuel IH]; intros v fl Hfl; [done|]. cbn [pick lfsr_loop].
  destruct Hfl as (H1 & H2 & H3 & H4 & H5 & H6 & H7 & H8).
  assert (running n nums k (step n v) (lfsr_turn fl) /\ last_val (lfsr_turn fl) = step n v) as [Hr ->].
  { unfold lfsr_turn, __lfsr_next. rewrite H7, H5. change (c_true 0) with false. cbn [andb Z.leb Z.compare].
    change (S (Z.to_nat 0)) with 1%nat. cbn [Nat.iter nat_rect set_last last_val].
    assert (__LFSR_NEXT fl (last_val fl) = step n v) as -> by (unfold __LFSR_NEXT; by rewrite H1, H2, H8).
    split; [|done]. unfold running. cbn. by rewrite H7. }
  assert (max_val (lfsr_turn fl) = nums - 1) as -> by apply Hr.
  destruct (nums - 1 <? step n v); [by apply IH|]. eexists. split; [done|exact Hr].
Qed.

Lemma next_running fuel n nums k v x fl : running n nums k v fl -> 0 <= k < nums -> nums < 2 ^ 63 ->
  pick (step n) (nums - 1) fuel v = Some x ->
  exists fl', lfsr_next fuel fl = Some (Some x, fl') /\ running n nums (k + 1) x fl'.
Proof.
  intros (H1 & H2 & H3 & H4 & H5 & H6 & H7 & H8) Hk Hn Hp. unfold lfsr_next. rewrite H3, H4.
  destruct (Z.ltb_spec (nums - 1) k); [lia|].
  match goal with |- context [lfsr_loop fuel ?f] => set (f0 := f) end.
  assert (running n nums (k + 1) v f0) as Hr.
  { unfold running, f0. cbn. rewrite H7. unfold addw. rewrite wrap_small by (unfold is_word; lia). done. }
  pose proof (loop_pick fuel n nums (k + 1) v f0 Hr) as H0. rewrite Hp in H0. destruct H0 as (fl' & -> & Hr').
  cbn [mbind option_bind]. exists fl'. split; [|done]. destruct Hr' as (_ & _ & _ & _ & _ & _ & _ & E). by rewrite E.
Qed.

Lemma calls_running fuel n nums : nums < 2 ^ 63 -> forall l k v fl, running n nums k v fl ->
  0 <= k -> k + zlength l <= nums -> picks (step n) (nums - 1) fuel (length l) v = Some l ->
  exists fl' v', lfsr_calls fuel (length l) fl = Some (Some <$> l, fl') /\ running n nums (k + zlength l) v' fl'.
Proof.
  intros Hn l. induction l as [|x l IH]; intros k v fl Hfl Hk Hl Hp.
  - exists fl, v. change (zlength []) with 0. rewrite Z.add_0_r. done.
  - assert (zlength (x :: l) = 1 + zlength l) as E by (unfold zlength; cbn [length]; lia). rewrite E in *.
    assert (0 <= zlength l) by (unfold zlength; lia). cbn [length picks lfsr_calls] in *.
    destruct (pick (step n) (nums - 1) fuel v) as [y|] eqn:Ey; [|done]. cbn [mbind option_bind] in Hp.
    destruct (picks (step n) (nums - 1) fuel (length l) y) as [l'|] eqn:El; [|done]. cbn [mbind option_bind] in Hp.
    injection Hp as -> ->. destruct (next_running _ _ _ _ _ _ _ Hfl ltac:(lia) Hn Ey) as (fl1 & -> & H1).
    cbn [mbind option_bind]. destruct (IH (k + 1) x fl1 H1) as (fl2 & v2 & -> & H2); [lia|lia|done|].
    cbn [mbind option_bind]. exists fl2, v2. rewrite Z.add_assoc. done.
Qed.

(** The first call of a generator that was just initialised takes one step more. *)
Lemma first_call fuel n nums fl : fresh n nums fl -> 1 <= nums -> exists fl0 v,
  running n nums 0 v fl0 /\ (v = last_val fl \/ v = step n (last_val fl)) /\
  lfsr_next (S fuel) fl = lfsr_next (S fuel) fl0.
Proof.
  intros (H1 & H2 & H3 & H4 & H5 & H6 & [H7|H7] & H8 & H9) Hnums.
  { exists fl, (last_val fl). split; [by repeat split|]. split; [by left|done]. }
  destruct fl as [xm lv cb mv nv cl ccl sp]. cbn [xormask last_val cached_bit max_val num_vals cycle_length
    cached_cycle_length spin] in *. subst.
  exists (mk_lfsr (mask_of n) (step n lv) (2 ^ (Z.of_nat n - 1)) (nums - 1) 0 0 0 0), (step n lv).
  split; [by repeat split|]. split; [by right|]. unfold lfsr_next. cbn [num_vals max_val xormask last_val
    cached_bit cycle_length cached_cycle_length spin].
  destruct (Z.ltb_spec (nums - 1) 0); [lia|]. cbn [lfsr_loop].
  change (lfsr_turn (mk_lfsr (mask_of n) lv (2 ^ (Z.of_nat n - 1)) (nums - 1) (addw 64 0 1) 1 0 0))
    with (lfsr_turn (mk_lfsr (mask_of n) (step n lv) (2 ^ (Z.of_nat n - 1)) (nums - 1) (addw 64 0 1) 0 0 0)).
  reflexivity.
Qed.

(** A pass. *)
Lemma fresh_pass n nums fl factors : fresh n nums fl -> (0 < n <= 63)%nat ->
  is_word (Z.of_nat n) (mask_of n) -> period_check n (mask_of n) factors = true ->
  1 <= nums <= period n ->
  exists offs fl' v, lfsr_calls (S (Z.to_nat (period n))) (Z.to_nat nums) fl = Some (Some <$> offs, fl') /\
    offs ≡ₚ seqZ 0 nums /\ running n nums nums v fl'.
Proof.
  intros Hf Hn Hm Hc Hnums. pose proof Hf as (_ & _ & _ & _ & _ & _ & _ & Hlw & Hlo).
  destruct (first_call (Z.to_nat (period n)) n nums fl Hf) as (fl0 & v & Hr & Hv & Hnext); [lia|].
  assert (is_word (Z.of_nat n) v /\ v <> ones n) as [Hvw Hvo].
  { destruct Hv as [->| ->]; [done|]. split.
    - unfold step. rewrite (xnor_rstep n _ Hn Hm factors Hc) by done.
      apply (comp_word n _ Hn Hm factors Hc), rstep_word; [lia|done|]. by apply (comp_word n _ Hn Hm factors Hc).
    - unfold step. rewrite (xnor_rstep n _ Hn Hm factors Hc) by done. intros E.
      apply (rsteps_nonzero n _ Hn Hm factors Hc 1 (ones n ^^ last_val fl)).
      + by apply (comp_word n _ Hn Hm factors Hc).
      + by apply (comp_nonzero n _ Hn Hm factors Hc).
      + apply (f_equal (Z.lxor (ones n))) in E. rewrite (lxor_ones n _ Hn Hm factors Hc), Z.lxor_nilpotent in E.
        exact E. }
  pose proof (orbit_offsets n _ Hn Hm factors Hc v nums Hvw Hvo ltac:(lia)) as Hperm.
  pose proof (picks_orbit (step n) (nums - 1) (Z.to_nat (period n)) v (S (Z.to_nat (period n))) ltac:(lia)) as Hp.
  cbv zeta in Hp. unfold step in Hp. set (offs := List.filter _ _) in *. fold (step n) in Hp.
  assert (length offs = Z.to_nat nums) as Hlen by (rewrite Hperm, length_seqZ; done).
  assert (nums < 2 ^ 63) as Hbig.
  { unfold period in Hnums. pose proof (Z.pow_le_mono_r 2 (Z.of_nat n) 63). lia. }
  destruct (calls_running (S (Z.to_nat (period n))) n nums Hbig offs 0 v fl0 Hr) as (fl' & v' & E & Hr'); [lia|unfold zlength; lia|exact Hp|].
  exists offs, fl', v'. rewrite Hlen in E. split; [|split; [done|]].
  - rewrite <- E. destruct (Z.to_nat nums) as [|m] eqn:Em; [lia|]. cbn [lfsr_calls]. by rewrite Hnext.
  - unfold zlength in Hr'. rewrite Hlen, Z.add_0_l, Z2Nat.id in Hr' by lia. exact Hr'.
Qed.

(** ** Initialisation *)

Lemma taps_head : forallb (fun n => bool_decide (arr_get (nth n lfsr_taps []) 0 = Some (Z.of_nat n)) &&
  bool_decide (is_word (Z.of_nat n) (mask_of n))) (seq 3 46) = true.
Proof. vm_compute. reflexivity. Qed.

Lemma find_app {A} (p : A -> bool) l k :
  List.find p (l ++ k) = match List.find p l with Some x => Some x | None => List.find p k end.
Proof. induction l as [|x l IH]; [done|]. cbn. by destruct (p x). Qed.

Lemma find_lfsr_spec nums : 1 <= nums < 2 ^ 48 ->
  exists n, (3 <= n <= 48)%nat /\ find_lfsr nums = Some (nth n lfsr_taps []) /\ nums <= period n.
Proof.
  intros Hn. unfold find_lfsr. change (seq 3 61) with (seq 3 46 ++ seq 49 15). rewrite find_app.
  destruct (List.find _ (seq 3 46)) as [n|] eqn:E.
  - apply find_some in E as [Hin E]. apply in_seq in Hin. exists n. split; [lia|]. cbn [mbind option_bind].
    unfold shlw in E. rewrite Z.shiftl_1_l, wrap_small in E.
    2: { split; [apply Z.pow_nonneg; lia|]. apply Z.pow_lt_mono_r; lia. }
    apply Z.ltb_lt in E. split; [|unfold period; lia].
    destruct (lookup_lt_is_Some_2 lfsr_taps n) as [t Ht]; [cbn; lia|]. by rewrite nth_lookup, Ht.
  - exfalso. pose proof (find_none _ _ E 48%nat ltac:(apply in_seq; lia)) as Hf. cbv beta in Hf.
    change (shlw 64 1 (Z.of_nat 48)) with (2 ^ 48) in Hf. apply Z.ltb_ge in Hf. lia.
Qed.

Lemma reset_fresh n nums fl seed fl' : (3 <= n <= 48)%nat -> xormask fl = mask_of n ->
  cached_bit fl = 2 ^ (Z.of_nat n - 1) -> max_val fl = nums - 1 -> spin fl = 0 ->
  cached_cycle_length fl = 0 -> cycle_length fl = 0 \/ cycle_length fl = 1 ->
  lfsr_reset fl seed = Some fl' -> fresh n nums fl'.
Proof.
  intros Hn H1 H2 H3 H4 H5 H6. unfold lfsr_reset, lfsr_reset_state. cbn [last_val]. rewrite H2.
  assert (subw 64 (shlw 64 (2 ^ (Z.of_nat n - 1)) 1) 1 = ones n) as ->.
  { unfold shlw. rewrite Z.shiftl_mul_pow2, <- Z.pow_add_r by lia. replace (Z.of_nat n - 1 + 1) with (Z.of_nat n) by lia.
    pose proof (Z.pow_lt_mono_r 2 (Z.of_nat n) 64 ltac:(lia) ltac:(lia) ltac:(lia)).
    pose proof (Z.pow_pos_nonneg 2 (Z.of_nat n) ltac:(lia) ltac:(lia)).
    rewrite wrap_small by (unfold is_word; lia). unfold subw. rewrite wrap_small by (unfold is_word; lia). done. }
  destruct (Z.eqb_spec (seed & ones n) (ones n)) as [|Hne]; [done|]. intros [= <-].
  unfold fresh. cbn. repeat (split; [done|]). split; [|done]. apply is_word_land_r; [lia|].
  apply is_word_all_ones. lia.
Qed.

Lemma init_fresh nums seed fl : 1 <= nums < 2 ^ 48 -> lfsr_init nums seed 0 = Some fl ->
  exists n, (3 <= n <= 48)%nat /\ nums <= period n /\ fresh n nums fl.
Proof.
  intros Hnums. unfold lfsr_init. destruct (find_lfsr_spec nums Hnums) as (n & Hn & -> & Hp). cbn [mbind option_bind].
  pose proof taps_head as Ht. rewrite forallb_forall in Ht. specialize (Ht n ltac:(apply in_seq; lia)).
  apply andb_prop in Ht as [Ht%bool_decide_eq_true _]. rewrite Ht. cbn [mbind option_bind].
  unfold prepare_spin. change (15 <? 0) with false. cbv iota zeta. cbn [mbind option_bind]. intros Hr.
  exists n. split; [done|]. split; [done|]. eapply reset_fresh; [exact Hn|..|exact Hr]; cbn; try done.
  - unfold shlw. rewrite Z.shiftl_1_l, wrap_small; [done|].
    split; [apply Z.pow_nonneg; lia|]. apply Z.pow_lt_mono_r; lia.
  - unfold subw. rewrite wrap_small; [done|]. unfold is_word. lia.
  - by right.
Qed.

Lemma table_period n : (3 <= n <= 48)%nat ->
  is_word (Z.of_nat n) (mask_of n) /\ period_check n (mask_of n) (nth n mersenne_factors []) = true.
Proof.
  intros Hn. pose proof taps_head as Ht. rewrite forallb_forall in Ht. specialize (Ht n ltac:(apply in_seq; lia)).
  apply andb_prop in Ht as [_ Ht%bool_decide_eq_true]. split; [done|].
  pose proof taps_period as Hp. rewrite forallb_forall in Hp. exact (Hp n ltac:(apply in_seq; lia)).
Qed.

Lemma init_cached_bit nums seed fl : lfsr_init nums seed 0 = Some fl -> exists fl0, lfsr_reset fl0 seed = Some fl.
Proof.
  unfold lfsr_init. destruct (find_lfsr nums) as [taps|]; [|done]. cbn [mbind option_bind].
  destruct (arr_get taps 0) as [t|]; [|done]. cbn [mbind option_bind]. destruct (prepare_spin _ 0) as [fl0|]; [|done]. intros E. by exists fl0.
Qed.

Lemma lfsr_pass nums seed fl : 1 <= nums < 2 ^ 48 -> lfsr_init nums seed 0 = Some fl ->
  exists fuel offs fl1 fl2, lfsr_calls fuel (Z.to_nat nums) fl = Some (Some <$> offs, fl1) /\ offs ≡ₚ seqZ 0 nums /\
    lfsr_next fuel fl1 = Some (None, fl2) /\
    forall x, x = fl1 \/ x = fl2 -> lfsr_reset x seed = Some (lfsr_reset_state x seed) /\
      forall seed' fl', lfsr_reset x seed' = Some fl' ->
        exists offs' fl1', lfsr_calls fuel (Z.to_nat nums) fl' = Some (Some <$> offs', fl1') /\ offs' ≡ₚ seqZ 0 nums.
Proof.
  intros Hnums Hi. destruct (init_fresh nums seed fl Hnums Hi) as (n & Hn & Hp & Hf).
  destruct (table_period n Hn) as [Hm Hc].
  destruct (fresh_pass n nums fl _ Hf ltac:(lia) Hm Hc ltac:(lia)) as (offs & fl1 & v & E & Hperm & Hr).
  destruct Hr as (H1 & H2 & H3 & H4 & H5 & H6 & H7 & H8).
  assert (exists fl2, lfsr_next (S (Z.to_nat (period n))) fl1 = Some (None, fl2) /\
    (xormask fl2, cached_bit fl2, max_val fl2, spin fl2, cached_cycle_length fl2, cycle_length fl2) =
    (xormask fl1, cached_bit fl1, max_val fl1, spin fl1, cached_cycle_length fl1, cycle_length fl1)) as (fl2 & E2 & [= F1 F2 F3 F4 F5 F6]).
  { unfold lfsr_next. rewrite H3, H4. destruct (Z.ltb_spec (nums - 1) nums); [|lia]. eexists. by split. }
  exists (S (Z.to_nat (period n))), offs, fl1, fl2. split; [done|]. split; [done|]. split; [done|]. intros x Hx.
  assert (xormask x = mask_of n /\ cached_bit x = 2 ^ (Z.of_nat n - 1) /\ max_val x = nums - 1 /\ spin x = 0 /\
    cached_cycle_length x = 0 /\ cycle_length x = 0) as (X1 & X2 & X3 & X4 & X5 & X6).
  { destruct Hx as [->| ->]; [by split_and!|]. rewrite F1, F2, F3, F4, F5, F6. by split_and!. }
  split.
  - assert (exists fl0, cached_bit fl0 = cached_bit x /\ lfsr_reset fl0 seed = Some fl) as (fl0 & Eb & E0).
    { pose proof (init_cached_bit nums seed fl Hi) as (fl0 & E0). exists fl0. split; [|done].
      unfold lfsr_reset in E0. destruct (_ =? _) in E0; [done|]. injection E0 as <-. destruct Hf as (_ & Hcb & _). rewrite X2. exact Hcb. }
    unfold lfsr_reset in *. unfold lfsr_reset_state in E0 at 1. cbn [last_val] in E0. unfold lfsr_reset_state at 1. cbn [last_val].
    rewrite <- Eb. by destruct (_ =? _).
  - intros seed2 fl2' Hr2. assert (fresh n nums fl2') as Hf2.
    { eapply reset_fresh; [exact Hn|..|exact Hr2]; auto. }
    destruct (fresh_pass n nums fl2' _ Hf2 ltac:(lia) Hm Hc ltac:(lia)) as (offs2 & fl3 & v2 & E3 & Hperm2 & _).
    by exists offs2, fl3.
Qed.

(** C18: The register visits every block once: initialised without spin (with spin 0) for any number
    of blocks up to 2^48 and any seed it accepts, as many calls as there are blocks
    return a permutation of the blocks, the call after that reports the end, and the
    same holds after resetting the exhausted generator with another seed.  It rests on
    the table of taps: every register up to 48 bits has the maximal period 2^n - 1. *)
Theorem lfsr_visits_each_once nums seed fl : 1 <= nums < 2 ^ 48 -> lfsr_init nums seed 0 = Some fl ->
  exists fuel offs fl', lfsr_calls fuel (Z.to_nat nums) fl = Some (Some <$> offs, fl') /\
    offs ≡ₚ seqZ 0 nums /\ (exists fl'', lfsr_next fuel fl' = Some (None, fl'')) /\
    forall seed2 fl2, lfsr_reset fl' seed2 = Some fl2 ->
      exists offs2 fl2', lfsr_calls fuel (Z.to_nat nums) fl2 = Some (Some <$> offs2, fl2') /\
        offs2 ≡ₚ seqZ 0 nums.
Proof.
  intros Hnums Hi. destruct (lfsr_pass nums seed fl Hnums Hi) as (fuel & offs & fl1 & fl2 & E & Hp & E2 & H).
  exists fuel, offs, fl1. split; [done|]. split; [done|]. split; [by exists fl2|]. apply H. by left.
Qed.

Lemma lfsr_visits_each_once_witness :
  exists fl, lfsr_init 10 5 0 = Some fl /\
  exists fuel offs fl', lfsr_calls fuel (Z.to_nat 10) fl = Some (Some <$> offs, fl') /\
    offs ≡ₚ seqZ 0 10 /\ (exists fl'', lfsr_next fuel fl' = Some (None, fl'')) /\
    forall seed2 fl2, lfsr_reset fl' seed2 = Some fl2 ->
      exists offs2 fl2', lfsr_calls fuel (Z.to_nat 10) fl2 = Some (Some <$> offs2, fl2') /\
        offs2 ≡ₚ seqZ 0 10.
Proof.
  eexists. split; [reflexivity|]. apply (lfsr_visits_each_once 10 5); [lia|reflexivity].
Defined.

(** The first call after [lfsr_init] with the largest spin asks for sixteen more steps
    than one and falls out of the switch: no step is taken and the seed itself, which
    no other call of that pass skips, comes out first. *)
Example lfsr_spin15_no_step fl : __lfsr_next fl 16 = fl.
Proof. reflexivity. Qed.
