(* ===== verification/Stat.v ===== *)
(** stat.c and io_u.c: the latency histograms - logarithmic buckets, percentiles - and
    the coarse distributions of latency, submission and depth. *)
From Stdlib Require Import Sorted.
From S2P Require Import Prelude Bits.
Local Open Scope word_scope.

(** * The percentile buckets *)

Definition FIO_IO_U_PLAT_BITS : Z := 6.
Definition FIO_IO_U_PLAT_VAL : Z := Z.shiftl 1 FIO_IO_U_PLAT_BITS.
Definition FIO_IO_U_PLAT_GROUP_NR : Z := 29.
Definition FIO_IO_U_PLAT_NR : Z := FIO_IO_U_PLAT_GROUP_NR * FIO_IO_U_PLAT_VAL.

(** [__builtin_clzll] of a nonzero value. *)
Definition clzll (val : Z) : Z := 63 - Z.log2 val.

Definition plat_val_to_idx (val : Z) : Z :=
  let msb := if val =? 0 then 0 else 64 - clzll val - 1 in
  if msb <=? FIO_IO_U_PLAT_BITS then wrap 32 val else
  let error_bits := msb - FIO_IO_U_PLAT_BITS in
  let base := shlw 32 (error_bits + 1) FIO_IO_U_PLAT_BITS in
  let offset := wrap 32 ((FIO_IO_U_PLAT_VAL - 1) & (val >> error_bits)) in
  let sum := addw 32 base offset in
  if sum <? FIO_IO_U_PLAT_NR - 1 then sum else FIO_IO_U_PLAT_NR - 1.

(** [base + ((k + 0.5) * (1 << error_bits))]: the double has at most 41 significant
    bits here, so it is exact, and the sum is the integer below. *)
Definition plat_idx_to_val (idx : Z) : option Z :=
  let* _ := c_assert (idx <? FIO_IO_U_PLAT_NR) in
  if idx <? Z.shiftl FIO_IO_U_PLAT_VAL 1 then Some idx else
  let error_bits := (idx >> FIO_IO_U_PLAT_BITS) - 1 in
  let base := shlw 64 1 (error_bits + FIO_IO_U_PLAT_BITS) in
  let k := idx mod FIO_IO_U_PLAT_VAL in
  Some (base + (2 * k + 1) * Z.shiftl 1 error_bits / 2).

(** [add_lat_percentile_sample] on the histogram it selects. *)
Definition add_lat_percentile_sample (io_u_plat : list Z) (nsec : Z) : option (list Z) :=
  let idx := plat_val_to_idx nsec in
  let* _ := c_assert (idx <? FIO_IO_U_PLAT_NR) in
  let* c := arr_get io_u_plat idx in
  arr_set io_u_plat idx (addw 64 c 1).

Fixpoint add_samples (io_u_plat : list Z) (xs : list Z) : option (list Z) :=
  match xs with
  | [] => Some io_u_plat
  | x :: xs => let* p := add_lat_percentile_sample io_u_plat x in add_samples p xs
  end.

(** * Percentiles

    A requested percentile enters the code only through two comparisons: the running
    sum, an integer, against the floating-point product of the percentile and the number
    of samples, and the percentile against 100. So a target is the least integer not
    below that product and the outcome of the second comparison; the list of targets is
    the one sorted by [qsort]. *)

Record target : Type := mk_target { rank : Z; at_most_100 : bool }.
Record percentiles : Type := mk_perc { ovals : list Z; minv : Z; maxv : Z; is_last : bool }.

(** The inner [while]: all percentiles that the sum has reached get the bucket's value. *)
Fixpoint percentile_while (i sum : Z) (ts : list target) (p : percentiles) : option (list target * percentiles) :=
  match ts with
  | [] => Some ([], p)
  | t :: ts' =>
      if rank t <=? sum then
        let* _ := c_assert (at_most_100 t) in
        let* v := plat_idx_to_val i in
        percentile_while i sum ts' (mk_perc (ovals p ++ [v]) (if v <? minv p then v else minv p)
          (if maxv p <? v then v else maxv p) (match ts' with [] => true | _ => false end))
      else Some (ts, p)
  end.

(** The outer [for], over the buckets from number [i]. *)
Fixpoint percentile_for (io_u_plat : list Z) (i sum : Z) (ts : list target) (p : percentiles) : option percentiles :=
  match io_u_plat with
  | [] => Some p
  | c :: io_u_plat =>
      if is_last p then Some p else
      let sum := addw 64 sum c in
      let* '(ts, p) := percentile_while i sum ts p in
      percentile_for io_u_plat (i + 1) sum ts p
  end.

(** With no percentile asked for the count is zero and nothing is computed. *)
Definition calc_clat_percentiles (io_u_plat : list Z) (ts : list target) : option (option percentiles) :=
  match ts with
  | [] => Some None
  | _ => let* p := percentile_for io_u_plat 0 0 ts (mk_perc [] (all_ones 64) 0 false) in Some (Some p)
  end.

(** * The coarse distributions *)

(** A [switch] over ranges [lo ... hi] with the index each case sets. *)
Fixpoint switch_idx (cases : list (Z * Z * Z)) (dflt v : Z) : Z :=
  match cases with
  | [] => dflt
  | (lo, hi, idx) :: cases => if (lo <=? v) && (v <=? hi) then idx else switch_idx cases dflt v
  end.

Definition lat_cases : list (Z * Z * Z) :=
  [(750, 999, 9); (500, 749, 8); (250, 499, 7); (100, 249, 6); (50, 99, 5); (20, 49, 4); (10, 19, 3);
   (4, 9, 2); (2, 3, 1); (0, 1, 0)].

Definition bump (map : list Z) (idx n : Z) : option (list Z) :=
  let* c := arr_get map idx in arr_set map idx (addw 64 c n).

Definition io_u_mark_lat_nsec (io_u_lat_n : list Z) (nsec : Z) : option (list Z) :=
  let* _ := c_assert (nsec <? 1000) in
  let idx := switch_idx lat_cases 0 nsec in
  let* _ := c_assert (idx <? 10) in bump io_u_lat_n idx 1.

Definition io_u_mark_lat_usec (io_u_lat_u : list Z) (usec : Z) : option (list Z) :=
  let* _ := c_assert ((usec <? 1000) && (1 <=? usec)) in
  let idx := switch_idx lat_cases 0 usec in
  let* _ := c_assert (idx <? 10) in bump io_u_lat_u idx 1.

Definition io_u_mark_lat_msec (io_u_lat_m : list Z) (msec : Z) : option (list Z) :=
  let* _ := c_assert (1 <=? msec) in
  let idx := switch_idx ((1000, 1999, 10) :: lat_cases) 11 msec in
  let* _ := c_assert (idx <? 12) in bump io_u_lat_m idx 1.

Record lat_stat : Type := mk_lat { io_u_lat_n : list Z; io_u_lat_u : list Z; io_u_lat_m : list Z }.

Definition io_u_mark_latency (ts : lat_stat) (nsec : Z) : option lat_stat :=
  if nsec <? 1000 then
    let* n := io_u_mark_lat_nsec (io_u_lat_n ts) nsec in Some (mk_lat n (io_u_lat_u ts) (io_u_lat_m ts))
  else if nsec <? 1000000 then
    let* u := io_u_mark_lat_usec (io_u_lat_u ts) (nsec / 1000) in Some (mk_lat (io_u_lat_n ts) u (io_u_lat_m ts))
  else
    let* m := io_u_mark_lat_msec (io_u_lat_m ts) (nsec / 1000000) in Some (mk_lat (io_u_lat_n ts) (io_u_lat_u ts) m).

Fixpoint mark_all (ts : lat_stat) (xs : list Z) : option lat_stat :=
  match xs with
  | [] => Some ts
  | x :: xs => let* ts := io_u_mark_latency ts x in mark_all ts xs
  end.

(** The number of units submitted or completed together, and the queue depth. *)
Definition __io_u_mark_map (map : list Z) (nr : Z) : option (list Z) :=
  bump map (switch_idx [(33, 64, 5); (17, 32, 4); (9, 16, 3); (5, 8, 2); (1, 4, 1); (0, 0, 0)] 6 nr) 1.

Definition io_u_mark_depth (io_u_map : list Z) (cur_depth nr : Z) : option (list Z) :=
  bump io_u_map (switch_idx [(32, 63, 5); (16, 31, 4); (8, 15, 3); (4, 7, 2); (2, 3, 1); (1, 1, 0)] 6 cur_depth) nr.

(** * Proofs *)

Lemma land_63 z : (FIO_IO_U_PLAT_VAL - 1) & z = z mod 64.
Proof. change (FIO_IO_U_PLAT_VAL - 1) with (Z.ones 6). rewrite Z.land_comm. apply Z.land_ones. lia. Qed.

(** The bucket of a value, in closed form. *)
Definition idx_spec (val : Z) : Z :=
  if val <? 128 then val else
  let e := Z.log2 val - 6 in Z.min ((e + 1) * 64 + (val / 2 ^ e) mod 64) (29 * 64 - 1).

Lemma plat_val_to_idx_spec val : is_word 64 val -> plat_val_to_idx val = idx_spec val.
Proof.
  intros Hv. unfold is_word in Hv. unfold plat_val_to_idx, idx_spec, clzll.
  change FIO_IO_U_PLAT_BITS with 6. change FIO_IO_U_PLAT_NR with (29 * 64).
  destruct (Z.eqb_spec val 0) as [->|Hnz]; [done|]. replace (64 - (63 - Z.log2 val) - 1) with (Z.log2 val) by lia.
  assert (Z.log2 val < 64) as Hlog by (apply Z.log2_lt_pow2; lia).
  destruct (Z.ltb_spec val 128) as [Hs|Hs].
  - assert (Z.log2 val < 7) by (apply Z.log2_lt_pow2; lia).
    destruct (Z.leb_spec (Z.log2 val) 6); [|lia]. apply wrap_small. unfold is_word. lia.
  - assert (7 <= Z.log2 val) by (apply Z.log2_le_pow2; lia).
    destruct (Z.leb_spec (Z.log2 val) 6); [lia|]. set (e := Z.log2 val - 6) in *.
    unfold shlw. rewrite Z.shiftl_mul_pow2 by lia. change (2 ^ 6) with 64.
    rewrite land_63, Z.shiftr_div_pow2 by lia.
    pose proof (Z.mod_pos_bound (val / 2 ^ e) 64 ltac:(lia)).
    rewrite (wrap_small _ ((e + 1) * 64)) by (unfold is_word; lia).
    rewrite (wrap_small _ (_ mod 64)) by (unfold is_word; lia).
    unfold addw. rewrite wrap_small by (unfold is_word; lia). zcases; lia.
Qed.

(** A value of 7 bits or more as its group, its bucket in the group and the rest. *)
Lemma val_split val : 128 <= val -> let e := Z.log2 val - 6 in
  1 <= e /\ 64 <= val / 2 ^ e < 128 /\ (val / 2 ^ e) mod 64 = val / 2 ^ e - 64.
Proof.
  intros Hv e. assert (7 <= Z.log2 val) as Hl by (apply Z.log2_le_pow2; lia).
  pose proof (Z.log2_spec val ltac:(lia)) as [H1 H2]. unfold Z.succ in H2.
  assert (2 ^ Z.log2 val = 64 * 2 ^ e) as E1.
  { unfold e. change 64 with (2 ^ 6). rewrite <- Z.pow_add_r by lia. f_equal. lia. }
  assert (2 ^ (Z.log2 val + 1) = 128 * 2 ^ e) as E2 by (rewrite Z.pow_add_r, E1 by lia; lia).
  pose proof (Z.pow_pos_nonneg 2 e ltac:(lia) ltac:(lia)).
  assert (64 <= val / 2 ^ e < 128) as Hd.
  { split; [apply Z.div_le_lower_bound; lia|apply Z.div_lt_upper_bound; lia]. }
  split; [lia|]. split; [done|]. symmetry. apply Z.mod_unique with 1; lia.
Qed.

(** The bucket index never decreases with the value. *)
Lemma idx_spec_mono a b : 0 <= a <= b -> idx_spec a <= idx_spec b.
Proof.
  intros Hab. unfold idx_spec. destruct (Z.ltb_spec a 128) as [Ha|Ha], (Z.ltb_spec b 128) as [Hb|Hb]; try lia.
  - destruct (val_split b Hb) as (H1 & H2 & H3). cbv zeta. rewrite H3. lia.
  - destruct (val_split a Ha) as (H1 & H2 & H3), (val_split b Hb) as (H4 & H5 & H6). cbv zeta. rewrite H3, H6.
    assert (Z.log2 a <= Z.log2 b) as Hl by (apply Z.log2_le_mono; lia).
    destruct (Z.eq_dec (Z.log2 a) (Z.log2 b)) as [E|]; [|nia]. rewrite <- E in *.
    assert (a / 2 ^ (Z.log2 a - 6) <= b / 2 ^ (Z.log2 a - 6)); [|lia].
    apply Z.div_le_mono; [apply Z.pow_pos_nonneg; lia|lia].
Qed.

Lemma idx_spec_range val : 0 <= val -> 0 <= idx_spec val < FIO_IO_U_PLAT_NR.
Proof.
  intros Hv. unfold idx_spec. change FIO_IO_U_PLAT_NR with 1856. destruct (Z.ltb_spec val 128); [lia|].
  destruct (val_split val) as (H1 & H2 & H3); [done|]. cbv zeta. rewrite H3. lia.
Qed.

(** The value reported for a bucket is close to every value counted there, as long as
    the top bucket does not overflow. *)
Lemma plat_round_trip val : 0 <= val < 2 ^ 34 ->
  exists v, plat_idx_to_val (idx_spec val) = Some v /\ 128 * Z.abs (v - val) <= val.
Proof.
  intros Hv. pose proof (idx_spec_range val ltac:(lia)) as Hr. unfold plat_idx_to_val, c_assert.
  destruct (Z.ltb_spec (idx_spec val) FIO_IO_U_PLAT_NR); [|lia]. cbn [mbind option_bind].
  change (Z.shiftl FIO_IO_U_PLAT_VAL 1) with 128. change FIO_IO_U_PLAT_VAL with 64. change FIO_IO_U_PLAT_BITS with 6.
  destruct (Z.ltb_spec val 128) as [Hs|Hs].
  - assert (idx_spec val = val) as E by (unfold idx_spec; destruct (Z.ltb_spec val 128); lia). rewrite E in *.
    exists val. destruct (Z.ltb_spec val 128); [|lia]. split; [done|]. lia.
  - destruct (val_split val Hs) as (H1 & H2 & H3). cbv zeta in *. set (e := Z.log2 val - 6) in *.
    assert (e <= 27) as He by (unfold e; assert (Z.log2 val < 34) by (apply Z.log2_lt_pow2; lia); lia).
    assert (idx_spec val = (e + 1) * 64 + (val / 2 ^ e - 64)) as E.
    { unfold idx_spec. destruct (Z.ltb_spec val 128); [lia|]. cbv zeta. fold e. rewrite H3. lia. }
    rewrite E in *. destruct (Z.ltb_spec ((e + 1) * 64 + (val / 2 ^ e - 64)) 128); [lia|].
    rewrite Z.shiftr_div_pow2 by lia. change (2 ^ 6) with 64.
    rewrite <- (Z.div_unique ((e + 1) * 64 + (val / 2 ^ e - 64)) 64 (e + 1) (val / 2 ^ e - 64)) by lia.
    rewrite <- (Z.mod_unique ((e + 1) * 64 + (val / 2 ^ e - 64)) 64 (e + 1) (val / 2 ^ e - 64)) by lia.
    replace (e + 1 - 1) with e by lia. eexists. split; [done|].
    unfold shlw. rewrite !Z.shiftl_1_l.
    assert (2 ^ (e + 6) = 64 * 2 ^ e) as Ep by (rewrite Z.pow_add_r by lia; lia).
    pose proof (Z.pow_lt_mono_r 2 (e + 6) 64 ltac:(lia) ltac:(lia) ltac:(lia)).
    rewrite wrap_small by (unfold is_word; pose proof (Z.pow_pos_nonneg 2 (e + 6)); lia).
    assert (2 ^ e = 2 * 2 ^ (e - 1)) as E2 by (rewrite <- Z.pow_succ_r by lia; f_equal; lia).
    pose proof (Z.pow_pos_nonneg 2 (e - 1) ltac:(lia) ltac:(lia)).
    set (h := 2 ^ (e - 1)) in *. set (m := val / 2 ^ e) in *.
    pose proof (Z.div_mod val (2 ^ e) ltac:(lia)) as Hdm. fold m in Hdm.
    pose proof (Z.mod_pos_bound val (2 ^ e) ltac:(lia)) as Hb.
    replace ((2 * (m - 64) + 1) * 2 ^ e / 2) with ((2 * (m - 64) + 1) * h).
    2: { rewrite E2. replace ((2 * (m - 64) + 1) * (2 * h)) with ((2 * (m - 64) + 1) * h * 2) by lia.
         by rewrite Z.div_mul. }
    rewrite Ep. assert (64 * (2 * h) <= val) by nia. nia.
Qed.

(** ** Histograms *)

(** The histogram with [n] buckets of the samples [xs], sorted into buckets by [f]. *)
Definition hist (f : Z -> Z) (n : nat) (xs : list Z) : list Z :=
  (fun k => count_if (fun x => f x =? k) xs) <$> (Z.of_nat <$> seq 0 n).

Lemma hist_lookup f n xs k : hist f n xs !! k = if decide (k < n)%nat then Some (count_if (fun x => f x =? Z.of_nat k) xs) else None.
Proof.
  unfold hist. rewrite !list_lookup_fmap. case_decide.
  - by rewrite lookup_seq_lt.
  - by rewrite lookup_seq_ge by lia.
Qed.

Lemma hist_length f n xs : length (hist f n xs) = n.
Proof. unfold hist. by rewrite !length_fmap, length_seq. Qed.

Lemma hist_nil f n : hist f n [] = replicate n 0.
Proof.
  apply list_eq. intros k. rewrite hist_lookup. case_decide.
  - by rewrite lookup_replicate_2.
  - symmetry. apply lookup_ge_None. rewrite length_replicate. lia.
Qed.

Lemma hist_snoc f n xs x :
  hist f n (xs ++ [x]) = (if (0 <=? f x) && (f x <? Z.of_nat n) then
    <[Z.to_nat (f x) := count_if (fun y => f y =? f x) xs + 1]> (hist f n xs) else hist f n xs).
Proof.
  apply list_eq. intros k. destruct (Z.leb_spec 0 (f x)), (Z.ltb_spec (f x) (Z.of_nat n)); cbn [andb];
    rewrite ?list_lookup_insert, !hist_lookup, ?hist_length; repeat case_decide; try lia; try done; f_equal;
    rewrite count_if_app; unfold count_if at 2; cbn [List.filter];
    match goal with |- context [if ?a =? ?z then _ else _] => destruct (Z.eqb_spec a z) as [E|E] end;
    try lia; unfold zlength; cbn [length]; rewrite ?E; try lia.
Qed.

(** One increment, at the bucket of the sample. *)
Lemma bump_hist f n xs x : zlength xs < 2 ^ 64 - 1 -> 0 <= f x < Z.of_nat n ->
  bump (hist f n xs) (f x) 1 = Some (hist f n (xs ++ [x])).
Proof.
  intros Hl Hx. unfold bump. rewrite <- (Z2Nat.id (f x)) at 1 by lia. rewrite arr_get_nat, hist_lookup.
  rewrite decide_True, Z2Nat.id by lia. cbn [mbind option_bind].
  rewrite arr_set_Some by (unfold zlength; rewrite hist_length; lia). rewrite hist_snoc.
  destruct (Z.leb_spec 0 (f x)), (Z.ltb_spec (f x) (Z.of_nat n)); try lia. cbn [andb].
  unfold addw. rewrite wrap_small; [done|]. pose proof (count_if_le (fun y => f y =? f x) xs). unfold is_word. lia.
Qed.

(** A sample that falls into no bucket. *)
Lemma hist_out f n xs x : f x < 0 -> hist f n (xs ++ [x]) = hist f n xs.
Proof. intros. rewrite hist_snoc. destruct (Z.leb_spec 0 (f x)); [lia|done]. Qed.

(** * Percentiles of a run of samples *)

Lemma hist_perm f n xs ys : xs ≡ₚ ys -> hist f n xs = hist f n ys.
Proof. intros H. unfold hist. apply list_fmap_ext. intros i k _. by apply count_if_perm. Qed.

Definition plat_buckets : nat := Z.to_nat FIO_IO_U_PLAT_NR.

Lemma plat_buckets_Z : Z.of_nat plat_buckets = FIO_IO_U_PLAT_NR.
Proof. reflexivity. Qed.

#[local] Opaque plat_buckets.

Lemma add_lat_percentile_sample_hist xs x : is_word 64 x -> zlength xs < 2 ^ 64 - 1 ->
  add_lat_percentile_sample (hist idx_spec plat_buckets xs) x = Some (hist idx_spec plat_buckets (xs ++ [x])).
Proof.
  intros Hx Hl. pose proof (idx_spec_range x ltac:(unfold is_word in Hx; lia)) as Hr.
  unfold add_lat_percentile_sample, c_assert. rewrite plat_val_to_idx_spec by done.
  destruct (Z.ltb_spec (idx_spec x) FIO_IO_U_PLAT_NR); [|lia]. cbn [mbind option_bind].
  apply (bump_hist idx_spec plat_buckets); rewrite ?plat_buckets_Z; done.
Qed.

Lemma add_samples_hist xs : forall ys, Forall (is_word 64) xs -> zlength ys + zlength xs < 2 ^ 64 ->
  add_samples (hist idx_spec plat_buckets ys) xs = Some (hist idx_spec plat_buckets (ys ++ xs)).
Proof.
  induction xs as [|x xs IH]; intros ys Hw Hl; cbn [add_samples]; [by rewrite app_nil_r|].
  inversion_clear Hw. unfold zlength in Hl. cbn [length] in Hl.
  rewrite add_lat_percentile_sample_hist by (try done; unfold zlength; lia). cbn [mbind option_bind].
  rewrite IH; [|done|rewrite zlength_app; unfold zlength; cbn [length]; lia]. by rewrite <- (assoc_L (++)).
Qed.

(** The number of samples in the buckets before the [i]-th. *)
Definition below (s : list Z) (i : Z) : Z := count_if (fun x => idx_spec x <? i) s.

Lemma below_step s i : below s (i + 1) = below s i + count_if (fun x => idx_spec x =? i) s.
Proof.
  unfold below, count_if, zlength. induction s as [|x s IH]; [done|]. cbn [List.filter].
  destruct (Z.ltb_spec (idx_spec x) (i + 1)), (Z.ltb_spec (idx_spec x) i), (Z.eqb_spec (idx_spec x) i);
    cbn [length]; lia.
Qed.

Lemma below_none s i y : i <= idx_spec y -> 0 <= y -> Forall (Z.le y) s -> below s i = 0.
Proof.
  intros Hi Hy. unfold below, count_if. induction 1 as [|x s Hx Hs IH]; [done|]. cbn [List.filter].
  pose proof (idx_spec_mono y x ltac:(lia)). destruct (Z.ltb_spec (idx_spec x) i); [lia|done].
Qed.

(** In a sorted run the samples of the lower buckets come first. *)
Lemma below_sorted s i (j : nat) x : StronglySorted Z.le s -> Forall (fun x => 0 <= x) s -> s !! j = Some x ->
  idx_spec x < i <-> Z.of_nat j < below s i.
Proof.
  intros Hs. revert j. induction Hs as [|y s Hs IH Hy]; intros j Hp Hj; [done|].
  inversion Hp as [|? ? Hy0 Hp']; subst.
  assert (below (y :: s) i = (if idx_spec y <? i then 1 else 0) + below s i) as ->.
  { unfold below, count_if, zlength. cbn [List.filter]. destruct (idx_spec y <? i); cbn [length]; lia. }
  assert (0 <= below s i) as Hle by apply count_if_le.
  assert (y <= x) as Hyx.
  { apply list_elem_of_lookup_2, elem_of_cons in Hj as [->|Hj]; [lia|]. rewrite Forall_forall in Hy. by apply Hy, list_elem_of_In. }
  pose proof (idx_spec_mono y x ltac:(lia)). destruct (Z.ltb_spec (idx_spec y) i) as [Hi|Hi].
  - destruct j as [|j]; cbn in Hj; [injection Hj as ->; lia|]. specialize (IH j Hp' Hj). lia.
  - rewrite (below_none s i y) by done. lia.
Qed.

(** The minimum and maximum kept beside the values are those of the values. *)
Definition summarises (p : percentiles) : Prop :=
  minv p = fold_right Z.min (all_ones 64) (rev (ovals p)) /\ maxv p = fold_right Z.max 0 (rev (ovals p)).

Definition no_targets (ts : list target) : bool := match ts with [] => true | _ => false end.

(** The inner loop serves exactly the targets that the sum has reached. *)
Lemma percentile_while_spec i sum v : plat_idx_to_val i = Some v -> forall ts p,
  Forall (fun t => at_most_100 t = true) ts -> is_last p = no_targets ts -> summarises p ->
  exists a b p', ts = a ++ b /\ percentile_while i sum ts p = Some (b, p') /\
    Forall (fun t => rank t <= sum) a /\ (forall t, head b = Some t -> sum < rank t) /\
    ovals p' = ovals p ++ ((fun _ => v) <$> a) /\ is_last p' = no_targets b /\ summarises p'.
Proof.
  intros Hv. induction ts as [|t ts IH]; intros p Hle Hlast Hsum; cbn [percentile_while].
  { exists [], [], p. cbn [fmap list_fmap app]. rewrite app_nil_r. by split_and!. }
  inversion_clear Hle as [|? ? Ht Hts]. destruct (Z.leb_spec (rank t) sum) as [Hr|Hr].
  - rewrite Ht, Hv. cbn [c_assert mbind option_bind].
    match goal with |- context [percentile_while _ _ _ ?q] => destruct (IH q) as (a & b & p' & -> & E & Ha & Hb & Ho & Hl & Hs) end.
    + done.
    + by destruct ts.
    + destruct Hsum as [H1 H2]. split; cbn [ovals minv maxv]; rewrite rev_unit; cbn [fold_right];
        rewrite <- ?H1, <- ?H2; zcases; lia.
    + exists (t :: a), b, p'. rewrite E. split_and!; try done; [by constructor|].
      rewrite Ho. cbn [ovals fmap list_fmap]. by rewrite <- (assoc_L (++)).
  - exists [], (t :: ts), p. cbn [fmap list_fmap app]. rewrite app_nil_r.
    split_and!; try done. intros ? [= <-]. lia.
Qed.

(** What is reported for a target, relative to the sorted samples [s]. *)
Definition reported (s : list Z) (t : target) (v : Z) : Prop :=
  exists x, s !! Z.to_nat (rank t - 1) = Some x /\ plat_idx_to_val (idx_spec x) = Some v.

Lemma plat_idx_to_val_total i : 0 <= i < FIO_IO_U_PLAT_NR -> exists v, plat_idx_to_val i = Some v.
Proof.
  intros Hi. unfold plat_idx_to_val, c_assert. destruct (Z.ltb_spec i FIO_IO_U_PLAT_NR); [|lia].
  cbn [mbind option_bind]. case_match; by eexists.
Qed.

Lemma strongly_sorted_suffix {A} (R : A -> A -> Prop) l k : StronglySorted R (l ++ k) -> StronglySorted R k.
Proof. induction l as [|x l IH]; [done|]. intros H. inversion_clear H. by apply IH. Qed.

(** A sorted list whose first target is above [lo] is above it altogether. *)
Lemma above_head ts lo lo' hi : (forall t, head ts = Some t -> lo < rank t) ->
  StronglySorted (fun t u => rank t <= rank u) ts -> Forall (fun t => lo' < rank t <= hi) ts ->
  Forall (fun t => lo < rank t <= hi) ts.
Proof.
  intros Hh Hs Hf. destruct Hs as [|t ts Hs Ht]; [constructor|]. specialize (Hh t eq_refl).
  inversion_clear Hf as [|? ? H1 H2]. constructor; [lia|].
  rewrite List.Forall_forall in *. intros u Hu. specialize (Ht u Hu). specialize (H2 u Hu). cbn in *. lia.
Qed.

Section percentile_loop.
Context (s : list Z) (Hs : StronglySorted Z.le s) (Hw : Forall (is_word 64) s) (Hlen : zlength s < 2 ^ 64).

Lemma samples_nonneg : Forall (fun x => 0 <= x) s.
Proof using Hw. eapply Forall_impl; [|exact Hw]. intros x [Hx _]. exact Hx. Qed.

(** The targets served at bucket [i] have a sample of that bucket at their rank. *)
Lemma reported_at i v a : plat_idx_to_val i = Some v -> Forall (fun t => below s i < rank t <= zlength s) a ->
  Forall (fun t => rank t <= below s (i + 1)) a -> Forall2 (reported s) a ((fun _ => v) <$> a).
Proof using Hs Hw.
  intros Hv. induction a as [|t a IH]; intros H1 H2; [constructor|].
  inversion_clear H1 as [|? ? Ht Hts]. inversion_clear H2 as [|? ? Hr Hrs]. constructor; [|by apply IH].
  assert (0 <= below s i) by apply count_if_le.
  destruct (lookup_lt_is_Some_2 s (Z.to_nat (rank t - 1))) as [x Hx]; [unfold zlength in Ht; lia|].
  exists x. split; [done|]. pose proof (below_sorted s i _ x Hs samples_nonneg Hx) as B1.
  pose proof (below_sorted s (i + 1) _ x Hs samples_nonneg Hx) as B2.
  replace (idx_spec x) with i by lia. done.
Qed.

Lemma percentile_for_spec (n : nat) : forall i ts p, Z.of_nat i + Z.of_nat n = FIO_IO_U_PLAT_NR ->
  Forall (fun t => below s (Z.of_nat i) < rank t <= zlength s) ts -> StronglySorted (fun t u => rank t <= rank u) ts ->
  Forall (fun t => at_most_100 t = true) ts -> is_last p = no_targets ts -> summarises p ->
  exists p' vs, percentile_for (drop i (hist idx_spec plat_buckets s)) (Z.of_nat i) (below s (Z.of_nat i)) ts p = Some p' /\
    is_last p' = true /\ ovals p' = ovals p ++ vs /\ Forall2 (reported s) ts vs /\ summarises p'.
Proof using Hs Hw Hlen.
  induction n as [|n IH]; intros i ts p Hi Hts Hsort Hle Hlast Hsum.
  - rewrite drop_ge by (rewrite hist_length; apply Nat2Z.inj_le; rewrite plat_buckets_Z; lia). cbn [percentile_for].
    assert (below s (Z.of_nat i) = zlength s) as E.
    { unfold below, count_if. rewrite List.forallb_filter_id; [done|]. apply forallb_forall. intros x Hx.
      pose proof samples_nonneg as Hp. rewrite List.Forall_forall in Hp. pose proof (idx_spec_range x (Hp x Hx)).
      apply Z.ltb_lt. lia. }
    destruct ts as [|t ts]; [|inversion_clear Hts; lia]. exists p, []. rewrite app_nil_r. by split_and!.
  - assert (hist idx_spec plat_buckets s !! i = Some (count_if (fun x => idx_spec x =? Z.of_nat i) s)) as Hi'.
    { rewrite hist_lookup, decide_True; [done|]. apply Nat2Z.inj_lt. rewrite plat_buckets_Z. lia. }
    rewrite (drop_S _ _ _ Hi'). cbn [percentile_for].
    destruct (is_last p) eqn:El.
    { destruct ts; [|done]. exists p, []. rewrite app_nil_r. by split_and!. }
    assert (0 <= below s (Z.of_nat i + 1) <= zlength s) as Hb1 by apply count_if_le.
    pose proof (below_step s (Z.of_nat i)) as Hstep. unfold addw. rewrite <- Hstep, wrap_small by (unfold is_word; lia).
    destruct (plat_idx_to_val_total (Z.of_nat i)) as [v Hv]; [lia|].
    destruct (percentile_while_spec _ (below s (Z.of_nat i + 1)) v Hv ts p) as (a & b & p1 & -> & -> & Ha & Hb & Ho & Hl1 & Hs1);
      [done|congruence|done|]. cbn [mbind option_bind].
    apply Forall_app in Hts as [Hta Htb], Hle as [_ Hleb]. apply strongly_sorted_suffix in Hsort.
    replace (Z.of_nat i + 1) with (Z.of_nat (S i)) in * by lia.
    destruct (IH (S i) b p1) as (p' & vs & -> & E1 & E2 & E3 & E4); try done; [lia| |].
    + by apply (above_head b _ (below s (Z.of_nat i))).
    + exists p', (((fun _ => v) <$> a) ++ vs). rewrite E2, Ho, (assoc_L (++)). split_and!; try done.
      apply Forall2_app; [|done]. apply (reported_at (Z.of_nat i)); try done.
      by replace (Z.of_nat i + 1) with (Z.of_nat (S i)) by lia.
Qed.
End percentile_loop.

Lemma calc_nonempty plat ts p : ts <> [] ->
  percentile_for plat 0 0 ts (mk_perc [] (all_ones 64) 0 false) = Some p -> calc_clat_percentiles plat ts = Some (Some p).
Proof. intros Hne E. unfold calc_clat_percentiles. rewrite E. by destruct ts. Qed.

(** ** The two properties *)

(** C19: for any samples below [2^34] ns, and any targets whose ranks lie between one and
    the number of samples, the histogram and the percentile loop run without a failed
    assertion; every target is served, and the value reported for a target of rank [r] is
    within 1/128 of the [r]-th smallest sample; the minimum and maximum reported are those
    of the values. *)
Theorem percentiles_correct (xs s : list Z) (ts : list target) :
  zlength xs < 2 ^ 64 -> Forall (fun x => 0 <= x < 2 ^ 34) xs -> s ≡ₚ xs -> StronglySorted Z.le s ->
  ts <> [] -> StronglySorted (fun t u => rank t <= rank u) ts ->
  Forall (fun t => 1 <= rank t <= zlength xs /\ at_most_100 t = true) ts ->
  exists plat p, add_samples (replicate (Z.to_nat FIO_IO_U_PLAT_NR) 0) xs = Some plat /\
    calc_clat_percentiles plat ts = Some (Some p) /\ is_last p = true /\
    Forall2 (fun t v => exists x, s !! Z.to_nat (rank t - 1) = Some x /\ 128 * Z.abs (v - x) <= x) ts (ovals p) /\
    minv p = fold_right Z.min (all_ones 64) (rev (ovals p)) /\ maxv p = fold_right Z.max 0 (rev (ovals p)).
Proof.
  intros Hlen Hx Hp Hs Hne Hsort Ht.
  assert (zlength s = zlength xs) as El by (unfold zlength; by rewrite Hp).
  assert (Forall (is_word 64) s) as Hw.
  { rewrite Hp. eapply Forall_impl; [|exact Hx]. intros x H%(is_word_weaken 34 64); [done|lia]. }
  exists (hist idx_spec plat_buckets xs).
  destruct (percentile_for_spec s Hs Hw ltac:(lia) plat_buckets 0 ts (mk_perc [] (all_ones 64) 0 false))
    as (p & vs & E & H1 & H2 & H3 & H4 & H5); try done.
  - eapply Forall_impl; [|exact Ht]. intros t [H _].
    rewrite (below_none s _ 0); [lia|done|done|by apply samples_nonneg].
  - eapply Forall_impl; [|exact Ht]. by intros t [_ H].
  - by destruct ts.
  - rewrite (below_none s _ 0) in E by (try done; by apply samples_nonneg).
    exists p. split_and!; try done.
    + change (Z.to_nat FIO_IO_U_PLAT_NR) with plat_buckets. rewrite <- (hist_nil idx_spec).
      apply (add_samples_hist xs []); [by rewrite <- Hp|done].
    + rewrite (hist_perm _ _ xs s) by done. by apply calc_nonempty.
    + rewrite H2. cbn [ovals app]. eapply Forall2_impl; [|exact H3]. intros t v (x & Hxl & Hv). exists x.
      split; [done|]. assert (0 <= x < 2 ^ 34) as Hxr.
      { rewrite <- Hp, List.Forall_forall in Hx. apply Hx, list_elem_of_In. by eapply list_elem_of_lookup_2. }
      destruct (plat_round_trip x Hxr) as (v' & E' & Hb). congruence.
Qed.

Example percentiles_correct_witness :
  let xs := [700; 100000; 130; 5000000] in
  exists plat p, add_samples (replicate (Z.to_nat FIO_IO_U_PLAT_NR) 0) xs = Some plat /\
    calc_clat_percentiles plat [mk_target 1 true; mk_target 2 true; mk_target 4 true] = Some (Some p) /\ is_last p = true /\
    Forall2 (fun t v => exists x, [130; 700; 100000; 5000000] !! Z.to_nat (rank t - 1) = Some x /\ 128 * Z.abs (v - x) <= x)
      [mk_target 1 true; mk_target 2 true; mk_target 4 true] (ovals p) /\
    minv p = fold_right Z.min (all_ones 64) (rev (ovals p)) /\ maxv p = fold_right Z.max 0 (rev (ovals p)).
Proof.
  intros xs. apply (percentiles_correct xs [130; 700; 100000; 5000000]).
  - done.
  - repeat constructor; lia.
  - by apply (bool_decide_unpack _).
  - repeat constructor; lia.
  - done.
  - repeat constructor; cbn; lia.
  - repeat constructor; cbn; try lia; done.
Defined.

(** ** The latency distribution *)

(** The index each of the three arrays counts a latency at, negative when it does not. *)
Definition lat_n_idx (x : Z) : Z := if x <? 1000 then switch_idx lat_cases 0 x else -1.
Definition lat_u_idx (x : Z) : Z :=
  if x <? 1000 then -1 else if x <? 1000000 then switch_idx lat_cases 0 (x / 1000) else -1.
Definition lat_m_idx (x : Z) : Z :=
  if x <? 1000000 then -1 else switch_idx ((1000, 1999, 10) :: lat_cases) 11 (x / 1000000).

Definition lat_hists (xs : list Z) : lat_stat :=
  mk_lat (hist lat_n_idx 10 xs) (hist lat_u_idx 10 xs) (hist lat_m_idx 12 xs).

Ltac switch_cases := repeat match goal with
  | |- context [(?a <=? ?b) && (?b <=? ?c)] => destruct (Z.leb_spec a b), (Z.leb_spec b c); cbn [andb]; try lia
  end.

Lemma lat_cases_range v : 0 <= switch_idx lat_cases 0 v < 10.
Proof. unfold lat_cases, switch_idx. switch_cases. Qed.

Lemma lat_cases_range_m v : 0 <= switch_idx ((1000, 1999, 10) :: lat_cases) 11 v < 12.
Proof. unfold lat_cases, switch_idx. switch_cases. Qed.

(** The bounds of the buckets, in nanoseconds. *)
Definition lat_bounds : list Z := [0; 2; 4; 10; 20; 50; 100; 250; 500; 750; 1000; 2000].

Definition between (unit_ns : Z) (k : nat) (x : Z) : bool :=
  (nth k lat_bounds 0 * unit_ns <=? x) && (x <? nth (S k) lat_bounds (2 ^ 64) * unit_ns).

Lemma lat_cases_between v k : 0 <= v < 1000 -> (k < 10)%nat ->
  (switch_idx lat_cases 0 v =? Z.of_nat k) = between 1 k v.
Proof.
  intros Hv Hk. unfold between.
  do 10 (destruct k as [|k]; [cbn [nth lat_bounds]; unfold lat_cases, switch_idx; switch_cases; zcases; lia|]). lia.
Qed.

Lemma lat_cases_between_m v k : 1 <= v -> v < 2 ^ 64 -> (k < 12)%nat ->
  (switch_idx ((1000, 1999, 10) :: lat_cases) 11 v =? Z.of_nat k) = between 1 k v.
Proof.
  intros Hv Hw Hk. unfold between.
  do 12 (destruct k as [|k]; [cbn [nth lat_bounds]; unfold lat_cases, switch_idx; switch_cases; zcases; lia|]). lia.
Qed.

Lemma between_unit u k x : 0 < u -> between u k x = between 1 k (x / u).
Proof.
  intros Hu. unfold between. generalize (nth k lat_bounds 0) (nth (S k) lat_bounds (2 ^ 64)). intros a b.
  assert (a * u <= x <-> a <= x / u).
  { split; intros; [apply Z.div_le_lower_bound; lia|]. pose proof (Z.mul_div_le x u Hu). nia. }
  assert (x < b * u <-> x / u < b).
  { split; intros; [apply Z.div_lt_upper_bound; lia|].
    pose proof (Z.mul_succ_div_gt x u Hu). nia. }
  zcases; cbn; lia.
Qed.

(** Exactly one of the three indices is an index. *)
Lemma lat_idx_n x : x < 1000 -> lat_n_idx x = switch_idx lat_cases 0 x /\ lat_u_idx x = -1 /\ lat_m_idx x = -1.
Proof. intros. unfold lat_n_idx, lat_u_idx, lat_m_idx. by destruct (Z.ltb_spec x 1000), (Z.ltb_spec x 1000000); try lia. Qed.

Lemma lat_idx_u x : 1000 <= x < 1000000 ->
  lat_n_idx x = -1 /\ lat_u_idx x = switch_idx lat_cases 0 (x / 1000) /\ lat_m_idx x = -1.
Proof. intros. unfold lat_n_idx, lat_u_idx, lat_m_idx. by destruct (Z.ltb_spec x 1000), (Z.ltb_spec x 1000000); try lia. Qed.

Lemma lat_idx_m x : 1000000 <= x -> lat_n_idx x = -1 /\ lat_u_idx x = -1 /\
  lat_m_idx x = switch_idx ((1000, 1999, 10) :: lat_cases) 11 (x / 1000000).
Proof. intros. unfold lat_n_idx, lat_u_idx, lat_m_idx. by destruct (Z.ltb_spec x 1000), (Z.ltb_spec x 1000000); try lia. Qed.

Lemma mark_latency_hists xs x : 0 <= x < 2 ^ 64 -> zlength xs < 2 ^ 64 - 1 ->
  io_u_mark_latency (lat_hists xs) x = Some (lat_hists (xs ++ [x])).
Proof.
  intros Hx Hl. unfold io_u_mark_latency, lat_hists. cbn [io_u_lat_n io_u_lat_u io_u_lat_m].
  unfold io_u_mark_lat_nsec, io_u_mark_lat_usec, io_u_mark_lat_msec, c_assert.
  destruct (Z.ltb_spec x 1000), (Z.ltb_spec x 1000000); try lia.
  - destruct (lat_idx_n x) as (En & Eu & Em); [lia|]. pose proof (lat_cases_range x). cbn [mbind option_bind].
    rewrite <- En in *. destruct (Z.ltb_spec (lat_n_idx x) 10); [|lia]. cbn [mbind option_bind].
    by rewrite bump_hist, (hist_out lat_u_idx), (hist_out lat_m_idx) by lia.
  - destruct (lat_idx_u x) as (En & Eu & Em); [lia|]. pose proof (lat_cases_range (x / 1000)).
    assert (1 <= x / 1000 < 1000) by (split; [apply Z.div_le_lower_bound|apply Z.div_lt_upper_bound]; lia).
    destruct (Z.ltb_spec (x / 1000) 1000), (Z.leb_spec 1 (x / 1000)); try lia. cbn [andb mbind option_bind].
    rewrite <- Eu in *. destruct (Z.ltb_spec (lat_u_idx x) 10); [|lia]. cbn [mbind option_bind].
    by rewrite bump_hist, (hist_out lat_n_idx), (hist_out lat_m_idx) by lia.
  - destruct (lat_idx_m x) as (En & Eu & Em); [lia|]. pose proof (lat_cases_range_m (x / 1000000)).
    assert (1 <= x / 1000000) by (apply Z.div_le_lower_bound; lia).
    destruct (Z.leb_spec 1 (x / 1000000)); [|lia]. cbn [mbind option_bind].
    rewrite <- Em in *. destruct (Z.ltb_spec (lat_m_idx x) 12); [|lia]. cbn [mbind option_bind].
    by rewrite bump_hist, (hist_out lat_n_idx), (hist_out lat_u_idx) by lia.
Qed.

Lemma mark_all_hists xs : forall ys, Forall (fun x => 0 <= x < 2 ^ 64) xs -> zlength ys + zlength xs < 2 ^ 64 ->
  mark_all (lat_hists ys) xs = Some (lat_hists (ys ++ xs)).
Proof.
  induction xs as [|x xs IH]; intros ys Hw Hl; cbn [mark_all]; [by rewrite app_nil_r|].
  inversion_clear Hw. unfold zlength in Hl. cbn [length] in Hl.
  rewrite mark_latency_hists by (try done; unfold zlength; lia). cbn [mbind option_bind].
  rewrite IH; [|done|rewrite zlength_app; unfold zlength; cbn [length]; lia]. by rewrite <- (assoc_L (++)).
Qed.

(** After any run of latencies every counter of the three arrays is the number of
    those latencies that lie within the bounds it stands for - 0, 2, 4, 10, 20, 50, 100,
    250, 500 and 750 units, and for milliseconds also 1000 and 2000 - and no assertion
    fails. *)
Theorem latency_distribution_correct (xs : list Z) :
  Forall (fun x => 0 <= x < 2 ^ 64) xs -> zlength xs < 2 ^ 64 ->
  exists ts, mark_all (mk_lat (replicate 10 0) (replicate 10 0) (replicate 12 0)) xs = Some ts /\
    (forall k, (k < 10)%nat ->
      io_u_lat_n ts !! k = Some (count_if (fun x => (x <? 1000) && between 1 k x) xs)) /\
    (forall k, (k < 10)%nat ->
      io_u_lat_u ts !! k = Some (count_if (fun x => (1000 <=? x) && (x <? 1000000) && between 1000 k x) xs)) /\
    (forall k, (k < 12)%nat ->
      io_u_lat_m ts !! k = Some (count_if (fun x => (1000000 <=? x) && between 1000000 k x) xs)).
Proof.
  intros Hx Hl. exists (lat_hists xs). rewrite List.Forall_forall in Hx.
  split; [|split; [|split]].
  - etransitivity; [|apply (mark_all_hists xs []); [by apply List.Forall_forall|done]].
    unfold lat_hists at 1. by rewrite !hist_nil.
  - intros k Hk. cbn [lat_hists io_u_lat_n]. rewrite hist_lookup, decide_True by done. f_equal.
    apply count_if_ext. intros x Hin%list_elem_of_In. specialize (Hx x Hin). unfold lat_n_idx.
    destruct (Z.ltb_spec x 1000); cbn [andb]; [apply lat_cases_between; lia|]. apply Z.eqb_neq. lia.
  - intros k Hk. cbn [lat_hists io_u_lat_u]. rewrite hist_lookup, decide_True by done. f_equal.
    apply count_if_ext. intros x Hin%list_elem_of_In. specialize (Hx x Hin). unfold lat_u_idx. rewrite between_unit by lia.
    rewrite (Z.leb_antisym x 1000). destruct (Z.ltb_spec x 1000); cbn [negb andb]; [apply Z.eqb_neq; lia|].
    destruct (Z.ltb_spec x 1000000); cbn [andb]; [|apply Z.eqb_neq; lia].
    apply lat_cases_between; [|done]. split; [apply Z.div_le_lower_bound|apply Z.div_lt_upper_bound]; lia.
  - intros k Hk. cbn [lat_hists io_u_lat_m]. rewrite hist_lookup, decide_True by done. f_equal.
    apply count_if_ext. intros x Hin%list_elem_of_In. specialize (Hx x Hin). unfold lat_m_idx. rewrite between_unit by lia.
    rewrite (Z.leb_antisym x 1000000). destruct (Z.ltb_spec x 1000000); cbn [negb andb]; [apply Z.eqb_neq; lia|].
    apply lat_cases_between_m; [apply Z.div_le_lower_bound; lia|apply Z.div_lt_upper_bound; lia|done].
Qed.

Example latency_distribution_correct_witness :
  exists ts, mark_all (mk_lat (replicate 10 0) (replicate 10 0) (replicate 12 0)) [5; 700; 1999; 800000; 3000000; 5000000000] = Some ts /\
    io_u_lat_m ts !! 1%nat = Some 1 /\ io_u_lat_m ts !! 11%nat = Some 1.
Proof.
  destruct (latency_distribution_correct [5; 700; 1999; 800000; 3000000; 5000000000]) as (ts & E & _ & _ & Hm);
    [repeat constructor; lia|done|].
  exists ts. split; [exact E|]. rewrite !Hm by lia. split; vm_compute; reflexivity.
Defined.
