(* ===== verification/Flist.v ===== *)
(** flist.h: the intrusive circular doubly linked lists, as operations on a heap of
    list nodes, refined to lists of addresses. *)
From stdpp Require Import gmap.
From S2P Require Import Prelude.

(** * Nodes and memory *)

Definition NULL : Z := 0.

Record flist_head : Type := mk_flist { next : Z; prev : Z }.

(** The memory holds the list nodes by address; a load from, or a store to, any other
    address is undefined. *)
Definition load_next (h : gmap Z flist_head) (p : Z) : option Z := next <$> h !! p.
Definition load_prev (h : gmap Z flist_head) (p : Z) : option Z := prev <$> h !! p.

Definition store_next (h : gmap Z flist_head) (p v : Z) : option (gmap Z flist_head) :=
  let* n := h !! p in Some (<[p := mk_flist v (prev n)]> h).

Definition store_prev (h : gmap Z flist_head) (p v : Z) : option (gmap Z flist_head) :=
  let* n := h !! p in Some (<[p := mk_flist (next n) v]> h).

(** * Operations *)

Definition INIT_FLIST_HEAD (h : gmap Z flist_head) (ptr : Z) : option (gmap Z flist_head) :=
  let* h := store_next h ptr ptr in store_prev h ptr ptr.

Definition __flist_add (h : gmap Z flist_head) (new_entry prv nxt : Z) : option (gmap Z flist_head) :=
  let* h := store_prev h nxt new_entry in
  let* h := store_next h new_entry nxt in
  let* h := store_prev h new_entry prv in
  store_next h prv new_entry.

Definition flist_add (h : gmap Z flist_head) (new_entry head : Z) : option (gmap Z flist_head) :=
  let* n := load_next h head in __flist_add h new_entry head n.

Definition flist_add_tail (h : gmap Z flist_head) (new_entry head : Z) : option (gmap Z flist_head) :=
  let* p := load_prev h head in __flist_add h new_entry p head.

Definition __flist_del (h : gmap Z flist_head) (prv nxt : Z) : option (gmap Z flist_head) :=
  let* h := store_prev h nxt prv in store_next h prv nxt.

Definition flist_del (h : gmap Z flist_head) (entry : Z) : option (gmap Z flist_head) :=
  let* p := load_prev h entry in
  let* n := load_next h entry in
  let* h := __flist_del h p n in
  let* h := store_next h entry NULL in
  store_prev h entry NULL.

Definition flist_del_init (h : gmap Z flist_head) (entry : Z) : option (gmap Z flist_head) :=
  let* p := load_prev h entry in
  let* n := load_next h entry in
  let* h := __flist_del h p n in
  INIT_FLIST_HEAD h entry.

Definition flist_empty (h : gmap Z flist_head) (head : Z) : option bool :=
  let* n := load_next h head in Some (n =? head).

Definition __flist_splice (h : gmap Z flist_head) (list prv nxt : Z) : option (gmap Z flist_head) :=
  let* first := load_next h list in
  let* last := load_prev h list in
  let* h := store_prev h first prv in
  let* h := store_next h prv first in
  let* h := store_next h last nxt in
  store_prev h nxt last.

Definition flist_splice (h : gmap Z flist_head) (list head : Z) : option (gmap Z flist_head) :=
  let* e := flist_empty h list in
  if (e : bool) then Some h else let* n := load_next h head in __flist_splice h list head n.

Definition flist_splice_tail (h : gmap Z flist_head) (list head : Z) : option (gmap Z flist_head) :=
  let* e := flist_empty h list in
  if (e : bool) then Some h else let* p := load_prev h head in __flist_splice h list p head.

Definition flist_splice_tail_init (h : gmap Z flist_head) (list head : Z) : option (gmap Z flist_head) :=
  let* e := flist_empty h list in
  if (e : bool) then Some h else
  let* p := load_prev h head in let* h := __flist_splice h list p head in INIT_FLIST_HEAD h list.

Definition flist_splice_init (h : gmap Z flist_head) (list head : Z) : option (gmap Z flist_head) :=
  let* e := flist_empty h list in
  if (e : bool) then Some h else
  let* n := load_next h head in let* h := __flist_splice h list head n in INIT_FLIST_HEAD h list.

(** [flist_for_each]: the entries visited from [pos] on; [fuel] bounds their number. *)
Fixpoint flist_for_each (fuel : nat) (h : gmap Z flist_head) (pos head : Z) : option (list Z) :=
  match fuel with
  | O => None
  | S fuel =>
      if pos =? head then Some [] else
      let* n := load_next h pos in
      let* l := flist_for_each fuel h n head in Some (pos :: l)
  end.

(** * Proofs *)

(** The nodes of [l] are linked both ways, each to the following one. *)
Fixpoint links (h : gmap Z flist_head) (l : list Z) : Prop :=
  match l with
  | a :: (b :: _) as t => load_next h a = Some b /\ load_prev h b = Some a /\ links h t
  | _ => True
  end.

(** A cycle of distinct nodes, linked around. *)
Definition cycle (h : gmap Z flist_head) (c : list Z) : Prop :=
  base.NoDup c /\ match c with [] => False | a :: _ => links h (c ++ [a]) end.

(** The list [l] of entries on the list head [hd]. *)
Definition flist (h : gmap Z flist_head) (hd : Z) (l : list Z) : Prop := cycle h (hd :: l).

Lemma links_app h l x k : links h (l ++ x :: k) <-> links h (l ++ [x]) /\ links h (x :: k).
Proof.
  induction l as [|a l IH]; [cbn; tauto|]. destruct l as [|b l]; cbn [app links] in *; [tauto|].
  cbn [app] in IH. tauto.
Qed.

(** A cycle may be entered anywhere. *)
Lemma cycle_rotate h l k : cycle h (l ++ k) -> cycle h (k ++ l).
Proof.
  destruct l as [|a l], k as [|b k]; rewrite ?app_nil_r; try done. intros [Hn Hl]. split.
  - by rewrite (Permutation_app_comm (b :: k)).
  - cbn [app] in *. rewrite <- app_assoc in *. cbn [app] in *.
    rewrite (app_comm_cons l), links_app in Hl. destruct Hl as [H1 H2].
    rewrite app_comm_cons, links_app. split; [done|]. exact H1.
Qed.

(** ** Effect of the stores *)

Definition allocated (h : gmap Z flist_head) (p : Z) : Prop := is_Some (h !! p).

Lemma load_next_allocated h p x : load_next h p = Some x -> allocated h p.
Proof. unfold load_next, allocated. destruct (h !! p); [by eexists|done]. Qed.

Lemma load_prev_allocated h p x : load_prev h p = Some x -> allocated h p.
Proof. unfold load_prev, allocated. destruct (h !! p); [by eexists|done]. Qed.

#[local] Hint Resolve load_next_allocated load_prev_allocated : core.

(** [h'] is [h] after the fields of some nodes were overwritten: [fn] and [fp] give the
    new contents, in terms of the old. *)
Record updated (h h' : gmap Z flist_head) (fn fp : Z -> option Z) : Prop := mk_updated {
  upd_next : forall q, load_next h' q = fn q;
  upd_prev : forall q, load_prev h' q = fp q;
  upd_alloc : forall q, allocated h' q <-> allocated h q }.

Lemma updated_refl h : updated h h (load_next h) (load_prev h).
Proof. by split. Qed.

Lemma store_next_updated h0 h fn fp p v : updated h0 h fn fp -> allocated h0 p ->
  exists h', store_next h p v = Some h' /\ updated h0 h' (fun q => if decide (q = p) then Some v else fn q) fp.
Proof.
  intros [Hn Hp Ha] Hal. apply Ha in Hal as [n Hn']. unfold store_next. rewrite Hn'. eexists. split; [done|].
  split; intros q.
  - unfold load_next. case_decide; [subst; by rewrite lookup_insert_eq|]. rewrite lookup_insert_ne by done. apply Hn.
  - rewrite <- Hp. unfold load_prev. destruct (decide (q = p)) as [->|].
    + by rewrite lookup_insert_eq, Hn'.
    + by rewrite lookup_insert_ne.
  - rewrite <- Ha. unfold allocated. destruct (decide (q = p)) as [->|].
    + rewrite lookup_insert_eq, Hn'. split; by eexists.
    + by rewrite lookup_insert_ne.
Qed.

Lemma store_prev_updated h0 h fn fp p v : updated h0 h fn fp -> allocated h0 p ->
  exists h', store_prev h p v = Some h' /\ updated h0 h' fn (fun q => if decide (q = p) then Some v else fp q).
Proof.
  intros [Hn Hp Ha] Hal. apply Ha in Hal as [n Hn']. unfold store_prev. rewrite Hn'. eexists. split; [done|].
  split; intros q.
  - rewrite <- Hn. unfold load_next. destruct (decide (q = p)) as [->|].
    + by rewrite lookup_insert_eq, Hn'.
    + by rewrite lookup_insert_ne.
  - unfold load_prev. case_decide; [subst; by rewrite lookup_insert_eq|]. rewrite lookup_insert_ne by done. apply Hp.
  - rewrite <- Ha. unfold allocated. destruct (decide (q = p)) as [->|].
    + rewrite lookup_insert_eq, Hn'. split; by eexists.
    + by rewrite lookup_insert_ne.
Qed.

(** Run the next store of the goal. *)
Ltac store_step U :=
  let h := fresh "h" in let U' := fresh "U" in
  let h1 := lazymatch type of U with updated _ ?h1 _ _ => h1 end in
  lazymatch goal with
  | |- context [store_next h1 ?p ?v] => destruct (store_next_updated _ _ _ _ p v U ltac:(eauto)) as (h & -> & U')
  | |- context [store_prev h1 ?p ?v] => destruct (store_prev_updated _ _ _ _ p v U ltac:(eauto)) as (h & -> & U')
  end; cbn [mbind option_bind]; clear U; rename U' into U.

(** The same nodes everywhere outside [S]. *)
Definition unchanged_but (S : list Z) (h h' : gmap Z flist_head) : Prop := forall q, q ∉ S -> h' !! q = h !! q.

Lemma lookup_eq h h' q : load_next h' q = load_next h q -> load_prev h' q = load_prev h q -> h' !! q = h !! q.
Proof.
  unfold load_next, load_prev. destruct (h !! q) as [[]|], (h' !! q) as [[]|]; cbn; congruence.
Qed.

(** Links survive changes of the [next] of the last node and the [prev] of the first. *)
Lemma links_frame h h' a l : links h (a :: l) ->
  (forall q, q ∈ removelast (a :: l) -> load_next h' q = load_next h q) ->
  (forall q, q ∈ l -> load_prev h' q = load_prev h q) -> links h' (a :: l).
Proof.
  revert a. induction l as [|b l IH]; intros a Hl Hn Hp; [done|]. destruct Hl as (H1 & H2 & H3).
  cbn [links]. rewrite Hn, Hp; [|apply list_elem_of_here|apply list_elem_of_here]. split; [done|]. split; [done|].
  apply IH; [done| |].
  - intros q Hq. apply Hn. by apply list_elem_of_further.
  - intros q Hq. apply Hp. by apply list_elem_of_further.
Qed.

Lemma links_allocated h l : (2 <= length l)%nat -> links h l -> forall q, q ∈ l -> allocated h q.
Proof.
  induction l as [|a l IH]; intros Hlen Hl q Hq; [cbn in Hlen; lia|].
  destruct l as [|b l]; [cbn in Hlen; lia|]. destruct Hl as (H1 & H2 & H3).
  apply elem_of_cons in Hq as [->|Hq]; [by eapply load_next_allocated|].
  destruct l as [|c l].
  - apply list_elem_of_singleton in Hq as ->. by eapply load_prev_allocated.
  - apply IH; [cbn; lia|done|done].
Qed.

Lemma cycle_allocated h c q : cycle h c -> q ∈ c -> allocated h q.
Proof.
  intros [_ Hl] Hq. destruct c as [|a c]; [done|]. eapply links_allocated; [|exact Hl|].
  - rewrite length_app. cbn. lia.
  - apply elem_of_app. by left.
Qed.

(** The last node of a cycle points to its first. *)
Lemma cycle_ends h n t u p : cycle h (n :: t) -> n :: t = u ++ [p] ->
  load_next h p = Some n /\ load_prev h n = Some p.
Proof.
  intros [_ Hl] E. rewrite E, <- app_assoc in Hl. cbn [app] in Hl. apply links_app in Hl as [_ Hl].
  destruct Hl as (H1 & H2 & _). done.
Qed.

Lemma cycle_intro h n t u p : base.NoDup (n :: t) -> n :: t = u ++ [p] -> links h (n :: t) ->
  load_next h p = Some n -> load_prev h n = Some p -> cycle h (n :: t).
Proof.
  intros Hn E Hl H1 H2. split; [done|]. rewrite E, <- app_assoc. cbn [app]. apply links_app. rewrite <- E.
  by repeat split.
Qed.

Lemma cycle_links h n t : cycle h (n :: t) -> links h (n :: t).
Proof.
  intros [_ Hl]. destruct (exists_last (l := n :: t)) as (u & p & E); [done|]. rewrite E in *.
  rewrite <- app_assoc in Hl. cbn [app] in Hl. by apply links_app in Hl as [Hl _].
Qed.

Lemma not_last u (p q : Z) : base.NoDup (u ++ [p]) -> q ∈ removelast (u ++ [p]) -> q <> p /\ q ∈ u.
Proof.
  rewrite removelast_last. intros (_ & H & _)%list.NoDup_app Hq. split; [|done].
  intros ->. apply (H p Hq). by apply list_elem_of_singleton.
Qed.

(** Writes to other fields of the cycle leave its inner links. *)
Lemma links_updated h h' fn fp n t u p : updated h h' fn fp -> cycle h (n :: t) -> n :: t = u ++ [p] ->
  (forall q, q ∈ n :: t -> q <> p -> fn q = load_next h q) ->
  (forall q, q ∈ n :: t -> q <> n -> fp q = load_prev h q) -> links h' (n :: t).
Proof.
  intros [Un Up _] Hc E Hn Hp. pose proof (proj1 Hc) as Hnd. apply (links_frame h); [by apply cycle_links| |].
  - intros q Hq. rewrite Un. rewrite E in Hnd, Hq. apply not_last in Hq as [Hq1 Hq2]; [|done].
    apply Hn; [|done]. rewrite E. apply elem_of_app. by left.
  - intros q Hq. rewrite Up. apply Hp; [by apply list_elem_of_further|]. intros ->. by apply list.NoDup_cons in Hnd as [? _].
Qed.

Ltac decides := repeat (case_decide; subst; try done; try congruence).

Lemma updated_unchanged h h' fn fp S : updated h h' fn fp ->
  (forall q, q ∉ S -> fn q = load_next h q) -> (forall q, q ∉ S -> fp q = load_prev h q) -> unchanged_but S h h'.
Proof. intros [Un Up _] Hn Hp q Hq. apply lookup_eq; [rewrite Un; by apply Hn|rewrite Up; by apply Hp]. Qed.

(** ** The operations between two neighbours *)

Lemma flist_add_between h n t u p new : cycle h (n :: t) -> n :: t = u ++ [p] -> new ∉ n :: t -> allocated h new ->
  exists h', __flist_add h new p n = Some h' /\ cycle h' (new :: n :: t) /\ unchanged_but (new :: n :: t) h h'.
Proof.
  intros Hc E Hnew Hal. assert (p ∈ n :: t) as Hp by (rewrite E; apply elem_of_app; right; by left).
  assert (n ∈ n :: t) as Hn by by left. assert (new <> p /\ new <> n) as [Hnp Hnn] by (split; by intros ->).
  assert (allocated h n /\ allocated h p) as [An Ap] by (split; by eapply cycle_allocated). unfold __flist_add.
  pose proof (updated_refl h) as U. do 4 store_step U. eexists. split; [done|]. split.
  - assert (links _ (n :: t)) as Hl by (eapply (links_updated h _ _ _ n t u p U Hc E); intros q ??; decides).
    apply (cycle_intro _ new (n :: t) (new :: u) p); [apply list.NoDup_cons; split; [done|apply Hc]|by rewrite E| | |].
    + cbn [links]. rewrite (upd_next _ _ _ _ U), (upd_prev _ _ _ _ U). decides.
    + rewrite (upd_next _ _ _ _ U). decides.
    + rewrite (upd_prev _ _ _ _ U). decides.
  - apply (updated_unchanged _ _ _ _ _ U); intros q [Hq1 Hq2]%not_elem_of_cons; decides.
Qed.

(** Taking the first node out of a cycle; it keeps its own pointers. *)
Lemma flist_del_first h e n t u p : cycle h (e :: n :: t) -> n :: t = u ++ [p] ->
  load_next h e = Some n /\ load_prev h e = Some p /\
  exists h', __flist_del h p n = Some h' /\ cycle h' (n :: t) /\ unchanged_but (n :: t) h h'.
Proof.
  intros Hc E. destruct (cycle_ends h e (n :: t) (e :: u) p Hc ltac:(by rewrite E)) as [E1 E2].
  pose proof (cycle_links _ _ _ Hc) as (E3 & E4 & Hl). split; [done|]. split; [done|].
  destruct (proj1 (list.NoDup_cons _ _) (proj1 Hc)) as [He Hnd].
  assert (p ∈ n :: t) as Hp by (rewrite E; apply elem_of_app; right; by left). assert (n ∈ n :: t) as Hn by by left.
  assert (allocated h n /\ allocated h p) as [An Ap] by (split; eapply cycle_allocated; [done|by right|done|by right]).
  unfold __flist_del. pose proof (updated_refl h) as U. do 2 store_step U. eexists. split; [done|]. split.
  - apply (cycle_intro _ n t u p Hnd E).
    + apply (links_frame h); [done| |].
      * intros q Hq. rewrite (upd_next _ _ _ _ U). rewrite E in Hnd, Hq. apply not_last in Hq as [Hq1 Hq2]; [|done]. decides.
      * intros q Hq. rewrite (upd_prev _ _ _ _ U). case_decide; [subst|done]. by apply list.NoDup_cons in Hnd as [? _].
    + rewrite (upd_next _ _ _ _ U). decides.
    + rewrite (upd_prev _ _ _ _ U). decides.
  - apply (updated_unchanged _ _ _ _ _ U); intros q Hq; decides.
Qed.

(** The entries of one cycle, without their head [s], put before [n] in another. *)
Lemma flist_splice_between h s f g w r n t u p : cycle h (s :: f :: g) -> f :: g = w ++ [r] ->
  cycle h (n :: t) -> n :: t = u ++ [p] -> (forall q, q ∈ s :: f :: g -> q ∉ n :: t) ->
  exists h', __flist_splice h s p n = Some h' /\ cycle h' ((f :: g) ++ n :: t) /\
    unchanged_but ((f :: g) ++ n :: t) h h'.
Proof.
  intros Hs Er Hc E Hd. destruct (cycle_ends h s (f :: g) (s :: w) r Hs ltac:(by rewrite Er)) as [E1 E2].
  pose proof (cycle_links _ _ _ Hs) as (E3 & E4 & Hl). pose proof (cycle_links _ _ _ Hc) as Hk.
  destruct (proj1 (list.NoDup_cons _ _) (proj1 Hs)) as [He Hnd]. pose proof (proj1 Hc) as Hnc.
  assert (p ∈ n :: t) as Hp by (rewrite E; apply elem_of_app; right; by left). assert (n ∈ n :: t) as Hn by by left.
  assert (r ∈ f :: g) as Hr by (rewrite Er; apply elem_of_app; right; by left). assert (f ∈ f :: g) as Hf by by left.
  assert (allocated h n /\ allocated h p) as [An Ap] by (split; by eapply cycle_allocated).
  assert (allocated h f /\ allocated h r) as [Af Ar] by (split; eapply cycle_allocated; [exact Hs|by right|exact Hs|by right]).
  assert (forall a b, a ∈ f :: g -> b ∈ n :: t -> a <> b) as Hne.
  { intros a b Ha Hb ->. apply (Hd b); [by right|done]. }
  pose proof (Hne r p Hr Hp) as Hrp. pose proof (Hne f n Hf Hn) as Hfn.
  unfold __flist_splice. rewrite E2, E3. cbn [mbind option_bind].
  pose proof (updated_refl h) as U. do 4 store_step U. eexists. split; [done|]. split.
  - apply (cycle_intro _ f (g ++ n :: t) ((f :: g) ++ u) p).
    + change (base.NoDup ((f :: g) ++ n :: t)). apply list.NoDup_app. split; [done|]. split; [|done].
      intros a Ha Hb. by apply (Hne a a).
    + change (f :: g ++ n :: t) with ((f :: g) ++ n :: t). by rewrite E, app_assoc.
    + change (links _ (f :: g ++ n :: t)) with (links h3 ((f :: g) ++ n :: t)). rewrite Er, <- app_assoc. cbn [app].
      rewrite links_app. rewrite <- Er. cbn [links]. split.
      * apply (links_frame h); [done| |].
        -- intros q Hq. rewrite (upd_next _ _ _ _ U). rewrite Er in Hnd, Hq. apply not_last in Hq as [Hq1 Hq2]; [|done].
           assert (q <> p) by (apply Hne; [rewrite Er; apply elem_of_app; by left|done]). decides.
        -- intros q Hq. rewrite (upd_prev _ _ _ _ U). assert (q <> n) by (apply Hne; [by right|done]).
           case_decide; [done|]. case_decide; [subst|done]. by apply list.NoDup_cons in Hnd as [? _].
      * rewrite (upd_next _ _ _ _ U), (upd_prev _ _ _ _ U). split; [decides|]. split; [decides|].
        apply (links_updated h _ _ _ n t u p U Hc E); intros q Hq Hq'.
        -- assert (r <> q) by by apply Hne. decides.
        -- assert (f <> q) by by apply Hne. decides.
    + rewrite (upd_next _ _ _ _ U). decides.
    + rewrite (upd_prev _ _ _ _ U). decides.
  - apply (updated_unchanged _ _ _ _ _ U); intros q [Hq1 Hq2]%not_elem_of_app; decides.
Qed.

(** ** The operations on whole lists *)

(** Membership in concatenations, propositionally. *)
Ltac elems := repeat (rewrite ?elem_of_app, ?elem_of_cons, ?elem_of_nil in * ); tauto.

Lemma cycle_unchanged S h h' c : cycle h c -> unchanged_but S h h' -> (forall q, q ∈ c -> q ∉ S) -> cycle h' c.
Proof.
  intros [Hn Hl] Hu Hd. split; [done|]. destruct c as [|a c]; [done|]. cbn [app] in *.
  assert (forall q, q ∈ a :: c ++ [a] -> h' !! q = h !! q) as Hq.
  { intros q Hq. apply Hu, Hd. rewrite !elem_of_cons, elem_of_app, list_elem_of_singleton in Hq. apply elem_of_cons. tauto. }
  apply (links_frame h); [done| |].
  - intros q Hin. unfold load_next. rewrite Hq; [done|]. apply list_elem_of_In. apply list_elem_of_In in Hin.
    rewrite app_comm_cons, removelast_last in Hin. rewrite app_comm_cons. apply in_or_app. by left.
  - intros q Hin. unfold load_prev. rewrite Hq; [done|]. by right.
Qed.

Lemma unchanged_trans S h h' h'' : unchanged_but S h h' -> unchanged_but S h' h'' -> unchanged_but S h h''.
Proof. intros H1 H2 q Hq. rewrite H2, H1; done. Qed.

Lemma unchanged_weaken S T h h' : unchanged_but S h h' -> (forall q, q ∈ S -> q ∈ T) -> unchanged_but T h h'.
Proof. intros H Hs q Hq. apply H. intros Hin. by apply Hq, Hs. Qed.

Lemma init_list h hd : allocated h hd ->
  exists h', INIT_FLIST_HEAD h hd = Some h' /\ flist h' hd [] /\ unchanged_but [hd] h h'.
Proof.
  intros Ha. unfold INIT_FLIST_HEAD. pose proof (updated_refl h) as U. do 2 store_step U.
  eexists. split; [done|]. split.
  - apply (cycle_intro _ hd [] [] hd); [apply list.NoDup_singleton|done|done| |];
      rewrite ?(upd_next _ _ _ _ U), ?(upd_prev _ _ _ _ U); decides.
  - apply (updated_unchanged _ _ _ _ _ U); intros q Hq%not_elem_of_cons; destruct Hq; decides.
Qed.

(** The entry after the head, or the head again. *)
Lemma flist_next h hd l : flist h hd l -> exists n t, l ++ [hd] = n :: t /\ load_next h hd = Some n.
Proof.
  intros Hc. destruct l as [|x l].
  - destruct (cycle_ends h hd [] [] hd Hc eq_refl). by exists hd, [].
  - destruct (cycle_links _ _ _ Hc) as (E & _). by exists x, (l ++ [hd]).
Qed.

Lemma flist_prev h hd l : flist h hd l -> exists u p, hd :: l = u ++ [p] /\ load_prev h hd = Some p.
Proof.
  intros Hc. destruct (exists_last (l := hd :: l)) as (u & p & E); [done|]. exists u, p. split; [done|].
  by destruct (cycle_ends h hd l u p Hc E).
Qed.

Lemma flist_add_list h hd l new : flist h hd l -> new ∉ hd :: l -> allocated h new ->
  exists h', flist_add h new hd = Some h' /\ flist h' hd (new :: l) /\ unchanged_but (new :: hd :: l) h h'.
Proof.
  intros Hc Hnew Hal. destruct (flist_next h hd l Hc) as (n & t & E & En). unfold flist_add. rewrite En.
  apply (cycle_rotate h [hd] l) in Hc. rewrite E in Hc.
  destruct (flist_add_between h n t l hd new Hc (eq_sym E)) as (h' & E' & Hc' & Hu); [|done|].
  - rewrite <- E, elem_of_app. rewrite elem_of_cons in Hnew. intros [?|?%list_elem_of_singleton]; tauto.
  - exists h'. split; [done|]. rewrite <- E in *. split.
    + apply (cycle_rotate h' (new :: l) [hd] Hc').
    + eapply unchanged_weaken; [done|]. intros q. elems.
Qed.

Lemma flist_add_tail_list h hd l new : flist h hd l -> new ∉ hd :: l -> allocated h new ->
  exists h', flist_add_tail h new hd = Some h' /\ flist h' hd (l ++ [new]) /\ unchanged_but (new :: hd :: l) h h'.
Proof.
  intros Hc Hnew Hal. destruct (flist_prev h hd l Hc) as (u & p & E & Ep). unfold flist_add_tail. rewrite Ep.
  destruct (flist_add_between h hd l u p new Hc E Hnew Hal) as (h' & E' & Hc' & Hu).
  exists h'. split; [done|]. split; [|done]. apply (cycle_rotate h' [new] (hd :: l) Hc').
Qed.

(** The entry taken out by either deletion, before its own fields are set. *)
Lemma flist_del_list h hd l1 e l2 : flist h hd (l1 ++ e :: l2) ->
  exists p n h', load_prev h e = Some p /\ load_next h e = Some n /\ __flist_del h p n = Some h' /\
    flist h' hd (l1 ++ l2) /\ unchanged_but (hd :: l1 ++ l2) h h' /\ allocated h' e /\ e ∉ hd :: l1 ++ l2.
Proof.
  intros Hc. apply (cycle_rotate h (hd :: l1) (e :: l2)) in Hc. cbn [app] in Hc.
  destruct (l2 ++ hd :: l1) as [|n t] eqn:En; [by destruct l2|].
  destruct (exists_last (l := n :: t)) as (u & p & E); [done|].
  destruct (flist_del_first h e n t u p Hc E) as (E1 & E2 & h' & E' & Hc' & Hu).
  exists p, n, h'. rewrite <- En in *. split; [done|]. split; [done|]. split; [done|].
  assert (e ∉ hd :: l1 ++ l2) as He.
  { destruct Hc as [[He _]%list.NoDup_cons _]. rewrite elem_of_app, !elem_of_cons in *. rewrite elem_of_app. tauto. }
  split; [|split; [|split; [|done]]].
  - apply (cycle_rotate h' l2 (hd :: l1) Hc').
  - eapply unchanged_weaken; [done|]. intros q. elems.
  - unfold allocated. rewrite Hu; [|rewrite elem_of_app, !elem_of_cons in *; rewrite elem_of_app in He; tauto].
    eapply cycle_allocated; [done|by left].
Qed.

Lemma flist_empty_list h hd l : flist h hd l -> flist_empty h hd = Some (match l with [] => true | _ => false end).
Proof.
  intros Hc. destruct (flist_next h hd l Hc) as (n & t & E & En). unfold flist_empty. rewrite En. cbn [mbind option_bind].
  destruct l as [|x l]; cbn in E; injection E as -> _; [by rewrite Z.eqb_refl|].
  destruct (Z.eqb_spec n hd) as [->|]; [|done]. destruct Hc as [[Hin _]%list.NoDup_cons _]. destruct Hin. by left.
Qed.

Lemma flist_for_each_list h hd l2 : forall l1 fuel, flist h hd (l1 ++ l2) -> (length l2 < fuel)%nat ->
  flist_for_each fuel h (match l2 with [] => hd | x :: _ => x end) hd = Some l2.
Proof.
  induction l2 as [|x l2 IH]; intros l1 fuel Hc Hf; (destruct fuel as [|fuel]; [cbn in Hf; lia|]); cbn [flist_for_each].
  - by rewrite Z.eqb_refl.
  - destruct (Z.eqb_spec x hd) as [->|Hne].
    { destruct Hc as [[Hin _]%list.NoDup_cons _]. destruct Hin. apply elem_of_app. right. by left. }
    assert (load_next h x = Some (match l2 with [] => hd | y :: _ => y end)) as ->.
    { apply (cycle_rotate h (hd :: l1) (x :: l2)) in Hc. cbn [app] in Hc. pose proof (cycle_links _ _ _ Hc) as Hl.
      destruct l2 as [|y l2]; by destruct Hl. }
    cbn [mbind option_bind]. rewrite (IH (l1 ++ [x])); [done| |cbn in Hf; lia]. by rewrite <- app_assoc.
Qed.

(** Two lists without a common node. *)
Definition apart (c k : list Z) : Prop := forall q, q ∈ c -> q ∉ k.

Lemma flist_splice_list h s hd ls l : flist h s ls -> flist h hd l -> apart (s :: ls) (hd :: l) -> ls <> [] ->
  (exists n h', load_next h hd = Some n /\ __flist_splice h s hd n = Some h' /\ flist h' hd (ls ++ l) /\
     unchanged_but (hd :: ls ++ l) h h') /\
  (exists p h', load_prev h hd = Some p /\ __flist_splice h s p hd = Some h' /\ flist h' hd (l ++ ls) /\
     unchanged_but (hd :: ls ++ l) h h').
Proof.
  intros Hs Hc Hd Hne. destruct ls as [|f g]; [done|]. destruct (exists_last (l := f :: g)) as (w & r & Er); [done|].
  split.
  - destruct (flist_next h hd l Hc) as (n & t & E & En). exists n.
    apply (cycle_rotate h [hd] l) in Hc. rewrite E in Hc.
    destruct (flist_splice_between h s f g w r n t l hd Hs Er Hc (eq_sym E)) as (h' & E' & Hc' & Hu).
    { intros q Hq Hin. apply (Hd q Hq). rewrite <- E in Hin. elems. }
    exists h'. split; [done|]. split; [done|]. rewrite <- E in *. split.
    + rewrite app_assoc in Hc'. apply (cycle_rotate h' ((f :: g) ++ l) [hd] Hc').
    + eapply unchanged_weaken; [done|]. intros q. elems.
  - destruct (flist_prev h hd l Hc) as (u & p & E & Ep). exists p.
    destruct (flist_splice_between h s f g w r hd l u p Hs Er Hc E Hd) as (h' & E' & Hc' & Hu).
    exists h'. split; [done|]. split; [done|]. split; [apply (cycle_rotate h' (f :: g) (hd :: l) Hc')|].
    eapply unchanged_weaken; [done|]. intros q. elems.
Qed.

(** Emptying the list that was spliced, which is apart from the other. *)
Lemma init_apart h h' S s hd l : flist h' hd l -> unchanged_but S h h' -> s ∉ S -> s ∉ hd :: l -> allocated h s ->
  exists h'', INIT_FLIST_HEAD h' s = Some h'' /\ flist h'' hd l /\ flist h'' s [] /\ unchanged_but (s :: S) h h''.
Proof.
  intros Hc Hu HS Hs Ha. destruct (init_list h' s) as (h'' & E & Hc' & Hu').
  { unfold allocated. by rewrite Hu. }
  exists h''. split; [done|]. split; [|split; [done|]].
  - eapply cycle_unchanged; [done|done|]. intros q Hq Hin%list_elem_of_singleton. by subst.
  - apply (unchanged_trans _ h h').
    + eapply unchanged_weaken; [done|]. intros q Hq. by right.
    + eapply unchanged_weaken; [done|]. intros q Hq%list_elem_of_singleton. subst. by left.
Qed.

Lemma flist_dels h hd l1 e l2 : flist h hd (l1 ++ e :: l2) ->
  (exists h', flist_del h e = Some h' /\ flist h' hd (l1 ++ l2) /\ unchanged_but (hd :: l1 ++ e :: l2) h h' /\
     h' !! e = Some (mk_flist NULL NULL)) /\
  (exists h', flist_del_init h e = Some h' /\ flist h' hd (l1 ++ l2) /\ unchanged_but (hd :: l1 ++ e :: l2) h h' /\
     flist h' e []).
Proof.
  intros Hc. destruct (flist_del_list h hd l1 e l2 Hc) as (p & n & h1 & E1 & E2 & E3 & Hc1 & Hu1 & Ha & He).
  unfold flist_del, flist_del_init. rewrite E1, E2. cbn [mbind option_bind]. rewrite E3. cbn [mbind option_bind].
  assert (forall h', unchanged_but [e] h1 h' -> flist h' hd (l1 ++ l2) /\ unchanged_but (hd :: l1 ++ e :: l2) h h') as Hfin.
  { intros h' Hu. split; [eapply cycle_unchanged; [done|done|by intros q Hq ->%list_elem_of_singleton]|].
    apply (unchanged_trans _ h h1); (eapply unchanged_weaken; [done|]); intros q; elems. }
  split.
  + pose proof (updated_refl h1) as U. do 2 store_step U. eexists. split; [done|].
    edestruct Hfin as [F1 F2]; [|split; [exact F1|split; [exact F2|]]].
    * apply (updated_unchanged _ _ _ _ _ U); intros q Hq%not_elem_of_cons; destruct Hq; decides.
    * pose proof (upd_next _ _ _ _ U e) as Un. pose proof (upd_prev _ _ _ _ U e) as Up. cbv beta in Un, Up.
      rewrite decide_True in Un, Up by done. unfold load_next, load_prev in Un, Up.
      destruct (_ !! e) as [[]|]; cbn in *; congruence.
  + destruct (init_list h1 e Ha) as (h2 & -> & Hc2 & Hu2). exists h2. destruct (Hfin h2 Hu2) as [F1 F2].
    exact (conj eq_refl (conj F1 (conj F2 Hc2))).
Qed.

Lemma flist_splices h hd l s ls : flist h hd l -> flist h s ls -> apart (s :: ls) (hd :: l) ->
  (exists h', flist_splice_init h s hd = Some h' /\ flist h' hd (ls ++ l) /\ flist h' s [] /\
     unchanged_but (s :: hd :: ls ++ l) h h') /\
  (exists h', flist_splice_tail_init h s hd = Some h' /\ flist h' hd (l ++ ls) /\ flist h' s [] /\
     unchanged_but (s :: hd :: ls ++ l) h h').
Proof.
  intros Hc Hs Hd. unfold flist_splice_init, flist_splice_tail_init. rewrite (flist_empty_list h s ls Hs). cbn [mbind option_bind].
  destruct ls as [|f g] eqn:El.
  { rewrite app_nil_r. split; exists h; (split; [done|]; split; [done|]; split; [done|]; by intros q Hq). }
  rewrite <- El in *. assert (ls <> []) as Hne by by subst. clear f g El.
  assert (allocated h s) as Has by (eapply cycle_allocated; [exact Hs|by left]).
  assert (s ∉ hd :: ls ++ l) as Hsn.
  { destruct Hs as [[Hs _]%list.NoDup_cons _]. specialize (Hd s ltac:(by left)). elems. }
  assert (s ∉ hd :: l ++ ls) as Hsn' by elems.
  destruct (flist_splice_list h s hd ls l Hs Hc Hd Hne) as [(n & h1 & -> & E1 & Hc1 & Hu1) (p & h2 & -> & E2 & Hc2 & Hu2)].
  cbn [mbind option_bind]. rewrite E1, E2. cbn [mbind option_bind].
  split; eapply init_apart; done.
Qed.

(** C21: The intrusive lists are lists: on any memory in which the heads and entries are
    linked up, initialising, adding at either end, deleting, both ways of splicing and
    the traversal do what they say to the list of entries, store to no other node than
    those of the lists concerned and dereference no stray pointer. *)
Theorem flist_refines_lists h hd l : flist h hd l ->
  flist_empty h hd = Some (bool_decide (l = [])) /\
  (exists n, load_next h hd = Some n /\ flist_for_each (S (length l)) h n hd = Some l) /\
  (forall new, new ∉ hd :: l -> allocated h new ->
     (exists h', flist_add h new hd = Some h' /\ flist h' hd (new :: l) /\ unchanged_but (new :: hd :: l) h h') /\
     (exists h', flist_add_tail h new hd = Some h' /\ flist h' hd (l ++ [new]) /\ unchanged_but (new :: hd :: l) h h')) /\
  (forall l1 e l2, l = l1 ++ e :: l2 ->
     (exists h', flist_del h e = Some h' /\ flist h' hd (l1 ++ l2) /\ unchanged_but (hd :: l) h h' /\
        h' !! e = Some (mk_flist NULL NULL)) /\
     (exists h', flist_del_init h e = Some h' /\ flist h' hd (l1 ++ l2) /\ unchanged_but (hd :: l) h h' /\ flist h' e [])) /\
  (forall s ls, flist h s ls -> apart (s :: ls) (hd :: l) ->
     (exists h', flist_splice_init h s hd = Some h' /\ flist h' hd (ls ++ l) /\ flist h' s [] /\
        unchanged_but (s :: hd :: ls ++ l) h h') /\
     (exists h', flist_splice_tail_init h s hd = Some h' /\ flist h' hd (l ++ ls) /\ flist h' s [] /\
        unchanged_but (s :: hd :: ls ++ l) h h')).
Proof.
  intros Hc. split; [|split; [|split; [|split]]].
  - rewrite (flist_empty_list h hd l Hc). by destruct l.
  - pose proof (flist_for_each_list h hd l [] (S (length l)) Hc ltac:(lia)) as E.
    destruct (flist_next h hd l Hc) as (n & t & En & ->). exists n. split; [done|].
    destruct l; cbn in En; by injection En as -> _.
  - intros new Hnew Ha. split; [by apply flist_add_list|by apply flist_add_tail_list].
  - intros l1 e l2 ->. by apply flist_dels.
  - intros s ls Hs Hd. by apply flist_splices.
Qed.

Definition two_entries : gmap Z flist_head :=
  {[ 1 := mk_flist 2 3; 2 := mk_flist 3 1; 3 := mk_flist 1 2; 4 := mk_flist 0 0 ]}.

Example flist_refines_lists_witness :
  flist two_entries 1 [2; 3] /\
  (exists h', flist_add_tail two_entries 4 1 = Some h' /\ flist h' 1 [2; 3; 4]).
Proof.
  assert (flist two_entries 1 [2; 3]) as H.
  { split; [by apply (bool_decide_unpack _)|]. vm_compute. repeat split. }
  split; [exact H|]. destruct (flist_refines_lists two_entries 1 [2; 3] H) as (_ & _ & Hadd & _).
  destruct (Hadd 4) as [_ (h' & E & Hf & _)]; [by apply (bool_decide_unpack _)|by eexists|].
  exists h'. split; [exact E|exact Hf].
Defined.
