(* ===== verification/Smalloc.v ===== *)
(** smalloc.c: the shared-memory allocator - pools of 32-byte blocks under a bitmap,
    headers and red zones - refined to a set of live allocations. *)
From S2P Require Import Prelude Bits Stream.
Local Open Scope word_scope.

(** * Memory

    Bytes by address; the pools are mapped, so every address of theirs is readable. *)

Definition memory : Type := Z -> Z.

Definition load (n : nat) (m : memory) (a : Z) : Z := le_value (m <$> seqZ a (Z.of_nat n)).

Definition store (n : nat) (m : memory) (a v : Z) : memory :=
  fun x => if (a <=? x) && (x <? a + Z.of_nat n) then tbl (le_bytes n v) (x - a) else m x.

Definition zero_fill (m : memory) (a n : Z) : memory :=
  fun x => if (a <=? x) && (x <? a + n) then 0 else m x.

(** * Pools *)

Definition SMALLOC_BPB : Z := 32.
Definition SMALLOC_BPI : Z := 32.
Definition SMALLOC_BPL : Z := SMALLOC_BPB * SMALLOC_BPI.
Definition INITIAL_SIZE : Z := 16 * 1024 * 1024.
Definition SMALLOC_PRE_RED : Z := 0xdeadbeef.
Definition SMALLOC_POST_RED : Z := 0x5aa55aa5.
Definition int_mask : Z := 3.

(** The word with all blocks busy, [-1U]. *)
Definition full : Z := all_ones 32.

Record pool : Type := mk_pool {
  map : Z; bitmap : list Z; free_blocks : Z; nr_blocks : Z; next_non_full : Z }.

Definition sizeof_block_hdr : Z := 16.

Definition ptr_valid (p : pool) (ptr : Z) : bool :=
  let pool_size := wrap 32 (nr_blocks p * SMALLOC_BPL) in
  (map p <=? ptr) && (ptr <? map p + pool_size).

Definition size_to_blocks (size : Z) : Z := subw 64 (addw 64 size SMALLOC_BPB) 1 / SMALLOC_BPB.

(** [blocks_iter]: [func] on the masks of the words that the blocks lie in; a shift by
    the width of the word or more is undefined. *)
Fixpoint blocks_iter (fuel : nat) (func : Z -> Z -> option (bool * Z)) (bm : list Z)
    (pool_nr pool_idx idx nr : Z) : option (bool * list Z) :=
  if nr =? 0 then Some (true, bm) else
  match fuel with
  | O => None
  | S fuel =>
      if pool_nr <=? pool_idx then Some (false, bm) else
      let* word := arr_get bm pool_idx in
      let this := wrap 32 nr in
      let '(this, idx) :=
        (if SMALLOC_BPI <? addw 32 this idx then
           let this := subw 32 SMALLOC_BPI idx in (this, subw 32 SMALLOC_BPI this)
         else (this, idx)) in
      let* mask :=
        (if this =? SMALLOC_BPI then Some full
         else let* _ := c_assert ((this <? 32) && (idx <? 32)) in
              Some (shlw 32 (subw 32 (shlw 32 1 this) 1) idx)) in
      let* '(ok, word) := func word mask in
      let* bm := arr_set bm pool_idx word in
      if (ok : bool) then blocks_iter fuel func bm pool_nr (addw 32 pool_idx 1) 0 (subw 64 nr this)
      else Some (false, bm)
  end.

Definition mask_cmp (word mask : Z) : option (bool * Z) := Some (negb (c_true (word & mask)), word).

Definition mask_clear (word mask : Z) : option (bool * Z) :=
  let* _ := c_assert (word & mask =? mask) in Some (true, word & notw 32 mask).

Definition mask_set (word mask : Z) : option (bool * Z) :=
  let* _ := c_assert (negb (c_true (word & mask))) in Some (true, Z.lor word mask).

(** Enough for the words of the pool. *)
Definition iter_fuel (bm : list Z) : nat := S (length bm).

Definition blocks_free (p : pool) (bm : list Z) (pool_idx idx nr : Z) : option bool :=
  let* '(ok, _) := blocks_iter (iter_fuel bm) mask_cmp bm (nr_blocks p) pool_idx idx nr in Some ok.

Definition set_blocks (p : pool) (bm : list Z) (pool_idx idx nr : Z) : option (list Z) :=
  let* '(_, bm) := blocks_iter (iter_fuel bm) mask_set bm (nr_blocks p) pool_idx idx nr in Some bm.

Definition clear_blocks (p : pool) (bm : list Z) (pool_idx idx nr : Z) : option (list Z) :=
  let* '(_, bm) := blocks_iter (iter_fuel bm) mask_clear bm (nr_blocks p) pool_idx idx nr in Some bm.

(** The argument is an [int]: the shift copies the sign, and the result is sign-extended
    to the [unsigned long] that [ffz] takes. *)
Definition find_next_zero (word start : Z) : option Z :=
  let* _ := c_assert (negb (word =? full)) in
  let int := if Z.testbit word 31 then word - 2 ^ 32 else word in
  Some (ffz (wrap 64 (int >> start)) + start).

(** * Allocation *)

Fixpoint first_non_full (bm : list Z) (j : Z) : option Z :=
  match bm with
  | [] => None
  | w :: bm => if w =? full then first_non_full bm (j + 1) else Some j
  end.

(** [for (i = next_non_full; bitmap[i] == -1U; i++)]; at the last word the search starts over. *)
Fixpoint find_best_loop (fuel : nat) (p : pool) (i : Z) : option Z :=
  match fuel with
  | O => None
  | S fuel =>
      let* w := arr_get (bitmap p) i in
      if w =? full then
        match (if i =? nr_blocks p - 1 then first_non_full (bitmap p) 0 else None) with
        | Some j => Some j
        | None => find_best_loop fuel p (addw 32 i 1)
        end
      else Some i
  end.

Definition find_best_index (p : pool) : option Z :=
  let* _ := c_assert (c_true (free_blocks p)) in
  find_best_loop (S (length (bitmap p))) p (wrap 32 (next_non_full p)).

(** The [while] of [__smalloc_pool]: the offset of the blocks found, if any. *)
Fixpoint smalloc_loop (fuel : nat) (p : pool) (nr i last_idx : Z) : option (option Z * list Z) :=
  match fuel with
  | O => None
  | S fuel =>
      if nr_blocks p <=? i then Some (None, bitmap p) else
      let* w := arr_get (bitmap p) i in
      if w =? full then smalloc_loop fuel p nr (addw 32 i 1) 0 else
      let* idx := find_next_zero w last_idx in
      let* free := blocks_free p (bitmap p) i idx nr in
      if (free : bool) then
        let* bm := set_blocks p (bitmap p) i idx nr in
        Some (Some (wrap 32 (i * SMALLOC_BPL + idx * SMALLOC_BPB)), bm)
      else
        let idx := addw 32 idx nr in
        if idx <? SMALLOC_BPI then smalloc_loop fuel p nr i idx
        else smalloc_loop fuel p nr (addw 32 i (idx / SMALLOC_BPI)) 0
  end.

Definition loop_fuel (p : pool) : nat := S (Z.to_nat (32 * nr_blocks p)).

(** The pool's semaphore makes this one step; the null pointer is [None] inside. *)
Definition __smalloc_pool (p : pool) (size : Z) : option (option Z * pool) :=
  let nr := size_to_blocks size in
  if free_blocks p <? nr then Some (None, p) else
  let* i := find_best_index p in
  let* '(off, bm) := smalloc_loop (loop_fuel p) p nr i 0 in
  match off with
  | Some off => Some (Some (map p + off), mk_pool (map p) bm (subw 64 (free_blocks p) nr) (nr_blocks p) i)
  | None => Some (None, mk_pool (map p) bm (free_blocks p) (nr_blocks p) i)
  end.

Definition size_to_alloc_size (size : Z) : Z :=
  let alloc_size := addw 64 size sizeof_block_hdr in
  let alloc_size := addw 64 alloc_size 4 in
  addw 64 alloc_size int_mask & notw 64 int_mask.

(** Where the red zone behind the data lies, from the header. *)
Definition postred_ptr (m : memory) (hdr : Z) : Z :=
  addw 64 (subw 64 (addw 64 hdr (load 8 m hdr)) 4) int_mask & notw 64 int_mask.

Definition fill_redzone (m : memory) (hdr : Z) : memory :=
  let postred := postred_ptr m hdr in
  store 4 (store 4 m (hdr + 8) SMALLOC_PRE_RED) postred SMALLOC_POST_RED.

Definition smalloc_pool (p : pool) (m : memory) (size : Z) : option (option Z * pool * memory) :=
  let alloc_size := size_to_alloc_size size in
  let* '(ptr, p) := __smalloc_pool p alloc_size in
  match ptr with
  | None => Some (None, p, m)
  | Some hdr =>
      let m := store 8 m hdr alloc_size in
      let m := fill_redzone m hdr in
      Some (Some (hdr + sizeof_block_hdr), p, zero_fill m (hdr + sizeof_block_hdr) size)
  end.

(** * Release *)

Definition sfree_check_redzone (m : memory) (hdr : Z) : option unit :=
  let* _ := c_assert (load 4 m (hdr + 8) =? SMALLOC_PRE_RED) in
  c_assert (load 4 m (postred_ptr m hdr) =? SMALLOC_POST_RED).

Definition sfree_pool (p : pool) (m : memory) (ptr : Z) : option pool :=
  if ptr =? 0 then Some p else
  let hdr := ptr - sizeof_block_hdr in
  let* _ := c_assert (ptr_valid p hdr) in
  let* _ := sfree_check_redzone m hdr in
  let offset := hdr - map p in
  let i := offset / SMALLOC_BPL in
  let idx := (offset mod SMALLOC_BPL) / SMALLOC_BPB in
  let nr := size_to_blocks (load 8 m hdr) in
  let* bm := clear_blocks p (bitmap p) i idx nr in
  Some (mk_pool (map p) bm (addw 64 (free_blocks p) nr) (nr_blocks p)
          (if i <? next_non_full p then i else next_non_full p)).

(** [add_pool], from the address [mmap] returns for it; [pool] is zero before. *)
Definition add_pool (ptr alloc_size : Z) : pool :=
  let alloc_size := addw 32 (addw 32 alloc_size 4) sizeof_block_hdr in
  let alloc_size := if alloc_size <? INITIAL_SIZE then INITIAL_SIZE else alloc_size in
  let alloc_size := wrap 32 (addw 64 alloc_size (SMALLOC_BPL - 1) & notw 64 (SMALLOC_BPL - 1)) in
  let bitmap_blocks := alloc_size / SMALLOC_BPL in
  mk_pool ptr (replicate (Z.to_nat bitmap_blocks) 0) (bitmap_blocks * SMALLOC_BPI) bitmap_blocks 0.

(** * Proofs: the bitmap *)

(** Block [x] of the pool is busy. *)
Definition busy (bm : list Z) (x : Z) : bool := Z.testbit (tbl bm (x / 32)) (x mod 32).

Definition words (bm : list Z) : Prop := Forall (is_word 32) bm.

(** The mask of the bits [l] to [l + n - 1]. *)
Definition piece (l n : Z) : Z := shlw 32 (all_ones n) l.

Lemma piece_bits l n j : 0 <= l -> 0 <= n -> l + n <= 32 -> 0 <= j -> Z.testbit (piece l n) j = in_range l n j.
Proof.
  intros. unfold piece, in_range. rewrite shlw_bits by lia. destruct (Z.leb_spec l j).
  - rewrite all_ones_bits by lia. zcases; cbn; lia.
  - rewrite Z.testbit_neg_r by lia. zcases; cbn; lia.
Qed.

Lemma piece_word l n : is_word 32 (piece l n).
Proof. apply shlw_range. lia. Qed.

#[export] Hint Resolve piece_word : word.

(** One turn of [blocks_iter]. *)
Lemma blocks_iter_step fuel func bm pn i idx nr w : 0 < nr < 2 ^ 31 -> 0 <= idx < 32 -> 0 <= i < pn -> pn < 2 ^ 27 ->
  arr_get bm i = Some w ->
  blocks_iter (S fuel) func bm pn i idx nr =
    let this := Z.min nr (32 - idx) in
    let* '(ok, word) := func w (piece idx this) in
    let* bm := arr_set bm i word in
    if (ok : bool) then blocks_iter fuel func bm pn (i + 1) 0 (nr - this) else Some (false, bm).
Proof.
  intros Hnr Hidx Hi Hpn Hw. cbn [blocks_iter]. destruct (Z.eqb_spec nr 0); [lia|].
  destruct (Z.leb_spec pn i); [lia|]. rewrite Hw. cbn [mbind option_bind].
  rewrite (wrap_small 32 nr) by (unfold is_word; lia). change SMALLOC_BPI with 32.
  unfold addw at 1. rewrite wrap_small by (unfold is_word; lia).
  assert (addw 32 i 1 = i + 1) as -> by (apply wrap_small; unfold is_word; lia).
  set (this := Z.min nr (32 - idx)).
  replace (if 32 <? nr + idx then _ else _) with (this, idx).
  2: { unfold this, subw. destruct (Z.ltb_spec 32 (nr + idx)).
       - rewrite (wrap_small 32 (32 - idx)), wrap_small by (unfold is_word; lia). f_equal; lia.
       - f_equal; lia. }
  cbn beta iota. assert (subw 64 nr this = nr - this) as -> by (apply wrap_small; unfold is_word, this; lia).
  replace (if this =? 32 then _ else _) with (Some (piece idx this)); [done|].
  destruct (Z.eqb_spec this 32) as [E|Hne].
  - assert (idx = 0) as -> by lia. by rewrite E.
  - unfold c_assert. destruct (Z.ltb_spec this 32), (Z.ltb_spec idx 32); try lia. cbn [andb mbind option_bind].
    f_equal. unfold piece. f_equal. unfold all_ones, subw, shlw. rewrite Z.shiftl_1_l.
    pose proof (Z.pow_lt_mono_r 2 this 32 ltac:(lia) ltac:(lia) ltac:(lia)).
    pose proof (Z.pow_pos_nonneg 2 this ltac:(lia) ltac:(lia)).
    rewrite (wrap_small 32 (2 ^ this)), wrap_small by (unfold is_word; lia). done.
Qed.

Lemma busy_insert bm i w x : 0 <= i < zlength bm -> 0 <= x ->
  busy (<[Z.to_nat i := w]> bm) x = if i =? x / 32 then Z.testbit w (x mod 32) else busy bm x.
Proof.
  unfold zlength. intros Hi Hx. unfold busy, tbl. pose proof (Z.div_pos x 32 Hx ltac:(lia)).
  destruct (Z.eqb_spec i (x / 32)) as [->|Hne]; rewrite !nth_lookup.
  - rewrite list_lookup_insert_eq by lia. done.
  - rewrite list_lookup_insert_ne by lia. done.
Qed.

Lemma words_get bm i w : words bm -> arr_get bm i = Some w -> is_word 32 w.
Proof.
  intros Hw. unfold arr_get. destruct (i <? 0); [done|]. intros Hl.
  unfold words in Hw. rewrite List.Forall_forall in Hw.
  apply Hw, list_elem_of_In. by eapply list_elem_of_lookup_2.
Qed.

Lemma words_insert bm (i : nat) w : words bm -> is_word 32 w -> words (<[i := w]> bm).
Proof. intros. unfold words. by apply Forall_insert. Qed.

Lemma busy_get bm i w x : arr_get bm i = Some w -> x / 32 = i -> busy bm x = Z.testbit w (x mod 32).
Proof.
  intros Hw <-. unfold busy, tbl. pose proof (arr_get_range _ _ _ Hw). unfold arr_get in Hw.
  destruct (Z.ltb_spec (x / 32) 0); [done|]. by rewrite nth_lookup, Hw.
Qed.

(** The mask of a word meets no busy block, as a statement on bits. *)
Lemma land_piece_zero w l n : 0 <= l -> 0 <= n -> l + n <= 32 ->
  w & piece l n = 0 <-> forall j, l <= j < l + n -> Z.testbit w j = false.
Proof.
  intros Hl Hn Hln. split.
  - intros E j Hj. pose proof (Z.land_spec w (piece l n) j) as Hb. rewrite E, Z.bits_0, piece_bits in Hb by lia.
    unfold in_range in Hb. destruct (Z.leb_spec l j), (Z.ltb_spec j (l + n)); try lia. by rewrite andb_true_r in Hb.
  - intros H. apply Z.bits_inj'. intros j Hj. rewrite Z.land_spec, Z.bits_0, piece_bits by lia. unfold in_range.
    destruct (Z.leb_spec l j), (Z.ltb_spec j (l + n)); rewrite ?andb_false_r, ?andb_true_r; try done. apply H. lia.
Qed.

Lemma land_piece_all w l n : 0 <= l -> 0 <= n -> l + n <= 32 ->
  (forall j, l <= j < l + n -> Z.testbit w j = true) -> w & piece l n = piece l n.
Proof.
  intros Hl Hn Hln H. apply Z.bits_inj'. intros j Hj. rewrite Z.land_spec, piece_bits by lia. unfold in_range.
  destruct (Z.leb_spec l j), (Z.ltb_spec j (l + n)); rewrite ?andb_false_r, ?andb_true_r; try done. apply H. lia.
Qed.

(** The blocks [lo] to [lo + n - 1], word by word. *)
Lemma blocks_of_word i idx this j : 0 <= idx -> idx + this <= 32 -> idx <= j < idx + this ->
  (32 * i + j) / 32 = i /\ (32 * i + j) mod 32 = j.
Proof.
  intros. split; [symmetry; apply Z.div_unique with j; lia|symmetry; apply Z.mod_unique with i; lia].
Qed.

Definition range_is (bm : list Z) (c : bool) (lo n : Z) : Prop := forall x, lo <= x < lo + n -> busy bm x = c.

Lemma range_is_word bm c i idx this w : arr_get bm i = Some w -> 0 <= idx -> idx + this <= 32 ->
  range_is bm c (32 * i + idx) this <-> forall j, idx <= j < idx + this -> Z.testbit w j = c.
Proof.
  intros Hw Hi Ht. split.
  - intros H j Hj. destruct (blocks_of_word i idx this j) as [E1 E2]; [lia|lia|lia|].
    rewrite <- (H (32 * i + j)) by lia. rewrite (busy_get bm i w) by done. by rewrite E2.
  - intros H x Hx. replace x with (32 * i + (x - 32 * i)) by lia.
    destruct (blocks_of_word i idx this (x - 32 * i)) as [E1 E2]; [lia|lia|lia|].
    rewrite (busy_get bm i w) by done. rewrite E2. apply H. lia.
Qed.

Lemma range_is_split bm c lo n k : 0 <= k <= n ->
  range_is bm c lo n <-> range_is bm c lo k /\ range_is bm c (lo + k) (n - k).
Proof.
  intros. split.
  - intros H'. split; intros x Hx; apply H'; lia.
  - intros [H1 H2] x Hx. destruct (Z.lt_ge_cases x (lo + k)); [apply H1|apply H2]; lia.
Qed.

#[export] Instance range_is_dec bm c lo n : Decision (range_is bm c lo n).
Proof.
  destruct (decide (Forall (fun x => busy bm x = c) (seqZ lo n))) as [H|H].
  - left. intros x Hx. rewrite List.Forall_forall in H. apply H, list_elem_of_In, elem_of_seqZ. lia.
  - right. intros Hr. apply H. apply List.Forall_forall. intros x Hx. apply Hr.
    apply list_elem_of_In, elem_of_seqZ in Hx. lia.
Defined.

(** [blocks_free] decides whether a range lies in the pool and is free. *)
Lemma iter_cmp bm pn : zlength bm = pn -> pn < 2 ^ 27 -> forall fuel i idx nr,
  0 <= nr < 2 ^ 31 -> 0 <= idx < 32 -> 0 <= i <= pn -> idx = 0 \/ i < pn -> pn - i < Z.of_nat fuel ->
  blocks_iter fuel mask_cmp bm pn i idx nr =
    Some (bool_decide (32 * i + idx + nr <= 32 * pn /\ range_is bm false (32 * i + idx) nr), bm).
Proof.
  intros Hlen Hpn. induction fuel as [|fuel IH]; intros i idx nr Hnr Hidx Hi Hii Hf; [lia|].
  destruct (Z.eq_dec nr 0) as [->|Hnz].
  { cbn [blocks_iter]. rewrite Z.eqb_refl. rewrite bool_decide_true; [done|]. split; [lia|]. intros x Hx. lia. }
  destruct (Z.eq_dec i pn) as [->|Hne].
  { cbn [blocks_iter]. destruct (Z.eqb_spec nr 0); [lia|]. destruct (Z.leb_spec pn pn); [|lia].
    rewrite bool_decide_false; [done|]. lia. }
  destruct (arr_get_Some bm i) as [w Hw]; [lia|].
  rewrite (blocks_iter_step _ _ _ _ _ _ _ w) by (done || lia). cbv zeta. set (this := Z.min nr (32 - idx)).
  cbn [mask_cmp mbind option_bind]. rewrite arr_set_Some by lia. cbn [mbind option_bind].
  rewrite list_insert_id by (unfold arr_get in Hw; by destruct (i <? 0)).
  pose proof (range_is_word bm false i idx this w Hw ltac:(lia) ltac:(lia)) as Hr.
  pose proof (range_is_split bm false (32 * i + idx) nr this ltac:(lia)) as Hsp.
  destruct (c_true (w & piece idx this)) eqn:Ec; cbn [negb].
  - rewrite c_true_iff, land_piece_zero, <- Hr in Ec by lia. rewrite bool_decide_false; [done|]. tauto.
  - rewrite c_true_false_iff, land_piece_zero, <- Hr in Ec by lia. rewrite IH by lia. do 2 f_equal.
    apply bool_decide_ext. rewrite Hsp. destruct (Z.eq_dec this nr) as [E|].
    + assert (forall lo, range_is bm false lo (nr - this)) as Hz by (intros lo x Hx; lia).
      split; intros _; (split; [lia|]); [split; [done|]|]; apply Hz.
    + replace (32 * i + idx + this) with (32 * (i + 1) + 0) by lia.
      replace (32 * (i + 1) + 0 + (nr - this)) with (32 * i + idx + nr) by lia. tauto.
Qed.

(** [mask_set] and [mask_clear] turn the bits of the mask from [c] to the other value. *)
Definition flips (c : bool) (func : Z -> Z -> option (bool * Z)) : Prop := forall w l n,
  is_word 32 w -> 0 <= l -> 0 <= n -> l + n <= 32 -> (forall j, l <= j < l + n -> Z.testbit w j = c) ->
  exists w', func w (piece l n) = Some (true, w') /\ is_word 32 w' /\
    forall j, 0 <= j < 32 -> Z.testbit w' j = if in_range l n j then negb c else Z.testbit w j.

Lemma mask_set_flips : flips false mask_set.
Proof.
  intros w l n Hw Hl Hn Hln Hb. unfold mask_set, c_assert. exists (Z.lor w (piece l n)).
  replace (c_true (w & piece l n)) with false; [|symmetry; apply c_true_false_iff, land_piece_zero; done].
  split; [done|]. split; [apply is_word_lor; [lia|done|apply piece_word]|]. intros j Hj. rewrite Z.lor_spec, piece_bits by lia.
  destruct (in_range l n j); [by rewrite orb_true_r|by rewrite orb_false_r].
Qed.

Lemma mask_clear_flips : flips true mask_clear.
Proof.
  intros w l n Hw Hl Hn Hln Hb. unfold mask_clear, c_assert. exists (w & notw 32 (piece l n)).
  rewrite land_piece_all, Z.eqb_refl by done. split; [done|]. split; [by apply is_word_land_l|]. intros j Hj.
  rewrite Z.land_spec, notw_bits, piece_bits by lia. destruct (Z.ltb_spec j 32); [|lia]. rewrite andb_true_r.
  destruct (in_range l n j); [by rewrite andb_false_r|by rewrite andb_true_r].
Qed.

Lemma iter_flip c func pn : flips c func -> pn < 2 ^ 27 -> forall fuel bm i idx nr, zlength bm = pn -> words bm ->
  0 <= nr < 2 ^ 31 -> 0 <= idx < 32 -> 0 <= i <= pn -> pn - i < Z.of_nat fuel ->
  32 * i + idx + nr <= 32 * pn -> range_is bm c (32 * i + idx) nr ->
  exists bm', blocks_iter fuel func bm pn i idx nr = Some (true, bm') /\ words bm' /\ zlength bm' = pn /\
    forall x, 0 <= x -> busy bm' x = if in_range (32 * i + idx) nr x then negb c else busy bm x.
Proof.
  intros Hfl Hpn. induction fuel as [|fuel IH]; intros bm i idx nr Hlen Hw Hnr Hidx Hi Hf Hin Hr; [lia|].
  destruct (Z.eq_dec nr 0) as [->|Hnz].
  { exists bm. cbn [blocks_iter]. rewrite Z.eqb_refl. split; [done|]. split; [done|]. split; [done|].
    intros x Hx. unfold in_range. zcases; cbn; done || lia. }
  destruct (arr_get_Some bm i) as [w Hget]; [lia|].
  rewrite (blocks_iter_step _ _ _ _ _ _ _ w) by (done || lia). cbv zeta. set (this := Z.min nr (32 - idx)).
  apply (range_is_split _ _ _ _ this) in Hr as [Hr1 Hr2]; [|lia].
  destruct (Hfl w idx this) as (w' & -> & Hw' & Hb); [by eapply words_get|lia|lia|lia| |].
  { by apply (range_is_word bm c i idx this w Hget ltac:(lia) ltac:(lia)). }
  cbn [mbind option_bind]. rewrite arr_set_Some by lia. cbn [mbind option_bind].
  assert (forall x, 0 <= x -> busy (<[Z.to_nat i := w']> bm) x =
    if in_range (32 * i + idx) this x then negb c else busy bm x) as Hbm.
  { intros x Hx. rewrite busy_insert by lia. pose proof (Z.div_mod x 32 ltac:(lia)) as Hdm.
    pose proof (Z.mod_pos_bound x 32 ltac:(lia)) as Hmb. unfold in_range in *. destruct (Z.eqb_spec i (x / 32)) as [->|].
    - rewrite Hb, (busy_get bm (x / 32) w x) by (done || lia). zcases; cbn; done || lia.
    - destruct (Z.leb_spec (32 * i + idx) x), (Z.ltb_spec x (32 * i + idx + this)); cbn; try done.
      destruct n. apply Z.div_unique with (x - 32 * i); lia. }
  destruct (Z.eq_dec this nr) as [E|Hmore].
  - exists (<[Z.to_nat i := w']> bm). replace (nr - this) with 0 by lia. split.
    + destruct fuel; cbn [blocks_iter]; by rewrite Z.eqb_refl.
    + split; [by apply words_insert|]. split; [by rewrite zlength_insert|]. intros x Hx. rewrite Hbm by done. by rewrite E.
  - destruct (IH (<[Z.to_nat i := w']> bm) (i + 1) 0 (nr - this)) as (bm' & -> & Hwm & Hl & Hx);
      rewrite ?zlength_insert; try lia; [by apply words_insert| |].
    + replace (32 * (i + 1) + 0) with (32 * i + idx + this) by lia. intros x Hx. rewrite Hbm by lia.
      unfold in_range. destruct (Z.leb_spec (32 * i + idx) x), (Z.ltb_spec x (32 * i + idx + this)); try lia. cbn. by apply Hr2.
    + exists bm'. split; [done|]. split; [done|]. split; [done|]. intros x Hx0. rewrite Hx, Hbm by done.
      unfold in_range. zcases; cbn; done || lia.
Qed.

(** ** The search *)

(** A word whose last block is busy although another is free: shifted as an [int], it
    can look full. *)
Definition tail_busy (bm : list Z) : Prop :=
  exists w, w ∈ bm /\ w <> full /\ Z.testbit w 31 = true.

Lemma signed_bits w j : is_word 32 w -> 0 <= j ->
  Z.testbit (if Z.testbit w 31 then w - 2 ^ 32 else w) j = Z.testbit w (Z.min j 31).
Proof.
  intros Hw Hj. destruct (Z.testbit w 31) eqn:E.
  - replace (w - 2 ^ 32) with (Z.lor w (Z.lnot (all_ones 32))).
    + rewrite Z.lor_spec, Z.lnot_spec, all_ones_bits by lia. destruct (Z.leb_spec 0 j); [|lia]. destruct (Z.ltb_spec j 32); cbn.
      * rewrite orb_false_r. destruct (Z.eq_dec j 31) as [->|]; f_equal; lia.
      * rewrite orb_true_r. by replace (Z.min j 31) with 31 by lia.
    + rewrite <- Z.add_nocarry_lor; [unfold all_ones, Z.lnot; lia|].
      apply Z.bits_inj'. intros i Hi. rewrite Z.land_spec, Z.lnot_spec, all_ones_bits, Z.bits_0 by lia.
      destruct (Z.leb_spec 0 i); [|lia]. destruct (Z.ltb_spec i 32); cbn; [by rewrite andb_false_r|].
      by rewrite (is_word_bits 32 w) by done.
  - destruct (Z.lt_ge_cases j 32).
    + f_equal. destruct (Z.eq_dec j 31); [|lia]. subst. done.
    + rewrite (is_word_bits 32 w) by done. by replace (Z.min j 31) with 31 by lia.
Qed.

Lemma find_next_zero_spec w s : is_word 32 w -> w <> full -> 0 <= s < 32 ->
  (exists z, find_next_zero w s = Some z /\ s <= z < 32 /\ Z.testbit w z = false) \/
  (find_next_zero w s = Some (63 + s) /\ 0 < s /\ Z.testbit w 31 = true).
Proof.
  intros Hw Hf Hs. unfold find_next_zero, c_assert. destruct (Z.eqb_spec w full); [done|]. cbn [negb mbind option_bind].
  set (int := if Z.testbit w 31 then w - 2 ^ 32 else w).
  assert (forall j, 0 <= j < 64 -> Z.testbit (wrap 64 (int >> s)) j = Z.testbit w (Z.min (j + s) 31)) as Hb.
  { intros j Hj. rewrite wrap_bits, Z.shiftr_spec by lia. unfold int. rewrite signed_bits by (done || lia).
    destruct (Z.ltb_spec j 64); [|lia]. by rewrite andb_true_r. }
  destruct (decide (wrap 64 (int >> s) = all_ones 64)) as [E|E].
  - right. rewrite E. split; [done|]. rewrite (all_ones_iff 64) in E by (try apply wrap_range; lia).
    assert (forall j, s <= j < 32 -> Z.testbit w j = true) as H1.
    { intros j Hj. specialize (E (j - s) ltac:(lia)). rewrite Hb in E by lia. by replace (Z.min (j - s + s) 31) with j in E by lia. }
    split; [|apply H1; lia]. destruct (Z.eq_dec s 0) as [->|]; [|lia]. destruct Hf.
    apply all_ones_iff; [lia|done|]. intros i Hi. apply H1. lia.
  - left. destruct (ffz_spec (wrap 64 (int >> s))) as (Hr & Hz & Hlow); [apply wrap_range; lia|done|].
    set (z := ffz _) in *. exists (z + s). split; [done|]. rewrite Hb in Hz by lia.
    destruct (Z.lt_ge_cases (z + s) 32); [split; [lia|]; by replace (Z.min (z + s) 31) with (z + s) in Hz by lia|].
    replace (Z.min (z + s) 31) with 31 in Hz by lia. specialize (Hlow (31 - s) ltac:(lia)). rewrite Hb in Hlow by lia.
    replace (Z.min (31 - s + s) 31) with 31 in Hlow by lia. congruence.
Qed.

(** With an index past the word the mask is a shift by more than 31. *)
Lemma iter_undefined fuel func bm pn i idx nr : 63 <= idx < 96 -> 0 < nr < 2 ^ 31 -> i < pn ->
  blocks_iter fuel func bm pn i idx nr = None.
Proof.
  intros Hidx Hnr Hi. destruct fuel as [|fuel]; cbn [blocks_iter]; (destruct (Z.eqb_spec nr 0); [lia|]); [done|].
  destruct (Z.leb_spec pn i); [lia|]. destruct (arr_get bm i) as [w|]; [|done]. cbn [mbind option_bind].
  rewrite (wrap_small 32 nr) by (unfold is_word; lia). change SMALLOC_BPI with 32.
  unfold addw at 1. rewrite wrap_small by (unfold is_word; lia). destruct (Z.ltb_spec 32 (nr + idx)); [|lia].
  assert (subw 32 32 idx = 2 ^ 32 + (32 - idx)) as ->.
  { unfold subw, wrap. symmetry. apply Z.mod_unique with (-1); lia. }
  destruct (Z.eqb_spec (2 ^ 32 + (32 - idx)) 32); [lia|]. unfold c_assert.
  destruct (Z.ltb_spec (2 ^ 32 + (32 - idx)) 32); [lia|]. done.
Qed.

(** ** The state of a pool *)

Definition count_free (bm : list Z) : Z := count_if (fun x => negb (busy bm x)) (seqZ 0 (32 * zlength bm)).

Record pool_ok (p : pool) : Prop := mk_ok {
  ok_words : words (bitmap p);
  ok_nr : zlength (bitmap p) = nr_blocks p;
  ok_size : nr_blocks p < 2 ^ 22;
  ok_free : free_blocks p = count_free (bitmap p);
  ok_next : 0 <= next_non_full p < Z.max 1 (nr_blocks p);
  ok_map : 0 < map p /\ map p mod 32 = 0 /\ map p + 1024 * nr_blocks p <= 2 ^ 64 }.

(** Flipping a range of blocks changes the count by its length. *)
Lemma count_free_flip bm bm' c lo n : zlength bm' = zlength bm -> 0 <= lo -> 0 <= n -> lo + n <= 32 * zlength bm ->
  range_is bm c lo n -> (forall x, 0 <= x -> busy bm' x = if in_range lo n x then negb c else busy bm x) ->
  count_free bm' = count_free bm + (if c then n else - n).
Proof.
  intros Hl Hlo Hn Hin Hr Hx. unfold count_free. rewrite Hl.
  rewrite (count_flip (fun x => negb (busy bm x)) (fun x => negb (busy bm' x)) (negb c) lo n); try done.
  - by destruct c.
  - intros x Hx'. by rewrite Hr.
  - intros x Hx'. rewrite Hx by lia. by destruct (in_range lo n x).
Qed.

(** What [__smalloc_pool] finds: a free run inside the pool, now busy. *)
Definition taken (p : pool) (nr lo : Z) (bm : list Z) : Prop :=
  0 <= lo /\ lo + nr <= 32 * nr_blocks p /\ range_is (bitmap p) false lo nr /\
  words bm /\ zlength bm = nr_blocks p /\
  forall x, 0 <= x -> busy bm x = if in_range lo nr x then true else busy (bitmap p) x.

(** The search ends: it takes a free run, or gives up, or meets a word of the kind that
    [find_next_zero] mistakes. *)
Lemma smalloc_loop_spec p nr : pool_ok p -> 0 < nr <= 32 * nr_blocks p -> forall fuel i last,
  0 <= i -> 0 <= last < 32 -> Z.max 0 (32 * nr_blocks p - (32 * i + last)) < Z.of_nat fuel -> i < 2 ^ 31 ->
  match smalloc_loop fuel p nr i last with
  | None => tail_busy (bitmap p)
  | Some (None, bm) => bm = bitmap p
  | Some (Some off, bm) => exists lo, off = 32 * lo /\ taken p nr lo bm
  end.
Proof.
  intros Hp Hnr. pose proof (ok_size p Hp) as Hsz. pose proof (ok_nr p Hp) as Hlen. pose proof (ok_words p Hp) as Hwords.
  induction fuel as [|fuel IH]; intros i last Hi Hlast Hf Hi31; cbn [smalloc_loop].
  { lia. }
  destruct (Z.leb_spec (nr_blocks p) i); [done|].
  destruct (arr_get_Some (bitmap p) i) as [w Hw]; [lia|]. rewrite Hw. cbn [mbind option_bind].
  assert (addw 32 i 1 = i + 1) as -> by (apply wrap_small; unfold is_word; lia).
  destruct (Z.eqb_spec w full) as [|Hne]; [apply IH; lia|].
  pose proof (words_get _ _ _ Hwords Hw) as Hww.
  destruct (find_next_zero_spec w last Hww Hne Hlast) as [(z & -> & Hz & Hzb)|(-> & Hl & Htail)]; cbn [mbind option_bind].
  - unfold blocks_free, set_blocks, iter_fuel.
    rewrite iter_cmp by (lia || (unfold zlength in *; lia)). cbn [mbind option_bind].
    case_bool_decide as Hfit.
    + destruct Hfit as [Hfit Hfree].
      destruct (iter_flip false mask_set (nr_blocks p) mask_set_flips ltac:(lia) (S (length (bitmap p))) (bitmap p) i z nr)
        as (bm & -> & Hbw & Hbl & Hbx); try done; try lia; [unfold zlength in *; lia|]. cbn [mbind option_bind].
      exists (32 * i + z). unfold taken. split; [|split_and!; done || lia]. change (SMALLOC_BPL) with 1024. change SMALLOC_BPB with 32.
      rewrite wrap_small by (unfold is_word; lia). lia.
    + assert (addw 32 z nr = z + nr) as -> by (apply wrap_small; unfold is_word; lia).
      change SMALLOC_BPI with 32. destruct (Z.ltb_spec (z + nr) 32); [apply IH; lia|].
      pose proof (Z.div_mod (z + nr) 32 ltac:(lia)). pose proof (Z.mod_pos_bound (z + nr) 32 ltac:(lia)).
      assert (addw 32 i ((z + nr) / 32) = i + (z + nr) / 32) as -> by (apply wrap_small; unfold is_word; lia).
      apply IH; lia.
  - unfold blocks_free. rewrite iter_undefined by lia. cbn [mbind option_bind]. exists w. split; [|done].
    unfold arr_get in Hw. destruct (i <? 0); [done|]. by eapply list_elem_of_lookup_2.
Qed.

Lemma first_non_full_spec bm : forall j, (exists w, w ∈ bm /\ w <> full) ->
  exists k, first_non_full bm j = Some k /\ j <= k < j + zlength bm.
Proof.
  induction bm as [|w bm IH]; intros j (v & Hv & Hne); [by apply elem_of_nil in Hv|]. cbn [first_non_full].
  unfold zlength in *. cbn [length]. destruct (Z.eqb_spec w full) as [->|].
  - apply elem_of_cons in Hv as [->|Hv]; [done|]. destruct (IH (j + 1)) as (k & -> & Hk); [by exists v|]. exists k. split; [done|lia].
  - exists j. split; [done|lia].
Qed.

(** A pool with a free block has a word that is not full. *)
Lemma not_all_full p : pool_ok p -> 0 < free_blocks p -> exists w, w ∈ bitmap p /\ w <> full.
Proof.
  intros Hp Hf. rewrite (ok_free p Hp) in Hf. apply count_if_pos in Hf as (k & x & Hk & Hb). pose proof Hk as Hx%list_elem_of_lookup_2%elem_of_seqZ.
  destruct (arr_get_Some (bitmap p) (x / 32)) as [w Hw].
  { pose proof (Z.div_mod x 32 ltac:(lia)). pose proof (Z.mod_pos_bound x 32 ltac:(lia)). lia. }
  exists w. split; [unfold arr_get in Hw; destruct (x / 32 <? 0); [done|by eapply list_elem_of_lookup_2]|].
  intros ->. rewrite (busy_get _ _ _ _ Hw eq_refl) in Hb. unfold full in Hb. rewrite all_ones_bits in Hb by lia.
  pose proof (Z.mod_pos_bound x 32 ltac:(lia)). destruct (Z.leb_spec 0 (x mod 32)), (Z.ltb_spec (x mod 32) 32); done || lia.
Qed.

Lemma find_best_loop_spec p : pool_ok p -> (exists w, w ∈ bitmap p /\ w <> full) -> forall fuel i,
  0 <= i < nr_blocks p -> nr_blocks p - i <= Z.of_nat fuel ->
  exists j, find_best_loop fuel p i = Some j /\ 0 <= j < nr_blocks p.
Proof.
  intros Hp Hne. pose proof (ok_size p Hp). pose proof (ok_nr p Hp) as Hlen.
  induction fuel as [|fuel IH]; intros i Hi Hf; [lia|]. cbn [find_best_loop].
  destruct (arr_get_Some (bitmap p) i) as [w ->]; [lia|]. cbn [mbind option_bind].
  destruct (w =? full); [|by exists i]. destruct (Z.eqb_spec i (nr_blocks p - 1)).
  - destruct (first_non_full_spec (bitmap p) 0 Hne) as (k & -> & Hk). exists k. split; [done|lia].
  - assert (addw 32 i 1 = i + 1) as -> by (apply wrap_small; unfold is_word; lia). apply IH; lia.
Qed.

Lemma count_free_bounds bm : 0 <= count_free bm <= 32 * zlength bm.
Proof.
  unfold count_free. pose proof (count_if_le (fun x => negb (busy bm x)) (seqZ 0 (32 * zlength bm))) as H.
  rewrite zlength_seqZ in H; [done|unfold zlength; lia].
Qed.

Lemma size_to_blocks_eq size : 0 < size < 2 ^ 33 -> size_to_blocks size = (size + 31) / 32.
Proof.
  intros. unfold size_to_blocks, subw, addw. change SMALLOC_BPB with 32.
  rewrite (wrap_small 64 (size + 32)), wrap_small by (unfold is_word; lia). f_equal. lia.
Qed.

(** The allocation of blocks: refused, or a run of free blocks taken. *)
Lemma __smalloc_pool_spec p size : pool_ok p -> 0 < size < 2 ^ 33 ->
  let nr := (size + 31) / 32 in
  match __smalloc_pool p size with
  | None => tail_busy (bitmap p)
  | Some (None, p') => pool_ok p' /\ bitmap p' = bitmap p /\ map p' = map p /\ nr_blocks p' = nr_blocks p
  | Some (Some ptr, p') => exists lo, ptr = map p + 32 * lo /\ pool_ok p' /\ map p' = map p /\
      nr_blocks p' = nr_blocks p /\ taken p nr lo (bitmap p')
  end.
Proof.
  intros Hp Hsize nr. pose proof (ok_size p Hp). pose proof (ok_nr p Hp) as Hlen. pose proof (ok_free p Hp) as Hfree.
  pose proof (count_free_bounds (bitmap p)) as Hcb. pose proof (ok_next p Hp) as Hnext.
  unfold __smalloc_pool. rewrite size_to_blocks_eq by lia. fold nr.
  assert (0 < nr) as Hnr by (unfold nr; apply Z.div_str_pos; lia).
  destruct (Z.ltb_spec (free_blocks p) nr); [done|]. unfold find_best_index, c_assert.
  destruct (c_true (free_blocks p)) eqn:Ec; [|apply c_true_false_iff in Ec; lia]. cbn [mbind option_bind].
  rewrite wrap_small by (unfold is_word; lia).
  destruct (find_best_loop_spec p Hp (not_all_full p Hp ltac:(lia)) (S (length (bitmap p))) (next_non_full p))
    as (i & -> & Hi); [lia|unfold zlength in *; lia|]. cbn [mbind option_bind].
  pose proof (smalloc_loop_spec p nr Hp ltac:(lia) (loop_fuel p) i 0 ltac:(lia) ltac:(lia)) as Hspec.
  destruct (smalloc_loop (loop_fuel p) p nr i 0) as [[[off|] bm]|]; cbn [mbind option_bind];
    (specialize (Hspec ltac:(unfold loop_fuel; lia) ltac:(lia))); [| |done].
  - destruct Hspec as (lo & -> & Ht). exists lo. split; [done|]. destruct Ht as (H1 & H2 & H3 & H4 & H5 & H6).
    cbn [map nr_blocks bitmap]. split; [|by split_and!].
    split; cbn [map bitmap free_blocks nr_blocks next_non_full]; try done; try lia; [|apply Hp].
    rewrite (count_free_flip (bitmap p) bm false lo nr) by (done || lia).
    unfold subw. rewrite wrap_small by (unfold is_word; lia). lia.
  - subst bm. split; [|done]. split; cbn [map bitmap free_blocks nr_blocks next_non_full]; try done; try lia; apply Hp.
Qed.

(** * Proofs: headers and red zones *)

Lemma load_ext n m m' a : (forall x, a <= x < a + Z.of_nat n -> m' x = m x) -> load n m' a = load n m a.
Proof.
  intros H. unfold load. f_equal. apply list_fmap_ext. intros i x Hx%list_elem_of_lookup_2%elem_of_seqZ. apply H. lia.
Qed.

Lemma load_store n m a v : load n (store n m a v) a = v mod 2 ^ (8 * Z.of_nat n).
Proof.
  rewrite <- le_value_bytes. unfold load. f_equal. apply list_eq. intros i. rewrite list_lookup_fmap.
  destruct (decide (i < n)%nat).
  - rewrite lookup_seqZ_lt by lia. cbn. unfold store.
    destruct (Z.leb_spec a (a + Z.of_nat i)), (Z.ltb_spec (a + Z.of_nat i) (a + Z.of_nat n)); try lia. cbn.
    unfold tbl. rewrite nth_lookup. replace (Z.to_nat (a + Z.of_nat i - a)) with i by lia.
    destruct (lookup_lt_is_Some_2 (le_bytes n v) i) as [b ->]; [by rewrite le_bytes_length|done].
  - rewrite lookup_seqZ_ge by lia. cbn. symmetry. apply lookup_ge_None. rewrite le_bytes_length. lia.
Qed.

Lemma store_other n m a v x : x < a \/ a + Z.of_nat n <= x -> store n m a v x = m x.
Proof. intros. unfold store. destruct (Z.leb_spec a x), (Z.ltb_spec x (a + Z.of_nat n)); try lia; done. Qed.

Lemma load_store_other n k m a v b : b + Z.of_nat n <= a \/ a + Z.of_nat k <= b -> load n (store k m a v) b = load n m b.
Proof. intros. apply load_ext. intros x Hx. apply store_other. lia. Qed.

Lemma load_zero_other n m a k b : b + Z.of_nat n <= a \/ a + k <= b -> load n (zero_fill m a k) b = load n m b.
Proof.
  intros. apply load_ext. intros x Hx. unfold zero_fill. destruct (Z.leb_spec a x), (Z.ltb_spec x (a + k)); try lia; done.
Qed.

(** Clearing the low [k] bits rounds down. *)
Lemma align_down k x : 0 <= k < 64 -> is_word 64 x -> x & notw 64 (all_ones k) = 2 ^ k * (x / 2 ^ k).
Proof.
  intros Hk Hx. rewrite Z.mul_comm, <- Z.shiftl_mul_pow2, <- Z.shiftr_div_pow2 by lia. apply Z.bits_inj'. intros i Hi.
  rewrite Z.land_spec, notw_bits, all_ones_bits, Z.shiftl_spec by lia. destruct (Z.leb_spec 0 i); [|lia].
  destruct (Z.ltb_spec i k); cbn [andb negb].
  - rewrite (Z.testbit_neg_r _ (i - k)) by lia. by rewrite andb_false_r.
  - rewrite Z.shiftr_spec by lia. replace (i - k + k) with i by lia. destruct (Z.ltb_spec i 64); [by rewrite andb_true_r|].
    by rewrite (is_word_bits 64 x).
Qed.

Lemma align4 x : is_word 64 x -> x & notw 64 int_mask = 4 * (x / 4).
Proof. apply (align_down 2 x). lia. Qed.

Lemma alloc_size_spec size : 0 <= size < 2 ^ 32 ->
  size + 20 <= size_to_alloc_size size < size + 24 /\ size_to_alloc_size size mod 4 = 0.
Proof.
  intros Hs. assert (size_to_alloc_size size = 4 * ((size + 23) / 4)) as ->.
  { unfold size_to_alloc_size, addw. change sizeof_block_hdr with 16.
    rewrite (wrap_small 64 (size + 16)), (wrap_small 64 (size + 16 + 4)) by (unfold is_word; lia).
    rewrite (wrap_small 64 (size + 16 + 4 + int_mask)) by (unfold is_word, int_mask; lia).
    rewrite align4 by (unfold is_word, int_mask; lia). unfold int_mask. do 2 f_equal. lia. }
  pose proof (Z.div_mod (size + 23) 4 ltac:(lia)). pose proof (Z.mod_pos_bound (size + 23) 4 ltac:(lia)).
  split; [lia|]. rewrite Z.mul_comm. apply Z.mod_mul. lia.
Qed.

Definition blocks_of (size : Z) : Z := (size_to_alloc_size size + 31) / 32.

Lemma blocks_of_spec size : 0 <= size < 2 ^ 32 -> 0 < blocks_of size < 2 ^ 31 /\ size_to_alloc_size size <= 32 * blocks_of size.
Proof.
  intros Hs. destruct (alloc_size_spec size Hs) as [H _]. unfold blocks_of.
  pose proof (Z.div_mod (size_to_alloc_size size + 31) 32 ltac:(lia)).
  pose proof (Z.mod_pos_bound (size_to_alloc_size size + 31) 32 ltac:(lia)). lia.
Qed.

(** ** Live allocations *)

(** An object: the address given out and the size asked for.  Its header and red zones
    are intact in memory. *)
Definition holds (p : pool) (m : memory) (o : Z * Z) : Prop :=
  let '(ptr, size) := o in 0 <= size < 2 ^ 32 /\
  exists lo, 0 <= lo /\ ptr = map p + 32 * lo + 16 /\ lo + blocks_of size <= 32 * nr_blocks p /\
    load 8 m (ptr - 16) = size_to_alloc_size size /\ load 4 m (ptr - 8) = SMALLOC_PRE_RED /\
    load 4 m (ptr - 16 + size_to_alloc_size size - 4) = SMALLOC_POST_RED.

Definition covers (p : pool) (x : Z) (o : Z * Z) : bool :=
  in_range ((fst o - 16 - map p) / 32) (blocks_of (snd o)) x.

(** The pool refines the live objects: each block is busy exactly when one object, and
    then only one, covers it. *)
Record heap_ok (p : pool) (m : memory) (live : list (Z * Z)) : Prop := mk_heap {
  heap_pool : pool_ok p;
  heap_holds : Forall (holds p m) live;
  heap_busy : forall x, 0 <= x < 32 * nr_blocks p ->
    zlength (List.filter (covers p x) live) = Z.b2z (busy (bitmap p) x) }.

(** Writes that leave the header and the red zones of an object alone. *)
Lemma holds_frame p p' m m' o : map p' = map p -> nr_blocks p' = nr_blocks p -> holds p m o ->
  (forall x, fst o - 16 <= x < fst o -> m' x = m x) ->
  (forall x, fst o + snd o <= x < fst o - 16 + size_to_alloc_size (snd o) -> m' x = m x) -> holds p' m' o.
Proof.
  destruct o as [ptr size]. cbn [fst snd]. intros Em En (Hs & lo & H1 & H2 & H3 & H4 & H5 & H6) Hhdr Hred.
  destruct (alloc_size_spec size Hs) as [Ha _]. split; [done|]. exists lo. rewrite Em, En. split_and!; try done.
  - rewrite <- H4. apply load_ext. intros x Hx. apply Hhdr. lia.
  - rewrite <- H5. apply load_ext. intros x Hx. apply Hhdr. lia.
  - rewrite <- H6. apply load_ext. intros x Hx. apply Hred. lia.
Qed.

(** The bytes of an object lie in the blocks that it covers. *)
Lemma covers_byte p m ptr size x : holds p m (ptr, size) -> ptr - 16 <= x < ptr - 16 + size_to_alloc_size size ->
  covers p ((x - map p) / 32) (ptr, size) = true /\ 0 <= (x - map p) / 32 < 32 * nr_blocks p.
Proof.
  intros (Hs & lo & H1 & H2 & H3 & _) Hx. destruct (blocks_of_spec size Hs) as [Hb Hle].
  unfold covers, in_range. cbn [fst snd]. assert ((ptr - 16 - map p) / 32 = lo) as ->.
  { symmetry. apply Z.div_unique with 0; lia. }
  assert (lo <= (x - map p) / 32) by (apply Z.div_le_lower_bound; lia).
  assert ((x - map p) / 32 < lo + blocks_of size) by (apply Z.div_lt_upper_bound; lia).
  destruct (Z.leb_spec lo ((x - map p) / 32)), (Z.ltb_spec ((x - map p) / 32) (lo + blocks_of size));
    split; done || lia.
Qed.

Lemma filter_two {A} (P : A -> bool) l x y : x ∈ l -> y ∈ l -> x <> y -> P x = true -> P y = true ->
  2 <= zlength (List.filter P l).
Proof.
  intros Hx Hy Hne Px Py. assert (length [x; y] <= length (List.filter P l))%nat as H; [|unfold zlength; cbn in H; lia].
  apply NoDup_incl_length.
  - constructor; [|constructor; [by intros []|constructor]]. intros [->|[]]. done.
  - intros z [<-|[<-|[]]]; apply List.filter_In; by rewrite <- list_elem_of_In.
Qed.

(** Two different objects share no byte of the pool. *)
Lemma live_apart p m live o o' x : heap_ok p m live -> o ∈ live -> o' ∈ live -> o <> o' ->
  fst o - 16 <= x < fst o - 16 + size_to_alloc_size (snd o) ->
  fst o' - 16 <= x < fst o' - 16 + size_to_alloc_size (snd o') -> False.
Proof.
  intros [_ Hh Hb] Ho Ho' Hne Hx Hx'. rewrite List.Forall_forall in Hh. destruct o as [a s], o' as [a' s'].
  pose proof (Hh _ (proj1 (list_elem_of_In _ _) Ho)) as H1. pose proof (Hh _ (proj1 (list_elem_of_In _ _) Ho')) as H2.
  destruct (covers_byte p m a s x H1 Hx) as [C1 R]. destruct (covers_byte p m a' s' x H2 Hx') as [C2 _].
  specialize (Hb _ R).
  pose proof (filter_two (covers p ((x - map p) / 32)) live _ _ Ho Ho' Hne C1 C2).
  destruct (busy (bitmap p) ((x - map p) / 32)); cbn in Hb; lia.
Qed.

Lemma postred_ptr_eq m hdr size : 0 <= size < 2 ^ 32 -> 0 <= hdr -> hdr + size_to_alloc_size size <= 2 ^ 64 -> hdr mod 4 = 0 ->
  load 8 m hdr = size_to_alloc_size size -> postred_ptr m hdr = hdr + size_to_alloc_size size - 4.
Proof.
  intros Hs Hh Hov Ha E. destruct (alloc_size_spec size Hs) as [Hsz Hm]. unfold postred_ptr. rewrite E.
  set (a := size_to_alloc_size size) in *. unfold addw at 2, subw. rewrite wrap_sub_l, (wrap_small 64 (hdr + a - 4)) by (unfold is_word; lia).
  unfold addw. rewrite align4 by (apply wrap_range; lia). unfold int_mask.
  pose proof (Z.div_mod hdr 4 ltac:(lia)). pose proof (Z.div_mod a 4 ltac:(lia)).
  replace (hdr + a - 4 + 3) with (4 * (hdr / 4 + a / 4 - 1) + 3) by lia.
  destruct (Z.eq_dec (hdr + a - 1) (2 ^ 64 - 1)) as [Eq|].
  - rewrite wrap_small by (unfold is_word; lia).
    rewrite <- (Z.div_unique (4 * (hdr / 4 + a / 4 - 1) + 3) 4 (hdr / 4 + a / 4 - 1) 3) by lia. lia.
  - rewrite wrap_small by (unfold is_word; lia).
    rewrite <- (Z.div_unique (4 * (hdr / 4 + a / 4 - 1) + 3) 4 (hdr / 4 + a / 4 - 1) 3) by lia. lia.
Qed.

(** What the header code of [smalloc_pool] writes at [hdr]. *)
Definition format (m : memory) (hdr size : Z) : memory :=
  zero_fill (fill_redzone (store 8 m hdr (size_to_alloc_size size)) hdr) (hdr + sizeof_block_hdr) size.

Lemma format_spec m hdr size : 0 <= size < 2 ^ 32 -> 0 <= hdr -> hdr + size_to_alloc_size size <= 2 ^ 64 -> hdr mod 4 = 0 ->
  let m' := format m hdr size in
  load 8 m' hdr = size_to_alloc_size size /\ load 4 m' (hdr + 8) = SMALLOC_PRE_RED /\
  load 4 m' (hdr + size_to_alloc_size size - 4) = SMALLOC_POST_RED /\
  (forall x, hdr + 16 <= x < hdr + 16 + size -> m' x = 0) /\
  (forall x, x < hdr \/ hdr + size_to_alloc_size size <= x -> m' x = m x).
Proof.
  intros Hs Hh Hov Ha m'. destruct (alloc_size_spec size Hs) as [Hsz Hm].
  assert (load 8 (store 8 m hdr (size_to_alloc_size size)) hdr = size_to_alloc_size size) as E1.
  { rewrite load_store. apply Z.mod_small. lia. }
  unfold m', format, fill_redzone. rewrite (postred_ptr_eq _ hdr size) by done. change sizeof_block_hdr with 16.
  set (a := size_to_alloc_size size) in *. split; [|split; [|split; [|split]]].
  - rewrite load_zero_other, !load_store_other by lia. done.
  - rewrite load_zero_other, load_store_other, load_store by lia. done.
  - rewrite load_zero_other, load_store by lia. done.
  - intros x Hx. unfold zero_fill. destruct (Z.leb_spec (hdr + 16) x), (Z.ltb_spec x (hdr + 16 + size)); try lia; done.
  - intros x Hx. unfold zero_fill. rewrite !store_other by lia.
    destruct (Z.leb_spec (hdr + 16) x), (Z.ltb_spec x (hdr + 16 + size)); try lia; done.
Qed.

(** No live object reaches into a free run. *)
Lemma live_not_free p m live o lo nr x : heap_ok p m live -> o ∈ live -> range_is (bitmap p) false lo nr ->
  fst o - 16 <= x < fst o - 16 + size_to_alloc_size (snd o) -> map p + 32 * lo <= x < map p + 32 * (lo + nr) -> False.
Proof.
  intros [_ Hh Hb] Ho Hr Hx Hx'. rewrite List.Forall_forall in Hh. destruct o as [a s].
  pose proof (Hh _ (proj1 (list_elem_of_In _ _) Ho)) as H1. destruct (covers_byte p m a s x H1 Hx) as [C R].
  specialize (Hb _ R). rewrite Hr in Hb.
  2: { split; [apply Z.div_le_lower_bound; lia|apply Z.div_lt_upper_bound; lia]. }
  assert (In (a, s) (List.filter (covers p ((x - map p) / 32)) live)) as Hin.
  { apply List.filter_In. split; [by apply list_elem_of_In|done]. }
  destruct (List.filter _ live); [done|]. unfold zlength in Hb. cbn in Hb. lia.
Qed.

Lemma filter_eq {A} (P Q : A -> bool) l : (forall x, P x = Q x) -> List.filter P l = List.filter Q l.
Proof. intros H. by apply List.filter_ext. Qed.

(** The objects that were live stay so in a pool with the same busy blocks of theirs. *)
Lemma heap_ok_same p p' m live : heap_ok p m live -> pool_ok p' -> bitmap p' = bitmap p -> map p' = map p ->
  nr_blocks p' = nr_blocks p -> heap_ok p' m live.
Proof.
  intros [Hp Hh Hb] Hp' Eb Em En. split; [done| |].
  - eapply List.Forall_impl; [|exact Hh]. intros o Ho. by apply (holds_frame p p' m m o).
  - intros x Hx. rewrite Eb. rewrite En in Hx. rewrite <- Hb by done. f_equal. apply filter_eq. intros o. unfold covers. by rewrite Em.
Qed.

Lemma heap_ok_take p p' m live lo size : heap_ok p m live -> 0 <= size < 2 ^ 32 -> pool_ok p' -> map p' = map p ->
  nr_blocks p' = nr_blocks p -> taken p (blocks_of size) lo (bitmap p') ->
  let m' := format m (map p + 32 * lo) size in
  heap_ok p' m' ((map p + 32 * lo + 16, size) :: live) /\
  (forall o x, o ∈ live -> fst o - 16 <= x < fst o - 16 + size_to_alloc_size (snd o) -> m' x = m x).
Proof.
  intros Hok Hs Hp' Em En (Hlo & Hfit & Hfree & _ & _ & Hbm) m'. destruct (alloc_size_spec size Hs) as [Ha _].
  destruct (ok_map p (heap_pool _ _ _ Hok)) as (Hm0 & Hma & Hmo). destruct (blocks_of_spec size Hs) as [_ Hbs].
  assert ((map p + 32 * lo) mod 4 = 0) as Hal.
  { rewrite (Z.div_mod (map p) 32), Hma by lia.
    replace (32 * (map p / 32) + 0 + 32 * lo) with ((8 * (map p / 32) + 8 * lo) * 4) by lia. apply Z.mod_mul. lia. }
  destruct (format_spec m (map p + 32 * lo) size Hs ltac:(lia) ltac:(lia) Hal) as (L1 & L2 & L3 & L4 & L5). fold m' in L1, L2, L3, L4, L5.
  assert (forall o x, o ∈ live -> fst o - 16 <= x < fst o - 16 + size_to_alloc_size (snd o) -> m' x = m x) as Hkeep.
  { intros o x Ho Hx. apply L5. destruct (Z.lt_ge_cases x (map p + 32 * lo)) as [|Hx1]; [by left|].
    destruct (Z.lt_ge_cases x (map p + 32 * lo + size_to_alloc_size size)) as [Hx2|]; [|by right].
    exfalso. apply (live_not_free p m live o lo (blocks_of size) x Hok Ho Hfree Hx). lia. }
  split; [|exact Hkeep]. destruct Hok as [Hp Hh Hb]. rewrite List.Forall_forall in Hh. split; [done| |].
  - constructor.
    + split; [done|]. exists lo. rewrite Em, En. split_and!; try done; try lia.
      * replace (map p + 32 * lo + 16 - 16) with (map p + 32 * lo) by lia. done.
      * replace (map p + 32 * lo + 16 - 8) with (map p + 32 * lo + 8) by lia. done.
      * replace (map p + 32 * lo + 16 - 16) with (map p + 32 * lo) by lia. done.
    + apply List.Forall_forall. intros o Ho. pose proof (Hh o Ho) as H1. destruct o as [a s]. pose proof (proj1 H1) as Hsz.
      destruct (alloc_size_spec s Hsz) as [Ha' _]. apply list_elem_of_In in Ho.
      apply (holds_frame p p' m m' (a, s) Em En H1); intros x Hx; apply (Hkeep (a, s)); cbn [fst snd] in *; done || lia.
  - intros x Hx. rewrite Hbm by lia. rewrite En in Hx. cbn [List.filter].
    rewrite (filter_eq (covers p' x) (covers p x)) by (intros o; unfold covers; by rewrite Em).
    assert (covers p' x (map p + 32 * lo + 16, size) = in_range lo (blocks_of size) x) as ->.
    { unfold covers. cbn [fst snd]. rewrite Em. f_equal. symmetry. apply Z.div_unique with 0; lia. }
    specialize (Hb x Hx). destruct (in_range lo (blocks_of size) x) eqn:Er; [|done].
    unfold in_range in Er. rewrite Hfree in Hb by (destruct (Z.leb_spec lo x), (Z.ltb_spec x (lo + blocks_of size)); done || lia).
    unfold zlength in *. cbn [length]. cbn in Hb. cbn. lia.
Qed.

Lemma heap_ok_perm p m live live' : live ≡ₚ live' -> heap_ok p m live -> heap_ok p m live'.
Proof.
  intros E [Hp Hh Hb]. split; [done|by rewrite <- E|]. intros x Hx. rewrite <- Hb by done.
  symmetry. by apply (count_if_perm (covers p x)).
Qed.

Lemma sfree_pool_live p m ptr size rest : heap_ok p m ((ptr, size) :: rest) ->
  exists p', sfree_pool p m ptr = Some p' /\ heap_ok p' m rest.
Proof.
  intros [Hp Hh Hb]. inversion_clear Hh as [|? ? Ho Hrest]. pose proof Ho as (Hs & lo & H1 & H2 & H3 & H4 & H5 & H6).
  pose proof (ok_size p Hp). pose proof (ok_nr p Hp) as Hlen. destruct (ok_map p Hp) as (Hm0 & Hma & Hmo).
  destruct (alloc_size_spec size Hs) as [Ha _]. destruct (blocks_of_spec size Hs) as [Hbp Hbs].
  assert (map p + 32 * lo = (8 * (map p / 32) + 8 * lo) * 4) as E4.
  { rewrite (Z.div_mod (map p) 32), Hma at 1 by lia. lia. }
  unfold sfree_pool, sfree_check_redzone, c_assert. change sizeof_block_hdr with 16.
  destruct (Z.eqb_spec ptr 0); [lia|]. rewrite (postred_ptr_eq m (ptr - 16) size) by
    (try done; try lia; replace (ptr - 16) with (map p + 32 * lo) by lia; rewrite E4; apply Z.mod_mul; lia).
  replace (ptr - 16 + 8) with (ptr - 8) by lia. rewrite H4, H5, H6, !Z.eqb_refl.
  unfold ptr_valid. change SMALLOC_BPL with 1024. change SMALLOC_BPB with 32. rewrite wrap_small by (unfold is_word; lia).
  destruct (Z.leb_spec (map p) (ptr - 16)), (Z.ltb_spec (ptr - 16) (map p + nr_blocks p * 1024)); try lia.
  cbn [andb mbind option_bind]. rewrite size_to_blocks_eq by lia. fold (blocks_of size).
  replace (ptr - 16 - map p) with (32 * lo) by lia.
  pose proof (Z.div_mod lo 32 ltac:(lia)). pose proof (Z.mod_pos_bound lo 32 ltac:(lia)).
  rewrite <- (Z.div_unique (32 * lo) 1024 (lo / 32) (32 * (lo mod 32))) by lia.
  rewrite <- (Z.mod_unique (32 * lo) 1024 (lo / 32) (32 * (lo mod 32))) by lia.
  replace (32 * (lo mod 32) / 32) with (lo mod 32) by (symmetry; rewrite Z.mul_comm; apply Z.div_mul; lia).
  assert (forall x, covers p x (ptr, size) = in_range lo (blocks_of size) x) as Hcov.
  { intros x. unfold covers. cbn [fst snd]. f_equal. symmetry. apply Z.div_unique with 0; lia. }
  assert (range_is (bitmap p) true lo (blocks_of size)) as Hbusy.
  { intros x Hx. specialize (Hb x ltac:(lia)). cbn [List.filter] in Hb. rewrite Hcov in Hb. unfold in_range in Hb.
    destruct (Z.leb_spec lo x), (Z.ltb_spec x (lo + blocks_of size)); try lia. unfold zlength in Hb. cbn [andb length] in Hb.
    destruct (busy (bitmap p) x); [done|]. cbn in Hb. lia. }
  unfold clear_blocks, iter_fuel.
  destruct (iter_flip true mask_clear (nr_blocks p) mask_clear_flips ltac:(lia) (S (length (bitmap p))) (bitmap p)
    (lo / 32) (lo mod 32) (blocks_of size)) as (bm & -> & Hbw & Hbl & Hbx);
    try done; try lia; [apply Hp|unfold zlength in *; lia|by replace (32 * (lo / 32) + lo mod 32) with lo by lia|].
  cbn [mbind option_bind]. replace (32 * (lo / 32) + lo mod 32) with lo in Hbx by lia. eexists. split; [done|].
  pose proof (count_free_flip (bitmap p) bm true lo (blocks_of size) ltac:(lia) ltac:(lia) ltac:(lia) ltac:(lia) Hbusy Hbx) as Hcount.
  pose proof (count_free_bounds bm). rewrite Hbl in *. cbn iota in Hcount.
  split; cbn [map bitmap free_blocks nr_blocks next_non_full].
  - split; cbn [map bitmap free_blocks nr_blocks next_non_full]; try done.
    + rewrite (ok_free p Hp), Hcount. apply wrap_small. unfold is_word. lia.
    + pose proof (ok_next p Hp). pose proof (Z.div_pos lo 32 ltac:(lia) ltac:(lia)). zcases; lia.
  - eapply List.Forall_impl; [|exact Hrest]. intros o Hoo. by apply (holds_frame p _ m m o).
  - intros x Hx. rewrite Hbx by lia. specialize (Hb x Hx). cbn [List.filter] in Hb. rewrite Hcov in Hb.
    rewrite (filter_eq (covers _ x) (covers p x)) by done.
    destruct (in_range lo (blocks_of size) x) eqn:Er; [|done]. unfold in_range in Er.
    rewrite (Hbusy x) in Hb by (destruct (Z.leb_spec lo x), (Z.ltb_spec x (lo + blocks_of size)); done || lia).
    unfold zlength in *. cbn [length] in Hb. cbn in Hb. cbn. lia.
Qed.

(** A pool with all blocks free. *)
Lemma zero_pool_ok ptr k m : 0 < ptr -> ptr mod 32 = 0 -> ptr + 2 ^ 32 <= 2 ^ 64 -> 0 <= k < 2 ^ 22 ->
  heap_ok (mk_pool ptr (replicate (Z.to_nat k) 0) (k * 32) k 0) m [].
Proof.
  intros Hp Ha Hov Hk.
  assert (forall x, busy (replicate (Z.to_nat k) 0) x = false) as Hfree by (intros x; unfold busy; by rewrite tbl_zeros, Z.bits_0).
  assert (zlength (replicate (Z.to_nat k) 0) = k) as Hl by (unfold zlength; rewrite length_replicate; lia).
  split; cbn [map bitmap free_blocks nr_blocks next_non_full].
  - split; cbn [map bitmap free_blocks nr_blocks next_non_full]; try done; try lia.
    + by apply Forall_replicate.
    + unfold count_free. rewrite Hl, count_all; [lia|lia|]. intros x _. by rewrite Hfree.
  - constructor.
  - intros x _. by rewrite Hfree.
Qed.

(** A pool as [add_pool] makes it. *)
Lemma add_pool_ok ptr alloc_size m : 0 < ptr -> ptr mod 32 = 0 -> ptr + 2 ^ 32 <= 2 ^ 64 -> 0 <= alloc_size < 2 ^ 32 - 2048 ->
  heap_ok (add_pool ptr alloc_size) m [].
Proof.
  intros Hp Ha Hov Hs. unfold add_pool. change sizeof_block_hdr with 16.
  assert (addw 32 (addw 32 alloc_size 4) 16 = alloc_size + 20) as ->.
  { unfold addw. rewrite wrap_add_l, wrap_small by (unfold is_word; lia). lia. }
  set (a := if alloc_size + 20 <? INITIAL_SIZE then INITIAL_SIZE else alloc_size + 20).
  assert (0 <= a < 2 ^ 32 - 2000) as Hr by (unfold a, INITIAL_SIZE; zcases; lia).
  assert (exists k, wrap 32 (addw 64 a (SMALLOC_BPL - 1) & notw 64 (SMALLOC_BPL - 1)) = 1024 * k /\ 0 <= k < 2 ^ 22) as (k & -> & Hk).
  { change (SMALLOC_BPL - 1) with (all_ones 10). unfold addw.
    rewrite (wrap_small 64) by (unfold is_word; change (all_ones 10) with 1023; lia).
    rewrite (align_down 10) by (unfold is_word; change (all_ones 10) with 1023; lia). change (all_ones 10) with 1023.
    pose proof (Z.div_mod (a + 1023) (2 ^ 10) ltac:(lia)). pose proof (Z.mod_pos_bound (a + 1023) (2 ^ 10) ltac:(lia)).
    exists ((a + 1023) / 2 ^ 10). rewrite wrap_small by (unfold is_word; lia). split; [done|lia]. }
  change SMALLOC_BPL with 1024. change SMALLOC_BPI with 32. rewrite Z.mul_comm, Z.div_mul by lia.
  apply zero_pool_ok; lia || done.
Qed.

(** The size survives but a red zone does not. *)
Lemma sfree_damaged p m live ptr size m' : heap_ok p m live -> (ptr, size) ∈ live ->
  load 8 m' (ptr - 16) = load 8 m (ptr - 16) ->
  load 4 m' (ptr - 8) <> SMALLOC_PRE_RED \/ load 4 m' (ptr - 16 + size_to_alloc_size size - 4) <> SMALLOC_POST_RED ->
  sfree_pool p m' ptr = None.
Proof.
  intros Hok Hin E8 Hdam. pose proof (heap_pool _ _ _ Hok) as Hp. destruct (ok_map p Hp) as (Hm0 & Hma & Hmo).
  pose proof (heap_holds _ _ _ Hok) as Hh. rewrite List.Forall_forall in Hh. apply list_elem_of_In, Hh in Hin.
  destruct Hin as (Hs & lo & H1 & H2 & H3 & H4 & _). destruct (alloc_size_spec size Hs) as [Ha _].
  destruct (blocks_of_spec size Hs) as [Hbp Hbs].
  assert (map p + 32 * lo = (8 * (map p / 32) + 8 * lo) * 4) as E4.
  { rewrite (Z.div_mod (map p) 32), Hma at 1 by lia. lia. }
  unfold sfree_pool, sfree_check_redzone, c_assert. change sizeof_block_hdr with 16.
  destruct (Z.eqb_spec ptr 0); [lia|]. rewrite (postred_ptr_eq m' (ptr - 16) size) by
    (try congruence; try lia; replace (ptr - 16) with (map p + 32 * lo) by lia; rewrite E4; apply Z.mod_mul; lia).
  destruct (ptr_valid p (ptr - 16)); [|done]. cbn [mbind option_bind]. replace (ptr - 16 + 8) with (ptr - 8) by lia.
  destruct (Z.eqb_spec (load 4 m' (ptr - 8)) SMALLOC_PRE_RED); [|done]. cbn [mbind option_bind].
  destruct (Z.eqb_spec (load 4 m' (ptr - 16 + size_to_alloc_size size - 4)) SMALLOC_POST_RED); [|done].
  by destruct Hdam.
Qed.

Lemma user_writes p m m' live : heap_ok p m live ->
  (forall x, m' x <> m x -> exists o, o ∈ live /\ fst o <= x < fst o + snd o) -> heap_ok p m' live.
Proof.
  intros Hok Hw. pose proof Hok as [Hp Hh Hb]. split; [done| |done]. apply List.Forall_forall. intros o Ho.
  rewrite List.Forall_forall in Hh. pose proof (Hh o Ho) as H1. apply list_elem_of_In in Ho.
  assert (forall x, fst o - 16 <= x < fst o - 16 + size_to_alloc_size (snd o) -> ~ (fst o <= x < fst o + snd o) -> m' x = m x) as Hkeep.
  { intros x Hx Hnot. destruct (Z.eq_dec (m' x) (m x)) as [|Hne]; [done|]. destruct (Hw x Hne) as (o' & Ho' & Hx').
    exfalso. destruct (decide (o = o')) as [->|Hneq]; [done|].
    apply (live_apart p m live o o' x Hok Ho Ho' Hneq Hx). apply list_elem_of_In, Hh in Ho'. destruct o' as [a s].
    destruct (alloc_size_spec s (proj1 Ho')). cbn [fst snd] in *. lia. }
  destruct o as [a s]. destruct (alloc_size_spec s (proj1 H1)) as [Hsz _]. pose proof (proj1 H1) as Hs. cbn [fst snd] in *.
  apply (holds_frame p p m m' (a, s) eq_refl eq_refl H1); cbn [fst snd]; intros x Hx; apply Hkeep; lia.
Qed.

(** * The properties *)

(** C22: Allocation from a pool refines the set of live objects.  On a pool whose busy
    blocks are exactly those of its live objects, a request either is refused and changes
    nothing but the search hint, or returns a 16-aligned object that is zeroed, has its
    header and red zones in place and shares no block with a live one, while no byte of a
    live object changes.  The search always ends; its only undefined outcome, [None],
    needs a word of the bitmap with a free block whose last block is busy. *)
Theorem smalloc_pool_refines p m live size : heap_ok p m live -> 0 <= size < 2 ^ 32 ->
  match smalloc_pool p m size with
  | None => tail_busy (bitmap p)
  | Some (None, p', m') => m' = m /\ heap_ok p' m live
  | Some (Some ptr, p', m') => heap_ok p' m' ((ptr, size) :: live) /\ ptr mod 16 = 0 /\
      (forall x, ptr <= x < ptr + size -> m' x = 0) /\
      (forall o x, o ∈ live -> fst o - 16 <= x < fst o - 16 + size_to_alloc_size (snd o) -> m' x = m x)
  end.
Proof.
  intros Hok Hs. pose proof (heap_pool _ _ _ Hok) as Hp. destruct (alloc_size_spec size Hs) as [Ha _].
  destruct (ok_map p Hp) as (Hm0 & Hma & Hmo). destruct (blocks_of_spec size Hs) as [_ Hbs].
  unfold smalloc_pool. pose proof (__smalloc_pool_spec p (size_to_alloc_size size) Hp ltac:(lia)) as Hspec.
  fold (blocks_of size) in Hspec. cbv zeta in Hspec.
  destruct (__smalloc_pool p (size_to_alloc_size size)) as [[[hdr|] p']|]; cbn [mbind option_bind]; [| |done].
  - destruct Hspec as (lo & -> & Hp' & Em & En & Ht).
    change (zero_fill _ _ _) with (format m (map p + 32 * lo) size). change sizeof_block_hdr with 16.
    destruct (heap_ok_take p p' m live lo size Hok Hs Hp' Em En Ht) as [H1 H2]. split; [done|].
    destruct Ht as (Hlo & Hfit & _).
    assert (map p + 32 * lo = (2 * (map p / 32) + 2 * lo) * 16) as E16.
    { rewrite (Z.div_mod (map p) 32), Hma at 1 by lia. lia. }
    split; [|split; [|done]].
    + rewrite E16. replace (_ * 16 + 16) with ((2 * (map p / 32) + 2 * lo + 1) * 16) by lia. apply Z.mod_mul. lia.
    + apply format_spec; try done; try lia. rewrite E16. replace (_ * 16) with ((4 * (2 * (map p / 32) + 2 * lo)) * 4) by lia.
      apply Z.mod_mul. lia.
  - split; [done|]. destruct Hspec as (H1 & H2 & H3 & H4). by eapply heap_ok_same.
Qed.


Definition three_words : pool := mk_pool 4096 (replicate (Z.to_nat 3) 0) (3 * 32) 3 0.

Example smalloc_pool_refines_witness :
  exists ptr p' m', smalloc_pool three_words (fun _ => 7) 100 = Some (Some ptr, p', m') /\ heap_ok p' m' [(ptr, 100)].
Proof.
  pose proof (smalloc_pool_refines three_words (fun _ => 7) [] 100 (zero_pool_ok 4096 3 _ ltac:(lia) eq_refl ltac:(lia) ltac:(lia))
    ltac:(lia)) as R.
  assert (match smalloc_pool three_words (fun _ => 7) 100 with Some (Some _, _, _) => true | _ => false end = true) as E
    by (vm_compute; reflexivity).
  destruct (smalloc_pool three_words (fun _ => 7) 100) as [[[[ptr|] p'] m']|]; [|discriminate E|discriminate E].
  exists ptr, p', m'. split; [reflexivity|exact (proj1 R)].
Defined.

(** C23: Release refines removal: a live object is freed without a failed assertion and
    exactly its blocks become free, in whatever order objects were allocated; the owners
    of live objects may write anything anywhere in them; a damaged red zone stops the
    release; and a pool just added holds no object. *)
Theorem sfree_pool_refines p m live : heap_ok p m live ->
  (forall ptr size rest, live ≡ₚ (ptr, size) :: rest ->
     exists p', sfree_pool p m ptr = Some p' /\ heap_ok p' m rest) /\
  (forall m', (forall x, m' x <> m x -> exists o, o ∈ live /\ fst o <= x < fst o + snd o) -> heap_ok p m' live) /\
  (forall ptr size m', (ptr, size) ∈ live -> load 8 m' (ptr - 16) = load 8 m (ptr - 16) ->
     load 4 m' (ptr - 8) <> SMALLOC_PRE_RED \/ load 4 m' (ptr - 16 + size_to_alloc_size size - 4) <> SMALLOC_POST_RED ->
     sfree_pool p m' ptr = None) /\
  (forall addr alloc_size m', 0 < addr -> addr mod 32 = 0 -> addr + 2 ^ 32 <= 2 ^ 64 -> 0 <= alloc_size < 2 ^ 32 - 2048 ->
     heap_ok (add_pool addr alloc_size) m' []).
Proof.
  intros Hok. split; [|split; [|split]].
  - intros ptr size rest E. apply (sfree_pool_live p m ptr size rest). by apply (heap_ok_perm p m live).
  - intros m' Hw. by apply (user_writes p m).
  - intros ptr size m' Hin E8 Hdamaged. by eapply (sfree_damaged p m live).
  - intros addr alloc_size m'. apply add_pool_ok.
Qed.

(** Three words, the first with ten free blocks below busy ones: a request for twelve
    blocks makes [find_next_zero] look at a word that, shifted as an [int], is full, and
    the mask of the next range is a shift by more than the word's width. *)
Definition fragmented : pool := mk_pool 4096 [0xfffffc00; 0; 0] 74 3 0.

Example smalloc_undefined : __smalloc_pool fragmented (12 * 32) = None /\ find_next_zero 0xfffffc00 12 = Some 75.
Proof. split; vm_compute; reflexivity. Qed.

Definition one_object : pool := mk_pool 4096 [15; 0; 0] 92 3 0.
Definition object_memory : memory := format (fun _ => 7) 4096 100.

Lemma one_object_ok : heap_ok one_object object_memory [(4112, 100)].
Proof.
  split.
  - split; cbn [one_object map bitmap free_blocks nr_blocks next_non_full].
    + repeat constructor; unfold is_word; lia.
    + reflexivity.
    + lia.
    + symmetry. vm_compute. reflexivity.
    + lia.
    + split; [lia|]. split; [reflexivity|lia].
  - constructor; [|constructor]. split; [lia|]. exists 0. split_and!; try (vm_compute; reflexivity); vm_compute; discriminate.
  - intros x Hx. cbn [one_object nr_blocks bitmap] in *. apply Z.eqb_eq.
    assert (forallb (fun x => zlength (List.filter (covers one_object x) [(4112, 100)]) =? Z.b2z (busy [15; 0; 0] x)) (seqZ 0 96) = true) as H
      by (vm_compute; reflexivity).
    rewrite forallb_forall in H. apply H, list_elem_of_In, elem_of_seqZ. lia.
Qed.

Example sfree_pool_refines_witness :
  exists p', sfree_pool one_object object_memory 4112 = Some p' /\ heap_ok p' object_memory [].
Proof.
  destruct (sfree_pool_refines one_object object_memory [(4112, 100)] one_object_ok) as (Hfree & _).
  apply (Hfree 4112 100 []). reflexivity.
Defined.
