(* ===== verification/Rand.v ===== *)
(** lib/rand.h and lib/rand.c: the Tausworthe generators, numbers in a range, and
    buffers filled with pseudo-random bytes. *)
From S2P Require Import Prelude Bits Stream Hash.
Local Open Scope word_scope.

(** * The generators *)

Record taus88_state : Type := mk_taus88 { s1 : Z; s2 : Z; s3 : Z }.
Record taus258_state : Type := mk_taus258 { t1 : Z; t2 : Z; t3 : Z; t4 : Z; t5 : Z }.

(** [frand_state]: the flag [use64] tells which member of the union is in use. *)
Inductive frand_state : Type :=
  | state32 (s : taus88_state)
  | state64 (s : taus258_state).

Definition use64 (s : frand_state) : bool := match s with state32 _ => false | state64 _ => true end.

Definition rand_max (s : frand_state) : Z := if use64 s then all_ones 64 else all_ones 32.

(** [TAUSWORTHE]: the constant [c] is an [unsigned long], so only the assignment truncates. *)
Definition TAUSWORTHE (s a b c d : Z) : Z :=
  wrap 32 (Z.shiftl (s & c) d ^^ ((shlw 32 s a ^^ s) >> b)).

Definition __rand32 (state : taus88_state) : Z * taus88_state :=
  let a := TAUSWORTHE (s1 state) 13 19 4294967294 12 in
  let b := TAUSWORTHE (s2 state) 2 25 4294967288 4 in
  let c := TAUSWORTHE (s3 state) 3 11 4294967280 17 in
  (a ^^ b ^^ c, mk_taus88 a b c).

(** The two assignments of a component of [__rand64]. *)
Definition taus64_step (s a b c d : Z) : Z :=
  let xval := (shlw 64 s a ^^ s) >> b in shlw 64 (s & c) d ^^ xval.

Definition __rand64 (state : taus258_state) : Z * taus258_state :=
  let a := taus64_step (t1 state) 1 53 18446744073709551614 10 in
  let b := taus64_step (t2 state) 24 50 18446744073709551104 5 in
  let c := taus64_step (t3 state) 3 23 18446744073709547520 29 in
  let d := taus64_step (t4 state) 5 24 18446744073709420544 23 in
  let e := taus64_step (t5 state) 3 33 18446744073701163008 8 in
  (a ^^ b ^^ c ^^ d ^^ e, mk_taus258 a b c d e).

Definition __rand (state : frand_state) : Z * frand_state :=
  match state with
  | state32 s => let '(r, s) := __rand32 s in (r, state32 s)
  | state64 s => let '(r, s) := __rand64 s in (r, state64 s)
  end.

(** ** Seeding *)

Definition __seed (x m : Z) : Z := if x <? m then addw 64 x m else x.

(** The constant [(2^31) + (2^17) + (2^7)] of the source: [^] is exclusive or. *)
Definition seed_constant : Z := Z.lxor 2 31 + Z.lxor 2 17 + Z.lxor 2 7.

Definition LCG (x seed : Z) : Z := mulw 32 x 69069 ^^ seed.
Definition LCG64 (x seed : Z) : Z := mulw 64 x 6906969069 ^^ seed.

Definition __init_rand32 (seed : Z) : taus88_state :=
  let a := wrap 32 (__seed (LCG seed_constant seed) 1) in
  let b := wrap 32 (__seed (LCG a seed) 7) in
  let c := wrap 32 (__seed (LCG b seed) 15) in
  Nat.iter 6 (fun s => snd (__rand32 s)) (mk_taus88 a b c).

Definition __init_rand64 (seed : Z) : taus258_state :=
  let a := __seed (LCG64 seed_constant seed) 1 in
  let b := __seed (LCG64 a seed) 7 in
  let c := __seed (LCG64 b seed) 15 in
  let d := __seed (LCG64 c seed) 33 in
  let e := __seed (LCG64 d seed) 49 in
  Nat.iter 6 (fun s => snd (__rand64 s)) (mk_taus258 a b c d e).

Definition init_rand (use64 : bool) : frand_state :=
  if use64 then state64 (__init_rand64 1) else state32 (__init_rand32 1).

Definition init_rand_seed (seed : Z) (use64 : bool) : frand_state :=
  if use64 then state64 (__init_rand64 seed) else state32 (__init_rand32 (wrap 32 seed)).

(** * Doubles

    The double nearest to the integer [n], ties to an even significand.  Multiplying by a
    power of two changes no significand, so the double nearest to [n / 2 ^ k] is
    [double_of n / 2 ^ k]; all values here are far from overflow and underflow. *)

Definition double_of (n : Z) : Z :=
  if n <? 2 ^ 53 then n else
  let k := Z.log2 n - 52 in
  let q := n / 2 ^ k in
  let r := n mod 2 ^ k in
  let up := (2 ^ (k - 1) <? r) || ((2 ^ (k - 1) =? r) && Z.odd q) in
  (if up then q + 1 else q) * 2 ^ k.

(** * Numbers in a range *)

(** [(int) ((double)end * (r / FRAND32_MAX_PLUS_ONE))]; the quotient is exact, and a value
    that [int] cannot hold is undefined. *)
Definition rand32_upto (state : frand_state) (last : Z) : option (Z * frand_state) :=
  match state with
  | state64 _ => None
  | state32 s =>
      let '(r, s) := __rand32 s in
      let last := addw 32 last 1 in
      let v := double_of (last * r) >> 32 in
      let* _ := c_assert (v <? 2 ^ 31) in
      Some (v, state32 s)
  end.

Definition rand64_upto (state : frand_state) (last : Z) : option (Z * frand_state) :=
  match state with
  | state32 _ => None
  | state64 s =>
      let '(r, s) := __rand64 s in
      let last := addw 64 last 1 in
      let v := double_of (double_of last * double_of r) >> 64 in
      let* _ := c_assert (v <? 2 ^ 64) in
      Some (v, state64 s)
  end.

Definition rand_between (state : frand_state) (start last : Z) : option (Z * frand_state) :=
  let* '(v, state) := (if use64 state then rand64_upto state (subw 64 last start)
                       else rand32_upto state (wrap 32 (subw 64 last start))) in
  Some (addw 64 start v, state).

(** An [int] and a pointer differ in size on the LP64 targets modelled here. *)
Definition __get_next_seed (fs : frand_state) : Z * frand_state :=
  let '(r, fs) := __rand fs in
  let '(r', fs) := __rand fs in
  (mulw 64 r r', fs).

(** * Random buffers *)

(** [for (; b != e; ++b) { *b = seed; seed = __hash_u64(seed); }], [n] words. *)
Fixpoint fill_words (n : nat) (seed : Z) : list Z * Z :=
  match n with
  | O => ([], seed)
  | S n => let '(l, s) := fill_words n (__hash_u64 seed) in (le_bytes 8 seed ++ l, s)
  end.

Definition __fill_random_buf_small (len seed : Z) : list Z :=
  let rest := len mod 8 in
  let '(l, seed) := fill_words (Z.to_nat (len / 8)) seed in
  if c_true rest then l ++ take (Z.to_nat rest) (le_bytes 8 seed) else l.

Definition prime : list Z := [1; 2; 3; 5; 7; 11; 13; 17; 19; 23; 29; 31; 37; 41; 43; 47].

(** The main loop over groups of one word per seed bucket. *)
Fixpoint fill_groups (n : nat) (s : list Z) : list Z * list Z :=
  match n with
  | O => ([], s)
  | S n => let '(l, s') := fill_groups n (__hash_u64 <$> s) in (concat (le_bytes 8 <$> s) ++ l, s')
  end.

(** The bytes that [__fill_random_buf] writes; [buckets] is [CONFIG_SEED_BUCKETS]. *)
Definition __fill_random_buf (buckets len seed : Z) : list Z :=
  let words := len / 8 / buckets * buckets in
  let rest := len - words * 8 in
  let s := mulw 64 seed <$> take (Z.to_nat buckets) prime in
  let '(l, s) := fill_groups (Z.to_nat (len / 8 / buckets)) s in
  l ++ __fill_random_buf_small rest (tbl s 0).

Definition fill_random_buf (buckets : Z) (fs : frand_state) (len : Z) : Z * list Z * frand_state :=
  let '(r, fs) := __get_next_seed fs in (r, __fill_random_buf buckets len r, fs).

(** * Proofs *)

(** ** The generators do not degenerate *)

(** The component [z] has a bit set among those that the next step keeps. *)
Definition alive (w k z : Z) : Prop := exists j, k <= j < w /\ Z.testbit z j = true.

(** The masks clear the low [k] bits. *)
Definition high_mask (w k : Z) : Z := shlw w (all_ones (w - k)) k.

Lemma high_mask_bits w k j : 0 <= k <= w -> 0 <= j -> Z.testbit (high_mask w k) j = (k <=? j) && (j <? w).
Proof.
  intros Hk Hj. unfold high_mask. rewrite shlw_bits by lia. destruct (Z.leb_spec k j).
  - rewrite all_ones_bits by lia. zcases; cbn; lia.
  - by rewrite Z.testbit_neg_r by lia.
Qed.

Definition taus (w s a b k d : Z) : Z := wrap w (Z.shiftl (s & high_mask w k) d ^^ ((shlw w s a ^^ s) >> b)).

Lemma taus_bits w s a b k d i : is_word w s -> 0 <= k -> 0 < a -> 0 <= b <= w -> 0 <= d -> d + k = w - b -> 0 <= i < w ->
  Z.testbit (taus w s a b k d) i =
    if w - b <=? i then Z.testbit s (i - d)
    else xorb (Z.testbit s (i + b - a)) (Z.testbit s (i + b)).
Proof.
  intros Hs Hk Ha Hb Hd Hdk Hi. unfold taus. rewrite wrap_bits, Z.lxor_spec, Z.shiftl_spec, Z.shiftr_spec, Z.land_spec, Z.lxor_spec by lia.
  rewrite shlw_bits by lia. destruct (Z.ltb_spec i w); [|lia]. rewrite andb_true_r.
  destruct (Z.leb_spec (w - b) i).
  - rewrite high_mask_bits by lia. destruct (Z.leb_spec k (i - d)), (Z.ltb_spec (i - d) w), (Z.ltb_spec (i + b) w); try lia.
    rewrite (is_word_bits w s (i + b)) by (done || lia). by rewrite andb_false_r, andb_true_r, !xorb_false_r.
  - destruct (Z.ltb_spec (i + b) w); [|lia]. rewrite andb_true_r.
    destruct (Z.lt_ge_cases (i - d) 0).
    + by rewrite (Z.testbit_neg_r _ (i - d)), xorb_false_l by lia.
    + rewrite high_mask_bits by lia. destruct (Z.leb_spec k (i - d)); [lia|]. by rewrite andb_false_r, xorb_false_l.
Qed.

(** The step is injective on the high bits, so they never all become zero. *)
Lemma taus_alive w s a b k d : is_word w s -> 0 <= k -> 0 < a -> 0 <= b <= w -> 0 <= d -> d + k = w - b ->
  k + a <= w - d -> alive w k s -> alive w k (taus w s a b k d).
Proof.
  intros Hs Hk Ha Hb Hd Hdk Hka (j & Hj & Hjb).
  destruct (existsb (Z.testbit (taus w s a b k d)) (seqZ k (w - k))) eqn:Hex.
  { apply existsb_exists in Hex as (i & Hi%list_elem_of_In%elem_of_seqZ & E). exists i. split; [lia|done]. }
  assert (forall i, k <= i < w -> Z.testbit (taus w s a b k d) i = false) as Hz.
  { intros i Hi. destruct (Z.testbit (taus w s a b k d) i) eqn:E; [|done].
    assert (existsb (Z.testbit (taus w s a b k d)) (seqZ k (w - k)) = true) as H; [|congruence].
    apply existsb_exists. exists i. split; [apply list_elem_of_In, elem_of_seqZ; lia|done]. }
  assert (forall n j, 0 <= j < Z.of_nat n -> k <= j < w -> Z.testbit s j = false) as Hall.
  { induction n as [|n IH]; intros x Hx Hxk; [lia|]. destruct (Z.lt_ge_cases x (w - d)).
    - specialize (Hz (x + d) ltac:(lia)). rewrite taus_bits in Hz by (done || lia).
      destruct (Z.leb_spec (w - b) (x + d)); [|lia]. by replace (x + d - d) with x in Hz by lia.
    - specialize (Hz (x - b) ltac:(lia)). rewrite taus_bits in Hz by (done || lia).
      destruct (Z.leb_spec (w - b) (x - b)); [lia|]. replace (x - b + b) with x in Hz by lia.
      rewrite (IH (x - a)) in Hz by lia. by rewrite xorb_false_l in Hz. }
  rewrite (Hall (Z.to_nat (j + 1)) j) in Hjb by lia. done.
Qed.

Lemma wrap_lxor w x y : 0 <= w -> wrap w (x ^^ y) = wrap w x ^^ wrap w y.
Proof.
  intros Hw. apply Z.bits_inj'. intros i Hi. rewrite wrap_bits, !Z.lxor_spec, !wrap_bits by lia.
  destruct (i <? w); by rewrite ?andb_false_r, ?andb_true_r.
Qed.

Lemma taus64_step_eq s a b k d : is_word 64 s -> 0 <= b -> taus64_step s a b (high_mask 64 k) d = taus 64 s a b k d.
Proof.
  intros Hs Hb. unfold taus64_step, taus. rewrite wrap_lxor by lia. f_equal. symmetry. apply wrap_small.
  apply is_word_shiftr; [lia|done|]. apply is_word_lxor; [lia|apply shlw_range; lia|done].
Qed.

Definition alive32 (s : taus88_state) : Prop :=
  (is_word 32 (s1 s) /\ alive 32 1 (s1 s)) /\ (is_word 32 (s2 s) /\ alive 32 3 (s2 s)) /\ (is_word 32 (s3 s) /\ alive 32 4 (s3 s)).

Definition alive64 (s : taus258_state) : Prop :=
  (is_word 64 (t1 s) /\ alive 64 1 (t1 s)) /\ (is_word 64 (t2 s) /\ alive 64 9 (t2 s)) /\
  (is_word 64 (t3 s) /\ alive 64 12 (t3 s)) /\ (is_word 64 (t4 s) /\ alive 64 17 (t4 s)) /\
  (is_word 64 (t5 s) /\ alive 64 23 (t5 s)).

Lemma taus_word w s a b k d : 0 <= w -> is_word w (taus w s a b k d).
Proof. intros. by apply wrap_range. Qed.

Lemma rand32_alive s : alive32 s -> is_word 32 (fst (__rand32 s)) /\ alive32 (snd (__rand32 s)).
Proof.
  intros ([W1 A1] & [W2 A2] & [W3 A3]). unfold __rand32. cbn [fst snd].
  change (TAUSWORTHE (s1 s) 13 19 4294967294 12) with (taus 32 (s1 s) 13 19 1 12).
  change (TAUSWORTHE (s2 s) 2 25 4294967288 4) with (taus 32 (s2 s) 2 25 3 4).
  change (TAUSWORTHE (s3 s) 3 11 4294967280 17) with (taus 32 (s3 s) 3 11 4 17).
  split; [repeat apply is_word_lxor; try lia; apply taus_word; lia|].
  split; [|split]; (split; [apply taus_word; lia|apply taus_alive; cbn; done || lia]).
Qed.

Lemma rand64_alive s : alive64 s -> is_word 64 (fst (__rand64 s)) /\ alive64 (snd (__rand64 s)).
Proof.
  intros ([W1 A1] & [W2 A2] & [W3 A3] & [W4 A4] & [W5 A5]). unfold __rand64. cbn [fst snd].
  change 18446744073709551614 with (high_mask 64 1). change 18446744073709551104 with (high_mask 64 9).
  change 18446744073709547520 with (high_mask 64 12). change 18446744073709420544 with (high_mask 64 17).
  change 18446744073701163008 with (high_mask 64 23). rewrite !taus64_step_eq by (done || lia).
  split; [repeat apply is_word_lxor; try lia; apply taus_word; lia|].
  split; [|split; [|split; [|split]]]; (split; [apply taus_word; lia|apply taus_alive; cbn; done || lia]).
Qed.

Definition aliveb (w k z : Z) : bool := existsb (Z.testbit z) (seqZ k (w - k)).

Lemma aliveb_true w k z : aliveb w k z = true -> alive w k z.
Proof. intros (j & Hj%list_elem_of_In%elem_of_seqZ & E)%existsb_exists. exists j. split; [lia|done]. Qed.

(** The states of the default seeds. *)
Lemma init_rand_alive : (exists s, init_rand false = state32 s /\ alive32 s) /\ (exists s, init_rand true = state64 s /\ alive64 s).
Proof.
  split; eexists; (split; [reflexivity|]); repeat split; try (apply aliveb_true; vm_compute; reflexivity); vm_compute; discriminate || reflexivity.
Qed.

(** The Tausworthe generators never degenerate: the step of each of the eight
    components is injective on the bits it keeps, so a state whose components all have a
    bit there - as those of the default seeds have - is followed by such states for ever,
    and every number drawn is a word of the generator's width. *)
Theorem generators_stay_alive n :
  (forall s, alive32 s -> let s' := Nat.iter n (fun s => snd (__rand32 s)) s in alive32 s' /\ is_word 32 (fst (__rand32 s'))) /\
  (forall s, alive64 s -> let s' := Nat.iter n (fun s => snd (__rand64 s)) s in alive64 s' /\ is_word 64 (fst (__rand64 s'))) /\
  (exists s, init_rand false = state32 s /\ alive32 s) /\ (exists s, init_rand true = state64 s /\ alive64 s).
Proof.
  split; [|split; [|exact init_rand_alive]]; intros s Hs; cbv zeta.
  - assert (alive32 (Nat.iter n (fun s => snd (__rand32 s)) s)) as H by (induction n; [done|by apply rand32_alive]).
    split; [done|]. by apply rand32_alive.
  - assert (alive64 (Nat.iter n (fun s => snd (__rand64 s)) s)) as H by (induction n; [done|by apply rand64_alive]).
    split; [done|]. by apply rand64_alive.
Qed.

(** A seed for which the first component starts as one and dies in the first step; the
    threshold of [__seed] lets it through. *)
Example seed_degenerates :
  let seed := Z.lxor (seed_constant * 69069) 1 in
  wrap 32 (__seed (LCG seed_constant seed) 1) = 1 /\ s1 (__init_rand32 seed) = 0.
Proof. split; vm_compute; reflexivity. Qed.

Example generators_stay_alive_witness : exists s, init_rand true = state64 s /\ alive64 (Nat.iter 1000 (fun s => snd (__rand64 s)) s).
Proof.
  destruct (generators_stay_alive 1000) as (_ & H & _ & s & E & A). exists s. split; [exact E|]. exact (proj1 (H s A)).
Defined.

(** ** Rounding *)

Lemma double_of_error n : 0 <= n -> 2 ^ 53 * Z.abs (double_of n - n) <= n /\ 0 <= double_of n.
Proof.
  intros Hn. unfold double_of. destruct (Z.ltb_spec n (2 ^ 53)); [split; lia|].
  assert (53 <= Z.log2 n) as Hl by (apply Z.log2_le_pow2; lia). set (k := Z.log2 n - 52).
  pose proof (Z.log2_spec n ltac:(lia)) as [Hlo _].
  assert (2 ^ Z.log2 n = 2 ^ 53 * 2 ^ (k - 1)) as E by (rewrite <- Z.pow_add_r by lia; f_equal; lia).
  assert (2 ^ k = 2 * 2 ^ (k - 1)) as Ek by (rewrite <- Z.pow_succ_r by lia; f_equal; lia).
  pose proof (Z.pow_pos_nonneg 2 (k - 1) ltac:(lia) ltac:(lia)). set (h := 2 ^ (k - 1)) in *. rewrite Ek.
  pose proof (Z.div_mod n (2 * h) ltac:(lia)) as Hdm. pose proof (Z.mod_pos_bound n (2 * h) ltac:(lia)) as Hb.
  pose proof (Z.div_pos n (2 * h) ltac:(lia) ltac:(lia)).
  set (q := n / (2 * h)) in *. set (r := n mod (2 * h)) in *.
  assert (forall c, Z.abs (c - n) <= h -> 2 ^ 53 * Z.abs (c - n) <= n) as Hgo by (intros c Hc; nia).
  destruct ((h <? r) || ((h =? r) && Z.odd q)) eqn:Eup.
  - assert (h <= r) by (destruct (Z.ltb_spec h r), (Z.eqb_spec h r); cbn in Eup; done || lia).
    split; [apply Hgo; nia|nia].
  - assert (r <= h) by (destruct (Z.ltb_spec h r), (Z.eqb_spec h r); cbn in Eup; done || lia).
    split; [apply Hgo; nia|nia].
Qed.

Lemma double_of_small n : n < 2 ^ 53 -> double_of n = n.
Proof. intros. unfold double_of. by destruct (Z.ltb_spec n (2 ^ 53)); [|lia]. Qed.

Lemma double_of_exact n w : 0 <= n < 2 ^ 53 -> 0 <= w -> double_of (n * 2 ^ w) = n * 2 ^ w.
Proof.
  intros Hn Hw. unfold double_of. destruct (Z.ltb_spec (n * 2 ^ w) (2 ^ 53)) as [|Hge]; [done|].
  pose proof (Z.pow_pos_nonneg 2 w ltac:(lia) Hw). assert (0 < n) by nia.
  assert (Z.log2 (n * 2 ^ w) = Z.log2 n + w) as El by (rewrite Z.log2_mul_pow2; lia).
  assert (Z.log2 n < 53) by (apply Z.log2_lt_pow2; lia).
  assert (53 <= Z.log2 (n * 2 ^ w)) by (apply Z.log2_le_pow2; lia). rewrite El in *.
  set (k := Z.log2 n + w - 52). assert (n * 2 ^ w = n * 2 ^ (w - k) * 2 ^ k) as E.
  { rewrite <- Z.mul_assoc, <- Z.pow_add_r by lia. do 2 f_equal. lia. }
  pose proof (Z.pow_pos_nonneg 2 (k - 1) ltac:(lia) ltac:(lia)). pose proof (Z.pow_pos_nonneg 2 k ltac:(lia) ltac:(lia)).
  rewrite E, Z.mod_mul, Z.div_mul by lia. destruct (Z.ltb_spec (2 ^ (k - 1)) 0), (Z.eqb_spec (2 ^ (k - 1)) 0); try lia. done.
Qed.

(** The largest 64-bit words round up to [2 ^ 64]; the others stay clear of it. *)
Lemma double_of_word r : is_word 64 r ->
  if r <? 2 ^ 64 - 1024 then 0 <= double_of r <= 2 ^ 64 - 2048 else double_of r = 2 ^ 64.
Proof.
  intros Hr. unfold is_word in Hr. destruct (Z.ltb_spec r (2 ^ 64 - 1024)).
  - destruct (Z.lt_ge_cases r (2 ^ 63)); [pose proof (double_of_error r ltac:(lia)); lia|].
    split; [apply double_of_error; lia|]. unfold double_of. destruct (Z.ltb_spec r (2 ^ 53)); [lia|].
    assert (Z.log2 r = 63) as -> by (apply Z.log2_unique; lia). change (63 - 52) with 11. change (2 ^ (11 - 1)) with 1024.
    change (2 ^ 11) with 2048. pose proof (Z.div_mod r 2048 ltac:(lia)). pose proof (Z.mod_pos_bound r 2048 ltac:(lia)).
    assert (r / 2048 < 2 ^ 53) by (apply Z.div_lt_upper_bound; lia).
    destruct ((1024 <? r mod 2048) || ((1024 =? r mod 2048) && Z.odd (r / 2048))) eqn:E; [|lia].
    assert (1024 <= r mod 2048) by (destruct (Z.ltb_spec 1024 (r mod 2048)), (Z.eqb_spec 1024 (r mod 2048)); cbn in E; done || lia). lia.
  - unfold double_of. destruct (Z.ltb_spec r (2 ^ 53)); [lia|]. assert (Z.log2 r = 63) as -> by (apply Z.log2_unique; lia).
    change (63 - 52) with 11. change (2 ^ (11 - 1)) with 1024. change (2 ^ 11) with 2048.
    assert (r / 2048 = 2 ^ 53 - 1) as E by (symmetry; apply Z.div_unique with (r - 2048 * (2 ^ 53 - 1)); lia).
    assert (r mod 2048 = r - 2048 * (2 ^ 53 - 1)) as Em by (symmetry; apply Z.mod_unique with (2 ^ 53 - 1); lia).
    rewrite E, Em. destruct (Z.ltb_spec 1024 (r - 2048 * (2 ^ 53 - 1))); cbn [orb]; [lia|].
    destruct (Z.eqb_spec 1024 (r - 2048 * (2 ^ 53 - 1))); [|lia]. change (Z.odd (2 ^ 53 - 1)) with true. cbn. lia.
Qed.

(** [n] times a fraction below one, rounded, is below [n]. *)
Lemma scale_below n x w : 0 < n -> 0 <= w -> 0 <= x -> 2 ^ 53 * x <= (2 ^ 53 - 1) * (n * 2 ^ w) -> 0 <= double_of x >> w < n.
Proof.
  intros Hn Hw Hx Hlt. pose proof (double_of_error x Hx) as [He Hp]. rewrite Z.shiftr_div_pow2 by done.
  pose proof (Z.pow_pos_nonneg 2 w ltac:(lia) Hw). split; [by apply Z.div_pos|]. apply Z.div_lt_upper_bound; [lia|].
  rewrite (Z.mul_comm n) in Hlt. set (N := 2 ^ w * n) in *. assert (0 < N) by (unfold N; nia). lia.
Qed.

(** ** Numbers in a range *)

Lemma rand32_upto_spec s last : alive32 s -> 0 <= last < 2 ^ 31 - 1 ->
  exists v, rand32_upto (state32 s) last = Some (v, state32 (snd (__rand32 s))) /\ 0 <= v <= last.
Proof.
  intros Hs Hlast. pose proof (rand32_alive s Hs) as [Hr _]. unfold rand32_upto.
  destruct (__rand32 s) as [r s'] eqn:E. cbn [fst snd] in *. unfold is_word in Hr.
  assert (addw 32 last 1 = last + 1) as -> by (apply wrap_small; unfold is_word; lia).
  assert (0 <= double_of ((last + 1) * r) >> 32 < last + 1) as Hv by (apply scale_below; nia).
  unfold c_assert. destruct (Z.ltb_spec (double_of ((last + 1) * r) >> 32) (2 ^ 31)); [|lia].
  cbn [mbind option_bind]. eexists. split; [done|lia].
Qed.

Lemma rand64_upto_spec s last : alive64 s -> 0 <= last < 2 ^ 53 - 1 ->
  exists v, rand64_upto (state64 s) last = Some (v, state64 (snd (__rand64 s))) /\
    0 <= v <= last + 1 /\ (v = last + 1 <-> 2 ^ 64 - 1024 <= fst (__rand64 s)).
Proof.
  intros Hs Hlast. pose proof (rand64_alive s Hs) as [Hr _]. unfold rand64_upto.
  destruct (__rand64 s) as [r s'] eqn:E. cbn [fst snd] in *.
  assert (addw 64 last 1 = last + 1) as -> by (apply wrap_small; unfold is_word; lia).
  rewrite (double_of_small (last + 1)) by lia. pose proof (double_of_word r Hr) as Hd.
  destruct (Z.ltb_spec r (2 ^ 64 - 1024)).
  - assert (0 <= double_of ((last + 1) * double_of r) >> 64 < last + 1) as Hv.
    { set (d := double_of r) in *. apply scale_below; nia. }
    unfold c_assert. destruct (Z.ltb_spec (double_of ((last + 1) * double_of r) >> 64) (2 ^ 64)); [|lia].
    cbn [mbind option_bind]. eexists. split; [done|]. split; lia.
  - rewrite Hd. assert (double_of ((last + 1) * 2 ^ 64) >> 64 = last + 1) as ->.
    { rewrite double_of_exact by lia. rewrite Z.shiftr_div_pow2 by lia. apply Z.div_mul. lia. }
    unfold c_assert. destruct (Z.ltb_spec (last + 1) (2 ^ 64)); [|lia]. cbn [mbind option_bind]. eexists. split; [done|]. split; lia.
Qed.

Lemma rand_between32 s start last : alive32 s -> 0 <= start <= last -> last < 2 ^ 64 -> last - start < 2 ^ 31 - 1 ->
  exists v, rand_between (state32 s) start last = Some (v, state32 (snd (__rand32 s))) /\ start <= v <= last.
Proof.
  intros Hs Hsl Hl Hd. unfold rand_between. cbn [use64].
  assert (wrap 32 (subw 64 last start) = last - start) as ->.
  { unfold subw. rewrite (wrap_small 64), wrap_small by (unfold is_word; lia). done. }
  destruct (rand32_upto_spec s (last - start) Hs ltac:(lia)) as (v & -> & Hv). cbn [mbind option_bind].
  exists (start + v). unfold addw. rewrite wrap_small by (unfold is_word; lia). split; [done|lia].
Qed.

Lemma rand_between64 s start last : alive64 s -> 0 <= start <= last -> last < 2 ^ 64 - 1 -> last - start < 2 ^ 53 - 1 ->
  exists v, rand_between (state64 s) start last = Some (v, state64 (snd (__rand64 s))) /\ start <= v <= last + 1 /\
    (v = last + 1 <-> 2 ^ 64 - 1024 <= fst (__rand64 s)).
Proof.
  intros Hs Hsl Hl Hd. unfold rand_between. cbn [use64].
  assert (subw 64 last start = last - start) as -> by (apply wrap_small; unfold is_word; lia).
  destruct (rand64_upto_spec s (last - start) Hs ltac:(lia)) as (v & -> & Hv & Hiff). cbn [mbind option_bind].
  exists (start + v). unfold addw. rewrite wrap_small by (unfold is_word; lia). split; [done|]. split; [lia|].
  rewrite <- Hiff. lia.
Qed.

(** C25: [rand_between] keeps its bounds, both inclusive, on the 32-bit generator for
    every range that an [int] can hold; on the 64-bit generator, for ranges below 2^53,
    it keeps the lower bound and exceeds the upper one, by one, exactly when the number
    drawn is one of the 1024 largest words, which as doubles are 2^64. *)
Theorem rand_between_bounds start last : 0 <= start <= last -> last < 2 ^ 64 - 1 ->
  (forall s, alive32 s -> last - start < 2 ^ 31 - 1 ->
     exists v, rand_between (state32 s) start last = Some (v, state32 (snd (__rand32 s))) /\ start <= v <= last) /\
  (forall s, alive64 s -> last - start < 2 ^ 53 - 1 ->
     exists v, rand_between (state64 s) start last = Some (v, state64 (snd (__rand64 s))) /\
       start <= v <= last + 1 /\ (v = last + 1 <-> 2 ^ 64 - 1024 <= fst (__rand64 s))).
Proof.
  intros Hsl Hl. split; intros s Hs Hd; [apply rand_between32; done || lia|apply rand_between64; done || lia].
Qed.

Example rand_between_bounds_witness : exists s v, init_rand false = state32 s /\
  rand_between (state32 s) 1 100 = Some (v, state32 (snd (__rand32 s))) /\ 1 <= v <= 100.
Proof.
  destruct (proj1 init_rand_alive) as (s & E & A). destruct (rand_between_bounds 1 100 ltac:(lia) ltac:(lia)) as [H _].
  destruct (H s A ltac:(lia)) as (v & Ev & Hv). exists s, v. split; [exact E|]. split; [exact Ev|exact Hv].
Defined.

(** Ranges that [int] cannot hold: the conversion is undefined for some draw; and at the
    full 32-bit range the increment wraps to zero, so the result is always the start. *)
Example rand32_wide_undefined : exists s, alive32 s /\ rand32_upto (state32 s) (2 ^ 32 - 2) = None.
Proof.
  exists (mk_taus88 (2 ^ 19) 8 (2 ^ 12)). split.
  - repeat split; try (apply aliveb_true; vm_compute; reflexivity); vm_compute; discriminate || reflexivity.
  - vm_compute. reflexivity.
Qed.

(** ** Buffers *)

Definition hash_iter (n : nat) (s : Z) : Z := Nat.iter n __hash_u64 s.

Lemma hash_iter_S n s : hash_iter n (__hash_u64 s) = hash_iter (S n) s.
Proof. symmetry. apply Nat.iter_succ_r. Qed.

Lemma fill_words_spec n : forall seed,
  fill_words n seed = (concat ((fun i => le_bytes 8 (hash_iter i seed)) <$> seq 0 n), hash_iter n seed).
Proof.
  induction n as [|n IH]; intros seed; [done|]. cbn [fill_words]. rewrite IH. f_equal; [|apply hash_iter_S].
  cbn [seq fmap list_fmap concat]. do 2 f_equal. rewrite <- seq_shift, <- list_fmap_compose.
  apply list_fmap_ext. intros i x _. cbn. by rewrite hash_iter_S.
Qed.

Lemma fill_groups_spec n : forall s,
  fill_groups n s = (concat ((fun i => concat ((fun x => le_bytes 8 (hash_iter i x)) <$> s)) <$> seq 0 n), hash_iter n <$> s).
Proof.
  induction n as [|n IH]; intros s; cbn [fill_groups].
  - f_equal. induction s; [done|]. cbn. by f_equal.
  - rewrite IH. cbn [seq fmap list_fmap concat]. f_equal.
    + f_equal. rewrite <- seq_shift, <- list_fmap_compose. f_equal. apply list_fmap_ext. intros i x _. cbn.
      f_equal. rewrite <- list_fmap_compose. apply list_fmap_ext. intros j y _. cbn. by rewrite hash_iter_S.
    + rewrite <- list_fmap_compose. apply list_fmap_ext. intros j y _. cbn. apply hash_iter_S.
Qed.

(** The bytes of the words [f 0], [f 1], ... *)
Definition words_bytes (f : nat -> Z) (from n : nat) : list Z := concat ((fun i => le_bytes 8 (f i)) <$> seq from n).

Lemma words_bytes_length f from n : length (words_bytes f from n) = (8 * n)%nat.
Proof.
  revert from. induction n as [|n IH]; intros from; [done|]. unfold words_bytes in *. cbn [seq fmap list_fmap concat].
  rewrite length_app, le_bytes_length, IH. lia.
Qed.

Lemma words_bytes_app f from n k : words_bytes f from (n + k) = words_bytes f from n ++ words_bytes f (from + n) k.
Proof. unfold words_bytes. by rewrite seq_app, fmap_app, concat_app. Qed.

Lemma words_bytes_ext f g from n : (forall i, (from <= i < from + n)%nat -> f i = g i) -> words_bytes f from n = words_bytes g from n.
Proof.
  intros H. unfold words_bytes. f_equal. apply list_fmap_ext. intros i x Hx. apply lookup_seq in Hx as [-> Hi]. rewrite H; [done|lia].
Qed.

Lemma words_bytes_shift f from n k : words_bytes f (from + k) n = words_bytes (fun i => f (i + k)%nat) from n.
Proof.
  revert from. induction n as [|n IH]; intros from; [done|]. unfold words_bytes in *. cbn [seq fmap list_fmap concat].
  f_equal. apply (IH (S from)).
Qed.

(** Word [i] of a buffer with [n] groups of [B] words. *)
Definition buffer_word (B n : nat) (seed : Z) (i : nat) : Z :=
  if (i <? n * B)%nat then hash_iter (i / B) (mulw 64 seed (tbl prime (Z.of_nat (i mod B))))
  else hash_iter (n + (i - n * B)) (mulw 64 seed 1).

Lemma fill_small_spec len seed : 0 <= len ->
  __fill_random_buf_small len seed = take (Z.to_nat len) (words_bytes (fun i => hash_iter i seed) 0 (S (Z.to_nat (len / 8)))).
Proof.
  intros Hl. unfold __fill_random_buf_small. rewrite fill_words_spec. fold (words_bytes (fun i => hash_iter i seed) 0 (Z.to_nat (len / 8))).
  replace (S (Z.to_nat (len / 8))) with (Z.to_nat (len / 8) + 1)%nat by lia. rewrite words_bytes_app.
  pose proof (Z.div_mod len 8 ltac:(lia)). pose proof (Z.mod_pos_bound len 8 ltac:(lia)). pose proof (Z.div_pos len 8 ltac:(lia) ltac:(lia)).
  rewrite take_app, words_bytes_length, (take_ge (words_bytes _ 0 (Z.to_nat (len / 8)))) by (rewrite words_bytes_length; lia).
  replace (Z.to_nat len - 8 * Z.to_nat (len / 8))%nat with (Z.to_nat (len mod 8)) by lia.
  destruct (c_true (len mod 8)) eqn:Ec.
  - by f_equal.
  - apply c_true_false_iff in Ec. rewrite Ec. by rewrite app_nil_r.
Qed.

Lemma fill_groups_words (B : nat) seed : (0 < B <= 16)%nat -> forall n,
  fst (fill_groups n (mulw 64 seed <$> take B prime)) = words_bytes (buffer_word B n seed) 0 (n * B).
Proof.
  intros HB. set (s := mulw 64 seed <$> take B prime). assert (length s = B) as Hs.
  { unfold s. rewrite length_fmap, length_take. change (length prime) with 16%nat. lia. }
  assert (forall n, concat ((fun i => concat ((fun x => le_bytes 8 (hash_iter i x)) <$> s)) <$> seq 0 n) =
    words_bytes (fun i => hash_iter (i / B) (tbl s (Z.of_nat (i mod B)))) 0 (n * B)) as H.
  { induction n as [|n IH]; [done|]. rewrite seq_S, fmap_app, concat_app, IH. replace (S n * B)%nat with (n * B + B)%nat by lia.
    rewrite words_bytes_app. f_equal. cbn [fmap list_fmap concat]. rewrite app_nil_r, words_bytes_shift.
    rewrite (words_bytes_ext _ (fun i => hash_iter n (tbl s (Z.of_nat i)))).
    2: { intros i Hi. f_equal; [symmetry; apply Nat.div_unique with i; lia|]. do 2 f_equal. symmetry. apply Nat.mod_unique with n; lia. }
    unfold words_bytes. f_equal. apply list_eq. intros i. rewrite !list_lookup_fmap.
    destruct (decide (i < B)%nat).
    - rewrite lookup_seq_lt by lia. cbn. unfold tbl. rewrite nth_lookup, Nat2Z.id.
      by destruct (lookup_lt_is_Some_2 s i ltac:(lia)) as [x ->].
    - rewrite lookup_seq_ge, lookup_ge_None_2 by lia. done. }
  intros n. rewrite fill_groups_spec. cbn [fst]. rewrite H. apply words_bytes_ext. intros i Hi. unfold buffer_word.
  destruct (Nat.ltb_spec i (n * B)); [|lia]. f_equal. unfold s, tbl.
  pose proof (Nat.mod_upper_bound i B ltac:(lia)).
  rewrite !nth_lookup, Nat2Z.id, list_lookup_fmap, lookup_take_lt by lia.
  by destruct (lookup_lt_is_Some_2 prime (i mod B)%nat) as [x ->]; [change (length prime) with 16%nat; lia|].
Qed.

Lemma fill_random_buf_spec (B : nat) len seed : (0 < B <= 16)%nat -> 0 <= len ->
  __fill_random_buf (Z.of_nat B) len seed =
    take (Z.to_nat len) (words_bytes (buffer_word B (Z.to_nat (len / 8 / Z.of_nat B)) seed) 0 (S (Z.to_nat (len / 8)))).
Proof.
  intros HB Hl. set (n := Z.to_nat (len / 8 / Z.of_nat B)).
  pose proof (Z.div_mod len 8 ltac:(lia)). pose proof (Z.mod_pos_bound len 8 ltac:(lia)).
  pose proof (Z.div_pos len 8 ltac:(lia) ltac:(lia)). pose proof (Z.div_pos (len / 8) (Z.of_nat B) ltac:(lia) ltac:(lia)).
  pose proof (Z.mul_div_le (len / 8) (Z.of_nat B) ltac:(lia)).
  assert (len / 8 / Z.of_nat B * Z.of_nat B = Z.of_nat (n * B)) as En by (unfold n; lia).
  unfold __fill_random_buf. rewrite En, Nat2Z.id. fold n.
  pose proof (fill_groups_words B seed HB n) as Hg. rewrite fill_groups_spec in *. cbn [fst] in Hg. rewrite Hg.
  rewrite fill_small_spec by lia. replace (S (Z.to_nat (len / 8))) with (n * B + S (Z.to_nat (len / 8) - n * B))%nat by lia.
  rewrite words_bytes_app, take_app, words_bytes_length, (take_ge (words_bytes _ 0 (n * B))) by (rewrite words_bytes_length; lia).
  f_equal. replace (Z.to_nat (len - Z.of_nat (n * B) * 8)) with (Z.to_nat len - 8 * (n * B))%nat by lia.
  f_equal. replace ((len - Z.of_nat (n * B) * 8) / 8) with (len / 8 - Z.of_nat (n * B)).
  2: { symmetry. rewrite <- Z.add_opp_r, <- Z.mul_opp_l, Z.div_add by lia. lia. }
  replace (Z.to_nat (len / 8 - Z.of_nat (n * B))) with (Z.to_nat (len / 8) - n * B)%nat by lia.
  rewrite (words_bytes_shift _ 0 _ (n * B)). apply words_bytes_ext. intros i Hi. unfold buffer_word.
  destruct (Nat.ltb_spec (i + n * B) (n * B)); [lia|]. replace (i + n * B - n * B)%nat with i by lia.
  destruct B as [|B]; [lia|]. change (tbl _ 0) with (hash_iter n (mulw 64 seed 1)).
  unfold hash_iter. rewrite <- Nat.iter_add. f_equal. lia.
Qed.

Lemma fill_random_buf_length (B : nat) len seed : (0 < B <= 16)%nat -> 0 <= len -> zlength (__fill_random_buf (Z.of_nat B) len seed) = len.
Proof.
  intros HB Hl. rewrite fill_random_buf_spec by done. unfold zlength. rewrite length_take, words_bytes_length.
  pose proof (Z.div_mod len 8 ltac:(lia)). pose proof (Z.mod_pos_bound len 8 ltac:(lia)). lia.
Qed.

Lemma fill_random_buf_bytes (B : nat) len seed : (0 < B <= 16)%nat -> 0 <= len -> Forall (is_word 8) (__fill_random_buf (Z.of_nat B) len seed).
Proof.
  intros HB Hl. rewrite fill_random_buf_spec by done. apply Forall_take. unfold words_bytes. apply Forall_concat, Forall_fmap, Forall_forall.
  intros i _. apply le_bytes_bytes.
Qed.

(** A random buffer is the sequence of words that its seed determines: with [B]
    seed buckets and [n] whole groups, word [i] is the [i / B]-th hash of the seed times
    the [i mod B]-th prime, the words after the last whole group continue the first
    bucket, and a last part of a word is the start of the next one.  Every byte of the
    buffer is written and none beyond it. *)
Theorem fill_random_buf_words (B : nat) len seed : (0 < B <= 16)%nat -> 0 <= len ->
  __fill_random_buf (Z.of_nat B) len seed =
    take (Z.to_nat len) (words_bytes (buffer_word B (Z.to_nat (len / 8 / Z.of_nat B)) seed) 0 (S (Z.to_nat (len / 8)))) /\
  zlength (__fill_random_buf (Z.of_nat B) len seed) = len.
Proof. intros HB Hl. split; [by apply fill_random_buf_spec|by apply fill_random_buf_length]. Qed.

Example fill_random_buf_words_witness : zlength (__fill_random_buf 4 77 12345) = 77.
Proof. exact (proj2 (fill_random_buf_words 4 77 12345 ltac:(lia) ltac:(lia))). Defined.
