(* ===== verification/Period.v ===== *)
(** The periods of the generators of lib/rand.h: linear maps on words as matrices, their powers,
    maps that go through all the words but zero, and what follows for the Tausworthe
    generators - from any state that is alive they come to every other. *)
From S2P Require Import Prelude Bits Lfsr Rand.
From Stdlib Require Import Znumtheory.
Local Open Scope word_scope.

(** * Matrices of bits

    A matrix is the list of its columns. *)

Fixpoint apply_matrix (M : list Z) (u : Z) : Z :=
  match M with
  | [] => 0
  | c :: M => (if Z.odd u then c else 0) ^^ apply_matrix M (u >> 1)
  end.

Definition matrix_of (n : nat) (f : Z -> Z) : list Z := (fun i => f (2 ^ Z.of_nat i)) <$> seq 0 n.
Definition identity (n : nat) : list Z := matrix_of n (fun u => u).
Definition matrix_mul (A B : list Z) : list Z := apply_matrix A <$> B.
Definition matrix_add (A B : list Z) : list Z := zip_with Z.lxor A B.

Fixpoint matrix_pow (A : list Z) (p : positive) : list Z :=
  match p with
  | xH => A
  | xO p => let h := matrix_pow A p in matrix_mul h h
  | xI p => let h := matrix_pow A p in matrix_mul A (matrix_mul h h)
  end.

Lemma lxor_select (b c : bool) x : (if xorb b c then x else 0) = (if b then x else 0) ^^ (if c then x else 0).
Proof. destruct b, c; cbn [xorb]; by rewrite ?Z.lxor_nilpotent, ?Z.lxor_0_r, ?Z.lxor_0_l. Qed.

Lemma lxor_exchange a b c d : (a ^^ b) ^^ (c ^^ d) = (a ^^ c) ^^ (b ^^ d).
Proof. bits. Qed.

Lemma odd_lxor a b : Z.odd (a ^^ b) = xorb (Z.odd a) (Z.odd b).
Proof. rewrite <- !Z.bit0_odd. apply Z.lxor_spec. Qed.

Lemma apply_lxor M : forall u v, apply_matrix M (u ^^ v) = apply_matrix M u ^^ apply_matrix M v.
Proof.
  induction M as [|c M IH]; intros u v; [done|]. cbn [apply_matrix]. by rewrite Z.shiftr_lxor, IH, odd_lxor, lxor_select, lxor_exchange.
Qed.

Lemma apply_0 M : apply_matrix M 0 = 0.
Proof. induction M as [|c M IH]; [done|]. cbn [apply_matrix]. by rewrite Z.shiftr_0_l, IH. Qed.

Lemma apply_mul A B : forall u, apply_matrix (matrix_mul A B) u = apply_matrix A (apply_matrix B u).
Proof.
  induction B as [|c B IH]; intros u; cbn; [by rewrite apply_0|]. rewrite apply_lxor. unfold matrix_mul in IH. rewrite IH. f_equal.
  destruct (Z.odd u); [done|by rewrite apply_0].
Qed.

Lemma apply_add A : forall B u, length A = length B -> apply_matrix (matrix_add A B) u = apply_matrix A u ^^ apply_matrix B u.
Proof.
  induction A as [|a A IH]; intros [|b B] u Hl; try done. injection Hl as Hl. cbn [matrix_add zip_with apply_matrix]. fold (matrix_add A B).
  rewrite IH by done. destruct (Z.odd u); [by rewrite lxor_exchange|]. by rewrite !Z.lxor_0_l.
Qed.

Lemma pow_length A p : length (matrix_pow A p) = length A.
Proof. induction p as [p IH|p IH|]; cbn [matrix_pow]; unfold matrix_mul; by rewrite ?length_fmap. Qed.

Lemma apply_pow A p : forall u, apply_matrix (matrix_pow A p) u = Nat.iter (Pos.to_nat p) (apply_matrix A) u.
Proof.
  induction p as [p IH|p IH|]; intros u; cbn [matrix_pow].
  - rewrite !apply_mul, !IH, <- Nat.iter_add, <- Nat.iter_succ. f_equal. lia.
  - rewrite apply_mul, !IH, <- Nat.iter_add. f_equal. lia.
  - done.
Qed.

(** * Linear maps on words *)

Record linear (n : nat) (f : Z -> Z) : Prop := {
  linear_word : forall u, is_word (Z.of_nat n) u -> is_word (Z.of_nat n) (f u);
  linear_lxor : forall u v, f (u ^^ v) = f u ^^ f v;
}.

Lemma linear_0 n f : linear n f -> f 0 = 0.
Proof. intros [_ H]. specialize (H 0 0). rewrite !Z.lxor_nilpotent in H. done. Qed.

(** The columns from the [k]-th on give the map on the bits from there on. *)
Lemma apply_columns f n : (forall u v, f (u ^^ v) = f u ^^ f v) -> f 0 = 0 -> forall k u, is_word (Z.of_nat n) u ->
  apply_matrix ((fun i => f (2 ^ Z.of_nat i)) <$> seq k n) u = f (Z.shiftl u (Z.of_nat k)).
Proof.
  intros Hl H0. induction n as [|n IH]; intros k u Hu.
  - assert (u = 0) as -> by (unfold is_word in Hu; cbn in Hu; lia). by rewrite Z.shiftl_0_l, H0.
  - cbn [seq fmap list_fmap apply_matrix]. change (list_fmap _ _ ?g ?l) with (g <$> l). rewrite IH.
    2: { unfold is_word in *. rewrite Z.shiftr_div_pow2 by lia. change (2 ^ 1) with 2. rewrite Nat2Z.inj_succ, Z.pow_succ_r in Hu by lia.
         split; [apply Z.div_pos; lia|apply Z.div_lt_upper_bound; lia]. }
    assert ((if Z.odd u then f (2 ^ Z.of_nat k) else 0) = f (if Z.odd u then 2 ^ Z.of_nat k else 0)) as -> by (by destruct (Z.odd u)).
    rewrite <- Hl. f_equal. apply Z.bits_inj'. intros i Hi. rewrite Z.lxor_spec, !Z.shiftl_spec by lia.
    destruct (Z.lt_trichotomy i (Z.of_nat k)) as [H|[H|H]].
    + rewrite (Z.testbit_neg_r u), (Z.testbit_neg_r (u >> 1)) by lia. destruct (Z.odd u); [|by rewrite Z.bits_0]. by rewrite Z.pow2_bits_false by lia.
    + subst i. rewrite Z.sub_diag, Z.bit0_odd, (Z.testbit_neg_r (u >> 1)) by lia.
      destruct (Z.odd u); [by rewrite Z.pow2_bits_true by lia|by rewrite Z.bits_0].
    + rewrite Z.shiftr_spec by lia. replace (i - Z.of_nat (S k) + 1) with (i - Z.of_nat k) by lia.
      destruct (Z.odd u); [rewrite Z.pow2_bits_false by lia|rewrite Z.bits_0]; by rewrite xorb_false_l.
Qed.

Lemma apply_matrix_of n f u : linear n f -> is_word (Z.of_nat n) u -> apply_matrix (matrix_of n f) u = f u.
Proof. intros Hf Hu. unfold matrix_of. rewrite (apply_columns f n) by (done || apply Hf || by eapply linear_0). by rewrite Z.shiftl_0_r. Qed.

Lemma apply_identity n u : is_word (Z.of_nat n) u -> apply_matrix (identity n) u = u.
Proof. apply (apply_matrix_of n (fun u => u)). by split. Qed.

Lemma iter_word n f k u : linear n f -> is_word (Z.of_nat n) u -> is_word (Z.of_nat n) (Nat.iter k f u).
Proof. intros Hf Hu. induction k as [|k IH]; [done|]. rewrite Nat.iter_succ. by apply Hf. Qed.

Lemma iter_matrix n f k u : linear n f -> is_word (Z.of_nat n) u -> Nat.iter k (apply_matrix (matrix_of n f)) u = Nat.iter k f u.
Proof. intros Hf Hu. induction k as [|k IH]; [done|]. rewrite !Nat.iter_succ, IH. by apply apply_matrix_of, iter_word. Qed.

(** ** Full periods

    The map comes back after [2 ^ n - 1] steps, and for every prime [q] of this number the
    difference from the identity after the [q]-th part of the steps is invertible: its own power
    is the identity. *)
Definition full_check (n : nat) (f : Z -> Z) (factors : list Z) : bool :=
  let N := period n in
  let M := matrix_of n f in
  forallb prime_check factors && (product factors =? N) &&
  bool_decide (matrix_pow M (Z.to_pos N) = identity n) &&
  forallb (fun q => bool_decide (matrix_pow (matrix_add (matrix_pow M (Z.to_pos (N / q))) (identity n)) (Z.to_pos N) = identity n)) factors.

Section Full.
Context (n : nat) (f : Z -> Z) (factors : list Z) (Hn : (0 < n)%nat) (Hf : linear n f) (Hcheck : full_check n f factors = true).

Definition full : nat := Z.to_nat (period n).

Lemma period_pos : 0 < period n.
Proof using Hn. unfold period. pose proof (Z.pow_gt_1 2 (Z.of_nat n)). lia. Qed.

Lemma full_comes_back u : is_word (Z.of_nat n) u -> Nat.iter full f u = u.
Proof using Hn Hf Hcheck.
  intros Hu. unfold full_check in Hcheck. rewrite !andb_true_iff in Hcheck. destruct Hcheck as [[_ H%bool_decide_eq_true] _].
  rewrite <- (iter_matrix n f) by done. pose proof period_pos. replace full with (Pos.to_nat (Z.to_pos (period n))).
  - rewrite <- apply_pow, H. by apply apply_identity.
  - unfold full. rewrite <- Z2Nat.inj_pos. by rewrite Z2Pos.id.
Qed.

Lemma full_first u e : is_word (Z.of_nat n) u -> u <> 0 -> 0 < Z.of_nat e < period n -> Nat.iter e f u <> u.
Proof using Hn Hf Hcheck.
  intros Hu Hu0 He E. pose proof (full_comes_back u Hu) as HN. pose proof period_pos as Hp. unfold full_check in Hcheck.
  rewrite !andb_true_iff, !forallb_forall, Z.eqb_eq in Hcheck. destruct Hcheck as [[[Hpr Hprod] _] Hinv].
  pose proof (iter_gcd f e full u E HN) as Hg. set (g := Nat.gcd e full) in *.
  assert (Forall Znumtheory.prime factors) as Hprime by (apply List.Forall_forall; intros q Hq; by apply prime_check_spec, Hpr).
  destruct (proper_divisor factors (Z.of_nat g) Hprime) as (q & Hq & [k Hk]).
  - pose proof (Nat.gcd_eq_0 e full). unfold g. lia.
  - rewrite Hprod. assert (g <= e)%nat; [|lia]. apply Nat.divide_pos_le; [lia|]. apply Nat.gcd_divide_l.
  - rewrite Hprod. destruct (Nat.gcd_divide_r e full) as [k Hk]. fold g in Hk. exists (Z.of_nat k). unfold full in Hk. lia.
  - rewrite Hprod in Hk. pose proof (product_ge factors q Hprime Hq) as Hge. rewrite Hprod in Hge.
    assert (2 <= q) as Hq2. { rewrite List.Forall_forall in Hprime. apply list_elem_of_In, Hprime in Hq. destruct Hq as [Hq _]. lia. }
    assert (0 < period n / q) as HNq by (apply Z.div_str_pos; lia).
    assert (Nat.iter (Z.to_nat (period n / q)) f u = u) as Hqu.
    { replace (Z.to_nat (period n / q)) with (Z.to_nat k * g)%nat by nia. by apply iter_mul. }
    apply Hu0. specialize (Hinv q ltac:(by apply list_elem_of_In)). apply bool_decide_eq_true in Hinv.
    rewrite <- (apply_identity n u Hu), <- Hinv, apply_pow.
    set (D := matrix_add _ _). assert (apply_matrix D u = 0) as HD.
    { unfold D. rewrite apply_add by (rewrite pow_length; unfold identity, matrix_of; by rewrite !length_fmap).
      rewrite apply_pow, (iter_matrix n f), apply_identity by done. rewrite <- Z2Nat.inj_pos, Z2Pos.id by done. by rewrite Hqu, Z.lxor_nilpotent. }
    destruct (Pos.to_nat (Z.to_pos (period n))) as [|m] eqn:Em; [pose proof (Pos2Nat.is_pos (Z.to_pos (period n))); lia|].
    rewrite Nat.iter_succ_r, HD. clear. induction m as [|m IH]; [done|]. by rewrite Nat.iter_succ, IH, apply_0.
Qed.

Lemma iter_nonzero k u : is_word (Z.of_nat n) u -> u <> 0 -> Nat.iter k f u <> 0.
Proof using Hn Hf Hcheck.
  intros Hu Hu0 E. pose proof period_pos as Hp. assert (Nat.iter (k * full) f u = u) as H by (by apply iter_mul, full_comes_back). apply Hu0. rewrite <- H.
  replace (k * full)%nat with ((k * full - k) + k)%nat by (unfold full; nia). rewrite Nat.iter_add, E.
  generalize (k * full - k)%nat. intros m. induction m as [|m IH]; [done|]. rewrite Nat.iter_succ, IH. by eapply linear_0.
Qed.

(** The map goes through all the words but zero. *)
Lemma full_reaches u v : is_word (Z.of_nat n) u -> u <> 0 -> is_word (Z.of_nat n) v -> v <> 0 -> exists m, Nat.iter m f u = v.
Proof using Hn Hf Hcheck.
  intros Hu Hu0 Hv Hv0. pose proof period_pos as Hp. set (l := (fun k => Nat.iter k f u) <$> seq 0 full).
  assert (l ≡ₚ seqZ 1 (period n)) as Hl.
  { apply submseteq_length_Permutation.
    - apply NoDup_submseteq.
      + unfold l. apply NoDup_fmap_2_strong; [|apply NoDup_ListNoDup, List.seq_NoDup]. 
        assert (forall i j, (i < j)%nat -> (j < full)%nat -> Nat.iter i f u <> Nat.iter j f u) as Hne.
        { intros i j Hij Hj E. replace j with ((j - i) + i)%nat in E by lia. rewrite Nat.iter_add in E. symmetry in E. revert E.
          apply full_first; [by apply iter_word|by apply iter_nonzero|unfold full in Hj; lia]. }
        intros i j Hi%elem_of_seq Hj%elem_of_seq E. destruct (Nat.lt_trichotomy i j) as [H|[H|H]]; [|done|]; exfalso.
        * apply (Hne i j); [done|lia|done].
        * apply (Hne j i); [done|lia|done].
      + intros x (k & -> & _)%list_elem_of_fmap. apply elem_of_seqZ. pose proof (iter_word n f k u Hf Hu) as Hw. pose proof (iter_nonzero k u Hu Hu0).
        unfold is_word, period in *. lia.
    - unfold l. rewrite length_fmap, length_seq, length_seqZ. unfold full. lia. }
  assert (v ∈ l) as Hin. { rewrite Hl. apply elem_of_seqZ. unfold is_word, period in *. lia. }
  apply list_elem_of_fmap in Hin as (k & -> & _). by exists k.
Qed.

Lemma full_iter m k u : is_word (Z.of_nat n) u -> (period n | Z.of_nat m - Z.of_nat k) -> Nat.iter m f u = Nat.iter k f u.
Proof using Hn Hf Hcheck.
  intros Hu [d Hd]. pose proof period_pos as Hp. pose proof (full_comes_back u Hu) as HN. assert (full <> 0%nat) as H0 by (unfold full; lia).
  rewrite (iter_mod f full m u H0 HN), (iter_mod f full k u H0 HN). f_equal. apply Nat2Z.inj. rewrite !Nat2Z.inj_mod. unfold full. rewrite Z2Nat.id by lia.
  replace (Z.of_nat m) with (Z.of_nat k + d * period n) by lia. apply Z.mod_add. lia.
Qed.

End Full.

(** * Steps after which several counters are where they are asked to be *)

Fixpoint coprimes (l : list Z) : bool :=
  match l with
  | [] => true
  | N :: l => forallb (fun P => Z.gcd N P =? 1) l && coprimes l
  end.

Lemma coprime_product N l : forallb (fun P => Z.gcd N P =? 1) l = true -> Z.gcd N (product l) = 1.
Proof.
  induction l as [|P l IH]; [intros _; apply Z.gcd_1_r|]. cbn [forallb]. rewrite andb_true_iff, Z.eqb_eq.
  intros [H1 H2]. by apply Z.coprime_mul_r, IH.
Qed.

Lemma product_factor N l : N ∈ l -> (N | product l).
Proof.
  induction 1 as [N l|N P l _ IH]; [apply Z.divide_factor_l|]. by apply Z.divide_mul_r.
Qed.

Lemma product_pos l : Forall (Z.lt 0) l -> 0 < product l.
Proof. induction 1 as [|N l HN _ IH]; [done|]. change (0 < N * product l). by apply Z.mul_pos_pos. Qed.

(** The Chinese remainder theorem. *)
Lemma remainders l : Forall (Z.lt 0) (fst <$> l) -> coprimes (fst <$> l) = true ->
  exists m : nat, forall N a, (N, a) ∈ l -> (N | Z.of_nat m - a).
Proof.
  induction l as [|[N a] l IH]; [by exists 0%nat; intros ? ? ?%elem_of_nil|]. cbn [fmap list_fmap coprimes fst].
  intros [HN Hl]%Forall_cons_1 [H1 H2]%andb_true_iff. destruct (IH Hl H2) as (m & Hm). change (list_fmap _ _ fst l) with (fst <$> l) in *.
  set (P := product (fst <$> l)). pose proof (product_pos _ Hl : 0 < P) as HP.
  destruct (Z.gcd_bezout _ _ _ (coprime_product N (fst <$> l) H1)) as (x & y & Hxy). fold P in Hxy. set (t := ((a - Z.of_nat m) * y) mod N).
  pose proof (Z.mod_pos_bound ((a - Z.of_nat m) * y) N HN) as Ht. fold t in Ht. exists (Z.to_nat (Z.of_nat m + P * t)). intros Q b Hin. rewrite Z2Nat.id by nia.
  apply elem_of_cons in Hin as [[= -> ->]|Hin].
  - exists (- (a - Z.of_nat m) * x - P * ((a - Z.of_nat m) * y / N)).
    assert (t = (a - Z.of_nat m) * y - N * ((a - Z.of_nat m) * y / N)) as -> by (unfold t; rewrite Z.mod_eq by lia; done).
    set (q := _ / N). clearbody q. assert (y * P = 1 - x * N) as Ey by lia. transitivity ((a - Z.of_nat m) * (y * P) + (Z.of_nat m - a) - P * N * q); [ring|]. rewrite Ey. ring.
  - replace (Z.of_nat m + P * t - b) with ((Z.of_nat m - b) + P * t) by ring. apply Z.divide_add_r; [by apply Hm|].
    apply Z.divide_mul_l, product_factor. apply list_elem_of_fmap. by exists (Q, b).
Qed.

(** * The components of the Tausworthe generators *)

Section Component.
Context (w a b k d : Z).

(** What the code's constants are like. *)
Definition component_ok : bool :=
  (0 <=? k) && (0 <? a) && (k + a <=? b) && (b <=? w) && (0 <=? d) && (d + k =? w - b) && (k + a <=? w - d).

Context (Hok : component_ok = true).

Local Lemma ok_facts : 0 <= k /\ 0 < a /\ k + a <= b /\ b <= w /\ 0 <= d /\ d + k = w - b /\ k + a <= w - d.
Proof using Hok. unfold component_ok in Hok. lia. Qed.

(** The step on the bits that it keeps. *)
Definition high_step (u : Z) : Z := taus w (Z.shiftl u k) a b k d >> k.
Definition high_bits : nat := Z.to_nat (w - k).

Lemma taus_lxor x y : taus w (x ^^ y) a b k d = taus w x a b k d ^^ taus w y a b k d.
Proof using Hok.
  pose proof ok_facts. unfold taus. rewrite <- wrap_lxor by lia. f_equal.
  assert ((x ^^ y) & high_mask w k = (x & high_mask w k) ^^ (y & high_mask w k)) as -> by bits.
  assert (shlw w (x ^^ y) a = shlw w x a ^^ shlw w y a) as -> by (unfold shlw; rewrite Z.shiftl_lxor; apply wrap_lxor; lia).
  rewrite Z.shiftl_lxor, (lxor_exchange _ (_ >> b)). f_equal. rewrite <- Z.shiftr_lxor. f_equal. apply lxor_exchange.
Qed.

Lemma high_linear : linear high_bits high_step.
Proof using Hok.
  pose proof ok_facts. unfold high_bits. split.
  - intros u _. unfold high_step. rewrite Z2Nat.id by lia. pose proof (taus_word w (Z.shiftl u k) a b k d ltac:(lia)) as Hw. unfold is_word in *.
    rewrite Z.shiftr_div_pow2 by lia. pose proof (Z.pow_pos_nonneg 2 k ltac:(lia) ltac:(lia)). split; [apply Z.div_pos; lia|].
    apply Z.div_lt_upper_bound; [lia|]. rewrite <- Z.pow_add_r by lia. replace (k + (w - k)) with w by lia. lia.
  - intros u v. unfold high_step. by rewrite Z.shiftl_lxor, taus_lxor, Z.shiftr_lxor.
Qed.

Lemma taus_high s : is_word w s -> taus w s a b k d = taus w (Z.shiftl (s >> k) k) a b k d.
Proof using Hok.
  intros Hs. pose proof ok_facts. assert (is_word w (Z.shiftl (s >> k) k)) as Hs2.
  { rewrite Z.shiftl_mul_pow2, Z.shiftr_div_pow2 by lia. unfold is_word in *. pose proof (Z.pow_pos_nonneg 2 k ltac:(lia) ltac:(lia)).
    pose proof (Z.mul_div_le s (2 ^ k) ltac:(lia)). pose proof (Z.div_pos s (2 ^ k) ltac:(lia) ltac:(lia)). nia. }
  assert (forall i, k <= i -> Z.testbit (Z.shiftl (s >> k) k) i = Z.testbit s i) as Hbit.
  { intros i Hi. rewrite Z.shiftl_spec, Z.shiftr_spec by lia. f_equal. lia. }
  apply Z.bits_inj'. intros i Hi. destruct (Z.lt_ge_cases i w).
  - rewrite !taus_bits by (done || lia). destruct (Z.leb_spec (w - b) i); rewrite !Hbit by lia; done.
  - rewrite !(is_word_bits w) by (try apply taus_word; lia). done.
Qed.

Definition taus_step (s : Z) : Z := taus w s a b k d.

Lemma taus_iter m s : is_word w s -> is_word w (Nat.iter m taus_step s) /\ Nat.iter m taus_step s >> k = Nat.iter m high_step (s >> k).
Proof using Hok.
  pose proof ok_facts. intros Hs. induction m as [|m [IH1 IH2]]; [done|]. rewrite !Nat.iter_succ. split; [apply taus_word; lia|].
  rewrite <- IH2. unfold taus_step at 1, high_step. by rewrite (taus_high _ IH1).
Qed.

(** States with the same bits kept have the same future. *)
Lemma taus_same m s t : is_word w s -> is_word w t -> Nat.iter m high_step (s >> k) = t >> k -> taus_step (Nat.iter m taus_step s) = taus_step t.
Proof using Hok.
  intros Hs Ht E. destruct (taus_iter m s Hs) as [H1 H2]. unfold taus_step at 1 3. rewrite (taus_high _ H1), (taus_high _ Ht). by rewrite H2, E.
Qed.

Lemma alive_high s : is_word w s -> alive w k s -> is_word (Z.of_nat high_bits) (s >> k) /\ s >> k <> 0.
Proof using Hok.
  pose proof ok_facts. intros Hs (j & Hj & Hb). split.
  - unfold high_bits. rewrite Z2Nat.id by lia. unfold is_word in *. rewrite Z.shiftr_div_pow2 by lia. pose proof (Z.pow_pos_nonneg 2 k ltac:(lia) ltac:(lia)).
    split; [apply Z.div_pos; lia|]. apply Z.div_lt_upper_bound; [lia|]. rewrite <- Z.pow_add_r by lia. replace (k + (w - k)) with w by lia. lia.
  - intros E. assert (Z.testbit (s >> k) (j - k) = true) as Hb2 by (rewrite Z.shiftr_spec by lia; by replace (j - k + k) with j by lia).
    by rewrite E, Z.bits_0 in Hb2.
Qed.

End Component.

(** * The generators *)

(** A component is where it is asked to be after [r] steps, and after as many more as its period
    divides. *)
Lemma component_reaches w a b k d factors s t : component_ok w a b k d = true -> (0 < high_bits w k)%nat ->
  full_check (high_bits w k) (high_step w a b k d) factors = true -> is_word w s /\ alive w k s -> is_word w t /\ alive w k t ->
  exists r : nat, forall m, (period (high_bits w k) | Z.of_nat m - Z.of_nat r) -> taus_step w a b k d (Nat.iter m (taus_step w a b k d) s) = taus_step w a b k d t.
Proof.
  intros Hok Hn Hc [Ws As] [Wt At]. pose proof (high_linear _ _ _ _ _ Hok) as Hl.
  destruct (alive_high _ _ _ _ _ Hok s Ws As) as [Us Us0], (alive_high _ _ _ _ _ Hok t Wt At) as [Ut Ut0].
  destruct (full_reaches _ _ factors Hn Hl Hc (s >> k) (t >> k)) as (r & Hr); try done. exists r. intros m Hm.
  apply (taus_same _ _ _ _ _ Hok); [done|done|]. rewrite <- Hr. by apply (full_iter _ _ factors Hn Hl Hc).
Qed.

Lemma full_31 : full_check 31 (high_step 32 13 19 1 12) [2147483647] = true.
Proof. by vm_compute. Qed.
Lemma full_29 : full_check 29 (high_step 32 2 25 3 4) [233; 1103; 2089] = true.
Proof. by vm_compute. Qed.
Lemma full_28 : full_check 28 (high_step 32 3 11 4 17) [3; 5; 29; 43; 113; 127] = true.
Proof. by vm_compute. Qed.

Lemma full_63 : full_check 63 (high_step 64 1 53 1 10) [7; 7; 73; 127; 337; 92737; 649657] = true.
Proof. by vm_compute. Qed.
Lemma full_55 : full_check 55 (high_step 64 24 50 9 5) [23; 31; 89; 881; 3191; 201961] = true.
Proof. by vm_compute. Qed.
Lemma full_52 : full_check 52 (high_step 64 3 23 12 29) [3; 5; 53; 157; 1613; 2731; 8191] = true.
Proof. by vm_compute. Qed.
Lemma full_47 : full_check 47 (high_step 64 5 24 17 23) [2351; 4513; 13264529] = true.
Proof. by vm_compute. Qed.
Lemma full_41 : full_check 41 (high_step 64 3 33 23 8) [13367; 164511353] = true.
Proof. by vm_compute. Qed.

Definition next32 (s : taus88_state) : taus88_state := snd (__rand32 s).
Definition next64 (s : taus258_state) : taus258_state := snd (__rand64 s).

Lemma rand32_steps s : __rand32 s =
  let a := taus_step 32 13 19 1 12 (s1 s) in let b := taus_step 32 2 25 3 4 (s2 s) in let c := taus_step 32 3 11 4 17 (s3 s) in (a ^^ b ^^ c, mk_taus88 a b c).
Proof. reflexivity. Qed.

Lemma rand64_steps s : alive64 s -> __rand64 s =
  let a := taus_step 64 1 53 1 10 (t1 s) in let b := taus_step 64 24 50 9 5 (t2 s) in let c := taus_step 64 3 23 12 29 (t3 s) in
  let d := taus_step 64 5 24 17 23 (t4 s) in let e := taus_step 64 3 33 23 8 (t5 s) in (a ^^ b ^^ c ^^ d ^^ e, mk_taus258 a b c d e).
Proof.
  intros ([W1 _] & [W2 _] & [W3 _] & [W4 _] & [W5 _]). unfold __rand64, taus_step.
  change 18446744073709551614 with (high_mask 64 1). change 18446744073709551104 with (high_mask 64 9).
  change 18446744073709547520 with (high_mask 64 12). change 18446744073709420544 with (high_mask 64 17).
  change 18446744073701163008 with (high_mask 64 23). by rewrite !taus64_step_eq by (done || lia).
Qed.

Lemma iter32 m s : let s' := Nat.iter m next32 s in
  s1 s' = Nat.iter m (taus_step 32 13 19 1 12) (s1 s) /\ s2 s' = Nat.iter m (taus_step 32 2 25 3 4) (s2 s) /\ s3 s' = Nat.iter m (taus_step 32 3 11 4 17) (s3 s).
Proof.
  induction m as [|m (E1 & E2 & E3)]; [done|]. cbv zeta in *. rewrite !Nat.iter_succ. unfold next32 at 1 3 5. rewrite rand32_steps. cbn [snd s1 s2 s3].
  by rewrite E1, E2, E3.
Qed.

Lemma iter64 m s : alive64 s -> let s' := Nat.iter m next64 s in alive64 s' /\
  t1 s' = Nat.iter m (taus_step 64 1 53 1 10) (t1 s) /\ t2 s' = Nat.iter m (taus_step 64 24 50 9 5) (t2 s) /\ t3 s' = Nat.iter m (taus_step 64 3 23 12 29) (t3 s) /\
  t4 s' = Nat.iter m (taus_step 64 5 24 17 23) (t4 s) /\ t5 s' = Nat.iter m (taus_step 64 3 33 23 8) (t5 s).
Proof.
  intros Hs. induction m as [|m (A & E1 & E2 & E3 & E4 & E5)]; [done|]. cbv zeta in *. rewrite !Nat.iter_succ. split; [by apply rand64_alive|].
  unfold next64 at 1 3 5 7 9. rewrite rand64_steps by done. cbn [snd t1 t2 t3 t4 t5]. by rewrite E1, E2, E3, E4, E5.
Qed.

(** Whatever is drawn from one state is drawn from every other, sooner or later. *)
Lemma rand32_reaches s t : alive32 s -> alive32 t -> exists m, __rand32 (Nat.iter m next32 s) = __rand32 t.
Proof.
  intros (S1 & S2 & S3) (T1 & T2 & T3).
  destruct (component_reaches 32 13 19 1 12 _ _ _ eq_refl ltac:(compute; lia) full_31 S1 T1) as (r1 & H1).
  destruct (component_reaches 32 2 25 3 4 _ _ _ eq_refl ltac:(compute; lia) full_29 S2 T2) as (r2 & H2).
  destruct (component_reaches 32 3 11 4 17 _ _ _ eq_refl ltac:(compute; lia) full_28 S3 T3) as (r3 & H3).
  destruct (remainders [(period 31, Z.of_nat r1); (period 29, Z.of_nat r2); (period 28, Z.of_nat r3)]) as (m & Hm); [by repeat constructor|by vm_compute|].
  exists m. destruct (iter32 m s) as (E1 & E2 & E3). rewrite !rand32_steps, E1, E2, E3. cbv zeta.
  rewrite H1, H2, H3 by (apply Hm; repeat first [apply list_elem_of_here|apply list_elem_of_further]). done.
Qed.

Lemma rand64_reaches s t : alive64 s -> alive64 t -> exists m, __rand64 (Nat.iter m next64 s) = __rand64 t.
Proof.
  intros Hs Ht. pose proof Hs as (S1 & S2 & S3 & S4 & S5). pose proof Ht as (T1 & T2 & T3 & T4 & T5).
  destruct (component_reaches 64 1 53 1 10 _ _ _ eq_refl ltac:(compute; lia) full_63 S1 T1) as (r1 & H1).
  destruct (component_reaches 64 24 50 9 5 _ _ _ eq_refl ltac:(compute; lia) full_55 S2 T2) as (r2 & H2).
  destruct (component_reaches 64 3 23 12 29 _ _ _ eq_refl ltac:(compute; lia) full_52 S3 T3) as (r3 & H3).
  destruct (component_reaches 64 5 24 17 23 _ _ _ eq_refl ltac:(compute; lia) full_47 S4 T4) as (r4 & H4).
  destruct (component_reaches 64 3 33 23 8 _ _ _ eq_refl ltac:(compute; lia) full_41 S5 T5) as (r5 & H5).
  destruct (remainders [(period 63, Z.of_nat r1); (period 55, Z.of_nat r2); (period 52, Z.of_nat r3); (period 47, Z.of_nat r4); (period 41, Z.of_nat r5)]) as (m & Hm);
    [by repeat constructor|by vm_compute|].
  exists m. destruct (iter64 m s Hs) as (A & E1 & E2 & E3 & E4 & E5). rewrite !rand64_steps, E1, E2, E3, E4, E5 by done. cbv zeta.
  rewrite H1, H2, H3, H4, H5 by (apply Hm; repeat first [apply list_elem_of_here|apply list_elem_of_further]). done.
Qed.

(** The states that the code can be in, but for the seeds that kill a component. *)
Definition alive_state (s : frand_state) : Prop := match s with state32 s => alive32 s | state64 s => alive64 s end.
Definition next_state (s : frand_state) : frand_state := snd (__rand s).
Definition drawn (s : frand_state) (k : nat) : Z := fst (__rand (Nat.iter k next_state s)).

Lemma next_alive s : alive_state s -> alive_state (next_state s) /\ use64 (next_state s) = use64 s /\ is_word (if use64 s then 64 else 32) (fst (__rand s)).
Proof.
  destruct s as [s|s]; intros Hs; unfold next_state; cbn [__rand]; [destruct (rand32_alive s Hs) as [Hr Ha]; destruct (__rand32 s)|destruct (rand64_alive s Hs) as [Hr Ha]; destruct (__rand64 s)];
    split; done.
Qed.

Lemma iter_alive k s : alive_state s -> alive_state (Nat.iter k next_state s) /\ use64 (Nat.iter k next_state s) = use64 s.
Proof.
  intros Hs. induction k as [|k [IH1 IH2]]; [done|]. rewrite Nat.iter_succ. destruct (next_alive _ IH1) as (? & E & _). by rewrite E.
Qed.

(** States from which zero is drawn. *)
Definition zero32 : taus88_state := mk_taus88 3699272298 4071044968 389211744.
Definition zero64 : taus258_state := mk_taus258 6936956631732656900 4490302735744464896 16161858818738847744 2416636783154429952 12907258112217448448.

Lemma zero32_alive : alive32 zero32 /\ fst (__rand32 zero32) = 0.
Proof. split; [|by vm_compute]. repeat split; try (apply aliveb_true; by vm_compute); vm_compute; discriminate || reflexivity. Qed.
Lemma zero64_alive : alive64 zero64 /\ fst (__rand64 zero64) = 0.
Proof. split; [|by vm_compute]. repeat split; try (apply aliveb_true; by vm_compute); vm_compute; discriminate || reflexivity. Qed.

Lemma draws_zero s : alive_state s -> exists k, drawn s k = 0.
Proof.
  destruct s as [s|s]; intros Hs; unfold drawn.
  - destruct (rand32_reaches s zero32 Hs (proj1 zero32_alive)) as (k & E). exists k.
    assert (Nat.iter k next_state (state32 s) = state32 (Nat.iter k next32 s)) as ->.
    { clear. induction k as [|k IH]; [done|]. rewrite !Nat.iter_succ, IH. unfold next_state, next32. cbn [__rand]. by destruct (__rand32 _). }
    cbn [__rand]. rewrite E. pose proof (proj2 zero32_alive) as H0. by destruct (__rand32 zero32).
  - destruct (rand64_reaches s zero64 Hs (proj1 zero64_alive)) as (k & E). exists k.
    assert (Nat.iter k next_state (state64 s) = state64 (Nat.iter k next64 s)) as ->.
    { clear. induction k as [|k IH]; [done|]. rewrite !Nat.iter_succ, IH. unfold next_state, next64. cbn [__rand]. by destruct (__rand64 _). }
    cbn [__rand]. rewrite E. pose proof (proj2 zero64_alive) as H0. by destruct (__rand64 zero64).
Qed.
