(* ===== verification/Gauss.v ===== *)
(** lib/gauss.c: block numbers drawn around the middle of a file. *)
From S2P Require Import Prelude Bits Stream Hash Rand.
Local Open Scope word_scope.

Record gauss_state : Type := mk_gauss {
  gs_r : frand_state; nranges : Z; stddev : Z; rand_off : Z; disable_hash : bool }.

Definition GAUSS_ITERS : nat := 12.

Definition set_gs_r (gs : gauss_state) (r : frand_state) : gauss_state :=
  mk_gauss r (nranges gs) (stddev gs) (rand_off gs) (disable_hash gs).

(** An [int] that holds the value of an [unsigned int]. *)
Definition to_int (z : Z) : Z := let z := wrap 32 z in if z <? 2 ^ 31 then z else z - 2 ^ 32.

(** [r] is an [unsigned int]: a 64-bit draw is truncated.  The product of two 32-bit
    integers has to be rounded; the conversion to [int] is undefined outside of it. *)
Definition gauss_dev (gs : gauss_state) : option (Z * gauss_state) :=
  if stddev gs =? 0 then Some (0, gs) else
  let '(r, s) := __rand (gs_r gs) in
  let vr := double_of (stddev gs * wrap 32 r) >> 32 in
  let* _ := c_assert (vr <? 2 ^ 31) in
  Some (to_int (vr - stddev gs / 2), set_gs_r gs s).

(** [for (i = 0; i < GAUSS_ITERS; i++) sum += __rand(&gs->r) % (gs->nranges + 1)] *)
Fixpoint gauss_sum (n : nat) (s : frand_state) (m sum : Z) : Z * frand_state :=
  match n with
  | O => (sum, s)
  | S n => let '(r, s) := __rand s in gauss_sum n s m (addw 64 sum (r mod m))
  end.

(** [while (dev + sum >= gs->nranges) dev /= 2]: the sum is an [unsigned long long], the
    division truncates towards zero. *)
Fixpoint gauss_while (fuel : nat) (n sum dev : Z) : option Z :=
  match fuel with
  | O => None
  | S fuel => if n <=? addw 64 dev sum then gauss_while fuel n sum (Z.quot dev 2) else Some dev
  end.

Definition gauss_next (fuel : nat) (gs : gauss_state) : option (Z * gauss_state) :=
  let m := addw 64 (nranges gs) 1 in
  let* _ := c_assert (c_true m) in
  let '(sum, s) := gauss_sum GAUSS_ITERS (gs_r gs) m 0 in
  let gs := set_gs_r gs s in
  let sum := addw 64 sum 11 / 12 in
  let* '(sum, gs) :=
    (if stddev gs =? 0 then Some (sum, gs) else
     let* '(dev, gs) := gauss_dev gs in
     let* dev := gauss_while fuel (nranges gs) sum dev in
     Some (addw 64 sum dev, gs)) in
  let sum := if disable_hash gs then sum else __hash_u64 sum in
  let* _ := c_assert (c_true (nranges gs)) in
  Some (addw 64 sum (rand_off gs) mod nranges gs, gs).

Definition gauss_disable_hash (gs : gauss_state) : gauss_state :=
  mk_gauss (gs_r gs) (nranges gs) (stddev gs) (rand_off gs) true.

(** * Proofs *)

Definition alive_state (s : frand_state) : Prop :=
  match s with state32 s => alive32 s | state64 s => alive64 s end.

Lemma rand_alive s : alive_state s -> is_word 64 (fst (__rand s)) /\ alive_state (snd (__rand s)).
Proof.
  destruct s as [s|s]; cbn [alive_state __rand]; intros Hs.
  - destruct (rand32_alive s Hs) as [Hr Ha]. destruct (__rand32 s) as [r s']. cbn [fst snd] in *.
    split; [|done]. eapply is_word_weaken; [|exact Hr]. lia.
  - destruct (rand64_alive s Hs) as [Hr Ha]. by destruct (__rand64 s) as [r s'].
Qed.

(** The states of the generator after [k] draws. *)
Definition after (k : nat) (s : frand_state) : frand_state := Nat.iter k (fun s => snd (__rand s)) s.

Lemma gauss_sum_spec n : forall s m sum, alive_state s -> 0 < m < 2 ^ 59 -> 0 <= sum -> sum + Z.of_nat n * (m - 1) < 2 ^ 64 ->
  exists x, gauss_sum n s m sum = (x, after n s) /\ sum <= x <= sum + Z.of_nat n * (m - 1) /\ alive_state (after n s).
Proof.
  induction n as [|n IH]; intros s m sum Hs Hm Hsum Hb.
  { exists sum. split; [done|]. split; [lia|done]. }
  cbn [gauss_sum]. destruct (rand_alive s Hs) as [Hr Ha]. destruct (__rand s) as [r s'] eqn:E. cbn [fst snd] in *.
  pose proof (Z.mod_pos_bound r m ltac:(lia)) as Hmod.
  assert (addw 64 sum (r mod m) = sum + r mod m) as -> by (apply wrap_small; unfold is_word; nia).
  destruct (IH s' m (sum + r mod m) Ha Hm ltac:(lia) ltac:(nia)) as (x & E' & Hx & Ha').
  assert (after (S n) s = after n s') as ->.
  { unfold after. rewrite Nat.iter_succ_r, E. done. }
  exists x. split; [done|]. split; [nia|done].
Qed.

#[local] Opaque after __rand double_of.

(** The loop halves [dev] until the sum is a block number; it ends when one of the
    values passed on the way is one, for which a [sum] in range is enough. *)
Lemma gauss_while_ends n sum : 0 <= sum < n -> n < 2 ^ 59 -> forall fuel dev, Z.abs dev < 2 ^ (Z.of_nat fuel) -> Z.of_nat fuel <= 33 ->
  exists d, gauss_while (S fuel) n sum dev = Some d /\ 0 <= addw 64 sum d < n.
Proof.
  intros Hsum Hn. induction fuel as [|fuel IH]; intros dev Hdev Hf.
  - assert (dev = 0) as -> by (cbn in Hdev; lia). exists 0. cbn [gauss_while].
    assert (addw 64 0 sum = sum) as -> by (apply wrap_small; unfold is_word; lia).
    destruct (Z.leb_spec n sum); [lia|]. split; [done|]. rewrite addw_zero by (unfold is_word; lia). lia.
  - remember (S fuel) as f. cbn [gauss_while]. destruct (Z.leb_spec n (addw 64 dev sum)).
    + subst f. apply IH; [|lia]. rewrite Nat2Z.inj_succ, Z.pow_succ_r in Hdev by lia.
      pose proof (Z.quot_rem' dev 2). pose proof (Z.rem_bound_abs dev 2 ltac:(lia)). pose proof (Z.rem_sign_mul dev 2 ltac:(lia)). nia.
    + exists dev. split; [done|]. assert (addw 64 sum dev = addw 64 dev sum) as -> by (unfold addw; f_equal; lia).
      pose proof (wrap_range 64 (dev + sum)). unfold addw in *. unfold is_word in *. lia.
Qed.

Lemma gauss_while_stuck n sum : n <= sum -> 0 <= sum < 2 ^ 63 -> forall fuel dev, 0 <= dev < 2 ^ 31 -> gauss_while fuel n sum dev = None.
Proof.
  intros Hn Hs. induction fuel as [|fuel IH]; intros dev Hd; [done|]. cbn [gauss_while].
  assert (addw 64 dev sum = dev + sum) as -> by (apply wrap_small; unfold is_word; lia).
  destruct (Z.leb_spec n (dev + sum)); [|lia]. apply IH. rewrite Z.quot_div_nonneg by lia.
  split; [apply Z.div_pos; lia|apply Z.div_lt_upper_bound; lia].
Qed.

Definition gauss_ok (gs : gauss_state) : Prop :=
  alive_state (gs_r gs) /\ 0 < nranges gs < 2 ^ 59 - 1 /\ 0 <= stddev gs < 2 ^ 31 /\ is_word 32 (rand_off gs).

(** The rounded-up mean of twelve draws. *)
Definition gauss_mean (gs : gauss_state) : Z :=
  addw 64 (fst (gauss_sum GAUSS_ITERS (gs_r gs) (addw 64 (nranges gs) 1) 0)) 11 / 12.

Lemma gauss_mean_range gs : gauss_ok gs -> 0 <= gauss_mean gs <= nranges gs.
Proof.
  intros (Ha & Hn & Hs & _). unfold gauss_mean, GAUSS_ITERS. assert (addw 64 (nranges gs) 1 = nranges gs + 1) as -> by (apply wrap_small; unfold is_word; lia).
  destruct (gauss_sum_spec 12 (gs_r gs) (nranges gs + 1) 0 Ha ltac:(lia) ltac:(lia) ltac:(lia)) as (x & -> & Hx & _). cbn [fst].
  assert (addw 64 x 11 = x + 11) as -> by (apply wrap_small; unfold is_word; lia).
  split; [apply Z.div_pos; lia|]. apply Z.lt_succ_r. apply Z.div_lt_upper_bound; lia.
Qed.

Lemma gauss_dev_spec gs : gauss_ok gs -> exists d gs', gauss_dev gs = Some (d, gs') /\ gauss_ok gs' /\
  nranges gs' = nranges gs /\ disable_hash gs' = disable_hash gs /\ rand_off gs' = rand_off gs /\
  - (stddev gs / 2) <= d /\ d < stddev gs - stddev gs / 2 + 1.
Proof.
  intros (Ha & Hn & Hs & Ho). unfold gauss_dev. pose proof (Z.div_mod (stddev gs) 2 ltac:(lia)). pose proof (Z.mod_pos_bound (stddev gs) 2 ltac:(lia)).
  destruct (Z.eqb_spec (stddev gs) 0) as [E|E].
  { exists 0, gs. split; [done|]. split_and!; try done; lia. }
  destruct (rand_alive _ Ha) as [_ Ha']. destruct (__rand (gs_r gs)) as [r s]. cbn [snd] in Ha'.
  pose proof (wrap_range 32 r ltac:(lia)) as Hr. set (r' := wrap 32 r) in *. unfold is_word in Hr.
  assert (0 <= double_of (stddev gs * r') >> 32 < stddev gs) as Hv by (apply scale_below; nia).
  set (vr := double_of (stddev gs * r') >> 32) in *. unfold c_assert. destruct (Z.ltb_spec vr (2 ^ 31)); [|lia]. cbn [mbind option_bind].
  exists (vr - stddev gs / 2), (set_gs_r gs s). split.
  - do 2 f_equal. unfold to_int, wrap. destruct (Z.lt_ge_cases (vr - stddev gs / 2) 0).
    + rewrite <- (Z.mod_unique _ (2 ^ 32) (-1) (vr - stddev gs / 2 + 2 ^ 32)) by lia. destruct (Z.ltb_spec (vr - stddev gs / 2 + 2 ^ 32) (2 ^ 31)); lia.
    + rewrite Z.mod_small by lia. destruct (Z.ltb_spec (vr - stddev gs / 2) (2 ^ 31)); lia.
  - split_and!; try done; lia.
Qed.

(** C27: On a file of more than one block, and with generators that are alive,
    [gauss_next] returns a block of the file after at most 34 turns of its loop, when no
    deviation is asked for or the mean of its twelve draws is below the number of blocks.
    The mean is never above it; when it is equal to it, a deviation that is not negative
    keeps the loop turning for ever. *)
Theorem gauss_next_ends gs : gauss_ok gs ->
  gauss_mean gs <= nranges gs /\
  (stddev gs = 0 \/ gauss_mean gs < nranges gs ->
     exists v gs', gauss_next 34 gs = Some (v, gs') /\ 0 <= v < nranges gs /\ gauss_ok gs' /\ nranges gs' = nranges gs) /\
  (stddev gs <> 0 -> gauss_mean gs = nranges gs ->
     forall d gs', gauss_dev (set_gs_r gs (after GAUSS_ITERS (gs_r gs))) = Some (d, gs') -> 0 <= d ->
     forall fuel, gauss_next fuel gs = None).
Proof.
  intros Hok. pose proof (gauss_mean_range gs Hok) as Hm. split; [lia|]. pose proof Hok as (Ha & Hn & Hs & Ho).
  assert (addw 64 (nranges gs) 1 = nranges gs + 1) as Em by (apply wrap_small; unfold is_word; lia).
  unfold gauss_mean in *. rewrite Em in *.
  destruct (gauss_sum_spec GAUSS_ITERS (gs_r gs) (nranges gs + 1) 0 Ha ltac:(lia) ltac:(lia) ltac:(unfold GAUSS_ITERS; lia)) as (x & E & _ & Ha').
  rewrite E in *. cbn [fst] in *. set (sum := addw 64 x 11 / 12) in *. set (gs1 := set_gs_r gs (after GAUSS_ITERS (gs_r gs))) in *.
  assert (gauss_ok gs1) as Hok1 by exact (conj Ha' (conj Hn (conj Hs Ho))). pose proof (gauss_dev_spec gs1 Hok1) as (d & gs2 & Ed & Hok2 & En2 & _ & Eo2 & Hd).
  assert (forall n, 0 < n -> 0 <= addw 64 n (rand_off gs)) as Hpos by (intros; apply addw_range; lia).
  split.
  - intros Hcase. unfold gauss_next. rewrite Em, E. cbv beta iota zeta. fold sum gs1.
    unfold c_assert at 1. destruct (c_true (nranges gs + 1)) eqn:Ec; [|apply c_true_false_iff in Ec; lia]. cbn [mbind option_bind].
    change (stddev gs1) with (stddev gs). change (nranges gs1) with (nranges gs) in *.
    assert (forall y gs', gauss_ok gs' -> nranges gs' = nranges gs -> exists v,
      (let* _ := c_assert (c_true (nranges gs')) in Some (addw 64 y (rand_off gs') mod nranges gs', gs')) = Some (v, gs') /\ 0 <= v < nranges gs) as Hfin.
    { intros y gs' _ En. rewrite En. unfold c_assert. destruct (c_true (nranges gs)) eqn:Ec'; [|apply c_true_false_iff in Ec'; lia].
      cbn [mbind option_bind]. eexists. split; [done|]. apply Z.mod_pos_bound. lia. }
    destruct (Z.eqb_spec (stddev gs) 0) as [Es|Es].
    + destruct (Hfin (if disable_hash gs1 then sum else __hash_u64 sum) gs1 Hok1 eq_refl) as (v & Ev & Hv).
      exists v, gs1. exact (conj Ev (conj Hv (conj Hok1 eq_refl))).
    + rewrite Ed. cbn [mbind option_bind]. rewrite En2.
      destruct (gauss_while_ends (nranges gs) sum ltac:(lia) ltac:(lia) 33 d ltac:(change (stddev gs1) with (stddev gs) in *; pose proof (Z.div_le_upper_bound (stddev gs) 2 (stddev gs) ltac:(lia) ltac:(lia)); pose proof (Z.div_pos (stddev gs) 2 ltac:(lia) ltac:(lia)); lia) ltac:(lia)) as (d' & -> & Hd').
      cbn [mbind option_bind]. destruct (Hfin (if disable_hash gs2 then addw 64 sum d' else __hash_u64 (addw 64 sum d')) gs2 Hok2 En2) as (v & Ev & Hv).
      exists v, gs2. exact (conj Ev (conj Hv (conj Hok2 En2))).
  - intros Es Emean d0 gs0 Ed0 Hd0 fuel. unfold gauss_next. rewrite Em, E. cbv beta iota zeta. fold sum gs1.
    rewrite Ed in Ed0. injection Ed0 as -> ->. unfold c_assert at 1. destruct (c_true (nranges gs + 1)); [|done]. cbn [mbind option_bind].
    change (stddev gs1) with (stddev gs) in *. destruct (Z.eqb_spec (stddev gs) 0) as [|_]; [done|]. rewrite Ed. cbn [mbind option_bind].
    rewrite En2. change (nranges gs1) with (nranges gs) in *. rewrite gauss_while_stuck; [done|lia|lia|].
    pose proof (Z.div_pos (stddev gs) 2 ltac:(lia) ltac:(lia)). lia.
Qed.

Example gauss_next_ends_witness : exists v gs',
  gauss_next 34 (mk_gauss (init_rand false) 1000 100 17 true) = Some (v, gs') /\ 0 <= v < 1000 /\ gauss_ok gs' /\ nranges gs' = 1000.
Proof.
  assert (gauss_ok (mk_gauss (init_rand false) 1000 100 17 true)) as Hok.
  { destruct (proj1 init_rand_alive) as (s & E & A). unfold gauss_ok. cbn [gs_r nranges stddev rand_off]. rewrite E.
    split; [exact A|]. unfold is_word. lia. }
  destruct (gauss_next_ends _ Hok) as (_ & H & _). apply H. right. vm_compute. reflexivity.
Defined.

(** Two blocks and a deviation of one: half of the means are two, so most streams soon
    hang; the stream of seed 2 does at its first block. *)
Example gauss_next_hangs fuel : gauss_next fuel (mk_gauss (init_rand_seed 2 false) 2 1 0 true) = None.
Proof.
  unfold gauss_next. destruct (gauss_sum _ _ _ _) as [x s] eqn:E.
  assert (exists y, (x, s) = y /\ fst y = 18 /\ gauss_dev (mk_gauss (snd y) 2 1 0 true) <> None /\
    fst <$> gauss_dev (mk_gauss (snd y) 2 1 0 true) = Some 0) as (y & <- & Ex & _ & Ed).
  { eexists. split; [rewrite <- E; reflexivity|]. split_and!; vm_compute; done || congruence. }
  cbn [fst snd] in *. subst x. cbn [nranges stddev set_gs_r gs_r rand_off disable_hash].
  change (c_assert (c_true (addw 64 2 1))) with (Some tt). cbn [mbind option_bind]. change (1 =? 0) with false. cbv iota.
  unfold set_gs_r. cbn [nranges stddev rand_off disable_hash].
  destruct (gauss_dev _) as [[d gs]|] eqn:Eg; [|done]. cbn in Ed. injection Ed as ->. cbn [mbind option_bind].
  assert (nranges gs = 2) as ->.
  { unfold gauss_dev in Eg. cbn [stddev] in Eg. change (1 =? 0) with false in Eg. cbv iota in Eg.
    destruct (__rand _) as [r s']. unfold c_assert in Eg. destruct (_ <? _) in Eg; [|done]. injection Eg as _ <-. done. }
  rewrite gauss_while_stuck; [done|vm_compute; congruence|vm_compute; split; congruence|lia].
Qed.
