(* ===== verification/Offset.v ===== *)
(** io_u.c and filesetup.c: where the next I/O goes and how long it is, the random map,
    and what a pass over a file issues. *)
From S2P Require Import Prelude Bits Axmap Stream Lfsr Hash Rand Period Gauss.
Local Open Scope word_scope.

(** * The random map, as an interface *)

(** What the selection of offsets uses of [f->io_axmap]. *)
Class BlockMap (M : Type) : Type := {
  bm_isset : M -> Z -> option bool;
  bm_next_free : M -> Z -> option Z;
  bm_set_nr : M -> Z -> Z -> option (M * Z);
  bm_reset : M -> M;
  bm_new : (Z -> bool) -> Z -> option M }.

(** What the map promises: it is a set of the blocks below [bm_size]. *)
Class BlockMapLaws (M : Type) `{BlockMap M} : Type := {
  bm_ok : M -> Prop;
  bm_size : M -> Z;
  bm_member : M -> Z -> bool;
  bm_isset_law m b : bm_ok m -> 0 <= b < bm_size m -> bm_isset m b = Some (bm_member m b);
  bm_next_free_law m b : bm_ok m -> 0 <= b < bm_size m ->
    exists r, bm_next_free m b = Some r /\ cyclic_next (bm_member m) (bm_size m) b r;
  bm_set_nr_law m b n : bm_ok m -> 0 <= b -> 1 <= n < 2 ^ 32 -> b + n <= bm_size m ->
    exists m' r, bm_set_nr m b n = Some (m', r) /\ bm_ok m' /\ bm_size m' = bm_size m /\
      free_run (bm_member m) b n r /\
      forall j, 0 <= j -> bm_member m' j = bm_member m j || in_range b r j;
  bm_reset_law m : bm_ok m -> bm_ok (bm_reset m) /\ bm_size (bm_reset m) = bm_size m /\
    forall j, bm_member (bm_reset m) j = false;
  bm_new_law alloc nr : 0 <= nr < 2 ^ 62 ->
    match bm_new alloc nr with
    | Some m => bm_ok m /\ bm_size m = nr /\ forall j, bm_member m j = false
    | None => exists n, alloc n = false
    end }.

#[global] Instance axmap_block_map : BlockMap axmap := {
  bm_isset := axmap_isset; bm_next_free := axmap_next_free;
  bm_set_nr := axmap_set_nr; bm_reset := axmap_reset; bm_new := axmap_new }.

#[global, program] Instance axmap_block_map_laws : BlockMapLaws axmap := {
  bm_ok := axmap_ok; bm_size := nr_bits; bm_member := member }.
Next Obligation. intros. by apply axmap_isset_spec. Qed.
Next Obligation. intros. by apply axmap_next_free_spec. Qed.
Next Obligation. intros. by apply axmap_set_nr_spec. Qed.
Next Obligation. intros. by apply axmap_reset_spec. Qed.
Next Obligation. intros. by apply axmap_new_spec. Qed.

(** * Data *)

Inductive zone_mode_t : Type := ZONE_MODE_NONE | ZONE_MODE_STRIDED.

Inductive random_generator_t : Type :=
  FIO_RAND_GEN_TAUSWORTHE | FIO_RAND_GEN_LFSR | FIO_RAND_GEN_TAUSWORTHE64.

Inductive random_distribution_t : Type :=
  | FIO_RAND_DIST_RANDOM | FIO_RAND_DIST_ZIPF | FIO_RAND_DIST_PARETO
  | FIO_RAND_DIST_GAUSS | FIO_RAND_DIST_ZONED | FIO_RAND_DIST_ZONED_ABS.

Inductive rw_seq_t : Type := RW_SEQ_SEQ | RW_SEQ_IDENT.

Definition DDIR_READ : Z := 0.
Definition DDIR_WRITE : Z := 1.
Definition DDIR_TRIM : Z := 2.

Definition ddir_rw (ddir : Z) : bool := (ddir =? DDIR_READ) || (ddir =? DDIR_WRITE) || (ddir =? DDIR_TRIM).

Record bssplit : Type := mk_bssplit { bs : Z; perc : Z }.

Record zone_split_index : Type := mk_zsi {
  size_perc : Z; size_perc_prev : Z; zsi_size : Z; size_prev : Z }.

(** The options that the code below reads; an array over the three directions is a list. *)
Record thread_options : Type := mk_options {
  td_ddir : Z; rw_seq : rw_seq_t; opt_ddir_seq_nr : Z; ddir_seq_add : Z;
  opt_size : Z; opt_io_size : Z; file_append : bool;
  start_offset : Z; start_offset_percent : Z; start_offset_align : option Z;
  offset_increment : Z; offset_increment_percent : Z;
  ba : list Z; min_bs : list Z; max_bs : list Z; bs_unaligned : bool; bs_is_seq_rand : bool;
  opt_bssplit : list (list bssplit); nr_files : Z;
  random_distribution : random_distribution_t; random_generator : random_generator_t;
  norandommap : bool; softrandommap : bool; generator_set : bool; perc_rand : list Z;
  zone_split_nr : list Z; zone_mode : zone_mode_t; zone_range : Z; zone_size : Z; zone_skip : Z;
  time_based : bool; fservice_nonuniform : bool; rw_min_bs : Z }.

Definition set_generator (o : thread_options) (g : random_generator_t) : thread_options :=
  mk_options (td_ddir o) (rw_seq o) (opt_ddir_seq_nr o) (ddir_seq_add o) (opt_size o) (opt_io_size o) (file_append o)
    (start_offset o) (start_offset_percent o) (start_offset_align o) (offset_increment o) (offset_increment_percent o)
    (ba o) (min_bs o) (max_bs o) (bs_unaligned o) (bs_is_seq_rand o) (opt_bssplit o) (nr_files o)
    (random_distribution o) g (norandommap o) (softrandommap o) (generator_set o) (perc_rand o)
    (zone_split_nr o) (zone_mode o) (zone_range o) (zone_size o) (zone_skip o)
    (time_based o) (fservice_nonuniform o) (rw_min_bs o).

Definition td_flags (o : thread_options) (bits : Z) : bool := td_ddir o & bits =? bits.
Definition td_rw (o : thread_options) : bool := td_flags o 3.
Definition td_random (o : thread_options) : bool := c_true (td_ddir o & 4).
Definition td_randtrimwrite (o : thread_options) : bool := td_flags o 14.

Section Offset.
Context {M : Type} `{BlockMap M} {Zipf : Type}.

(** Two draws that use the floating-point power function of the C library. *)
Variables zipf_next pareto_next : Zipf -> Z * Zipf.

(** The flags [FIO_FILE_axmap] and [FIO_FILE_lfsr] are set exactly when the map or the
    register is there. *)
Record fio_file : Type := mk_file {
  real_file_size : Z; file_offset : Z; io_size : Z; last_pos : list Z; last_start : list Z;
  plain_file : bool; io_axmap : option M; file_lfsr : option fio_lfsr;
  zipf : Zipf; gauss : gauss_state }.

Record thread_data : Type := mk_td {
  o : thread_options; random_state : frand_state; zone_state : frand_state;
  seq_rand_state : list frand_state; bsrange_state : list frand_state;
  zone_state_index : list (list zone_split_index);
  ddir_seq_nr : Z; subjob_number : Z; rand_seed_block : Z; zone_bytes : Z; io_skip_bytes : Z }.

Record io_u : Type := mk_io_u { ddir : Z; offset : Z; buflen : Z; verify_offset : Z; busy_ok : bool }.

Definition set_positions (f : fio_file) (pos start : list Z) : fio_file :=
  mk_file (real_file_size f) (file_offset f) (io_size f) pos start (plain_file f) (io_axmap f) (file_lfsr f) (zipf f) (gauss f).
Definition set_axmap (f : fio_file) (m : option M) : fio_file :=
  mk_file (real_file_size f) (file_offset f) (io_size f) (last_pos f) (last_start f) (plain_file f) m (file_lfsr f) (zipf f) (gauss f).
Definition set_lfsr (f : fio_file) (l : option fio_lfsr) : fio_file :=
  mk_file (real_file_size f) (file_offset f) (io_size f) (last_pos f) (last_start f) (plain_file f) (io_axmap f) l (zipf f) (gauss f).
Definition set_zipf (f : fio_file) (z : Zipf) : fio_file :=
  mk_file (real_file_size f) (file_offset f) (io_size f) (last_pos f) (last_start f) (plain_file f) (io_axmap f) (file_lfsr f) z (gauss f).
Definition set_gauss (f : fio_file) (g : gauss_state) : fio_file :=
  mk_file (real_file_size f) (file_offset f) (io_size f) (last_pos f) (last_start f) (plain_file f) (io_axmap f) (file_lfsr f) (zipf f) g.
Definition set_file_offset (f : fio_file) (off : Z) : fio_file :=
  mk_file (real_file_size f) off (io_size f) (last_pos f) (last_start f) (plain_file f) (io_axmap f) (file_lfsr f) (zipf f) (gauss f).

Definition set_random_state (td : thread_data) (s : frand_state) : thread_data :=
  mk_td (o td) s (zone_state td) (seq_rand_state td) (bsrange_state td) (zone_state_index td) (ddir_seq_nr td)
    (subjob_number td) (rand_seed_block td) (zone_bytes td) (io_skip_bytes td).
Definition set_zone_state (td : thread_data) (s : frand_state) : thread_data :=
  mk_td (o td) (random_state td) s (seq_rand_state td) (bsrange_state td) (zone_state_index td) (ddir_seq_nr td)
    (subjob_number td) (rand_seed_block td) (zone_bytes td) (io_skip_bytes td).
Definition set_seq_rand (td : thread_data) (l : list frand_state) : thread_data :=
  mk_td (o td) (random_state td) (zone_state td) l (bsrange_state td) (zone_state_index td) (ddir_seq_nr td)
    (subjob_number td) (rand_seed_block td) (zone_bytes td) (io_skip_bytes td).
Definition set_bsrange (td : thread_data) (l : list frand_state) : thread_data :=
  mk_td (o td) (random_state td) (zone_state td) (seq_rand_state td) l (zone_state_index td) (ddir_seq_nr td)
    (subjob_number td) (rand_seed_block td) (zone_bytes td) (io_skip_bytes td).
Definition set_ddir_seq_nr (td : thread_data) (n : Z) : thread_data :=
  mk_td (o td) (random_state td) (zone_state td) (seq_rand_state td) (bsrange_state td) (zone_state_index td) n
    (subjob_number td) (rand_seed_block td) (zone_bytes td) (io_skip_bytes td).
Definition set_zone_bytes (td : thread_data) (n skip : Z) : thread_data :=
  mk_td (o td) (random_state td) (zone_state td) (seq_rand_state td) (bsrange_state td) (zone_state_index td) (ddir_seq_nr td)
    (subjob_number td) (rand_seed_block td) n skip.

Definition set_offset (u : io_u) (off : Z) : io_u := mk_io_u (ddir u) off (buflen u) (verify_offset u) (busy_ok u).
Definition set_buflen (u : io_u) (len : Z) : io_u := mk_io_u (ddir u) (offset u) len (verify_offset u) (busy_ok u).
Definition set_verify (u : io_u) : io_u := mk_io_u (ddir u) (offset u) (buflen u) (offset u) (busy_ok u).
Definition set_busy_ok (u : io_u) : io_u := mk_io_u (ddir u) (offset u) (buflen u) (verify_offset u) true.

Definition file_randommap (td : thread_data) (f : fio_file) : option M :=
  if norandommap (o td) then None else io_axmap f.

(** * Offsets

    A function that returns [int] and writes [*b] returns [Some b] for 0 and [None] for
    1, inside the [option] of undefined behaviour; [fuel] bounds the loops of the
    generators it calls. *)

Definition u64_div (a b : Z) : option Z := if b =? 0 then None else Some (a / b).

Definition random_map_free (m : M) (block : Z) : option bool := let* set := bm_isset m block in Some (negb set).

(** [td->o.min_bs] of the smallest direction. *)
Definition td_min_bs (o : thread_options) : Z :=
  Z.min (tbl (min_bs o) DDIR_TRIM) (Z.min (tbl (min_bs o) DDIR_READ) (tbl (min_bs o) DDIR_WRITE)).

Definition get_start_offset (td : thread_data) (f : fio_file) : option Z :=
  let opt := o td in
  if file_append opt && plain_file f then Some (real_file_size f) else
  let* increment :=
    (if c_true (offset_increment_percent opt) then
       let* _ := c_assert (negb (c_true (offset_increment opt))) in
       Some (mulw 64 (offset_increment_percent opt) (real_file_size f) / 100)
     else Some (offset_increment opt)) in
  let percent := 0 <? start_offset_percent opt in
  let offset :=
    if percent then addw 64 (mulw 64 (real_file_size f) (start_offset_percent opt) / 100) (mulw 64 (subjob_number td) increment)
    else addw 64 (start_offset opt) (mulw 64 (subjob_number td) increment) in
  if percent || c_true (offset_increment_percent opt) then
    let align_bs := match start_offset_align opt with Some a => a | None => td_min_bs opt end in
    let* q := u64_div offset align_bs in
    Some (mulw 64 (addw 64 q (if c_true (offset mod align_bs) then 1 else 0)) align_bs)
  else Some offset.

(** [file_invalidate_cache] changes nothing that is modelled, so [loop_cache_invalidate]
    is left out where it is called. *)
Definition fio_file_reset (td : thread_data) (f : fio_file) : fio_file :=
  let f := set_positions f (replicate 3 (file_offset f)) (replicate 3 (all_ones 64)) in
  match io_axmap f, file_lfsr f with
  | Some m, _ => set_axmap f (Some (bm_reset m))
  | None, Some fl => set_lfsr f (Some (lfsr_reset_state fl (rand_seed_block td)))
  | None, None => f
  end.

Definition mark_random_map (td : thread_data) (u : io_u) (f : fio_file) (offset len : Z) : option (Z * fio_file) :=
  let* min_bs := arr_get (min_bs (o td)) (ddir u) in
  let* m := io_axmap f in
  let* block := u64_div (subw 64 offset (file_offset f)) min_bs in
  let nr_blocks := subw 64 (addw 64 len min_bs) 1 / min_bs in
  let* _ := c_assert (0 <? nr_blocks) in
  let* '(nr_blocks, f) :=
    (if busy_ok u then Some (nr_blocks, f) else
     let* '(m, nr) := bm_set_nr m block (wrap 32 nr_blocks) in
     let* _ := c_assert (0 <? nr) in
     Some (nr, set_axmap f (Some m))) in
  Some (if mulw 64 nr_blocks min_bs <? len then mulw 64 nr_blocks min_bs else len, f).

Definition last_block (td : thread_data) (f : fio_file) (ddir : Z) : option Z :=
  let* _ := c_assert (ddir_rw ddir) in
  let* mbs := arr_get (min_bs (o td)) ddir in
  let* align := arr_get (ba (o td)) ddir in
  let max_size := io_size f in
  let max_size := if real_file_size f <? max_size then real_file_size f else max_size in
  let max_size := match zone_mode (o td) with
    | ZONE_MODE_STRIDED => if c_true (zone_range (o td)) then zone_range (o td) else max_size
    | ZONE_MODE_NONE => max_size end in
  let max_size := if align <? mbs then subw 64 max_size (mbs - align) else max_size in
  u64_div max_size align.

(** [n * (r / (rand_max + 1.0))]: the quotient by a power of two is exact; the conversion
    back to an integer is undefined when it does not fit. *)
Definition scale_rand (s : frand_state) (n r : Z) : option Z :=
  let v := double_of (double_of n * double_of r) >> (if use64 s then 64 else 32) in
  let* _ := c_assert (v <? 2 ^ 64) in Some v.

Definition __get_next_rand_offset (fuel : nat) (td : thread_data) (f : fio_file) (lastb : Z) :
    option (option Z * thread_data * fio_file) :=
  let* '(ob, td, f) :=
    (match random_generator (o td) with
     | FIO_RAND_GEN_LFSR =>
         let* fl := file_lfsr f in
         let* '(off, fl) := lfsr_next fuel fl in
         Some (off, td, set_lfsr f (Some fl))
     | _ =>
         let '(r, s) := __rand (random_state td) in
         let* b := scale_rand (random_state td) lastb r in
         Some (Some b, set_random_state td s, f)
     end) in
  match ob, file_randommap td f with
  | Some b, Some m =>
      let* free := random_map_free m b in
      if (free : bool) then Some (Some b, td, f) else
      let* b := bm_next_free m b in
      Some (if b =? all_ones 64 then None else Some b, td, f)
  | _, _ => Some (ob, td, f)
  end.

(** The entry of the table of zones for a value between 1 and 100. *)
Definition draw_zone (td : thread_data) (ddir : Z) : option (zone_split_index * thread_data) :=
  let* '(v, s) := rand_between (zone_state td) 1 100 in
  let* table := arr_get (zone_state_index td) ddir in
  let* zsi := arr_get table (wrap 32 v - 1) in
  Some (zsi, set_zone_state td s).

(** [*b += start] after a draw that succeeded. *)
Definition shift_block (start : Z) (x : option Z * thread_data * fio_file) : option Z * thread_data * fio_file :=
  let '(ob, td, f) := x in ((fun b => addw 64 b start) <$> ob, td, f).

Definition __get_next_rand_offset_zoned_abs (fuel : nat) (td : thread_data) (f : fio_file) (ddir : Z) :
    option (option Z * thread_data * fio_file) :=
  let* lastb := last_block td f ddir in
  if lastb =? 0 then Some (None, td, f) else
  let* nr := arr_get (zone_split_nr (o td)) ddir in
  if nr =? 0 then __get_next_rand_offset fuel td f lastb else
  let* '(zsi, td) := draw_zone td ddir in
  let* align := arr_get (ba (o td)) ddir in
  let* stotal := u64_div (size_prev zsi) align in
  let* send := u64_div (zsi_size zsi) align in
  if send =? all_ones 32 then __get_next_rand_offset fuel td f lastb
  else if lastb <? send then Some (None, td, f)
  else shift_block stotal <$> __get_next_rand_offset fuel td f (subw 64 send stotal).

Definition __get_next_rand_offset_zoned (fuel : nat) (td : thread_data) (f : fio_file) (ddir : Z) :
    option (option Z * thread_data * fio_file) :=
  let* lastb := last_block td f ddir in
  if lastb =? 0 then Some (None, td, f) else
  let* nr := arr_get (zone_split_nr (o td)) ddir in
  if nr =? 0 then __get_next_rand_offset fuel td f lastb else
  let* '(zsi, td) := draw_zone td ddir in
  let stotal := size_perc_prev zsi in
  let send := size_perc zsi in
  if send =? all_ones 32 then __get_next_rand_offset fuel td f lastb else
  let offset := if c_true stotal then mulw 64 stotal lastb / 100 else 0 in
  let lastb := mulw 64 lastb (subw 32 send stotal) / 100 in
  shift_block offset <$> __get_next_rand_offset fuel td f lastb.

Definition get_next_rand_offset (fuel : nat) (td : thread_data) (f : fio_file) (ddir : Z) :
    option (option Z * thread_data * fio_file) :=
  match random_distribution (o td) with
  | FIO_RAND_DIST_RANDOM =>
      let* lastb := last_block td f ddir in
      if lastb =? 0 then Some (None, td, f) else __get_next_rand_offset fuel td f lastb
  | FIO_RAND_DIST_ZIPF => let '(b, z) := zipf_next (zipf f) in Some (Some b, td, set_zipf f z)
  | FIO_RAND_DIST_PARETO => let '(b, z) := pareto_next (zipf f) in Some (Some b, td, set_zipf f z)
  | FIO_RAND_DIST_GAUSS => let* '(b, g) := gauss_next fuel (gauss f) in Some (Some b, td, set_gauss f g)
  | FIO_RAND_DIST_ZONED => __get_next_rand_offset_zoned fuel td f ddir
  | FIO_RAND_DIST_ZONED_ABS => __get_next_rand_offset_zoned_abs fuel td f ddir
  end.

Definition should_do_random (td : thread_data) (ddir : Z) : option (bool * thread_data) :=
  let* perc := arr_get (perc_rand (o td)) ddir in
  if perc =? 100 then Some (true, td) else
  let* s := arr_get (seq_rand_state td) ddir in
  let* '(v, s) := rand_between s 1 100 in
  let* l := arr_set (seq_rand_state td) ddir s in
  Some (wrap 32 v <=? perc, set_seq_rand td l).

Definition get_next_rand_block (fuel : nat) (td : thread_data) (f : fio_file) (ddir : Z) :
    option (option Z * thread_data * fio_file) :=
  let* '(ob, td, f) := get_next_rand_offset fuel td f ddir in
  match ob with
  | Some b => Some (Some b, td, f)
  | None =>
      if time_based (o td) || fservice_nonuniform (o td) then get_next_rand_offset fuel td (fio_file_reset td f) ddir
      else Some (None, td, f)
  end.

Definition get_next_seq_offset (td : thread_data) (f : fio_file) (ddir : Z) : option (option Z * fio_file) :=
  let opt := o td in
  let* _ := c_assert (ddir_rw ddir) in
  let* start := get_start_offset td f in
  let at_end pos := addw 64 (io_size f) start <=? pos in
  let* pos := arr_get (last_pos f) ddir in
  let pos := if at_end pos && time_based opt && (nr_files opt =? 1) then file_offset f else pos in
  let pos := if td_rw opt && (opt_size opt <? opt_io_size opt) && at_end pos then file_offset f else pos in
  let last := if io_size f <? real_file_size f then io_size f else real_file_size f in
  if pos <? real_file_size f then
    let pos := if (pos =? file_offset f) && c_true (file_offset f) && (ddir_seq_add opt <? 0) then last else pos in
    let* l := arr_set (last_pos f) ddir pos in
    let f := set_positions f l (last_start f) in
    let pos := subw 64 pos (file_offset f) in
    let pos :=
      if c_true pos && c_true (ddir_seq_add opt) then
        let pos := addw 64 pos (ddir_seq_add opt) in
        if real_file_size f <=? pos then
          if 0 <? ddir_seq_add opt then file_offset f else addw 64 last (ddir_seq_add opt)
        else pos
      else pos in
    Some (Some pos, f)
  else
    let* l := arr_set (last_pos f) ddir pos in
    Some (None, set_positions f l (last_start f)).

(** A random block, or the failure, as the pair of [offset] and [b] of [get_next_block]. *)
Definition rand_choice (fuel : nat) (td : thread_data) (f : fio_file) (u : io_u) (is_random : bool) :
    option (option (Z * Z * bool) * thread_data * fio_file * io_u) :=
  let* '(ob, td, f) := get_next_rand_block fuel td f (ddir u) in
  Some ((fun b => (all_ones 64, b, is_random)) <$> ob, td, f, u).

(** The choice of [get_next_block]: [offset], [b] and [*is_random], or the failure. *)
Definition choose_block (fuel : nat) (td : thread_data) (f : fio_file) (u : io_u) (seq_hit : bool) :
    option (option (Z * Z * bool) * thread_data * fio_file * io_u) :=
  let opt := o td in
  let found off f u := Some (Some (off, all_ones 64, false), td, f, u) in
  if td_randtrimwrite opt && (ddir u =? DDIR_WRITE) then
    let* off := arr_get (last_start f) DDIR_TRIM in
    Some (Some (off, all_ones 64, true), td, f, set_busy_ok u)
  else if seq_hit then
    if td_random opt then
      let* '(random, td) := should_do_random td (ddir u) in
      if (random : bool) then rand_choice fuel td f u true else
      let u := set_busy_ok u in
      let* '(off, f) := get_next_seq_offset td f (ddir u) in
      match off with
      | Some off => Some (Some (off, all_ones 64, false), td, f, u)
      | None => rand_choice fuel td f u false
      end
    else
      let* '(off, f) := get_next_seq_offset td f (ddir u) in
      match off with Some off => found off f u | None => Some (None, td, f, u) end
  else
    let u := set_busy_ok u in
    match rw_seq opt with
    | RW_SEQ_SEQ =>
        let* '(off, f) := get_next_seq_offset td f (ddir u) in
        match off with
        | Some off => found off f u
        | None => rand_choice fuel td f u false
        end
    | RW_SEQ_IDENT =>
        let* start := arr_get (last_start f) (ddir u) in
        found (if start =? all_ones 64 then 0 else subw 64 start (file_offset f)) f u
    end.

(** [Some is_random] where the code returns 0. *)
Definition get_next_block (fuel : nat) (td : thread_data) (f : fio_file) (u : io_u) (seq_hit : bool) :
    option (option bool * thread_data * fio_file * io_u) :=
  let* _ := c_assert (ddir_rw (ddir u)) in
  let* '(r, td, f, u) := choose_block fuel td f u seq_hit in
  match r with
  | None => Some (None, td, f, u)
  | Some (offset, b, is_random) =>
      if negb (offset =? all_ones 64) then Some (Some is_random, td, f, set_verify (set_offset u offset))
      else if negb (b =? all_ones 64) then
        let* align := arr_get (ba (o td)) (ddir u) in
        Some (Some is_random, td, f, set_verify (set_offset u (mulw 64 b align)))
      else Some (None, td, f, set_verify u)
  end.

Definition get_next_offset (fuel : nat) (td : thread_data) (f : fio_file) (u : io_u) :
    option (option bool * thread_data * fio_file * io_u) :=
  let* _ := c_assert (ddir_rw (ddir u)) in
  let '(hit, td) :=
    if c_true (opt_ddir_seq_nr (o td)) then
      let nr := subw 32 (ddir_seq_nr td) 1 in
      if nr =? 0 then (true, set_ddir_seq_nr td (opt_ddir_seq_nr (o td))) else (false, set_ddir_seq_nr td nr)
    else (false, td) in
  let* '(r, td, f, u) := get_next_block fuel td f u hit in
  match r with
  | None => Some (None, td, f, u)
  | Some is_random =>
      if io_size f <=? offset u then Some (None, td, f, u) else
      let u := set_offset u (addw 64 (offset u) (file_offset f)) in
      if real_file_size f <=? offset u then Some (None, td, f, u) else
      let* f :=
        (if td_randtrimwrite (o td) && (ddir u =? DDIR_TRIM) then
           let* trim := arr_get (last_start f) DDIR_TRIM in
           if trim =? offset u then
             let* write := arr_get (last_start f) DDIR_WRITE in
             let* l := arr_set (last_start f) DDIR_WRITE (subw 64 write 1) in
             Some (set_positions f (last_pos f) l)
           else Some f
         else Some f) in
      Some (Some is_random, td, f, set_verify u)
  end.

(** * Lengths *)

Definition io_u_fits (td : thread_data) (f : fio_file) (u : io_u) (len : Z) : option bool :=
  let* start := get_start_offset td f in
  Some (addw 64 (offset u) len <=? addw 64 (io_size f) start).

(** The loop over the split block sizes; [p] is the sum of the percentages so far. *)
Fixpoint bssplit_loop (td : thread_data) (f : fio_file) (u : io_u) (l : list bssplit) (r frand_max len p : Z) : option Z :=
  match l with
  | [] => Some len
  | bsp :: l =>
      if perc bsp =? 0 then bssplit_loop td f u l r frand_max len p else
      let p := p + perc bsp in
      let* fits := io_u_fits td f u (bs bsp) in
      if (r / p <=? frand_max / 100) && fits then Some (bs bsp) else bssplit_loop td f u l r frand_max (bs bsp) p
  end.

(** One turn of the loop of [get_next_buflen] for the draw [r] from the state [s]. *)
Definition buflen_turn (td : thread_data) (f : fio_file) (u : io_u) (s : frand_state) (minbs maxbs : Z) (split : list bssplit) (r : Z) : option Z :=
  let* len :=
    (match split with
     | [] => let* x := scale_rand s maxbs r in Some (addw 64 minbs x)
     | _ => bssplit_loop td f u split r (rand_max s) 0 0
     end) in
  let* len :=
    (if bs_unaligned (o td) then Some len
     else if is_power_of_2 minbs then Some (len & notw 64 (minbs - 1))
     else let* _ := c_assert (c_true minbs) in Some (len - len mod minbs)) in
  Some (if maxbs <? len then maxbs else len).

Fixpoint buflen_loop (fuel : nat) (td : thread_data) (f : fio_file) (u : io_u) (s : frand_state) (minbs maxbs : Z) (split : list bssplit) :
    option (Z * frand_state) :=
  match fuel with
  | O => None
  | S fuel =>
      let '(r, s') := __rand s in
      let* len := buflen_turn td f u s minbs maxbs split r in
      let* fits := io_u_fits td f u len in
      if (fits : bool) then Some (len, s') else buflen_loop fuel td f u s' minbs maxbs split
  end.

Definition get_next_buflen (fuel : nat) (td : thread_data) (f : fio_file) (u : io_u) (is_random : bool) : option (Z * thread_data) :=
  let opt := o td in
  let* _ := c_assert (ddir_rw (ddir u)) in
  if td_randtrimwrite opt && (ddir u =? DDIR_WRITE) then
    let* pos := arr_get (last_pos f) DDIR_TRIM in
    let* start := arr_get (last_start f) DDIR_TRIM in
    Some (subw 64 pos start, td)
  else
    let ddir := if bs_is_seq_rand opt then (if is_random then DDIR_WRITE else DDIR_READ) else ddir u in
    let* minbs := arr_get (min_bs opt) ddir in
    let* maxbs := arr_get (max_bs opt) ddir in
    if minbs =? maxbs then Some (minbs, td) else
    let* fits := io_u_fits td f u minbs in
    if negb fits then Some (0, td) else
    let* s := arr_get (bsrange_state td) ddir in
    let* split := arr_get (opt_bssplit opt) ddir in
    let* '(len, s) := buflen_loop fuel td f u s minbs maxbs split in
    let* l := arr_set (bsrange_state td) ddir s in
    Some (len, set_bsrange td l).

(** * An I/O *)

Definition setup_strided_zone_mode (td : thread_data) (f : fio_file) (u : io_u) : option (thread_data * fio_file) :=
  let opt := o td in
  let* _ := c_assert (c_true (zone_size opt)) in
  let* _ := c_assert (c_true (zone_range opt)) in
  let* '(td, f) :=
    (if zone_size opt <=? zone_bytes td then
       let f := set_file_offset f (addw 64 (file_offset f) (addw 64 (zone_range opt) (zone_skip opt))) in
       let* f := (if real_file_size f <=? file_offset f then let* start := get_start_offset td f in Some (set_file_offset f start) else Some f) in
       let* l := arr_set (last_pos f) (ddir u) (file_offset f) in
       Some (set_zone_bytes td 0 (addw 64 (io_skip_bytes td) (zone_skip opt)), set_positions f l (last_start f))
     else Some (td, f)) in
  let* pos := arr_get (last_pos f) (ddir u) in
  let* f :=
    (if addw 64 (file_offset f) (zone_range opt) <=? pos then
       let* l := arr_set (last_pos f) (ddir u) (file_offset f) in Some (set_positions f l (last_start f))
     else Some f) in
  Some (td, if zone_bytes td mod zone_range opt =? 0 then fio_file_reset td f else f).

(** [fill_io_u] once the direction is chosen, for one range, an engine that does I/O, no
    data placement and no zoned block device.  The flag says that it returned 0. *)
Definition fill_io_u (fuel : nat) (td : thread_data) (f : fio_file) (u : io_u) : option (bool * thread_data * fio_file * io_u) :=
  let* '(td, f) := (match zone_mode (o td) with ZONE_MODE_STRIDED => setup_strided_zone_mode td f u | ZONE_MODE_NONE => Some (td, f) end) in
  let* '(r, td, f, u) := get_next_offset fuel td f u in
  match r with
  | None => Some (false, td, f, u)
  | Some is_random =>
      let* '(len, td) := get_next_buflen fuel td f u is_random in
      let u := set_buflen u len in
      if len =? 0 then Some (false, td, f, u) else
      if real_file_size f <? addw 64 (offset u) len then Some (false, td, f, u) else
      let* '(len, f) :=
        (if td_random (o td) then
           match file_randommap td f with Some _ => mark_random_map td u f (offset u) len | None => Some (len, f) end
         else Some (len, f)) in
      let u := set_verify (set_buflen u len) in
      Some (true, set_zone_bytes td (addw 64 (zone_bytes td) len) (io_skip_bytes td), f, u)
  end.

(** [get_io_u] from there on: a fresh unit of direction [dir] is filled, and the file
    remembers where the I/O starts and ends. *)
Definition get_io_u (fuel : nat) (td : thread_data) (f : fio_file) (dir : Z) : option (option io_u * thread_data * fio_file) :=
  let* '(ok, td, f, u) := fill_io_u fuel td f (mk_io_u dir 0 0 0 false) in
  if negb ok then Some (None, td, f) else
  if buflen u =? 0 then Some (None, td, f) else
  let* start := arr_set (last_start f) dir (offset u) in
  let* pos := arr_set (last_pos f) dir (addw 64 (offset u) (buflen u)) in
  Some (Some u, td, set_positions f pos start).

(** [n] I/Os of direction [dir], as offsets and lengths, until one is refused. *)
Fixpoint issue (fuel n : nat) (td : thread_data) (f : fio_file) (dir : Z) : option (list (Z * Z) * thread_data * fio_file) :=
  match n with
  | O => Some ([], td, f)
  | S n =>
      let* '(r, td, f) := get_io_u fuel td f dir in
      match r with
      | None => Some ([], td, f)
      | Some u =>
          let* '(ios, td, f) := issue fuel n td f dir in
          Some ((offset u, buflen u) :: ios, td, f)
      end
  end.

(** * The start of a job *)

Definition set_options (td : thread_data) (opt : thread_options) : thread_data :=
  mk_td opt (random_state td) (zone_state td) (seq_rand_state td) (bsrange_state td) (zone_state_index td) (ddir_seq_nr td)
    (subjob_number td) (rand_seed_block td) (zone_bytes td) (io_skip_bytes td).

(** More blocks than the 32-bit generator can number make a job that did not choose a
    generator change to the 64-bit one. *)
Definition check_rand_gen_limits (td : thread_data) (blocks : Z) : thread_data :=
  match random_generator (o td) with
  | FIO_RAND_GEN_TAUSWORTHE =>
      if (blocks <=? all_ones 32) || generator_set (o td) then td
      else set_options td (set_generator (o td) FIO_RAND_GEN_TAUSWORTHE64)
  | _ => td
  end.

(** The body of the loop of [init_random_map] for one file; the flag is the value that a
    [return] in it has. *)
Definition init_random_map_file (alloc : Z -> bool) (td : thread_data) (f : fio_file) : option (bool * thread_data * fio_file) :=
  let fsize := match zone_mode (o td) with ZONE_MODE_STRIDED => zone_range (o td) | ZONE_MODE_NONE => Z.min (real_file_size f) (io_size f) end in
  let* blocks := u64_div fsize (rw_min_bs (o td)) in
  let td := check_rand_gen_limits td blocks in
  match random_generator (o td) with
  | FIO_RAND_GEN_LFSR =>
      match lfsr_init blocks (rand_seed_block td) 0 with
      | Some fl => Some (true, td, set_lfsr f (Some fl))
      | None => Some (false, td, f)
      end
  | _ =>
      if norandommap (o td) then Some (true, td, f) else
      match bm_new alloc blocks with
      | Some m => Some (true, td, set_axmap f (Some m))
      | None => Some (softrandommap (o td), td, f)
      end
  end.

Fixpoint init_random_map_files (alloc : Z -> bool) (td : thread_data) (fs : list fio_file) : option (bool * thread_data * list fio_file) :=
  match fs with
  | [] => Some (true, td, [])
  | f :: fs =>
      let* '(ok, td, f) := init_random_map_file alloc td f in
      if negb ok then Some (false, td, f :: fs) else
      let* '(ok, td, fs) := init_random_map_files alloc td fs in
      Some (ok, td, f :: fs)
  end.

(** For the distributions that keep no generator of their own in the file. *)
Definition init_random_map (alloc : Z -> bool) (td : thread_data) (fs : list fio_file) : option (bool * thread_data * list fio_file) :=
  if td_random (o td) then init_random_map_files alloc td fs else Some (true, td, fs).

(** * One random I/O of one block *)

(** A random job of direction [dir] on a file of [n] blocks of [B] bytes. *)
Record job (dir B n : Z) (td : thread_data) (f : fio_file) : Prop := {
  job_random : td_random (o td) = true;
  job_trimwrite : td_randtrimwrite (o td) = false;
  job_seq : opt_ddir_seq_nr (o td) = 1;
  job_seq_nr : ddir_seq_nr td = 1;
  job_dist : random_distribution (o td) = FIO_RAND_DIST_RANDOM;
  job_zone : zone_mode (o td) = ZONE_MODE_NONE;
  job_dir : ddir_rw dir = true;
  job_perc : arr_get (perc_rand (o td)) dir = Some 100;
  job_ba : arr_get (ba (o td)) dir = Some B;
  job_min : arr_get (min_bs (o td)) dir = Some B;
  job_max : arr_get (max_bs (o td)) dir = Some B;
  job_bs : bs_is_seq_rand (o td) = false;
  job_B : 0 < B;
  job_n : n = io_size f / B;
  job_offset : 0 <= file_offset f;
  job_io_size : 0 <= io_size f;
  job_size : file_offset f + io_size f <= real_file_size f < 2 ^ 63;
  job_pos : zlength (last_pos f) = 3;
  job_start : zlength (last_start f) = 3 }.

Section Job.
Variables dir B n : Z.
Variable fuel : nat.

Lemma job_dir_range td f : job dir B n td f -> 0 <= dir < 3.
Proof.
  intros J. pose proof (job_dir _ _ _ _ _ J) as H0. unfold ddir_rw, DDIR_READ, DDIR_WRITE, DDIR_TRIM in H0.
  destruct (Z.eqb_spec dir 0), (Z.eqb_spec dir 1), (Z.eqb_spec dir 2); done || lia.
Qed.

(** A block of the file lies in the file. *)
Lemma job_block td f b : job dir B n td f -> 0 <= b < n -> 0 <= b * B /\ b * B + B <= io_size f.
Proof.
  intros J Hb. pose proof (job_n _ _ _ _ _ J) as Hn. pose proof (job_B _ _ _ _ _ J) as HB.
  pose proof (Z.mul_div_le (io_size f) B HB). split; nia.
Qed.

Lemma job_last_block td f : job dir B n td f -> last_block td f dir = Some n.
Proof.
  intros J. unfold last_block. rewrite (job_dir _ _ _ _ _ J), (job_min _ _ _ _ _ J), (job_ba _ _ _ _ _ J), (job_zone _ _ _ _ _ J).
  cbn [c_assert mbind option_bind]. pose proof (job_size _ _ _ _ _ J). pose proof (job_offset _ _ _ _ _ J). pose proof (job_B _ _ _ _ _ J).
  destruct (Z.ltb_spec (real_file_size f) (io_size f)); [lia|]. destruct (Z.ltb_spec B B); [lia|].
  unfold u64_div. destruct (Z.eqb_spec B 0); [lia|]. by rewrite (job_n _ _ _ _ _ J).
Qed.

Lemma set_ddir_seq_nr_same td : set_ddir_seq_nr td (ddir_seq_nr td) = td.
Proof. by destruct td. Qed.

(** The same job after an I/O. *)
Definition same_job (td : thread_data) (f : fio_file) (td' : thread_data) (f' : fio_file) : Prop :=
  o td' = o td /\ ddir_seq_nr td' = ddir_seq_nr td /\ rand_seed_block td' = rand_seed_block td /\
  real_file_size f' = real_file_size f /\ file_offset f' = file_offset f /\ io_size f' = io_size f /\
  zlength (last_pos f') = zlength (last_pos f) /\ zlength (last_start f') = zlength (last_start f).

Lemma same_job_job td f td' f' : same_job td f td' f' -> job dir B n td f -> job dir B n td' f'.
Proof. intros (E1 & E2 & _ & E3 & E4 & E5 & E6 & E7) []. constructor; rewrite ?E1, ?E2, ?E3, ?E4, ?E5, ?E6, ?E7; assumption. Qed.

Lemma next_offset_random td f u : job dir B n td f -> ddir u = dir -> get_next_offset fuel td f u =
  (let* '(ob, td', f') := get_next_rand_block fuel td f dir in
   match ob with
   | None => Some (None, td', f', u)
   | Some b =>
       let* '(r, td', f', u) :=
         (if negb (b =? all_ones 64) then
            let* align := arr_get (ba (o td')) dir in
            Some (Some true, td', f', set_verify (set_offset u (mulw 64 b align)))
          else Some (None, td', f', set_verify u)) in
       match r with
       | None => Some (None, td', f', u)
       | Some is_random =>
           if io_size f' <=? offset u then Some (None, td', f', u) else
           let u := set_offset u (addw 64 (offset u) (file_offset f')) in
           if real_file_size f' <=? offset u then Some (None, td', f', u) else
           let* f' := (if td_randtrimwrite (o td') && (ddir u =? DDIR_TRIM) then
              let* trim := arr_get (last_start f') DDIR_TRIM in
              if trim =? offset u then
                let* write := arr_get (last_start f') DDIR_WRITE in
                let* l := arr_set (last_start f') DDIR_WRITE (subw 64 write 1) in
                Some (set_positions f' (last_pos f') l)
              else Some f'
            else Some f') in
           Some (Some is_random, td', f', set_verify u)
       end
   end).
Proof.
  intros J Hu. unfold get_next_offset. rewrite Hu, (job_dir _ _ _ _ _ J), (job_seq _ _ _ _ _ J), (job_seq_nr _ _ _ _ _ J).
  cbn [c_assert mbind option_bind]. change (c_true 1) with true. change (subw 32 1 1 =? 0) with true. cbv iota.
  rewrite <- (job_seq_nr _ _ _ _ _ J), set_ddir_seq_nr_same. unfold get_next_block, choose_block. rewrite Hu, (job_dir _ _ _ _ _ J), (job_trimwrite _ _ _ _ _ J), (job_random _ _ _ _ _ J).
  cbn [c_assert mbind option_bind andb]. unfold should_do_random. rewrite (job_perc _ _ _ _ _ J). cbn [mbind option_bind].
  change (100 =? 100) with true. cbv iota. cbn [mbind option_bind]. unfold rand_choice. rewrite Hu.
  destruct (get_next_rand_block fuel td f dir) as [[[[b|] td'] f']|]; cbn [mbind option_bind fmap option_fmap option_map]; [|done|done].
  change (negb (all_ones 64 =? all_ones 64)) with false. cbv iota. rewrite Hu. done.
Qed.

(** What [fill_io_u] does with the map: the block is marked, if there is a map. *)
Definition mark_block (td : thread_data) (f : fio_file) (u : io_u) : option (Z * fio_file) :=
  match file_randommap td f with Some _ => mark_random_map td u f (offset u) B | None => Some (B, f) end.

Lemma fill_io_u_block td f td1 f1 f2 b ver : job dir B n td f -> 0 <= b < n ->
  get_next_rand_block fuel td f dir = Some (Some b, td1, f1) -> same_job td f td1 f1 ->
  (forall u, ddir u = dir -> busy_ok u = false -> offset u = file_offset f + b * B -> mark_block td1 f1 u = Some (B, f2)) ->
  fill_io_u fuel td f (mk_io_u dir 0 0 ver false) =
    Some (true, set_zone_bytes td1 (addw 64 (zone_bytes td1) B) (io_skip_bytes td1), f2,
          mk_io_u dir (file_offset f + b * B) B (file_offset f + b * B) false).
Proof.
  intros J Hb Hd Hs Hm. pose proof (same_job_job _ _ _ _ Hs J) as J1. destruct Hs as (_ & _ & _ & Er & Eo & Ei & _).
  pose proof (job_block _ _ _ J Hb) as Hblk. pose proof (job_size _ _ _ _ _ J). pose proof (job_offset _ _ _ _ _ J). pose proof (job_B _ _ _ _ _ J).
  unfold fill_io_u. rewrite (job_zone _ _ _ _ _ J). cbn [mbind option_bind].
  rewrite next_offset_random, Hd by done. cbn [mbind option_bind]. unfold all_ones. destruct (Z.eqb_spec b (2 ^ 64 - 1)) as [E|E]; [nia|]. cbn [negb].
  rewrite (job_ba _ _ _ _ _ J1). cbn [mbind option_bind]. unfold set_verify, set_offset, set_buflen. cbn [ddir offset buflen verify_offset busy_ok].
  unfold mulw. rewrite (wrap_small 64 (b * B)) by (unfold is_word; lia). rewrite Ei, Er, Eo.
  destruct (Z.leb_spec (io_size f) (b * B)); [lia|].
  assert (addw 64 (b * B) (file_offset f) = file_offset f + b * B) as -> by (unfold addw; rewrite wrap_small by (unfold is_word; lia); lia).
  destruct (Z.leb_spec (real_file_size f) (file_offset f + b * B)); [lia|].
  rewrite (job_trimwrite _ _ _ _ _ J1). cbn [andb mbind option_bind]. unfold get_next_buflen. cbn [ddir].
  rewrite (job_dir _ _ _ _ _ J1), (job_trimwrite _ _ _ _ _ J1), (job_bs _ _ _ _ _ J1), (job_min _ _ _ _ _ J1), (job_max _ _ _ _ _ J1).
  cbn [c_assert mbind option_bind andb]. rewrite Z.eqb_refl. cbn [mbind option_bind ddir offset buflen verify_offset busy_ok].
  destruct (Z.eqb_spec B 0); [lia|].
  assert (addw 64 (file_offset f + b * B) B = file_offset f + b * B + B) as -> by (apply wrap_small; unfold is_word; lia).
  rewrite Er. destruct (Z.ltb_spec (real_file_size f) (file_offset f + b * B + B)); [lia|]. rewrite (job_random _ _ _ _ _ J1).
  specialize (Hm (mk_io_u dir (file_offset f + b * B) B (file_offset f + b * B) false) eq_refl eq_refl eq_refl).
  unfold mark_block in Hm. cbn [offset] in Hm. rewrite Hm. done.
Qed.

(** The I/O of a block. *)
Definition block_io (f : fio_file) (b : Z) : Z * Z := (file_offset f + b * B, B).

Lemma get_io_u_block td f td1 f1 f2 b : job dir B n td f -> 0 <= b < n ->
  get_next_rand_block fuel td f dir = Some (Some b, td1, f1) -> same_job td f td1 f1 -> same_job td1 f1 td1 f2 ->
  (forall u, ddir u = dir -> busy_ok u = false -> offset u = file_offset f + b * B -> mark_block td1 f1 u = Some (B, f2)) ->
  exists u td' f', get_io_u fuel td f dir = Some (Some u, td', f') /\ (offset u, buflen u) = block_io f b /\
    same_job td f td' f' /\ random_state td' = random_state td1 /\ io_axmap f' = io_axmap f2 /\ file_lfsr f' = file_lfsr f2.
Proof.
  intros J Hb Hd S1 S2 Hm. unfold get_io_u. rewrite (fill_io_u_block td f td1 f1 f2 b 0) by done. cbn [mbind option_bind negb buflen offset].
  pose proof (job_B _ _ _ _ _ J). destruct (Z.eqb_spec B 0); [lia|].
  pose proof (job_dir_range _ _ J) as Hdir. destruct S1 as (E1 & E2 & E3 & E4 & E5 & E6 & E7 & E8).
  destruct S2 as (_ & _ & _ & F4 & F5 & F6 & F7 & F8).
  rewrite !arr_set_Some by (rewrite ?F7, ?F8, ?E7, ?E8, ?(job_pos _ _ _ _ _ J), ?(job_start _ _ _ _ _ J); done).
  cbn [mbind option_bind]. eexists _, _, _. split; [done|]. split; [done|]. split; [|done].
  unfold same_job. cbn. rewrite ?zlength_insert, E1, E2, E3, F4, F5, F6, F7, F8. done.
Qed.

Lemma get_io_u_end td f td1 f1 : job dir B n td f -> get_next_rand_block fuel td f dir = Some (None, td1, f1) ->
  get_io_u fuel td f dir = Some (None, td1, f1).
Proof.
  intros J Hd. unfold get_io_u, fill_io_u. rewrite (job_zone _ _ _ _ _ J). cbn [mbind option_bind].
  by rewrite next_offset_random, Hd.
Qed.

Lemma same_job_trans td f td1 f1 td2 f2 : same_job td f td1 f1 -> same_job td1 f1 td2 f2 -> same_job td f td2 f2.
Proof.
  intros (A1 & A2 & A3 & A4 & A5 & A6 & A7 & A8) (B1 & B2 & B3 & B4 & B5 & B6 & B7 & B8).
  unfold same_job. rewrite B1, B2, B3, B4, B5, B6, B7, B8. done.
Qed.

Lemma same_job_reset td f : job dir B n td f -> same_job td f td (fio_file_reset td f).
Proof.
  intros J. unfold same_job, fio_file_reset. rewrite (job_pos _ _ _ _ _ J), (job_start _ _ _ _ _ J).
  cbn [io_axmap file_lfsr set_positions]. by destruct (io_axmap f), (file_lfsr f).
Qed.

Definition restarts (td : thread_data) : bool := time_based (o td) || fservice_nonuniform (o td).

(** ** With a random map *)

Context `{!BlockMapLaws M}.

(** The map holds the blocks [issued]. *)
Definition holds (m : M) (issued : list Z) : Prop :=
  bm_ok m /\ bm_size m = n /\ forall j, 0 <= j < n -> bm_member m j = true <-> j ∈ issued.

Record mapped (issued : list Z) (td : thread_data) (f : fio_file) : Prop := {
  mapped_job : job dir B n td f;
  mapped_gen : random_generator (o td) = FIO_RAND_GEN_TAUSWORTHE;
  mapped_norandommap : norandommap (o td) = false;
  mapped_state : exists s, random_state td = state32 s /\ alive32 s;
  mapped_map : exists m, io_axmap f = Some m /\ holds m issued;
  mapped_nodup : base.NoDup issued;
  mapped_range : forall j, j ∈ issued -> 0 <= j < n }.

Lemma mapped_le issued td f : 0 <= n -> mapped issued td f -> zlength issued <= n.
Proof.
  intros Hn Hm. assert (issued ⊆+ seqZ 0 n) as Hs.
  { apply NoDup_submseteq; [apply Hm|]. intros j Hj%(mapped_range _ _ _ Hm). apply elem_of_seqZ. lia. }
  apply submseteq_length in Hs. rewrite length_seqZ in Hs. unfold zlength. lia.
Qed.

(** All blocks are issued when there are as many as the file has. *)
Lemma mapped_full issued td f : 0 <= n -> mapped issued td f -> (forall j, 0 <= j < n -> j ∈ issued) <-> zlength issued = n.
Proof.
  intros Hn Hm. pose proof (mapped_le _ _ _ Hn Hm) as Hle. split.
  - intros Hall. assert (seqZ 0 n ⊆+ issued) as Hs.
    { apply NoDup_submseteq; [apply NoDup_seqZ|]. intros j Hj%elem_of_seqZ. apply Hall. lia. }
    apply submseteq_length in Hs. rewrite length_seqZ in Hs. unfold zlength in *. lia.
  - intros E j Hj. assert (seqZ 0 n ≡ₚ issued) as <-; [|apply elem_of_seqZ; lia]. symmetry.
    apply submseteq_length_Permutation.
    + apply NoDup_submseteq; [apply Hm|]. intros k Hk%(mapped_range _ _ _ Hm). apply elem_of_seqZ. lia.
    + rewrite length_seqZ. unfold zlength in E. lia.
Qed.

Lemma mapped_perm issued td f : 0 <= n -> mapped issued td f -> zlength issued = n -> issued ≡ₚ seqZ 0 n.
Proof.
  intros Hn Hm E. apply submseteq_length_Permutation.
  - apply NoDup_submseteq; [apply Hm|]. intros k Hk%(mapped_range _ _ _ Hm). apply elem_of_seqZ. lia.
  - rewrite length_seqZ. unfold zlength in E. lia.
Qed.

Lemma scale_rand_below s r : 0 < n < 2 ^ 53 -> is_word 32 r -> exists b, scale_rand (state32 s) n r = Some b /\ 0 <= b < n.
Proof.
  intros Hn Hr. unfold scale_rand. cbn [use64]. unfold is_word in Hr. rewrite (double_of_small n), (double_of_small r) by lia.
  assert (0 <= double_of (n * r) >> 32 < n) as Hb by (apply scale_below; nia).
  unfold c_assert. destruct (Z.ltb_spec (double_of (n * r) >> 32) (2 ^ 64)); [|lia]. eexists. by split.
Qed.

Lemma mapped_draw issued td f : 0 < n < 2 ^ 53 -> mapped issued td f -> exists ob s,
  get_next_rand_offset fuel td f dir = Some (ob, set_random_state td (state32 s), f) /\ alive32 s /\
  match ob with Some b => 0 <= b < n /\ b ∉ issued | None => zlength issued = n end.
Proof.
  intros Hn Hm. pose proof (mapped_job _ _ _ Hm) as J. destruct (mapped_state _ _ _ Hm) as (s & Es & As).
  destruct (mapped_map _ _ _ Hm) as (m & Em & Hok & Hsz & Hmem). destruct (rand32_alive s As) as [Hr Ha].
  unfold get_next_rand_offset. rewrite (job_dist _ _ _ _ _ J), (job_last_block _ _ J). cbn [mbind option_bind].
  destruct (Z.eqb_spec n 0); [lia|]. unfold __get_next_rand_offset. rewrite (mapped_gen _ _ _ Hm), Es. cbn [__rand].
  destruct (__rand32 s) as [r s'] eqn:E. cbn [fst snd] in *. destruct (scale_rand_below s r Hn Hr) as (b & -> & Hb).
  cbn [mbind option_bind]. unfold file_randommap. cbn [o set_random_state]. rewrite (mapped_norandommap _ _ _ Hm), Em.
  unfold random_map_free. rewrite (bm_isset_law m b Hok) by lia. cbn [mbind option_bind].
  destruct (bm_member m b) eqn:Eb; cbn [negb].
  - destruct (bm_next_free_law m b Hok ltac:(lia)) as (r' & -> & Hc). cbn [mbind option_bind]. rewrite Hsz in Hc.
    assert (forall j, 0 <= j < n -> bm_member m j = false -> j ∉ issued) as Hout.
    { intros j Hj Ej Hin. apply Hmem in Hin; [congruence|done]. }
    destruct Hc as [(Hr1 & Hr2 & _)|[(Hr1 & Hr2 & _)|[-> Hall]]].
    + unfold all_ones. destruct (Z.eqb_spec r' (2 ^ 64 - 1)); [lia|]. exists (Some r'), s'. split; [done|]. split; [done|]. split; [lia|apply Hout; lia || done].
    + unfold all_ones. destruct (Z.eqb_spec r' (2 ^ 64 - 1)); [lia|]. exists (Some r'), s'. split; [done|]. split; [done|]. split; [lia|apply Hout; lia || done].
    + change (ULONG_MAX =? all_ones 64) with true. exists None, s'. split; [done|]. split; [done|].
      apply (mapped_full _ _ _ ltac:(lia) Hm). intros j Hj. apply Hmem; [done|]. by apply Hall.
  - exists (Some b), s'. split; [done|]. split; [done|]. split; [done|]. intros Hin. apply Hmem in Hin; [congruence|done].
Qed.

Lemma mapped_random_state issued td f s : mapped issued td f -> alive32 s -> mapped issued (set_random_state td (state32 s)) f.
Proof.
  intros [J ? ? _ ? ? ?] Ha. constructor; try assumption; [|by exists s].
  eapply same_job_job; [|exact J]. by repeat split.
Qed.

Lemma mapped_reset issued td f : mapped issued td f -> mapped [] td (fio_file_reset td f).
Proof.
  intros [J ? ? ? (m & Em & Hok & Hsz & _) _ _]. constructor; try assumption.
  - eapply same_job_job; [by apply same_job_reset|exact J].
  - unfold fio_file_reset. cbn [io_axmap set_positions]. rewrite Em. cbn [io_axmap set_axmap].
    destruct (bm_reset_law m Hok) as (Hok' & Hsz' & Hno). exists (bm_reset m). split; [done|]. split; [done|].
    split; [congruence|]. intros j _. rewrite Hno. split; [done|]. by intros ?%elem_of_nil.
  - apply NoDup_nil_2.
  - by intros j ?%elem_of_nil.
Qed.

(** A new pass starts when every block is issued and the job restarts. *)
Lemma mapped_rand_block issued td f : 0 < n < 2 ^ 53 -> mapped issued td f -> exists ob td1 f1,
  get_next_rand_block fuel td f dir = Some (ob, td1, f1) /\ same_job td f td1 f1 /\
  match ob with
  | Some b => exists rest, mapped rest td1 f1 /\ 0 <= b < n /\ (b ∉ rest) /\
      ((rest = issued /\ zlength issued < n) \/ (rest = [] /\ zlength issued = n /\ restarts td = true))
  | None => zlength issued = n /\ restarts td = false
  end.
Proof.
  intros Hn Hm. destruct (mapped_draw issued td f Hn Hm) as (ob & s & E & Ha & Hob). unfold get_next_rand_block. rewrite E. cbn [mbind option_bind].
  pose proof (mapped_random_state _ _ _ s Hm Ha) as Hm1. set (td1 := set_random_state td (state32 s)) in *.
  assert (same_job td f td1 f) as S1 by by repeat split.
  destruct ob as [b|].
  - exists (Some b), td1, f. split; [done|]. split; [done|]. exists issued. split; [done|]. split; [apply Hob|]. split; [apply Hob|]. left. split; [done|].
    pose proof (mapped_le _ _ _ ltac:(lia) Hm). destruct (Z.eq_dec (zlength issued) n) as [En|]; [|lia].
    apply (mapped_full _ _ _ ltac:(lia) Hm) with (j := b) in En; [|lia]. by destruct Hob.
  - change (time_based (o td1) || fservice_nonuniform (o td1)) with (restarts td). destruct (restarts td) eqn:Er.
    + pose proof (mapped_reset _ _ _ Hm1) as Hm2. destruct (mapped_draw [] td1 (fio_file_reset td1 f) Hn Hm2) as (ob & s2 & E2 & Ha2 & Hob2).
      rewrite E2. eexists ob, _, _. split; [done|].
      split; [apply (same_job_trans _ _ td1 (fio_file_reset td1 f)); [apply (same_job_reset td1 f), Hm1|by repeat split]|].
      destruct ob as [b|]; [|unfold zlength in Hob2; cbn in Hob2; lia]. exists []. split; [by apply mapped_random_state|].
      split; [apply Hob2|]. split; [apply Hob2|]. by right.
    + exists None, td1, f. by split_and!.
Qed.

Lemma mapped_mark issued td f b : 0 < n -> mapped issued td f -> 0 <= b < n -> b ∉ issued -> exists f',
  same_job td f td f' /\ mapped (b :: issued) td f' /\
  forall u, ddir u = dir -> busy_ok u = false -> offset u = file_offset f + b * B -> mark_block td f u = Some (B, f').
Proof.
  intros Hn Hm Hb Hnew. pose proof (mapped_job _ _ _ Hm) as J. destruct (mapped_map _ _ _ Hm) as (m & Em & Hok & Hsz & Hmem).
  destruct (bm_set_nr_law m b 1 Hok ltac:(lia) ltac:(lia) ltac:(lia)) as (m' & r & Eset & Hok' & Hsz' & (Hr1 & Hr2 & Hr3) & Hmem').
  assert (r = 1) as ->.
  { destruct (Z.eq_dec r 1) as [|Hne]; [done|]. assert (r = 0) as -> by lia. specialize (Hr3 ltac:(lia)). rewrite Z.add_0_r in Hr3.
    by apply Hmem in Hr3. }
  pose proof (job_B _ _ _ _ _ J). pose proof (job_size _ _ _ _ _ J). pose proof (job_offset _ _ _ _ _ J). pose proof (job_block _ _ _ J Hb).
  exists (set_axmap f (Some m')). split; [by repeat split|]. split.
  - destruct Hm as [? ? ? ? _ ? ?]. constructor; try assumption; [eapply same_job_job; [|exact J]; by repeat split|..].
    + exists m'. split; [done|]. split; [done|]. split; [congruence|]. intros j Hj. rewrite Hmem' by lia. specialize (Hmem j Hj).
      rewrite orb_true_iff, elem_of_cons. unfold in_range. destruct (Z.leb_spec b j), (Z.ltb_spec j (b + 1)); cbn [andb]; intuition lia.
    + by apply list.NoDup_cons.
    + intros j [->|Hj]%elem_of_cons; [done|auto].
  - intros u Hu Hbusy Hoff. unfold mark_block, file_randommap. rewrite (mapped_norandommap _ _ _ Hm), Em. unfold mark_random_map.
    rewrite Hu, (job_min _ _ _ _ _ J), Em, Hoff, Hbusy. cbn [mbind option_bind]. unfold u64_div. destruct (Z.eqb_spec B 0); [lia|]. cbn [mbind option_bind].
    assert (subw 64 (file_offset f + b * B) (file_offset f) / B = b) as ->.
    { unfold subw. rewrite wrap_small by (unfold is_word; lia). symmetry. apply Z.div_unique_exact; lia. }
    assert (subw 64 (addw 64 B B) 1 / B = 1) as ->.
    { unfold addw, subw. rewrite (wrap_small 64 (B + B)) by (unfold is_word; lia). rewrite wrap_small by (unfold is_word; lia).
      symmetry. apply Z.div_unique with (B - 1); lia. }
    change (wrap 32 1) with 1. change (c_assert (0 <? 1)) with (Some tt). cbn [mbind option_bind]. rewrite Eset. cbn [mbind option_bind].
    change (c_assert (0 <? 1)) with (Some tt). cbn [mbind option_bind].
    assert (mulw 64 1 B = B) as -> by (unfold mulw; rewrite Z.mul_1_l; apply wrap_small; unfold is_word; lia).
    by destruct (Z.ltb_spec B B); [lia|].
Qed.

Lemma mapped_io issued td f : 0 < n < 2 ^ 53 -> mapped issued td f ->
  if (zlength issued =? n) && negb (restarts td) then exists td' f', get_io_u fuel td f dir = Some (None, td', f')
  else exists b u td' f', get_io_u fuel td f dir = Some (Some u, td', f') /\ (offset u, buflen u) = block_io f b /\
    same_job td f td' f' /\ mapped (b :: if zlength issued =? n then [] else issued) td' f'.
Proof.
  intros Hn Hm. destruct (mapped_rand_block issued td f Hn Hm) as (ob & td1 & f1 & E & S1 & Hob). pose proof (mapped_job _ _ _ Hm) as J. destruct ob as [b|].
  - destruct Hob as (rest & Hm1 & Hb & Hnew & Hrest).
    assert ((zlength issued =? n) && negb (restarts td) = false /\ rest = if zlength issued =? n then [] else issued) as [-> <-].
    { destruct Hrest as [[-> Hlt]|(-> & -> & ->)]; [destruct (Z.eqb_spec (zlength issued) n); [lia|done]|by rewrite Z.eqb_refl]. }
    destruct (mapped_mark rest td1 f1 b ltac:(lia) Hm1 Hb Hnew) as (f2 & S2 & Hm2 & Hmark).
    destruct (get_io_u_block td f td1 f1 f2 b J Hb E S1 S2) as (u & td' & f' & Eu & Ho & S & Er & Ea & _).
    { intros u Hu Hbusy Hoff. apply Hmark; [done|done|]. destruct S1 as (_ & _ & _ & _ & -> & _). done. }
    exists b, u, td', f'. split_and!; try done. destruct S as (So & Ss) eqn:ES. destruct Hm2 as [_ ? ? ? ? ? ?].
    destruct S1 as (S1o & _). constructor; try done; rewrite ?So, ?Er, ?Ea, <- ?S1o; try done. eapply same_job_job; [exact S|exact J].
  - destruct Hob as [-> ->]. rewrite Z.eqb_refl. exists td1, f1. by apply get_io_u_end.
Qed.

Lemma mapped_issue k : 0 < n < 2 ^ 53 -> forall issued td f, mapped issued td f -> zlength issued + Z.of_nat k <= n ->
  exists bs td' f', issue fuel k td f dir = Some (block_io f <$> bs, td', f') /\ same_job td f td' f' /\
    mapped (reverse bs ++ issued) td' f' /\ length bs = k.
Proof.
  intros Hn. induction k as [|k IH]; intros issued td f Hm Hk.
  { exists [], td, f. by split_and!. }
  pose proof (mapped_io issued td f Hn Hm) as Hio. destruct (Z.eqb_spec (zlength issued) n); [lia|]. cbn [andb] in Hio.
  destruct Hio as (b & u & td1 & f1 & E & Ho & S1 & Hm1).
  destruct (IH (b :: issued) td1 f1 Hm1) as (bs & td' & f' & E' & S2 & Hm' & Hl); [unfold zlength in *; cbn [length]; lia|].
  exists (b :: bs), td', f'. cbn [issue]. rewrite E. cbn [mbind option_bind]. rewrite E'. cbn [mbind option_bind]. rewrite Ho.
  split_and!; [|by eapply same_job_trans| |by cbn; rewrite Hl].
  - do 3 f_equal. cbn [fmap list_fmap]. f_equal. apply list_fmap_ext. intros i x _. unfold block_io. by destruct S1 as (_ & _ & _ & _ & -> & _).
  - rewrite reverse_cons, <- app_assoc. exact Hm'.
Qed.

(** ** With a shift register *)

Record registered (fl : fio_lfsr) (td : thread_data) (f : fio_file) : Prop := {
  registered_job : job dir B n td f;
  registered_gen : random_generator (o td) = FIO_RAND_GEN_LFSR;
  registered_map : io_axmap f = None;
  registered_lfsr : file_lfsr f = Some fl }.

Lemma registered_draw fl td f ob fl' : 0 < n -> registered fl td f -> lfsr_next fuel fl = Some (ob, fl') ->
  get_next_rand_offset fuel td f dir = Some (ob, td, set_lfsr f (Some fl')).
Proof.
  intros Hn [J Hg Hmap Hl] E. unfold get_next_rand_offset. rewrite (job_dist _ _ _ _ _ J), (job_last_block _ _ J). cbn [mbind option_bind].
  destruct (Z.eqb_spec n 0); [lia|]. unfold __get_next_rand_offset. rewrite Hg, Hl. cbn [mbind option_bind]. rewrite E. cbn [mbind option_bind].
  unfold file_randommap. cbn [io_axmap set_lfsr]. rewrite Hmap. by destruct (norandommap (o td)), ob.
Qed.

Lemma registered_io fl td f b fl' : 0 < n -> registered fl td f -> lfsr_next fuel fl = Some (Some b, fl') -> 0 <= b < n ->
  exists u td' f', get_io_u fuel td f dir = Some (Some u, td', f') /\ (offset u, buflen u) = block_io f b /\
    same_job td f td' f' /\ registered fl' td' f'.
Proof.
  intros Hn R E Hb. pose proof R as [J Hg Hmap Hl]. set (f1 := set_lfsr f (Some fl')).
  assert (same_job td f td f1) as S1 by by repeat split.
  assert (get_next_rand_block fuel td f dir = Some (Some b, td, f1)) as Er.
  { unfold get_next_rand_block. by rewrite (registered_draw fl td f (Some b) fl'). }
  destruct (get_io_u_block td f td f1 f1 b J Hb Er S1) as (u & td' & f' & Eu & Ho & S & _ & Ea & El); [by repeat split| |].
  { intros u _ _ _. unfold mark_block, file_randommap. cbn [io_axmap f1 set_lfsr]. rewrite Hmap. by destruct (norandommap (o td)). }
  exists u, td', f'. split_and!; try done. pose proof S as (So & _). constructor.
  - eapply same_job_job; [exact S|exact J].
  - by rewrite So.
  - by rewrite Ea.
  - by rewrite El.
Qed.

Lemma registered_issue : 0 < n -> forall offs fl fl' td f, lfsr_calls fuel (length offs) fl = Some (Some <$> offs, fl') ->
  (forall b, b ∈ offs -> 0 <= b < n) -> registered fl td f ->
  exists td' f', issue fuel (length offs) td f dir = Some (block_io f <$> offs, td', f') /\ same_job td f td' f' /\ registered fl' td' f'.
Proof.
  intros Hn. induction offs as [|b offs IH]; intros fl fl' td f E Hr R.
  { injection E as ->. exists td, f. by split_and!. }
  cbn [length lfsr_calls] in E. destruct (lfsr_next fuel fl) as [[ob fl1]|] eqn:E1; [|done]. cbn [mbind option_bind] in E.
  destruct (lfsr_calls fuel (length offs) fl1) as [[os fl2]|] eqn:E2; [|done]. cbn [mbind option_bind] in E.
  injection E as -> -> ->. destruct (registered_io fl td f b fl1 Hn R E1) as (u & td1 & f1 & Eu & Ho & S1 & R1).
  { apply Hr. by apply list_elem_of_here. }
  destruct (IH fl1 fl' td1 f1 E2) as (td' & f' & E' & S2 & R'); [intros; apply Hr; by apply list_elem_of_further|done|].
  exists td', f'. cbn [length issue]. rewrite Eu. cbn [mbind option_bind]. rewrite E'. cbn [mbind option_bind]. rewrite Ho.
  split_and!; [|by eapply same_job_trans|done]. do 3 f_equal. cbn [fmap list_fmap]. f_equal.
  apply list_fmap_ext. intros i x _. unfold block_io. by destruct S1 as (_ & _ & _ & _ & -> & _).
Qed.

(** The I/O depends on the file through the block that is drawn. *)
Lemma get_io_u_same td f f' : job dir B n td f -> job dir B n td f' ->
  get_next_rand_block fuel td f dir = get_next_rand_block fuel td f' dir -> get_io_u fuel td f dir = get_io_u fuel td f' dir.
Proof.
  intros J J' E. unfold get_io_u, fill_io_u. rewrite (job_zone _ _ _ _ _ J). cbn [mbind option_bind].
  by rewrite !next_offset_random, E.
Qed.

(** ** A pass *)

(** As many I/Os as there are blocks go to each block once; then a job that restarts
    begins another such pass, and any other job is at its end. *)
Definition covers (td : thread_data) (f : fio_file) : Prop :=
  exists ios td1 f1, issue fuel (Z.to_nat n) td f dir = Some (ios, td1, f1) /\ ios ≡ₚ (block_io f <$> seqZ 0 n) /\
    if restarts td
    then exists ios' td2 f2, issue fuel (Z.to_nat n) td1 f1 dir = Some (ios', td2, f2) /\ ios' ≡ₚ (block_io f <$> seqZ 0 n)
    else exists td2 f2, get_io_u fuel td1 f1 dir = Some (None, td2, f2).

Lemma same_job_restarts td f td' f' : same_job td f td' f' -> restarts td' = restarts td.
Proof. intros (E & _). unfold restarts. by rewrite E. Qed.

Lemma block_io_same td f td' f' : same_job td f td' f' -> block_io f' = block_io f.
Proof. intros (_ & _ & _ & _ & E & _). unfold block_io. by rewrite E. Qed.

Lemma mapped_covers td f : 0 < n < 2 ^ 53 -> mapped [] td f -> covers td f.
Proof.
  intros Hn Hm. destruct (mapped_issue (Z.to_nat n) Hn [] td f Hm) as (bs & td1 & f1 & E & S1 & Hm1 & Hl); [unfold zlength; cbn; lia|].
  rewrite app_nil_r in Hm1. assert (zlength (reverse bs) = n) as Hfull by (unfold zlength; rewrite length_reverse, Hl; lia).
  exists (block_io f <$> bs), td1, f1. split; [done|]. split.
  { rewrite <- (mapped_perm _ _ _ ltac:(lia) Hm1 Hfull). by rewrite reverse_Permutation. }
  pose proof (mapped_io _ _ _ Hn Hm1) as Hio. rewrite Hfull, Z.eqb_refl, (same_job_restarts _ _ _ _ S1) in Hio.
  destruct (restarts td); cbn [andb negb] in Hio; [|exact Hio].
  destruct Hio as (b & u & td2 & f2 & E2 & Ho & S2 & Hm2).
  destruct (mapped_issue (Z.to_nat (n - 1)) Hn [b] td2 f2 Hm2) as (bs' & td3 & f3 & E3 & S3 & Hm3 & Hl3); [unfold zlength; cbn; lia|].
  exists (block_io f <$> (b :: bs')), td3, f3. replace (Z.to_nat n) with (S (Z.to_nat (n - 1))) by lia. cbn [issue].
  rewrite E2. cbn [mbind option_bind]. rewrite E3. cbn [mbind option_bind]. rewrite Ho, (block_io_same _ _ _ _ S2), (block_io_same _ _ _ _ S1).
  split; [done|]. assert (zlength (reverse bs' ++ [b]) = n) as Hfull3.
  { unfold zlength. rewrite length_app, length_reverse, Hl3. cbn. lia. }
  rewrite <- (mapped_perm _ _ _ ltac:(lia) Hm3 Hfull3), reverse_Permutation. by rewrite <- Permutation_cons_append.
Qed.

(** A draw from the exhausted register restarts it with the seed of the job. *)
Lemma registered_restart fl1 fl2 td f : 0 < n -> registered fl1 td f -> lfsr_next fuel fl1 = Some (None, fl2) ->
  restarts td = true -> exists f2, registered (lfsr_reset_state fl2 (rand_seed_block td)) td f2 /\ same_job td f td f2 /\
    get_next_rand_block fuel td f dir = get_next_rand_offset fuel td f2 dir.
Proof.
  intros Hn R E Hr. pose proof R as [J Hg Hmap Hl]. set (f1 := set_lfsr f (Some fl2)).
  assert (job dir B n td f1) as J1 by (eapply same_job_job; [|exact J]; by repeat split).
  assert (same_job td f td (fio_file_reset td f1)) as S1.
  { apply (same_job_trans _ _ td f1); [by repeat split|by apply same_job_reset]. }
  exists (fio_file_reset td f1). split; [|split; [done|]].
  - constructor; [eapply same_job_job; [exact S1|exact J]|done|..].
    + unfold fio_file_reset. cbn [io_axmap file_lfsr set_positions f1 set_lfsr]. by rewrite Hmap.
    + unfold fio_file_reset. cbn [io_axmap file_lfsr set_positions f1 set_lfsr]. by rewrite Hmap.
  - unfold get_next_rand_block. rewrite (registered_draw fl1 td f None fl2) by done. cbn [mbind option_bind].
    change (time_based (o td) || fservice_nonuniform (o td)) with (restarts td). by rewrite Hr.
Qed.

Lemma registered_covers fl fl1 fl2 fl1' offs offs' td f : 0 < n -> registered fl td f ->
  lfsr_calls fuel (Z.to_nat n) fl = Some (Some <$> offs, fl1) -> offs ≡ₚ seqZ 0 n -> lfsr_next fuel fl1 = Some (None, fl2) ->
  lfsr_calls fuel (Z.to_nat n) (lfsr_reset_state fl2 (rand_seed_block td)) = Some (Some <$> offs', fl1') -> offs' ≡ₚ seqZ 0 n ->
  covers td f.
Proof.
  intros Hn R E Hp E2 E' Hp'.
  assert (forall l, l ≡ₚ seqZ 0 n -> length l = Z.to_nat n /\ forall b, b ∈ l -> 0 <= b < n) as Hall.
  { intros l Hl. split; [by rewrite Hl, length_seqZ|]. intros b. rewrite Hl, elem_of_seqZ. lia. }
  destruct (Hall _ Hp) as [Hlen Hin], (Hall _ Hp') as [Hlen' Hin'].
  destruct (registered_issue Hn offs fl fl1 td f) as (td1 & f1 & Ei & S1 & R1); [by rewrite Hlen|done|done|].
  rewrite Hlen in Ei. exists (block_io f <$> offs), td1, f1. split; [done|]. split; [by rewrite Hp|].
  destruct (restarts td) eqn:Hr.
  - rewrite <- (same_job_restarts _ _ _ _ S1) in Hr. destruct (registered_restart fl1 fl2 td1 f1 Hn R1 E2 Hr) as (f2 & R2 & S2 & Eb).
    assert (rand_seed_block td1 = rand_seed_block td) as Es by apply S1. rewrite Es in R2.
    destruct (registered_issue Hn offs' _ fl1' td1 f2 ltac:(rewrite Hlen'; exact E') Hin' R2) as (td3 & f3 & Ei3 & _ & _).
    exists (block_io f <$> offs'), td3, f3. split; [|by rewrite Hp'].
    rewrite <- (block_io_same _ _ _ _ S1), <- (block_io_same _ _ _ _ S2), <- Ei3, Hlen'.
    destruct (Z.to_nat n) as [|k] eqn:Ek; [lia|]. cbn [issue]. rewrite (get_io_u_same td1 f1 f2); [done|apply R1|apply R2|].
    rewrite Eb. cbn [lfsr_calls] in E'. destruct (lfsr_next fuel _) as [[ob fl3]|] eqn:E3 in E'; [|done]. cbn [mbind option_bind] in E'.
    destruct (lfsr_calls fuel k fl3) as [[os fl4]|] in E'; [|done]. destruct offs' as [|b offs']; [done|]. injection E' as -> _ _.
    unfold get_next_rand_block. rewrite (registered_draw _ td1 f2 _ _ Hn R2 E3). done.
  - assert (restarts td1 = false) as Hr1 by by rewrite (same_job_restarts _ _ _ _ S1).
    exists td1, (set_lfsr f1 (Some fl2)). apply get_io_u_end; [apply R1|]. unfold get_next_rand_block.
    rewrite (registered_draw _ td1 f1 _ _ Hn R1 E2). cbn [mbind option_bind]. change (time_based (o td1) || fservice_nonuniform (o td1)) with (restarts td1). by rewrite Hr1.
Qed.

Lemma job_blocks td f : job dir B n td f -> u64_div (match zone_mode (o td) with ZONE_MODE_STRIDED => zone_range (o td) | ZONE_MODE_NONE => Z.min (real_file_size f) (io_size f) end) B = Some n.
Proof.
  intros J. rewrite (job_zone _ _ _ _ _ J). pose proof (job_B _ _ _ _ _ J). pose proof (job_size _ _ _ _ _ J). pose proof (job_offset _ _ _ _ _ J).
  unfold u64_div. destruct (Z.eqb_spec B 0); [lia|]. rewrite Z.min_r by lia. by rewrite (job_n _ _ _ _ _ J).
Qed.
End Job.

(** C28: With the 32-bit generator and a random map, a random job of one block size that
    was started by [init_random_map] covers its file: the first [n] I/Os that [get_io_u]
    hands out go to each of the [n] blocks of the file exactly once, whatever the seed;
    then a time-based job begins another pass that does the same, and any other job gets
    no I/O any more. *)
Theorem random_map_covers dir B n fuel alloc td f0 td' fs `{!BlockMapLaws M} : 0 < n < 2 ^ 53 -> job dir B n td f0 ->
  random_generator (o td) = FIO_RAND_GEN_TAUSWORTHE -> n <= all_ones 32 \/ generator_set (o td) = true ->
  norandommap (o td) = false -> softrandommap (o td) = false -> rw_min_bs (o td) = B ->
  (exists s, random_state td = state32 s /\ alive32 s) ->
  init_random_map alloc td [f0] = Some (true, td', fs) ->
  exists f, fs = [f] /\ covers dir B n fuel td' f.
Proof.
  intros Hn J Hg Hlim Hmap Hsoft Hbs Hs. unfold init_random_map. rewrite (job_random _ _ _ _ _ J). cbn [init_random_map_files].
  unfold init_random_map_file. rewrite Hbs, (job_blocks dir B n td f0 J). cbn [mbind option_bind].
  assert (check_rand_gen_limits td n = td) as ->.
  { unfold check_rand_gen_limits. rewrite Hg. destruct Hlim as [Hlim| ->]; [|by rewrite orb_true_r]. by destruct (Z.leb_spec n (all_ones 32)); [|lia]. }
  rewrite Hg, Hmap, Hsoft. pose proof (bm_new_law alloc n ltac:(lia)) as Hnew. destruct (bm_new alloc n) as [m|]; [|done].
  cbn [mbind option_bind negb]. intros [= <- <-]. exists (set_axmap f0 (Some m)). split; [done|]. apply (mapped_covers dir B n fuel); [done|].
  destruct Hnew as (Hok & Hsz & Hno). constructor; try done.
  - eapply same_job_job; [|exact J]. by repeat split.
  - exists m. split; [done|]. split; [done|]. split; [done|]. intros j _. rewrite Hno. split; [done|]. by intros ?%elem_of_nil.
  - apply NoDup_nil_2.
  - by intros j ?%elem_of_nil.
Qed.

(** C29: With the shift register, a random job covers its file in the same sense, with
    no map: for up to 2^48 blocks and any seed that [lfsr_init] accepts, with enough turns
    for the loop of [lfsr_next]. *)
Theorem lfsr_covers dir B n alloc td f0 td' fs : 0 < n < 2 ^ 48 -> job dir B n td f0 ->
  random_generator (o td) = FIO_RAND_GEN_LFSR -> rw_min_bs (o td) = B -> io_axmap f0 = None ->
  init_random_map alloc td [f0] = Some (true, td', fs) ->
  exists f fuel, fs = [f] /\ covers dir B n fuel td' f.
Proof.
  intros Hn J Hg Hbs Hmap. unfold init_random_map. rewrite (job_random _ _ _ _ _ J). cbn [init_random_map_files].
  unfold init_random_map_file. rewrite Hbs, (job_blocks dir B n td f0 J). cbn [mbind option_bind].
  assert (check_rand_gen_limits td n = td) as -> by (unfold check_rand_gen_limits; by rewrite Hg). rewrite Hg.
  destruct (lfsr_init n (rand_seed_block td) 0) as [fl|] eqn:Ei; [|done]. cbn [mbind option_bind negb]. intros [= <- <-].
  destruct (lfsr_pass n (rand_seed_block td) fl ltac:(lia) Ei) as (fuel & offs & fl1 & fl2 & E & Hp & E2 & Hre).
  destruct (Hre fl2 (or_intror eq_refl)) as [Er Hpass]. destruct (Hpass _ _ Er) as (offs' & fl1' & E' & Hp').
  exists (set_lfsr f0 (Some fl)), fuel. split; [done|]. eapply registered_covers; [lia| |exact E|exact Hp|exact E2|exact E'|exact Hp'].
  constructor; try done. eapply same_job_job; [|exact J]. by repeat split.
Qed.

(** * Lengths that the map cuts *)

(** The number of blocks of [B] bytes that [len] bytes touch. *)
Definition blocks_of (B len : Z) : Z := (len + B - 1) / B.

Lemma blocks_of_pos B len : 0 < B -> 0 < len -> 1 <= blocks_of B len /\ len <= blocks_of B len * B < len + B.
Proof.
  intros HB Hl. unfold blocks_of. pose proof (Z.div_mod (len + B - 1) B ltac:(lia)). pose proof (Z.mod_pos_bound (len + B - 1) B HB). nia.
Qed.

(** C30: An I/O that starts at a free block is cut at the next block that is taken: the
    length returned covers the free run of blocks and only that, these blocks become
    members of the map and no others do, so I/Os marked one after the other never
    overlap; and the length is not cut when the run is long enough. *)
Theorem mark_random_map_claims td u f m b B len `{!BlockMapLaws M} : io_axmap f = Some m -> bm_ok m ->
  arr_get (min_bs (o td)) (ddir u) = Some B -> busy_ok u = false -> 0 < B -> 0 < len -> len + B < 2 ^ 63 ->
  0 <= file_offset f -> file_offset f + b * B < 2 ^ 64 -> 0 <= b -> b + blocks_of B len <= bm_size m -> blocks_of B len < 2 ^ 32 ->
  bm_member m b = false ->
  exists len' m', mark_random_map td u f (file_offset f + b * B) len = Some (len', set_axmap f (Some m')) /\
    bm_ok m' /\ bm_size m' = bm_size m /\ 0 < len' <= len /\
    (forall j, b <= j < b + blocks_of B len' -> bm_member m j = false) /\
    (forall j, 0 <= j -> bm_member m' j = bm_member m j || in_range b (blocks_of B len') j) /\
    (len' < len -> len' = blocks_of B len' * B /\ bm_member m (b + blocks_of B len') = true).
Proof.
  intros Em Hok Hmin Hbusy HB Hl Hlen Hfo Hoff Hb Hsize H32 Hfree. destruct (blocks_of_pos B len HB Hl) as [Hn1 Hn2]. set (nr := blocks_of B len) in *.
  destruct (bm_set_nr_law m b nr Hok Hb ltac:(lia) Hsize) as (m' & r & Eset & Hok' & Hsz' & (Hr & Hfr & Hstop) & Hmem).
  assert (1 <= r) as Hr1.
  { destruct (Z.lt_ge_cases 0 r); [lia|]. assert (r = 0) as -> by lia. rewrite Z.add_0_r in Hstop. rewrite Hstop in Hfree; [done|lia]. }
  exists (if r * B <? len then r * B else len), m'. split.
  - unfold mark_random_map. rewrite Hmin, Em, Hbusy. cbn [mbind option_bind]. unfold u64_div. destruct (Z.eqb_spec B 0); [lia|]. cbn [mbind option_bind].
    assert (subw 64 (file_offset f + b * B) (file_offset f) / B = b) as ->.
    { unfold subw. rewrite wrap_small by (unfold is_word; nia). symmetry. apply Z.div_unique_exact; lia. }
    assert (subw 64 (addw 64 len B) 1 / B = nr) as ->.
    { unfold addw, subw. rewrite (wrap_small 64 (len + B)) by (unfold is_word; lia). rewrite wrap_small by (unfold is_word; lia). done. }
    unfold c_assert at 1. destruct (Z.ltb_spec 0 nr); [|lia]. cbn [mbind option_bind]. rewrite (wrap_small 32) by (unfold is_word; lia).
    rewrite Eset. cbn [mbind option_bind]. unfold c_assert. destruct (Z.ltb_spec 0 r); [|lia]. cbn [mbind option_bind].
    assert (mulw 64 r B = r * B) as -> by (apply wrap_small; unfold is_word; nia). done.
  - assert (blocks_of B (if r * B <? len then r * B else len) = r) as ->.
    { destruct (Z.ltb_spec (r * B) len).
      - unfold blocks_of. symmetry. apply Z.div_unique with (B - 1); lia.
      - fold nr. nia. }
    split; [done|]. split; [done|]. split; [destruct (Z.ltb_spec (r * B) len); nia|]. split; [done|]. split; [done|].
    destruct (Z.ltb_spec (r * B) len); [|lia]. intros _. split; [done|]. apply Hstop. nia.
Qed.

(** * Random lengths *)

(** Rounding down to a multiple of [minbs], in both ways of the code. *)
Definition cut (td : thread_data) (minbs v : Z) : Z := if bs_unaligned (o td) then v else minbs * (v / minbs).

Lemma cut_spec td minbs len : 0 < minbs -> is_word 64 minbs -> is_word 64 len ->
  (if bs_unaligned (o td) then Some len
   else if is_power_of_2 minbs then Some (len & notw 64 (minbs - 1))
   else let* _ := c_assert (c_true minbs) in Some (len - len mod minbs)) = Some (cut td minbs len).
Proof.
  intros Hm Hw Hlw. unfold cut. destruct (bs_unaligned (o td)); [done|]. pose proof (Z.div_mod len minbs ltac:(lia)) as Hdm. destruct (is_power_of_2 minbs) eqn:Ep.
  - f_equal. apply is_power_of_2_spec in Ep as (k & Hk & ->); [|done].
    rewrite Z.mul_comm, <- Z.shiftl_mul_pow2, <- Z.shiftr_div_pow2, <- Z.ldiff_ones_r by lia.
    replace (2 ^ k - 1) with (Z.ones k) by (rewrite Z.ones_equiv; lia). apply Z.bits_inj'. intros i Hi.
    rewrite Z.land_spec, Z.ldiff_spec, notw_bits by lia. destruct (Z.ltb_spec i 64); [by rewrite andb_true_r|].
    by rewrite (is_word_bits 64 len i).
  - assert (c_true minbs = true) as -> by (apply c_true_iff; lia). cbn [c_assert mbind option_bind]. f_equal. lia.
Qed.

(** A draw of either width scaled to at most [n]; zero gives zero. *)
Lemma scale_rand_upto s n : 0 < n < 2 ^ 53 -> forall r, is_word (if use64 s then 64 else 32) r ->
  exists x, scale_rand s n r = Some x /\ 0 <= x <= n /\ (r = 0 -> x = 0).
Proof.
  intros Hn r Hr. unfold scale_rand. rewrite (double_of_small n) by lia. assert (0 <= r) as Hr0 by (unfold is_word in Hr; lia).
  assert (r = 0 -> double_of (n * double_of r) >> (if use64 s then 64 else 32) = 0) as H0.
  { intros ->. change (double_of 0) with 0. rewrite Z.mul_0_r. change (double_of 0) with 0. apply Z.shiftr_0_l. }
  assert (0 <= double_of (n * double_of r) >> (if use64 s then 64 else 32) <= n) as Hb.
  { unfold is_word in Hr. destruct (use64 s).
    - pose proof (double_of_word r Hr) as Hd. destruct (Z.ltb_spec r (2 ^ 64 - 1024)).
      + pose proof (scale_below n (n * double_of r) 64 ltac:(lia) ltac:(lia) ltac:(nia) ltac:(nia)). lia.
      + rewrite Hd, double_of_exact, Z.shiftr_div_pow2, Z.div_mul by lia. lia.
    - rewrite (double_of_small r) by lia. pose proof (scale_below n (n * r) 32 ltac:(lia) ltac:(lia) ltac:(nia) ltac:(nia)). lia. }
  unfold c_assert. destruct (Z.ltb_spec (double_of (n * double_of r) >> (if use64 s then 64 else 32)) (2 ^ 64)); [|lia]. eexists. by split.
Qed.

(** A job whose sizes are chosen at random: [d] is the direction whose sizes are used, [start]
    the start of the job's part of the file.  Every block size with a share lies between the
    smallest and the largest, and some block size has one. *)
Record sizes (td : thread_data) (f : fio_file) (u : io_u) (is_random : bool) (d minbs maxbs : Z) (split : list bssplit) (start : Z) (s : frand_state) : Prop := {
  sizes_ddir : ddir_rw (ddir u) = true;
  sizes_trimwrite : td_randtrimwrite (o td) && (ddir u =? DDIR_WRITE) = false;
  sizes_which : d = if bs_is_seq_rand (o td) then (if is_random then DDIR_WRITE else DDIR_READ) else ddir u;
  sizes_min : arr_get (min_bs (o td)) d = Some minbs;
  sizes_max : arr_get (max_bs (o td)) d = Some maxbs;
  sizes_range : 0 < minbs <= maxbs /\ maxbs < 2 ^ 53;
  sizes_state : arr_get (bsrange_state td) d = Some s;
  sizes_alive : alive_state s;
  sizes_split : arr_get (opt_bssplit (o td)) d = Some split;
  sizes_shares : Forall (fun b => 0 <= perc b /\ (perc b <> 0 -> minbs <= bs b <= maxbs)) split;
  sizes_some : split = [] \/ Exists (fun b => perc b <> 0) split;
  sizes_start : get_start_offset td f = Some start;
  sizes_file : 0 <= offset u < 2 ^ 63 /\ 0 <= io_size f /\ 0 <= start /\ io_size f + start < 2 ^ 64;
}.

Definition unit_fits (f : fio_file) (u : io_u) (start len : Z) : Prop := offset u + len <= io_size f + start.

#[global] Instance unit_fits_dec f u start len : Decision (unit_fits f u start len).
Proof. unfold unit_fits. apply _. Defined.

Section Sizes.
Context (td : thread_data) (f : fio_file) (u : io_u) (is_random : bool) (d minbs maxbs : Z) (split : list bssplit) (start : Z) (s : frand_state).
Context (Hz : sizes td f u is_random d minbs maxbs split start s).

Local Abbreviation fits := (unit_fits f u start).
Definition length_of (v : Z) : Z := Z.min maxbs (cut td minbs v).

(** The size of the last block size with a share, or [v]. *)
Definition last_share (v : Z) (l : list bssplit) : Z := foldl (fun v b => if perc b =? 0 then v else bs b) v l.
Definition none_fits (l : list bssplit) : Prop := Forall (fun b => perc b <> 0 -> ~ fits (bs b)) l.

Lemma fits_spec len : 0 <= len < 2 ^ 63 -> io_u_fits td f u len = Some (bool_decide (fits len)).
Proof using Hz.
  intros Hl. destruct (sizes_file _ _ _ _ _ _ _ _ _ _ Hz) as (? & ? & ? & ?). unfold io_u_fits. rewrite (sizes_start _ _ _ _ _ _ _ _ _ _ Hz). cbn [mbind option_bind].
  unfold addw. rewrite !wrap_small by (unfold is_word; lia). unfold unit_fits. f_equal. destruct (Z.leb_spec (offset u + len) (io_size f + start)); case_bool_decide; done || lia.
Qed.

Lemma length_of_bounds v : minbs <= v -> minbs <= length_of v <= maxbs /\ length_of v <= v /\
  (bs_unaligned (o td) = true \/ (minbs | length_of v) \/ length_of v = maxbs).
Proof using Hz.
  intros Hv. destruct (sizes_range _ _ _ _ _ _ _ _ _ _ Hz) as [[R1 R2] R3]. unfold length_of, cut. destruct (bs_unaligned (o td)); [lia|].
  pose proof (Z.mul_div_le v minbs ltac:(lia)). pose proof (Z.div_le_lower_bound v minbs 1 ltac:(lia) ltac:(lia)).
  pose proof (Z.mul_le_mono_nonneg_l 1 (v / minbs) minbs ltac:(lia) ltac:(lia)). split; [lia|]. split; [lia|]. right.
  destruct (Z.min_spec maxbs (minbs * (v / minbs))) as [[_ ->]|[_ ->]]; [by right|left; apply Z.divide_factor_l].
Qed.

Lemma split_spec r fmax : 0 <= r -> 0 <= fmax -> forall l len p, 0 <= p ->
  Forall (fun b => 0 <= perc b /\ (perc b <> 0 -> minbs <= bs b <= maxbs)) l ->
  exists len', bssplit_loop td f u l r fmax len p = Some len' /\
    (Exists (fun b => perc b <> 0 /\ bs b = len') l \/ len' = len /\ ~ Exists (fun b => perc b <> 0) l) /\
    (r = 0 -> Exists (fun b => perc b <> 0 /\ fits (bs b)) l -> fits len').
Proof using Hz.
  intros Hr Hfm. destruct (sizes_range _ _ _ _ _ _ _ _ _ _ Hz) as [[R1 R2] R3]. induction l as [|b l IH]; intros len p Hp Hl; cbn [bssplit_loop].
  - exists len. split; [done|]. split; [right; split; [done|by intros ?%Exists_nil]|]. by intros _ ?%Exists_nil.
  - apply Forall_cons_1 in Hl as [[Hb0 Hb] Hl]. destruct (Z.eqb_spec (perc b) 0) as [E|E].
    + destruct (IH len p Hp Hl) as (len' & -> & H1 & H2). exists len'. split; [done|]. split.
      * destruct H1 as [H1|[-> H1]]; [by left; right|right]. split; [done|]. by intros [?|?]%Exists_cons.
      * intros E0 [[? _]|?]%Exists_cons; [done|by apply H2].
    + specialize (Hb E). rewrite fits_spec by lia. cbn [mbind option_bind]. destruct (r / (p + perc b) <=? fmax / 100) eqn:Er; cbn [andb].
      * case_bool_decide as Hfit; [exists (bs b); split; [done|]; split; [by left; left|done]|].
        destruct (IH (bs b) (p + perc b) ltac:(lia) Hl) as (len' & -> & H1 & H2). exists len'. split; [done|]. split.
        -- destruct H1 as [H1|[-> H1]]; left; [by right|by left].
        -- intros E0 [[_ ?]|?]%Exists_cons; [done|by apply H2].
      * destruct (IH (bs b) (p + perc b) ltac:(lia) Hl) as (len' & -> & H1 & H2). exists len'. split; [done|]. split.
        -- destruct H1 as [H1|[-> H1]]; left; [by right|by left].
        -- intros ->. rewrite Z.div_0_l in Er by lia. pose proof (Z.div_pos fmax 100 Hfm ltac:(lia)). lia.
Qed.

(** Where no size with a share fits, the walk goes to the last of them. *)
Lemma split_last r fmax : forall l len p, Forall (fun b => 0 <= perc b /\ (perc b <> 0 -> minbs <= bs b <= maxbs)) l -> none_fits l ->
  bssplit_loop td f u l r fmax len p = Some (last_share len l).
Proof using Hz.
  destruct (sizes_range _ _ _ _ _ _ _ _ _ _ Hz) as [[R1 R2] R3]. induction l as [|b l IH]; intros len p Hs Hn; [done|].
  apply Forall_cons_1 in Hs as [[_ Hb] Hs]. apply Forall_cons_1 in Hn as [Hnb Hn]. cbn [bssplit_loop last_share foldl]. destruct (Z.eqb_spec (perc b) 0) as [E|E]; [by apply IH|].
  specialize (Hb E). rewrite fits_spec by lia. cbn [mbind option_bind]. rewrite bool_decide_false by auto. rewrite andb_false_r. by apply IH.
Qed.

Lemma nonempty_case {A B} (l : list A) (x y : B) : l <> [] -> match l with [] => x | _ :: _ => y end = y.
Proof using. by destruct l. Qed.

(** One turn: the size drawn, cut to a multiple of the smallest and to the largest. *)
Lemma turn_spec s' r : use64 s' = use64 s -> is_word (if use64 s then 64 else 32) r ->
  exists v, buflen_turn td f u s' minbs maxbs split r = Some (length_of v) /\ minbs <= v <= minbs + maxbs /\
    (split <> [] -> Exists (fun b => perc b <> 0 /\ bs b = v) split) /\
    (split <> [] -> none_fits split -> v = last_share 0 split) /\
    (r = 0 -> fits minbs -> split = [] \/ Exists (fun b => perc b <> 0 /\ fits (bs b)) split -> fits v).
Proof using Hz.
  intros Eu Hr. destruct (sizes_range _ _ _ _ _ _ _ _ _ _ Hz) as [[R1 R2] R3]. unfold buflen_turn.
  assert (exists v, (match split with [] => let* x := scale_rand s' maxbs r in Some (addw 64 minbs x) | _ => bssplit_loop td f u split r (rand_max s') 0 0 end) = Some v /\
    minbs <= v <= minbs + maxbs /\ (split <> [] -> Exists (fun b => perc b <> 0 /\ bs b = v) split) /\ (split <> [] -> none_fits split -> v = last_share 0 split) /\
    (r = 0 -> fits minbs -> split = [] \/ Exists (fun b => perc b <> 0 /\ fits (bs b)) split -> fits v)) as (v & -> & Hv & H1 & H2 & H3).
  { destruct (decide (split = [])) as [El|El].
    - destruct (scale_rand_upto s' maxbs ltac:(lia) r ltac:(by rewrite Eu)) as (x & Ex & Hx & Hx0). rewrite El, Ex. cbn [mbind option_bind].
      assert (addw 64 minbs x = minbs + x) as -> by (apply wrap_small; unfold is_word; lia). exists (minbs + x). split; [done|]. split; [lia|]. split; [done|]. split; [done|].
      intros E Hf _. rewrite (Hx0 E), Z.add_0_r. done.
    - rewrite nonempty_case by done. pose proof (sizes_shares _ _ _ _ _ _ _ _ _ _ Hz) as Hs.
      assert (0 <= r /\ 0 <= rand_max s') as [Hr0 Hm] by (unfold is_word, rand_max, all_ones in *; destruct (use64 s'); split; lia).
      destruct (split_spec r (rand_max s') Hr0 Hm split 0 0 ltac:(lia) Hs) as (v & Ev & Hin & Hf). exists v. split; [done|].
      destruct Hin as [Hin|[_ Hn]]; [|destruct (sizes_some _ _ _ _ _ _ _ _ _ _ Hz) as [E|E]; [by destruct El|by destruct Hn]].
      split; [|split; [done|split]].
      + apply Exists_exists in Hin as (c & Hc & Hp & <-). rewrite List.Forall_forall in Hs. destruct (Hs c Hc) as [_ Hb]. specialize (Hb Hp). lia.
      + intros _ Hn. rewrite (split_last r (rand_max s') split 0 0 Hs Hn) in Ev. by injection Ev.
      + intros E _ [?|?]; [done|by apply Hf]. }
  cbn [mbind option_bind]. rewrite cut_spec by (unfold is_word; lia). cbn [mbind option_bind]. exists v. split; [|done]. unfold length_of.
  f_equal. destruct (Z.ltb_spec maxbs (cut td minbs v)); lia.
Qed.

(** The loop takes the first draw that fits. *)
Lemma loop_spec fuel : forall s1, alive_state s1 -> use64 s1 = use64 s ->
  (forall len s2, buflen_loop fuel td f u s1 minbs maxbs split = Some (len, s2) ->
     fits len /\ (exists v, minbs <= v /\ len = length_of v /\ (split <> [] -> Exists (fun b => perc b <> 0 /\ bs b = v) split)) /\ exists k, (k < fuel)%nat /\ s2 = Nat.iter (S k) next_state s1) /\
  (fits maxbs -> (0 < fuel)%nat -> is_Some (buflen_loop fuel td f u s1 minbs maxbs split)) /\
  (split <> [] -> none_fits split -> let last := length_of (last_share 0 split) in
     (fits last -> (0 < fuel)%nat -> is_Some (buflen_loop fuel td f u s1 minbs maxbs split)) /\ (~ fits last -> buflen_loop fuel td f u s1 minbs maxbs split = None)) /\
  (fits minbs -> split = [] \/ Exists (fun b => perc b <> 0 /\ fits (bs b)) split -> forall k, (k < fuel)%nat -> drawn s1 k = 0 ->
     is_Some (buflen_loop fuel td f u s1 minbs maxbs split)).
Proof using Hz.
  destruct (sizes_range _ _ _ _ _ _ _ _ _ _ Hz) as [[R1 R2] R3]. induction fuel as [|fuel IH]; intros s1 A1 U1; cbn [buflen_loop].
  { split; [done|]. split; [lia|]. split; [split; [lia|done]|]. intros; lia. }
  destruct (next_alive s1 A1) as (A2 & U2 & Hr). destruct (__rand s1) as [r s2] eqn:Er. assert (next_state s1 = s2) as En by (unfold next_state; by rewrite Er).
  rewrite En in A2, U2. cbn [fst] in Hr. rewrite U1 in Hr, U2. destruct (turn_spec s1 r U1 Hr) as (v & -> & Hv & Hin & Hlast & H0). cbn [mbind option_bind].
  destruct (length_of_bounds v ltac:(lia)) as (Hl & Hlv & _). rewrite fits_spec by lia. cbn [mbind option_bind].
  destruct (IH s2 A2 U2) as (I1 & I2 & I3 & I4). case_bool_decide as Hfit.
  - split; [intros len s3 [= <- <-]; split; [done|]; split; [exists v; split; [lia|done]|]; exists 0%nat; split; [lia|by rewrite Nat.iter_succ]|].
    split; [by eexists|]. split; [|by eexists]. intros Hne Hno. rewrite <- (Hlast Hne Hno). split; [by intros; eexists|by intros []].
  - split; [|split; [|split]].
    + intros len s3 E. destruct (I1 len s3 E) as (F & V & k & Hk & ->). split; [done|]. split; [done|]. exists (S k). split; [lia|]. by rewrite (Nat.iter_succ_r (S k)), En.
    + intros Hm _. destruct Hfit. unfold unit_fits in *. lia.
    + intros Hne Hno. destruct (I3 Hne Hno) as [_ I]. split; [|done]. intros Hf. destruct Hfit. by rewrite (Hlast Hne Hno).
    + intros Hmin Hsh [|k] Hk Hd.
      * destruct Hfit. assert (fits v) as Hf by (apply H0; [unfold drawn in Hd; cbn in Hd; by rewrite Er in Hd|done|done]). unfold unit_fits in *. lia.
      * apply (I4 Hmin Hsh k ltac:(lia)). unfold drawn in *. by rewrite Nat.iter_succ_r, En in Hd.
Qed.

Lemma loop_mono fuel : forall s1 x fuel', buflen_loop fuel td f u s1 minbs maxbs split = Some x -> (fuel <= fuel')%nat ->
  buflen_loop fuel' td f u s1 minbs maxbs split = Some x.
Proof using.
  induction fuel as [|fuel IH]; intros s1 x [|fuel'] E Hf; try done; [lia|]. cbn [buflen_loop] in *. destruct (__rand s1) as [r s2].
  destruct (buflen_turn _ _ _ _ _ _ _ _) as [len|]; [|done]. cbn [mbind option_bind] in *. destruct (io_u_fits _ _ _ _) as [[|]|]; [done| |done]. cbn [mbind option_bind] in *.
  apply IH; [done|lia].
Qed.

(** The call is the loop, where a length is drawn. *)
Lemma next_buflen_loop fuel : minbs < maxbs -> get_next_buflen fuel td f u is_random =
  if decide (fits minbs) then
    match buflen_loop fuel td f u s minbs maxbs split with
    | Some (len, s') => Some (len, set_bsrange td (<[Z.to_nat d := s']> (bsrange_state td)))
    | None => None
    end
  else Some (0, td).
Proof using Hz.
  intros Hlt. pose proof Hz as [Hd Htw Hw Hmin Hmax [? ?] Hs Ha Hsp _ _ _ _]. unfold get_next_buflen. rewrite Hd, Htw. cbn [c_assert mbind option_bind]. rewrite <- Hw, Hmin, Hmax. cbn [mbind option_bind].
  destruct (Z.eqb_spec minbs maxbs); [lia|]. rewrite fits_spec by lia. cbn [mbind option_bind]. case_bool_decide as Hf; [|by rewrite decide_False]. rewrite decide_True by done. cbn [negb].
  rewrite Hs, Hsp. cbn [mbind option_bind]. destruct (buflen_loop _ _ _ _ _ _ _ _) as [[len s']|]; [|done]. cbn [mbind option_bind].
  by rewrite arr_set_Some by (by eapply arr_get_range).
Qed.

End Sizes.

(** C31: random lengths, from a range or from a split of block sizes, with draws of 32 or 64
    bits.  Where not even the smallest size fits into the file the length is zero and nothing
    is drawn.  Where it fits, a length that comes back fits, lies between the smallest and the
    largest size, and is a multiple of the smallest or the largest itself, unless unaligned
    sizes are asked for (for a split: one of the sizes with a share, cut to such a multiple);
    of the job only the state of this generator has moved on, by one step for each turn.  Where the largest size fits one turn is enough.  Where it does not, the
    loop draws until a length fits, and that ends, whatever the state of the generator (if no
    component of it is dead): for a range always, for a split if some size with a share fits.
    If no size with a share fits, every turn comes to the last of them: the loop ends at once
    if that one fits when it is cut, and never otherwise. *)
Theorem get_next_buflen_bounds td f u is_random d minbs maxbs split start s : sizes td f u is_random d minbs maxbs split start s ->
  let fits := unit_fits f u start in
  (minbs = maxbs -> forall fuel, get_next_buflen fuel td f u is_random = Some (minbs, td)) /\
  (minbs < maxbs -> ~ fits minbs -> forall fuel, get_next_buflen fuel td f u is_random = Some (0, td)) /\
  (minbs < maxbs -> fits minbs ->
    (forall fuel len td', get_next_buflen fuel td f u is_random = Some (len, td') ->
       fits len /\ minbs <= len <= maxbs /\ (bs_unaligned (o td) = true \/ (minbs | len) \/ len = maxbs) /\
       (split <> [] -> Exists (fun b => perc b <> 0 /\ len = length_of td minbs maxbs (bs b)) split) /\
       exists k, (k < fuel)%nat /\ td' = set_bsrange td (<[Z.to_nat d := Nat.iter (S k) next_state s]> (bsrange_state td))) /\
    (fits maxbs -> forall fuel, is_Some (get_next_buflen (S fuel) td f u is_random)) /\
    (split = [] \/ Exists (fun b => perc b <> 0 /\ fits (bs b)) split ->
       exists n r, forall fuel, (n <= fuel)%nat -> get_next_buflen fuel td f u is_random = Some r) /\
    (split <> [] -> Forall (fun b => perc b <> 0 -> ~ fits (bs b)) split -> forall fuel,
       (fits (length_of td minbs maxbs (last_share 0 split)) -> is_Some (get_next_buflen (S fuel) td f u is_random)) /\
       (~ fits (length_of td minbs maxbs (last_share 0 split)) -> get_next_buflen fuel td f u is_random = None))).
Proof.
  intros Hz fits. pose proof (sizes_alive _ _ _ _ _ _ _ _ _ _ Hz) as Ha. split; [|split].
  - intros E fuel. pose proof Hz as [Hd Htw Hw Hmin Hmax _ _ _ _ _ _ _ _]. unfold get_next_buflen. rewrite Hd, Htw. cbn [c_assert mbind option_bind].
    rewrite <- Hw, Hmin, Hmax. cbn [mbind option_bind]. by rewrite E, Z.eqb_refl.
  - intros Hlt Hn fuel. by rewrite (next_buflen_loop _ _ _ _ _ _ _ _ _ _ Hz), decide_False.
  - intros Hlt Hf. setoid_rewrite (next_buflen_loop _ _ _ _ _ _ _ _ _ _ Hz); [|done..]. setoid_rewrite decide_True; [|done..].
    split; [|split; [|split]].
    + intros fuel len td' E. destruct (buflen_loop _ _ _ _ _ _ _ _) as [[l s']|] eqn:El; [|done]. injection E as <- <-.
      destruct (proj1 (loop_spec _ _ _ _ _ _ _ _ _ _ Hz fuel s Ha eq_refl) l s' El) as (Hfit & (v & Hv & -> & Hin) & k & Hk & ->).
      destruct (length_of_bounds _ _ _ _ _ _ _ _ _ _ Hz v Hv) as (? & _ & ?). split; [done|]. split; [done|]. split; [done|].
      split; [|by exists k]. intros Hne. specialize (Hin Hne). revert Hin. apply List.Exists_impl. by intros b [? <-].
    + intros Hm fuel. destruct (proj1 (proj2 (loop_spec _ _ _ _ _ _ _ _ _ _ Hz (S fuel) s Ha eq_refl)) Hm ltac:(lia)) as [[l s'] ->]. by eexists.
    + intros Hsh. destruct (draws_zero s Ha) as (k & Hk).
      destruct (proj2 (proj2 (proj2 (loop_spec _ _ _ _ _ _ _ _ _ _ Hz (S k) s Ha eq_refl))) Hf Hsh k ltac:(lia) Hk) as [[l s'] El].
      exists (S k). eexists. intros fuel Hle. by rewrite (loop_mono _ _ _ _ _ _ _ _ _ _ El Hle).
    + intros Hne Hno fuel. pose proof (fun fuel => proj1 (proj2 (proj2 (loop_spec _ _ _ _ _ _ _ _ _ _ Hz fuel s Ha eq_refl))) Hne Hno) as Hl. split; intros Hla.
      * destruct (proj1 (Hl (S fuel)) Hla ltac:(lia)) as [[l s'] ->]. by eexists.
      * by rewrite (proj2 (Hl fuel) Hla).
Qed.

(** * Sequential jobs *)

(** A job that reads or writes a file of [n] blocks from its start. *)
Record seq_job (dir B n : Z) (td : thread_data) (f : fio_file) : Prop := {
  seq_random : td_random (o td) = false;
  seq_trimwrite : td_randtrimwrite (o td) = false;
  seq_seq : opt_ddir_seq_nr (o td) = 1;
  seq_seq_nr : ddir_seq_nr td = 1;
  seq_add : ddir_seq_add (o td) = 0;
  seq_zone : zone_mode (o td) = ZONE_MODE_NONE;
  seq_dir : ddir_rw dir = true;
  seq_min : arr_get (min_bs (o td)) dir = Some B;
  seq_max : arr_get (max_bs (o td)) dir = Some B;
  seq_bs : bs_is_seq_rand (o td) = false;
  seq_B : 0 < B;
  seq_n : io_size f = n * B;
  seq_offset : 0 <= file_offset f;
  seq_size : file_offset f + io_size f <= real_file_size f < 2 ^ 63;
  seq_start_offset : get_start_offset td f = Some (file_offset f);
  seq_pos : zlength (last_pos f) = 3;
  seq_start : zlength (last_start f) = 3 }.

(** The two conditions under which [get_next_seq_offset] starts again. *)
Definition seq_restarts (td : thread_data) : bool :=
  (time_based (o td) && (nr_files (o td) =? 1)) || (td_rw (o td) && (opt_size (o td) <? opt_io_size (o td))).

Section Sequential.
Variables dir B n : Z.
Variable fuel : nat.
Hypothesis n_pos : 0 < n.

Lemma seq_dir_range td f : seq_job dir B n td f -> 0 <= dir < 3.
Proof.
  intros J. pose proof (seq_dir _ _ _ _ _ J) as H0. unfold ddir_rw, DDIR_READ, DDIR_WRITE, DDIR_TRIM in H0.
  destruct (Z.eqb_spec dir 0), (Z.eqb_spec dir 1), (Z.eqb_spec dir 2); done || lia.
Qed.

Lemma seq_job_positions td f pos start zb sk : seq_job dir B n td f -> zlength pos = 3 -> zlength start = 3 ->
  seq_job dir B n (set_zone_bytes td zb sk) (set_positions f pos start).
Proof. intros [] Hp Hs. by constructor. Qed.

(** The block after [i], and the first one after the last if the job starts again. *)
Definition seq_block (td : thread_data) (i : Z) : Z := if (i =? n) && seq_restarts td then 0 else i.

Lemma seq_block_range td i : 0 <= i <= n -> 0 <= seq_block td i <= n.
Proof. unfold seq_block. destruct (_ && _); lia. Qed.

Lemma seq_next_offset td f i : seq_job dir B n td f -> 0 <= i <= n -> arr_get (last_pos f) dir = Some (file_offset f + i * B) ->
  exists l, zlength l = 3 /\
  if real_file_size f <=? file_offset f + seq_block td i * B
  then get_next_seq_offset td f dir = Some (None, set_positions f l (last_start f))
  else get_next_seq_offset td f dir = Some (Some (seq_block td i * B), set_positions f l (last_start f)).
Proof.
  intros J Hi Hpos. pose proof (seq_size _ _ _ _ _ J) as Hsz. pose proof (seq_offset _ _ _ _ _ J). pose proof (seq_n _ _ _ _ _ J) as Hn.
  pose proof (seq_B _ _ _ _ _ J). assert (0 <= i * B <= n * B) as HiB by nia. unfold get_next_seq_offset. rewrite (seq_dir _ _ _ _ _ J), (seq_start_offset _ _ _ _ _ J), Hpos.
  cbn [c_assert mbind option_bind]. assert (addw 64 (io_size f) (file_offset f) = io_size f + file_offset f) as -> by (apply wrap_small; unfold is_word; lia).
  rewrite (seq_add _ _ _ _ _ J). change (c_true 0) with false. change (0 <? 0) with false. rewrite !andb_false_r.
  set (p := file_offset f + i * B) in *. set (p1 := if _ && _ then file_offset f else p).
  set (p2 := if _ && _ then file_offset f else p1).
  assert (p2 = file_offset f + seq_block td i * B) as ->.
  { unfold p2, p1, p, seq_block, seq_restarts. destruct (Z.eqb_spec i n) as [->|Hne].
    - rewrite Hn. destruct (Z.leb_spec (n * B + file_offset f) (file_offset f + n * B)); [|lia]. cbn [andb].
      destruct (time_based (o td) && (nr_files (o td) =? 1)); cbn [orb andb].
      + destruct (Z.leb_spec (n * B + file_offset f) (file_offset f)); [nia|]. rewrite andb_false_r. lia.
      + destruct (Z.leb_spec (n * B + file_offset f) (file_offset f + n * B)); [|lia]. rewrite andb_true_r. destruct (td_rw (o td) && _); lia.
    - assert (i * B < n * B) by nia. rewrite Hn. destruct (Z.leb_spec (n * B + file_offset f) (file_offset f + i * B)); [lia|]. cbn [andb].
      destruct (Z.leb_spec (n * B + file_offset f) (file_offset f + i * B)); [lia|]. by rewrite andb_false_r. }
  rewrite arr_set_Some by (rewrite (seq_pos _ _ _ _ _ J); by apply (seq_dir_range td f)). cbn [mbind option_bind].
  exists (<[Z.to_nat dir := file_offset f + seq_block td i * B]> (last_pos f)). rewrite zlength_insert. split; [apply J|].
  destruct (Z.ltb_spec (file_offset f + seq_block td i * B) (real_file_size f)); destruct (Z.leb_spec (real_file_size f) (file_offset f + seq_block td i * B)); try lia; [|done].
  cbn [real_file_size file_offset set_positions]. do 3 f_equal. unfold subw. replace (file_offset f + seq_block td i * B - file_offset f) with (seq_block td i * B) by lia.
  rewrite andb_false_r. apply wrap_small. unfold is_word. pose proof (seq_block_range td i Hi). assert (0 <= seq_block td i * B <= n * B) by nia. lia.
Qed.

Lemma seq_get_next_offset td f i ver : seq_job dir B n td f -> 0 <= i <= n -> arr_get (last_pos f) dir = Some (file_offset f + i * B) ->
  exists l, zlength l = 3 /\
  let u := mk_io_u dir 0 0 ver false in
  if seq_block td i =? n
  then exists u', get_next_offset fuel td f u = Some (None, td, set_positions f l (last_start f), u')
  else get_next_offset fuel td f u = Some (Some false, td, set_positions f l (last_start f),
    mk_io_u dir (file_offset f + seq_block td i * B) 0 (file_offset f + seq_block td i * B) false).
Proof.
  intros J Hi Hpos. pose proof (seq_size _ _ _ _ _ J) as Hsz. pose proof (seq_offset _ _ _ _ _ J). pose proof (seq_n _ _ _ _ _ J) as Hn.
  pose proof (seq_B _ _ _ _ _ J). pose proof (seq_block_range td i Hi) as Hb. destruct (seq_next_offset td f i J Hi Hpos) as (l & Hl & Hseq).
  exists l. split; [done|]. cbv zeta. set (b := seq_block td i) in *. assert (0 <= b * B <= n * B) as HbB by nia.
  unfold get_next_offset. cbn [ddir]. rewrite (seq_dir _ _ _ _ _ J), (seq_seq _ _ _ _ _ J), (seq_seq_nr _ _ _ _ _ J). cbn [c_assert mbind option_bind].
  change (c_true 1) with true. change (subw 32 1 1 =? 0) with true. cbv iota. rewrite <- (seq_seq_nr _ _ _ _ _ J), set_ddir_seq_nr_same.
  unfold get_next_block, choose_block. cbn [ddir]. rewrite (seq_dir _ _ _ _ _ J), (seq_trimwrite _ _ _ _ _ J), (seq_random _ _ _ _ _ J). cbn [c_assert mbind option_bind andb].
  destruct (Z.eqb_spec b n) as [Eb|Eb].
  - destruct (Z.leb_spec (real_file_size f) (file_offset f + b * B)); rewrite Hseq; cbn [mbind option_bind]; [by eexists|].
    unfold all_ones. destruct (Z.eqb_spec (b * B) (2 ^ 64 - 1)); [lia|]. cbn [negb mbind option_bind]. cbn [io_size set_positions offset set_verify set_offset].
    rewrite Hn, Eb, Z.leb_refl. by eexists.
  - assert (b * B < n * B) by nia. destruct (Z.leb_spec (real_file_size f) (file_offset f + b * B)); [lia|]. rewrite Hseq. cbn [mbind option_bind].
    unfold all_ones. destruct (Z.eqb_spec (b * B) (2 ^ 64 - 1)); [lia|]. cbn [negb mbind option_bind]. unfold set_verify, set_offset.
    cbn [io_size file_offset real_file_size set_positions offset ddir buflen busy_ok verify_offset].
    rewrite Hn. destruct (Z.leb_spec (n * B) (b * B)); [lia|].
    assert (addw 64 (b * B) (file_offset f) = file_offset f + b * B) as -> by (unfold addw; rewrite wrap_small by (unfold is_word; lia); lia).
    destruct (Z.leb_spec (real_file_size f) (file_offset f + b * B)); [lia|]. rewrite (seq_trimwrite _ _ _ _ _ J). done.
Qed.

Lemma seq_io td f i : seq_job dir B n td f -> 0 <= i <= n -> arr_get (last_pos f) dir = Some (file_offset f + i * B) ->
  if seq_block td i =? n then exists td' f', get_io_u fuel td f dir = Some (None, td', f')
  else exists u td' f', get_io_u fuel td f dir = Some (Some u, td', f') /\ (offset u, buflen u) = block_io B f (seq_block td i) /\
    seq_job dir B n td' f' /\ arr_get (last_pos f') dir = Some (file_offset f + (seq_block td i + 1) * B) /\
    file_offset f' = file_offset f /\ o td' = o td.
Proof.
  intros J Hi Hpos. pose proof (seq_size _ _ _ _ _ J) as Hsz. pose proof (seq_offset _ _ _ _ _ J). pose proof (seq_n _ _ _ _ _ J) as Hn.
  pose proof (seq_B _ _ _ _ _ J). pose proof (seq_block_range td i Hi) as Hb. pose proof (seq_dir_range td f J) as Hdir.
  destruct (seq_get_next_offset td f i 0 J Hi Hpos) as (l & Hl & Hoff). cbv zeta in Hoff.
  unfold get_io_u, fill_io_u. rewrite (seq_zone _ _ _ _ _ J). cbn [mbind option_bind]. set (b := seq_block td i) in *.
  destruct (Z.eqb_spec b n) as [Eb|Eb].
  { destruct Hoff as (u' & ->). cbn [mbind option_bind negb]. by eexists _, _. }
  assert (0 <= b * B /\ b * B + B <= n * B) as HbB by nia. rewrite Hoff. cbn [mbind option_bind]. unfold get_next_buflen. cbn [ddir].
  rewrite (seq_dir _ _ _ _ _ J), (seq_trimwrite _ _ _ _ _ J), (seq_bs _ _ _ _ _ J), (seq_min _ _ _ _ _ J), (seq_max _ _ _ _ _ J).
  cbn [c_assert mbind option_bind andb]. rewrite Z.eqb_refl. cbn [mbind option_bind]. unfold set_buflen, set_verify.
  cbn [ddir offset buflen verify_offset busy_ok real_file_size set_positions]. destruct (Z.eqb_spec B 0); [lia|].
  assert (addw 64 (file_offset f + b * B) B = file_offset f + (b + 1) * B) as -> by (unfold addw; rewrite wrap_small by (unfold is_word; lia); lia).
  destruct (Z.ltb_spec (real_file_size f) (file_offset f + (b + 1) * B)); [lia|]. rewrite (seq_random _ _ _ _ _ J). cbn [mbind option_bind negb buflen offset].
  destruct (Z.eqb_spec B 0); [lia|]. cbn [last_pos last_start set_positions].
  assert (addw 64 (file_offset f + b * B) B = file_offset f + (b + 1) * B) as -> by (unfold addw; rewrite wrap_small by (unfold is_word; lia); lia).
  rewrite !arr_set_Some by (rewrite ?Hl, ?(seq_start _ _ _ _ _ J); done). cbn [mbind option_bind].
  eexists _, _, _. split; [done|]. split; [done|]. split.
  - apply (seq_job_positions td f); [done|by rewrite zlength_insert|by rewrite zlength_insert, (seq_start _ _ _ _ _ J)].
  - split; [|done]. cbn [last_pos set_positions]. rewrite arr_get_insert by (rewrite Hl; done). by rewrite decide_True.
Qed.

(** The blocks of [k] I/Os from block [p] on. *)
Definition seq_blocks (td : thread_data) (p k : Z) : list Z :=
  if seq_restarts td then (fun j => j mod n) <$> seqZ p k else seqZ p (Z.min k (n - p)).

Lemma seq_issue k : forall i p td f, seq_job dir B n td f -> 0 <= i <= n -> arr_get (last_pos f) dir = Some (file_offset f + i * B) ->
  0 <= p -> (if seq_restarts td then i mod n = p mod n else i = p) ->
  exists td' f', issue fuel k td f dir = Some (block_io B f <$> seq_blocks td p (Z.of_nat k), td', f').
Proof.
  induction k as [|k IH]; intros i p td f J Hi Hpos Hp Hip.
  { exists td, f. unfold seq_blocks. cbn [issue Z.of_nat]. destruct (seq_restarts td); [done|]. by rewrite Z.min_l by lia. }
  pose proof (seq_io td f i J Hi Hpos) as Hio. cbn [issue]. assert (seq_block td i = n <-> i = n /\ seq_restarts td = false) as Hblk.
  { unfold seq_block. destruct (Z.eqb_spec i n), (seq_restarts td); cbn [andb]; intuition (lia || congruence). }
  destruct (Z.eqb_spec (seq_block td i) n) as [Eb|Eb].
  - destruct Hio as (td' & f' & ->). exists td', f'. apply Hblk in Eb as [-> Er]. unfold seq_blocks. rewrite Er in *. subst p.
    rewrite Z.sub_diag, Z.min_r by lia. done.
  - destruct Hio as (u & td1 & f1 & -> & Ho & J1 & Hpos1 & Efo & Eo). cbn [mbind option_bind].
    assert (seq_restarts td1 = seq_restarts td) as Er by (unfold seq_restarts; by rewrite Eo).
    pose proof (seq_block_range td i Hi) as Hb. rewrite <- Efo in Hpos1.
    destruct (IH (seq_block td i + 1) (p + 1) td1 f1 J1 ltac:(lia) Hpos1 ltac:(lia)) as (td' & f' & ->).
    { rewrite Er. unfold seq_block in *. destruct (seq_restarts td); [|rewrite andb_false_r; lia]. rewrite andb_true_r in *.
      destruct (Z.eqb_spec i n) as [->|]; [|by rewrite <- (Z.add_mod_idemp_l i), <- (Z.add_mod_idemp_l p), Hip by lia].
      rewrite Z_mod_same_full in Hip. by rewrite <- (Z.add_mod_idemp_l p), <- Hip by lia. }
    cbn [mbind option_bind]. exists td', f'. do 3 f_equal. rewrite Ho.
    assert (block_io B f1 = block_io B f) as -> by (unfold block_io; by rewrite Efo).
    assert (seq_blocks td p (Z.of_nat (S k)) = seq_block td i :: seq_blocks td1 (p + 1) (Z.of_nat k)) as ->; [|done].
    unfold seq_blocks. rewrite Er. destruct (seq_restarts td) eqn:Ers.
    + rewrite seqZ_cons by lia. cbn [fmap list_fmap]. replace (Z.pred (Z.of_nat (S k))) with (Z.of_nat k) by lia. f_equal.
      rewrite <- Hip. unfold seq_block. rewrite Ers, andb_true_r. destruct (Z.eqb_spec i n) as [->|]; [by rewrite Z_mod_same_full|].
      apply Z.mod_small. lia.
    + subst p. unfold seq_block in *. rewrite Ers, andb_false_r in *. rewrite seqZ_cons by lia. f_equal. f_equal; lia.
Qed.
End Sequential.

(** C32: A sequential job goes through its file in order: its I/Os are the blocks from the
    first to the last, one after the other; a job that is time-based on its one file, or
    that mixes directions up to an amount of I/O above its size, goes on with the first
    block after the last one for ever, and any other job is refused more I/Os. *)
Theorem seq_job_in_order dir B n fuel k td f : 0 < n -> seq_job dir B n td f -> arr_get (last_pos f) dir = Some (file_offset f) ->
  exists td' f', issue fuel k td f dir = Some (block_io B f <$>
    (if seq_restarts td then (fun j => j mod n) <$> seqZ 0 (Z.of_nat k) else seqZ 0 (Z.min (Z.of_nat k) n)), td', f').
Proof.
  intros Hn J Hpos. destruct (seq_issue dir B n fuel Hn k 0 0 td f J ltac:(lia)) as (td' & f' & E); [by rewrite Z.mul_0_l, Z.add_0_r|lia|by destruct (seq_restarts td)|].
  exists td', f'. rewrite E. unfold seq_blocks. by rewrite Z.sub_0_r.
Qed.
End Offset.

(** * Witnesses: a file of ten blocks of 4096 bytes *)

Definition sample_options (flags : Z) (gen : random_generator_t) (tb : bool) : thread_options :=
  mk_options flags RW_SEQ_SEQ 1 0 40960 40960 false 0 0 None 0 0 [4096; 4096; 4096] [4096; 4096; 4096] [4096; 4096; 4096]
    false false [[]; []; []] 1 FIO_RAND_DIST_RANDOM gen false false true [100; 100; 100] [0; 0; 0] ZONE_MODE_NONE 0 0 0 tb false 4096.

Definition sample_td (opt : thread_options) : thread_data :=
  mk_td opt (init_rand false) (init_rand false) [] (replicate 3 (init_rand false)) [] 1 0 5 0 0.

Definition sample_file : fio_file (M := axmap) (Zipf := unit) :=
  mk_file 40960 0 40960 [0; 0; 0] (replicate 3 (all_ones 64)) true None None tt (mk_gauss (init_rand false) 10 0 0 true).

Lemma sample_job gen tb : job 0 4096 10 (sample_td (sample_options 5 gen tb)) sample_file.
Proof. by constructor. Qed.

Lemma sample_state opt : exists s, random_state (sample_td opt) = state32 s /\ alive32 s.
Proof. exact (proj1 init_rand_alive). Qed.

Definition no_zipf (z : unit) : Z * unit := (0, z).

Lemma random_map_covers_witness : exists td' f,
  init_random_map (fun _ => true) (sample_td (sample_options 5 FIO_RAND_GEN_TAUSWORTHE true)) [sample_file] = Some (true, td', [f]) /\
  covers no_zipf no_zipf 0 4096 10 0 td' f.
Proof.
  assert (exists td' f, init_random_map (fun _ => true) (sample_td (sample_options 5 FIO_RAND_GEN_TAUSWORTHE true)) [sample_file] =
    Some (true, td', [f])) as (td' & f & E) by (eexists _, _; vm_compute; reflexivity).
  exists td', f. split; [exact E|].
  destruct (random_map_covers no_zipf no_zipf 0 4096 10 0 (fun _ => true) (sample_td (sample_options 5 FIO_RAND_GEN_TAUSWORTHE true)) sample_file td' [f]
    ltac:(lia) (sample_job _ _) eq_refl (or_intror eq_refl) eq_refl eq_refl eq_refl (sample_state _) E) as (f' & Ef & H).
  injection Ef as ->. exact H.
Defined.

Lemma lfsr_covers_witness : exists td' f fuel,
  init_random_map (fun _ => true) (sample_td (sample_options 5 FIO_RAND_GEN_LFSR false)) [sample_file] = Some (true, td', [f]) /\
  covers no_zipf no_zipf 0 4096 10 fuel td' f.
Proof.
  assert (exists td' f, init_random_map (fun _ => true) (sample_td (sample_options 5 FIO_RAND_GEN_LFSR false)) [sample_file] =
    Some (true, td', [f])) as (td' & f & E) by (eexists _, _; vm_compute; reflexivity).
  destruct (lfsr_covers no_zipf no_zipf 0 4096 10 (fun _ => true) (sample_td (sample_options 5 FIO_RAND_GEN_LFSR false)) sample_file td' [f]
    ltac:(lia) (sample_job _ _) eq_refl eq_refl eq_refl E) as (f' & fuel & Ef & H).
  injection Ef as ->. exists td', f', fuel. split; [exact E|exact H].
Defined.

Lemma mark_random_map_claims_witness : exists len' m',
  mark_random_map (sample_td (sample_options 5 FIO_RAND_GEN_TAUSWORTHE false)) (mk_io_u 0 0 0 0 false)
    (set_axmap sample_file (Some sample_map)) (0 + 3 * 4096) 10000 = Some (len', set_axmap (set_axmap sample_file (Some sample_map)) (Some m')) /\
  0 < len' <= 10000.
Proof.
  destruct (mark_random_map_claims (sample_td (sample_options 5 FIO_RAND_GEN_TAUSWORTHE false)) (mk_io_u 0 0 0 0 false)
    (set_axmap sample_file (Some sample_map)) sample_map 3 4096 10000 (BlockMapLaws0 := axmap_block_map_laws) eq_refl sample_map_ok eq_refl eq_refl
    ltac:(lia) ltac:(lia) ltac:(lia) ltac:(cbn; lia) ltac:(cbn; lia) ltac:(lia) ltac:(vm_compute; congruence) ltac:(vm_compute; reflexivity) ltac:(vm_compute; reflexivity))
    as (len' & m' & E & _ & _ & Hl & _).
  exists len', m'. split; [exact E|exact Hl].
Defined.

(** A job with sizes between [minbs] and [maxbs], after [k] draws. *)
Definition sizes_td (minbs maxbs : Z) (split : list bssplit) (use64 : bool) (k : nat) : thread_data :=
  let opt := sample_options 5 FIO_RAND_GEN_TAUSWORTHE false in
  set_bsrange (sample_td (mk_options (td_ddir opt) RW_SEQ_SEQ 1 0 40960 40960 false 0 0 None 0 0 (replicate 3 minbs) (replicate 3 minbs) (replicate 3 maxbs)
    false false (replicate 3 split) 1 FIO_RAND_DIST_RANDOM FIO_RAND_GEN_TAUSWORTHE false false true [100; 100; 100] [0; 0; 0] ZONE_MODE_NONE 0 0 0 false false 512))
    (replicate 3 (Nat.iter k next_state (init_rand use64))).

Lemma sizes_sample minbs maxbs split use64 k off : 0 < minbs <= maxbs -> maxbs < 2 ^ 53 -> 0 <= off < 2 ^ 63 ->
  Forall (fun b => 0 <= perc b /\ (perc b <> 0 -> minbs <= bs b <= maxbs)) split -> split = [] \/ Exists (fun b => perc b <> 0) split ->
  sizes (sizes_td minbs maxbs split use64 k) sample_file (mk_io_u 0 off 0 0 false) true 0 minbs maxbs split 0 (Nat.iter k next_state (init_rand use64)).
Proof.
  intros. constructor; try done. apply iter_alive. destruct init_rand_alive as [(s & Es & As) (s' & Es' & As')].
  destruct use64; [by rewrite Es'|by rewrite Es].
Qed.

(** With 1024 bytes left, sizes from 512 to 8192 and the 64-bit generator, and the same with a split of sizes. *)
Lemma get_next_buflen_bounds_witness :
  (exists n r, forall fuel, (n <= fuel)%nat -> get_next_buflen fuel (sizes_td 512 8192 [] true 0) sample_file (mk_io_u 0 39936 0 0 false) true = Some r) /\
  (exists n r, forall fuel, (n <= fuel)%nat ->
     get_next_buflen fuel (sizes_td 512 8192 [mk_bssplit 512 10; mk_bssplit 8192 90] false 0) sample_file (mk_io_u 0 39936 0 0 false) true = Some r) /\
  is_Some (get_next_buflen 1 (sizes_td 512 8192 [] false 0) sample_file (mk_io_u 0 4096 0 0 false) true).
Proof.
  set (l := [mk_bssplit 512 10; mk_bssplit 8192 90]).
  assert (Forall (fun b => 0 <= perc b /\ (perc b <> 0 -> 512 <= bs b <= 8192)) l) as Hs by (repeat constructor; cbn; lia).
  assert (Exists (fun b => perc b <> 0) l) as Hx by (by left).
  split; [|split].
  - destruct (get_next_buflen_bounds _ sample_file _ true 0 512 8192 [] 0 _
      (sizes_sample 512 8192 [] true 0 39936 ltac:(lia) ltac:(lia) ltac:(lia) (List.Forall_nil _) (or_introl eq_refl))) as (_ & _ & H).
    destruct (H ltac:(lia) ltac:(by unfold unit_fits)) as (_ & _ & H3 & _). apply H3. by left.
  - destruct (get_next_buflen_bounds _ sample_file _ true 0 512 8192 l 0 _
      (sizes_sample 512 8192 l false 0 39936 ltac:(lia) ltac:(lia) ltac:(lia) Hs (or_intror Hx))) as (_ & _ & H).
    destruct (H ltac:(lia) ltac:(by unfold unit_fits)) as (_ & _ & H3 & _). apply H3. right. left. split; [done|by unfold unit_fits].
  - destruct (get_next_buflen_bounds _ sample_file _ true 0 512 8192 [] 0 _
      (sizes_sample 512 8192 [] false 0 4096 ltac:(lia) ltac:(lia) ltac:(lia) (List.Forall_nil _) (or_introl eq_refl))) as (_ & _ & H).
    destruct (H ltac:(lia) ltac:(by unfold unit_fits)) as (_ & H2 & _). apply H2. by unfold unit_fits.
Defined.

(** A length that is no multiple of the smallest size: the largest one is taken as it is. *)
Example largest_not_cut : fst <$> get_next_buflen 1 (sizes_td 512 700 [] false 1) sample_file (mk_io_u 0 4096 0 0 false) true = Some 700.
Proof. by vm_compute. Qed.

(** The second size of this split is never used: it is cut to the first. *)
Example split_size_cut fuel len td' :
  get_next_buflen fuel (sizes_td 4096 6144 [mk_bssplit 4096 50; mk_bssplit 6144 50] false 0) sample_file (mk_io_u 0 0 0 0 false) true = Some (len, td') -> len = 4096.
Proof.
  set (l := [_; _]). assert (Forall (fun b => 0 <= perc b /\ (perc b <> 0 -> 4096 <= bs b <= 6144)) l) as Hs by (repeat constructor; cbn; lia).
  assert (Exists (fun b => perc b <> 0) l) as Hx by (by left).
  pose proof (sizes_sample 4096 6144 l false 0 0 ltac:(lia) ltac:(lia) ltac:(lia) Hs (or_intror Hx)) as Hz.
  rewrite (next_buflen_loop _ _ _ _ _ _ _ _ _ _ Hz) by lia. rewrite decide_True by (by unfold unit_fits).
  destruct (buflen_loop _ _ _ _ _ _ _ _) as [[len' s']|] eqn:E; [|done]. intros [= <- _].
  destruct (proj1 (loop_spec _ _ _ _ _ _ _ _ _ _ Hz fuel _ (sizes_alive _ _ _ _ _ _ _ _ _ _ Hz) eq_refl) _ _ E) as (_ & (v & _ & -> & Hin) & _).
  specialize (Hin ltac:(done)). subst l. apply Exists_cons in Hin as [[_ <-]|[[_ <-]|[]%Exists_nil]%Exists_cons]; by vm_compute.
Qed.

(** The smallest size of this split has no share; with room for nothing else the loop never ends. *)
Example split_never_ends fuel :
  get_next_buflen fuel (sizes_td 4096 8192 [mk_bssplit 4096 0; mk_bssplit 8192 100] false 0) sample_file (mk_io_u 0 36864 0 0 false) true = None.
Proof.
  set (l := [_; _]). assert (Forall (fun b => 0 <= perc b /\ (perc b <> 0 -> 4096 <= bs b <= 8192)) l) as Hs by (repeat constructor; cbn; lia).
  assert (Exists (fun b => perc b <> 0) l) as Hx by (by right; left).
  pose proof (sizes_sample 4096 8192 l false 0 36864 ltac:(lia) ltac:(lia) ltac:(lia) Hs (or_intror Hx)) as Hz.
  rewrite (next_buflen_loop _ _ _ _ _ _ _ _ _ _ Hz) by lia. rewrite decide_True by (by unfold unit_fits).
  destruct (proj1 (proj2 (proj2 (loop_spec _ _ _ _ _ _ _ _ _ _ Hz fuel _ (sizes_alive _ _ _ _ _ _ _ _ _ _ Hz) eq_refl)))) as [_ H]; [done| |].
  - repeat constructor; [by intros []|]. intros _. by vm_compute.
  - rewrite H; [done|]. by vm_compute.
Qed.

Lemma seq_job_in_order_witness : exists td' f',
  issue no_zipf no_zipf 0 12 (sample_td (sample_options 1 FIO_RAND_GEN_TAUSWORTHE false)) sample_file 0 =
    Some (block_io 4096 sample_file <$> seqZ 0 10, td', f').
Proof.
  apply (seq_job_in_order no_zipf no_zipf 0 4096 10 0 12 (sample_td (sample_options 1 FIO_RAND_GEN_TAUSWORTHE false)) sample_file);
    [lia|by constructor|reflexivity].
Defined.

(** ** What the code does at its edges *)

(** A state of the 64-bit generator whose next number is one of the 1024 largest words:
    the draw is block 10 of a file of ten blocks, one past the end. *)
Definition edge_td : thread_data :=
  let td := sample_td (sample_options 5 FIO_RAND_GEN_TAUSWORTHE64 false) in
  set_random_state td (state64 (mk_taus258 9223371478240559102 1048576 1048576 1048576 1073741824)).

Example rand_offset_past_end :
  (let* '(ob, _, _) := __get_next_rand_offset 0 edge_td sample_file 10 in Some ob) = Some (Some 10).
Proof. vm_compute. reflexivity. Qed.

(** With a hole between the blocks, a sequential job that passes the end of the file wraps
    to its file offset twice: to byte 16384 of a job that starts at byte 8192. *)
Definition holed_td : thread_data :=
  sample_td (mk_options 1 RW_SEQ_SEQ 1 36864 40960 40960 false 8192 0 None 0 0 [4096; 4096; 4096] [4096; 4096; 4096] [4096; 4096; 4096]
    false false [[]; []; []] 1 FIO_RAND_DIST_RANDOM FIO_RAND_GEN_TAUSWORTHE false false true [100; 100; 100] [0; 0; 0] ZONE_MODE_NONE 0 0 0 false false 4096).

Example holed_wrap :
  let f := mk_file (M := axmap) (Zipf := unit) 40960 8192 32768 [12288; 0; 0] (replicate 3 (all_ones 64)) true None None tt (mk_gauss (init_rand false) 10 0 0 true) in
  (let* '(_, _, _, u) := get_next_offset no_zipf no_zipf 0 holed_td f (mk_io_u 0 0 0 0 false) in Some (offset u)) = Some 16384.
Proof. vm_compute. reflexivity. Qed.
