(* ===== verification/Pattern.v ===== *)
(** lib/pattern.c: copying, comparing and patching data patterns; and the part of
    lib/rand.c that fills a buffer with random bytes and a pattern. *)
From S2P Require Import Prelude Bits Stream Hash Rand.

(** [memcmp] of [n] bytes, as equality. *)
Definition memcmp_eq (a b : list Z) (n : Z) : option bool :=
  let* x := read_bytes n a in
  let* y := read_bytes n b in
  Some (bool_decide (x = y)).

Definition EINVAL : Z := 22.
Definition EILSEQ : Z := 84.

(** A pointer into a buffer [l], [off] bytes from its start. *)
Definition at_off (l : list Z) (off : Z) : list Z := drop (Z.to_nat off) l.

(** The [while (left)] loop; the copied prefix doubles every time, so 32 turns are enough
    for a 32-bit length. *)
Fixpoint dup_loop (fuel : nat) (out : list Z) (off left len : Z) : option (list Z) :=
  if left =? 0 then Some out else
  match fuel with
  | O => None
  | S fuel =>
      let* d := read_bytes len out in
      let* out := memcpy out off d in
      let left := subw 32 left len in
      let off := shlw 32 off 1 in
      dup_loop fuel out off left (Z.min left off)
  end.

Definition dup_pattern (out : list Z) (out_len pattern_len : Z) : option (list Z) :=
  if out_len <=? pattern_len then Some out else
  let off := pattern_len in
  let left := out_len - off in
  dup_loop 32 out off left (Z.min left off).

(** The value returned and the buffer.  The tests for null pointers are left out: a buffer
    of the model is never null. *)
Definition cpy_pattern (pattern : list Z) (pattern_len : Z) (out : list Z) (out_len : Z) : option (Z * list Z) :=
  if (pattern_len =? 0) || (out_len =? 0) then Some (- EINVAL, out) else
  let* d := read_bytes (Z.min pattern_len out_len) pattern in
  let* out := memcpy out 0 d in
  let* out := dup_pattern out out_len pattern_len in
  Some (0, out).

Definition cmp_pattern (pattern : list Z) (pattern_size off : Z) (buf : list Z) (len : Z) : option Z :=
  let* same :=
    (if pattern_size <? len then memcmp_eq buf (at_off buf pattern_size) (len - pattern_size) else Some true) in
  if negb same then Some (- EILSEQ) else
  let size := if c_true off then Z.min len (subw 32 pattern_size off) else 0 in
  let* same := (if c_true off then memcmp_eq buf (at_off pattern off) size else Some true) in
  if negb same then Some (- EILSEQ) else
  let buf := at_off buf size in
  let len := len - size in
  let* same :=
    (if c_true len then memcmp_eq buf pattern (Z.min len (if c_true off then off else pattern_size)) else Some true) in
  if negb same then Some (- EILSEQ) else Some 0.

(** ** Formats *)

Section Formats.
Context {Priv : Type}.

(** [paste] returns its status and the bytes that it writes at the start of its buffer. *)
Record pattern_fmt_desc : Type := mk_desc { desc_len : Z; paste : Z -> Priv -> Z * list Z }.
Record pattern_fmt : Type := mk_fmt { fmt_off : Z; desc : pattern_fmt_desc }.

Fixpoint paste_loop (pattern : list Z) (pattern_len : Z) (fmt : list pattern_fmt) (priv : Priv) : option (Z * list Z) :=
  match fmt with
  | [] => Some (0, pattern)
  | f :: fmt =>
      if pattern_len <=? fmt_off f then Some (0, pattern) else
      let '(rc, d) := paste (desc f) (Z.min (pattern_len - fmt_off f) (desc_len (desc f))) priv in
      let* pattern := memcpy pattern (fmt_off f) d in
      if c_true rc then Some (rc, pattern) else paste_loop pattern pattern_len fmt priv
  end.

Definition paste_format_inplace (pattern : list Z) (pattern_len : Z) (fmt : list pattern_fmt) (priv : Priv) : option (Z * list Z) :=
  if pattern_len =? 0 then Some (- EINVAL, pattern) else paste_loop pattern pattern_len fmt priv.

Definition paste_format (pattern : list Z) (pattern_len : Z) (fmt : list pattern_fmt) (out : list Z) (out_len : Z) (priv : Priv) :
    option (Z * list Z) :=
  if (pattern_len =? 0) || (out_len =? 0) then Some (- EINVAL, out) else
  let len := Z.min pattern_len out_len in
  let* d := read_bytes len pattern in
  let* out := memcpy out 0 d in
  let* '(rc, out) := paste_format_inplace out len fmt priv in
  if c_true rc then Some (rc, out) else
  let* out := dup_pattern out out_len pattern_len in
  Some (0, out).
End Formats.
Arguments pattern_fmt_desc : clear implicits.
Arguments pattern_fmt : clear implicits.

(** ** Random buffers with a pattern *)

Section Percentage.
Variable buckets : Z.

(** The bytes written at [buf + pos]: a pattern, or zeros. *)
Definition fill_plain (pattern : list Z) (buf : list Z) (pos this_len : Z) : option (list Z) :=
  if c_true (zlength pattern) then
    let* '(_, d) := cpy_pattern pattern (zlength pattern) (at_off buf pos) this_len in
    Some (take (Z.to_nat pos) buf ++ d)
  else memset buf pos 0 this_len.

(** [while (len)]; [pos] is how far [buf] has moved. *)
Fixpoint percentage_loop (fuel : nat) (seed percentage segment : Z) (pattern buf : list Z) (pos len : Z) : option (list Z) :=
  if len =? 0 then Some buf else
  match fuel with
  | O => None
  | S fuel =>
      let this_len := wrap 32 (mulw 64 segment (subw 32 100 percentage) / 100) in
      let this_len := if len <? this_len then len else this_len in
      let* buf := memcpy buf pos (__fill_random_buf buckets this_len seed) in
      let len := len - this_len in
      if len =? 0 then Some buf else
      let pos := pos + this_len in
      let this_len := subw 32 segment this_len in
      let this_len := if len <? this_len then len else if len - this_len <=? 8 then len else this_len in
      let* buf := fill_plain pattern buf pos this_len in
      percentage_loop fuel seed percentage segment pattern buf (pos + this_len) (len - this_len)
  end.

(** The first [len] bytes of [buf] are written; [pbytes] is the length of [pattern]. *)
Definition __fill_random_buf_percentage (seed percentage segment len : Z) (pattern buf : list Z) : option (list Z) :=
  if percentage =? 100 then fill_plain pattern buf 0 len else
  let segment := if len <? segment then len else segment in
  percentage_loop (Z.to_nat len) seed percentage segment pattern buf 0 len.
End Percentage.

(** * Proofs *)

(** Byte [i] of the endless repetition of a pattern, and [n] of them from [off] on. *)
Definition pattern_byte (pat : list Z) (i : Z) : Z := tbl pat (i mod zlength pat).
Definition pattern_run (pat : list Z) (off n : Z) : list Z := (fun i => pattern_byte pat i) <$> seqZ off n.

Lemma zlength_run pat off n : 0 <= n -> zlength (pattern_run pat off n) = n.
Proof. intros. unfold pattern_run, zlength. rewrite length_fmap, length_seqZ. lia. Qed.

Lemma run_app pat off a b : 0 <= a -> 0 <= b -> pattern_run pat off (a + b) = pattern_run pat off a ++ pattern_run pat (off + a) b.
Proof. intros. unfold pattern_run. by rewrite seqZ_app, fmap_app. Qed.

Lemma tbl_run pat off n i : 0 <= i < n -> tbl (pattern_run pat off n) i = pattern_byte pat (off + i).
Proof.
  intros Hi. unfold tbl, pattern_run. rewrite nth_lookup, list_lookup_fmap, lookup_seqZ_lt by lia. cbn. f_equal. lia.
Qed.

(** Equality of prefixes, byte by byte. *)
Lemma take_eq_iff (a b : list Z) k : 0 <= k <= zlength a -> k <= zlength b ->
  take (Z.to_nat k) a = take (Z.to_nat k) b <-> forall i, 0 <= i < k -> tbl a i = tbl b i.
Proof.
  intros Ha Hb. unfold zlength, tbl in *. split.
  - intros E i Hi. rewrite !nth_lookup. assert (take (Z.to_nat k) a !! Z.to_nat i = take (Z.to_nat k) b !! Z.to_nat i) as Ei by by rewrite E.
    rewrite !lookup_take_lt in Ei by lia. by rewrite Ei.
  - intros H. apply list_eq. intros j. destruct (decide (j < Z.to_nat k)%nat).
    + rewrite !lookup_take_lt by done. specialize (H (Z.of_nat j) ltac:(lia)). rewrite Nat2Z.id, !nth_lookup in H.
      destruct (lookup_lt_is_Some_2 a j ltac:(lia)) as [x Ex], (lookup_lt_is_Some_2 b j ltac:(lia)) as [y Ey].
      rewrite Ex, Ey in *. cbn in H. by rewrite H.
    + by rewrite !lookup_take_ge by lia.
Qed.

Lemma tbl_at_off l off i : 0 <= off -> 0 <= i -> tbl (at_off l off) i = tbl l (off + i).
Proof. intros. unfold tbl, at_off. rewrite !nth_lookup, lookup_drop. do 2 f_equal. lia. Qed.

Lemma zlength_at_off l off : 0 <= off <= zlength l -> zlength (at_off l off) = zlength l - off.
Proof. unfold zlength, at_off. rewrite length_drop. lia. Qed.

Lemma run_eq pat o1 o2 n : 0 < zlength pat -> o1 mod zlength pat = o2 mod zlength pat -> 0 <= n -> pattern_run pat o1 n = pattern_run pat o2 n.
Proof.
  intros Hp Ho Hn. rewrite <- (firstn_all (pattern_run pat o1 n)), <- (firstn_all (pattern_run pat o2 n)).
  rewrite <- !zlength_to_nat, !zlength_run by done. apply take_eq_iff; rewrite ?zlength_run by done; try lia.
  intros i Hi. rewrite !tbl_run by done. unfold pattern_byte. by rewrite <- (Z.add_mod_idemp_l o1), <- (Z.add_mod_idemp_l o2), Ho by lia.
Qed.

(** A whole pattern is a run of its own bytes. *)
Lemma run_self pat n : 0 <= n <= zlength pat -> pattern_run pat 0 n = take (Z.to_nat n) pat.
Proof.
  intros Hn. rewrite <- (firstn_all (pattern_run pat 0 n)), <- zlength_to_nat, zlength_run by lia.
  apply take_eq_iff; rewrite ?zlength_run by lia; try lia. intros i Hi. rewrite tbl_run by done. unfold pattern_byte. by rewrite Z.mod_small by lia.
Qed.

Lemma dup_loop_spec pat : 0 < zlength pat -> forall fuel off left R, (zlength pat | off) -> 0 < off -> 0 <= left <= zlength R ->
  off + left < 2 ^ 32 -> off + left <= off * 2 ^ Z.of_nat fuel ->
  dup_loop fuel (pattern_run pat 0 off ++ R) off left (Z.min left off) = Some (pattern_run pat 0 (off + left) ++ at_off R left).
Proof.
  intros Hp. induction fuel as [|fuel IH]; intros off left R Hoff Hpos Hleft Hsum Hfuel.
  { cbn [Z.of_nat] in Hfuel. assert (left = 0) as -> by lia. cbn [dup_loop]. by rewrite Z.eqb_refl, Z.add_0_r. }
  cbn [dup_loop]. destruct (Z.eqb_spec left 0) as [->|Hne]; [by rewrite Z.add_0_r|]. set (len := Z.min left off).
  assert (zlength (pattern_run pat 0 off ++ R) = off + zlength R) as Hl by (rewrite zlength_app, zlength_run by lia; done).
  assert (read_bytes len (pattern_run pat 0 off ++ R) = Some (pattern_run pat off len)) as ->.
  { unfold read_bytes. destruct (Z.leb_spec 0 len); [|lia]. rewrite Hl. destruct (Z.leb_spec len (off + zlength R)); [|lia]. cbn [andb].
    f_equal. rewrite take_app_le by (rewrite <- zlength_to_nat, zlength_run by lia; lia).
    rewrite (run_eq pat off 0) by (done || lia || (rewrite Z.mod_0_l by lia; by apply Z.mod_divide; [lia|])).
    replace off with (len + (off - len)) at 1 by lia. rewrite run_app by lia. rewrite take_app_le by (rewrite <- zlength_to_nat, zlength_run by lia; lia).
    rewrite take_ge; [done|]. rewrite <- zlength_to_nat, zlength_run by lia. lia. }
  cbn [mbind option_bind]. unfold memcpy. rewrite Hl, zlength_run by lia. destruct (Z.leb_spec 0 off); [|lia].
  destruct (Z.leb_spec (off + len) (off + zlength R)); [|lia]. cbn [andb mbind option_bind].
  assert (take (Z.to_nat off) (pattern_run pat 0 off ++ R) ++ pattern_run pat off len ++
    drop (Z.to_nat off + length (pattern_run pat off len)) (pattern_run pat 0 off ++ R) = pattern_run pat 0 (off + len) ++ at_off R len) as ->.
  { assert (Z.to_nat off = length (pattern_run pat 0 off)) as Eo by (rewrite <- zlength_to_nat, zlength_run by lia; done).
    rewrite Eo at 1. rewrite take_app_length, run_app, <- app_assoc by lia. do 2 f_equal. rewrite <- zlength_to_nat, zlength_run by lia.
    rewrite drop_app_ge by (rewrite <- Eo; lia). unfold at_off. f_equal. lia. }
  assert (subw 32 left len = left - len) as -> by (apply wrap_small; unfold is_word; lia).
  destruct (Z.eq_dec left len) as [E|E].
  - rewrite <- E, Z.sub_diag. destruct fuel; cbn [dup_loop]; by rewrite Z.eqb_refl.
  - assert (len = off) as El by lia. rewrite El in *. assert (shlw 32 off 1 = off + off) as ->.
    { unfold shlw. rewrite Z.shiftl_mul_pow2 by lia. rewrite wrap_small by (unfold is_word; lia). lia. }
    rewrite (IH (off + off) (left - off) (at_off R off)).
    + do 2 f_equal; [f_equal; lia|]. unfold at_off. rewrite drop_drop. f_equal. lia.
    + by apply Z.divide_add_r.
    + lia.
    + rewrite zlength_at_off by lia. lia.
    + lia.
    + rewrite Nat2Z.inj_succ, Z.pow_succ_r in Hfuel by lia. lia.
Qed.

Lemma cpy_pattern_spec pat out len : 0 < zlength pat -> 0 < len <= zlength out -> len < 2 ^ 32 -> zlength pat < 2 ^ 32 ->
  cpy_pattern pat (zlength pat) out len = Some (0, pattern_run pat 0 len ++ at_off out len).
Proof.
  intros Hp Hl Hl32 Hp32. unfold cpy_pattern. destruct (Z.eqb_spec (zlength pat) 0); [lia|]. destruct (Z.eqb_spec len 0); [lia|]. cbn [orb].
  set (m := Z.min (zlength pat) len). unfold read_bytes. destruct (Z.leb_spec 0 m); [|lia]. destruct (Z.leb_spec m (zlength pat)); [|lia].
  cbn [andb mbind option_bind]. rewrite <- run_self by lia. unfold memcpy. rewrite zlength_run by lia.
  destruct (Z.leb_spec (0 + m) (zlength out)); [|lia]. change (0 <=? 0) with true. cbn [andb mbind option_bind].
  rewrite <- zlength_to_nat, zlength_run by lia. change (take (Z.to_nat 0) out) with (@nil Z). change (drop (Z.to_nat 0 + Z.to_nat m) out) with (at_off out m). cbn [app]. unfold dup_pattern. cbv zeta.
  destruct (Z.leb_spec len (zlength pat)).
  - replace m with len by lia. done.
  - replace m with (zlength pat) by lia. rewrite (dup_loop_spec pat Hp 32 (zlength pat) (len - zlength pat)); [|by exists 1; lia|lia|rewrite zlength_at_off by lia; lia|lia|lia].
    cbn [mbind option_bind]. do 3 f_equal; [f_equal; lia|]. unfold at_off. rewrite drop_drop. f_equal. lia.
Qed.

Lemma memcmp_eq_spec a b n : 0 <= n <= zlength a -> n <= zlength b ->
  exists r, memcmp_eq a b n = Some r /\ (r = true <-> forall i, 0 <= i < n -> tbl a i = tbl b i).
Proof.
  intros Ha Hb. unfold memcmp_eq, read_bytes. destruct (Z.leb_spec 0 n); [|lia]. destruct (Z.leb_spec n (zlength a)); [|lia].
  destruct (Z.leb_spec n (zlength b)); [|lia]. cbn [andb mbind option_bind]. eexists. split; [done|].
  rewrite bool_decide_eq_true. by apply take_eq_iff.
Qed.

Lemma cmp_pattern_spec pat off buf len : 0 <= off < zlength pat -> zlength pat < 2 ^ 32 -> 0 <= len <= zlength buf -> len < 2 ^ 32 ->
  exists r, cmp_pattern pat (zlength pat) off buf len = Some (if (r : bool) then 0 else - EILSEQ) /\
    (r = true <-> forall i, 0 <= i < len -> tbl buf i = pattern_byte pat (off + i)).
Proof.
  intros Hoff Hp Hlen Hl. set (n := zlength pat) in *. unfold cmp_pattern. fold n.
  assert (exists r, (if n <? len then memcmp_eq buf (at_off buf n) (len - n) else Some true) = Some r /\
    (r = true <-> forall i, 0 <= i -> n + i < len -> tbl buf i = tbl buf (n + i))) as (r1 & -> & H1).
  { destruct (Z.ltb_spec n len); [|exists true; split; [done|]; split; [lia|done]].
    destruct (memcmp_eq_spec buf (at_off buf n) (len - n)) as (r & E & Hr); [lia|rewrite zlength_at_off by lia; lia|].
    exists r. split; [done|]. rewrite Hr. split; intros H' i Hi; [intros Hi2; rewrite <- tbl_at_off by lia; apply H'; lia|rewrite tbl_at_off by lia; apply H'; lia]. }
  cbn [mbind option_bind]. set (size := if c_true off then Z.min len (subw 32 n off) else 0).
  assert (size = if c_true off then Z.min len (n - off) else 0) as Esz.
  { unfold size. destruct (c_true off); [|done]. unfold subw. rewrite wrap_small by (unfold is_word; lia). done. }
  assert (exists r, (if c_true off then memcmp_eq buf (at_off pat off) size else Some true) = Some r /\
    (r = true <-> forall i, 0 <= i < size -> tbl buf i = tbl pat (off + i))) as (r2 & -> & H2).
  { rewrite Esz. destruct (c_true off) eqn:Eo; [|exists true; split; [done|]; split; [lia|done]].
    destruct (memcmp_eq_spec buf (at_off pat off) (Z.min len (n - off))) as (r & E & Hr); [lia|rewrite zlength_at_off by (unfold n in *; lia); unfold n in *; lia|].
    exists r. split; [done|]. rewrite Hr. split; intros H' i Hi; [rewrite <- tbl_at_off by lia; by apply H'|rewrite tbl_at_off by lia; by apply H']. }
  assert (0 <= size <= len) as Hsz by (rewrite Esz; destruct (c_true off); lia).
  set (m := Z.min (len - size) (if c_true off then off else n)).
  assert (exists r, (if c_true (len - size) then memcmp_eq (at_off buf size) pat m else Some true) = Some r /\
    (r = true <-> forall i, 0 <= i < m -> tbl buf (size + i) = tbl pat i)) as (r3 & E3 & H3).
  { assert (0 <= m <= n /\ m <= len - size) as Hm by (unfold m; destruct (c_true off); lia).
    destruct (c_true (len - size)) eqn:El; [|apply c_true_false_iff in El; exists true; split; [done|]; split; [lia|done]].
    destruct (memcmp_eq_spec (at_off buf size) pat m) as (r & E & Hr); [rewrite zlength_at_off by lia; lia|unfold n in *; lia|].
    exists r. split; [done|]. rewrite Hr. split; intros H' i Hi; [rewrite <- tbl_at_off by lia; by apply H'|rewrite tbl_at_off by lia; by apply H']. }
  exists (r1 && r2 && r3). split.
  { destruct r1, r2; cbn [negb mbind option_bind andb]; try done. rewrite E3. cbn [mbind option_bind]. by destruct r3. }
  rewrite !andb_true_iff, H1, H2, H3. unfold pattern_byte. fold n. clear E3 H1 H2 H3 r1 r2 r3. split.
  - intros [[A B] C]. assert (forall k i, 0 <= i < Z.of_nat k -> i < len -> tbl buf i = tbl pat ((off + i) mod n)) as Hall.
    { induction k as [|k IH]; intros i Hi Hil; [lia|]. destruct (Z.lt_ge_cases i n).
      - destruct (Z.lt_ge_cases i size); [rewrite B by lia; rewrite Esz in *; destruct (c_true off) eqn:Eo; [|lia]; by rewrite Z.mod_small by lia|].
        assert (i - size < m) as Him by (unfold m; rewrite Esz in *; destruct (c_true off) eqn:Eo; lia).
        replace i with (size + (i - size)) at 1 by lia. rewrite C by lia. f_equal. rewrite Esz in *. destruct (c_true off) eqn:Eo.
        + apply Z.mod_unique with 1; lia.
        + apply c_true_false_iff in Eo. subst off. rewrite Z.mod_small by lia. lia.
      - replace i with (n + (i - n)) at 1 by lia. rewrite <- A by lia. rewrite IH by lia. f_equal.
        replace (off + i) with (off + (i - n) + 1 * n) by lia. by rewrite Z.mod_add by lia. }
    intros i Hi. apply (Hall (S (Z.to_nat i))); lia.
  - intros H. split; [split|].
    + intros i Hi Hi2. rewrite !H by lia. f_equal. replace (off + (n + i)) with (off + i + 1 * n) by lia. by rewrite Z.mod_add by lia.
    + intros i Hi. rewrite H by lia. rewrite Esz in *. destruct (c_true off); [|lia]. by rewrite Z.mod_small by lia.
    + intros i Hi. rewrite H by (unfold m in Hi; lia). f_equal. unfold m in Hi. rewrite Esz in *. destruct (c_true off) eqn:Eo.
      * symmetry. apply Z.mod_unique with 1; lia.
      * apply c_true_false_iff in Eo. subst off. rewrite Z.mod_small by lia. lia.
Qed.

(** A filled buffer compares equal from any place on. *)
Lemma cpy_cmp pat out len s : 0 < zlength pat < 2 ^ 32 -> 0 < len <= zlength out -> len < 2 ^ 32 -> 0 <= s <= len ->
  cmp_pattern pat (zlength pat) (s mod zlength pat) (at_off (pattern_run pat 0 len ++ at_off out len) s) (len - s) = Some 0.
Proof.
  intros Hp Hl Hl32 Hs. pose proof (Z.mod_pos_bound s (zlength pat) ltac:(lia)).
  assert (zlength (pattern_run pat 0 len ++ at_off out len) = zlength out) as Hz by (rewrite zlength_app, zlength_run, zlength_at_off by lia; lia).
  destruct (cmp_pattern_spec pat (s mod zlength pat) (at_off (pattern_run pat 0 len ++ at_off out len) s) (len - s)) as (r & -> & Hr); [lia|lia|rewrite zlength_at_off by lia; lia|lia|].
  assert (r = true) as ->; [|done]. apply Hr. intros i Hi. rewrite tbl_at_off by lia. unfold tbl. rewrite app_nth1 by (rewrite <- zlength_to_nat, zlength_run by lia; lia).
  change (nth (Z.to_nat (s + i)) (pattern_run pat 0 len) 0) with (tbl (pattern_run pat 0 len) (s + i)). rewrite tbl_run by lia.
  unfold pattern_byte. by rewrite Z.add_mod_idemp_l by lia.
Qed.

(** ** Filling a buffer at random with a pattern *)

Lemma memcpy_keeps dst off src : 0 <= off -> off + zlength src <= zlength dst -> bytes dst -> bytes src ->
  exists r, memcpy dst off src = Some r /\ zlength r = zlength dst /\ bytes r.
Proof.
  intros Ho Hl Hd Hs. eexists. split; [apply memcpy_Some; done|]. split; [|by repeat apply Forall_app_2; [apply Forall_take| |apply Forall_drop]].
  unfold zlength in *. rewrite !length_app, length_take, length_drop. lia.
Qed.

Lemma run_bytes pat off n : bytes pat -> bytes (pattern_run pat off n).
Proof.
  intros Hp. unfold pattern_run. apply Forall_fmap, Forall_forall. intros i _. cbn. unfold pattern_byte, tbl.
  destruct (nth_in_or_default (Z.to_nat (i mod zlength pat)) pat 0) as [Hi| ->]; [by eapply List.Forall_forall in Hp|unfold is_word; lia].
Qed.

Lemma fill_plain_ok pat buf pos n : 0 <= pos -> 0 <= n -> pos + n <= zlength buf -> zlength buf < 2 ^ 32 -> zlength pat < 2 ^ 32 -> bytes pat -> bytes buf ->
  exists r, fill_plain pat buf pos n = Some r /\ zlength r = zlength buf /\ bytes r.
Proof.
  intros Hp Hn Hl Hb32 Hp32 Hpat Hbuf. unfold fill_plain, c_true. assert (0 <= zlength pat) by (unfold zlength; lia).
  assert (bytes (take (Z.to_nat pos) buf)) by by apply Forall_take. assert (bytes (at_off buf pos)) by by apply Forall_drop.
  assert (zlength (take (Z.to_nat pos) buf) = pos) as Ht by (unfold zlength in *; rewrite length_take; lia).
  destruct (Z.eqb_spec (zlength pat) 0) as [E|E]; cbn [negb].
  - unfold memset. destruct (Z.ltb_spec n 0); [lia|]. apply memcpy_keeps; [lia|unfold zlength in *; rewrite length_replicate; lia|done|].
    apply Forall_replicate. unfold is_word. lia.
  - destruct (Z.eq_dec n 0) as [->|Hn0].
    + exists buf. unfold cpy_pattern. rewrite (proj2 (Z.eqb_neq _ _) E). cbn [Z.eqb orb mbind option_bind]. split; [|done]. by rewrite <- (take_drop (Z.to_nat pos) buf) at 3.
    + rewrite cpy_pattern_spec by (rewrite ?zlength_at_off by lia; lia). cbn [mbind option_bind]. eexists. split; [done|]. split.
      * rewrite !zlength_app, zlength_run, Ht, !zlength_at_off by (rewrite ?zlength_at_off by lia; lia). lia.
      * repeat apply Forall_app_2; [done|by apply run_bytes|by apply Forall_drop].
Qed.

(** [__fill_random_buf_percentage] ends, writes bytes, and leaves the length alone. *)
Lemma percentage_loop_ok (B : nat) seed p segment pat : (0 < B <= 16)%nat -> 0 <= p <= 100 -> 0 < segment < 2 ^ 32 -> zlength pat < 2 ^ 32 -> bytes pat ->
  forall fuel buf pos len, 0 <= pos -> 0 <= len <= Z.of_nat fuel -> pos + len <= zlength buf -> zlength buf < 2 ^ 32 -> bytes buf ->
  exists r, percentage_loop (Z.of_nat B) fuel seed p segment pat buf pos len = Some r /\ zlength r = zlength buf /\ bytes r.
Proof.
  intros HB Hp Hs Hp32 Hpat. induction fuel as [|fuel IH]; intros buf pos len Hpos Hlen Hl Hb32 Hb; cbn [percentage_loop].
  { assert (len = 0) as -> by lia. by exists buf. }
  destruct (Z.eqb_spec len 0); [by exists buf|].
  assert (exists q, wrap 32 (mulw 64 segment (subw 32 100 p) / 100) = q /\ 0 <= q <= segment) as (q & -> & Hq).
  { unfold subw, mulw. rewrite (wrap_small 32 (100 - p)) by (unfold is_word; lia). rewrite (wrap_small 64) by (unfold is_word; nia).
    assert (0 <= segment * (100 - p) / 100 <= segment) by (split; [apply Z.div_pos; nia|apply Z.div_le_upper_bound; nia]).
    rewrite wrap_small by (unfold is_word; lia). by eexists. }
  set (t := if len <? q then len else q). assert (0 <= t <= len /\ t <= q) as Ht by (unfold t; destruct (Z.ltb_spec len q); lia).
  destruct (memcpy_keeps buf pos (__fill_random_buf (Z.of_nat B) t seed)) as (b1 & -> & Hb1 & Hbb1);
    [lia|rewrite fill_random_buf_length by (done || lia); lia|done|apply fill_random_buf_bytes; done || lia|]. cbn [mbind option_bind].
  destruct (Z.eqb_spec (len - t) 0); [by exists b1|].
  assert (t = q) as -> by (unfold t in *; destruct (Z.ltb_spec len q); lia).
  assert (subw 32 segment q = segment - q) as -> by (apply wrap_small; unfold is_word; lia).
  set (k := if len - q <? segment - q then len - q else if len - q - (segment - q) <=? 8 then len - q else segment - q).
  assert (0 <= k <= len - q /\ (k = len - q \/ k = segment - q)) as Hk.
  { unfold k. destruct (Z.ltb_spec (len - q) (segment - q)); [lia|]. destruct (Z.leb_spec (len - q - (segment - q)) 8); lia. }
  destruct (fill_plain_ok pat b1 (pos + q) k) as (b2 & -> & Hb2 & Hbb2); try done; try lia. cbn [mbind option_bind].
  destruct (IH b2 (pos + q + k) (len - q - k)) as (r & -> & Hr & Hbr); try done; try lia. exists r. split; [done|]. split; [lia|done].
Qed.

Lemma fill_percentage_ok (B : nat) seed p segment len pat buf : (0 < B <= 16)%nat -> 0 <= p <= 100 -> 0 < segment < 2 ^ 32 -> zlength pat < 2 ^ 32 ->
  bytes pat -> 0 < len <= zlength buf -> zlength buf < 2 ^ 32 -> bytes buf ->
  exists r, __fill_random_buf_percentage (Z.of_nat B) seed p segment len pat buf = Some r /\ zlength r = zlength buf /\ bytes r.
Proof.
  intros HB Hp Hs Hp32 Hpat Hl Hb32 Hb. unfold __fill_random_buf_percentage. destruct (p =? 100); [by apply fill_plain_ok; try done; lia|].
  apply percentage_loop_ok; try done; try lia. destruct (Z.ltb_spec len segment); lia.
Qed.

(** C33: Patterns: [cpy_pattern] fills exactly the first [len] bytes of a buffer with the
    pattern over and over; [cmp_pattern], which compares the buffer with itself and with
    the pattern without a loop, returns 0 exactly when every byte is the one that the
    repeated pattern has there, starting at the given phase, and [-EILSEQ] otherwise; so a
    buffer that was filled compares equal from any place on. *)
Theorem pattern_copy_compare pat out len off buf buflen s : 0 < zlength pat < 2 ^ 32 ->
  0 < len <= zlength out -> len < 2 ^ 32 -> 0 <= off < zlength pat -> 0 <= buflen <= zlength buf -> buflen < 2 ^ 32 -> 0 <= s <= len ->
  exists out' r, cpy_pattern pat (zlength pat) out len = Some (0, out') /\
    zlength out' = zlength out /\ at_off out' len = at_off out len /\
    (forall i, 0 <= i < len -> tbl out' i = tbl pat (i mod zlength pat)) /\
    cmp_pattern pat (zlength pat) off buf buflen = Some (if (r : bool) then 0 else - EILSEQ) /\
    (r = true <-> forall i, 0 <= i < buflen -> tbl buf i = tbl pat ((off + i) mod zlength pat)) /\
    cmp_pattern pat (zlength pat) (s mod zlength pat) (at_off out' s) (len - s) = Some 0.
Proof.
  intros Hp Hl Hl32 Hoff Hb Hb32 Hs. destruct (cmp_pattern_spec pat off buf buflen Hoff ltac:(lia) Hb Hb32) as (r & E & Hr).
  exists (pattern_run pat 0 len ++ at_off out len), r. split; [by apply cpy_pattern_spec; lia|].
  split; [rewrite zlength_app, zlength_run, zlength_at_off by lia; lia|]. split.
  { unfold at_off at 1. rewrite drop_app_ge by (rewrite <- zlength_to_nat, zlength_run by lia; lia).
    rewrite <- zlength_to_nat, zlength_run, Nat.sub_diag by lia. done. }
  split; [|split; [done|split; [done|by apply cpy_cmp]]].
  intros i Hi. unfold tbl at 1. rewrite app_nth1 by (rewrite <- zlength_to_nat, zlength_run by lia; lia).
  change (nth (Z.to_nat i) (pattern_run pat 0 len) 0) with (tbl (pattern_run pat 0 len) i). by rewrite tbl_run by lia.
Qed.

Lemma pattern_copy_compare_witness : exists out' r,
  cpy_pattern [1; 2; 3] 3 (replicate 20 0) 17 = Some (0, out') /\ cmp_pattern [1; 2; 3] 3 2 [3; 1; 2; 3; 2] 5 = Some (if (r : bool) then 0 else - EILSEQ) /\
  cmp_pattern [1; 2; 3] 3 (7 mod 3) (at_off out' 7) 10 = Some 0.
Proof.
  destruct (pattern_copy_compare [1; 2; 3] (replicate 20 0) 17 2 [3; 1; 2; 3; 2] 5 7) as (out' & r & H1 & _ & _ & _ & H2 & _ & H3);
    first [lia|vm_compute; split; congruence|idtac].
  exists out', r. split; [exact H1|]. split; [exact H2|exact H3].
Defined.
