(* ===== verification/Verify.v ===== *)
(** verify.c: the headers and checksums that are written into blocks, and their check
    when the blocks are read back. *)
From S2P Require Import Prelude Bits Stream Crc Md5 Sha1 Sha2 Sha256 Sha512 Sha3 Xxhash Hash Rand Pattern.
Local Open Scope word_scope.

(** * Data *)

Inductive verify_t : Type :=
  | VERIFY_NONE | VERIFY_HDR_ONLY | VERIFY_MD5 | VERIFY_CRC64 | VERIFY_CRC32 | VERIFY_CRC32C
  | VERIFY_CRC32C_INTEL | VERIFY_CRC16 | VERIFY_CRC7 | VERIFY_SHA256 | VERIFY_SHA512
  | VERIFY_SHA3_224 | VERIFY_SHA3_256 | VERIFY_SHA3_384 | VERIFY_SHA3_512 | VERIFY_XXHASH
  | VERIFY_SHA1 | VERIFY_PATTERN | VERIFY_PATTERN_NO_HDR | VERIFY_NULL.

#[global] Instance verify_t_eq_dec : EqDecision verify_t.
Proof. solve_decision. Defined.

Definition verify_types : list verify_t := [
  VERIFY_NONE; VERIFY_HDR_ONLY; VERIFY_MD5; VERIFY_CRC64; VERIFY_CRC32; VERIFY_CRC32C;
  VERIFY_CRC32C_INTEL; VERIFY_CRC16; VERIFY_CRC7; VERIFY_SHA256; VERIFY_SHA512;
  VERIFY_SHA3_224; VERIFY_SHA3_256; VERIFY_SHA3_384; VERIFY_SHA3_512; VERIFY_XXHASH;
  VERIFY_SHA1; VERIFY_PATTERN; VERIFY_PATTERN_NO_HDR; VERIFY_NULL].

(** The number of a type, and the type of a number read from a block. *)
Definition verify_code (t : verify_t) : Z :=
  match t with
  | VERIFY_NONE => 0 | VERIFY_HDR_ONLY => 1 | VERIFY_MD5 => 2 | VERIFY_CRC64 => 3 | VERIFY_CRC32 => 4
  | VERIFY_CRC32C => 5 | VERIFY_CRC32C_INTEL => 6 | VERIFY_CRC16 => 7 | VERIFY_CRC7 => 8
  | VERIFY_SHA256 => 9 | VERIFY_SHA512 => 10 | VERIFY_SHA3_224 => 11 | VERIFY_SHA3_256 => 12
  | VERIFY_SHA3_384 => 13 | VERIFY_SHA3_512 => 14 | VERIFY_XXHASH => 15 | VERIFY_SHA1 => 16
  | VERIFY_PATTERN => 17 | VERIFY_PATTERN_NO_HDR => 18 | VERIFY_NULL => 19
  end.

Definition verify_of_code (z : Z) : option verify_t := arr_get verify_types z.

Definition FIO_HDR_MAGIC : Z := 0xacca.

(** [sizeof(struct verify_header)] and the offset of its last field. *)
Definition sizeof_header : Z := 40.
Definition offsetof_crc32 : Z := 36.

Record verify_header : Type := mk_header {
  magic : Z; verify_type : Z; hdr_len : Z; hdr_rand_seed : Z; hdr_offset : Z;
  hdr_time_sec : Z; hdr_time_nsec : Z; hdr_thread : Z; hdr_numberio : Z; hdr_crc32 : Z }.

(** The sizes of the fields; there is no padding between them. *)
Definition header_layout : list nat := [2; 2; 4; 8; 8; 4; 4; 2; 2; 4]%nat.

Definition header_fields (h : verify_header) : list Z :=
  [magic h; verify_type h; hdr_len h; hdr_rand_seed h; hdr_offset h; hdr_time_sec h; hdr_time_nsec h;
   hdr_thread h; hdr_numberio h; hdr_crc32 h].

(** Fields in memory, on a little-endian host. *)
Fixpoint store_fields (ns : list nat) (vs : list Z) : list Z :=
  match ns, vs with n :: ns, v :: vs => le_bytes n v ++ store_fields ns vs | _, _ => [] end.

Fixpoint load_fields (ns : list nat) (buf : list Z) (off : Z) : option (list Z) :=
  match ns with
  | [] => Some []
  | n :: ns =>
      let* d := read_bytes (Z.of_nat n) (at_off buf off) in
      let* vs := load_fields ns buf (off + Z.of_nat n) in
      Some (le_value d :: vs)
  end.

(** The bytes before the checksum. *)
Definition header_bytes (h : verify_header) : list Z := store_fields (take 9 header_layout) (header_fields h).

Definition read_header (buf : list Z) (off : Z) : option verify_header :=
  let* vs := load_fields header_layout buf off in
  match vs with
  | [m; t; l; s; o; ts; tn; th; n; c] => Some (mk_header m t l s o ts tn th n c)
  | _ => None
  end.

(** The unit of I/O, with the contents of its buffer. *)
Record io_u : Type := mk_io_u {
  u_buf : list Z; u_buflen : Z; u_offset : Z; u_verify_offset : Z; u_rand_seed : Z; u_numberio : Z;
  u_time_sec : Z; u_time_nsec : Z; u_filled : Z; u_read : bool; u_trimmed : bool; u_ver_in_dev : bool }.

Definition set_buf (u : io_u) (b : list Z) : io_u :=
  mk_io_u b (u_buflen u) (u_offset u) (u_verify_offset u) (u_rand_seed u) (u_numberio u)
    (u_time_sec u) (u_time_nsec u) (u_filled u) (u_read u) (u_trimmed u) (u_ver_in_dev u).
Definition set_seed (u : io_u) (seed : Z) : io_u :=
  mk_io_u (u_buf u) (u_buflen u) (u_offset u) (u_verify_offset u) seed (u_numberio u)
    (u_time_sec u) (u_time_nsec u) (u_filled u) (u_read u) (u_trimmed u) (u_ver_in_dev u).
Definition set_filled (u : io_u) (len : Z) : io_u :=
  mk_io_u (u_buf u) (u_buflen u) (u_offset u) (u_verify_offset u) (u_rand_seed u) (u_numberio u)
    (u_time_sec u) (u_time_nsec u) len (u_read u) (u_trimmed u) (u_ver_in_dev u).

(** What the code reads of the job. *)
Record thread_data : Type := mk_td {
  verify : verify_t; verify_interval : Z; verify_offset : Z; verify_header_seed : bool;
  verify_write_sequence : bool; verify_fatal : bool; verify_pattern : list Z;
  verify_fmt : list (pattern_fmt io_u); buffer_pattern : list Z; compress_percentage : Z;
  bs_unaligned : bool; trim_zero : bool; time_based : bool; td_write : bool;
  td_min_bs : Z; td_max_bs : Z; fake_io : bool; thread_number : Z; verify_state : frand_state }.

Definition set_verify_state (td : thread_data) (s : frand_state) : thread_data :=
  mk_td (verify td) (verify_interval td) (verify_offset td) (verify_header_seed td) (verify_write_sequence td)
    (verify_fatal td) (verify_pattern td) (verify_fmt td) (buffer_pattern td) (compress_percentage td) (bs_unaligned td)
    (trim_zero td) (time_based td) (td_write td) (td_min_bs td) (td_max_bs td) (fake_io td) (thread_number td) s.
Definition set_pattern (td : thread_data) (p : list Z) : thread_data :=
  mk_td (verify td) (verify_interval td) (verify_offset td) (verify_header_seed td) (verify_write_sequence td)
    (verify_fatal td) p (verify_fmt td) (buffer_pattern td) (compress_percentage td) (bs_unaligned td)
    (trim_zero td) (time_based td) (td_write td) (td_min_bs td) (td_max_bs td) (fake_io td) (thread_number td) (verify_state td).

(** The only format callback: the offset of the unit, little-endian. *)
Definition paste_blockoff (len : Z) (u : io_u) : Z * list Z := (0, take (Z.to_nat (Z.min len 8)) (le_bytes 8 (u_offset u))).

(** * Sizes *)

(** The private part of the header of each type. *)
Definition priv_size (t : verify_t) : Z :=
  match t with
  | VERIFY_NONE | VERIFY_HDR_ONLY | VERIFY_NULL | VERIFY_PATTERN | VERIFY_PATTERN_NO_HDR => 0
  | VERIFY_MD5 => 16
  | VERIFY_CRC64 => 8
  | VERIFY_CRC32C | VERIFY_CRC32 | VERIFY_CRC32C_INTEL => 4
  | VERIFY_CRC16 => 2
  | VERIFY_CRC7 => 1
  | VERIFY_SHA256 => 64
  | VERIFY_SHA512 => 128
  | VERIFY_SHA3_224 => 28
  | VERIFY_SHA3_256 => 32
  | VERIFY_SHA3_384 => 48
  | VERIFY_SHA3_512 => 64
  | VERIFY_XXHASH => 4
  | VERIFY_SHA1 => 20
  end.

Definition __hdr_size (t : verify_t) : Z :=
  match t with VERIFY_PATTERN_NO_HDR => 0 | _ => priv_size t + sizeof_header end.

(** An unknown type in the block fails an assertion. *)
Definition hdr_size (td : thread_data) (h : verify_header) : option Z :=
  match verify td with
  | VERIFY_PATTERN_NO_HDR => Some 0
  | _ => let* t := verify_of_code (verify_type h) in Some (__hdr_size t)
  end.

Definition get_hdr_inc (td : thread_data) (u : io_u) : Z :=
  if c_true (verify_interval td) && (verify_interval td <=? u_buflen u) && negb (bs_unaligned td)
  then verify_interval td else wrap 32 (u_buflen u).

(** Two areas of one buffer; overlapping copies are undefined. *)
Definition memswp (buf : list Z) (off1 off2 len : Z) : option (list Z) :=
  let* _ := c_assert (len <=? 200) in
  let* _ := c_assert ((len =? 0) || (off1 + len <=? off2) || (off2 + len <=? off1)) in
  let* d1 := read_bytes len (at_off buf off1) in
  let* d2 := read_bytes len (at_off buf off2) in
  let* buf := memcpy buf off1 d2 in
  memcpy buf off2 d1.

(** * Checksums

    [fill_x data] are the bytes of the private part for [data]; SHA-256 and SHA-512 work in
    the private part itself, whose old contents are an argument. *)

Definition fill_xxhash (data : list Z) : option (list Z) :=
  let* st := XXH32_update (XXH32_init 1) data in
  let* h := XXH32_digest st in Some (le_bytes 4 h).

Definition fill_sha3 (ctx : fio_sha3_ctx) (data : list Z) : option (list Z) :=
  let* ctx := fio_sha3_update ctx data in fio_sha3_final ctx.

Definition fill_sha3_224 (data : list Z) : option (list Z) := fill_sha3 fio_sha3_224_init data.
Definition fill_sha3_256 (data : list Z) : option (list Z) := fill_sha3 fio_sha3_256_init data.
Definition fill_sha3_384 (data : list Z) : option (list Z) := fill_sha3 fio_sha3_384_init data.
Definition fill_sha3_512 (data : list Z) : option (list Z) := fill_sha3 fio_sha3_512_init data.

Definition fill_sha512 (old data : list Z) : option (list Z) :=
  let* ctx := fio_sha512_update (fio_sha512_init (Sha512.mk_sha512 [] [] old (replicate 80 0))) data in fio_sha512_final ctx.

Definition fill_sha256 (old data : list Z) : option (list Z) :=
  let* ctx := fio_sha256_update (fio_sha256_init (Sha256.mk_sha256 0 [] old)) data in fio_sha256_final ctx.

Definition fill_sha1 (data : list Z) : option (list Z) :=
  let* ctx := fio_sha1_update sha1_start data in
  let* h := fio_sha1_final ctx in Some (concat (le_bytes 4 <$> h)).

Definition fill_crc7 (data : list Z) : list Z := le_bytes 1 (fio_crc7 data).
Definition fill_crc16 (data : list Z) : list Z := le_bytes 2 (fio_crc16 data).
Definition fill_crc32 (data : list Z) : list Z := le_bytes 4 (fio_crc32 data).
Definition fill_crc32c (data : list Z) : list Z := le_bytes 4 (crc32c_sw data).
Definition fill_crc64 (data : list Z) : list Z := le_bytes 8 (fio_crc64 data).

Definition fill_md5 (data : list Z) : option (list Z) :=
  let* ctx := fio_md5_update md5_start data in
  let* h := fio_md5_final ctx in Some (concat (le_bytes 4 <$> h)).

(** The switch of [populate_hdr]: no bytes for the types that have nothing to fill, a
    failed assertion for the rest. *)
Definition fill_sum (t : verify_t) (old data : list Z) : option (list Z) :=
  match t with
  | VERIFY_MD5 => fill_md5 data
  | VERIFY_CRC64 => Some (fill_crc64 data)
  | VERIFY_CRC32C | VERIFY_CRC32C_INTEL => Some (fill_crc32c data)
  | VERIFY_CRC32 => Some (fill_crc32 data)
  | VERIFY_CRC16 => Some (fill_crc16 data)
  | VERIFY_CRC7 => Some (fill_crc7 data)
  | VERIFY_SHA256 => fill_sha256 old data
  | VERIFY_SHA512 => fill_sha512 old data
  | VERIFY_SHA3_224 => fill_sha3_224 data
  | VERIFY_SHA3_256 => fill_sha3_256 data
  | VERIFY_SHA3_384 => fill_sha3_384 data
  | VERIFY_SHA3_512 => fill_sha3_512 data
  | VERIFY_XXHASH => fill_xxhash data
  | VERIFY_SHA1 => fill_sha1 data
  | VERIFY_HDR_ONLY | VERIFY_PATTERN | VERIFY_PATTERN_NO_HDR => Some []
  | VERIFY_NONE | VERIFY_NULL => None
  end.

(** * Writing *)

Section Verify.

(** [CONFIG_SEED_BUCKETS], and the contents of the arrays on the stack of the functions
    that check SHA-256 and SHA-512. *)
Variable buckets : Z.
Variables stack256 stack512 : list Z.

Definition __fill_buffer (td : thread_data) (seed : Z) (p : list Z) (len : Z) : option (list Z) :=
  __fill_random_buf_percentage buckets seed (compress_percentage td) len len (buffer_pattern td) p.

Definition fill_verify_pattern (td : thread_data) (u : io_u) (len : Z) (seed : Z) (use_seed : bool) : option (thread_data * io_u) :=
  if zlength (verify_pattern td) =? 0 then
    let '(seed, td) :=
      if use_seed then (seed, td) else
      let '(r, s) := __rand (verify_state td) in
      let '(r', s) := __rand s in
      (mulw 64 r r', set_verify_state td s) in
    let u := set_seed u seed in
    let* b := __fill_buffer td seed (u_buf u) len in
    Some (td, set_buf u b)
  else if (zlength (verify_fmt td) =? 0) && (len <=? u_filled u) then Some (td, u)
  else
    let* '(_, b) := paste_format (verify_pattern td) (zlength (verify_pattern td)) (verify_fmt td) (u_buf u) len u in
    Some (td, set_filled (set_buf u b) len).

Definition __fill_hdr (td : thread_data) (u : io_u) (buf : list Z) (off header_num header_len rand_seed : Z) : option (list Z) :=
  let h := mk_header FIO_HDR_MAGIC (verify_code (verify td)) header_len rand_seed
    (addw 64 (u_verify_offset u) (mulw 32 header_num (verify_interval td)))
    (u_time_sec u) (u_time_nsec u) (thread_number td) (u_numberio u) 0 in
  let b := header_bytes h in
  memcpy buf off (b ++ le_bytes 4 (crc32c_sw b)).

Definition fill_hdr (td : thread_data) (u : io_u) (buf : list Z) (off header_num header_len rand_seed : Z) : option (list Z) :=
  match verify td with
  | VERIFY_PATTERN_NO_HDR => Some buf
  | _ => __fill_hdr td u buf off header_num header_len rand_seed
  end.

(** [hdr_size] of the header at [off]; it is not read for a type without header. *)
Definition hdr_size_at (td : thread_data) (buf : list Z) (off : Z) : option Z :=
  match verify td with
  | VERIFY_PATTERN_NO_HDR => Some 0
  | _ => let* h := read_header buf off in hdr_size td h
  end.

(** The header at [off] of the buffer; the flag is the error "Blocksize too small". *)
Definition populate_hdr (td : thread_data) (u : io_u) (buf : list Z) (off header_num header_len : Z) : option (bool * list Z) :=
  let* buf := fill_hdr td u buf off header_num header_len (u_rand_seed u) in
  let* size := hdr_size_at td buf off in
  if header_len <=? size then Some (true, buf) else
  let* data := read_bytes (header_len - size) (at_off buf (off + size)) in
  let* old := (if priv_size (verify td) =? 0 then Some [] else read_bytes (priv_size (verify td)) (at_off buf (off + sizeof_header))) in
  let* sum := fill_sum (verify td) old data in
  let* buf := (if zlength sum =? 0 then Some buf else memcpy buf (off + sizeof_header) sum) in
  if c_true (verify_offset td) && c_true size then
    let* buf := memswp buf off (off + verify_offset td) size in Some (false, buf)
  else Some (false, buf).

(** [for (; p < io_u->buf + io_u->buflen; p += hdr_inc)] *)
Fixpoint populate_loop (fuel : nat) (td : thread_data) (u : io_u) (buf : list Z) (p header_num hdr_inc : Z) : option (bool * list Z) :=
  if u_buflen u <=? p then Some (false, buf) else
  match fuel with
  | O => None
  | S fuel =>
      let* '(err, buf) := populate_hdr td u buf p header_num hdr_inc in
      let* '(errs, buf) := populate_loop fuel td u buf (p + hdr_inc) (addw 32 header_num 1) hdr_inc in
      Some (err || errs, buf)
  end.

Definition fill_pattern_headers (td : thread_data) (u : io_u) (seed : Z) (use_seed : bool) : option (bool * thread_data * io_u) :=
  let* '(td, u) := fill_verify_pattern td u (wrap 32 (u_buflen u)) seed use_seed in
  let* '(err, b) := populate_loop (Z.to_nat (u_buflen u)) td u (u_buf u) 0 0 (get_hdr_inc td u) in
  Some (err, td, set_buf u b).

Definition populate_verify_io_u (td : thread_data) (u : io_u) : option (bool * thread_data * io_u) :=
  match verify td with
  | VERIFY_NULL => Some (false, td, u)
  | _ => fill_pattern_headers td u 0 false
  end.

(** * Checking

    Each check returns 0 or [EILSEQ]; what it logs and dumps is left out.  [off] is where
    the header is, [num] its number. *)

Definition result (good : bool) : Z := if good then 0 else EILSEQ.

(** The data of header [num], [hdr->len - hdr_size] bytes at [io_u_verify_off]. *)
Definition io_u_verify_off (td : thread_data) (buf : list Z) (h : verify_header) (num : Z) : option (list Z) :=
  let* size := hdr_size td h in
  read_bytes (subw 32 (hdr_len h) size) (at_off buf (mulw 32 num (hdr_len h) + size)).

(** The private part of the header at [off]. *)
Definition hdr_priv (buf : list Z) (off n : Z) : option (list Z) := read_bytes n (at_off buf (off + sizeof_header)).

(** A comparison of [n] stored bytes with a sum of the data. *)
Definition verify_sum (sum : list Z -> option (list Z)) (n : Z) (td : thread_data) (buf : list Z) (h : verify_header) (off num : Z) : option Z :=
  let* p := io_u_verify_off td buf h num in
  let* vh := hdr_priv buf off n in
  let* c := sum p in
  Some (result (bool_decide (vh = c))).

Definition verify_io_u_xxhash : thread_data -> list Z -> verify_header -> Z -> Z -> option Z := verify_sum fill_xxhash 4.
Definition verify_io_u_sha3_224 : thread_data -> list Z -> verify_header -> Z -> Z -> option Z := verify_sum (fill_sha3 fio_sha3_224_init) 28.
Definition verify_io_u_sha3_256 : thread_data -> list Z -> verify_header -> Z -> Z -> option Z := verify_sum (fill_sha3 fio_sha3_256_init) 32.
Definition verify_io_u_sha3_384 : thread_data -> list Z -> verify_header -> Z -> Z -> option Z := verify_sum (fill_sha3 fio_sha3_384_init) 48.
Definition verify_io_u_sha3_512 : thread_data -> list Z -> verify_header -> Z -> Z -> option Z := verify_sum (fill_sha3 fio_sha3_512_init) 64.
Definition verify_io_u_sha512 : thread_data -> list Z -> verify_header -> Z -> Z -> option Z := verify_sum (fill_sha512 stack512) 128.
Definition verify_io_u_sha256 : thread_data -> list Z -> verify_header -> Z -> Z -> option Z := verify_sum (fill_sha256 stack256) 64.
Definition verify_io_u_sha1 : thread_data -> list Z -> verify_header -> Z -> Z -> option Z := verify_sum fill_sha1 20.
Definition verify_io_u_crc7 : thread_data -> list Z -> verify_header -> Z -> Z -> option Z := verify_sum (fun p => Some (le_bytes 1 (fio_crc7 p))) 1.
Definition verify_io_u_crc16 : thread_data -> list Z -> verify_header -> Z -> Z -> option Z := verify_sum (fun p => Some (le_bytes 2 (fio_crc16 p))) 2.
Definition verify_io_u_crc64 : thread_data -> list Z -> verify_header -> Z -> Z -> option Z := verify_sum (fun p => Some (le_bytes 8 (fio_crc64 p))) 8.
Definition verify_io_u_crc32 : thread_data -> list Z -> verify_header -> Z -> Z -> option Z := verify_sum (fun p => Some (le_bytes 4 (fio_crc32 p))) 4.
Definition verify_io_u_crc32c : thread_data -> list Z -> verify_header -> Z -> Z -> option Z := verify_sum (fun p => Some (le_bytes 4 (crc32c_sw p))) 4.
Definition verify_io_u_md5 : thread_data -> list Z -> verify_header -> Z -> Z -> option Z := verify_sum fill_md5 16.

(** The pattern is patched with the formats in place.  The slow path finds the byte that
    made [cmp_pattern] fail and returns [EILSEQ]; not finding it would be an assertion. *)
Definition verify_io_u_pattern (td : thread_data) (u : io_u) (buf : list Z) (off num : Z) : option (Z * thread_data) :=
  let header_size := __hdr_size (verify td) in
  let size := zlength (verify_pattern td) in
  let* _ := c_assert (c_true size) in
  let* '(_, pattern) := paste_format_inplace (verify_pattern td) size (verify_fmt td) u in
  let inc := get_hdr_inc td u in
  let len := subw 32 inc header_size in
  let mod0 := addw 32 (mulw 32 inc num) header_size mod size in
  let* rc := cmp_pattern pattern size mod0 (at_off buf (off + header_size)) len in
  Some (if rc =? 0 then 0 else EILSEQ, set_pattern td pattern).

(** Sixteen bytes one by one, then the buffer against itself. *)
Definition mem_is_zero (buf : list Z) (len : Z) : option bool :=
  let* first := read_bytes (Z.min 16 len) buf in
  if negb (forallb (Z.eqb 0) first) then Some false
  else if len <? 16 then Some true
  else memcmp_eq buf (at_off buf 16) (len - 16).

Definition verify_trimmed_io_u (td : thread_data) (u : io_u) : option Z :=
  if negb (trim_zero td) then Some 0 else
  let* zero := mem_is_zero (u_buf u) (u_buflen u) in Some (result zero).

Definition verify_header_ok (td : thread_data) (u : io_u) (buf : list Z) (off : Z) (h : verify_header) (num len : Z) : option bool :=
  let* d := read_bytes offsetof_crc32 (at_off buf off) in
  Some ((magic h =? FIO_HDR_MAGIC) && (hdr_len h =? len) &&
    negb (verify_header_seed td && negb (hdr_rand_seed h =? u_rand_seed u)) &&
    (hdr_offset h =? addw 64 (u_verify_offset u) (mulw 32 num (verify_interval td))) &&
    negb (td_write td && (td_min_bs td =? td_max_bs td) && negb (time_based td) && verify_write_sequence td &&
          negb (hdr_numberio h =? u_numberio u)) &&
    (crc32c_sw d =? hdr_crc32 h)).

(** The switch of [verify_io_u] on a type; [err] is what [ret] holds before. *)
Definition verify_switch (t : verify_t) (td : thread_data) (u : io_u) (buf : list Z) (h : verify_header) (off num err : Z) : option (Z * thread_data) :=
  let sum v := let* ret := v td buf h off num in Some (ret, td) in
  match t with
  | VERIFY_HDR_ONLY => if zlength (verify_pattern td) =? 0 then Some (err, td) else verify_io_u_pattern td u buf off num
  | VERIFY_MD5 => sum verify_io_u_md5
  | VERIFY_CRC64 => sum verify_io_u_crc64
  | VERIFY_CRC32C | VERIFY_CRC32C_INTEL => sum verify_io_u_crc32c
  | VERIFY_CRC32 => sum verify_io_u_crc32
  | VERIFY_CRC16 => sum verify_io_u_crc16
  | VERIFY_CRC7 => sum verify_io_u_crc7
  | VERIFY_SHA256 => sum verify_io_u_sha256
  | VERIFY_SHA512 => sum verify_io_u_sha512
  | VERIFY_SHA3_224 => sum verify_io_u_sha3_224
  | VERIFY_SHA3_256 => sum verify_io_u_sha3_256
  | VERIFY_SHA3_384 => sum verify_io_u_sha3_384
  | VERIFY_SHA3_512 => sum verify_io_u_sha3_512
  | VERIFY_XXHASH => sum verify_io_u_xxhash
  | VERIFY_SHA1 => sum verify_io_u_sha1
  | VERIFY_PATTERN | VERIFY_PATTERN_NO_HDR => verify_io_u_pattern td u buf off num
  | VERIFY_NONE | VERIFY_NULL => Some (EINVAL, td)
  end.

(** One turn of the loop: [inl] is the [return] after a bad header. *)
Definition verify_turn (td : thread_data) (u : io_u) (buf : list Z) (p num hdr_inc : Z) (ret : Z) : option ((Z + Z) * thread_data * list Z) :=
  let header_size := __hdr_size (verify td) in
  let* buf := (if c_true (verify_offset td) then memswp buf p (p + verify_offset td) header_size else Some buf) in
  let* h := (match verify td with
             | VERIFY_PATTERN_NO_HDR => Some (mk_header 0 0 0 0 0 0 0 0 0 0)
             | _ => read_header buf p end) in
  let* good := (match verify td with VERIFY_PATTERN_NO_HDR => Some true | _ => verify_header_ok td u buf p h num hdr_inc end) in
  if negb good then Some (inl EILSEQ, td, buf) else
  let ret := match verify td with VERIFY_PATTERN_NO_HDR => ret | _ => 0 end in
  match (match verify td with VERIFY_NONE => verify_of_code (verify_type h) | t => Some t end) with
  | None => Some (inr EINVAL, td, buf)
  | Some t => let* '(ret, td) := verify_switch t td u buf h p num ret in Some (inr ret, td, buf)
  end.

(** The loop; the flag says that a failure ends the job. *)
Fixpoint verify_loop (fuel : nat) (td : thread_data) (u : io_u) (buf : list Z) (p num hdr_inc ret : Z) : option (Z * bool * thread_data * list Z) :=
  let don := Some (ret, c_true ret && verify_fatal td, td, buf) in
  if u_buflen u <=? p then don
  else if c_true ret && verify_fatal td then don
  else
    match fuel with
    | O => None
    | S fuel =>
        let* '(r, td, buf) := verify_turn td u buf p num hdr_inc ret in
        match r with
        | inl ret => Some (ret, false, td, buf)
        | inr ret => verify_loop fuel td u buf (p + hdr_inc) (addw 32 num 1) hdr_inc ret
        end
    end.

(** The status and whether the job is ended. *)
Definition verify_io_u (td : thread_data) (u : io_u) : option (Z * bool * thread_data * io_u) :=
  if bool_decide (verify td = VERIFY_NULL) || negb (u_read u) then Some (0, false, td, u)
  else if fake_io td || u_ver_in_dev u then Some (0, false, td, u)
  else if u_trimmed u then
    let* ret := verify_trimmed_io_u td u in Some (ret, c_true ret && verify_fatal td, td, u)
  else
    let* '(ret, ended, td, b) := verify_loop (Z.to_nat (u_buflen u)) td u (u_buf u) 0 0 (get_hdr_inc td u) 0 in
    Some (ret, ended, td, set_buf u b).
End Verify.

(** * Proofs *)

(** ** A chunk of a buffer *)

(** Bytes [x] to [x + n] of [c]. *)
Definition slice (c : list Z) (x n : Z) : list Z := take (Z.to_nat n) (at_off c x).

Lemma read_chunk A c B x n : 0 <= x -> 0 <= n -> x + n <= zlength c ->
  read_bytes n (at_off (A ++ c ++ B) (zlength A + x)) = Some (slice c x n).
Proof.
  intros Hx Hn Hxn. unfold at_off, slice, at_off. unfold zlength in *.
  replace (Z.to_nat (Z.of_nat (length A) + x)) with (length A + Z.to_nat x)%nat by lia.
  rewrite drop_app_add, drop_app_le by lia. rewrite read_bytes_Some.
  - by rewrite take_app_le by (rewrite length_drop; lia).
  - unfold zlength. rewrite length_app, length_drop. lia.
Qed.

Lemma write_chunk A c1 d0 c2 B x d : zlength c1 = x -> length d0 = length d ->
  memcpy (A ++ (c1 ++ d0 ++ c2) ++ B) (zlength A + x) d = Some (A ++ (c1 ++ d ++ c2) ++ B).
Proof.
  intros Hx Hd. unfold zlength in *. rewrite memcpy_Some; unfold zlength; rewrite ?length_app; try lia.
  replace (Z.to_nat (Z.of_nat (length A) + x)) with (length (A ++ c1)) by (rewrite length_app; lia).
  replace (A ++ (c1 ++ d0 ++ c2) ++ B) with ((A ++ c1) ++ d0 ++ c2 ++ B) by (rewrite <- !app_assoc; done).
  rewrite take_app_length, drop_app_add, <- Hd, drop_app_length. by rewrite <- !app_assoc.
Qed.

Lemma slice_mid c1 d c2 x n : zlength c1 = x -> zlength d = n -> slice (c1 ++ d ++ c2) x n = d.
Proof.
  intros <- <-. unfold slice, at_off. rewrite !zlength_to_nat, drop_app_length. apply take_app_length.
Qed.

Lemma slice_first d c2 n : zlength d = n -> slice (d ++ c2) 0 n = d.
Proof. intros Hn. by apply (slice_mid [] d c2 0 n). Qed.

Lemma at_off_app X R n : zlength X = n -> at_off (X ++ R) n = R.
Proof. intros <-. unfold at_off. rewrite zlength_to_nat. apply drop_app_length. Qed.

(** A chunk cut in two. *)
Lemma chunk_split (c : list Z) x : 0 <= x <= zlength c -> exists c1 c2, c = c1 ++ c2 /\ zlength c1 = x /\ zlength c2 = zlength c - x.
Proof.
  intros Hx. exists (take (Z.to_nat x) c), (drop (Z.to_nat x) c). unfold zlength in *. rewrite length_take, length_drop, take_drop. split; [done|lia].
Qed.

(** The swap moves the first [n] bytes to [vo] and back. *)
Inductive swapped (vo n : Z) : list Z -> list Z -> Prop :=
  | swap_none c : vo = 0 \/ n = 0 -> swapped vo n c c
  | swap_parts X Y V W : vo <> 0 -> zlength X = n -> zlength Y = vo - n -> zlength V = n -> swapped vo n (X ++ Y ++ V ++ W) (V ++ Y ++ X ++ W).

Lemma swapped_sym vo n c d : swapped vo n c d -> swapped vo n d c.
Proof. intros []; by constructor. Qed.

Lemma swapped_length vo n c d : swapped vo n c d -> zlength d = zlength c.
Proof. intros []; [done|]. rewrite !zlength_app. lia. Qed.

Lemma swapped_exists vo n c : 0 <= n -> vo = 0 \/ (n <= vo /\ vo + n <= zlength c) -> exists d, swapped vo n c d.
Proof.
  intros Hn [->|[H1 H2]]; [exists c; constructor; by left|]. destruct (Z.eq_dec n 0) as [->|]; [exists c; constructor; by right|].
  destruct (chunk_split c n ltac:(lia)) as (X & R & -> & HX & HR). destruct (chunk_split R (vo - n) ltac:(lia)) as (Y & R2 & -> & HY & HR2).
  destruct (chunk_split R2 n ltac:(rewrite !zlength_app in *; lia)) as (V & W & -> & HV & HW). exists (V ++ Y ++ X ++ W). constructor; lia || done.
Qed.

Lemma memswp_chunk A c B vo n d : 0 <= n <= 200 -> vo <> 0 -> n <> 0 -> swapped vo n c d ->
  memswp (A ++ c ++ B) (zlength A) (zlength A + vo) n = Some (A ++ d ++ B).
Proof.
  intros Hn Hvo Hn0 []; [lia|]. unfold memswp, c_assert.
  assert (0 <= zlength Y) by (unfold zlength; lia). destruct (Z.leb_spec n 200); [|lia]. destruct (Z.leb_spec (zlength A + n) (zlength A + vo)); [|lia].
  rewrite orb_true_r. cbn [orb mbind option_bind]. set (ch := X ++ Y ++ V ++ W).
  assert (zlength ch = zlength X + zlength Y + zlength V + zlength W) as Hc by (unfold ch; rewrite !zlength_app; lia).
  assert (0 <= zlength W) by (unfold zlength; lia).
  assert (read_bytes n (at_off (A ++ ch ++ B) (zlength A)) = Some X) as ->.
  { rewrite <- (Z.add_0_r (zlength A)), read_chunk by lia. f_equal. by apply (slice_mid [] X). }
  assert (read_bytes n (at_off (A ++ ch ++ B) (zlength A + vo)) = Some V) as ->.
  { rewrite read_chunk by lia. f_equal. unfold ch. rewrite (app_assoc X Y). apply slice_mid; [rewrite zlength_app; lia|done]. }
  cbn [mbind option_bind].
  assert (memcpy (A ++ ch ++ B) (zlength A) V = Some (A ++ (V ++ Y ++ V ++ W) ++ B)) as ->.
  { rewrite <- (Z.add_0_r (zlength A)). apply (write_chunk A [] X (Y ++ V ++ W) B 0 V); [done|unfold zlength in *; lia]. }
  cbn [mbind option_bind]. rewrite (app_assoc V Y (V ++ W)), (app_assoc V Y (X ++ W)).
  apply (write_chunk A (V ++ Y) V W B vo X); [rewrite zlength_app; lia|unfold zlength in *; lia].
Qed.

(** ** The header *)

Definition fields_fit (ns : list nat) (vs : list Z) : Prop := Forall2 (fun n v => is_word (8 * Z.of_nat n) v) ns vs.

Lemma load_store_fields ns vs : fields_fit ns vs -> forall A B, load_fields ns (A ++ store_fields ns vs ++ B) (zlength A) = Some vs.
Proof.
  induction 1 as [|n v ns vs Hv _ IH]; intros A B; [done|]. cbn [load_fields store_fields].
  assert (zlength (le_bytes n v) = Z.of_nat n) as Hl by (unfold zlength; by rewrite le_bytes_length).
  assert (read_bytes (Z.of_nat n) (at_off (A ++ (le_bytes n v ++ store_fields ns vs) ++ B) (zlength A)) = Some (le_bytes n v)) as ->.
  { rewrite <- (Z.add_0_r (zlength A)), read_chunk by (rewrite ?zlength_app; unfold zlength in *; lia). f_equal. by apply (slice_mid [] (le_bytes n v)). }
  cbn [mbind option_bind]. rewrite le_value_bytes, Z.mod_small by exact Hv.
  rewrite <- (app_assoc (le_bytes n v)), (app_assoc A). replace (zlength A + Z.of_nat n) with (zlength (A ++ le_bytes n v)) by (rewrite zlength_app; lia). by rewrite IH.
Qed.

Lemma header_length h : length (header_bytes h) = 36%nat.
Proof. unfold header_bytes. cbn [header_layout take header_fields store_fields]. by rewrite !length_app, !le_bytes_length. Qed.

Definition header_ok (h : verify_header) : Prop := fields_fit header_layout (header_fields h).

Lemma read_header_spec A h B : header_ok h -> read_header (A ++ (header_bytes h ++ le_bytes 4 (hdr_crc32 h)) ++ B) (zlength A) = Some h.
Proof.
  intros Hok. unfold read_header.
  assert (header_bytes h ++ le_bytes 4 (hdr_crc32 h) = store_fields header_layout (header_fields h)) as ->.
  { unfold header_bytes. cbn [header_layout take header_fields store_fields]. by rewrite <- !app_assoc, !app_nil_r. }
  rewrite load_store_fields by exact Hok. by destruct h.
Qed.

(** ** Sums *)

Lemma digest_one `{Digest ctx out} d : bytes d -> d_piece d -> zlength d < d_limit ->
  (let* c := d_update d_init d in d_final c) = Some (reference d).
Proof.
  intros Hb Hp Hl. pose proof (digest_pieces [d]) as Hd. cbn [feed concat] in Hd. rewrite app_nil_r in Hd.
  rewrite <- Hd by (repeat constructor; done). by destruct (d_update d_init d).
Qed.

Lemma fill_sha256_spec old d : zlength old = 64 -> bytes d -> zlength d < 2 ^ 29 -> fill_sha256 old d = Some (sha256_reference d).
Proof.
  intros Ho Hb Hl. unfold fill_sha256.
  assert (sha256_represents [] (fio_sha256_init (Sha256.mk_sha256 0 [] old))) as Hr.
  { split; [|done]. apply (buffered_init 64); [lia|]. cbn [Sha256.buf fio_sha256_init]. unfold zlength in Ho. lia. }
  destruct (sha256_update_spec [] _ d Hr) as (c & -> & Hc & _); [unfold zlength in *; lia|]. cbn [mbind option_bind].
  apply sha256_final_spec; [exact Hc|]. cbn [app]. unfold zlength in *. lia.
Qed.

Lemma fill_sha512_spec old d : zlength old = 128 -> bytes d -> zlength d < 2 ^ 29 -> fill_sha512 old d = Some (sha512_reference d).
Proof.
  intros Ho Hb Hl. unfold fill_sha512.
  assert (sha512_represents [] (fio_sha512_init (Sha512.mk_sha512 [] [] old (replicate 80 0)))) as Hr.
  { split; [|split; [|reflexivity]].
    - apply (buffered_init 128); [lia|]. cbn [Sha512.buf fio_sha512_init]. unfold zlength in Ho. lia.
    - split; [reflexivity|]. split; [|reflexivity]. cbn [Sha512.count fio_sha512_init]. repeat apply Forall_cons_2; try apply Forall_nil_2; unfold is_word; lia. }
  destruct (sha512_update_spec [] _ d Hr) as (c & -> & Hc & _); [unfold zlength in *; lia|cbn [app]; unfold zlength in *; lia|]. cbn [mbind option_bind].
  apply sha512_final_spec; [exact Hc|]. cbn [app]. unfold zlength in *. lia.
Qed.

Lemma memcpy_zlength dst off src r : memcpy dst off src = Some r -> zlength r = zlength dst.
Proof. intros E%memcpy_length. unfold zlength. lia. Qed.

(** The lengths of the digests. *)
Lemma fold_fixed_length {B} (f : list Z -> B -> list Z) n : (forall l b, length (f l b) = n) ->
  forall bs c, length c = n -> length (fold_left f bs c) = n.
Proof. intros. by apply fold_left_length. Qed.

Lemma length_concat_fixed (f : Z -> list Z) k l : (forall x, length (f x) = k) -> length (concat (f <$> l)) = (length l * k)%nat.
Proof. intros Hf. induction l as [|x l IH]; [done|]. cbn [fmap list_fmap concat length]. rewrite length_app, Hf, IH. lia. Qed.

Lemma md5_reference_length m : length (md5_reference m) = 4%nat.
Proof. apply fold_left_length; [|done]. intros l b. unfold rfc_compress. by destruct (fold_left _ _ _) as [[[? ?] ?] ?]. Qed.

Lemma sha1_reference_length m : length (sha1_reference m) = 5%nat.
Proof. by apply fold_left_length. Qed.

Lemma sha256_hash_length enc m : length (sha256_hash enc m) = 8%nat.
Proof. apply fold_left_length; [|done]. intros l b. unfold sha256_compress, Sha2.fips_compress. reflexivity. Qed.

Lemma last_block_length B enc m : (0 < B)%nat -> (length enc < B)%nat -> length (last_block B (md_pad B enc m)) = B.
Proof.
  intros HB He. unfold last_block. rewrite length_drop. destruct (length_md_pad B enc m HB He) as [k Hk].
  assert (0 < length (md_pad B enc m))%nat by (unfold md_pad; rewrite !length_app; cbn [length]; lia). rewrite Hk in *.
  destruct k as [|k]; lia.
Qed.

Lemma sha256_reference_length m : length (sha256_reference m) = 64%nat.
Proof.
  unfold sha256_reference. rewrite length_app, length_fmap, sha256_hash_length, length_drop, last_block_length by (rewrite ?le_bytes_length; lia). done.
Qed.

Lemma sha512_reference_length m : length (sha512_reference m) = 128%nat.
Proof.
  unfold sha512_reference, sha512_standard. rewrite length_app, (length_concat_fixed _ 8) by apply be_bytes_length.
  assert (length (sha512_hash m) = 8%nat) as -> by (apply fold_left_length; [intros l b; reflexivity|done]).
  rewrite length_drop, last_block_length by (rewrite ?be_bytes_length; lia). done.
Qed.

Lemma sha3_reference_length z m : length (sha3_reference (digest_size z) m) = digest_size z.
Proof.
  unfold sha3_reference. rewrite length_take, (length_concat_fixed _ 8) by apply le_bytes_length.
  rewrite (fold_left_length _ 25) by done. by destruct z.
Qed.

(** The sum of every type that has one is defined, of the right size, and does not depend
    on the old contents of the private part. *)
Lemma fill_sum_ok t d : t <> VERIFY_NONE -> t <> VERIFY_NULL -> bytes d -> zlength d < 2 ^ 29 ->
  exists r, (forall old, zlength old = priv_size t -> fill_sum t old d = Some r) /\ zlength r = priv_size t.
Proof.
  intros H1 H2 Hb Hl.
  assert (forall z, fill_sha3 (sha3_start z) d = Some (sha3_reference (digest_size z) d)) as H3.
  { intros z. pose proof (@digest_one _ _ (sha3_digest z) d Hb) as H. cbn in H. apply H; lia. }
  destruct t; try done; cbn [fill_sum priv_size];
    try (eexists; split; [intros old Ho; reflexivity|unfold zlength; by rewrite ?le_bytes_length]).
  - pose proof (@digest_one _ _ md5_digest d Hb) as H. cbn in H. unfold fill_md5. exists (concat (le_bytes 4 <$> md5_reference d)). split.
    + intros old _. specialize (H ltac:(lia) ltac:(lia)). destruct (fio_md5_update md5_start d); [|done]. cbn [mbind option_bind] in *. by rewrite H.
    + unfold zlength. rewrite (length_concat_fixed _ 4), md5_reference_length by apply le_bytes_length. done.
  - exists (sha256_reference d). split; [intros old Ho; by apply fill_sha256_spec|unfold zlength; by rewrite sha256_reference_length].
  - exists (sha512_reference d). split; [intros old Ho; by apply fill_sha512_spec|unfold zlength; by rewrite sha512_reference_length].
  - exists (sha3_reference 28 d). split; [intros old _; apply (H3 SHA3_224)|unfold zlength; by rewrite (sha3_reference_length SHA3_224)].
  - exists (sha3_reference 32 d). split; [intros old _; apply (H3 SHA3_256)|unfold zlength; by rewrite (sha3_reference_length SHA3_256)].
  - exists (sha3_reference 48 d). split; [intros old _; apply (H3 SHA3_384)|unfold zlength; by rewrite (sha3_reference_length SHA3_384)].
  - exists (sha3_reference 64 d). split; [intros old _; apply (H3 Sha3.SHA3_512)|unfold zlength; by rewrite (sha3_reference_length Sha3.SHA3_512)].
  - pose proof (@digest_one _ _ (xxh_digest 1) d Hb) as H. cbn in H. unfold fill_xxhash. exists (le_bytes 4 (xxh_reference 1 d)). split.
    + intros old _. specialize (H ltac:(lia) ltac:(lia)). destruct (XXH32_update (XXH32_init 1) d); [|done]. cbn [mbind option_bind] in *. by rewrite H.
    + unfold zlength. by rewrite le_bytes_length.
  - pose proof (@digest_one _ _ sha1_digest d Hb) as H. cbn in H. unfold fill_sha1. exists (concat (le_bytes 4 <$> sha1_reference d)). split.
    + intros old _. specialize (H ltac:(lia) ltac:(lia)). destruct (fio_sha1_update sha1_start d); [|done]. cbn [mbind option_bind] in *. by rewrite H.
    + unfold zlength. rewrite (length_concat_fixed _ 4), sha1_reference_length by apply le_bytes_length. done.
Qed.

(** ** Headers of chunks *)

(** The header of chunk [num], as it is read back. *)
Definition chunk_header (td : thread_data) (u : io_u) (num inc : Z) : verify_header :=
  let h c := mk_header FIO_HDR_MAGIC (verify_code (verify td)) inc (u_rand_seed u)
    (addw 64 (u_verify_offset u) (mulw 32 num (verify_interval td)))
    (wrap 32 (u_time_sec u)) (wrap 32 (u_time_nsec u)) (wrap 16 (thread_number td)) (u_numberio u) c in
  h (crc32c_sw (header_bytes (h 0))).

Definition header_image (h : verify_header) : list Z := header_bytes h ++ le_bytes 4 (hdr_crc32 h).

Lemma header_image_length h : zlength (header_image h) = 40.
Proof. unfold header_image, zlength. by rewrite length_app, header_length, le_bytes_length. Qed.

(** What the types of the fields of a unit promise. *)
Definition unit_ok (u : io_u) : Prop := is_word 64 (u_rand_seed u) /\ is_word 16 (u_numberio u).

Lemma wrap_is_word w x : 0 <= w -> is_word w (wrap w x).
Proof. intros. unfold is_word, wrap. apply Z.mod_pos_bound. apply Z.pow_pos_nonneg; lia. Qed.

Lemma crc32c_word d : bytes d -> is_word 32 (crc32c_sw d).
Proof.
  unfold crc32c_sw. assert (is_word 32 (notw 32 0)) as Hc by (vm_compute; split; congruence). revert Hc. generalize (notw 32 0).
  induction d as [|b d IH]; intros c Hc Hd; [done|]. inversion Hd as [|? ? Hb Hd']; subst. cbn [fold_left]. apply IH; [|done].
  destruct (crc32c_byte_spec c b Hc Hb) as [-> H]. exact H.
Qed.

Lemma header_bytes_bytes h : bytes (header_bytes h).
Proof. unfold header_bytes, bytes. cbn [header_layout take header_fields store_fields]. rewrite !Forall_app. repeat split; try apply le_bytes_bytes. constructor. Qed.

Lemma chunk_header_ok td u num inc : unit_ok u -> is_word 32 inc -> header_ok (chunk_header td u num inc).
Proof.
  intros [Hs Hn] Hi. unfold header_ok, fields_fit, chunk_header, header_layout, header_fields. cbn [magic verify_type hdr_len hdr_rand_seed hdr_offset hdr_time_sec hdr_time_nsec hdr_thread hdr_numberio hdr_crc32].
  repeat apply Forall2_cons_2; try apply Forall2_nil_2; try exact Hs; try exact Hn; try exact Hi; try (apply wrap_is_word; lia); try (apply crc32c_word, header_bytes_bytes).
  - unfold is_word, FIO_HDR_MAGIC. cbn. lia.
  - unfold is_word. destruct (verify td); cbn; lia.
Qed.

Lemma chunk_header_bytes td u num inc :
  header_bytes (chunk_header td u num inc) =
  header_bytes (mk_header FIO_HDR_MAGIC (verify_code (verify td)) inc (u_rand_seed u)
    (addw 64 (u_verify_offset u) (mulw 32 num (verify_interval td)))
    (u_time_sec u) (u_time_nsec u) (thread_number td) (u_numberio u) 0).
Proof.
  unfold header_bytes, chunk_header, wrap. cbn [header_layout take header_fields store_fields magic verify_type hdr_len hdr_rand_seed hdr_offset hdr_time_sec hdr_time_nsec hdr_thread hdr_numberio hdr_crc32].
  rewrite (le_bytes_mod 4 (u_time_sec u)), (le_bytes_mod 4 (u_time_nsec u)), (le_bytes_mod 2 (thread_number td)). reflexivity.
Qed.

Lemma chunk_header_crc td u num inc : hdr_crc32 (chunk_header td u num inc) = crc32c_sw (header_bytes (chunk_header td u num inc)).
Proof. reflexivity. Qed.

Lemma fill_hdr_chunk td u A c B num inc : verify td <> VERIFY_PATTERN_NO_HDR -> 40 <= zlength c ->
  fill_hdr td u (A ++ c ++ B) (zlength A) num inc (u_rand_seed u) = Some (A ++ (header_image (chunk_header td u num inc) ++ at_off c 40) ++ B).
Proof.
  intros Ht Hc. destruct (chunk_split c 40 ltac:(lia)) as (X & R & -> & HX & HR).
  assert (at_off (X ++ R) 40 = R) as -> by (unfold at_off; rewrite <- HX, zlength_to_nat; apply drop_app_length).
  transitivity (memcpy (A ++ (X ++ R) ++ B) (zlength A) (header_image (chunk_header td u num inc))).
  - unfold header_image. rewrite chunk_header_crc, chunk_header_bytes. unfold fill_hdr, __fill_hdr. by destruct (verify td).
  - rewrite <- (Z.add_0_r (zlength A)). apply (write_chunk A [] X R B 0); [done|].
    pose proof (header_image_length (chunk_header td u num inc)). unfold zlength in *. lia.
Qed.

Lemma verify_of_code_code t : verify_of_code (verify_code t) = Some t.
Proof. by destruct t. Qed.

Lemma hdr_size_chunk td u num inc : verify td <> VERIFY_PATTERN_NO_HDR -> hdr_size td (chunk_header td u num inc) = Some (__hdr_size (verify td)).
Proof. intros Ht. unfold hdr_size. cbn [chunk_header verify_type]. rewrite verify_of_code_code. by destruct (verify td). Qed.

Lemma hdr_size_range t : 0 <= priv_size t <= 128 /\ (t <> VERIFY_PATTERN_NO_HDR -> __hdr_size t = priv_size t + 40) /\ 0 <= __hdr_size t <= 168.
Proof. destruct t; unfold sizeof_header; cbn; repeat split; try lia; done. Qed.

Lemma memswp_swapped A c B vo n d : 0 <= n <= 200 -> 0 < vo -> vo + n <= zlength c -> swapped vo n c d ->
  memswp (A ++ c ++ B) (zlength A) (zlength A + vo) n = Some (A ++ d ++ B).
Proof.
  intros Hn Hvo Hc Hs. destruct (Z.eq_dec n 0) as [->|]; [|by apply memswp_chunk; [|lia|..]].
  assert (d = c) as ->.
  { destruct Hs as [|X Y V W _ HX _ HV]; [done|]. unfold zlength in *. by destruct X, V. }
  unfold memswp, c_assert. cbn [Z.leb Z.compare Z.eqb orb mbind option_bind].
  assert (forall l, read_bytes 0 l = Some []) as Hr by (intros l; rewrite read_bytes_Some by (unfold zlength; lia); done). rewrite !Hr. cbn [mbind option_bind].
  assert (forall x, 0 <= x <= zlength c -> memcpy (A ++ c ++ B) (zlength A + x) [] = Some (A ++ c ++ B)) as Hm.
  { intros x Hx. destruct (chunk_split c x Hx) as (c1 & c2 & -> & H1 & _). exact (write_chunk A c1 [] c2 B x [] H1 eq_refl). }
  rewrite <- (Z.add_0_r (zlength A)) at 1. rewrite Hm by lia. cbn [mbind option_bind]. apply Hm. lia.
Qed.

(** ** Chunks *)

(** A chunk as it is before the swap: header, sum, data. *)
Definition good_chunk (td : thread_data) (u : io_u) (num inc : Z) (c : list Z) : Prop :=
  verify td <> VERIFY_PATTERN_NO_HDR -> exists sum data,
    c = header_image (chunk_header td u num inc) ++ sum ++ data /\ zlength sum = priv_size (verify td) /\
    forall old, zlength old = priv_size (verify td) -> fill_sum (verify td) old data = Some sum.

(** What the checks at the start of a job, and those of a type, promise. *)
Definition job_ok (td : thread_data) (inc : Z) : Prop :=
  verify td <> VERIFY_NONE /\ verify td <> VERIFY_NULL /\ __hdr_size (verify td) < inc < 2 ^ 29 /\
  (verify_offset td = 0 \/ __hdr_size (verify td) <= verify_offset td /\ verify_offset td + __hdr_size (verify td) <= inc).

(** A chunk in three parts [H], [O] and [D], inside a buffer. *)
Lemma read_part2 A H O D B h n : zlength H = h -> zlength O = n -> read_bytes n (at_off (A ++ (H ++ O ++ D) ++ B) (zlength A + h)) = Some O.
Proof. intros <- <-. rewrite read_chunk by (rewrite ?zlength_app; unfold zlength; lia). f_equal. by apply slice_mid. Qed.

Lemma read_part3 A H O D B h n : zlength H + zlength O = h -> zlength D = n -> read_bytes n (at_off (A ++ (H ++ O ++ D) ++ B) (zlength A + h)) = Some D.
Proof. intros <- <-. rewrite (app_assoc H O), <- zlength_app. pose proof (read_part2 A (H ++ O) D [] B _ _ eq_refl eq_refl) as Hr. by rewrite app_nil_r in Hr. Qed.

Lemma store_part2 A H O D B h sum : zlength H = h -> zlength sum = zlength O ->
  (if zlength sum =? 0 then Some (A ++ (H ++ O ++ D) ++ B) else memcpy (A ++ (H ++ O ++ D) ++ B) (zlength A + h) sum) = Some (A ++ (H ++ sum ++ D) ++ B).
Proof.
  intros HH Hl. destruct (Z.eqb_spec (zlength sum) 0) as [E|E]; [|apply write_chunk; [done|unfold zlength in *; lia]].
  rewrite E in Hl. unfold zlength in *. by destruct sum, O.
Qed.

Lemma read_chunk_header A td u num inc R B : unit_ok u -> is_word 32 inc ->
  read_header (A ++ (header_image (chunk_header td u num inc) ++ R) ++ B) (zlength A) = Some (chunk_header td u num inc).
Proof. intros Hu Hi. rewrite <- app_assoc. apply read_header_spec. by apply chunk_header_ok. Qed.

Lemma populate_hdr_spec td u A c B num inc : job_ok td inc -> unit_ok u -> bytes c -> zlength c = inc ->
  exists cp cw, populate_hdr td u (A ++ c ++ B) (zlength A) num inc = Some (false, A ++ cw ++ B) /\
    good_chunk td u num inc cp /\ swapped (verify_offset td) (__hdr_size (verify td)) cp cw /\
    zlength cp = inc /\ at_off cp (__hdr_size (verify td)) = at_off c (__hdr_size (verify td)).
Proof.
  intros (H1 & H2 & [H3 H4] & Hvo) Hu Hb Hc. destruct (hdr_size_range (verify td)) as (Hp & Hs & Hhs).
  destruct (decide (verify td = VERIFY_PATTERN_NO_HDR)) as [E|E].
  { exists c, c. rewrite E. split; [|split; [intros Hn; congruence|split; [apply swap_none; by right|done]]]. unfold populate_hdr, fill_hdr, hdr_size_at. rewrite E in *. cbn [mbind option_bind __hdr_size] in *.
    destruct (Z.leb_spec inc 0); [lia|]. rewrite Z.add_0_r, <- (Z.add_0_r (zlength A)), read_chunk by lia.
    cbn [mbind option_bind priv_size Z.eqb fill_sum]. by rewrite andb_false_r. }
  specialize (Hs E). set (hs := __hdr_size (verify td)) in *. unfold populate_hdr. rewrite fill_hdr_chunk by (done || lia). cbn [mbind option_bind].
  set (H := header_image (chunk_header td u num inc)). pose proof (header_image_length (chunk_header td u num inc)) as HH. fold H in HH.
  destruct (chunk_split c 40 ltac:(lia)) as (X & R & -> & HX & HR).
  rewrite (at_off_app X R 40 HX). destruct (chunk_split R (priv_size (verify td)) ltac:(lia)) as (O & D & -> & HO & HD).
  assert (at_off (X ++ O ++ D) hs = D) as ->.
  { rewrite (app_assoc X O). apply at_off_app. rewrite zlength_app. lia. }
  assert (bytes D) as HbD by (unfold bytes in *; rewrite !Forall_app in Hb; tauto).
  destruct (fill_sum_ok (verify td) D H1 H2 HbD ltac:(rewrite !zlength_app in *; lia)) as (sum & Hsum & Hsl).
  set (cp := H ++ sum ++ D). assert (zlength cp = inc) as Hcp by (unfold cp; rewrite !zlength_app in *; lia).
  destruct (swapped_exists (verify_offset td) hs cp) as [cw Hsw]; [lia|rewrite Hcp; exact Hvo|]. exists cp, cw.
  split; [|split; [intros _; by exists sum, D|split; [exact Hsw|split; [exact Hcp|]]]].
  - assert (is_word 32 inc) as Hi by (unfold is_word; lia). rewrite !zlength_app in *.
    assert (hdr_size_at td (A ++ (H ++ O ++ D) ++ B) (zlength A) = Some hs) as ->.
    { unfold hdr_size_at, H. rewrite read_chunk_header by done. cbn [mbind option_bind]. rewrite hdr_size_chunk by done. by destruct (verify td). }
    cbn [mbind option_bind]. destruct (Z.leb_spec inc hs); [lia|]. rewrite (read_part3 A H O D B hs) by lia. cbn [mbind option_bind].
    assert (exists old, (if priv_size (verify td) =? 0 then Some [] else
      read_bytes (priv_size (verify td)) (at_off (A ++ (H ++ O ++ D) ++ B) (zlength A + sizeof_header))) = Some old /\ zlength old = priv_size (verify td)) as (old & -> & Hold).
    { destruct (Z.eqb_spec (priv_size (verify td)) 0) as [->|]; [by exists []|]. exists O. split; [|done]. by apply read_part2. }
    cbn [mbind option_bind]. rewrite (Hsum old Hold). cbn [mbind option_bind]. rewrite (store_part2 A H O D B sizeof_header sum) by (done || lia). cbn [mbind option_bind].
    fold cp. destruct (Z.eq_dec (verify_offset td) 0) as [E0|E0].
    + rewrite E0 in *. cbn [c_true Z.eqb negb andb]. inversion Hsw; [done|lia].
    + unfold c_true. destruct (Z.eqb_spec (verify_offset td) 0); [lia|]. destruct (Z.eqb_spec hs 0); [lia|]. cbn [negb andb].
      by rewrite (memswp_chunk A cp B (verify_offset td) hs cw) by (lia || done).
  - unfold cp. rewrite (app_assoc H sum). apply at_off_app. rewrite zlength_app. lia.
Qed.

(** ** Checking a chunk *)

Section Chunks.
Variable buckets : Z.
Variables stack256 stack512 : list Z.
Hypothesis stack256_size : zlength stack256 = 64.
Hypothesis stack512_size : zlength stack512 = 128.

(** The data of chunk [num] is the pattern. *)
Definition pattern_at (td : thread_data) (num inc : Z) (c : list Z) : Prop :=
  forall i, __hdr_size (verify td) <= i < inc -> tbl c i = pattern_byte (verify_pattern td) (inc * num + i).

Lemma set_pattern_same td : set_pattern td (verify_pattern td) = td.
Proof. by destruct td. Qed.

Lemma tbl_in_chunk (A c B : list Z) x i : zlength A = x -> 0 <= i < zlength c -> tbl (A ++ c ++ B) (x + i) = tbl c i.
Proof.
  intros <- Hi. unfold tbl, zlength in *. rewrite app_nth2 by lia. replace (Z.to_nat _ - length A)%nat with (Z.to_nat i) by lia. by rewrite app_nth1 by lia.
Qed.

(** [verify_io_u_pattern] accepts exactly the pattern. *)
Lemma verify_pattern_exact td u A c B num inc : verify_fmt td = [] -> 0 < zlength (verify_pattern td) < 2 ^ 32 ->
  get_hdr_inc td u = inc -> 0 <= num -> inc * num + inc < 2 ^ 32 -> zlength c = inc -> __hdr_size (verify td) < inc ->
  exists r, verify_io_u_pattern td u (A ++ c ++ B) (zlength A) num = Some (if (r : bool) then 0 else EILSEQ, td) /\ (r = true <-> pattern_at td num inc c).
Proof.
  intros Hf Hp Hi Hn Hb Hc Hs. destruct (hdr_size_range (verify td)) as (_ & _ & Hhs). unfold verify_io_u_pattern. rewrite Hi, Hf. unfold pattern_at in *.
  set (hs := __hdr_size (verify td)) in *. set (pat := verify_pattern td) in *. unfold c_true, paste_format_inplace.
  destruct (Z.eqb_spec (zlength pat) 0); [lia|]. cbn [negb c_assert mbind option_bind paste_loop].
  assert (0 <= inc * num) by nia.
  assert (addw 32 (mulw 32 inc num) hs = inc * num + hs) as ->.
  { unfold addw, mulw. rewrite (wrap_small 32 (inc * num)) by (unfold is_word; lia). apply wrap_small. unfold is_word. lia. }
  assert (subw 32 inc hs = inc - hs) as -> by (unfold subw; apply wrap_small; unfold is_word; lia).
  assert (0 <= zlength B) by (unfold zlength; lia). assert (0 <= zlength A) by (unfold zlength; lia).
  pose proof (Z.mod_pos_bound (inc * num + hs) (zlength pat) ltac:(lia)).
  destruct (cmp_pattern_spec pat ((inc * num + hs) mod zlength pat) (at_off (A ++ c ++ B) (zlength A + hs)) (inc - hs)) as (r & -> & Hr);
    [lia|lia|rewrite zlength_at_off by (rewrite !zlength_app; lia); rewrite !zlength_app; lia|lia|].
  exists r. cbn [mbind option_bind]. split; [unfold pat; rewrite set_pattern_same; by destruct r|]. rewrite Hr. unfold pattern_byte.
  assert (forall i, 0 <= i < inc - hs -> tbl (at_off (A ++ c ++ B) (zlength A + hs)) i = tbl c (hs + i)) as Ht.
  { intros i Hii. rewrite tbl_at_off by lia. rewrite <- Z.add_assoc. apply tbl_in_chunk; [done|lia]. }
  split; intros Hx i Hi'.
  - specialize (Hx (i - hs) ltac:(lia)). rewrite Ht, Z.add_mod_idemp_l in Hx by lia. replace (hs + (i - hs)) with i in Hx by lia. rewrite Hx. do 2 f_equal. lia.
  - rewrite Ht, Z.add_mod_idemp_l by lia. rewrite Hx by lia. do 2 f_equal. lia.
Qed.

(** The stored sum is compared with the sum of the data. *)
Lemma verify_sum_exact f td u A sum D B num inc old n : verify td <> VERIFY_PATTERN_NO_HDR -> unit_ok u ->
  n = priv_size (verify td) -> zlength sum = n -> zlength A = inc * num -> 0 <= num -> __hdr_size (verify td) < inc -> inc * num + inc < 2 ^ 32 -> zlength D = inc - __hdr_size (verify td) ->
  f D = fill_sum (verify td) old D ->
  verify_sum f n td (A ++ (header_image (chunk_header td u num inc) ++ sum ++ D) ++ B) (chunk_header td u num inc) (zlength A) num =
  (let* c := fill_sum (verify td) old D in Some (result (bool_decide (sum = c)))).
Proof.
  intros Ht Hu -> Hsum HA Hn Hs Hb HD <-. destruct (hdr_size_range (verify td)) as (Hp & Hhs & _). specialize (Hhs Ht).
  unfold verify_sum, io_u_verify_off. rewrite hdr_size_chunk by done. cbn [mbind option_bind chunk_header hdr_len]. set (h := chunk_header td u num inc). fold (chunk_header td u num inc).
  pose proof (header_image_length h) as HHl. set (H := header_image h) in *. assert (0 <= inc * num) by nia. set (hs := __hdr_size (verify td)) in *.
  assert (subw 32 inc hs = inc - hs) as -> by (unfold subw; apply wrap_small; unfold is_word; lia).
  assert (mulw 32 num inc = zlength A) as -> by (unfold mulw; rewrite wrap_small by (unfold is_word; lia); lia).
  rewrite (read_part3 A H sum D B hs) by lia. cbn [mbind option_bind]. unfold hdr_priv. rewrite (read_part2 A H sum D B sizeof_header) by (done || lia). done.
Qed.

(** The types whose check compares a sum. *)
Definition has_sum (t : verify_t) : bool :=
  match t with VERIFY_NONE | VERIFY_NULL | VERIFY_HDR_ONLY | VERIFY_PATTERN | VERIFY_PATTERN_NO_HDR => false | _ => true end.

Lemma verify_switch_sum td u A sum D B num inc : has_sum (verify td) = true -> unit_ok u ->
  zlength sum = priv_size (verify td) -> zlength A = inc * num -> 0 <= num -> __hdr_size (verify td) < inc -> inc * num + inc < 2 ^ 32 -> zlength D = inc - __hdr_size (verify td) ->
  forall u2, exists old, zlength old = priv_size (verify td) /\
  verify_switch stack256 stack512 (verify td) td u2 (A ++ (header_image (chunk_header td u num inc) ++ sum ++ D) ++ B) (chunk_header td u num inc) (zlength A) num 0 =
  (let* c := fill_sum (verify td) old D in Some (result (bool_decide (sum = c)), td)).
Proof.
  intros Ht Hu Hsum HA Hn Hs Hb HD u2. assert (verify td <> VERIFY_PATTERN_NO_HDR) as Hnh by (intros E; by rewrite E in Ht).
  set (old := match verify td with VERIFY_SHA256 => stack256 | VERIFY_SHA512 => stack512 | t => replicate (Z.to_nat (priv_size t)) 0 end).
  exists old. split; [unfold old, zlength in *; destruct (verify td); cbn [priv_size]; rewrite ?length_replicate; lia|].
  assert (forall f, f D = fill_sum (verify td) old D ->
    (let* ret := verify_sum f (priv_size (verify td)) td (A ++ (header_image (chunk_header td u num inc) ++ sum ++ D) ++ B) (chunk_header td u num inc) (zlength A) num in Some (ret, td)) =
    (let* c := fill_sum (verify td) old D in Some (result (bool_decide (sum = c)), td))) as Hv.
  { intros f Hf. rewrite (verify_sum_exact f td u A sum D B num inc old) by done. by destruct (fill_sum _ _ _). }
  revert Hv. unfold old. clear - Ht. generalize (chunk_header td u num inc) as h. intros h Hv.
  unfold verify_switch. destruct (verify td); try done; cbn [priv_size fill_sum] in Hv |- *; unfold verify_io_u_md5, verify_io_u_crc64, verify_io_u_crc32,
    verify_io_u_crc32c, verify_io_u_crc16, verify_io_u_crc7, verify_io_u_sha256, verify_io_u_sha512, verify_io_u_sha3_224, verify_io_u_sha3_256, verify_io_u_sha3_384,
    verify_io_u_sha3_512, verify_io_u_xxhash, verify_io_u_sha1; rewrite Hv by done; done.
Qed.

(** The checks of [verify_header] that depend on the options. *)
Definition checks_numberio (td : thread_data) : bool :=
  td_write td && (td_min_bs td =? td_max_bs td) && negb (time_based td) && verify_write_sequence td.

(** The unit that reads a block back knows the unit that wrote it. *)
Definition reads_back (td : thread_data) (u1 u2 : io_u) : Prop :=
  u_verify_offset u2 = u_verify_offset u1 /\ u_buflen u2 = u_buflen u1 /\
  (verify_header_seed td = true -> u_rand_seed u2 = u_rand_seed u1) /\ (checks_numberio td = true -> u_numberio u2 = u_numberio u1).

Lemma verify_header_good td u1 u2 A R B num inc : reads_back td u1 u2 ->
  verify_header_ok td u2 (A ++ (header_image (chunk_header td u1 num inc) ++ R) ++ B) (zlength A) (chunk_header td u1 num inc) num inc = Some true.
Proof.
  intros (Ho & _ & Hs & Hn). unfold verify_header_ok. set (h := chunk_header td u1 num inc).
  assert (read_bytes offsetof_crc32 (at_off (A ++ (header_image h ++ R) ++ B) (zlength A)) = Some (header_bytes h)) as ->.
  { unfold header_image. rewrite <- (Z.add_0_r (zlength A)), <- (app_assoc (header_bytes h)). apply (read_part2 A [] (header_bytes h) _ B 0); [done|]. unfold zlength. by rewrite header_length. }
  cbn [mbind option_bind]. f_equal. change (magic h) with FIO_HDR_MAGIC. change (hdr_len h) with inc. change (hdr_rand_seed h) with (u_rand_seed u1).
  change (hdr_offset h) with (addw 64 (u_verify_offset u1) (mulw 32 num (verify_interval td))). change (hdr_numberio h) with (u_numberio u1).
  change (hdr_crc32 h) with (crc32c_sw (header_bytes h)). rewrite Ho.
  rewrite !Z.eqb_refl. cbn [andb]. rewrite !andb_true_r. apply andb_true_iff. split; apply negb_true_iff.
  - destruct (verify_header_seed td); [|done]. cbn [andb]. by rewrite Hs, Z.eqb_refl.
  - fold (checks_numberio td). destruct (checks_numberio td); [|done]. cbn [andb]. by rewrite Hn, Z.eqb_refl.
Qed.

(** The header is swapped back. *)
Lemma swap_back td A cp cw B inc : job_ok td inc -> swapped (verify_offset td) (__hdr_size (verify td)) cp cw -> zlength cp = inc ->
  (if c_true (verify_offset td) then memswp (A ++ cw ++ B) (zlength A) (zlength A + verify_offset td) (__hdr_size (verify td)) else Some (A ++ cw ++ B)) =
  Some (A ++ cp ++ B).
Proof.
  intros (H1 & H2 & H3 & Hvo) Hsw Hc. destruct (hdr_size_range (verify td)) as (_ & _ & Hhs).
  unfold c_true. destruct (Z.eqb_spec (verify_offset td) 0) as [E|E]; cbn [negb].
  - rewrite E in Hsw. inversion Hsw; [done|lia].
  - apply memswp_swapped; [lia|lia|rewrite (swapped_length _ _ _ _ Hsw); lia|by apply swapped_sym].
Qed.

Lemma verify_turn_chunk td u1 u2 A cp cw B num inc : job_ok td inc -> unit_ok u1 -> reads_back td u1 u2 ->
  (verify td <> VERIFY_PATTERN_NO_HDR -> exists R, cp = header_image (chunk_header td u1 num inc) ++ R) ->
  swapped (verify_offset td) (__hdr_size (verify td)) cp cw -> zlength cp = inc ->
  exists h, (verify td <> VERIFY_PATTERN_NO_HDR -> h = chunk_header td u1 num inc) /\
  verify_turn stack256 stack512 td u2 (A ++ cw ++ B) (zlength A) num inc 0 =
  (let* '(ret, td) := verify_switch stack256 stack512 (verify td) td u2 (A ++ cp ++ B) h (zlength A) num 0 in Some (inr ret, td, A ++ cp ++ B)).
Proof.
  intros Hj Hu Hrb Hcp Hsw Hc. pose proof Hj as (H1 & H2 & H3 & Hvo). destruct (hdr_size_range (verify td)) as (_ & _ & Hhs).
  unfold verify_turn. rewrite (swap_back td A cp cw B inc) by done.
  cbn [mbind option_bind]. destruct (decide (verify td = VERIFY_PATTERN_NO_HDR)) as [E|E].
  - exists (mk_header 0 0 0 0 0 0 0 0 0 0). split; [done|]. rewrite E. cbn [mbind option_bind negb]. done.
  - destruct (Hcp E) as [R ->]. exists (chunk_header td u1 num inc). split; [done|].
    assert (is_word 32 inc) as Hi by (unfold is_word; lia).
    destruct (verify td) eqn:Et; try done; rewrite read_chunk_header by done; cbn [mbind option_bind];
      rewrite (verify_header_good td u1 u2) by done; done.
Qed.

(** A good chunk passes. *)
Lemma verify_turn_good td u1 u2 A cp cw B num inc : job_ok td inc -> unit_ok u1 -> reads_back td u1 u2 -> verify_fmt td = [] ->
  zlength (verify_pattern td) < 2 ^ 32 -> (zlength (verify_pattern td) = 0 -> verify td <> VERIFY_PATTERN /\ verify td <> VERIFY_PATTERN_NO_HDR) ->
  get_hdr_inc td u2 = inc -> zlength A = inc * num -> 0 <= num -> inc * num + inc < 2 ^ 32 -> zlength cp = inc ->
  good_chunk td u1 num inc cp -> swapped (verify_offset td) (__hdr_size (verify td)) cp cw ->
  (0 < zlength (verify_pattern td) -> pattern_at td num inc cp) ->
  verify_turn stack256 stack512 td u2 (A ++ cw ++ B) (zlength A) num inc 0 = Some (inr 0, td, A ++ cp ++ B).
Proof.
  intros Hj Hu Hrb Hf Hp32 Hp0 Hi HA Hn Hb Hc Hg Hsw Hpat.
  destruct (verify_turn_chunk td u1 u2 A cp cw B num inc) as (h & Hh & ->); try done.
  { intros E. destruct (Hg E) as (sum & D & -> & _). by exists (sum ++ D). }
  destruct Hj as (H1 & H2 & H3 & _). assert (0 <= zlength (verify_pattern td)) as Hp by (unfold zlength; lia).
  assert (0 < zlength (verify_pattern td) -> verify_io_u_pattern td u2 (A ++ cp ++ B) (zlength A) num = Some (0, td)) as Hvp.
  { intros Hp1. destruct (verify_pattern_exact td u2 A cp B num inc) as (r & -> & Hr); try done; [lia|]. by rewrite (proj2 Hr (Hpat Hp1)). }
  assert (verify_switch stack256 stack512 (verify td) td u2 (A ++ cp ++ B) h (zlength A) num 0 = Some (0, td)) as ->; [|done].
  destruct (has_sum (verify td)) eqn:Es.
  - assert (verify td <> VERIFY_PATTERN_NO_HDR) as E by (intros E; by rewrite E in Es). destruct (Hg E) as (sum & D & -> & Hsl & Hsum). rewrite (Hh E).
    destruct (hdr_size_range (verify td)) as (_ & Hhs & _). pose proof (header_image_length (chunk_header td u1 num inc)) as HH.
    destruct (verify_switch_sum td u1 A sum D B num inc) with (u2 := u2) as (old & Hold & ->); try done; [lia|rewrite !zlength_app in Hc; specialize (Hhs E); lia|].
    rewrite Hsum by done. cbn [mbind option_bind]. by rewrite bool_decide_true.
  - unfold verify_switch. destruct (verify td); try done; try (apply Hvp; destruct (Z.eq_dec (zlength (verify_pattern td)) 0) as [E0|]; [by destruct (Hp0 E0)|lia]).
    destruct (Z.eqb_spec (zlength (verify_pattern td)) 0); [done|apply Hvp; lia].
Qed.

(** ** Whole buffers *)

Lemma split_chunks inc : 0 < inc -> forall k (b : list Z), zlength b = Z.of_nat k * inc ->
  exists cs, b = concat cs /\ length cs = k /\ Forall (fun c => zlength c = inc) cs.
Proof.
  intros Hi. induction k as [|k IH]; intros b Hb.
  - exists []. split; [|done]. unfold zlength in Hb. by destruct b.
  - destruct (chunk_split b inc ltac:(nia)) as (c & r & -> & Hc & Hr). destruct (IH r ltac:(rewrite zlength_app in *; lia)) as (cs & -> & <- & Hf).
    exists (c :: cs). repeat split; [by constructor].
Qed.

(** Chunks from number [num] on: as they are filled, before the swap, and as they are written. *)
Inductive chunks_written (td : thread_data) (u : io_u) (inc : Z) : Z -> list (list Z) -> list (list Z) -> list (list Z) -> Prop :=
  | written_nil num : chunks_written td u inc num [] [] []
  | written_cons num c cp cw cs cps cws : good_chunk td u num inc cp -> swapped (verify_offset td) (__hdr_size (verify td)) cp cw ->
      bytes c -> zlength c = inc -> zlength cp = inc -> zlength cw = inc -> at_off cp (__hdr_size (verify td)) = at_off c (__hdr_size (verify td)) ->
      chunks_written td u inc (num + 1) cs cps cws -> chunks_written td u inc num (c :: cs) (cp :: cps) (cw :: cws).

Lemma chunks_written_length td u inc num cs cps cws : chunks_written td u inc num cs cps cws -> zlength (concat cws) = zlength (concat cs).
Proof. induction 1; [done|]. cbn [concat]. rewrite !zlength_app. lia. Qed.

Lemma chunks_count td u inc num cs cps cws : chunks_written td u inc num cs cps cws -> zlength (concat cs) = inc * Z.of_nat (length cs).
Proof. induction 1; [unfold zlength; cbn; lia|]. cbn [concat length]. rewrite zlength_app. lia. Qed.

Lemma addw32_next inc num total : 0 < inc -> 0 <= num -> inc * (num + 1) <= total -> total < 2 ^ 29 -> addw 32 num 1 = num + 1.
Proof. intros. apply wrap_small. unfold is_word. nia. Qed.

Lemma populate_loop_spec td u inc T : job_ok td inc -> unit_ok u -> u_buflen u < 2 ^ 29 ->
  forall cs num A fuel, 0 <= num -> zlength A = inc * num -> Forall (fun c => zlength c = inc /\ bytes c) cs ->
  u_buflen u = inc * (num + Z.of_nat (length cs)) -> (length cs <= fuel)%nat ->
  exists cps cws, populate_loop fuel td u (A ++ concat cs ++ T) (zlength A) num inc = Some (false, A ++ concat cws ++ T) /\
    chunks_written td u inc num cs cps cws.
Proof.
  intros Hj Hu Hb. pose proof Hj as (J1 & J2 & J3 & J4). destruct (hdr_size_range (verify td)) as (_ & _ & Hhs).
  induction cs as [|c cs IH]; intros num A fuel Hn HA Hf Hl Hfuel.
  { exists [], []. split; [|constructor]. cbn [length Z.of_nat] in Hl. destruct fuel; cbn [populate_loop]; (destruct (Z.leb_spec (u_buflen u) (zlength A)); [done|lia]). }
  apply list.Forall_cons in Hf as [[Hc Hcb] Hf]. cbn [length] in *. destruct fuel as [|fuel]; [lia|]. cbn [populate_loop concat].
  destruct (Z.leb_spec (u_buflen u) (zlength A)); [nia|]. rewrite <- app_assoc.
  destruct (populate_hdr_spec td u A c (concat cs ++ T) num inc) as (cp & cw & -> & Hg & Hsw & Hcp & Hat); try done. cbn [mbind option_bind].
  assert (zlength cw = inc) as Hcw by (rewrite (swapped_length _ _ _ _ Hsw); done).
  rewrite (addw32_next inc num (u_buflen u)) by nia. rewrite (app_assoc A cw).
  replace (zlength A + inc) with (zlength (A ++ cw)) by (rewrite zlength_app; lia).
  destruct (IH (num + 1) (A ++ cw) fuel) as (cps & cws & -> & Hw); [lia|rewrite zlength_app; lia|done|lia|lia|].
  exists (cp :: cps), (cw :: cws). cbn [mbind option_bind orb concat]. split; [by rewrite <- !app_assoc|by constructor].
Qed.

(** The pattern in the first chunk of a filled buffer, and in the rest. *)
Lemma chunk_pattern td inc num c cp cs : zlength c = inc -> at_off cp (__hdr_size (verify td)) = at_off c (__hdr_size (verify td)) -> 0 <= __hdr_size (verify td) ->
  (forall i, 0 <= i < zlength (c ++ concat cs) -> tbl (c ++ concat cs) i = pattern_byte (verify_pattern td) (inc * num + i)) -> pattern_at td num inc cp.
Proof.
  intros Hc Hat Hhs Hpat i Hii. replace i with (__hdr_size (verify td) + (i - __hdr_size (verify td))) by lia. rewrite <- tbl_at_off, Hat, tbl_at_off by lia.
  rewrite <- Hpat by (rewrite ?zlength_app; unfold zlength in *; lia). unfold tbl. by rewrite app_nth1 by (unfold zlength in Hc; lia).
Qed.

Lemma chunks_pattern_tail td inc num c cs i : zlength c = inc ->
  (forall i, 0 <= i < zlength (c ++ concat cs) -> tbl (c ++ concat cs) i = pattern_byte (verify_pattern td) (inc * num + i)) ->
  0 <= i < zlength (concat cs) -> tbl (concat cs) i = pattern_byte (verify_pattern td) (inc * (num + 1) + i).
Proof.
  intros Hc Hpat Hii. specialize (Hpat (inc + i)). rewrite zlength_app in Hpat. replace (inc * (num + 1) + i) with (inc * num + (inc + i)) by lia.
  assert (0 <= zlength c) by (unfold zlength; lia). rewrite <- Hpat by lia. unfold tbl. rewrite app_nth2 by (unfold zlength in Hc; lia). f_equal. unfold zlength in Hc. lia.
Qed.

Lemma verify_loop_good td u1 u2 inc T : job_ok td inc -> unit_ok u1 -> reads_back td u1 u2 -> verify_fmt td = [] -> zlength (verify_pattern td) < 2 ^ 32 ->
  (zlength (verify_pattern td) = 0 -> verify td <> VERIFY_PATTERN /\ verify td <> VERIFY_PATTERN_NO_HDR) ->
  get_hdr_inc td u2 = inc -> u_buflen u2 < 2 ^ 29 ->
  forall num cs cps cws, chunks_written td u1 inc num cs cps cws -> forall A fuel, 0 <= num -> zlength A = inc * num ->
  (0 < zlength (verify_pattern td) -> forall i, 0 <= i < zlength (concat cs) -> tbl (concat cs) i = pattern_byte (verify_pattern td) (inc * num + i)) ->
  u_buflen u2 = inc * (num + Z.of_nat (length cs)) -> (length cs <= fuel)%nat ->
  verify_loop stack256 stack512 fuel td u2 (A ++ concat cws ++ T) (zlength A) num inc 0 = Some (0, false, td, A ++ concat cps ++ T).
Proof.
  intros Hj Hu Hrb Hf Hp Hp0 Hi Hb num cs cps cws Hw. destruct (hdr_size_range (verify td)) as (_ & _ & Hhs). pose proof Hj as (J1 & J2 & J3 & J4).
  induction Hw as [num|num c cp cw cs cps cws Hg Hsw Hcb Hc Hcp Hcw Hat Hw IH]; intros A fuel Hn HA Hpat Hl Hfuel; cbn [length concat] in *.
  { destruct fuel; cbn [verify_loop]; (destruct (Z.leb_spec (u_buflen u2) (zlength A)); [done|lia]). }
  destruct fuel as [|fuel]; [lia|]. cbn [verify_loop]. destruct (Z.leb_spec (u_buflen u2) (zlength A)); [nia|]. cbn [c_true Z.eqb negb andb].
  assert (0 < zlength (verify_pattern td) -> pattern_at td num inc cp) as Hpc.
  { intros Hp1. apply (chunk_pattern td inc num c cp cs); [done|done|lia|by apply Hpat]. }
  rewrite <- !app_assoc. rewrite (verify_turn_good td u1 u2 A cp cw (concat cws ++ T) num inc) by (try done; nia). cbn [mbind option_bind].
  rewrite (addw32_next inc num (u_buflen u2)) by nia. rewrite (app_assoc A cp), (app_assoc A cp).
  replace (zlength A + inc) with (zlength (A ++ cp)) by (rewrite zlength_app; lia). apply IH; [lia|rewrite zlength_app; lia| |lia|lia].
  intros Hp1 i Hii. apply (chunks_pattern_tail td inc num c cs); [done|by apply Hpat|done].
Qed.

(** ** Filling *)

Lemma paste_format_plain (pat out : list Z) len (u : io_u) : 0 < zlength pat -> 0 < len ->
  paste_format pat (zlength pat) [] out len u = cpy_pattern pat (zlength pat) out len.
Proof.
  intros Hp Hl. unfold paste_format, cpy_pattern, paste_format_inplace. destruct (Z.eqb_spec (zlength pat) 0); [lia|]. destruct (Z.eqb_spec len 0); [lia|]. cbn [orb].
  destruct (read_bytes _ pat) as [d|]; [|done]. cbn [mbind option_bind]. destruct (memcpy out 0 d) as [o|]; [|done]. cbn [mbind option_bind paste_loop].
  destruct (Z.eqb_spec (Z.min (zlength pat) len) 0); [lia|]. done.
Qed.

(** What the options and the buffer of a unit promise to the filling. *)
Definition fill_ok (td : thread_data) (u : io_u) : Prop :=
  verify_fmt td = [] /\ 0 <= compress_percentage td <= 100 /\ bytes (verify_pattern td) /\ bytes (buffer_pattern td) /\
  zlength (verify_pattern td) < 2 ^ 32 /\ zlength (buffer_pattern td) < 2 ^ 32 /\ 0 < u_buflen u < 2 ^ 29 /\ u_buflen u <= zlength (u_buf u) < 2 ^ 32 /\ bytes (u_buf u) /\
  is_word 64 (u_rand_seed u) /\ u_filled u < u_buflen u.

Hypothesis buckets_range : 0 < buckets <= 16.

Lemma fill_verify_pattern_spec td u : fill_ok td u -> exists s seed b filled,
  fill_verify_pattern buckets td u (wrap 32 (u_buflen u)) 0 false = Some (set_verify_state td s, set_filled (set_buf (set_seed u seed) b) filled) /\
  is_word 64 seed /\ zlength b = zlength (u_buf u) /\ bytes b /\
  (0 < zlength (verify_pattern td) -> forall i, 0 <= i < u_buflen u -> tbl b i = pattern_byte (verify_pattern td) i).
Proof.
  intros (Hf & Hc & Hvp & Hbp & Hv32 & Hb32 & Hl & Hbl & Hb & Hseed & Hfl). unfold fill_verify_pattern. rewrite wrap_small by (unfold is_word; lia).
  destruct (Z.eqb_spec (zlength (verify_pattern td)) 0) as [E|E].
  - destruct (__rand (verify_state td)) as [r s1]. destruct (__rand s1) as [r2 s2]. unfold __fill_buffer. cbn [compress_percentage buffer_pattern set_verify_state u_buf set_seed].
    destruct (fill_percentage_ok (Z.to_nat buckets) (mulw 64 r r2) (compress_percentage td) (u_buflen u) (u_buflen u) (buffer_pattern td) (u_buf u)) as (b & Hfill & Hbz & Hbb); try done; try lia.
    rewrite Z2Nat.id in Hfill by lia. rewrite Hfill. cbn [mbind option_bind]. exists s2, (mulw 64 r r2), b, (u_filled u).
    split; [done|]. split; [apply wrap_is_word; lia|]. split; [done|]. split; [done|]. lia.
  - assert (0 < zlength (verify_pattern td)) as Hp by (unfold zlength in *; lia).
    rewrite Hf. destruct (Z.leb_spec (u_buflen u) (u_filled u)); [lia|]. rewrite andb_false_r, paste_format_plain, cpy_pattern_spec by lia. cbn [mbind option_bind].
    exists (verify_state td), (u_rand_seed u). eexists _, (u_buflen u). split; [by destruct td, u|]. split; [done|].
    split; [rewrite zlength_app, zlength_run, zlength_at_off by lia; lia|]. split; [apply Forall_app_2; [by apply run_bytes|by apply Forall_drop]|].
    intros _ i Hi. transitivity (tbl (pattern_run (verify_pattern td) 0 (u_buflen u)) i); [|by rewrite tbl_run by lia]. unfold tbl. rewrite app_nth1; [done|]. rewrite <- zlength_to_nat, zlength_run by lia. lia.
Qed.

(** What a job that writes headers promises; chunks have [inc] bytes. *)
Definition write_ok (td : thread_data) (u : io_u) (inc : Z) : Prop :=
  job_ok td inc /\ fill_ok td u /\ get_hdr_inc td u = inc /\ (inc | u_buflen u) /\ is_word 16 (u_numberio u) /\
  (zlength (verify_pattern td) = 0 -> verify td <> VERIFY_PATTERN /\ verify td <> VERIFY_PATTERN_NO_HDR).

(** The buffer after [populate_verify_io_u]: good chunks, swapped. *)
Lemma populate_verify_spec td u inc : write_ok td u inc -> exists s u1 cs cps cws T,
  populate_verify_io_u buckets td u = Some (false, set_verify_state td s, set_buf u1 (concat cws ++ T)) /\
  u_buflen u1 = u_buflen u /\ zlength (concat cs) = u_buflen u /\ zlength (concat cws) = u_buflen u /\
  u_buflen u = inc * Z.of_nat (length cs) /\ unit_ok u1 /\
  chunks_written (set_verify_state td s) u1 inc 0 cs cps cws /\
  (0 < zlength (verify_pattern td) -> forall i, 0 <= i < zlength (concat cs) -> tbl (concat cs) i = pattern_byte (verify_pattern td) i).
Proof.
  intros (Hj & Hfill & Hinc & [k Hk] & Hnum & Hp). pose proof Hj as (J1 & J2 & J3 & J4). destruct (hdr_size_range (verify td)) as (_ & _ & Hhs).
  destruct (fill_verify_pattern_spec td u Hfill) as (s & seed & b & filled & Hfl & Hseed & Hbz & Hbb & Hpat). destruct Hfill as (_ & _ & _ & _ & _ & _ & Hl & Hbl & _).
  set (u1 := set_filled (set_buf (set_seed u seed) b) filled) in *. set (td1 := set_verify_state td s) in *.
  destruct (chunk_split b (u_buflen u) ltac:(lia)) as (b1 & T & -> & Hb1 & HT).
  destruct (split_chunks inc ltac:(lia) (Z.to_nat k) b1 ltac:(nia)) as (cs & -> & Hcs & Hcl).
  assert (Forall (fun c => zlength c = inc /\ bytes c) cs) as Hall.
  { apply list.Forall_and. split; [done|]. unfold bytes in Hbb. apply list.Forall_app in Hbb as [Hbb _]. by apply Forall_concat in Hbb. }
  destruct (populate_loop_spec td1 u1 inc T) with (cs := cs) (num := 0) (A := @nil Z) (fuel := Z.to_nat (u_buflen u)) as (cps & cws & Hpop & Hw);
    [exact Hj|by split|exact (proj2 Hl)|lia|unfold zlength; cbn; lia|done|change (u_buflen u1) with (u_buflen u); nia|nia|].
  exists s, u1, cs, cps, cws, T.
  split.
  { transitivity (fill_pattern_headers buckets td u 0 false); [unfold populate_verify_io_u; by destruct (verify td)|].
    unfold fill_pattern_headers. rewrite Hfl. cbn [mbind option_bind]. assert (get_hdr_inc td1 u1 = inc) as -> by exact Hinc.
    change (u_buf u1) with (concat cs ++ T). change (u_buflen u1) with (u_buflen u). change (zlength []) with 0 in Hpop. cbn [app] in Hpop. by rewrite Hpop. }
  assert (zlength (concat cws) = u_buflen u) as Hcw.
  { rewrite <- Hb1. exact (chunks_written_length _ _ _ _ _ _ _ Hw). }
  split; [done|]. split; [done|]. split; [done|]. split; [nia|]. split; [by split|]. split; [exact Hw|].
  intros Hp1 i Hi. rewrite <- Hpat by (done || lia). unfold tbl. rewrite app_nth1; [done|]. unfold zlength in Hi. lia.
Qed.

(** C34: What is written verifies: for every type with a header or a sum, the buffer that
    [populate_verify_io_u] fills - random data or a pattern, a header with its own
    checksum at every [verify_interval], the sum of the data after it, the header swapped
    to [verify_offset] - is accepted by [verify_io_u] when a unit with the same offset,
    seed and number reads it back into any buffer, and the loop ends with the job still
    running. *)
Theorem written_verifies td u inc : write_ok td u inc -> exists td1 u1,
  populate_verify_io_u buckets td u = Some (false, td1, u1) /\
  forall u2, reads_back td u1 u2 -> take (Z.to_nat (u_buflen u)) (u_buf u2) = take (Z.to_nat (u_buflen u)) (u_buf u1) ->
    u_trimmed u2 = false -> exists u3, verify_io_u stack256 stack512 td1 u2 = Some (0, false, td1, u3).
Proof.
  intros Hw. pose proof Hw as (Hj & (Hf & _ & _ & _ & Hp & _ & Hl & _) & Hinc & _ & _ & Hp0). pose proof Hj as (_ & _ & J3 & _). destruct (hdr_size_range (verify td)) as (_ & _ & Hhs).
  destruct (populate_verify_spec td u inc Hw) as (s & u1 & cs & cps & cws & T & Hpop & Hl1 & Hcs & Hcw & Hlen & Hu1 & Hch & Hpat).
  exists (set_verify_state td s), (set_buf u1 (concat cws ++ T)). split; [exact Hpop|]. intros u2 Hrb Hbuf Htrim. unfold verify_io_u. rewrite Htrim.
  destruct (_ || _); [by exists u2|]. destruct (_ || _); [by exists u2|].
  assert (exists T2, u_buf u2 = concat cws ++ T2) as [T2 ->].
  { exists (drop (Z.to_nat (u_buflen u)) (u_buf u2)). rewrite <- (take_drop (Z.to_nat (u_buflen u)) (u_buf u2)) at 1. f_equal.
    rewrite Hbuf, <- Hcw, zlength_to_nat. apply take_app_length. }
  assert (u_buflen u2 = u_buflen u) as E2 by (destruct Hrb as (_ & -> & _); exact Hl1).
  assert (get_hdr_inc (set_verify_state td s) u2 = inc) as E3 by (rewrite <- Hinc; unfold get_hdr_inc; cbn; by rewrite E2). rewrite E3.
  pose proof (verify_loop_good (set_verify_state td s) u1 u2 inc T2 Hj Hu1 Hrb Hf Hp Hp0 E3 ltac:(lia) 0 cs cps cws Hch [] (Z.to_nat (u_buflen u2))) as Hloop.
  change (zlength []) with 0 in Hloop. cbn [app] in Hloop. rewrite Hloop; [by eexists|lia|lia| |lia|nia].
  intros Hp1 i Hi. rewrite Z.mul_0_r. by apply Hpat.
Qed.
(** ** A changed byte *)

Lemma le_bytes_inj n a b : is_word (8 * Z.of_nat n) a -> is_word (8 * Z.of_nat n) b -> le_bytes n a = le_bytes n b -> a = b.
Proof. intros Ha Hb E. apply (f_equal le_value) in E. rewrite !le_value_bytes, !Z.mod_small in E by done. exact E. Qed.

(** The types whose sum is a checksum that notices every changed byte. *)
Definition crc_type (t : verify_t) : bool :=
  match t with VERIFY_CRC16 | VERIFY_CRC32 | VERIFY_CRC32C | VERIFY_CRC32C_INTEL | VERIFY_CRC64 => true | _ => false end.

Lemma fill_sum_detects t old D j x : crc_type t = true -> bytes D -> is_word 8 x -> (j < length D)%nat -> x <> tbl D (Z.of_nat j) ->
  fill_sum t old (<[j := x]> D) <> fill_sum t old D.
Proof.
  intros Ht HD Hx Hj Hne. destruct crc_steps_detect as (D16 & D32 & D32c & D64).
  assert (bytes (<[j := x]> D)) as HD' by by apply Forall_insert.
  assert (forall w f n c, step_detects w f -> w = 8 * Z.of_nat n -> is_word w c ->
    le_bytes n (fold_left f (<[j := x]> D) c) <> le_bytes n (fold_left f D c)) as Hd.
  { intros w f n c Hf -> Hc E%le_bytes_inj; [by eapply fold_detects in E|by apply fold_detects_range..]. }
  destruct t; try done; cbn [fill_sum]; intros E%(inj Some); revert E;
    [apply (Hd 64)|apply (Hd 32)|apply (Hd 32)|apply (Hd 32)|apply (Hd 16)]; first [done|vm_compute; split; congruence].
Qed.

Lemma insert_app_cases (a b : list Z) j x : (j < length (a ++ b))%nat ->
  (j < length a)%nat /\ <[j := x]> (a ++ b) = <[j := x]> a ++ b \/ exists k, (k < length b)%nat /\ j = (length a + k)%nat /\ <[j := x]> (a ++ b) = a ++ <[k := x]> b.
Proof.
  intros Hj. rewrite length_app in Hj. destruct (decide (j < length a)%nat) as [H|H]; [left; split; [done|by apply insert_app_l]|].
  right. exists (j - length a)%nat. split; [lia|]. split; [lia|]. rewrite insert_app_r_alt by lia. done.
Qed.

Lemma tbl_app_l (a b : list Z) j : (j < length a)%nat -> tbl (a ++ b) (Z.of_nat j) = tbl a (Z.of_nat j).
Proof. intros. unfold tbl. by rewrite app_nth1 by lia. Qed.

Lemma tbl_app_r (a b : list Z) k : tbl (a ++ b) (Z.of_nat (length a + k)) = tbl b (Z.of_nat k).
Proof. unfold tbl. rewrite app_nth2 by lia. f_equal. lia. Qed.

Lemma insert_neq (a : list Z) j x : (j < length a)%nat -> x <> tbl a (Z.of_nat j) -> <[j := x]> a <> a.
Proof.
  intros Hj Hne E. apply Hne. rewrite <- E at 1. unfold tbl. rewrite nth_lookup, Nat2Z.id, list_lookup_insert_eq by done. done.
Qed.

Lemma le_value_inj a : forall b, bytes a -> bytes b -> length a = length b -> le_value a = le_value b -> a = b.
Proof.
  induction a as [|x a IH]; intros [|y b] Ha Hb Hl E; try done. apply Forall_cons_1 in Ha as [Hx Ha]. apply Forall_cons_1 in Hb as [Hy Hb].
  cbn [le_value] in E. unfold is_word in *. assert (x = y /\ le_value a = le_value b) as [-> E2] by lia. f_equal. apply IH; try done. by injection Hl.
Qed.
(** Every header can be read; its fields are the slices of its bytes. *)
Fixpoint slices (ns : list nat) (c : list Z) (x : Z) : list Z :=
  match ns with [] => [] | n :: ns => le_value (slice c x (Z.of_nat n)) :: slices ns c (x + Z.of_nat n) end.

Lemma load_slices A c B : forall ns x, 0 <= x -> x + Z.of_nat (sum_list ns) <= zlength c -> load_fields ns (A ++ c ++ B) (zlength A + x) = Some (slices ns c x).
Proof.
  induction ns as [|n ns IH]; intros x Hx Hl; [done|]. cbn [load_fields slices]. change (sum_list (n :: ns)) with (n + sum_list ns)%nat in Hl.
  rewrite read_chunk by lia. cbn [mbind option_bind]. rewrite <- Z.add_assoc, IH by lia. done.
Qed.

Lemma header_damaged td u u2 A R B num inc j x : (j < 40)%nat -> is_word 8 x -> x <> tbl (header_image (chunk_header td u num inc)) (Z.of_nat j) ->
  let buf := A ++ (<[j := x]> (header_image (chunk_header td u num inc)) ++ R) ++ B in
  exists h, read_header buf (zlength A) = Some h /\ verify_header_ok td u2 buf (zlength A) h num inc = Some false.
Proof.
  intros Hj Hx Hne buf. set (h0 := chunk_header td u num inc) in *. pose proof (header_image_length h0) as Hl. set (c := <[j := x]> (header_image h0) ++ R).
  assert (zlength c = 40 + zlength R) as Hc by (unfold c; rewrite zlength_app; unfold zlength in *; rewrite length_insert; lia). assert (0 <= zlength R) by (unfold zlength; lia).
  pose proof (load_slices A c B header_layout 0 ltac:(lia) ltac:(cbn; lia)) as Hld. rewrite Z.add_0_r in Hld. change (A ++ c ++ B) with buf in Hld.
  unfold read_header. rewrite Hld. cbn [mbind option_bind header_layout slices Z.of_nat Pos.of_succ_nat Pos.succ Z.add Pos.add]. eexists. split; [done|].
  unfold verify_header_ok. assert (read_bytes offsetof_crc32 (at_off buf (zlength A)) = Some (slice c 0 36)) as -> by (rewrite <- (Z.add_0_r (zlength A)); apply read_chunk; unfold offsetof_crc32; lia).
  cbn [mbind option_bind hdr_crc32]. f_equal. apply andb_false_intro2. apply Z.eqb_neq.
  set (crc := crc32c_sw (header_bytes h0)). assert (is_word 32 crc) as Hw by (apply crc32c_word, header_bytes_bytes).
  assert (header_image h0 = header_bytes h0 ++ le_bytes 4 crc) as Ei by done. assert (forall n z, zlength (le_bytes n z) = Z.of_nat n) as Hle by (intros; unfold zlength; by rewrite le_bytes_length).
  assert (zlength (header_bytes h0) = 36) as Hhb by (unfold zlength; by rewrite header_length).
  unfold c. clear Hld Hc. clearbody buf. rewrite Ei in *. destruct (insert_app_cases (header_bytes h0) (le_bytes 4 crc) j x) as [[Hk ->]|(k & Hk & -> & ->)].
  - unfold zlength in Hl. lia.
  - rewrite tbl_app_l in Hne by done. rewrite <- (app_assoc (<[j := x]> (header_bytes h0))), slice_first, slice_mid by (done || (unfold zlength in *; rewrite ?length_insert; lia)).
    rewrite le_value_bytes, Z.mod_small by exact Hw. destruct crc_steps_detect as (_ & _ & D32c & _). unfold crc, crc32c_sw.
    apply (fold_detects 32); first [done|apply header_bytes_bytes|vm_compute; split; congruence].
  - rewrite tbl_app_r in Hne. rewrite <- app_assoc, slice_first, slice_mid by (done || (unfold zlength in *; rewrite ?length_insert, ?le_bytes_length; lia)). fold crc. intros E.
    apply (insert_neq (le_bytes 4 crc) k x Hk Hne). apply le_value_inj; [apply Forall_insert; [apply le_bytes_bytes|done]|apply le_bytes_bytes|by rewrite length_insert|].
    rewrite <- E, le_value_bytes, Z.mod_small by exact Hw. done.
Qed.

(** The jobs whose check notices every changed byte. *)
Definition detects (td : thread_data) : Prop :=
  crc_type (verify td) = true \/
  (0 < zlength (verify_pattern td) /\ (verify td = VERIFY_PATTERN \/ verify td = VERIFY_PATTERN_NO_HDR \/ verify td = VERIFY_HDR_ONLY)).

Lemma detects_pattern td : detects td -> zlength (verify_pattern td) = 0 -> verify td <> VERIFY_PATTERN /\ verify td <> VERIFY_PATTERN_NO_HDR.
Proof. intros [H|[H _]] E; [|lia]. by destruct (verify td). Qed.

Lemma sum_damaged td u u2 A sum D B num inc k x : crc_type (verify td) = true -> unit_ok u -> zlength A = inc * num -> 0 <= num -> inc * num + inc < 2 ^ 32 ->
  __hdr_size (verify td) < inc -> zlength sum = priv_size (verify td) -> zlength D = inc - __hdr_size (verify td) -> bytes D ->
  (forall old, zlength old = priv_size (verify td) -> fill_sum (verify td) old D = Some sum) ->
  (k < length (sum ++ D))%nat -> is_word 8 x -> x <> tbl (sum ++ D) (Z.of_nat k) ->
  verify_switch stack256 stack512 (verify td) td u2 (A ++ (header_image (chunk_header td u num inc) ++ <[k := x]> (sum ++ D)) ++ B) (chunk_header td u num inc) (zlength A) num 0 =
  Some (EILSEQ, td).
Proof.
  intros Ht Hu HA Hn Hb Hs Hsl HDl HDb Hsum Hk Hx Hne. assert (has_sum (verify td) = true) as Hst by (by destruct (verify td)).
  destruct (insert_app_cases sum D k x Hk) as [[Hk1 ->]|(m & Hm & -> & ->)].
  - rewrite tbl_app_l in Hne by done. destruct (verify_switch_sum td u A (<[k := x]> sum) D B num inc) with (u2 := u2) as (old & Hold & ->); try done;
      [unfold zlength in *; by rewrite length_insert|]. rewrite Hsum by done. cbn [mbind option_bind]. by rewrite bool_decide_false by (by apply insert_neq).
  - rewrite tbl_app_r in Hne. destruct (verify_switch_sum td u A sum (<[m := x]> D) B num inc) with (u2 := u2) as (old & Hold & ->); try done;
      [unfold zlength in *; by rewrite length_insert|]. pose proof (fill_sum_detects (verify td) old D m x Ht HDb Hx Hm Hne) as Hd. rewrite (Hsum old Hold) in Hd.
    assert (exists s, fill_sum (verify td) old (<[m := x]> D) = Some s) as [s' Es] by (destruct (verify td); try done; by eexists).
    rewrite Es in Hd |- *. cbn [mbind option_bind]. rewrite bool_decide_false; [done|]. intros ->. by apply Hd.
Qed.

Lemma pattern_damaged td u2 A cp B num inc j x : verify_fmt td = [] -> 0 < zlength (verify_pattern td) < 2 ^ 32 ->
  get_hdr_inc td u2 = inc -> 0 <= num -> inc * num + inc < 2 ^ 32 -> zlength cp = inc -> __hdr_size (verify td) <= Z.of_nat j < inc ->
  x <> tbl cp (Z.of_nat j) -> pattern_at td num inc cp ->
  verify_io_u_pattern td u2 (A ++ <[j := x]> cp ++ B) (zlength A) num = Some (EILSEQ, td).
Proof.
  intros Hf Hp Hi Hn Hb Hc Hj Hne Hpat.
  destruct (verify_pattern_exact td u2 A (<[j := x]> cp) B num inc) as (r & -> & Hr); try done; [unfold zlength in *; by rewrite length_insert|lia|].
  destruct r; [|done]. destruct Hne. rewrite (Hpat (Z.of_nat j)) by lia. rewrite <- (proj1 Hr eq_refl (Z.of_nat j)) by lia.
  unfold tbl. rewrite nth_lookup, Nat2Z.id, list_lookup_insert_eq by (unfold zlength in Hc; lia). done.
Qed.

Lemma verify_turn_damaged td u1 u2 A cp cw B num inc j x : job_ok td inc -> unit_ok u1 -> reads_back td u1 u2 -> verify_fmt td = [] ->
  zlength (verify_pattern td) < 2 ^ 32 -> detects td -> get_hdr_inc td u2 = inc -> zlength A = inc * num -> 0 <= num -> inc * num + inc < 2 ^ 32 -> zlength cp = inc ->
  good_chunk td u1 num inc cp -> bytes (at_off cp (__hdr_size (verify td))) -> (0 < zlength (verify_pattern td) -> pattern_at td num inc cp) ->
  (j < length cp)%nat -> is_word 8 x -> x <> tbl cp (Z.of_nat j) -> swapped (verify_offset td) (__hdr_size (verify td)) (<[j := x]> cp) cw ->
  exists r buf, verify_turn stack256 stack512 td u2 (A ++ cw ++ B) (zlength A) num inc 0 = Some (r, td, buf) /\ (r = inl EILSEQ \/ r = inr EILSEQ).
Proof.
  intros Hj Hu Hrb Hf Hp Hdet Hi HA Hn Hb Hc Hg Hbytes Hpat Hjl Hx Hne Hsw. pose proof Hj as (_ & _ & H3 & _). destruct (hdr_size_range (verify td)) as (Hpr & Hhs & Hhs2).
  assert (zlength (<[j := x]> cp) = inc) as Hc' by (unfold zlength in *; by rewrite length_insert). assert (is_word 32 inc) as Hi32 by (unfold is_word; lia).
  destruct (decide (verify td = VERIFY_PATTERN_NO_HDR)) as [E|E].
  { destruct (verify_turn_chunk td u1 u2 A (<[j := x]> cp) cw B num inc) as (h & _ & ->); try done.
    destruct Hdet as [Hd|[Hp0 _]]; [by rewrite E in Hd|]. unfold verify_switch. rewrite E in *. cbn [__hdr_size] in *.
    assert (verify_io_u_pattern td u2 (A ++ <[j := x]> cp ++ B) (zlength A) num = Some (EILSEQ, td)) as ->.
    { apply (pattern_damaged td u2 A cp B num inc j x); try done; [rewrite E; cbn; unfold zlength in Hc; lia|by apply Hpat]. }
    cbn [mbind option_bind]. eexists _, _. split; [done|by right]. }
  specialize (Hhs E). destruct (Hg E) as (sum & D & -> & Hsl & Hsum). set (H := header_image (chunk_header td u1 num inc)) in *.
  pose proof (header_image_length (chunk_header td u1 num inc)) as HH. fold H in HH.
  assert (at_off (H ++ sum ++ D) (__hdr_size (verify td)) = D) as ED by (rewrite (app_assoc H sum); apply at_off_app; rewrite zlength_app; lia). rewrite ED in Hbytes.
  destruct (insert_app_cases H (sum ++ D) j x Hjl) as [[Hj1 Ei]|(k & Hk & -> & Ei)].
  - rewrite Ei in Hsw, Hc'. rewrite tbl_app_l in Hne by done.
    destruct (header_damaged td u1 u2 A (sum ++ D) B num inc j x) as (h & Hrd & Hok); [unfold zlength in HH; lia|done|done|]. fold H in Hrd, Hok.
    unfold verify_turn. rewrite (swap_back td A (<[j := x]> H ++ sum ++ D) cw B inc) by done. cbn [mbind option_bind].
    eexists _, _. split; [|by left]. destruct (verify td); try done; rewrite Hrd; cbn [mbind option_bind]; rewrite Hok; done.
  - rewrite Ei in Hsw, Hc'. rewrite tbl_app_r in Hne.
    destruct (verify_turn_chunk td u1 u2 A (H ++ <[k := x]> (sum ++ D)) cw B num inc) as (h & Hh & ->); try done; [by eexists|]. rewrite (Hh E).
    assert (verify_switch stack256 stack512 (verify td) td u2 (A ++ (H ++ <[k := x]> (sum ++ D)) ++ B) (chunk_header td u1 num inc) (zlength A) num 0 = Some (EILSEQ, td)) as ->;
      [|cbn [mbind option_bind]; eexists _, _; split; [done|by right]].
    destruct Hdet as [Hd|[Hp0 Hd]]; [apply sum_damaged; try done; rewrite ?zlength_app in *; lia|].
    assert (priv_size (verify td) = 0) as E0 by (by destruct Hd as [->|[->| ->]]).
    rewrite <- Ei. pose proof (pattern_damaged td u2 A (H ++ sum ++ D) B num inc (length H + k) x Hf ltac:(lia) Hi Hn Hb Hc) as Hpd.
    rewrite tbl_app_r in Hpd. specialize (Hpd ltac:(unfold zlength in *; lia) Hne (Hpat Hp0)).
    unfold verify_switch. destruct Hd as [Et|[Et|Et]]; rewrite Et; [done..|]. destruct (Z.eqb_spec (zlength (verify_pattern td)) 0); [lia|done].
Qed.

Lemma swapped_insert vo n c d j x : swapped vo n c d -> (j < length d)%nat ->
  exists i, (i < length c)%nat /\ tbl c (Z.of_nat i) = tbl d (Z.of_nat j) /\ swapped vo n (<[i := x]> c) (<[j := x]> d).
Proof.
  intros [d0 H|X Y V W Hvo HX HY HV] Hj; [by exists j; repeat split; [done|apply swap_none]|].
  assert (forall a i, zlength (<[i := x]> a) = zlength a) as Hz by (intros; unfold zlength; by rewrite length_insert).
  destruct (insert_app_cases V (Y ++ X ++ W) j x Hj) as [[H ->]|(k & Hk & -> & ->)]; [|destruct (insert_app_cases Y (X ++ W) k x Hk) as [[H ->]|(m & Hm & -> & ->)];
    [|destruct (insert_app_cases X W m x Hm) as [[H ->]|(l & Hl & -> & ->)]]].
  - exists (length X + (length Y + j))%nat. rewrite !tbl_app_r, !tbl_app_l, !insert_app_r, insert_app_l by done. split; [rewrite !length_app; lia|]. split; [done|].
    apply swap_parts; [done..|by rewrite Hz].
  - exists (length X + k)%nat. rewrite !tbl_app_r, !tbl_app_l, insert_app_r, insert_app_l by done. split; [rewrite !length_app; lia|]. split; [done|].
    apply swap_parts; [done..|by rewrite Hz|done].
  - exists m. rewrite !tbl_app_r, !tbl_app_l, insert_app_l by done. split; [rewrite !length_app; lia|]. split; [done|]. apply swap_parts; [done|by rewrite Hz|done..].
  - exists (length X + (length Y + (length V + l)))%nat. rewrite !tbl_app_r, !insert_app_r. split; [rewrite !length_app; lia|]. split; [done|]. by apply swap_parts.
Qed.

(** A damaged buffer is refused at its damaged chunk; a chunk after it could reset the
    status, unless the failure is fatal. *)
Lemma verify_loop_damaged td u1 u2 inc T x : job_ok td inc -> unit_ok u1 -> reads_back td u1 u2 -> verify_fmt td = [] -> zlength (verify_pattern td) < 2 ^ 32 ->
  detects td -> get_hdr_inc td u2 = inc -> u_buflen u2 < 2 ^ 29 -> is_word 8 x ->
  forall num cs cps cws, chunks_written td u1 inc num cs cps cws -> forall A fuel p, 0 <= num -> zlength A = inc * num ->
  (0 < zlength (verify_pattern td) -> forall i, 0 <= i < zlength (concat cs) -> tbl (concat cs) i = pattern_byte (verify_pattern td) (inc * num + i)) ->
  u_buflen u2 = inc * (num + Z.of_nat (length cs)) -> (length cs <= fuel)%nat ->
  (p < length (concat cws))%nat -> x <> tbl (concat cws) (Z.of_nat p) -> verify_fatal td = true \/ zlength (concat cws) - inc <= Z.of_nat p ->
  exists ended buf, verify_loop stack256 stack512 fuel td u2 (A ++ <[p := x]> (concat cws) ++ T) (zlength A) num inc 0 = Some (EILSEQ, ended, td, buf).
Proof.
  intros Hj Hu Hrb Hf Hp Hdet Hi Hb Hx num cs cps cws Hw. destruct (hdr_size_range (verify td)) as (_ & _ & Hhs). pose proof Hj as (J1 & J2 & J3 & J4).
  induction Hw as [num|num c cp cw cs cps cws Hg Hsw Hcb Hc Hcp Hcw Hat Hw IH]; intros A fuel p Hn HA Hpat Hl Hfuel Hpl Hne Hfat; cbn [length concat] in *; [lia|].
  destruct fuel as [|fuel]; [lia|]. cbn [verify_loop]. destruct (Z.leb_spec (u_buflen u2) (zlength A)); [nia|]. cbn [c_true Z.eqb negb andb].
  assert (0 < zlength (verify_pattern td) -> pattern_at td num inc cp) as Hpc.
  { intros Hp1. apply (chunk_pattern td inc num c cp cs); [done|done|lia|by apply Hpat]. }
  destruct (insert_app_cases cw (concat cws) p x Hpl) as [[Hp1 ->]|(k & Hk & -> & ->)].
  - rewrite tbl_app_l in Hne by done. destruct (swapped_insert _ _ _ _ p x Hsw Hp1) as (i & Hil & Ht & Hsw').
    destruct (verify_turn_damaged td u1 u2 A cp (<[p := x]> cw) (concat cws ++ T) num inc i x) as (r & buf & Hturn & Hr); try done; [nia|rewrite Hat; by apply Forall_drop|by rewrite Ht|].
    rewrite <- app_assoc. rewrite Hturn. cbn [mbind option_bind]. destruct Hr as [-> | ->]; [by eexists _, _|].
    assert (verify_fatal td = true \/ u_buflen u2 <= zlength A + inc) as Hend.
    { destruct Hfat as [Hfat|Hlast]; [by left|right]. rewrite zlength_app in Hlast. assert (Z.of_nat p < inc) as Hpi by (rewrite <- Hcw; unfold zlength; lia). assert (zlength (concat cws) < inc) as Hsm by lia.
      rewrite (chunks_written_length _ _ _ _ _ _ _ Hw) in Hsm. rewrite (chunks_count _ _ _ _ _ _ _ Hw) in Hsm.
      destruct (length cs) as [|n]; [lia|]. pose proof (Z.mul_le_mono_nonneg_l 1 (Z.of_nat (S n)) inc ltac:(lia) ltac:(lia)). lia. }
    destruct fuel; cbn [verify_loop]; (destruct (Z.leb_spec (u_buflen u2) (zlength A + inc)); [by eexists _, _|destruct Hend as [->|]; [by eexists _, _|lia]]).
  - rewrite tbl_app_r in Hne. rewrite <- !app_assoc. rewrite (verify_turn_good td u1 u2 A cp cw (<[k := x]> (concat cws) ++ T) num inc) by (try done; try nia; by apply detects_pattern). cbn [mbind option_bind].
    rewrite (addw32_next inc num (u_buflen u2)) by nia. rewrite (app_assoc A cp).
    replace (zlength A + inc) with (zlength (A ++ cp)) by (rewrite zlength_app; lia). apply IH; [lia|rewrite zlength_app; lia| |lia|lia|done|done|].
    + intros Hp1 i Hii. apply (chunks_pattern_tail td inc num c cs); [done|by apply Hpat|done].
    + destruct Hfat as [Hfat|Hlast]; [by left|right]. rewrite zlength_app in Hlast. unfold zlength in *. lia.
Qed.

(** C35: Every changed byte is noticed: when one byte of a written buffer - of a header, of a
    sum, of the data, wherever [verify_offset] has put them - comes back with another
    value, [verify_io_u] returns [EILSEQ], for the 16, 32 and 64 bit checksums and for
    compared patterns, provided that a failure is fatal or that the byte is in the last
    chunk (a good chunk after the damaged one resets the status otherwise). *)
Theorem damage_is_noticed td u inc : write_ok td u inc -> detects td -> fake_io td = false -> exists td1 u1,
  populate_verify_io_u buckets td u = Some (false, td1, u1) /\
  forall u2 p x, reads_back td u1 u2 -> u_trimmed u2 = false -> u_read u2 = true -> u_ver_in_dev u2 = false ->
    Z.of_nat p < u_buflen u -> is_word 8 x -> x <> tbl (u_buf u1) (Z.of_nat p) ->
    take (Z.to_nat (u_buflen u)) (u_buf u2) = <[p := x]> (take (Z.to_nat (u_buflen u)) (u_buf u1)) ->
    verify_fatal td = true \/ u_buflen u - inc <= Z.of_nat p ->
    exists ended u3, verify_io_u stack256 stack512 td1 u2 = Some (EILSEQ, ended, td1, u3).
Proof.
  intros Hw Hdet Hfake. pose proof Hw as (Hj & (Hf & _ & _ & _ & Hp & _ & Hl & _) & Hinc & _ & _ & _). pose proof Hj as (_ & J2 & J3 & _). destruct (hdr_size_range (verify td)) as (_ & _ & Hhs).
  destruct (populate_verify_spec td u inc Hw) as (s & u1 & cs & cps & cws & T & Hpop & Hl1 & Hcs & Hcw & Hlen & Hu1 & Hch & Hpat).
  exists (set_verify_state td s), (set_buf u1 (concat cws ++ T)). split; [exact Hpop|]. intros u2 p x Hrb Htrim Hread Hdev Hpl Hx Hne Hbuf Hfat.
  change (u_buf (set_buf u1 (concat cws ++ T))) with (concat cws ++ T) in *. rewrite <- Hcw, zlength_to_nat, take_app_length in Hbuf. rewrite tbl_app_l in Hne by (unfold zlength in Hcw; lia).
  unfold verify_io_u. rewrite Htrim, Hread, Hdev. change (fake_io (set_verify_state td s)) with (fake_io td). rewrite Hfake.
  change (verify (set_verify_state td s)) with (verify td). rewrite bool_decide_false by done. cbn [orb negb].
  assert (exists T2, u_buf u2 = <[p := x]> (concat cws) ++ T2) as [T2 ->].
  { exists (drop (length (concat cws)) (u_buf u2)). by rewrite <- Hbuf, take_drop. }
  assert (u_buflen u2 = u_buflen u) as E2 by (destruct Hrb as (_ & -> & _); exact Hl1).
  assert (get_hdr_inc (set_verify_state td s) u2 = inc) as E3 by (rewrite <- Hinc; unfold get_hdr_inc; cbn; by rewrite E2). rewrite E3.
  destruct (verify_loop_damaged (set_verify_state td s) u1 u2 inc T2 x Hj Hu1 Hrb Hf Hp Hdet E3 ltac:(lia) Hx 0 cs cps cws Hch [] (Z.to_nat (u_buflen u2)) p) as (e & b & Hloop);
    [lia|unfold zlength; cbn; lia| |lia|nia|unfold zlength in Hcw; lia|done|by rewrite Hcw|].
  { intros Hp1 i Hi. rewrite Z.mul_0_r. by apply Hpat. }
  change (zlength []) with 0 in Hloop. cbn [app] in Hloop. rewrite Hloop. by eexists _, _.
Qed.
End Chunks.

(** ** On concrete blocks *)

(** Two chunks of 64 bytes in a unit of 128 at offset 8192. *)
Definition sample_unit : io_u := mk_io_u (replicate 128 0) 128 8192 8192 7 42 1000 2000 0 true false false.
Definition sample_job (t : verify_t) (vo : Z) (fatal : bool) (pat : list Z) : thread_data :=
  mk_td t 64 vo true true fatal pat [] [] 0 false false false true 128 128 false 3 (init_rand false).
Definition zeros64 : list Z := replicate 64 0.
Definition zeros128 : list Z := replicate 128 0.

Lemma sample_ok t vo fatal pat : t <> VERIFY_NONE -> t <> VERIFY_NULL -> __hdr_size t < 64 -> vo = 0 -> bytes pat -> zlength pat < 100 ->
  (zlength pat = 0 -> t <> VERIFY_PATTERN /\ t <> VERIFY_PATTERN_NO_HDR) -> write_ok (sample_job t vo fatal pat) sample_unit 64.
Proof.
  intros H1 H2 H3 -> Hb Hp Hp0. split; [|split; [|split; [done|split; [by exists 2|split; [by vm_compute|done]]]]].
  - split; [done|]. split; [done|]. split; [cbn [verify sample_job]; lia|by left].
  - unfold fill_ok. cbn [verify_fmt compress_percentage verify_pattern buffer_pattern sample_job u_buflen u_buf u_rand_seed u_filled sample_unit].
    split; [done|]. split; [lia|]. split; [done|]. split; [constructor|]. split; [lia|]. split; [done|]. split; [done|]. split; [done|].
    split; [apply Forall_replicate; by unfold is_word|]. by split.
Qed.

(** The unit that reads a buffer back. *)
Definition read_back (u : io_u) (b : list Z) : io_u :=
  mk_io_u b (u_buflen u) (u_offset u) (u_verify_offset u) (u_rand_seed u) (u_numberio u) 0 0 0 true false false.

Lemma written_verifies_witness : let td := sample_job VERIFY_CRC32C 0 false [] in exists td1 u1 u3,
  populate_verify_io_u 4 td sample_unit = Some (false, td1, u1) /\
  verify_io_u zeros64 zeros128 td1 (read_back u1 (u_buf u1)) = Some (0, false, td1, u3).
Proof.
  intros td. assert (write_ok td sample_unit 64) as Hw by (apply sample_ok; done || constructor).
  destruct (written_verifies 4 zeros64 zeros128 eq_refl eq_refl ltac:(lia) td sample_unit 64 Hw) as (td1 & u1 & Hp & Hv).
  destruct (Hv (read_back u1 (u_buf u1))) as (u3 & H3); [by repeat split|done|done|]. exists td1, u1, u3. split; [exact Hp|exact H3].
Defined.

Lemma damage_is_noticed_witness : let td := sample_job VERIFY_CRC64 0 true [] in exists td1 u1 ended u3,
  populate_verify_io_u 4 td sample_unit = Some (false, td1, u1) /\
  verify_io_u zeros64 zeros128 td1 (read_back u1 (<[50%nat := (tbl (u_buf u1) 50 + 1) mod 256]> (take 128 (u_buf u1)))) = Some (EILSEQ, ended, td1, u3).
Proof.
  intros td. assert (write_ok td sample_unit 64) as Hw by (apply sample_ok; done || constructor).
  destruct (damage_is_noticed 4 zeros64 zeros128 eq_refl eq_refl ltac:(lia) td sample_unit 64 Hw (or_introl eq_refl) eq_refl) as (td1 & u1 & Hp & Hv).
  destruct (Hv (read_back u1 (<[50%nat := (tbl (u_buf u1) 50 + 1) mod 256]> (take 128 (u_buf u1)))) 50%nat ((tbl (u_buf u1) 50 + 1) mod 256)) as (e & u3 & H3);
    [by repeat split|reflexivity|reflexivity|reflexivity|reflexivity|apply Z.mod_pos_bound; lia| | |left; reflexivity|exists td1, u1, e, u3; split; [exact Hp|exact H3]].
  - change (Z.of_nat 50) with 50. intros E. pose proof (Z.div_mod (tbl (u_buf u1) 50 + 1) 256 ltac:(lia)). lia.
  - change (u_buf (read_back u1 _)) with (<[50%nat := (tbl (u_buf u1) 50 + 1) mod 256]> (take 128 (u_buf u1))).
    apply take_ge. rewrite length_insert, length_take. change (Z.to_nat (u_buflen sample_unit)) with 128%nat. lia.
Defined.

(** A status that is lost: without [verify_fatal] the chunk after a damaged one resets it. *)
Example damaged_chunk_forgotten :
  (let* '(_, td, u) := populate_verify_io_u 4 (sample_job VERIFY_CRC32 0 false []) sample_unit in
   let* '(ret, _, _, _) := verify_io_u zeros64 zeros128 td (read_back u (<[50%nat := 1]> (u_buf u))) in
   Some (tbl (u_buf u) 50 =? 1, ret)) = Some (false, 0).
Proof. vm_compute. reflexivity. Qed.

(** A pattern with an offset header: a buffer that is written twice without being filled
    again holds the first header where the pattern was, and is refused. *)
Definition offset_job : thread_data :=
  mk_td VERIFY_PATTERN 128 64 true true false [1; 2; 3] [] [] 0 false false false true 128 128 false 3 (init_rand false).

Example refilled_pattern_refused :
  (let* '(_, td, u) := populate_verify_io_u 4 offset_job sample_unit in
   let* '(r1, _, _, _) := verify_io_u zeros64 zeros128 td (read_back u (u_buf u)) in
   let* '(_, td, u) := populate_verify_io_u 4 td u in
   let* '(r2, _, _, _) := verify_io_u zeros64 zeros128 td (read_back u (u_buf u)) in Some (r1, r2)) = Some (0, EILSEQ).
Proof. vm_compute. reflexivity. Qed.

(** An offset of 40 is allowed (only the plain header is checked against it), but the two
    areas of the swap overlap for every type that has a sum. *)
Example overlapping_swap :
  populate_verify_io_u 4 (mk_td VERIFY_CRC7 128 40 true true false [] [] [] 0 false false false true 128 128 false 3 (init_rand false)) sample_unit = None.
Proof. vm_compute. reflexivity. Qed.
