(* ===== verification/Sem.v ===== *)
(** fio_sem.c: semaphores built of a mutex and a condition variable, and the threads that
    use them. *)
From stdpp Require Import relations.
From S2P Require Import Prelude.

(** * Data

    The mutex is held over every access, so that what a thread does between taking it and
    releasing it, or sleeping on the condition variable, is one definition below and one
    step of the system.  The queue of the condition variable is the set of threads that
    are asleep. *)

Definition FIO_SEM_MAGIC : Z := 0x4d555445.
Definition ETIMEDOUT : Z := 110.

Record fio_sem : Type := mk_sem { value : Z; waiters : Z; magic : Z }.

(** * Operations *)

Definition __fio_sem_init (v : Z) : fio_sem := mk_sem v 0 FIO_SEM_MAGIC.

Definition sem_magic (s : fio_sem) : option unit := c_assert (magic s =? FIO_SEM_MAGIC).

Definition __fio_sem_remove (s : fio_sem) : option fio_sem := let* _ := sem_magic s in Some (mk_sem 0 0 0).

Definition add_waiter (s : fio_sem) : option fio_sem := let* w := int_inc (waiters s) in Some (mk_sem (value s) w (magic s)).
Definition sub_waiter (s : fio_sem) : option fio_sem := let* w := int_dec (waiters s) in Some (mk_sem (value s) w (magic s)).
Definition take_value (s : fio_sem) : option fio_sem := let* v := int_dec (value s) in Some (mk_sem v (waiters s) (magic s)).

(** The [while] of [fio_sem_down]: true when the semaphore was taken, false when the
    thread goes to sleep. *)
Definition down_turn (s : fio_sem) : option (bool * fio_sem) :=
  if value s =? 0 then let* s := add_waiter s in Some (false, s) else let* s := take_value s in Some (true, s).

Definition fio_sem_down (s : fio_sem) : option (bool * fio_sem) := let* _ := sem_magic s in down_turn s.

(** After [pthread_cond_wait]. *)
Definition down_resume (s : fio_sem) : option (bool * fio_sem) := let* s := sub_waiter s in down_turn s.

(** The [while] of [fio_sem_down_timeout]: [None] when the thread goes to sleep, else the
    value returned. *)
Definition timeout_turn (s : fio_sem) (ret : Z) : option (option Z * fio_sem) :=
  if (value s =? 0) && (ret =? 0) then Some (None, s) else
  let* s := sub_waiter s in
  if ret =? 0 then let* s := take_value s in Some (Some 0, s) else Some (Some ret, s).

Definition fio_sem_down_timeout (s : fio_sem) : option (option Z * fio_sem) :=
  let* _ := sem_magic s in let* s := add_waiter s in timeout_turn s 0.

(** After [pthread_cond_timedwait], which returned [ret]; [timed_out] is what
    [sem_timed_out] answers. *)
Definition timeout_resume (s : fio_sem) (ret : Z) (timed_out : bool) : option (option Z * fio_sem) :=
  timeout_turn s (if (ret =? ETIMEDOUT) && negb timed_out then 0 else ret).

(** True when the semaphore was not free. *)
Definition fio_sem_down_trylock (s : fio_sem) : option (bool * fio_sem) :=
  let* _ := sem_magic s in
  if value s =? 0 then Some (true, s) else let* s := take_value s in Some (false, s).

(** The flag is [do_wake]: the condition variable is signalled. *)
Definition fio_sem_up (s : fio_sem) : option (bool * fio_sem) :=
  let* _ := sem_magic s in
  let do_wake := (value s =? 0) && c_true (waiters s) in
  let* v := int_inc (value s) in
  Some (do_wake, mk_sem v (waiters s) (magic s)).

(** The absolute time until which [fio_sem_down_timeout] waits. *)
Definition sem_deadline (sec nsec msecs : Z) : Z * Z :=
  let sec := sec + msecs / 1000 in
  let nsec := nsec + mulw 64 msecs 1000000 mod 1000000000 in
  if 1000000000 <=? nsec then (sec + 1, nsec - 1000000000) else (sec, nsec).

(** * Threads

    A thread owns the semaphore from the call that took it to its [fio_sem_up]. *)

Inductive call : Type := Down | Timeout.

Inductive pc : Type :=
  | Idle
  | Owner
  | Asleep (c : call)
  | Woken (c : call) (ret : Z).

Record system : Type := mk_sys { sem : fio_sem; threads : list pc; taken : Z; posted : Z }.

Definition initial (v : Z) (n : nat) : system := mk_sys (__fio_sem_init v) (replicate n Idle) 0 0.

(** What happens next.  [EUp t w]: thread [t] posts, and [w] is the thread that the
    signal, if there is one, wakes.  Sleepers also wake for no reason, and a timed one
    when its time is over; [EResume] is the return of a woken thread from the wait. *)
Inductive event : Type :=
  | EDown (t : nat) | ETimeout (t : nat) | ETry (t : nat) | EUp (t : nat) (w : option nat)
  | ESpurious (t : nat) | EExpire (t : nat) | EResume (t : nat) (timed_out : bool).

Definition set_pc (s : system) (t : nat) (p : pc) (m : fio_sem) (took : bool) : system :=
  mk_sys m (<[t := p]> (threads s)) (taken s + Z.b2z took) (posted s).

Definition asleep (p : pc) : bool := match p with Asleep _ => true | _ => false end.
Definition waiting (p : pc) : bool := match p with Asleep _ | Woken _ _ => true | _ => false end.
Definition owns (p : pc) : bool := match p with Owner => true | _ => false end.

(** The result of a timed wait as the next state of its thread. *)
Definition timeout_pc (r : option Z) : pc := match r with None => Asleep Timeout | Some ret => if ret =? 0 then Owner else Idle end.

(** [fio_sem_up] signals the condition variable. *)
Definition wakes (m : fio_sem) : bool := match fio_sem_up m with Some (do_wake, _) => do_wake | None => false end.

(** Whether an event can happen. *)
Definition enabled (s : system) (e : event) : bool :=
  match e with
  | EDown t | ETimeout t | ETry t => match threads s !! t with Some Idle => true | _ => false end
  | EUp t w =>
      match threads s !! t with Some (Idle | Owner) => true | _ => false end &&
      match w with
      | Some i => wakes (sem s) && match threads s !! i with Some (Asleep _) => true | _ => false end
      | None => negb (wakes (sem s)) || (count_if asleep (threads s) =? 0)
      end
  | ESpurious t => match threads s !! t with Some (Asleep _) => true | _ => false end
  | EExpire t => match threads s !! t with Some (Asleep Timeout) => true | _ => false end
  | EResume t _ => match threads s !! t with Some (Woken _ _) => true | _ => false end
  end.

Definition exec (s : system) (e : event) : option system :=
  match e with
  | EDown t => let* '(got, m) := fio_sem_down (sem s) in Some (set_pc s t (if (got : bool) then Owner else Asleep Down) m got)
  | ETimeout t => let* '(r, m) := fio_sem_down_timeout (sem s) in Some (set_pc s t (timeout_pc r) m (owns (timeout_pc r)))
  | ETry t => let* '(busy, m) := fio_sem_down_trylock (sem s) in Some (set_pc s t (if (busy : bool) then Idle else Owner) m (negb busy))
  | EUp t w =>
      let* '(_, m) := fio_sem_up (sem s) in
      let s := mk_sys m (<[t := Idle]> (threads s)) (taken s) (posted s + 1) in
      match w with
      | None => Some s
      | Some i =>
          match threads s !! i with
          | Some (Asleep c) => Some (set_pc s i (Woken c 0) m false)
          | _ => None
          end
      end
  | ESpurious t => match threads s !! t with Some (Asleep c) => Some (set_pc s t (Woken c 0) (sem s) false) | _ => None end
  | EExpire t => match threads s !! t with Some (Asleep c) => Some (set_pc s t (Woken c ETIMEDOUT) (sem s) false) | _ => None end
  | EResume t timed_out =>
      match threads s !! t with
      | Some (Woken Down _) => let* '(got, m) := down_resume (sem s) in Some (set_pc s t (if (got : bool) then Owner else Asleep Down) m got)
      | Some (Woken Timeout ret) =>
          let* '(r, m) := timeout_resume (sem s) ret timed_out in Some (set_pc s t (timeout_pc r) m (owns (timeout_pc r)))
      | _ => None
      end
  end.

Inductive step (s : system) (e : event) : system -> Prop :=
  | step_exec s' : enabled s e = true -> exec s e = Some s' -> step s e s'.

(** Any thread may post, or only the one that owns the semaphore. *)
Definition any_step (s s' : system) : Prop := exists e, step s e s'.

Definition lock_event (s : system) (e : event) : Prop := match e with EUp t _ => threads s !! t = Some Owner | _ => True end.
Definition lock_step (s s' : system) : Prop := exists e, lock_event s e /\ step s e s'.

(** * Proofs *)

(** ** The state of a semaphore *)

(** [v] is the value at the start. *)
Record sem_ok (v : Z) (s : system) : Prop := mk_ok {
  ok_magic : magic (sem s) = FIO_SEM_MAGIC;
  ok_value : 0 <= value (sem s);
  ok_count : value (sem s) = v + posted s - taken s;
  ok_waiters : waiters (sem s) = count_if waiting (threads s) }.

Lemma initial_ok v n : 0 <= v -> sem_ok v (initial v n).
Proof.
  intros Hv. split; cbn; [done|done|lia|]. unfold count_if. by induction n.
Qed.

Lemma int_inc_Some x y : int_inc x = Some y <-> x < 2 ^ 31 - 1 /\ y = x + 1.
Proof. unfold int_inc. destruct (Z.ltb_spec x (2 ^ 31 - 1)); split; [intros [= <-]; lia|by intros [_ ->]|done|lia]. Qed.

Lemma int_dec_Some x y : int_dec x = Some y <-> - 2 ^ 31 < x /\ y = x - 1.
Proof. unfold int_dec. destruct (Z.ltb_spec (- 2 ^ 31) x); split; [intros [= <-]; lia|by intros [_ ->]|done|lia]. Qed.

Lemma magic_ok v s : sem_ok v s -> sem_magic (sem s) = Some tt.
Proof. intros H. unfold sem_magic. by rewrite (ok_magic v s H). Qed.

(** Splits the handlers in [H] into their branches. *)
Ltac handler_cases H :=
  unfold fio_sem_down, fio_sem_down_timeout, fio_sem_down_trylock, fio_sem_up, down_resume, timeout_resume, down_turn, timeout_turn,
    add_waiter, sub_waiter, take_value, sem_magic, c_assert in H;
  cbn [value waiters magic mbind option_bind Z.eqb Pos.eqb FIO_SEM_MAGIC] in H;
  repeat (match type of H with
    | context [int_inc ?x] => destruct (int_inc x) eqn:?
    | context [int_dec ?x] => destruct (int_dec x) eqn:?
    | context [?a =? ?b] => destruct (Z.eqb_spec a b)
    | context [if ?b then _ else _] => is_var b; destruct b
    end; cbn [value waiters magic mbind option_bind andb orb negb timeout_pc owns Z.eqb] in H);
  repeat match goal with
    | E : int_inc _ = Some _ |- _ => apply int_inc_Some in E as [? ->]
    | E : int_dec _ = Some _ |- _ => apply int_dec_Some in E as [? ->]
    end.

Lemma step_ok v s e s' : sem_ok v s -> step s e s' -> sem_ok v s'.
Proof.
  intros [Hm Hv Hc Hw] [s2 En Ex]. destruct s as [[val w mg] ths tk po]; cbn [sem threads taken posted value waiters magic] in *; subst mg.
  destruct e as [t|t|t|t [i|]|t|t|t b]; cbn [enabled exec sem threads] in En, Ex; destruct (ths !! t) as [[]|] eqn:Et; try done;
    try (handler_cases Ex; simplify_eq; split; cbn; rewrite ?(count_if_insert _ _ _ _ _ Et); cbn; lia).
  all: cbn [andb value waiters] in En; apply andb_true_iff in En as [_ En]; destruct (ths !! i) as [[| |c|]|] eqn:Ei; try done.
  all: assert (t <> i) as Hti by (intros ->; by rewrite Et in Ei); assert (<[t:=Idle]> ths !! i = Some (Asleep c)) as Ei2 by (by rewrite list_lookup_insert_ne).
  all: rewrite Ei2 in Ex; handler_cases Ex; simplify_eq; split; cbn; rewrite ?(count_if_insert _ _ _ _ _ Ei2), ?(count_if_insert _ _ _ _ _ Et); cbn; lia.
Qed.

Lemma step_length s e s' : step s e s' -> length (threads s') = length (threads s).
Proof.
  intros [s2 _ Ex]. destruct e as [t|t|t|t [i|]|t|t|t b]; cbn [exec] in Ex; unfold mbind, option_bind in Ex;
    repeat (match type of Ex with context [match ?x with _ => _ end] => destruct x eqn:? end; try done);
    simplify_eq; cbn; rewrite ?length_insert; done.
Qed.

(** ** Every event that can happen does happen *)

Lemma int_inc_ok x : x < 2 ^ 31 - 1 -> int_inc x = Some (x + 1).
Proof. intros H. by apply int_inc_Some. Qed.

Lemma int_dec_ok x : 0 <= x -> int_dec x = Some (x - 1).
Proof. intros H. apply int_dec_Some. lia. Qed.

(** Runs the handlers in the goal, branch by branch. *)
Ltac handler_runs :=
  unfold fio_sem_down, fio_sem_down_timeout, fio_sem_down_trylock, fio_sem_up, down_resume, timeout_resume, down_turn, timeout_turn,
    add_waiter, sub_waiter, take_value, sem_magic, c_assert;
  cbn [value waiters magic mbind option_bind Z.eqb Pos.eqb FIO_SEM_MAGIC];
  repeat (first
    [ rewrite int_inc_ok by lia
    | rewrite int_dec_ok by lia
    | match goal with
      | |- context [?a =? ?b] => destruct (Z.eqb_spec a b)
      | |- context [if ?b then _ else _] => is_var b; destruct b
      end ]; cbn [value waiters magic mbind option_bind andb orb negb timeout_pc owns Z.eqb]).

Lemma step_defined v s e : sem_ok v s -> zlength (threads s) < 2 ^ 31 - 1 -> value (sem s) < 2 ^ 31 - 1 -> enabled s e = true -> exists s', step s e s'.
Proof.
  intros [Hm Hv Hc Hw] Hn Hval En. assert (exists s', exec s e = Some s') as [s' Ex]; [|exists s'; by constructor].
  destruct s as [[val w mg] ths tk po]; cbn [sem threads taken posted value waiters magic] in *; subst mg.
  pose proof (count_if_le waiting ths) as Hle.
  destruct e as [t|t|t|t [i|]|t|t|t b]; cbn [enabled exec sem threads] in En |- *; destruct (ths !! t) as [[]|] eqn:Et; try done.
  all: cbn [andb value waiters] in En; try (handler_runs; by eexists).
  all: apply andb_true_iff in En as [_ En]; destruct (ths !! i) as [[| |c|]|] eqn:Ei; try done.
  all: assert (t <> i) as Hti by (intros ->; by rewrite Et in Ei); rewrite list_lookup_insert_ne, Ei by done; handler_runs; by eexists.
Qed.

(** C36: The semaphore counts: whatever the threads do, its value is what it was plus the
    posts minus the successful calls, and never negative, so no more calls succeed than
    were allowed; [waiters] is the number of threads in a wait; and every call that a
    thread can make is defined (no [int] overflows, no assertion fails) as long as the
    value and the threads fit an [int]. *)
Theorem sem_counts v n s : 0 <= v -> Z.of_nat n < 2 ^ 31 - 1 -> rtc any_step (initial v n) s ->
  0 <= value (sem s) /\ value (sem s) = v + posted s - taken s /\ waiters (sem s) = count_if waiting (threads s) /\
  (value (sem s) < 2 ^ 31 - 1 -> forall e, enabled s e = true -> exists s', step s e s').
Proof.
  intros Hv Hn Hr.
  assert (sem_ok v s /\ length (threads s) = n) as [Hok Hlen].
  { eapply (rtc_ind_r (fun s => sem_ok v s /\ length (threads s) = n)); [|clear|exact Hr].
    - split; [by apply initial_ok|]. cbn. apply length_replicate.
    - intros s1 s2 _ [e Hs] [Hok Hlen]. split; [by eapply step_ok|]. by rewrite (step_length _ _ _ Hs). }
  split; [apply Hok|]. split; [apply Hok|]. split; [apply Hok|]. intros Hval e. apply (step_defined v); [done| |done]. unfold zlength. lia.
Qed.

(** ** A lock *)

Definition ready (p : pc) : bool := match p with Woken _ ret => ret =? 0 | _ => false end.

Record lock_ok (s : system) : Prop := mk_lock {
  lock_sem : sem_ok 1 s;
  lock_owner : value (sem s) + count_if owns (threads s) = 1;
  lock_ready : value (sem s) <> 0 -> 0 < count_if asleep (threads s) -> 0 < count_if ready (threads s) }.

Lemma count_if_mono {A} (p q : A -> bool) l : (forall x, p x = true -> q x = true) -> count_if p l <= count_if q l.
Proof.
  intros H. unfold count_if, zlength. induction l as [|x l IH]; [done|]. cbn [List.filter]. specialize (H x).
  destruct (p x); [rewrite H by done|destruct (q x)]; cbn [length]; lia.
Qed.

Lemma wakes_spec m : magic m = FIO_SEM_MAGIC -> wakes m = (value m =? 0) && c_true (waiters m).
Proof.
  intros Hm. unfold wakes, fio_sem_up, sem_magic. rewrite Hm, Z.eqb_refl. cbn [c_assert mbind option_bind]. unfold int_inc.
  destruct (Z.ltb_spec (value m) (2 ^ 31 - 1)) as [|Hv]; [done|]. destruct (Z.eqb_spec (value m) 0) as [E|]; [|done]. rewrite E in Hv. done.
Qed.

Lemma lock_step_ok s s' : lock_ok s -> lock_step s s' -> lock_ok s'.
Proof.
  intros [Hs Ho Hr] (e & Hl & Hst). pose proof (step_ok _ _ _ _ Hs Hst) as Hs'. destruct Hst as [s2 En Ex].
  assert (count_if asleep (threads s) <= count_if waiting (threads s)) as Haw by (apply count_if_mono; by intros []).
  pose proof (count_if_le owns (threads s)) as Hcl. pose proof (count_if_le ready (threads s)) as Hcr.
  destruct Hs as [Hm Hv Hc Hw]. split; [exact Hs'| |]; clear Hs';
  destruct s as [[val w mg] ths tk po]; cbn [sem threads taken posted value waiters magic] in *; subst mg;
  destruct e as [t|t|t|t [i|]|t|t|t b]; cbn [lock_event threads] in Hl; cbn [enabled exec sem threads] in En, Ex; rewrite ?wakes_spec in En by done; destruct (ths !! t) as [[]|] eqn:Et; try done;
    try (handler_cases Ex; simplify_eq; cbn; rewrite ?(count_if_insert _ _ _ _ _ Et); cbn; lia).
  1,2: cbn [andb value waiters] in En; apply andb_true_iff in En as [_ En]; destruct (ths !! i) as [[| |c|]|] eqn:Ei; try done.
  1,2: assert (t <> i) as Hti by (intros ->; by rewrite Et in Ei); assert (<[t:=Idle]> ths !! i = Some (Asleep c)) as Ei2 by (by rewrite list_lookup_insert_ne).
  1,2: rewrite Ei2 in Ex; handler_cases Ex; simplify_eq; cbn; rewrite ?(count_if_insert _ _ _ _ _ Ei2), ?(count_if_insert _ _ _ _ _ Et); cbn; lia.
  - cbn [andb value waiters] in En. pose proof (count_if_some owns ths t Owner Et eq_refl) as H1. assert (val = 0) as -> by lia.
    assert (count_if asleep ths = 0) as Ha.
    { cbn [Z.eqb andb] in En. apply orb_true_iff in En as [En|En]; [|by apply Z.eqb_eq]. apply negb_true_iff, c_true_false_iff in En. pose proof (count_if_le asleep ths). lia. }
    handler_cases Ex; simplify_eq; cbn; rewrite ?(count_if_insert _ _ _ _ _ Et); cbn; lia.
  - destruct c; [|unfold timeout_resume in Ex; destruct ((ret =? ETIMEDOUT) && negb b)]; handler_cases Ex; simplify_eq; cbn; rewrite ?(count_if_insert _ _ _ _ _ Et); cbn; repeat (match goal with |- context [?a =? ?b] => destruct (Z.eqb_spec a b) end; cbn); try done; lia.
Qed.

Lemma lock_initial n : lock_ok (initial 1 n).
Proof.
  split; [by apply initial_ok| |]; cbn; unfold count_if, zlength; [|intros _ H; exfalso; revert H];
    induction n as [|n IH]; cbn [replicate List.filter owns asleep]; cbn in *; lia.
Qed.

Lemma lock_reachable n s : rtc lock_step (initial 1 n) s -> lock_ok s /\ length (threads s) = n.
Proof.
  intros Hr. eapply (rtc_ind_r (fun s => lock_ok s /\ length (threads s) = n)); [|clear|exact Hr].
  - split; [by apply lock_initial|]. cbn. apply length_replicate.
  - intros s1 s2 _ (e & Hl & Hs) [Hok Hlen]. split; [eapply lock_step_ok; [exact Hok|by exists e]|]. by rewrite (step_length _ _ _ Hs).
Qed.

(** A woken thread that finds the lock free takes it. *)
Lemma resume_takes s i c b : lock_ok s -> zlength (threads s) < 2 ^ 31 - 1 -> value (sem s) <> 0 -> threads s !! i = Some (Woken c 0) ->
  exists s', step s (EResume i b) s' /\ threads s' !! i = Some Owner.
Proof.
  intros [Hs Ho _] Hn Hv Hi. pose proof (count_if_le owns (threads s)) as Hc.
  destruct (step_defined 1 s (EResume i b) Hs Hn ltac:(lia) ltac:(cbn; by rewrite Hi)) as [s' Hst]. exists s'. split; [done|].
  destruct Hst as [s2 _ Ex]. destruct Hs as [Hm _ _ _]. destruct s as [[val w mg] ths tk po]; cbn [sem threads value magic] in *; subst mg.
  cbn [exec threads sem] in Ex. rewrite Hi in Ex.
  destruct c; [|unfold timeout_resume in Ex; cbn [Z.eqb ETIMEDOUT andb] in Ex]; handler_cases Ex; simplify_eq; cbn; try done;
    apply list_lookup_insert_eq; by eapply lookup_lt_Some.
Qed.

(** The owner of a lock that someone sleeps on wakes a sleeper when it posts. *)
Lemma owner_wakes s o w s' : lock_ok s -> threads s !! o = Some Owner -> 0 < count_if asleep (threads s) -> step s (EUp o w) s' -> exists i, w = Some i.
Proof.
  intros [Hs Ho _] Hi Ha [s2 En _]. destruct w as [i|]; [by exists i|]. pose proof (count_if_some owns _ _ _ Hi eq_refl). destruct Hs as [Hm Hv _ Hw].
  assert (count_if asleep (threads s) <= count_if waiting (threads s)) by (apply count_if_mono; by intros []).
  cbn [enabled] in En. rewrite Hi, wakes_spec in En by done. cbn [andb] in En. replace (value (sem s)) with 0 in En by lia. cbn [Z.eqb andb] in En.
  apply orb_true_iff in En as [En%negb_true_iff%c_true_false_iff|En%Z.eqb_eq]; lia.
Qed.

(** C37: A semaphore that starts with 1 and is posted by its owner is a lock: it has at most
    one owner, its value says whether it has none, and no wakeup is lost - while a thread
    sleeps, either there is an owner, whose post wakes a sleeper, or a thread has been
    woken that takes the free lock when it runs.  Here a signal goes to a thread that still
    sleeps, and never to one whose wait has run out; POSIX does not promise this of
    [pthread_cond_timedwait], so that for [fio_sem_down_timeout] the claim rests on it. *)
Theorem lock_wakes_sleepers n s t c : Z.of_nat n < 2 ^ 31 - 1 -> rtc lock_step (initial 1 n) s ->
  count_if owns (threads s) <= 1 /\ value (sem s) = 1 - count_if owns (threads s) /\
  (threads s !! t = Some (Asleep c) ->
    (exists o, threads s !! o = Some Owner /\ (exists w s', step s (EUp o w) s') /\ forall w s', step s (EUp o w) s' -> exists i, w = Some i) \/
    (exists i c' s', threads s !! i = Some (Woken c' 0) /\ step s (EResume i false) s' /\ threads s' !! i = Some Owner)).
Proof.
  intros Hn Hr. destruct (lock_reachable n s Hr) as [Hok Hlen]. pose proof Hok as [Hs Ho Hrd]. destruct Hs as [Hm Hv Hc Hw].
  split; [lia|]. split; [lia|]. intros Ht. pose proof (count_if_some asleep _ _ _ Ht eq_refl) as Ha.
  assert (zlength (threads s) < 2 ^ 31 - 1) as Hz by (unfold zlength; lia). destruct (Z.eq_dec (value (sem s)) 0) as [E|E].
  - left. destruct (count_if_pos owns (threads s) ltac:(lia)) as (o & p & Hi & Hp). destruct p; try done. exists o. split; [done|].
    split; [|intros w s'; by apply owner_wakes]. exists (Some t).
    apply (step_defined 1); [by split|done|lia|]. assert (count_if asleep (threads s) <= count_if waiting (threads s)) by (apply count_if_mono; by intros []).
    cbn [enabled]. rewrite Hi, wakes_spec, Ht, E by done. cbn [Z.eqb andb]. rewrite andb_true_r. apply c_true_iff. lia.
  - right. destruct (count_if_pos ready (threads s) (Hrd E Ha)) as (i & p & Hi & Hp). destruct p as [| |c'|c' ret]; try done.
    apply Z.eqb_eq in Hp as ->. destruct (resume_takes s i c' false Hok Hz E Hi) as (s' & Hst & Hown). by exists i, c', s'.
Qed.

(** ** Concrete runs *)

Definition lock_eventb (s : system) (e : event) : bool :=
  match e with EUp t _ => match threads s !! t with Some Owner => true | _ => false end | _ => true end.

Fixpoint run (s : system) (es : list event) : option system :=
  match es with [] => Some s | e :: es => if enabled s e then let* s := exec s e in run s es else None end.

Fixpoint lock_run (s : system) (es : list event) : option system :=
  match es with [] => Some s | e :: es => if enabled s e && lock_eventb s e then let* s := exec s e in lock_run s es else None end.

Lemma run_reachable es : forall s s', run s es = Some s' -> rtc any_step s s'.
Proof.
  induction es as [|e es IH]; intros s s' H; cbn [run] in H; [by simplify_eq|]. destruct (enabled s e) eqn:En; [|done].
  destruct (exec s e) as [s1|] eqn:Ex; [|done]. apply rtc_l with s1; [exists e; by constructor|by apply IH].
Qed.

Lemma lock_run_reachable es : forall s s', lock_run s es = Some s' -> rtc lock_step s s'.
Proof.
  induction es as [|e es IH]; intros s s' H; cbn [lock_run] in H; [by simplify_eq|]. destruct (enabled s e) eqn:En; [|done]. cbn [andb] in H.
  destruct (lock_eventb s e) eqn:El; [|done]. destruct (exec s e) as [s1|] eqn:Ex; [|done]. apply rtc_l with s1; [|by apply IH].
  exists e. split; [|by constructor]. destruct e; try done. cbn in *. by destruct (threads s !! t) as [[]|].
Qed.

(** Two threads wait with and without a limit; a post wakes one. *)
Lemma sem_counts_witness : exists s, run (initial 0 3) [EDown 0; ETimeout 1; EUp 2 (Some 1%nat); EResume 1 false] = Some s /\
  waiters (sem s) = count_if waiting (threads s) /\ value (sem s) = 0 + posted s - taken s.
Proof.
  assert (exists s, run (initial 0 3) [EDown 0; ETimeout 1; EUp 2 (Some 1%nat); EResume 1 false] = Some s) as [s Hs] by (eexists; vm_compute; reflexivity).
  destruct (sem_counts 0 3 s ltac:(lia) ltac:(lia) (run_reachable _ _ _ Hs)) as (_ & H1 & H2 & _). exists s. split; [exact Hs|]. split; [exact H2|exact H1].
Defined.

Lemma lock_wakes_sleepers_witness : exists s, lock_run (initial 1 3) [EDown 0; EDown 1; EDown 2] = Some s /\
  threads s !! 2%nat = Some (Asleep Down) /\ count_if owns (threads s) <= 1 /\
  ((exists o, threads s !! o = Some Owner /\ (exists w s', step s (EUp o w) s') /\ forall w s', step s (EUp o w) s' -> exists i, w = Some i) \/
   (exists i c' s', threads s !! i = Some (Woken c' 0) /\ step s (EResume i false) s' /\ threads s' !! i = Some Owner)).
Proof.
  assert (exists s, lock_run (initial 1 3) [EDown 0; EDown 1; EDown 2] = Some s /\ threads s !! 2%nat = Some (Asleep Down)) as (s & Hs & H2) by (eexists; vm_compute; split; reflexivity).
  destruct (lock_wakes_sleepers 3 s 2 Down ltac:(lia) (lock_run_reachable _ _ _ Hs)) as (H & _ & Hw). exists s. split; [exact Hs|]. split; [exact H2|]. split; [exact H|exact (Hw H2)].
Defined.

(** Used for counting, the semaphore loses wakeups: only the first of two posts in a row
    signals, and later posts do not either while the value is positive.  Here thread 1
    sleeps for ever although the value is 2. *)
Lemma posts_wake_nobody s t w s' : magic (sem s) = FIO_SEM_MAGIC -> 0 < value (sem s) -> step s (EUp t w) s' -> w = None /\ 0 < value (sem s').
Proof.
  intros Hm Hv [s2 En Ex]. destruct s as [[val wt mg] ths tk po]; cbn [sem threads value magic waiters enabled] in *; subst mg. rewrite wakes_spec in En by done. cbn [value waiters] in En.
  destruct (Z.eqb_spec val 0); [lia|]. cbn [andb negb orb] in En. destruct w as [i|]; [by destruct (ths !! t) as [[]|]|]. split; [done|].
  cbn [exec sem] in Ex. handler_cases Ex; simplify_eq; cbn; lia.
Qed.

Example wakeup_lost : exists s, run (initial 0 4) [EDown 0; EDown 1; EUp 2 (Some 0%nat); EUp 3 None; EResume 0 false; EUp 0 None] = Some s /\
  value (sem s) = 2 /\ threads s = [Idle; Asleep Down; Idle; Idle].
Proof. eexists. vm_compute. repeat split. Qed.

(** The deadline of a timed wait is its start plus the milliseconds. *)
Lemma sem_deadline_spec sec nsec msecs : 0 <= nsec < 1000000000 -> is_word 32 msecs ->
  let '(s, n) := sem_deadline sec nsec msecs in 0 <= n < 1000000000 /\ s * 1000000000 + n = sec * 1000000000 + nsec + msecs * 1000000.
Proof.
  intros Hn [H0 H1]. unfold sem_deadline. unfold mulw. rewrite wrap_small by (unfold is_word; lia).
  pose proof (Z.div_mod msecs 1000 ltac:(lia)). pose proof (Z.mod_pos_bound msecs 1000 ltac:(lia)).
  replace (msecs * 1000000) with (msecs mod 1000 * 1000000 + msecs / 1000 * 1000000000) by lia.
  rewrite Z.mod_add, Z.mod_small by lia. destruct (Z.leb_spec 1000000000 (nsec + msecs mod 1000 * 1000000)); lia.
Qed.
