(* ===== verification/Workqueue.v ===== *)
(** workqueue.c: a pool of worker threads with a list of work each, the thread that gives
    them work, and what its flush waits for. *)
From stdpp Require Import relations.
From S2P Require Import Prelude.
Local Open Scope word_scope.

Section Workqueue.
Context {Work : Type}.

(** * Data *)

Definition SW_F_IDLE : Z := 1.
Definition SW_F_RUNNING : Z := 2.
Definition SW_F_EXIT : Z := 4.
Definition SW_F_ACCOUNTED : Z := 8.
Definition SW_F_ERROR : Z := 16.

(** Where a worker thread is: [WInit] before it marks itself running, [WStarted] before it
    tells the creator, [WTop], [WPre] (in [workqueue_pre_sleep]), [WNotify] (idle, before it
    takes [flush_lock]), [WCheck] (before it looks at its list once more), [WSleep] and
    [WWoken] around [pthread_cond_wait], [WWork] in [handle_list], [WDone]. *)
Inductive worker_pc : Type :=
  | WInit | WStarted | WTop | WPre | WNotify | WCheck | WSleep | WWoken | WWork | WDone.

#[global] Instance worker_pc_eq_dec : EqDecision worker_pc.
Proof. solve_decision. Defined.

(** [given] and [handled] are the work that the worker was ever given, and the work it has
    passed to [wq->ops.fn], in order. *)
Record submit_worker : Type := mk_sw {
  wpc : worker_pc; flags : Z; seq : Z; work_list : list Work; local_list : list Work; given : list Work; handled : list Work }.

Definition set_wpc (sw : submit_worker) (p : worker_pc) : submit_worker :=
  mk_sw p (flags sw) (seq sw) (work_list sw) (local_list sw) (given sw) (handled sw).
Definition set_flags (sw : submit_worker) (f : Z) : submit_worker :=
  mk_sw (wpc sw) f (seq sw) (work_list sw) (local_list sw) (given sw) (handled sw).

Definition has (f : Z) (sw : submit_worker) : bool := c_true (flags sw & f).

(** Where the owner of the queue is.  [workqueue_init]: [MStart] creates the next worker,
    [MFlags] sets its flags, [MInitScan i running error] looks at worker [i] with
    [flush_lock] held, [MInitWait] and [MInitWoken] around the wait.  [MRun]: outside.
    [MChosen]: in [workqueue_enqueue] after the choice of a worker.  [workqueue_flush]:
    [MScan i] looks at worker [i] with [flush_lock] held, [MFlushWait], [MFlushWoken].
    [workqueue_exit]: [MExiting i]
    asks worker [i] to end, [MAccount i shutdown] looks at its flags, [MJoin i shutdown] joins
    it; [MExited]. *)
Inductive main_pc : Type :=
  | MStart | MFlags | MInitScan (i running error : Z) | MInitWait (error : Z) | MInitWoken (error : Z)
  | MRun | MChosen (i : Z) (w : Work) | MScan (i : Z) | MFlushWait | MFlushWoken
  | MExiting (i : Z) | MAccount (i shutdown : Z) | MJoin (i shutdown : Z) | MExited.

Record workqueue : Type := mk_wq {
  main : main_pc; max_workers : Z; work_seq : Z; workers : list submit_worker; next_free_worker : Z; wake_idle : bool }.

Definition set_main (wq : workqueue) (m : main_pc) : workqueue :=
  mk_wq m (max_workers wq) (work_seq wq) (workers wq) (next_free_worker wq) (wake_idle wq).
Definition set_workers (wq : workqueue) (ws : list submit_worker) : workqueue :=
  mk_wq (main wq) (max_workers wq) (work_seq wq) ws (next_free_worker wq) (wake_idle wq).
Definition set_next_free (wq : workqueue) (i : Z) : workqueue :=
  mk_wq (main wq) (max_workers wq) (work_seq wq) (workers wq) i (wake_idle wq).
Definition set_wake_idle (wq : workqueue) (b : bool) : workqueue :=
  mk_wq (main wq) (max_workers wq) (work_seq wq) (workers wq) (next_free_worker wq) b.
Definition set_max (wq : workqueue) (n : Z) : workqueue :=
  mk_wq (main wq) n (work_seq wq) (workers wq) (next_free_worker wq) (wake_idle wq).
Definition set_seq (wq : workqueue) (n : Z) : workqueue :=
  mk_wq (main wq) (max_workers wq) n (workers wq) (next_free_worker wq) (wake_idle wq).

Definition empty {A} (l : list A) : bool := match l with [] => true | _ => false end.

(** * Giving work *)

(** The first idle worker of a range, and the one with the oldest work seen so far. *)
Fixpoint __get_submit_worker (fuel : nat) (ws : list submit_worker) (start last : Z) (best : option Z) : option (option Z * option Z) :=
  if last <? start then Some (None, best) else
  match fuel with
  | O => None
  | S fuel =>
      let* sw := arr_get ws start in
      if has SW_F_IDLE sw then Some (Some start, best) else
      let* older := match best with None => Some true | Some b => let* bw := arr_get ws b in Some (seq sw <? seq bw) end in
      __get_submit_worker fuel ws (start + 1) last (if (older : bool) then Some start else best)
  end.

(** The index of a worker; a worker is at its index. *)
Definition get_submit_worker (wq : workqueue) : option (Z * workqueue) :=
  let next := next_free_worker wq in
  let* _ := c_assert (next <? max_workers wq) in
  let fuel := Z.to_nat (max_workers wq) in
  let* '(sw, best) := __get_submit_worker fuel (workers wq) next (max_workers wq - 1) None in
  let* '(sw, best) :=
    match sw with
    | Some _ => Some (sw, best)
    | None => if c_true next then __get_submit_worker fuel (workers wq) 0 (next - 1) best else Some (sw, best)
    end in
  let* i := match sw with Some i => Some i | None => best end in
  Some (i, if i =? next_free_worker wq then set_next_free wq (if i + 1 <? max_workers wq then i + 1 else 0) else wq).

(** [pthread_cond_signal(&sw->cond)] *)
Definition signal_worker (sw : submit_worker) : submit_worker :=
  match wpc sw with WSleep => set_wpc sw WWoken | _ => sw end.

(** The locked part of [workqueue_enqueue]. *)
Definition workqueue_enqueue (wq : workqueue) (i : Z) (work : Work) : option workqueue :=
  let* sw := arr_get (workers wq) i in
  let n := addw 64 (work_seq wq) 1 in
  let sw := mk_sw (wpc sw) (Z.ldiff (flags sw) SW_F_IDLE) n (work_list sw ++ [work]) (local_list sw) (given sw ++ [work]) (handled sw) in
  let* ws := arr_set (workers wq) i (signal_worker sw) in
  Some (set_workers (set_seq wq n) ws).

(** * A worker thread

    A function per part of the loop of [worker_thread] between two points where the lock
    of the worker is free. *)

(** The third look at the list. *)
Definition worker_check (sw : submit_worker) : submit_worker :=
  if empty (work_list sw) then if has SW_F_EXIT sw then set_wpc sw WDone else set_wpc sw WSleep
  else mk_sw WWork (flags sw) (seq sw) [] (work_list sw ++ local_list sw) (given sw) (handled sw).

(** The second look; the flag says that the worker became idle. *)
Definition worker_idle (sw : submit_worker) : submit_worker * bool :=
  if empty (work_list sw) then
    if has SW_F_EXIT sw then (set_wpc sw WDone, false)
    else if negb (has SW_F_IDLE sw) then (set_wpc (set_flags sw (Z.lor (flags sw) SW_F_IDLE)) WNotify, true)
    else (worker_check sw, false)
  else (worker_check sw, false).

(** The first look; [pre] is the answer of [workqueue_pre_sleep_check]. *)
Definition worker_top (sw : submit_worker) (pre : bool) : submit_worker * bool :=
  if empty (work_list sw) then
    if has SW_F_EXIT sw then (set_wpc sw WDone, false)
    else if pre then (set_wpc sw WPre, false) else worker_idle sw
  else worker_idle sw.

(** [handle_list], one work at a time. *)
Definition handle_work (sw : submit_worker) : submit_worker :=
  match local_list sw with
  | w :: l => mk_sw (wpc sw) (flags sw) (seq sw) (work_list sw) l (given sw) (handled sw ++ [w])
  | [] => set_wpc sw WTop
  end.

(** [sw->flags |= SW_F_RUNNING], and the error of [workqueue_init_worker]. *)
Definition worker_started (sw : submit_worker) (error : bool) : submit_worker :=
  let f := Z.lor (flags sw) SW_F_RUNNING in
  set_wpc (set_flags sw (if error then Z.lor f SW_F_ERROR else f)) WStarted.

(** [pthread_cond_signal(&wq->flush_cond)] *)
Definition signal_main (m : main_pc) : main_pc :=
  match m with MInitWait e => MInitWoken e | MFlushWait => MFlushWoken | m => m end.

Definition holds_flush_lock (m : main_pc) : bool := match m with MInitScan _ _ _ | MScan _ => true | _ => false end.

(** One step of worker [i]; [b] is what its callback answers. *)
Definition worker_step (wq : workqueue) (i : Z) (b : bool) : option workqueue :=
  let* sw := arr_get (workers wq) i in
  let put '(sw, idle) := let* ws := arr_set (workers wq) i sw in let wq := set_workers wq ws in Some (if (idle : bool) then set_next_free wq i else wq) in
  match wpc sw with
  | WInit => put (worker_started sw b, false)
  | WStarted =>
      if holds_flush_lock (main wq) then None else
      let* ws := arr_set (workers wq) i (set_wpc sw (if has SW_F_ERROR sw then WDone else WTop)) in
      Some (set_workers (set_main wq (signal_main (main wq))) ws)
  | WTop => put (worker_top sw b)
  | WPre => put (worker_idle sw)
  | WNotify =>
      if holds_flush_lock (main wq) then None else
      let* ws := arr_set (workers wq) i (set_wpc sw WCheck) in
      Some (set_workers (if wake_idle wq then set_main wq (signal_main (main wq)) else wq) ws)
  | WCheck => put (worker_check sw, false)
  | WWoken => put (set_wpc sw WWork, false)
  | WWork => put (handle_work sw, false)
  | WSleep | WDone => None
  end.

(** * The owner of the queue *)

Inductive action : Type := AStep (ok : bool) | AEnqueue (w : Work) | AFlush | AExit.

(** [start_worker] up to [pthread_create]: the memory of the workers is cleared. *)
Definition new_worker : submit_worker := mk_sw WInit 0 0 [] [] [] [].

(** The loop of [workqueue_init] that creates the workers, and what it does after it. *)
Definition start_worker (wq : workqueue) (ok : bool) : workqueue :=
  let i := zlength (workers wq) in
  if (i <? max_workers wq) && ok then set_main (set_workers wq (workers wq ++ [new_worker])) MFlags
  else let wq := set_max wq i in set_main wq (if i =? 0 then MExiting 0 else MInitScan 0 0 0).

(** After [pthread_create]. *)
Definition start_worker_flags (wq : workqueue) : option workqueue :=
  let i := zlength (workers wq) - 1 in
  let* sw := arr_get (workers wq) i in
  let* ws := arr_set (workers wq) i (set_flags sw SW_F_IDLE) in
  Some (set_main (set_workers wq ws) MStart).

(** Worker [i] of the loop that waits until all run; after the last one the answer. *)
Definition init_scan (wq : workqueue) (i running error : Z) : option workqueue :=
  if i <? max_workers wq then
    let* sw := arr_get (workers wq) i in
    Some (set_main wq (MInitScan (i + 1) (running + Z.b2z (has SW_F_RUNNING sw)) (error + Z.b2z (has SW_F_ERROR sw))))
  else Some (set_main wq
    (if c_true error then MExiting 0 else if running =? max_workers wq then MRun else MInitWait error)).

(** Worker [i] of [all_sw_idle] in [workqueue_flush]. *)
Definition flush_scan (wq : workqueue) (i : Z) : option workqueue :=
  if i <? max_workers wq then
    let* sw := arr_get (workers wq) i in
    Some (set_main wq (if has SW_F_IDLE sw then MScan (i + 1) else MFlushWait))
  else Some (set_main (set_wake_idle wq false) MRun).

(** [workqueue_exit]: worker [i] of the loop that asks them to end, and of the loop that
    accounts and joins them. *)
Definition exit_ask (wq : workqueue) (i : Z) : option workqueue :=
  if i <? max_workers wq then
    let* sw := arr_get (workers wq) i in
    let* ws := arr_set (workers wq) i (signal_worker (set_flags sw (Z.lor (flags sw) SW_F_EXIT))) in
    Some (set_main (set_workers wq ws) (MExiting (i + 1)))
  else Some (set_main wq (MAccount 0 0)).

Definition exit_account (wq : workqueue) (i shutdown : Z) : option workqueue :=
  if i <? max_workers wq then
    let* sw := arr_get (workers wq) i in
    if has SW_F_ACCOUNTED sw then Some (set_main wq (MAccount (i + 1) shutdown)) else
    let* ws := arr_set (workers wq) i (set_flags sw (Z.lor (flags sw) SW_F_ACCOUNTED)) in
    Some (set_main (set_workers wq ws) (MJoin i shutdown))
  else Some (set_main wq (if c_true shutdown && negb (shutdown =? max_workers wq) then MAccount 0 0 else MExited)).

(** [pthread_join] returns when the worker has. *)
Definition exit_join (wq : workqueue) (i shutdown : Z) : option workqueue :=
  let* sw := arr_get (workers wq) i in
  match wpc sw with WDone => Some (set_main wq (MAccount (i + 1) (shutdown + 1))) | _ => None end.

Definition main_step (wq : workqueue) (a : action) : option workqueue :=
  match main wq, a with
  | MStart, AStep ok => Some (start_worker wq ok)
  | MFlags, AStep _ => start_worker_flags wq
  | MInitScan i running error, AStep _ => init_scan wq i running error
  | MInitWoken error, AStep _ => Some (set_main wq (MInitScan 0 0 error))
  | MRun, AEnqueue w => let* '(i, wq) := get_submit_worker wq in Some (set_main wq (MChosen i w))
  | MChosen i w, AStep _ => let* wq := workqueue_enqueue wq i w in Some (set_main wq MRun)
  | MRun, AFlush => Some (set_main (set_wake_idle wq true) (MScan 0))
  | MScan i, AStep _ => flush_scan wq i
  | MFlushWoken, AStep _ => Some (set_main wq (MScan 0))
  | MRun, AExit => Some (set_main wq (MExiting 0))
  | MExiting i, AStep _ => exit_ask wq i
  | MAccount i shutdown, AStep _ => exit_account wq i shutdown
  | MJoin i shutdown, AStep _ => exit_join wq i shutdown
  | _, _ => None
  end.

(** * The system *)

Definition initial (n : Z) : workqueue := mk_wq MStart n 0 [] 0 false.

(** [wake_idle], not set by [workqueue_init], is clear in the memory of the queue. *)
Inductive event : Type := EMain (a : action) | EWorker (i : Z) (b : bool) | ESpurious (i : Z) | ESpuriousMain.

Definition exec (wq : workqueue) (e : event) : option workqueue :=
  match e with
  | EMain a => main_step wq a
  | EWorker i b => worker_step wq i b
  | ESpurious i =>
      let* sw := arr_get (workers wq) i in
      match wpc sw with WSleep => let* ws := arr_set (workers wq) i (signal_worker sw) in Some (set_workers wq ws) | _ => None end
  | ESpuriousMain => match main wq with MInitWait _ | MFlushWait => Some (set_main wq (signal_main (main wq))) | _ => None end
  end.

Definition step (wq wq' : workqueue) : Prop := exists e, exec wq e = Some wq'.

(** * Proofs *)

(** ** Flags *)

Lemma c_true_lor a b : c_true (Z.lor a b) = c_true a || c_true b.
Proof.
  apply eq_true_iff_eq. rewrite orb_true_iff, !c_true_iff. rewrite Z.lor_eq_0_iff. lia.
Qed.

(** A flag of a worker after one of its updates. *)
Lemma has_or f g sw : has f (set_flags sw (Z.lor (flags sw) g)) = has f sw || c_true (g & f).
Proof. unfold has. cbn [flags set_flags]. by rewrite Z.land_lor_distr_l, c_true_lor. Qed.

Lemma ldiff_idle x f : c_true (Z.ldiff x SW_F_IDLE & f) = c_true (x & Z.ldiff f SW_F_IDLE).
Proof. f_equal. apply Z.bits_inj'. intros i Hi. rewrite !Z.land_spec, !Z.ldiff_spec. btauto. Qed.

Lemma has_wpc f sw p : has f (set_wpc sw p) = has f sw.
Proof. reflexivity. Qed.
Lemma has_signal f sw : has f (signal_worker sw) = has f sw.
Proof. unfold signal_worker. by destruct (wpc sw). Qed.

(** ** What holds of a worker *)

Definition early (m : main_pc) : bool := match m with MStart | MFlags | MInitScan _ _ _ | MInitWait _ | MInitWoken _ => true | _ => false end.
Definition exiting (m : main_pc) : bool := match m with MExiting _ | MAccount _ _ | MJoin _ _ | MExited => true | _ => false end.
Definition serving (m : main_pc) : bool := negb (early m) && negb (exiting m).

(** A worker that the queue can rely on. *)
Definition up (sw : submit_worker) : bool := has SW_F_RUNNING sw && negb (has SW_F_ERROR sw).

Definition imp (a b : bool) : bool := negb a || b.
Definition asleep (p : worker_pc) : bool := match p with WSleep => true | _ => false end.
Definition is_done (p : worker_pc) : bool := match p with WDone => true | _ => false end.
Definition is_init (p : worker_pc) : bool := match p with WInit => true | _ => false end.
Definition in_work (p : worker_pc) : bool := match p with WWork => true | _ => false end.
Definition before_sleep (p : worker_pc) : bool := match p with WNotify | WCheck | WSleep => true | _ => false end.

(** [q] and [l]: the two lists are empty. *)
Definition worker_inv (p : worker_pc) (idle running ex err q l e x : bool) : bool :=
  imp idle (q && l) && imp (negb (in_work p)) l && imp (before_sleep p && q) idle && imp (asleep p) (q && negb ex) &&
  imp (is_done p) (q && (ex || err || negb running)) && imp (is_init p) (negb running) && imp ex x && imp (negb e && negb x) (running && negb err) &&
  imp e (q && l) && imp (err || negb running) (q && l).

Definition inv_of (m : main_pc) (sw : submit_worker) : bool :=
  worker_inv (wpc sw) (has SW_F_IDLE sw) (has SW_F_RUNNING sw) (has SW_F_EXIT sw) (has SW_F_ERROR sw)
    (empty (work_list sw)) (empty (local_list sw)) (early m) (exiting m).

Record worker_ok (m : main_pc) (sw : submit_worker) : Prop := mk_worker_ok {
  w_given : given sw = handled sw ++ local_list sw ++ work_list sw;
  w_early : early m = true -> given sw = [];
  w_inv : inv_of m sw = true }.

(** Case analysis on the flags and on whether the lists are empty; what is known of them
    must be in the goal. *)
Ltac inv_flags m sw :=
  generalize (has SW_F_IDLE sw), (has SW_F_RUNNING sw), (has SW_F_EXIT sw), (has SW_F_ERROR sw), (empty (work_list sw)), (empty (local_list sw)), (early m), (exiting m);
  intros [] [] [] [] [] [] [] []; first [discriminate 1 | reflexivity | cbn; done].
Ltac inv_unfold :=
  unfold inv_of, worker_inv, imp, up in *; cbn [wpc flags seq work_list local_list given handled set_wpc set_flags signal_worker];
  rewrite ?has_wpc, ?has_or, ?has_signal.
Ltac inv_cases m sw := inv_unfold; destruct (wpc sw); inv_flags m sw.

Lemma worker_wpc_ok m sw p : worker_ok m sw -> worker_inv p (has SW_F_IDLE sw) (has SW_F_RUNNING sw) (has SW_F_EXIT sw) (has SW_F_ERROR sw)
    (empty (work_list sw)) (empty (local_list sw)) (early m) (exiting m) = true -> worker_ok m (set_wpc sw p).
Proof. intros [Hg He _] Hi. by split. Qed.

Lemma worker_flags_ok m sw f : worker_ok m sw -> inv_of m (set_flags sw f) = true -> worker_ok m (set_flags sw f).
Proof. intros [Hg He _] Hi. by split. Qed.

Lemma worker_check_ok m sw : worker_ok m sw -> in_work (wpc sw) = false -> is_init (wpc sw) = false ->
  imp (empty (work_list sw)) (has SW_F_IDLE sw) = true -> worker_ok m (worker_check sw).
Proof.
  intros Hok Hw Hn Hidle. pose proof Hok as [Hg He Hi]. unfold worker_check. destruct (empty (work_list sw)) eqn:Eq.
  - destruct (has SW_F_EXIT sw) eqn:Ex; (apply worker_wpc_ok; [done|]); revert Hi Hw Hn Hidle Eq Ex; inv_cases m sw.
  - assert (local_list sw = []) as El.
    { destruct (local_list sw) eqn:El; [done|]. exfalso. revert Hi Hw. unfold inv_of. rewrite El, Eq. cbn [empty]. inv_cases m sw. }
    split; [cbn; by rewrite Hg, El, !app_nil_r|done|]. rewrite El, app_nil_r. revert Hi Hw Hn Eq. unfold inv_of. rewrite El. cbn [wpc work_list local_list empty].
    change (has ?f (mk_sw _ (flags sw) _ _ _ _ _)) with (has f sw). inv_cases m sw.
Qed.

Lemma worker_idle_ok m sw : worker_ok m sw -> in_work (wpc sw) = false -> is_init (wpc sw) = false -> worker_ok m (fst (worker_idle sw)).
Proof.
  intros Hok Hw Hn. pose proof Hok as [Hg He Hi]. unfold worker_idle. destruct (empty (work_list sw)) eqn:Eq.
  - destruct (has SW_F_EXIT sw) eqn:Ex; [|destruct (has SW_F_IDLE sw) eqn:Ei]; cbn [negb fst].
    + apply worker_wpc_ok; [done|]. revert Hi Hw Hn Eq Ex. inv_cases m sw.
    + apply worker_check_ok; try done. by rewrite Eq, Ei.
    + apply worker_wpc_ok; [apply worker_flags_ok; [done|]|]; revert Hi Hw Hn Eq Ex Ei; inv_cases m sw.
  - cbn [fst]. apply worker_check_ok; try done. by rewrite Eq.
Qed.

Lemma worker_top_ok m sw b : worker_ok m sw -> wpc sw = WTop -> worker_ok m (fst (worker_top sw b)).
Proof.
  intros Hok Hp. pose proof Hok as [Hg He Hi]. assert (worker_ok m (fst (worker_idle sw))) as Hidle by (apply worker_idle_ok; rewrite ?Hp; done).
  unfold worker_top. destruct (empty (work_list sw)) eqn:Eq; [|done]. destruct (has SW_F_EXIT sw) eqn:Ex; [|destruct b; [|done]]; cbn [fst];
    apply worker_wpc_ok; try done; revert Hi Eq Ex; unfold inv_of; rewrite Hp; inv_unfold; inv_flags m sw.
Qed.

Lemma has_started f sw b : has f (worker_started sw b) = has f sw || c_true (SW_F_RUNNING & f) || (b && c_true (SW_F_ERROR & f)).
Proof.
  unfold worker_started. rewrite has_wpc. destruct b; [|by rewrite has_or, orb_false_r].
  change (has f (set_flags (set_flags sw (Z.lor (flags sw) SW_F_RUNNING)) (Z.lor (flags (set_flags sw (Z.lor (flags sw) SW_F_RUNNING))) SW_F_ERROR)) = has f sw || c_true (SW_F_RUNNING & f) || c_true (SW_F_ERROR & f)).
  by rewrite !has_or.
Qed.

Lemma worker_started_ok m sw b : worker_ok m sw -> wpc sw = WInit -> early m = true \/ exiting m = true -> worker_ok m (worker_started sw b).
Proof.
  intros Hok Hp Hm. pose proof Hok as [Hg He Hi]. split; [done|done|]. revert Hi Hm. unfold inv_of. rewrite Hp, !has_started. unfold worker_started. cbn [wpc set_wpc work_list local_list set_flags].
  destruct b; intros Hi [Hm|Hm]; revert Hi Hm; inv_unfold; inv_flags m sw.
Qed.

Lemma started_ok m sw : worker_ok m sw -> wpc sw = WStarted -> worker_ok m (set_wpc sw (if has SW_F_ERROR sw then WDone else WTop)).
Proof.
  intros Hok Hp. apply worker_wpc_ok; [done|]. destruct Hok as [_ _ Hi]. revert Hi. unfold inv_of. rewrite Hp. inv_unfold. inv_flags m sw.
Qed.

Lemma notified_ok m sw : worker_ok m sw -> wpc sw = WNotify -> worker_ok m (set_wpc sw WCheck).
Proof.
  intros Hok Hp. apply worker_wpc_ok; [done|]. destruct Hok as [_ _ Hi]. revert Hi. unfold inv_of. rewrite Hp. inv_unfold. inv_flags m sw.
Qed.

Lemma woken_ok m sw : worker_ok m sw -> wpc sw = WWoken -> worker_ok m (set_wpc sw WWork).
Proof.
  intros Hok Hp. apply worker_wpc_ok; [done|]. destruct Hok as [_ _ Hi]. revert Hi. unfold inv_of. rewrite Hp. inv_unfold. inv_flags m sw.
Qed.

(** At its last look a worker with an empty list is idle. *)
Lemma ok_check m sw : worker_ok m sw -> wpc sw = WCheck -> imp (empty (work_list sw)) (has SW_F_IDLE sw) = true.
Proof. intros [_ _ Hi] Hp. revert Hi. unfold inv_of. rewrite Hp. inv_unfold. inv_flags m sw. Qed.

Lemma handle_work_ok m sw : worker_ok m sw -> wpc sw = WWork -> worker_ok m (handle_work sw).
Proof.
  intros Hok Hp. pose proof Hok as [Hg He Hi]. unfold handle_work. destruct (local_list sw) as [|w l] eqn:El.
  - apply worker_wpc_ok; [done|]. revert Hi. unfold inv_of. rewrite Hp, El. inv_unfold. inv_flags m sw.
  - split; [cbn; by rewrite Hg, <- app_assoc|done|]. revert Hi. unfold inv_of. rewrite Hp, El. cbn [wpc work_list local_list empty].
    change (has ?f (mk_sw _ (flags sw) _ _ _ _ _)) with (has f sw). generalize (empty l). intros []; inv_unfold; inv_flags m sw.
Qed.

Lemma signal_ok m sw : worker_ok m sw -> worker_ok m (signal_worker sw).
Proof.
  intros Hok. unfold signal_worker. destruct (wpc sw) eqn:Hp; try done. apply worker_wpc_ok; [done|]. destruct Hok as [_ _ Hi]. revert Hi. unfold inv_of. rewrite Hp. inv_unfold. inv_flags m sw.
Qed.

(** A change of the owner's place that keeps the phase. *)
Lemma worker_main_ok m m' sw : worker_ok m sw ->
  imp (early m') (early m) && imp (exiting m) (exiting m') && imp (serving m') (up sw) = true -> worker_ok m' sw.
Proof.
  intros [Hg He Hi] Hm. split; [done| |].
  - intros E'. apply He. revert Hm. rewrite E'. by destruct (early m).
  - revert Hi Hm. unfold serving. inv_unfold. generalize (early m'), (exiting m'). intros [] []; inv_cases m sw.
Qed.

Lemma enqueue_ok m sw w n : worker_ok m sw -> serving m = true ->
  worker_ok m (signal_worker (mk_sw (wpc sw) (Z.ldiff (flags sw) SW_F_IDLE) n (work_list sw ++ [w]) (local_list sw) (given sw ++ [w]) (handled sw))).
Proof.
  intros [Hg He Hi] Hm. unfold serving in Hm.
  set (sw1 := mk_sw (wpc sw) (Z.ldiff (flags sw) SW_F_IDLE) n (work_list sw ++ [w]) (local_list sw) (given sw ++ [w]) (handled sw)).
  assert (forall f, has f sw1 = c_true (flags sw & Z.ldiff f SW_F_IDLE)) as Hf by (intros f; apply ldiff_idle).
  assert (has SW_F_IDLE sw1 = false) as F1 by (rewrite Hf; unfold c_true; cbn; by rewrite Z.land_0_r).
  assert (has SW_F_RUNNING sw1 = has SW_F_RUNNING sw /\ has SW_F_EXIT sw1 = has SW_F_EXIT sw /\ has SW_F_ERROR sw1 = has SW_F_ERROR sw) as (F2 & F3 & F4) by (rewrite !Hf; done).
  assert (empty (work_list sw1) = false) as Eq by (cbn; by destruct (work_list sw)).
  assert (given (signal_worker sw1) = handled (signal_worker sw1) ++ local_list (signal_worker sw1) ++ work_list (signal_worker sw1)) as Hg1.
  { unfold signal_worker. destruct (wpc sw1); cbn; by rewrite Hg, !app_assoc. }
  split; [done|intros E; by rewrite E in Hm|]. revert Hi Hm. unfold inv_of. rewrite !has_signal, F1, F2, F3, F4.
  assert (empty (work_list (signal_worker sw1)) = false) as -> by (unfold signal_worker; by destruct (wpc sw1)).
  assert (local_list (signal_worker sw1) = local_list sw) as -> by (unfold signal_worker; by destruct (wpc sw1)).
  assert (wpc (signal_worker sw1) = match wpc sw with WSleep => WWoken | p => p end) as -> by (unfold signal_worker, sw1; cbn; by destruct (wpc sw)).
  inv_cases m sw.
Qed.

(** [SW_F_EXIT] with the signal, [SW_F_IDLE] from the creator, [SW_F_ACCOUNTED]. *)
Lemma exit_flag_ok m sw : worker_ok m sw -> exiting m = true -> worker_ok m (signal_worker (set_flags sw (Z.lor (flags sw) SW_F_EXIT))).
Proof.
  intros [Hg He Hi] Hm. unfold signal_worker. cbn [wpc set_flags]. destruct (wpc sw) eqn:Hp;
    (split; [done|done|]; revert Hi Hm; unfold inv_of; cbn [wpc set_flags set_wpc]; rewrite Hp; inv_unfold; inv_flags m sw).
Qed.

Lemma creator_flags_ok m sw : worker_ok m sw -> early m = true -> exiting m = false -> worker_ok m (set_flags sw SW_F_IDLE).
Proof.
  intros [Hg He Hi] Hm Hx. split; [done|done|]. revert Hi Hm Hx. unfold inv_of. cbn [wpc set_flags work_list local_list].
  change (has ?f (set_flags sw SW_F_IDLE)) with (c_true (SW_F_IDLE & f)). inv_cases m sw.
Qed.

Lemma accounted_ok m sw : worker_ok m sw -> worker_ok m (set_flags sw (Z.lor (flags sw) SW_F_ACCOUNTED)).
Proof.
  intros Hok. apply worker_flags_ok; [done|]. destruct Hok as [_ _ Hi]. revert Hi. unfold inv_of. cbn [wpc set_flags]. rewrite !has_or. cbn. rewrite !orb_false_r. done.
Qed.

(** ** What the invariant says *)

Lemma empty_nil {A} (l : list A) : empty l = true -> l = [].
Proof. by destruct l. Qed.

Lemma ok_up m sw : worker_ok m sw -> serving m = true -> up sw = true.
Proof. intros [_ _ Hi] Hm. revert Hi Hm. unfold serving. inv_cases m sw. Qed.

Lemma ok_idle m sw : worker_ok m sw -> has SW_F_IDLE sw = true -> handled sw = given sw.
Proof.
  intros [Hg _ Hi] H. assert (empty (work_list sw) && empty (local_list sw) = true) as [H1%empty_nil H2%empty_nil]%andb_true_iff by (revert Hi H; inv_cases m sw).
  by rewrite Hg, H1, H2, !app_nil_r.
Qed.

Lemma ok_sleep m sw : worker_ok m sw -> wpc sw = WSleep -> has SW_F_IDLE sw = true /\ has SW_F_EXIT sw = false.
Proof. intros [_ _ Hi] Hp. revert Hi. unfold inv_of. rewrite Hp. inv_unfold. inv_flags m sw. Qed.

Lemma ok_done m sw : worker_ok m sw -> wpc sw = WDone -> handled sw = given sw /\ (up sw = true -> exiting m = true).
Proof.
  intros [Hg _ Hi] Hp. assert (empty (work_list sw) && empty (local_list sw) = true) as [H1%empty_nil H2%empty_nil]%andb_true_iff.
  { revert Hi. unfold inv_of. rewrite Hp. inv_unfold. inv_flags m sw. }
  split; [by rewrite Hg, H1, H2, !app_nil_r|]. intros Hu. revert Hi Hu. unfold inv_of. rewrite Hp. inv_unfold. inv_flags m sw.
Qed.

Lemma ok_init m sw : worker_ok m sw -> wpc sw = WInit -> up sw = false.
Proof. intros [_ _ Hi] Hp. revert Hi. unfold inv_of. rewrite Hp. inv_unfold. inv_flags m sw. Qed.

Lemma ok_exit m sw : worker_ok m sw -> has SW_F_EXIT sw = true -> exiting m = true.
Proof. intros [_ _ Hi] H. revert Hi H. inv_cases m sw. Qed.

(** ** What a step of a worker does *)

(** Work and position left; every step of a worker lowers it. *)
Definition pc_rank (p : worker_pc) : nat :=
  match p with
  | WInit => 12 | WStarted => 11 | WWoken => 9 | WWork => 8 | WTop => 7 | WPre => 6 | WNotify => 5 | WCheck => 4 | WSleep | WDone => 0
  end.
Definition weight (sw : submit_worker) : nat := (20 * length (work_list sw) + 10 * length (local_list sw) + pc_rank (wpc sw))%nat.

(** What no step of a worker takes back. *)
Record keeps (sw sw' : submit_worker) : Prop := mk_keeps {
  mv_up : up sw = true -> up sw' = true;
  mv_idle : has SW_F_IDLE sw = true -> has SW_F_IDLE sw' = true;
  mv_exit : has SW_F_EXIT sw = true -> has SW_F_EXIT sw' = true;
  mv_busy : has SW_F_IDLE sw = false -> has SW_F_IDLE sw' = false \/ wpc sw' = WNotify;
  mv_accounted : has SW_F_ACCOUNTED sw' = has SW_F_ACCOUNTED sw;
  mv_given : given sw' = given sw }.

Definition moves (sw sw' : submit_worker) : Prop := keeps sw sw' /\ (weight sw' < weight sw)%nat.

Lemma keeps_flags sw sw' : (forall f, has f sw' = has f sw) -> given sw' = given sw -> keeps sw sw'.
Proof. intros Hf Hg. split; unfold up; rewrite ?Hf; try done. by left. Qed.

Lemma moves_flags sw sw' : (forall f, has f sw' = has f sw) -> given sw' = given sw -> (weight sw' < weight sw)%nat -> moves sw sw'.
Proof. intros Hf Hg Hw. split; [by apply keeps_flags|done]. Qed.

Lemma worker_check_moves m sw : worker_ok m sw -> (wpc sw = WTop \/ wpc sw = WPre \/ wpc sw = WCheck) -> moves sw (worker_check sw).
Proof.
  intros Hok Hp. apply moves_flags.
  - intros f. unfold worker_check. destruct (empty _); [by destruct (has SW_F_EXIT sw)|done].
  - unfold worker_check. destruct (empty _); [by destruct (has SW_F_EXIT sw)|done].
  - unfold worker_check, weight. destruct (work_list sw) as [|w q] eqn:Eq; cbn [empty].
    + destruct (has SW_F_EXIT sw); cbn [wpc set_wpc work_list local_list pc_rank]; rewrite Eq; destruct Hp as [->|[->| ->]]; cbn; lia.
    + cbn [wpc work_list local_list pc_rank]. rewrite length_app. destruct Hp as [->|[->| ->]]; cbn; lia.
Qed.

Lemma worker_idle_moves m sw : worker_ok m sw -> (wpc sw = WTop \/ wpc sw = WPre) -> moves sw (fst (worker_idle sw)).
Proof.
  intros Hok Hp. assert (wpc sw = WTop \/ wpc sw = WPre \/ wpc sw = WCheck) as Hp' by tauto. unfold worker_idle.
  destruct (empty (work_list sw)); [|by apply (worker_check_moves m)]. destruct (has SW_F_EXIT sw) eqn:Ex; [|destruct (has SW_F_IDLE sw) eqn:Ei]; cbn [negb fst].
  - apply moves_flags; [done|done|]. unfold weight. cbn [wpc set_wpc work_list local_list pc_rank]. destruct Hp as [->| ->]; cbn; lia.
  - by apply (worker_check_moves m).
  - split; [split; unfold up; rewrite ?has_wpc, ?has_or, ?Ei, ?Ex; cbn; rewrite ?orb_false_r; try done; by right|].
    unfold weight. cbn [wpc set_wpc set_flags work_list local_list pc_rank]. destruct Hp as [->| ->]; cbn; lia.
Qed.

Lemma worker_top_moves m sw b : worker_ok m sw -> wpc sw = WTop -> moves sw (fst (worker_top sw b)).
Proof.
  intros Hok Hp. assert (moves sw (fst (worker_idle sw))) as Hi by (apply (worker_idle_moves m); [done|by left]). unfold worker_top.
  destruct (empty (work_list sw)); [|done]. destruct (has SW_F_EXIT sw); [|destruct b; [|done]]; cbn [fst];
    (apply moves_flags; [done|done|]; unfold weight; cbn [wpc set_wpc work_list local_list pc_rank]; rewrite Hp; cbn; lia).
Qed.

Lemma handle_work_moves sw : wpc sw = WWork -> moves sw (handle_work sw).
Proof.
  intros Hp. unfold handle_work. destruct (local_list sw) eqn:El; apply moves_flags; try done; unfold weight; cbn [wpc set_wpc work_list local_list pc_rank]; rewrite Hp, El; cbn; lia.
Qed.

Lemma wpc_moves sw p : (pc_rank p < pc_rank (wpc sw))%nat -> moves sw (set_wpc sw p).
Proof. intros Hp. apply moves_flags; [done|done|]. unfold weight. cbn [wpc set_wpc work_list local_list]. lia. Qed.

Lemma worker_started_moves m sw b : worker_ok m sw -> wpc sw = WInit -> moves sw (worker_started sw b).
Proof.
  intros [_ _ Hi] Hp. assert (has SW_F_RUNNING sw = false) as Hr.
  { revert Hi. unfold inv_of. rewrite Hp. inv_unfold. by destruct (has SW_F_RUNNING sw); rewrite ?andb_false_r. }
  split; [split; unfold up; rewrite ?has_started, ?Hr; try done|].
  - by intros ->.
  - by intros ->.
  - intros ->. left. by destruct b.
  - destruct b; cbn; by rewrite !orb_false_r.
  - unfold weight, worker_started. cbn [wpc set_wpc set_flags work_list local_list]. rewrite Hp. cbn. lia.
Qed.
End Workqueue.

Arguments submit_worker : clear implicits.
Arguments workqueue : clear implicits.
Arguments main_pc : clear implicits.
Arguments action : clear implicits.
Arguments event : clear implicits.
