(* ===== verification/WqSystem.v ===== *)
(** The threads of a work queue together: no work is lost or done twice, and a flush comes
    to an end when everything given before is done. *)
From stdpp Require Import relations.
From S2P Require Import Prelude Workqueue.
Local Open Scope word_scope.

Section System.
Context {Work : Type}.
Implicit Types (wq : workqueue Work) (sw : submit_worker Work).

(** * The invariant of the system *)

Definition at_worker wq (i : Z) (P : submit_worker Work -> Prop) : Prop :=
  forall sw, arr_get (workers wq) i = Some sw -> P sw.

(** What holds where the owner is. *)
Definition main_inv wq : Prop :=
  match main wq with
  | MStart => True
  | MFlags => 0 < zlength (workers wq)
  | MInitScan i r e => 0 <= i <= max_workers wq /\ 0 <= r <= i /\ 0 <= e /\ (r = i -> e = 0 -> forall j, j < i -> at_worker wq j (fun sw => up sw = true))
  | MInitWait e | MInitWoken e => 0 <= e
  | MRun => True
  | MChosen i _ => 0 <= i < max_workers wq
  | MScan i => wake_idle wq = true /\ 0 <= i <= max_workers wq /\ forall j, j < i -> at_worker wq j (fun sw => has SW_F_IDLE sw = true)
  | MFlushWait => wake_idle wq = true /\ exists j sw, arr_get (workers wq) j = Some sw /\ (has SW_F_IDLE sw = false \/ wpc sw = WNotify)
  | MFlushWoken => wake_idle wq = true
  | MExiting i => 0 <= i <= max_workers wq /\ forall j, j < i -> at_worker wq j (fun sw => has SW_F_EXIT sw = true)
  | MAccount i s => (s = i /\ 0 <= i <= max_workers wq) /\ (forall j, at_worker wq j (fun sw => has SW_F_EXIT sw = true /\ (has SW_F_ACCOUNTED sw = true -> j < i)))
      /\ forall j, j < i -> at_worker wq j (fun sw => wpc sw = WDone)
  | MJoin i s => (s = i /\ 0 <= i < max_workers wq) /\ (forall j, at_worker wq j (fun sw => has SW_F_EXIT sw = true /\ (has SW_F_ACCOUNTED sw = true -> j <= i)))
      /\ forall j, j < i -> at_worker wq j (fun sw => wpc sw = WDone)
  | MExited => forall j, at_worker wq j (fun sw => wpc sw = WDone)
  end.

(** The owner has not come to the workers' accounts. *)
Definition unaccounted (m : main_pc Work) : bool := match m with MAccount _ _ | MJoin _ _ | MExited => false | _ => true end.

Lemma zlength_nonneg {A} (l : list A) : 0 <= zlength l.
Proof. apply Zle_0_nat. Qed.

Definition creating (m : main_pc Work) : bool := match m with MStart | MFlags => true | _ => false end.

Record wq_ok wq : Prop := mk_wq_ok {
  q_workers : forall i, at_worker wq i (worker_ok (main wq));
  q_len : zlength (workers wq) <= max_workers wq /\ (creating (main wq) = false -> zlength (workers wq) = max_workers wq);
  q_some : creating (main wq) = false -> exiting (main wq) = false -> 0 < max_workers wq;
  q_next : 0 <= next_free_worker wq /\ (next_free_worker wq < zlength (workers wq) \/ next_free_worker wq = 0);
  q_accounted : unaccounted (main wq) = true -> forall i, at_worker wq i (fun sw => has SW_F_ACCOUNTED sw = false);
  q_main : main_inv wq }.

(** * Lists of workers *)

Lemma arr_set_inv {A} (l : list A) i x l' : arr_set l i x = Some l' -> 0 <= i < zlength l /\ l' = <[Z.to_nat i := x]> l.
Proof. unfold arr_set, zlength. destruct (Z.leb_spec 0 i), (Z.ltb_spec i (Z.of_nat (length l))); cbn [andb]; intros [= <-]. split; [lia|done]. Qed.

(** ** One step of a worker *)

Lemma signal_main_phase (m : main_pc Work) : early (signal_main m) = early m /\ exiting (signal_main m) = exiting m /\ creating (signal_main m) = creating m.
Proof. by destruct m. Qed.

Lemma worker_signal_main m sw : worker_ok m sw -> worker_ok (signal_main m) sw.
Proof.
  intros Hok. destruct (signal_main_phase m) as (E1 & E2 & _). apply (worker_main_ok m); [done|]. pose proof (ok_up m sw Hok) as Hu.
  unfold serving in *. rewrite E1, E2. unfold imp. destruct (early m), (exiting m); cbn in *; rewrite ?Hu; done.
Qed.

(** What a step of worker [i] changes. *)
Record worker_stepped wq wq' (i : Z) (sw sw' : submit_worker Work) : Prop := mk_stepped {
  st_old : arr_get (workers wq) i = Some sw;
  st_new : workers wq' = <[Z.to_nat i := sw']> (workers wq);
  st_ok : worker_ok (main wq) sw';
  st_moves : keeps sw sw';
  st_pc : wpc sw <> WDone;
  st_rest : max_workers wq' = max_workers wq /\ wake_idle wq' = wake_idle wq;
  st_next : next_free_worker wq' = next_free_worker wq \/ next_free_worker wq' = i;
  st_main : main wq' = main wq \/ (main wq' = signal_main (main wq) /\ holds_flush_lock (main wq) = false);
  st_notify : wpc sw = WNotify -> wake_idle wq = true -> main wq' = signal_main (main wq) }.

Lemma worker_step_spec wq i b wq' : wq_ok wq -> worker_step wq i b = Some wq' -> exists sw sw', worker_stepped wq wq' i sw sw' /\ (weight sw' < weight sw)%nat.
Proof.
  intros Hq Hs. unfold worker_step in Hs. destruct (arr_get (workers wq) i) as [sw|] eqn:Eg; [|done]. cbn [mbind option_bind] in Hs.
  pose proof (q_workers wq Hq i sw Eg) as Hok. pose proof Hok as [_ _ Hi]. exists sw.
  assert (forall sw' (idle : bool), worker_ok (main wq) sw' -> moves sw sw' -> wpc sw <> WNotify -> wpc sw <> WDone ->
    (let* ws := arr_set (workers wq) i sw' in Some (if idle then set_next_free (set_workers wq ws) i else set_workers wq ws)) = Some wq' ->
    worker_stepped wq wq' i sw sw' /\ (weight sw' < weight sw)%nat) as Hput.
  { intros sw' idle H1 [H2 H2'] H3 H4 E. split; [|done]. destruct (arr_set (workers wq) i sw') as [ws|] eqn:Es; [|done]. apply arr_set_inv in Es as [_ ->]. cbn [mbind option_bind] in E.
    injection E as <-. by destruct idle; split; try done; auto. }
  destruct (wpc sw) eqn:Hp; try done.
  - exists (worker_started sw b). apply (Hput _ false); [apply worker_started_ok; try done|by apply (worker_started_moves (main wq))|done|done|done].
    destruct (serving (main wq)) eqn:Es; [|unfold serving in Es; destruct (early (main wq)), (exiting (main wq)); cbn in Es; by auto].
    pose proof (ok_up _ _ Hok Es) as H1. by rewrite (ok_init _ _ Hok Hp) in H1.
  - destruct (holds_flush_lock (main wq)) eqn:Eh; [done|]. destruct (arr_set _ _ _) as [ws|] eqn:Es; [|done]. apply arr_set_inv in Es as [_ ->].
    injection Hs as <-. exists (set_wpc sw (if has SW_F_ERROR sw then WDone else WTop)).
    pose proof (started_ok _ _ Hok Hp). assert (moves sw (set_wpc sw (if has SW_F_ERROR sw then WDone else WTop))).
    { apply wpc_moves. rewrite Hp. destruct (has SW_F_ERROR sw); cbn; lia. }
    destruct H0 as [H0 H0']. split; [|done]. split; cbn; rewrite ?Hp; auto; done.
  - exists (fst (worker_top sw b)). apply (Hput _ (snd (worker_top sw b))); [by apply worker_top_ok|by apply (worker_top_moves (main wq))|done|done|].
    by destruct (worker_top sw b).
  - exists (fst (worker_idle sw)). apply (Hput _ (snd (worker_idle sw))); [apply worker_idle_ok; rewrite ?Hp; done|apply (worker_idle_moves (main wq)); auto|done|done|].
    by destruct (worker_idle sw).
  - destruct (holds_flush_lock (main wq)) eqn:Eh; [done|]. destruct (arr_set _ _ _) as [ws|] eqn:Es; [|done]. apply arr_set_inv in Es as [_ ->].
    injection Hs as <-. exists (set_wpc sw WCheck). assert (moves sw (set_wpc sw WCheck)) as [Hv Hw] by (apply wpc_moves; rewrite Hp; cbn; lia).
    assert (worker_ok (main wq) (set_wpc sw WCheck)) by (by apply notified_ok). split; [|done]. destruct (wake_idle wq) eqn:Ew; split; cbn; rewrite ?Hp, ?Ew; auto; done.
  - exists (worker_check sw). apply (Hput _ false); [|apply (worker_check_moves (main wq)); auto|done|done|done].
    apply worker_check_ok; rewrite ?Hp; try done. by apply (ok_check (main wq)).
  - exists (set_wpc sw WWork). apply (Hput _ false); [by apply woken_ok|apply wpc_moves; rewrite Hp; cbn; lia|done|done|done].
  - exists (handle_work sw). apply (Hput _ false); [by apply handle_work_ok|by apply handle_work_moves|done|done|done].
Qed.

(** A property of all workers, or of the workers before one, after a step of worker [i]. *)
Lemma stepped_at wq wq' i sw sw' j (P Q : submit_worker Work -> Prop) : worker_stepped wq wq' i sw sw' ->
  (i = j -> P sw -> Q sw') -> (forall x, P x -> i <> j -> Q x) -> at_worker wq j P -> at_worker wq' j Q.
Proof.
  intros Hs H1 H2 H x. rewrite (st_new _ _ _ _ _ Hs). pose proof (st_old _ _ _ _ _ Hs) as Hi. rewrite arr_get_insert by (by apply arr_get_range in Hi).
  destruct (decide (i = j)) as [->|]; [intros [= <-]; auto|]. eauto.
Qed.

Lemma worker_main_inv wq wq' i sw sw' : wq_ok wq -> worker_stepped wq wq' i sw sw' -> main_inv wq'.
Proof.
  intros Hq Hs. pose proof (q_main wq Hq) as Hm. pose proof (st_moves _ _ _ _ _ Hs) as Hv. destruct (st_rest _ _ _ _ _ Hs) as [Rm Rw].
  assert (zlength (workers wq') = zlength (workers wq)) as Rl by (rewrite (st_new _ _ _ _ _ Hs); apply zlength_insert).
  pose proof (fun j (P Q : submit_worker Work -> Prop) => stepped_at _ _ _ _ _ j P Q Hs) as At.
  assert (main wq' = main wq \/ main wq' = signal_main (main wq)) as Hmain by (destruct (st_main _ _ _ _ _ Hs) as [|[]]; auto).
  unfold main_inv in *. destruct (main wq) eqn:Em; cbn [signal_main] in Hmain; (assert (forall a : Prop, a \/ a -> a) as Hdup by tauto);
    first [apply Hdup in Hmain | destruct Hmain as [Hmain|Hmain]]; rewrite Hmain; rewrite ?Rm, ?Rw, ?Rl; try done.
  - destruct Hm as (? & ? & ? & Hu). split_and!; try lia. intros E1 E2 j Hj. refine (At j _ _ _ _ (Hu E1 E2 j Hj)); [intros _; apply Hv|done].
  - destruct Hm as (? & ? & Hu). split_and!; try done; try lia. intros j Hj. refine (At j _ _ _ _ (Hu j Hj)); [intros _; apply Hv|done].
  - destruct Hm as (Hw & j & x & Hj & Hb). split; [done|]. exists j. rewrite (st_new _ _ _ _ _ Hs). pose proof (st_old _ _ _ _ _ Hs) as Hi.
    rewrite arr_get_insert by (by apply arr_get_range in Hi). destruct (decide (i = j)) as [->|]; [|by eauto].
    rewrite Hi in Hj. injection Hj as <-. exists sw'. split; [done|]. destruct Hb as [Hb|Hb]; [by apply Hv|].
    pose proof (st_notify _ _ _ _ _ Hs Hb Hw) as E. by rewrite Hmain, Em in E.
  - by destruct Hm.
  - destruct Hm as (? & Hu). split; [done|]. intros j Hj. refine (At j _ _ _ _ (Hu j Hj)); [intros _; apply Hv|done].
  - destruct Hm as (? & Hu & Hd). split; [done|split].
    + intros j. refine (At j _ _ _ _ (Hu j)); [|done]. intros _ [He Ha]. split; [by apply Hv|]. by rewrite (mv_accounted _ _ Hv).
    + intros j Hj. refine (At j _ _ _ _ (Hd j Hj)); [|done]. intros _ HD. by destruct (st_pc _ _ _ _ _ Hs).
  - destruct Hm as (? & Hu & Hd). split; [done|split].
    + intros j. refine (At j _ _ _ _ (Hu j)); [|done]. intros _ [He Ha]. split; [by apply Hv|]. by rewrite (mv_accounted _ _ Hv).
    + intros j Hj. refine (At j _ _ _ _ (Hd j Hj)); [|done]. intros _ HD. by destruct (st_pc _ _ _ _ _ Hs).
  - intros j. refine (At j _ _ _ _ (Hm j)); [|done]. intros _ HD. by destruct (st_pc _ _ _ _ _ Hs).
Qed.

Lemma signal_main_unaccounted (m : main_pc Work) : unaccounted (signal_main m) = unaccounted m.
Proof. by destruct m. Qed.

Lemma stepped_ok wq wq' i sw sw' : wq_ok wq -> worker_stepped wq wq' i sw sw' -> wq_ok wq'.
Proof.
  intros Hq Hs. pose proof (worker_main_inv _ _ _ _ _ Hq Hs) as Hm.
  assert (zlength (workers wq') = zlength (workers wq)) as Rl by (rewrite (st_new _ _ _ _ _ Hs); apply zlength_insert).
  pose proof (fun j (P Q : submit_worker Work -> Prop) => stepped_at _ _ _ _ _ j P Q Hs) as At.
  destruct (st_rest _ _ _ _ _ Hs) as [Rm Rw]. destruct (signal_main_phase (main wq)) as (P1 & P2 & P3).
  assert (main wq' = main wq \/ main wq' = signal_main (main wq)) as Hmain by (destruct (st_main _ _ _ _ _ Hs) as [|[]]; auto).
  assert (early (main wq') = early (main wq) /\ exiting (main wq') = exiting (main wq) /\ creating (main wq') = creating (main wq) /\ unaccounted (main wq') = unaccounted (main wq)) as (E1 & E2 & E3 & E4).
  { destruct Hmain as [-> | ->]; [done|]. by rewrite signal_main_unaccounted. }
  split; rewrite ?Rm, ?Rl, ?E2, ?E3, ?E4; try apply Hq; try done.
  - intros j. assert (forall x, worker_ok (main wq) x -> worker_ok (main wq') x) as Hx.
    { intros x Hx. destruct Hmain as [-> | ->]; [done|]. by apply worker_signal_main. }
    refine (At j _ _ _ _ (q_workers wq Hq j)); [|by auto]. intros _ _. apply Hx, Hs.
  - destruct (q_next wq Hq) as [H1 H2]. pose proof (st_old _ _ _ _ _ Hs) as Hi%arr_get_range. destruct (st_next _ _ _ _ _ Hs) as [-> | ->]; [done|lia].
  - intros Hu j. refine (At j _ _ _ _ (q_accounted wq Hq Hu j)); [|done]. intros _. by rewrite (mv_accounted _ _ (st_moves _ _ _ _ _ Hs)).
Qed.
Lemma worker_step_ok wq i b wq' : wq_ok wq -> worker_step wq i b = Some wq' -> wq_ok wq'.
Proof. intros Hq H. destruct (worker_step_spec _ _ _ _ Hq H) as (sw & sw' & Hs & _). by apply (stepped_ok wq _ i sw sw'). Qed.

(** A sleeping worker that wakes up by itself. *)
Lemma wake_stepped wq i sw ws : wq_ok wq -> arr_get (workers wq) i = Some sw -> wpc sw = WSleep -> arr_set (workers wq) i (signal_worker sw) = Some ws ->
  worker_stepped wq (set_workers wq ws) i sw (signal_worker sw).
Proof.
  intros Hq Hi Hp Hs. apply arr_set_inv in Hs as [_ ->]. pose proof (signal_ok _ _ (q_workers wq Hq i sw Hi)).
  split; rewrite ?Hp; auto; try done. apply keeps_flags; [intros f; apply has_signal|]. unfold signal_worker. by rewrite Hp.
Qed.

(** ** The choice of a worker *)

(** What a scan of the workers [start] to [last] answers: an idle one, or no worker of them
    is idle and the best is the oldest of them and of the best before. *)
Definition older_than (ws : list (submit_worker Work)) (b : Z) (j : Z) : Prop :=
  forall x y, arr_get ws b = Some x -> arr_get ws j = Some y -> seq x <= seq y.

Definition is_idle (ws : list (submit_worker Work)) (j : Z) (v : bool) : Prop := exists x, arr_get ws j = Some x /\ has SW_F_IDLE x = v.

Lemma scan_workers fuel ws start last best (seen : Z -> Prop) : 0 <= start -> last < zlength ws -> last + 1 - start <= Z.of_nat fuel ->
  (forall b, best = Some b -> 0 <= b < zlength ws /\ forall j, seen j -> older_than ws b j) -> (best = None -> forall j, ~ seen j) ->
  exists r best', __get_submit_worker fuel ws start last best = Some (r, best') /\
    match r with
    | Some i => start <= i <= last /\ is_idle ws i true
    | None => (forall j, start <= j <= last -> is_idle ws j false) /\ (start <= last -> best' <> None) /\ (best <> None -> best' <> None) /\
        forall b, best' = Some b -> 0 <= b < zlength ws /\ forall j, seen j \/ start <= j <= last -> older_than ws b j
    end.
Proof.
  revert start best seen. induction fuel as [|fuel IH]; intros start best seen Hs Hl Hf Hb Hn; cbn [__get_submit_worker]; destruct (Z.ltb_spec last start) as [|]; try lia;
    try (exists None, best; split; [done|]; split_and!; [intros j ?; lia|lia|done|]; intros b Eb; destruct (Hb b Eb) as [? Ho]; split; [done|]; intros j [Hj|]; [by apply Ho|lia]).
  destruct (arr_get_Some ws start) as [x Ex]; [lia|]. rewrite Ex. cbn [mbind option_bind].
  destruct (has SW_F_IDLE x) eqn:Ei; [exists (Some start), best; split; [done|]; split; [lia|by exists x]|].
  assert (exists (older : bool) b1, match best with None => Some true | Some b => let* bw := arr_get ws b in Some (seq x <? seq bw) end = Some older /\
    (if older then Some start else best) = Some b1 /\ 0 <= b1 < zlength ws /\ forall j, seen j \/ j = start -> older_than ws b1 j) as (older & b1 & -> & Eb & Hr & Ho).
  { destruct best as [b|].
    - destruct (Hb b eq_refl) as [Hr Hold]. destruct (arr_get_Some ws b Hr) as [y Ey]. rewrite Ey. exists (seq x <? seq y), (if seq x <? seq y then start else b). split; [done|].
      destruct (Z.ltb_spec (seq x) (seq y)); (split_and!; [done|lia|lia|]); intros j [Hj|Hj] u v Hu Hv; simplify_eq; try lia.
      + pose proof (Hold j Hj y v Ey Hv). lia.
      + by apply (Hold j Hj).
    - exists true, start. split_and!; [done|done|lia|lia|]. intros j [Hj|Hj]; [by destruct (Hn eq_refl j)|]. intros u v Hu Hv. simplify_eq. lia. }
  cbn [mbind option_bind]. rewrite Eb.
  destruct (IH (start + 1) (Some b1) (fun j => seen j \/ j = start)) as (r & best' & -> & Hres); [lia|lia|lia|intros b [= <-]; done|done|].
  exists r, best'. split; [done|]. destruct r as [i|]; [destruct Hres; split; [lia|done]|]. destruct Hres as (R1 & R2 & R3 & R4). split_and!.
  - intros j Hj. destruct (decide (j = start)) as [->|]; [by exists x|]. apply R1. lia.
  - intros _. by apply R3.
  - intros _. by apply R3.
  - intros b Hb'. destruct (R4 b Hb') as [? Hold]. split; [done|]. intros j Hj. apply Hold. destruct (decide (j = start)); [by (left; right)|]. destruct Hj; [by (left; left)|right; lia].
Qed.

(** An idle worker when there is one, or the worker whose newest work is the oldest. *)
Lemma get_submit_worker_spec wq : 0 <= next_free_worker wq < max_workers wq -> zlength (workers wq) = max_workers wq ->
  exists i n, get_submit_worker wq = Some (i, set_next_free wq n) /\ 0 <= i < max_workers wq /\ 0 <= n < max_workers wq /\
    (is_idle (workers wq) i true \/ forall j, 0 <= j < max_workers wq -> is_idle (workers wq) j false /\ older_than (workers wq) i j).
Proof.
  intros Hn Hl. unfold get_submit_worker. set (next := next_free_worker wq) in *. set (mx := max_workers wq) in *.
  rewrite (proj2 (Z.ltb_lt next mx)) by lia. cbn [c_assert mbind option_bind].
  assert (forall i, 0 <= i < mx -> (is_idle (workers wq) i true \/ forall j, 0 <= j < mx -> is_idle (workers wq) j false /\ older_than (workers wq) i j) ->
    exists i' n, Some (i, if i =? next then set_next_free wq (if i + 1 <? mx then i + 1 else 0) else wq) = Some (i', set_next_free wq n) /\ 0 <= i' < mx /\ 0 <= n < mx /\
    (is_idle (workers wq) i' true \/ forall j, 0 <= j < mx -> is_idle (workers wq) j false /\ older_than (workers wq) i' j)) as Hend.
  { intros i Hi Ho. exists i, (if i =? next then (if i + 1 <? mx then i + 1 else 0) else next). split; [|split_and!; try done; zcases; lia].
    destruct (i =? next); [done|]. unfold next. by destruct wq. }
  destruct (scan_workers (Z.to_nat mx) (workers wq) next (mx - 1) None (fun _ => False)) as (r & best & -> & Hres); [lia|lia|lia|done|tauto|]. cbn [mbind option_bind].
  destruct r as [i|]; [destruct Hres; apply Hend; [lia|auto]|]. destruct Hres as (R1 & R2 & _ & R4).
  assert (exists b, best = Some b) as [b ->] by (destruct best; [eauto|by destruct R2; [lia|]]). destruct (R4 b eq_refl) as [Hb Ho].
  destruct (c_true next) eqn:Ec; cbn [mbind option_bind].
  - destruct (scan_workers (Z.to_nat mx) (workers wq) 0 (next - 1) (Some b) (fun j => next <= j <= mx - 1)) as (r & best & -> & Hres);
      [lia|lia|lia|intros b' [= <-]; split; [done|]; intros j Hj; apply Ho; by right|done|]. cbn [mbind option_bind].
    destruct r as [i|]; [destruct Hres; apply Hend; [lia|auto]|]. destruct Hres as (S1 & _ & S3 & S4).
    destruct best as [b'|]; [|by destruct S3]. destruct (S4 b' eq_refl) as [Hb' Ho']. cbn [mbind option_bind]. apply Hend; [lia|]. right. intros j Hj.
    split; [destruct (decide (j < next)); [apply S1|apply R1]; lia|apply Ho'; lia].
  - apply c_true_false_iff in Ec. apply Hend; [lia|]. right. intros j Hj. split; [apply R1|apply Ho]; lia.
Qed.
(** ** A step of the owner *)

Lemma worker_same m m' sw : early m' = early m -> exiting m' = exiting m -> worker_ok m sw -> worker_ok m' sw.
Proof.
  intros E1 E2 Hok. apply (worker_main_ok m); [done|]. pose proof (ok_up m sw Hok) as Hu. revert Hu. unfold serving, imp. rewrite E1, E2.
  destruct (early m), (exiting m); cbn; try done. by intros ->.
Qed.

(** The owner goes on and changes no worker. *)
Lemma move_ok wq wq' : wq_ok wq -> workers wq' = workers wq -> max_workers wq' = max_workers wq ->
  imp (early (main wq')) (early (main wq)) && imp (exiting (main wq)) (exiting (main wq')) && imp (unaccounted (main wq')) (unaccounted (main wq)) = true ->
  creating (main wq) = false -> creating (main wq') = false ->
  (serving (main wq') = true -> serving (main wq) = false -> forall i, at_worker wq i (fun sw => up sw = true)) ->
  (exiting (main wq) = true -> exiting (main wq') = true) ->
  0 <= next_free_worker wq' /\ (next_free_worker wq' < zlength (workers wq) \/ next_free_worker wq' = 0) -> main_inv wq' -> wq_ok wq'.
Proof.
  intros Hq Hw Hx Hp C1 C2 Hu He Hn Hm. apply andb_true_iff in Hp as [Hp Ha]. split; rewrite ?Hw, ?Hx; try done.
  - intros i sw Hi. rewrite Hw in Hi. apply (worker_main_ok (main wq)); [by apply (q_workers wq Hq i)|]. rewrite Hp. cbn [andb].
    destruct (serving (main wq')) eqn:E; [|done]. destruct (serving (main wq)) eqn:E'; cbn; [|by apply (Hu eq_refl eq_refl i)].
    by apply (ok_up (main wq)); [apply (q_workers wq Hq i)|].
  - split; [apply (q_len wq Hq)|]. intros _. by apply (q_len wq Hq).
  - intros _ He'. apply (q_some wq Hq C1). destruct (exiting (main wq)); [|done]. by rewrite He in He'.
  - intros Hu' i x Hi. rewrite Hw in Hi. apply (q_accounted wq Hq) in Hi; [done|]. by destruct (unaccounted (main wq')), (unaccounted (main wq)).
Qed.

(** The owner changes worker [i] and stays in the same phase. *)
Lemma put_ok wq wq' i sw sw' : wq_ok wq -> arr_get (workers wq) i = Some sw -> workers wq' = <[Z.to_nat i := sw']> (workers wq) -> worker_ok (main wq) sw' ->
  max_workers wq' = max_workers wq -> next_free_worker wq' = next_free_worker wq ->
  early (main wq') = early (main wq) -> exiting (main wq') = exiting (main wq) -> (creating (main wq') = false -> creating (main wq) = false \/ zlength (workers wq) = max_workers wq /\ exiting (main wq) = true) ->
  (unaccounted (main wq') = true -> unaccounted (main wq) = true /\ has SW_F_ACCOUNTED sw' = false) -> main_inv wq' -> wq_ok wq'.
Proof.
  intros Hq Hi Hw Hok Hx Hn E1 E2 Hc Ha Hm. pose proof (arr_get_range _ _ _ Hi) as Hr.
  assert (zlength (workers wq') = zlength (workers wq)) as Rl by (rewrite Hw; apply zlength_insert).
  split; rewrite ?Rl, ?Hx, ?Hn, ?E2; try apply Hq; try done.
  - intros j x. rewrite Hw, arr_get_insert by done. destruct (decide (i = j)) as [->|]; [intros [= <-]|intros Hj]; apply (worker_same (main wq)); try done.
    by apply (q_workers wq Hq j).
  - split; [apply (q_len wq Hq)|]. intros C. destruct (Hc C) as [C'|[? _]]; [|done]. by apply (q_len wq Hq).
  - intros C Ex. destruct (Hc C) as [C'|[_ Ex']]; [|congruence]. by apply (q_some wq Hq).
  - intros Hu j x. destruct (Ha Hu) as [Hu' Ha']. rewrite Hw, arr_get_insert by done. destruct (decide (i = j)) as [->|]; [by intros [= <-]|].
    by apply (q_accounted wq Hq Hu').
Qed.

Lemma has_enqueued sw n w f : f <> SW_F_IDLE -> Z.ldiff f SW_F_IDLE = f ->
  has f (signal_worker (mk_sw (wpc sw) (Z.ldiff (flags sw) SW_F_IDLE) n (work_list sw ++ [w]) (local_list sw) (given sw ++ [w]) (handled sw))) = has f sw.
Proof. intros _ Hf. rewrite has_signal. unfold has. cbn [flags]. by rewrite ldiff_idle, Hf. Qed.

Lemma enqueue_step_ok wq wq' i w : wq_ok wq -> main wq = MChosen i w -> main_step wq (AStep true) = Some wq' -> wq_ok wq'.
Proof.
  intros Hq Em H. unfold main_step in H. rewrite Em in H. unfold workqueue_enqueue in H.
  destruct (arr_get (workers wq) i) as [sw|] eqn:Ei; [|done]. cbn [mbind option_bind] in H. destruct (arr_set _ _ _) as [ws|] eqn:Es; [|done]. apply arr_set_inv in Es as [_ ->].
  injection H as <-. pose proof (q_workers wq Hq i sw Ei) as Hok. eapply (put_ok wq _ i sw); try done; rewrite ?Em; try done.
  - apply enqueue_ok; [by rewrite <- Em|done].
  - by left.
  - intros _. split; [done|]. rewrite has_enqueued by done. apply (q_accounted wq Hq) in Ei; [done|by rewrite Em].
Qed.
(** A property of the workers before [i], and of worker [i]. *)
Lemma at_next wq i (P : submit_worker Work -> Prop) : (forall j, j < i -> at_worker wq j P) -> at_worker wq i P -> forall j, j < i + 1 -> at_worker wq j P.
Proof. intros H Hi j Hj. destruct (decide (j = i)) as [->|]; [done|]. apply H. lia. Qed.

Lemma at_none wq (P : submit_worker Work -> Prop) j : j < 0 -> at_worker wq j P.
Proof. intros Hj x Hx%arr_get_range. lia. Qed.

Lemma at_all wq i (P : submit_worker Work -> Prop) : zlength (workers wq) <= i -> (forall j, j < i -> at_worker wq j P) -> forall j, at_worker wq j P.
Proof. intros Hi H j x Hx. apply (H j); [|done]. apply arr_get_range in Hx. lia. Qed.

Lemma start_step_ok wq ok : wq_ok wq -> main wq = MStart -> wq_ok (start_worker wq ok).
Proof.
  intros Hq Em. unfold start_worker. destruct (q_len wq Hq) as [Hl _], (q_next wq Hq) as [Hn Hn'].
  set (n := zlength (workers wq)) in *. assert (0 <= n) as H0 by apply Zle_0_nat.
  assert (forall i x, arr_get (workers wq) i = Some x -> worker_ok MStart x /\ has SW_F_ACCOUNTED x = false) as Hold.
  { intros i x Hx. rewrite <- Em. split; [by apply (q_workers wq Hq i)|]. apply (q_accounted wq Hq) in Hx; [done|by rewrite Em]. }
  destruct ((n <? max_workers wq) && ok) eqn:En.
  - apply andb_true_iff in En as [En%Z.ltb_lt _]. assert (zlength (workers wq ++ [new_worker]) = n + 1) as Rl by (by rewrite zlength_app).
    assert (forall i x, arr_get (workers wq ++ [new_worker]) i = Some x -> arr_get (workers wq) i = Some x \/ x = new_worker) as Hget.
    { intros i x Hx. pose proof Hx as Hr%arr_get_range. destruct (Z_of_nat_complete i) as [k ->]; [lia|]. rewrite arr_get_nat in Hx |- *. apply lookup_app_Some in Hx as [Hx|[_ Hx]]; [by left|right].
      by apply list_lookup_singleton_Some in Hx as [_ <-]. }
    split; cbn [main workers max_workers next_free_worker set_main set_workers]; rewrite ?Rl; try done; try lia.
    + intros i x Hx. cbn in Hx. apply Hget in Hx as [Hx| ->]; [by apply (worker_same MStart), (Hold i)|by split].
    + split; [lia|done].
    + intros _ i x Hx. cbn in Hx. apply Hget in Hx as [Hx| ->]; [by apply (Hold i)|done].
    + cbn. lia.
  - destruct (Z.eqb_spec n 0) as [E0|E0].
    + assert (forall i (P : submit_worker Work -> Prop), at_worker wq i P) as Hno by (intros i P x Hx%arr_get_range; fold n in Hx; lia).
      split; cbn; try done; try lia; try (intros; by apply Hno). split; [done|]. intros; by apply Hno.
    + split; cbn; try done; try lia.
      * intros i x Hx. by apply (worker_same MStart), (Hold i).
      * intros _ i x Hx. by apply (Hold i).
      * split_and!; try lia. intros _ _ j Hj. by apply at_none.
Qed.

Lemma flags_step_ok wq wq' : wq_ok wq -> main wq = MFlags -> start_worker_flags wq = Some wq' -> wq_ok wq'.
Proof.
  intros Hq Em H. unfold start_worker_flags in H. destruct (arr_get (workers wq) _) as [sw|] eqn:Ei; [|done]. cbn [mbind option_bind] in H.
  destruct (arr_set _ _ _) as [ws|] eqn:Es; [|done]. apply arr_set_inv in Es as [_ ->]. injection H as <-. pose proof (q_workers wq Hq _ sw Ei) as Hok.
  eapply (put_ok wq _ _ sw); try done; rewrite ?Em; try done. apply creator_flags_ok; by rewrite ?Em in *.
Qed.

Lemma init_scan_ok wq wq' i r e : wq_ok wq -> main wq = MInitScan i r e -> init_scan wq i r e = Some wq' -> wq_ok wq'.
Proof.
  intros Hq Em H. pose proof (q_main wq Hq) as Hm. unfold main_inv in Hm. rewrite Em in Hm. destruct Hm as (Hi & Hr & He & Hu).
  destruct (q_len wq Hq) as [_ Hl]. rewrite Em in Hl. specialize (Hl eq_refl). pose proof (q_next wq Hq) as Hn.
  unfold init_scan in H. destruct (Z.ltb_spec i (max_workers wq)) as [Hlt|Hge].
  - destruct (arr_get (workers wq) i) as [sw|] eqn:Ei; [|done]. injection H as <-. apply (move_ok wq); rewrite ?Em; try done.
    unfold main_inv. cbn [main set_main max_workers].
    split_and!; try lia; try (destruct (has SW_F_RUNNING sw); cbn; lia); try (destruct (has SW_F_ERROR sw); cbn; lia).
    intros E1 E2. destruct (has SW_F_RUNNING sw) eqn:F1, (has SW_F_ERROR sw) eqn:F2; cbn in E1, E2; try lia.
    apply at_next; [apply Hu; lia|]. intros x Hx. change (arr_get (workers wq) i = Some x) in Hx. rewrite Ei in Hx. injection Hx as <-. unfold up. by rewrite F1, F2.
  - injection H as <-. destruct (c_true e) eqn:Ec.
    + apply (move_ok wq); rewrite ?Em; try done. cbn. split; [lia|]. intros j Hj. by apply at_none.
    + apply c_true_false_iff in Ec as ->. destruct (Z.eqb_spec r (max_workers wq)) as [->|].
      * apply (move_ok wq); rewrite ?Em; try done. intros _ _. apply (at_all _ i); [lia|]. apply Hu; lia.
      * by apply (move_ok wq); rewrite ?Em.
Qed.
Lemma flush_scan_ok wq wq' i : wq_ok wq -> main wq = MScan i -> flush_scan wq i = Some wq' -> wq_ok wq'.
Proof.
  intros Hq Em H. pose proof (q_main wq Hq) as Hm. unfold main_inv in Hm. rewrite Em in Hm. destruct Hm as (Hw & Hi & Hidle). pose proof (q_next wq Hq) as Hn.
  unfold flush_scan in H. destruct (Z.ltb_spec i (max_workers wq)) as [Hlt|Hge]; [|injection H as <-; by apply (move_ok wq); rewrite ?Em].
  destruct (arr_get (workers wq) i) as [sw|] eqn:Ei; [|done]. injection H as <-. destruct (has SW_F_IDLE sw) eqn:Ef; apply (move_ok wq); rewrite ?Em; try done.
  - unfold main_inv. cbn [main set_main wake_idle max_workers]. split; [done|split; [lia|]]. apply at_next; [done|]. intros x Hx. change (arr_get (workers wq) i = Some x) in Hx. congruence.
  - unfold main_inv. cbn [main set_main wake_idle]. split; [done|]. exists i, sw. auto.
Qed.

Lemma exit_ask_ok wq wq' i : wq_ok wq -> main wq = MExiting i -> exit_ask wq i = Some wq' -> wq_ok wq'.
Proof.
  intros Hq Em H. pose proof (q_main wq Hq) as Hm. unfold main_inv in Hm. rewrite Em in Hm. destruct Hm as (Hi & Hx). pose proof (q_next wq Hq) as Hn.
  destruct (q_len wq Hq) as [Hl0 Hl]. rewrite Em in Hl. specialize (Hl eq_refl).
  unfold exit_ask in H. destruct (Z.ltb_spec i (max_workers wq)) as [Hlt|Hge].
  - destruct (arr_get (workers wq) i) as [sw|] eqn:Ei; [|done]. cbn [mbind option_bind] in H. destruct (arr_set _ _ _) as [ws|] eqn:Es; [|done].
    apply arr_set_inv in Es as [Hr ->]. injection H as <-. pose proof (q_workers wq Hq i sw Ei) as Hok.
    eapply (put_ok wq _ i sw); try done; rewrite ?Em; try done.
    + apply exit_flag_ok; [by rewrite <- Em|done].
    + by left.
    + intros _. split; [done|]. rewrite has_signal, has_or. apply (q_accounted wq Hq) in Ei; [|by rewrite Em]. by rewrite Ei.
    + unfold main_inv. cbn [main set_main]. split; [cbn; lia|]. apply at_next.
      * intros j Hj x. cbn. rewrite arr_get_insert by done. destruct (decide (i = j)); [lia|]. by apply Hx.
      * intros x. cbn. rewrite arr_get_insert by done. rewrite decide_True by done. intros [= <-]. rewrite has_signal, has_or. by rewrite orb_true_r.
  - injection H as <-. apply (move_ok wq); rewrite ?Em; try done. cbn. assert (0 <= zlength (workers wq)) by apply Zle_0_nat. split_and!; [done|lia|lia| |intros j Hj; by apply at_none].
    intros j x Hj. split; [by apply (at_all wq i _ ltac:(lia) Hx j)|]. apply (q_accounted wq Hq) in Hj; [|by rewrite Em]. by rewrite Hj.
Qed.

Lemma exit_account_ok wq wq' i s : wq_ok wq -> main wq = MAccount i s -> exit_account wq i s = Some wq' -> wq_ok wq'.
Proof.
  intros Hq Em H. pose proof (q_main wq Hq) as Hm. unfold main_inv in Hm. rewrite Em in Hm. destruct Hm as (Hi & Hx & Hd). pose proof (q_next wq Hq) as Hn.
  destruct (q_len wq Hq) as [Hl0 Hl]. rewrite Em in Hl. specialize (Hl eq_refl).
  unfold exit_account in H. destruct (Z.ltb_spec i (max_workers wq)) as [Hlt|Hge].
  - destruct (arr_get (workers wq) i) as [sw|] eqn:Ei; [|done]. cbn [mbind option_bind] in H. destruct (has SW_F_ACCOUNTED sw) eqn:Ha.
    + destruct (Hx i sw Ei) as [_ H']. specialize (H' Ha). lia.
    + destruct (arr_set _ _ _) as [ws|] eqn:Es; [|done]. apply arr_set_inv in Es as [Hr ->]. injection H as <-. pose proof (q_workers wq Hq i sw Ei) as Hok.
      eapply (put_ok wq _ i sw); try done; rewrite ?Em; try done.
      * apply accounted_ok. by rewrite <- Em.
      * by left.
      * unfold main_inv. cbn [main set_main]. split_and!; [cbn; lia|cbn; lia|cbn; lia| |].
        -- intros j x. cbn. rewrite arr_get_insert by done. destruct (decide (i = j)) as [->|].
           ++ intros [= <-]. rewrite !has_or. destruct (Hx j sw Ei) as [-> _]. by split; [|lia].
           ++ intros Hj. destruct (Hx j x Hj) as [H1 H2]. split; [done|]. intros Ha'. specialize (H2 Ha'). lia.
        -- intros j Hj x. cbn. rewrite arr_get_insert by done. destruct (decide (i = j)); [lia|]. by apply Hd.
  - injection H as <-. assert (s = max_workers wq) as -> by lia. rewrite Z.eqb_refl, andb_false_r.
    apply (move_ok wq); rewrite ?Em; try done. intros j x Hj. by apply (at_all wq i _ ltac:(lia) Hd j x).
Qed.

Lemma exit_join_ok wq wq' i s : wq_ok wq -> main wq = MJoin i s -> exit_join wq i s = Some wq' -> wq_ok wq'.
Proof.
  intros Hq Em H. pose proof (q_main wq Hq) as Hm. unfold main_inv in Hm. rewrite Em in Hm. destruct Hm as (Hi & Hx & Hd). pose proof (q_next wq Hq) as Hn.
  unfold exit_join in H. destruct (arr_get (workers wq) i) as [sw|] eqn:Ei; [|done]. cbn [mbind option_bind] in H. destruct (wpc sw) eqn:Hp; try done.
  injection H as <-. apply (move_ok wq); rewrite ?Em; try done. unfold main_inv. cbn [main set_main]. split_and!; [lia|cbn; lia|cbn; lia| |].
  - intros j x Hj. change (arr_get (workers wq) j = Some x) in Hj. destruct (Hx j x Hj) as [H1 H2]. split; [done|]. intros Ha. specialize (H2 Ha). lia.
  - apply at_next; [exact Hd|]. intros x Hx'. change (arr_get (workers wq) i = Some x) in Hx'. congruence.
Qed.

Lemma main_step_ok wq a wq' : wq_ok wq -> main_step wq a = Some wq' -> wq_ok wq'.
Proof.
  intros Hq H. pose proof (q_next wq Hq) as Hn. pose proof (q_main wq Hq) as Hm. unfold main_inv in Hm. destruct (q_len wq Hq) as [_ Hl].
  unfold main_step in H. destruct (main wq) eqn:Em, a; try done.
  - injection H as <-. by apply start_step_ok.
  - by apply flags_step_ok in H.
  - by apply init_scan_ok in H.
  - injection H as <-. apply (move_ok wq); rewrite ?Em; try done. cbn. specialize (Hl eq_refl). pose proof (zlength_nonneg (workers wq)) as H0.
    split_and!; try lia. intros _ _ j Hj. by apply at_none.
  - pose proof (q_some wq Hq) as H0. rewrite Em in H0. specialize (H0 eq_refl eq_refl). specialize (Hl eq_refl).
    destruct (get_submit_worker_spec wq) as (i & n & Eg & Hi & Hn' & _); [lia|done|]. rewrite Eg in H. injection H as <-.
    apply (move_ok wq); rewrite ?Em; try done. cbn. lia.
  - injection H as <-. apply (move_ok wq); rewrite ?Em; try done. cbn. specialize (Hl eq_refl). pose proof (zlength_nonneg (workers wq)). split_and!; try lia; try done. intros j Hj. by apply at_none.
  - injection H as <-. apply (move_ok wq); rewrite ?Em; try done. cbn. specialize (Hl eq_refl). pose proof (zlength_nonneg (workers wq)). split_and!; try lia. intros j Hj. by apply at_none.
  - apply (enqueue_step_ok wq _ i w); [done|done|]. unfold main_step. by rewrite Em.
  - by apply flush_scan_ok in H.
  - injection H as <-. apply (move_ok wq); rewrite ?Em; try done. cbn. specialize (Hl eq_refl). pose proof (zlength_nonneg (workers wq)). split_and!; try lia; try done. intros j Hj. by apply at_none.
  - by apply exit_ask_ok in H.
  - by apply (exit_account_ok _ _ i shutdown) in H.
  - by apply (exit_join_ok _ _ i shutdown) in H.
Qed.

Lemma exec_ok wq e wq' : wq_ok wq -> exec wq e = Some wq' -> wq_ok wq'.
Proof.
  intros Hq H. destruct e as [a|i b|i|]; cbn [exec] in H.
  - by apply main_step_ok in H.
  - by apply worker_step_ok in H.
  - destruct (arr_get (workers wq) i) as [sw|] eqn:Ei; [|done]. cbn [mbind option_bind] in H. destruct (wpc sw) eqn:Hp; try done.
    destruct (arr_set _ _ _) as [ws|] eqn:Es; [|done]. injection H as <-. eapply stepped_ok; [done|]. by eapply wake_stepped.
  - pose proof (q_next wq Hq) as Hn. pose proof (q_main wq Hq) as Hm. unfold main_inv in Hm.
    destruct (main wq) eqn:Em; try done; injection H as <-; apply (move_ok wq); rewrite ?Em; try done; cbn; tauto.
Qed.

Lemma queue_initial_ok n : 0 <= n -> wq_ok (initial n).
Proof.
  intros Hn. assert (forall i P, at_worker (initial n) i P) as Hno by (intros i P x Hx%arr_get_range; unfold zlength in Hx; cbn in Hx; lia).
  split; cbn; try done; try lia; try (intros; by apply Hno); auto.
Qed.

Lemma reachable_ok n wq : 0 <= n -> rtc step (initial n) wq -> wq_ok wq.
Proof.
  intros Hn H. assert (forall a b, rtc step a b -> wq_ok a -> wq_ok b) as Hind.
  { induction 1 as [|a b c [e He] _ IH]; [done|]. intros Ha. apply IH. by apply (exec_ok a e). }
  by apply (Hind (initial n)), queue_initial_ok.
Qed.
(** ** How far the threads are from an end *)

Definition all_weight (ws : list (submit_worker Work)) : Z := foldr (fun sw n => Z.of_nat (weight sw) + n) 0 ws.

Lemma all_weight_cons sw ws : all_weight (sw :: ws) = Z.of_nat (weight sw) + all_weight ws.
Proof. reflexivity. Qed.

Lemma all_weight_insert ws i sw sw' : arr_get ws i = Some sw ->
  all_weight (<[Z.to_nat i := sw']> ws) = all_weight ws - Z.of_nat (weight sw) + Z.of_nat (weight sw').
Proof.
  intros Hi. pose proof Hi as Hr%arr_get_range. destruct (Z_of_nat_complete i) as [k ->]; [lia|]. rewrite arr_get_nat in Hi. rewrite Nat2Z.id. clear Hr.
  revert k Hi. induction ws as [|x ws IH]; intros [|k] Hi; try done; cbn in Hi; [injection Hi as ->|]; cbn [insert list_insert]; rewrite !all_weight_cons; [lia|]. pose proof (IH k Hi). unfold insert in *. lia.
Qed.

Lemma all_weight_pos ws : 0 <= all_weight ws.
Proof. induction ws; [done|]. rewrite all_weight_cons. lia. Qed.

(** The steps of the owner's own that are left; a worker may send it back to the start of
    [all_sw_idle], and it may wake a worker up. *)
Definition main_cost (m : main_pc Work) (n : Z) : Z :=
  match m with
  | MFlushWoken => n + 2 | MScan i => n + 1 - i
  | MExiting i => (n - i) * (9 * (n + 3) + 1) + 2 * n + 3 | MAccount i _ => 2 * (n - i) + 1 | MJoin i _ => 2 * (n - i)
  | _ => 0
  end.
Definition cost wq : Z := all_weight (workers wq) * (max_workers wq + 3) + main_cost (main wq) (max_workers wq).

Definition flushing (m : main_pc Work) : bool := match m with MScan _ | MFlushWait | MFlushWoken => true | _ => false end.

(** The steps that are not a thread's waking by itself. *)
Definition progress wq wq' : Prop := exists e, match e with EWorker _ _ | EMain (AStep _) => True | _ => False end /\ exec wq e = Some wq'.

Lemma worker_step_total wq i sw b : arr_get (workers wq) i = Some sw -> wpc sw <> WSleep -> wpc sw <> WDone -> holds_flush_lock (main wq) = false ->
  exists wq', worker_step wq i b = Some wq'.
Proof.
  intros Hi H1 H2 H3. unfold worker_step. rewrite Hi. cbn [mbind option_bind]. pose proof (arr_get_range _ _ _ Hi) as Hr.
  destruct (wpc sw); try done; rewrite ?H3; try (destruct (worker_top sw b)); try (destruct (worker_idle sw)); rewrite arr_set_Some by done; cbn [mbind option_bind]; eauto.
Qed.

(** A step of a worker lowers the cost, whether it wakes the owner or not. *)
Lemma worker_step_cost wq i b wq' : wq_ok wq -> flushing (main wq) = true \/ exiting (main wq) = true -> worker_step wq i b = Some wq' ->
  wq_ok wq' /\ given <$> workers wq' = given <$> workers wq /\ (flushing (main wq) = true -> flushing (main wq') = true) /\ (exiting (main wq) = true -> main wq' = main wq) /\ cost wq' < cost wq.
Proof.
  intros Hq Hf H. destruct (worker_step_spec _ _ _ _ Hq H) as (sw & sw' & Hs & Hw). pose proof (st_old _ _ _ _ _ Hs) as Hi.
  assert (main wq' = main wq \/ main wq' = signal_main (main wq)) as Hmain by (destruct (st_main _ _ _ _ _ Hs) as [|[]]; auto).
  split; [by apply (stepped_ok wq _ i sw sw')|]. split; [|split; [|split]].
  - rewrite (st_new _ _ _ _ _ Hs), list_fmap_insert, (mv_given _ _ (st_moves _ _ _ _ _ Hs)). apply list_insert_id.
    rewrite list_lookup_fmap. pose proof (arr_get_range _ _ _ Hi). rewrite <- (Z2Nat.id i), arr_get_nat in Hi by lia. by rewrite Hi.
  - destruct Hmain as [-> | ->]; by destruct (main wq).
  - destruct Hmain as [-> | ->]; by destruct (main wq).
  - destruct (st_rest _ _ _ _ _ Hs) as [Hx _]. unfold cost. rewrite Hx, (st_new _ _ _ _ _ Hs), (all_weight_insert _ _ sw) by done.
    destruct (q_len wq Hq) as [Hl _]. pose proof (zlength_nonneg (workers wq)) as H0.
    assert (main_cost (main wq') (max_workers wq) <= main_cost (main wq) (max_workers wq) + max_workers wq + 2) as Hc.
    { destruct Hmain as [-> | ->]; [lia|]. destruct (main wq) eqn:Em; cbn; lia. }
    set (n := max_workers wq) in *. set (A := all_weight (workers wq)) in *. nia.
Qed.
Lemma cost_pos wq : wq_ok wq -> flushing (main wq) = true \/ exiting (main wq) = true \/ main wq = MRun -> 0 <= cost wq.
Proof.
  intros Hq Hf. unfold cost. pose proof (all_weight_pos (workers wq)) as HA. destruct (q_len wq Hq) as [Hl Hl'].
  pose proof (zlength_nonneg (workers wq)) as H0. pose proof (q_main wq Hq) as Hm. unfold main_inv in Hm.
  assert (0 <= main_cost (main wq) (max_workers wq)); [|nia].
  destruct (main wq) eqn:Em; cbn in *; try lia; destruct Hm; nia.
Qed.

(** The workers have handled all they were given. *)
Lemma all_handled wq : (forall i, at_worker wq i (fun sw => handled sw = given sw)) -> handled <$> workers wq = given <$> workers wq.
Proof.
  intros H. apply list_eq. intros k. rewrite !list_lookup_fmap. destruct (workers wq !! k) as [sw|] eqn:Ek; [|done]. cbn. f_equal.
  apply (H (Z.of_nat k)). by rewrite arr_get_nat.
Qed.

(** *** The flush *)

Definition flushed (done_work : list (list Work)) wq : Prop := main wq = MRun /\ handled <$> workers wq = done_work.

Lemma flush_step wq b wq' : wq_ok wq -> flushing (main wq) = true -> main_step wq (AStep b) = Some wq' ->
  workers wq' = workers wq /\ cost wq' < cost wq /\ (flushing (main wq') = true \/ flushed (given <$> workers wq) wq').
Proof.
  intros Hq Hf H. pose proof (q_main wq Hq) as Hm. unfold main_inv in Hm. destruct (q_len wq Hq) as [_ Hl].
  unfold main_step in H. destruct (main wq) as [| | | | | | |i| | | | | |] eqn:Em; try done.
  - destruct Hm as (_ & Hi & Hidle). specialize (Hl eq_refl). unfold flush_scan in H. destruct (Z.ltb_spec i (max_workers wq)).
    + destruct (arr_get (workers wq) i) as [sw|] eqn:Ei; [|done]. injection H as <-. split; [done|]. unfold cost. rewrite Em.
      destruct (has SW_F_IDLE sw); cbn [main set_main max_workers workers main_cost flushing]; (split; [lia|by left]).
    + injection H as <-. split; [done|]. unfold cost. rewrite Em. cbn [main set_main set_wake_idle max_workers workers main_cost flushing]. split; [lia|]. right. split; [done|]. apply (all_handled wq). intros j sw Hj.
      apply (ok_idle (main wq)); [by apply (q_workers wq Hq j)|]. by apply (at_all wq i _ ltac:(lia) Hidle j).
  - injection H as <-. split; [done|]. unfold cost. rewrite Em. cbn [main set_main set_wake_idle max_workers workers main_cost flushing]. split; [lia|by left].
Qed.

Lemma flush_progress wq : wq_ok wq -> flushing (main wq) = true -> exists wq', progress wq wq'.
Proof.
  intros Hq Hf. pose proof (q_main wq Hq) as Hm. unfold main_inv in Hm. destruct (q_len wq Hq) as [_ Hl].
  destruct (main wq) as [| | | | | | |i| | | | | |] eqn:Em; try done.
  - specialize (Hl eq_refl). destruct Hm as (_ & Hi & _).
    assert (exists wq', flush_scan wq i = Some wq') as [wq' H].
    { unfold flush_scan. destruct (Z.ltb_spec i (max_workers wq)); [|eauto]. destruct (arr_get_Some (workers wq) i) as [sw ->]; [lia|]. eauto. }
    exists wq', (EMain (AStep true)). split; [done|]. cbn. unfold main_step. by rewrite Em.
  - destruct Hm as (_ & j & sw & Hj & Hb). pose proof (q_workers wq Hq j sw Hj) as Hok. rewrite Em in Hok.
    destruct (worker_step_total wq j sw true Hj) as [wq' H].
    + intros Hp. destruct (ok_sleep _ _ Hok Hp). destruct Hb; congruence.
    + intros Hp. destruct (ok_done _ _ Hok Hp) as [_ Hx]. discriminate Hx. by apply (ok_up MFlushWait).
    + by rewrite Em.
    + by exists wq', (EWorker j true).
  - eexists _, (EMain (AStep true)). split; [done|]. cbn. unfold main_step. by rewrite Em.
Qed.

Lemma flush_inevitable wq : wq_ok wq -> flushing (main wq) = true -> inevitably progress (flushed (given <$> workers wq)) wq.
Proof.
  intros Hq Hf. apply (inevitably_measure progress _ (fun a => wq_ok a /\ given <$> workers a = given <$> workers wq /\
    (flushing (main a) = true \/ flushed (given <$> workers wq) a)) cost); [| |by auto].
  - intros a (Ha & _ & Hc). apply cost_pos; [done|]. destruct Hc as [|[]]; auto.
  - intros a (Ha & Hg & [Hc|Hc]); [|by left]. right. split; [by apply flush_progress|]. intros a' (e & He & H). destruct e as [[b| | |]|i b|i|]; try done; cbn in H.
    + pose proof (main_step_ok _ _ _ Ha H). destruct (flush_step _ _ _ Ha Hc H) as (Hw & Hcost & Hres). rewrite Hg in Hres. rewrite Hw, Hg. auto.
    + destruct (worker_step_cost _ _ _ _ Ha (or_introl Hc) H) as (Ha' & Hg' & Hf' & _ & Hcost). rewrite Hg', Hg. auto 6.
Qed.
(** *** The end of the queue *)

Definition ended (done_work : list (list Work)) wq : Prop := main wq = MExited /\ handled <$> workers wq = done_work.

Lemma given_insert ws i sw sw' : arr_get ws i = Some sw -> given sw' = given sw -> given <$> <[Z.to_nat i := sw']> ws = given <$> (ws : list (submit_worker Work)).
Proof.
  intros Hi Hg. rewrite list_fmap_insert, Hg. apply list_insert_id. rewrite list_lookup_fmap. pose proof (arr_get_range _ _ _ Hi).
  rewrite <- (Z2Nat.id i), arr_get_nat in Hi by lia. by rewrite Hi.
Qed.

Lemma weight_asked sw f : (weight (signal_worker (set_flags sw f)) <= weight sw + 9)%nat.
Proof. unfold signal_worker, weight. cbn [wpc set_flags]. destruct (wpc sw) eqn:Hp; cbn [wpc set_wpc set_flags work_list local_list]; rewrite ?Hp; cbn; lia. Qed.

Lemma given_asked sw f : given (signal_worker (set_flags sw f)) = given sw.
Proof. unfold signal_worker. cbn [wpc set_flags]. by destruct (wpc sw). Qed.

Lemma exit_step wq b wq' : wq_ok wq -> exiting (main wq) = true -> main_step wq (AStep b) = Some wq' ->
  given <$> workers wq' = given <$> workers wq /\ cost wq' < cost wq /\ exiting (main wq') = true.
Proof.
  intros Hq Hf H. pose proof (q_main wq Hq) as Hm. unfold main_inv in Hm. pose proof (zlength_nonneg (workers wq)) as H0. destruct (q_len wq Hq) as [_ Hl].
  unfold main_step in H. destruct (main wq) as [| | | | | | | | | |i|i s|i s|] eqn:Em; try done; specialize (Hl eq_refl); destruct Hm as [Hi Hx]; unfold cost; rewrite Em.
  - unfold exit_ask in H. destruct (Z.ltb_spec i (max_workers wq)).
    + destruct (arr_get (workers wq) i) as [sw|] eqn:Ei; [|done]. cbn [mbind option_bind] in H. destruct (arr_set _ _ _) as [ws|] eqn:Es; [|done].
      apply arr_set_inv in Es as [_ ->]. injection H as <-. cbn [main set_main set_workers max_workers workers main_cost].
      split; [apply (given_insert _ _ sw); [done|apply given_asked]|]. split; [|done]. rewrite (all_weight_insert _ _ sw) by done.
      pose proof (weight_asked sw (Z.lor (flags sw) SW_F_EXIT)) as Hw. nia.
    + injection H as <-. cbn [main set_main max_workers workers main_cost]. split; [done|split; [nia|done]].
  - unfold exit_account in H. destruct (Z.ltb_spec i (max_workers wq)).
    + destruct (arr_get (workers wq) i) as [sw|] eqn:Ei; [|done]. cbn [mbind option_bind] in H. destruct (has SW_F_ACCOUNTED sw).
      * injection H as <-. cbn [main set_main max_workers workers main_cost]. split; [done|split; [lia|done]].
      * destruct (arr_set _ _ _) as [ws|] eqn:Es; [|done]. apply arr_set_inv in Es as [_ ->]. injection H as <-.
        cbn [main set_main set_workers max_workers workers main_cost]. split; [by apply (given_insert _ _ sw)|]. split; [|done].
        rewrite (all_weight_insert _ _ sw) by done. change (weight (set_flags sw _)) with (weight sw). lia.
    + injection H as <-. destruct Hi as [-> Hi]. assert (i = max_workers wq) as -> by lia. rewrite Z.eqb_refl, andb_false_r.
      cbn [main set_main max_workers workers main_cost]. split; [done|split; [lia|done]].
  - unfold exit_join in H. destruct (arr_get (workers wq) i) as [sw|] eqn:Ei; [|done]. cbn [mbind option_bind] in H. destruct (wpc sw); try done.
    injection H as <-. cbn [main set_main max_workers workers main_cost]. split; [done|split; [lia|done]].
Qed.

Lemma exit_progress wq : wq_ok wq -> exiting (main wq) = true -> ended (given <$> workers wq) wq \/ exists wq', progress wq wq'.
Proof.
  intros Hq Hf. pose proof (q_main wq Hq) as Hm. unfold main_inv in Hm. destruct (q_len wq Hq) as [_ Hl].
  assert (forall wq', main_step wq (AStep true) = Some wq' -> exists wq', progress wq wq') as Hmain by (intros wq' H; by exists wq', (EMain (AStep true))).
  unfold main_step in Hmain. destruct (main wq) as [| | | | | | | | | |i|i s|i s|] eqn:Em; try done; specialize (Hl eq_refl).
  - right. unfold exit_ask in Hmain. destruct (Z.ltb_spec i (max_workers wq)); [|by eapply Hmain].
    destruct (arr_get_Some (workers wq) i) as [sw Ei]; [lia|]. rewrite Ei in Hmain. cbn [mbind option_bind] in Hmain. rewrite arr_set_Some in Hmain by lia. by eapply Hmain.
  - right. unfold exit_account in Hmain. destruct (Z.ltb_spec i (max_workers wq)); [|by eapply Hmain].
    destruct (arr_get_Some (workers wq) i) as [sw Ei]; [lia|]. rewrite Ei in Hmain. cbn [mbind option_bind] in Hmain. rewrite arr_set_Some in Hmain by lia. cbn [mbind option_bind] in Hmain. destruct (has _ sw); by eapply Hmain.
  - right. unfold exit_join in Hmain. destruct Hm as ([_ Hi] & Hx & _). destruct (arr_get_Some (workers wq) i) as [sw Ei]; [lia|]. rewrite Ei in Hmain. cbn [mbind option_bind] in Hmain.
    destruct (decide (wpc sw = WDone)) as [Hp|Hp]; [rewrite Hp in Hmain; by eapply Hmain|]. destruct (worker_step_total wq i sw true Ei) as [wq' H].
    + intros Hs. destruct (ok_sleep _ _ (q_workers wq Hq i sw Ei) Hs). destruct (Hx i sw Ei). congruence.
    + done.
    + by rewrite Em.
    + by exists wq', (EWorker i true).
  - left. split; [done|]. apply all_handled. intros j sw Hj. by apply (ok_done _ _ (q_workers wq Hq j sw Hj)), (Hm j).
Qed.

Lemma exit_inevitable wq : wq_ok wq -> exiting (main wq) = true -> inevitably progress (ended (given <$> workers wq)) wq.
Proof.
  intros Hq Hf. apply (inevitably_measure progress _ (fun a => wq_ok a /\ given <$> workers a = given <$> workers wq /\ exiting (main a) = true) cost); [| |by auto].
  - intros a (Ha & _ & Hc). apply cost_pos; [done|]. auto.
  - intros a (Ha & Hg & Hc). destruct (exit_progress a Ha Hc) as [Hend|Hp]; [rewrite Hg in Hend; by left|right; split; [done|]].
    intros a' (e & He & H). destruct e as [[b| | |]|i b|i|]; try done; cbn in H.
    + pose proof (main_step_ok _ _ _ Ha H). destruct (exit_step _ _ _ Ha Hc H) as (Hw & Hcost & Hres). rewrite Hw, Hg. auto.
    + destruct (worker_step_cost _ _ _ _ Ha (or_intror Hc) H) as (Ha' & Hg' & _ & Hf' & Hcost). rewrite Hg', Hg, (Hf' Hc). auto.
Qed.
(** * The queue as its user sees it *)

(** The work each worker was given. *)
Definition given_to wq : list (list Work) := given <$> workers wq.

Lemma enqueue_given wq i sw n w : arr_get (workers wq) i = Some sw ->
  given (signal_worker (mk_sw (wpc sw) (Z.ldiff (flags sw) SW_F_IDLE) n (work_list sw ++ [w]) (local_list sw) (given sw ++ [w]) (handled sw))) = given sw ++ [w].
Proof. intros _. unfold signal_worker. cbn [wpc]. by destruct (wpc sw). Qed.

Lemma enqueue_runs wq w : wq_ok wq -> main wq = MRun ->
  exists i sw wq1 wq2, arr_get (workers wq) i = Some sw /\
    (has SW_F_IDLE sw = true \/ forall j, 0 <= j < max_workers wq -> is_idle (workers wq) j false /\ older_than (workers wq) i j) /\
    exec wq (EMain (AEnqueue w)) = Some wq1 /\ main wq1 = MChosen i w /\ exec wq1 (EMain (AStep true)) = Some wq2 /\ main wq2 = MRun /\
    given_to wq2 = <[Z.to_nat i := given sw ++ [w]]> (given_to wq).
Proof.
  intros Hq Em. pose proof (q_some wq Hq) as H0. destruct (q_len wq Hq) as [_ Hl]. pose proof (q_next wq Hq) as Hn. rewrite Em in *. specialize (H0 eq_refl eq_refl). specialize (Hl eq_refl).
  destruct (get_submit_worker_spec wq) as (i & n & Eg & Hi & _ & Hc); [lia|done|]. destruct (arr_get_Some (workers wq) i) as [sw Ei]; [lia|].
  exists i, sw, (set_main (set_next_free wq n) (MChosen i w)). eexists. split_and!; [done| |cbn; unfold main_step; rewrite Em, Eg; reflexivity|done| | |].
  - destruct Hc as [(x & Hx & Hf)|Hc]; [left; congruence|by right].
  - cbn. unfold main_step, workqueue_enqueue. cbn [main set_main set_next_free workers]. rewrite Ei. cbn [mbind option_bind]. rewrite arr_set_Some by lia. reflexivity.
  - done.
  - unfold given_to. cbn. rewrite list_fmap_insert. by rewrite (enqueue_given wq i).
Qed.

(** Of a queue of [n] threads, whatever the order of the steps: a worker has handled the work
    it was given, in order and once, but for what is in its lists; a call of
    [workqueue_enqueue] finds a worker, idle or, when none is, the one whose newest work is
    the oldest, and gives it the work; [workqueue_flush] returns, and [workqueue_exit] ends,
    with nothing left. *)
(** C38: [workqueue_enqueue], [workqueue_flush] and [workqueue_exit] with any interleaving
    of the worker threads: no work is lost, reordered within a worker or handled twice; an
    enqueue never fails and picks an idle worker if there is one; when a flush returns or
    the threads are joined, everything given has been handled. *)
Theorem work_handled_once n wq : 0 <= n -> rtc step (initial n) wq ->
  (forall i, at_worker wq i (fun sw => given sw = handled sw ++ local_list sw ++ work_list sw)) /\
  (main wq = MRun -> forall w, exists i sw wq1 wq2, arr_get (workers wq) i = Some sw /\
    (has SW_F_IDLE sw = true \/ forall j, 0 <= j < max_workers wq -> is_idle (workers wq) j false /\ older_than (workers wq) i j) /\
    exec wq (EMain (AEnqueue w)) = Some wq1 /\ main wq1 = MChosen i w /\ exec wq1 (EMain (AStep true)) = Some wq2 /\ main wq2 = MRun /\
    given_to wq2 = <[Z.to_nat i := given sw ++ [w]]> (given_to wq)) /\
  (forall b wq', flushing (main wq) = true -> exec wq (EMain (AStep b)) = Some wq' -> main wq' = MRun -> handled <$> workers wq' = given_to wq) /\
  (main wq = MExited -> handled <$> workers wq = given_to wq).
Proof.
  intros Hn Hr. pose proof (reachable_ok n wq Hn Hr) as Hq. split_and!.
  - intros i sw Hi. apply (q_workers wq Hq i sw Hi).
  - intros Em w. by apply enqueue_runs.
  - intros b wq' Hf H Em. cbn in H. destruct (flush_step _ _ _ Hq Hf H) as (_ & _ & [Hf'|[_ Hd]]); [by rewrite Em in Hf'|done].
  - intros Em. destruct (exit_progress wq Hq) as [[_ H]|(wq' & e & He & H)]; [by rewrite Em|done|].
    apply all_handled. intros j sw Hj. pose proof (q_main wq Hq) as Hm. unfold main_inv in Hm. rewrite Em in Hm.
    by apply (ok_done _ _ (q_workers wq Hq j sw Hj)), (Hm j).
Qed.

(** C39: liveness of [workqueue_flush] and [workqueue_exit]: from any state that the threads
    can be in during a flush, every schedule of the threads (without spurious wakeups, which
    could repeat for ever) brings the flush to its return, never stuck before, with exactly
    the work given so far handled; likewise [workqueue_exit] comes to its end. *)
Theorem flush_and_exit_end n wq : 0 <= n -> rtc step (initial n) wq ->
  (flushing (main wq) = true -> inevitably progress (flushed (given_to wq)) wq) /\
  (exiting (main wq) = true -> inevitably progress (ended (given_to wq)) wq).
Proof. intros Hn Hr. pose proof (reachable_ok n wq Hn Hr) as Hq. split; [by apply flush_inevitable|by apply exit_inevitable]. Qed.

Fixpoint run wq (es : list (event Work)) : option (workqueue Work) :=
  match es with [] => Some wq | e :: es => let* wq := exec wq e in run wq es end.

Lemma run_steps wq es wq' : run wq es = Some wq' -> rtc step wq wq'.
Proof.
  revert wq. induction es as [|e es IH]; intros wq H; cbn in H; [injection H as ->; apply rtc_refl|].
  destruct (exec wq e) as [wq1|] eqn:E; [|done]. apply (rtc_l _ _ wq1); [by exists e|by apply IH].
Qed.
End System.

(** * Runs *)

(** Two workers start. *)
Definition started : list (event Z) :=
  [EMain (AStep true); EMain (AStep true); EMain (AStep true); EMain (AStep true); EMain (AStep true); EWorker 0 false; EWorker 1 false;
   EMain (AStep true); EMain (AStep true); EMain (AStep true); EWorker 0 false; EWorker 1 false].

(** Three works, one of them handled, and a flush that waits. *)
Definition busy : list (event Z) :=
  started ++ [EMain (AEnqueue 7); EMain (AStep true); EMain (AEnqueue 8); EMain (AStep true); EMain (AEnqueue 9); EMain (AStep true);
   EWorker 0 false; EWorker 0 false; EMain AFlush; EMain (AStep true)].

Definition at_busy : workqueue Z := default (initial 2) (run (initial 2) busy).

Example busy_runs : run (initial 2) busy = Some at_busy /\ main at_busy = MFlushWait /\ given_to at_busy = [[7; 9]; [8]] /\ handled <$> workers at_busy = [[7]; []].
Proof. vm_compute. done. Qed.

Lemma work_handled_once_witness : handled <$> workers at_busy = [[7]; []] /\ forall i, at_worker at_busy i (fun sw => given sw = handled sw ++ local_list sw ++ work_list sw).
Proof. split; [by vm_compute|]. apply (work_handled_once 2 at_busy); [done|]. apply (run_steps _ busy). by vm_compute. Defined.

Lemma flush_and_exit_end_witness : inevitably progress (flushed [[7; 9]; [8]]) at_busy.
Proof. apply (flush_and_exit_end 2 at_busy); [done| |by vm_compute]. apply (run_steps _ busy). by vm_compute. Defined.

(** ** The creator and the first worker

    [start_worker] stores [SW_F_IDLE] after the thread runs and erases the
    [SW_F_RUNNING] that the thread may have set; [workqueue_init] then waits for ever. *)
Definition flag_erased : list (event Z) :=
  [EMain (AStep true); EWorker 0 false; EMain (AStep true); EMain (AStep true); EMain (AStep true); EMain (AStep true); EWorker 0 false;
   EMain (AStep true); EMain (AStep true); EMain (AStep true); EWorker 0 false].

Example init_can_hang : exists wq : workqueue Z, rtc step (initial 1) wq /\ main wq = MInitWait 0 /\ forall wq' : workqueue Z, ~ progress wq wq'.
Proof.
  exists (default (initial 1) (run (initial 1) flag_erased)). split; [apply (run_steps _ flag_erased); by vm_compute|]. split; [by vm_compute|].
  intros wq' (e & He & H). destruct e as [[b| | |]|i b|i|]; try done; revert H.
  set (wq := default _ _). assert (workers wq = [mk_sw WSleep SW_F_IDLE 0 [] [] [] []]) as Ew by (by vm_compute). cbn [exec]. unfold worker_step. rewrite Ew.
  destruct (arr_get _ i) as [sw|] eqn:Ei; [|done]. pose proof Ei as Hr%arr_get_range. assert (i = 0) as -> by (unfold zlength in Hr; cbn in Hr; lia). by injection Ei as <-.
Qed.
