(* ===== verification/RbTree.v ===== *)
(** lib/rbtree.c: red-black trees of linked nodes. *)
From stdpp Require Import gmap.
From S2P Require Import Prelude.
#[local] Set Warnings "-clear-no-such-hyp".
Local Open Scope word_scope.

(** * Data

    The memory of a tree: its nodes by their addresses, which are multiples of 4, and the
    pointer of its [rb_root].  The low bit of [rb_parent_color] is the colour, the rest the
    address of the parent.  Reading or writing a node that is not there is undefined. *)

Record fio_rb_node : Type := mk_node { rb_parent_color : Z; rb_right : Z; rb_left : Z }.
Record rb_root : Type := mk_root { nodes : gmap Z fio_rb_node; rb_node : Z }.

Definition RB_RED : Z := 0.
Definition RB_BLACK : Z := 1.

Definition rb_parent (n : fio_rb_node) : Z := Z.ldiff (rb_parent_color n) 3.
Definition rb_color (n : fio_rb_node) : Z := rb_parent_color n & 1.
Definition rb_is_black (n : fio_rb_node) : bool := c_true (rb_color n).
Definition rb_is_red (n : fio_rb_node) : bool := negb (rb_is_black n).

Definition load (t : rb_root) (x : Z) : option fio_rb_node := nodes t !! x.
Definition store (t : rb_root) (x : Z) (f : fio_rb_node -> fio_rb_node) : option rb_root :=
  let* n := load t x in Some (mk_root (<[x := f n]> (nodes t)) (rb_node t)).

Definition set_parent_color (n : fio_rb_node) (pc : Z) : fio_rb_node := mk_node pc (rb_right n) (rb_left n).
Definition set_right (t : rb_root) (x v : Z) : option rb_root := store t x (fun n => mk_node (rb_parent_color n) v (rb_left n)).
Definition set_left (t : rb_root) (x v : Z) : option rb_root := store t x (fun n => mk_node (rb_parent_color n) (rb_right n) v).
Definition set_root (t : rb_root) (x : Z) : rb_root := mk_root (nodes t) x.

Definition rb_set_red (t : rb_root) (x : Z) : option rb_root := store t x (fun n => set_parent_color n (Z.ldiff (rb_parent_color n) 1)).
Definition rb_set_black (t : rb_root) (x : Z) : option rb_root := store t x (fun n => set_parent_color n (Z.lor (rb_parent_color n) 1)).
Definition rb_set_parent (t : rb_root) (x p : Z) : option rb_root := store t x (fun n => set_parent_color n (Z.lor (rb_parent_color n & 3) p)).
Definition rb_set_color (t : rb_root) (x color : Z) : option rb_root := store t x (fun n => set_parent_color n (Z.lor (Z.ldiff (rb_parent_color n) 1) color)).

(** [RB_CLEAR_NODE] and [RB_EMPTY_NODE] *)
Definition RB_CLEAR_NODE (t : rb_root) (x : Z) : option rb_root := rb_set_parent t x x.
Definition RB_EMPTY_NODE (n : fio_rb_node) (x : Z) : bool := rb_parent n =? x.

(** [rb_link] is the place that points to the new node: the root, or a side of the parent. *)
Inductive rb_link : Type := link_root | link_left (p : Z) | link_right (p : Z).

Definition set_link (t : rb_root) (l : rb_link) (x : Z) : option rb_root :=
  match l with link_root => Some (set_root t x) | link_left p => set_left t p x | link_right p => set_right t p x end.

Definition rb_link_node (t : rb_root) (node parent : Z) (l : rb_link) : option rb_root :=
  let* t := store t node (fun _ => mk_node parent 0 0) in set_link t l node.

(** [!p || rb_is_black(p)] and [p && rb_is_red(p)] *)
Definition none_or_black (t : rb_root) (p : Z) : option bool := if p =? 0 then Some true else let* n := load t p in Some (rb_is_black n).
Definition some_red (t : rb_root) (p : Z) : option bool := if p =? 0 then Some false else let* n := load t p in Some (rb_is_red n).

(** * Operations *)

Definition __rb_rotate_left (t : rb_root) (node : Z) : option rb_root :=
  let* n := load t node in
  let right := rb_right n in
  let parent := rb_parent n in
  let* r := load t right in
  let* t := set_right t node (rb_left r) in
  let* t := if c_true (rb_left r) then rb_set_parent t (rb_left r) node else Some t in
  let* t := set_left t right node in
  let* t := rb_set_parent t right parent in
  let* t :=
    if c_true parent then
      let* p := load t parent in
      if node =? rb_left p then set_left t parent right else set_right t parent right
    else Some (set_root t right) in
  rb_set_parent t node right.

Definition __rb_rotate_right (t : rb_root) (node : Z) : option rb_root :=
  let* n := load t node in
  let left := rb_left n in
  let parent := rb_parent n in
  let* l := load t left in
  let* t := set_left t node (rb_right l) in
  let* t := if c_true (rb_right l) then rb_set_parent t (rb_right l) node else Some t in
  let* t := set_right t left node in
  let* t := rb_set_parent t left parent in
  let* t :=
    if c_true parent then
      let* p := load t parent in
      if node =? rb_right p then set_right t parent left else set_left t parent left
    else Some (set_root t left) in
  rb_set_parent t node left.

Fixpoint rb_insert_loop (fuel : nat) (t : rb_root) (node : Z) : option rb_root :=
  let* n := load t node in
  let parent := rb_parent n in
  if parent =? 0 then Some t else
  let* p := load t parent in
  if rb_is_black p then Some t else
  match fuel with
  | O => None
  | S fuel =>
      let gparent := rb_parent p in
      let* g := load t gparent in
      if parent =? rb_left g then
        let uncle := rb_right g in
        let* red := some_red t uncle in
        if (red : bool) then
          let* t := rb_set_black t uncle in
          let* t := rb_set_black t parent in
          let* t := rb_set_red t gparent in
          rb_insert_loop fuel t gparent
        else
          let* '(t, parent, node) :=
            if rb_right p =? node then let* t := __rb_rotate_left t parent in Some (t, node, parent) else Some (t, parent, node) in
          let* t := rb_set_black t parent in
          let* t := rb_set_red t gparent in
          let* t := __rb_rotate_right t gparent in
          rb_insert_loop fuel t node
      else
        let uncle := rb_left g in
        let* red := some_red t uncle in
        if (red : bool) then
          let* t := rb_set_black t uncle in
          let* t := rb_set_black t parent in
          let* t := rb_set_red t gparent in
          rb_insert_loop fuel t gparent
        else
          let* '(t, parent, node) :=
            if rb_left p =? node then let* t := __rb_rotate_right t parent in Some (t, node, parent) else Some (t, parent, node) in
          let* t := rb_set_black t parent in
          let* t := rb_set_red t gparent in
          let* t := __rb_rotate_left t gparent in
          rb_insert_loop fuel t node
  end.

(** A turn of the loop goes up the tree, so that its size is enough fuel. *)
Definition rb_insert_color (t : rb_root) (node : Z) : option rb_root :=
  let* t := rb_insert_loop (size (nodes t)) t node in rb_set_black t (rb_node t).

(** The loop of [__rb_erase_color]; the answer has its [node]. *)
Fixpoint rb_erase_loop (fuel : nat) (t : rb_root) (node parent : Z) : option (rb_root * Z) :=
  let* black := none_or_black t node in
  if (black : bool) && negb (node =? rb_node t) then
    match fuel with
    | O => None
    | S fuel =>
        let* p := load t parent in
        if rb_left p =? node then
          let other := rb_right p in
          let* o := load t other in
          let* '(t, other) :=
            if rb_is_red o then
              let* t := rb_set_black t other in
              let* t := rb_set_red t parent in
              let* t := __rb_rotate_left t parent in
              let* p := load t parent in Some (t, rb_right p)
            else Some (t, other) in
          let* o := load t other in
          let* left_black := none_or_black t (rb_left o) in
          let* right_black := none_or_black t (rb_right o) in
          if (left_black : bool) && (right_black : bool) then
            let* t := rb_set_red t other in
            let* p := load t parent in
            rb_erase_loop fuel t parent (rb_parent p)
          else
            let* '(t, other) :=
              if right_black then
                let o_left := rb_left o in
                let* t := if c_true o_left then rb_set_black t o_left else Some t in
                let* t := rb_set_red t other in
                let* t := __rb_rotate_right t other in
                let* p := load t parent in Some (t, rb_right p)
              else Some (t, other) in
            let* p := load t parent in
            let* t := rb_set_color t other (rb_color p) in
            let* t := rb_set_black t parent in
            let* o := load t other in
            let* t := if c_true (rb_right o) then rb_set_black t (rb_right o) else Some t in
            let* t := __rb_rotate_left t parent in
            Some (t, rb_node t)
        else
          let other := rb_left p in
          let* o := load t other in
          let* '(t, other) :=
            if rb_is_red o then
              let* t := rb_set_black t other in
              let* t := rb_set_red t parent in
              let* t := __rb_rotate_right t parent in
              let* p := load t parent in Some (t, rb_left p)
            else Some (t, other) in
          let* o := load t other in
          let* left_black := none_or_black t (rb_left o) in
          let* right_black := none_or_black t (rb_right o) in
          if (left_black : bool) && (right_black : bool) then
            let* t := rb_set_red t other in
            let* p := load t parent in
            rb_erase_loop fuel t parent (rb_parent p)
          else
            let* '(t, other) :=
              if left_black then
                let o_right := rb_right o in
                let* t := if c_true o_right then rb_set_black t o_right else Some t in
                let* t := rb_set_red t other in
                let* t := __rb_rotate_left t other in
                let* p := load t parent in Some (t, rb_left p)
              else Some (t, other) in
            let* p := load t parent in
            let* t := rb_set_color t other (rb_color p) in
            let* t := rb_set_black t parent in
            let* o := load t other in
            let* t := if c_true (rb_left o) then rb_set_black t (rb_left o) else Some t in
            let* t := __rb_rotate_right t parent in
            Some (t, rb_node t)
    end
  else Some (t, node).

Definition __rb_erase_color (t : rb_root) (node parent : Z) : option rb_root :=
  let* '(t, node) := rb_erase_loop (size (nodes t)) t node parent in
  if c_true node then rb_set_black t node else Some t.

(** The leftmost node from [x] down. *)
Fixpoint leftmost (fuel : nat) (t : rb_root) (x : Z) : option Z :=
  let* n := load t x in
  if c_true (rb_left n) then match fuel with O => None | S fuel => leftmost fuel t (rb_left n) end else Some x.

Definition rb_erase (t : rb_root) (node : Z) : option rb_root :=
  let* n := load t node in
  if c_true (rb_left n) && c_true (rb_right n) then
    let old := node in
    let* node := leftmost (size (nodes t)) t (rb_right n) in
    let* n := load t node in
    let child := rb_right n in
    let parent := rb_parent n in
    let color := rb_color n in
    let* t := if c_true child then rb_set_parent t child parent else Some t in
    let* '(t, parent) :=
      if parent =? old then let* t := set_right t parent child in Some (t, node)
      else let* t := set_left t parent child in Some (t, parent) in
    let* o := load t old in
    let* t := store t node (fun _ => mk_node (rb_parent_color o) (rb_right o) (rb_left o)) in
    let* t :=
      if c_true (rb_parent o) then
        let* p := load t (rb_parent o) in
        if rb_left p =? old then set_left t (rb_parent o) node else set_right t (rb_parent o) node
      else Some (set_root t node) in
    let* t := rb_set_parent t (rb_left o) node in
    let* t := if c_true (rb_right o) then rb_set_parent t (rb_right o) node else Some t in
    if color =? RB_BLACK then __rb_erase_color t child parent else Some t
  else
    let child := if c_true (rb_left n) then rb_left n else rb_right n in
    let parent := rb_parent n in
    let color := rb_color n in
    let* t := if c_true child then rb_set_parent t child parent else Some t in
    let* t :=
      if c_true parent then
        let* p := load t parent in
        if rb_left p =? node then set_left t parent child else set_right t parent child
      else Some (set_root t child) in
    if color =? RB_BLACK then __rb_erase_color t child parent else Some t.

(** The first node; 0 of an empty tree. *)
Definition rb_first (t : rb_root) : option Z :=
  if c_true (rb_node t) then leftmost (size (nodes t)) t (rb_node t) else Some 0.

(** Up from [x] while it is a right child. *)
Fixpoint up_right (fuel : nat) (t : rb_root) (x : Z) : option Z :=
  let* n := load t x in
  let parent := rb_parent n in
  if parent =? 0 then Some 0 else
  let* p := load t parent in
  if x =? rb_right p then match fuel with O => None | S fuel => up_right fuel t parent end else Some parent.

Definition rb_next (t : rb_root) (node : Z) : option Z :=
  let* n := load t node in
  if RB_EMPTY_NODE n node then Some 0
  else if c_true (rb_right n) then leftmost (size (nodes t)) t (rb_right n)
  else up_right (size (nodes t)) t node.

(** * Trees *)

Inductive color : Type := Red | Black.
Inductive tree : Type := E | T (c : color) (l : tree) (x : Z) (r : tree).

#[global] Instance color_eq_dec : EqDecision color.
Proof. solve_decision. Defined.
#[global] Instance tree_eq_dec : EqDecision tree.
Proof. solve_decision. Defined.

Definition color_bit (c : color) : Z := match c with Red => RB_RED | Black => RB_BLACK end.
Definition ptr (t : tree) : Z := match t with E => 0 | T _ _ x _ => x end.
Definition root_color (t : tree) : color := match t with E => Black | T c _ _ _ => c end.

Fixpoint inorder (t : tree) : list Z := match t with E => [] | T _ l x r => inorder l ++ x :: inorder r end.

(** The two sides, so that what mirrors itself is said once. *)
Inductive side : Type := L | R.

#[global] Instance side_eq_dec : EqDecision side.
Proof. solve_decision. Defined.

Definition other (d : side) : side := match d with L => R | R => L end.

(** [a] is on side [d]. *)
Definition node_on (d : side) (c : color) (a : tree) (x : Z) (b : tree) : tree := match d with L => T c a x b | R => T c b x a end.
Definition cell_on (d : side) (pc a b : Z) : fio_rb_node := match d with L => mk_node pc b a | R => mk_node pc a b end.
Definition child (d : side) (n : fio_rb_node) : Z := match d with L => rb_left n | R => rb_right n end.
Definition set_child (d : side) : rb_root -> Z -> Z -> option rb_root := match d with L => set_left | R => set_right end.
Definition rotate (d : side) : rb_root -> Z -> option rb_root := match d with L => __rb_rotate_left | R => __rb_rotate_right end.

(** A context: from the hole upwards, the side of the hole, and the node and the other
    side's tree there. *)
Record frame : Type := mk_frame { f_side : side; f_color : color; f_addr : Z; f_tree : tree }.
Implicit Types (k : list frame).

Definition top (k : list frame) : Z := match k with [] => 0 | f :: _ => f_addr f end.
Fixpoint plug (t : tree) (k : list frame) : tree :=
  match k with [] => t | f :: k => plug (node_on (f_side f) (f_color f) t (f_addr f) (f_tree f)) k end.

(** ** Their memory *)

Fixpoint rep (h : gmap Z fio_rb_node) (t : tree) (parent : Z) : Prop :=
  match t with
  | E => True
  | T c l x r => h !! x = Some (mk_node (parent + color_bit c) (ptr r) (ptr l)) /\ rep h l x /\ rep h r x
  end.

Fixpoint repk (s : rb_root) (k : list frame) (hole : Z) : Prop :=
  match k with
  | [] => rb_node s = hole
  | f :: k => nodes s !! f_addr f = Some (cell_on (f_side f) (top k + color_bit (f_color f)) hole (ptr (f_tree f))) /\
      rep (nodes s) (f_tree f) (f_addr f) /\ repk s k (f_addr f)
  end.

Definition addrs_k (k : list frame) : list Z := concat (map (fun f => f_addr f :: inorder (f_tree f)) k).
Definition valid (x : Z) : Prop := 0 < x /\ Z.land x 3 = 0.

(** The tree [t] in the context [k] is what the memory holds. *)
Record holds (s : rb_root) (t : tree) (k : list frame) : Prop := mk_holds {
  hd_tree : rep (nodes s) t (top k);
  hd_ctx : repk s k (ptr t);
  hd_distinct : NoDup (inorder t ++ addrs_k k);
  hd_valid : Forall valid (inorder t ++ addrs_k k) }.

(** * Proofs *)

Lemma rep_node_on h d c a x b p : rep h (node_on d c a x b) p <->
  h !! x = Some (cell_on d (p + color_bit c) (ptr a) (ptr b)) /\ rep h a x /\ rep h b x.
Proof. destruct d; cbn; tauto. Qed.

Lemma ptr_node_on d c a x b : ptr (node_on d c a x b) = x.
Proof. by destruct d. Qed.

Lemma inorder_node_on d c a x b : inorder (node_on d c a x b) ≡ₚ x :: inorder a ++ inorder b.
Proof. destruct d; cbn; [by rewrite <- Permutation_middle|]. rewrite <- Permutation_middle. by rewrite (Permutation_app_comm (inorder a)). Qed.

Lemma addrs_k_cons f k : addrs_k (f :: k) = f_addr f :: inorder (f_tree f) ++ addrs_k k.
Proof. reflexivity. Qed.

Lemma rep_agree h h' t p : rep h t p -> (forall z, z ∈ inorder t -> h' !! z = h !! z) -> rep h' t p.
Proof.
  revert p. induction t as [|c l IHl x r IHr]; intros p; cbn; [done|]. intros (Hx & Hl & Hr) H.
  split; [rewrite H; [done|set_solver]|]. split; [apply IHl|apply IHr]; try done; intros z Hz; apply H; set_solver.
Qed.

(** The parent of the root of [t] changes. *)
Lemma rep_reparent h h' t p p' : rep h t p -> NoDup (inorder t) -> (t <> E -> h' !! ptr t = (fun n => mk_node (p' + color_bit (root_color t)) (rb_right n) (rb_left n)) <$> h !! ptr t) ->
  (forall z, z ∈ inorder t -> z <> ptr t -> h' !! z = h !! z) -> rep h' t p'.
Proof.
  destruct t as [|c l x r]; cbn; [done|]. intros (Hx & Hl & Hr) Hd Hp H. rewrite Hp, Hx by done. split; [done|].
  apply list.NoDup_app in Hd as (_ & Hlr & Hd). apply list.NoDup_cons in Hd as [Hxr _]. split; (eapply rep_agree; [done|]); intros z Hz; (apply H; [set_solver|]); intros ->; [|done].
  by destruct (Hlr x Hz); left.
Qed.

Lemma repk_agree s s' k hole : repk s k hole -> rb_node s' = rb_node s -> (forall z, z ∈ addrs_k k -> nodes s' !! z = nodes s !! z) -> repk s' k hole.
Proof.
  revert hole. induction k as [|f k IH]; intros hole; cbn; [by intros <-|]. intros (Hx & Ht & Hk) Hr H. split; [rewrite H; [done|set_solver]|].
  split; [eapply rep_agree; [done|]|apply IH; try done]; intros z Hz; apply H; set_solver.
Qed.

(** The hole of [k] has a new root. *)
Lemma repk_rehole s s' k hole hole' : repk s k hole -> NoDup (addrs_k k) ->
  match k with
  | [] => rb_node s' = hole'
  | f :: k' => rb_node s' = rb_node s /\ nodes s' !! f_addr f = Some (cell_on (f_side f) (top k' + color_bit (f_color f)) hole' (ptr (f_tree f)))
  end -> (forall z, z ∈ addrs_k k -> z <> top k -> nodes s' !! z = nodes s !! z) -> repk s' k hole'.
Proof.
  destruct k as [|f k]; cbn; [done|]. intros (Hx & Ht & Hk) Hd [Hr Hn] H. split; [done|].
  apply list.NoDup_cons in Hd as [Hf Hd]. split; [eapply rep_agree; [done|]|eapply repk_agree; [done|done|]]; intros z Hz; (apply H; [set_solver|]);
  intros ->; apply Hf; set_solver.
Qed.

(** ** Focus *)

Lemma holds_up s d c a x b k : holds s (node_on d c a x b) k <-> holds s a (mk_frame d c x b :: k).
Proof.
  assert (inorder (node_on d c a x b) ++ addrs_k k ≡ₚ inorder a ++ addrs_k (mk_frame d c x b :: k)) as Hp.
  { rewrite inorder_node_on, addrs_k_cons. cbn. rewrite <- Permutation_middle, <- !app_assoc. reflexivity. }
  split; intros [H1 H2 H3 H4]; (rewrite Hp in H3, H4 || rewrite <- Hp in H3, H4); split; try done.
  - by apply rep_node_on in H1 as (_ & H1 & _).
  - apply rep_node_on in H1. rewrite ptr_node_on in H2. cbn. tauto.
  - apply rep_node_on. cbn in H2. tauto.
  - rewrite ptr_node_on. cbn in H2. tauto.
Qed.

Lemma holds_plug s t k : holds s t k <-> holds s (plug t k) [].
Proof. revert t. induction k as [|[d c x b] k IH]; intros t; cbn; [done|]. rewrite <- IH. symmetry. apply holds_up. Qed.

Lemma node_on_other d c a x b : node_on (other d) c b x a = node_on d c a x b.
Proof. by destruct d. Qed.

Lemma holds_down s d c a x b k : holds s (node_on d c a x b) k <-> holds s b (mk_frame (other d) c x a :: k).
Proof. rewrite <- node_on_other. apply holds_up. Qed.

Lemma into_near s d c a x b k : holds s (node_on d c a x b) k -> holds s a (mk_frame d c x b :: k).
Proof. apply holds_up. Qed.
Lemma into_far s d c a x b k : holds s (node_on d c a x b) k -> holds s b (mk_frame (other d) c x a :: k).
Proof. apply holds_down. Qed.

(** ** Colours and parents in one word *)

Definition aligned (q : Z) : Prop := Z.land q 3 = 0.

Lemma aligned_mul q : aligned q -> q = 4 * (q / 4).
Proof. unfold aligned. change 3 with (Z.ones 2). rewrite Z.land_ones by lia. intros H. pose proof (Z.div_mod q 4 ltac:(lia)). change (2 ^ 2) with 4 in H. lia. Qed.

Lemma lor_sum a b : Z.lor a b = a + b - Z.land a b.
Proof. pose proof (Z.add_lor_land a b). lia. Qed.

Lemma color_bit_range c : color_bit c = 0 \/ color_bit c = 1.
Proof. destruct c; auto. Qed.

Section Word.
Context (q : Z) (c : color) (Hq : aligned q).

Lemma word_ldiff n : n = 1 \/ n = 2 -> Z.ldiff (q + color_bit c) (Z.ones n) = q.
Proof.
  intros Hn. pose proof (aligned_mul q Hq) as Eq. rewrite Z.ldiff_ones_r, Z.shiftl_mul_pow2, Z.shiftr_div_pow2 by lia. set (m := q / 4) in *. rewrite Eq.
  destruct Hn as [-> | ->]; [change (2 ^ 1) with 2|change (2 ^ 2) with 4]; destruct (color_bit_range c) as [-> | ->]; Z.to_euclidean_division_equations; lia.
Qed.

Lemma word_land n : n = 1 \/ n = 2 -> Z.land (q + color_bit c) (Z.ones n) = color_bit c.
Proof.
  intros Hn. pose proof (aligned_mul q Hq) as Eq. rewrite Z.land_ones by lia. set (m := q / 4) in *. rewrite Eq.
  destruct Hn as [-> | ->]; [change (2 ^ 1) with 2|change (2 ^ 2) with 4]; destruct (color_bit_range c) as [-> | ->]; Z.to_euclidean_division_equations; lia.
Qed.

Lemma aligned_bit c' : Z.land (color_bit c') q = 0.
Proof.
  destruct c'; [done|]. cbn. change RB_BLACK with (Z.ones 1). rewrite Z.land_comm, Z.land_ones by lia. rewrite (aligned_mul q Hq). change (2 ^ 1) with 2.
  set (m := q / 4). Z.to_euclidean_division_equations; lia.
Qed.

Lemma word_parent : Z.ldiff (q + color_bit c) 3 = q.
Proof. apply (word_ldiff 2); auto. Qed.
Lemma word_color : Z.land (q + color_bit c) 1 = color_bit c.
Proof. apply (word_land 1); auto. Qed.
Lemma word_red : Z.ldiff (q + color_bit c) 1 = q + color_bit Red.
Proof. cbn. unfold RB_RED. rewrite Z.add_0_r. apply (word_ldiff 1); auto. Qed.
Lemma word_black : Z.lor (q + color_bit c) 1 = q + color_bit Black.
Proof. rewrite lor_sum, word_color. cbn. unfold RB_BLACK. lia. Qed.
Lemma word_set_color c' : Z.lor (Z.ldiff (q + color_bit c) 1) (color_bit c') = q + color_bit c'.
Proof. rewrite word_red, lor_sum. cbn. unfold RB_RED. rewrite Z.add_0_r, Z.land_comm, aligned_bit. lia. Qed.
End Word.

Lemma word_set_parent q c p : aligned q -> aligned p -> Z.lor (Z.land (q + color_bit c) 3) p = p + color_bit c.
Proof. intros Hq Hp. pose proof (word_land q c Hq 2 ltac:(auto)) as E. change (Z.ones 2) with 3 in E. rewrite E, lor_sum, aligned_bit by done. lia. Qed.

(** ** A node in focus *)

Lemma holds_node s d c a x b k : holds s (node_on d c a x b) k <->
  nodes s !! x = Some (cell_on d (top k + color_bit c) (ptr a) (ptr b)) /\ rep (nodes s) a x /\ rep (nodes s) b x /\ repk s k x /\
  NoDup (x :: inorder a ++ inorder b ++ addrs_k k) /\ Forall valid (x :: inorder a ++ inorder b ++ addrs_k k).
Proof.
  assert (inorder (node_on d c a x b) ++ addrs_k k ≡ₚ x :: inorder a ++ inorder b ++ addrs_k k) as Hp by (rewrite inorder_node_on; cbn; by rewrite <- app_assoc).
  split.
  - intros [H1 H2 H3 H4]. rewrite Hp in H3, H4. rewrite ptr_node_on in H2. apply rep_node_on in H1. tauto.
  - intros (H1 & H2 & H3 & H4 & H5 & H6). rewrite <- Hp in H5, H6. split; try done; [by apply rep_node_on|by rewrite ptr_node_on].
Qed.

Lemma top_aligned s t k : holds s t k -> aligned (top k).
Proof. intros [_ _ _ Hv]. destruct k as [|f k]; [done|]. rewrite Forall_app in Hv. destruct Hv as [_ Hv]. by inversion_clear Hv as [|?? [_ ?]]. Qed.

Lemma holds_load s d c a x b k : holds s (node_on d c a x b) k -> load s x = Some (cell_on d (top k + color_bit c) (ptr a) (ptr b)) /\ valid x.
Proof. intros (H & _ & _ & _ & _ & Hv)%holds_node. split; [done|]. by inversion_clear Hv. Qed.

Lemma ptr_null s t k : holds s t k -> c_true (ptr t) = match t with E => false | _ => true end.
Proof.
  destruct t as [|c l x r]; [done|]. intros H. apply (holds_load s L c l x r k) in H as [_ [H _]]. cbn. apply c_true_iff. lia.
Qed.

(** Cells *)
Lemma cell_child d pc a b : child d (cell_on d pc a b) = a.
Proof. by destruct d. Qed.
Lemma cell_child_other d pc a b : child (other d) (cell_on d pc a b) = b.
Proof. by destruct d. Qed.
Lemma cell_parent_color d pc a b : rb_parent_color (cell_on d pc a b) = pc.
Proof. by destruct d. Qed.

(** A new colour for the node in focus. *)
Lemma recolor s d c c' a x b k f : holds s (node_on d c a x b) k ->
  f (cell_on d (top k + color_bit c) (ptr a) (ptr b)) = cell_on d (top k + color_bit c') (ptr a) (ptr b) ->
  exists s', store s x f = Some s' /\ holds s' (node_on d c' a x b) k.
Proof.
  intros (Hx & Ha & Hb & Hk & Hd & Hv)%holds_node Hf. unfold store, load. rewrite Hx. cbn [mbind option_bind]. eexists. split; [done|].
  pose proof Hd as (Hxn & _)%list.NoDup_cons. apply holds_node. cbn [nodes]. split; [by rewrite lookup_insert, decide_True, Hf|].
  split; [|split; [|split; [|done]]]; [eapply rep_agree; [done|]..|eapply repk_agree; [done|done|]]; intros z Hz; cbn [nodes]; rewrite lookup_insert_ne; try done; intros ->; set_solver.
Qed.

Lemma set_parent_color_cell d pc pc' a b : set_parent_color (cell_on d pc a b) pc' = cell_on d pc' a b.
Proof. by destruct d. Qed.

Lemma set_black_spec s d c a x b k : holds s (node_on d c a x b) k -> exists s', rb_set_black s x = Some s' /\ holds s' (node_on d Black a x b) k.
Proof. intros H. eapply recolor; [done|]. cbv beta. rewrite set_parent_color_cell, cell_parent_color, word_black; [done|]. by eapply top_aligned. Qed.

Lemma set_red_spec s d c a x b k : holds s (node_on d c a x b) k -> exists s', rb_set_red s x = Some s' /\ holds s' (node_on d Red a x b) k.
Proof. intros H. eapply recolor; [done|]. cbv beta. rewrite set_parent_color_cell, cell_parent_color, word_red; [done|]. by eapply top_aligned. Qed.

Lemma set_color_spec s d c a x b k c' : holds s (node_on d c a x b) k -> exists s', rb_set_color s x (color_bit c') = Some s' /\ holds s' (node_on d c' a x b) k.
Proof. intros H. eapply recolor; [done|]. cbv beta. rewrite set_parent_color_cell, cell_parent_color, word_set_color; [done|]. by eapply top_aligned. Qed.

Lemma cell_color d q c a b : aligned q -> rb_color (cell_on d (q + color_bit c) a b) = color_bit c.
Proof. intros H. unfold rb_color. by rewrite cell_parent_color, word_color. Qed.
Lemma cell_is_black d q c a b : aligned q -> rb_is_black (cell_on d (q + color_bit c) a b) = match c with Black => true | Red => false end.
Proof. intros H. unfold rb_is_black. rewrite cell_color by done. by destruct c. Qed.
Lemma cell_parent d q c a b : aligned q -> rb_parent (cell_on d (q + color_bit c) a b) = q.
Proof. intros H. unfold rb_parent. by rewrite cell_parent_color, word_parent. Qed.

(** ** Rotations *)

Lemma rotate_eq d t node : rotate d t node =
  (let* n := load t node in
   let y := child (other d) n in
   let parent := rb_parent n in
   let* r := load t y in
   let* t := set_child (other d) t node (child d r) in
   let* t := if c_true (child d r) then rb_set_parent t (child d r) node else Some t in
   let* t := set_child d t y node in
   let* t := rb_set_parent t y parent in
   let* t :=
     if c_true parent then
       let* p := load t parent in
       if node =? child d p then set_child d t parent y else set_child (other d) t parent y
     else Some (set_root t y) in
   rb_set_parent t node y).
Proof. by destruct d. Qed.

(** What the writes do to a cell that is known. *)
Lemma set_child_cell d t x v pc a b : nodes t !! x = Some (cell_on d pc a b) -> set_child d t x v = Some (mk_root (<[x := cell_on d pc v b]> (nodes t)) (rb_node t)).
Proof. intros H. destruct d; cbn; unfold set_left, set_right, store, load; by rewrite H. Qed.

Lemma set_child_other_cell d t x v pc a b : nodes t !! x = Some (cell_on d pc a b) -> set_child (other d) t x v = Some (mk_root (<[x := cell_on d pc a v]> (nodes t)) (rb_node t)).
Proof. intros H. destruct d; cbn; unfold set_left, set_right, store, load; by rewrite H. Qed.

Lemma set_parent_cell t x p q c n : nodes t !! x = Some n -> rb_parent_color n = q + color_bit c -> aligned q -> aligned p ->
  rb_set_parent t x p = Some (mk_root (<[x := set_parent_color n (p + color_bit c)]> (nodes t)) (rb_node t)).
Proof. intros H Hn Hq Hp. unfold rb_set_parent, store, load. rewrite H. cbn [mbind option_bind]. by rewrite Hn, word_set_parent. Qed.

(** The root of a tree learns its new parent. *)
Lemma reparent_eval s t q p : rep (nodes s) t q -> Forall valid (inorder t) -> aligned q -> aligned p ->
  exists s', (if c_true (ptr t) then rb_set_parent s (ptr t) p else Some s) = Some s' /\ rb_node s' = rb_node s /\
    (forall z, z <> ptr t \/ t = E -> nodes s' !! z = nodes s !! z) /\
    (t <> E -> nodes s' !! ptr t = (fun n => mk_node (p + color_bit (root_color t)) (rb_right n) (rb_left n)) <$> nodes s !! ptr t).
Proof.
  intros Hr Hv Hq Hp. destruct t as [|c l x r]; [exists s; split; [done|]; split_and!; try done|]. cbn [ptr rep inorder root_color] in *.
  assert (valid x) as [Hx _] by (rewrite Forall_app in Hv; destruct Hv as [_ Hv]; by inversion_clear Hv).
  rewrite (proj2 (c_true_iff x)) by lia. destruct Hr as (Hr & _). rewrite (set_parent_cell s x p q c _ Hr) by done. eexists. split; [done|]. split; [done|]. cbn [nodes]. split.
  - intros z [Hz|?]; [|done]. by rewrite lookup_insert_ne.
  - intros _. by rewrite lookup_insert, decide_True, Hr.
Qed.

(** The place that points to the node in focus gets another pointer. *)
Definition relink (d : side) (s : rb_root) (parent x y : Z) : option rb_root :=
  if c_true parent then
    let* p := load s parent in
    if x =? child d p then set_child d s parent y else set_child (other d) s parent y
  else Some (set_root s y).

Lemma side_eq (d d' : side) : d' = d \/ d' = other d.
Proof. destruct d, d'; auto. Qed.

Lemma other_other d : other (other d) = d.
Proof. by destruct d. Qed.

Lemma relink_eval d s k x y : repk s k x -> NoDup (x :: addrs_k k) -> Forall valid (x :: addrs_k k) ->
  exists s', relink d s (top k) x y = Some s' /\ repk s' k y /\ forall z, z <> top k \/ k = [] -> nodes s' !! z = nodes s !! z.
Proof.
  intros Hk Hd Hv. destruct k as [|[d' c z t] k]; [by exists (set_root s y)|]. pose proof Hk as (Hz & Ht & Hk'). cbn [top f_addr f_side f_color f_tree] in *.
  assert (valid x /\ valid z) as [[Hx _] [Hz0 _]] by (inversion_clear Hv as [|?? H1 H2]; by inversion_clear H2).
  apply list.NoDup_cons in Hd as [Hxn Hd]. rewrite addrs_k_cons in Hxn. cbn [f_addr f_tree] in Hxn.
  assert (ptr t <> x) as Hpt by (destruct t; cbn; [lia|intros ->; apply Hxn; cbn; set_solver]).
  assert (relink d s z x y = Some (mk_root (<[z := cell_on d' (top k + color_bit c) y (ptr t)]> (nodes s)) (rb_node s))) as ->.
  { unfold relink. rewrite (proj2 (c_true_iff z)) by lia. unfold load. rewrite Hz. cbn [mbind option_bind]. destruct (side_eq d d') as [-> | ->].
    - rewrite cell_child, Z.eqb_refl. by apply (set_child_cell _ _ _ _ _ _ _ Hz).
    - rewrite <- (other_other d) at 1. rewrite cell_child_other. destruct (Z.eqb_spec x (ptr t)); [by destruct Hpt|]. by apply (set_child_cell _ _ _ _ _ _ _ Hz). }
  eexists. split; [done|]. split.
  - eapply repk_rehole; [done|done| |]; cbn [nodes rb_node]; [by rewrite lookup_insert, decide_True|]. intros w _ Hw. by rewrite lookup_insert_ne.
  - intros w [Hw|?]; [|done]. cbn [nodes]. by rewrite lookup_insert_ne.
Qed.

Lemma ptr_in t : t <> E -> ptr t ∈ inorder t.
Proof. destruct t; [done|]. intros _. cbn. set_solver. Qed.

Lemma top_in k : k <> [] -> top k ∈ addrs_k k.
Proof. destruct k; [done|]. intros _. rewrite addrs_k_cons. by left. Qed.

Lemma ptr_or_null t : Forall valid (inorder t) -> t = E /\ ptr t = 0 \/ t <> E /\ ptr t ∈ inorder t /\ valid (ptr t).
Proof.
  destruct (decide (ptr t ∈ inorder t)) as [Hi|Hi]; [|destruct t; [by left|by destruct Hi; apply ptr_in]]. intros Hv.
  destruct t; [by left|]. right. split; [done|]. split; [done|]. by eapply Forall_forall in Hv; [|apply list_elem_of_In].
Qed.

Lemma rotate_spec d s c a x c' b y e k : holds s (node_on d c a x (node_on d c' b y e)) k ->
  exists s', rotate d s x = Some s' /\ holds s' (node_on d c' (node_on d c a x b) y e) k.
Proof.
  intros H. pose proof (top_aligned _ _ _ H) as Hq. apply holds_node in H as (Hx & Ha & (Hy & Hb & He)%rep_node_on & Hk & Hd & Hv).
  rewrite ptr_node_on in *. rewrite inorder_node_on in Hd, Hv. set (q := top k) in *.
  assert (aligned x /\ aligned y /\ Forall valid (inorder b) /\ Forall valid (addrs_k k)) as (Hxa & Hya & Hvb & Hvk).
  { rewrite !list.Forall_cons, !Forall_app, !list.Forall_cons, !Forall_app in Hv. unfold aligned, valid in *. tauto. }
  assert (x <> y) as Hxy by (intros ->; apply list.NoDup_cons in Hd as [Hd _]; set_solver).
  assert (y :: (x :: inorder a ++ inorder b) ++ inorder e ++ addrs_k k ≡ₚ x :: inorder a ++ (y :: inorder b ++ inorder e) ++ addrs_k k) as Hperm by solve_Permutation.
  rewrite rotate_eq. unfold load. rewrite Hx. cbn [mbind option_bind]. rewrite cell_child_other, cell_parent by done. cbv zeta. rewrite Hy. cbn [mbind option_bind]. rewrite cell_child.
  rewrite (set_child_other_cell _ _ _ _ _ _ _ Hx). cbn [mbind option_bind]. set (s1 := mk_root _ _).
  pose proof Hd as Hsep. rewrite !list.NoDup_cons, !list.NoDup_app, !list.NoDup_cons, !list.NoDup_app in Hsep.
  destruct Hsep as (Sx & Sa & Sa' & (Sy & Sb & Sb' & Se) & Sk & Skk).
  assert ((x ∉ inorder a) /\ (x ∉ inorder b) /\ (x ∉ inorder e) /\ (x ∉ addrs_k k)) as (Xa & Xb & Xe & Xk) by set_solver.
  assert ((y ∉ inorder a) /\ (y ∉ inorder b) /\ (y ∉ inorder e) /\ (y ∉ addrs_k k)) as (Ya & Yb & Ye & Yk) by set_solver.
  assert (forall z, z ∈ inorder a \/ z ∈ inorder e \/ z ∈ addrs_k k -> z ∉ inorder b) as Zb by set_solver.
  assert (forall z, z ∈ inorder a \/ z ∈ inorder e \/ z ∈ inorder b -> z ∉ addrs_k k) as Zk by set_solver. clear Sx Sa' Sy Sb' Sk.
  assert (forall z, z ∉ inorder b -> z <> ptr b \/ b = E) as Pb by (intros z Hz; destruct b; [by right|left; intros ->; apply Hz, ptr_in; done]).
  assert (forall z, z ∉ addrs_k k -> z <> top k \/ k = []) as Pk by (intros z Hz; destruct k; [by right|left; intros ->; apply Hz, top_in; done]).
  destruct (reparent_eval s1 b y x) as (s2 & E2 & R2 & F2 & P2); [|done..|].
  { eapply rep_agree; [exact Hb|]. intros z Hz. cbn. rewrite lookup_insert_ne; [done|]. by intros ->. }
  rewrite E2. cbn [mbind option_bind]. assert (nodes s2 !! y = Some (cell_on d (x + color_bit c') (ptr b) (ptr e))) as Hy2 by (rewrite F2 by auto; cbn; by rewrite lookup_insert_ne).
  rewrite (set_child_cell _ _ _ _ _ _ _ Hy2). cbn [mbind option_bind]. set (s3 := mk_root _ _).
  rewrite (set_parent_cell s3 y q x c' (cell_on d (x + color_bit c') x (ptr e))); [|by cbn; rewrite lookup_insert, decide_True|by rewrite cell_parent_color|done|done].
  cbn [mbind option_bind]. set (s4 := mk_root _ _). change (let* t := ?u in rb_set_parent t x y) with (let* t := relink d s4 q x y in rb_set_parent t x y).
  assert (forall z, z <> y -> nodes s4 !! z = nodes s2 !! z) as F4 by (intros z Hz; cbn; by rewrite !lookup_insert_ne).
  assert (forall z, z <> x -> nodes s1 !! z = nodes s !! z) as F1 by (intros z Hz; cbn; by rewrite lookup_insert_ne).
  destruct (relink_eval d s4 k x y) as (s5 & E5 & K5 & F5).
  { eapply repk_agree; [exact Hk|by cbn; rewrite R2|]. intros z Hz. rewrite F4, F2, F1; auto; [by intros ->|by intros ->]. }
  { by apply list.NoDup_cons. }
  { rewrite list.Forall_cons in Hv |- *. tauto. }
  fold q in E5. rewrite E5. cbn [mbind option_bind].
  assert (nodes s5 !! x = Some (cell_on d (q + color_bit c) (ptr a) (ptr b))) as Hx5 by (rewrite F5, F4, F2 by auto; cbn; by rewrite lookup_insert, decide_True).
  rewrite (set_parent_cell s5 x y q c _ Hx5) by (done || by rewrite cell_parent_color). eexists. split; [done|]. rewrite set_parent_color_cell.
  set (s6 := mk_root _ _). assert (forall z, z <> x -> nodes s6 !! z = nodes s5 !! z) as F6 by (intros z Hz; cbn; by rewrite lookup_insert_ne).
  assert (forall z, z ∈ inorder a \/ z ∈ inorder e \/ z ∈ inorder b -> (z <> ptr b \/ b = E) -> nodes s6 !! z = nodes s !! z) as Fall.
  { intros z Hz Hb'. assert (z <> x /\ z <> y) as [] by (split; intros ->; tauto). by rewrite F6, (F5 z (Pk z (Zk z Hz))), F4, (F2 z Hb'), F1. }
  apply holds_node. rewrite ptr_node_on. split; [rewrite F6, F5 by auto; cbn; rewrite lookup_insert, decide_True by done; by rewrite set_parent_color_cell|].
  split; [apply rep_node_on; split; [by cbn; rewrite lookup_insert, decide_True|split]|split; [|split; [|split]]].
  - eapply rep_agree; [exact Ha|]. intros z Hz. apply Fall; auto.
  - eapply rep_reparent; [exact Hb|done| |intros z Hz Hz'; apply Fall; auto]. intros Hb0. specialize (P2 Hb0). pose proof (ptr_in b Hb0) as Hpb.
    assert (ptr b <> x /\ ptr b <> y) as [] by (split; intros <-; tauto). rewrite F6, F5, F4, P2 by auto. cbn. by rewrite lookup_insert_ne.
  - eapply rep_agree; [exact He|]. intros z Hz. apply Fall; auto.
  - eapply repk_agree; [exact K5|done|]. intros z Hz. apply F6. by intros ->.
  - rewrite inorder_node_on. by rewrite Hperm.
  - rewrite inorder_node_on. by rewrite Hperm.
Qed.
