(* ===== verification/RbOps.v ===== *)
(** Insertion, removal and walking of lib/rbtree.c: red-black trees stay red-black trees of
    just the nodes they should have, in order. *)
From stdpp Require Import gmap.
From S2P Require Import Prelude RbTree.
#[local] Set Warnings "-clear-no-such-hyp".
Local Open Scope word_scope.
Implicit Types (k : list frame).

(** ** Red-black trees *)

(** No red node has a red child. *)
Fixpoint red_ok (t : tree) : Prop :=
  match t with E => True | T c l _ r => (c = Red -> root_color l = Black /\ root_color r = Black) /\ red_ok l /\ red_ok r end.

Definition bump (c : color) (n : nat) : nat := match c with Red => n | Black => S n end.

(** Every way down has [n] black nodes. *)
Fixpoint balanced (n : nat) (t : tree) : Prop :=
  match t with E => n = 0%nat | T c l _ r => exists m, n = bump c m /\ balanced m l /\ balanced m r end.

Record red_black (t : tree) : Prop := mk_red_black { rbt_red : red_ok t; rbt_bal : exists n, balanced n t; rbt_root : root_color t = Black }.

(** The same for a context whose hole has [n] black nodes on every way down, and colour [c]. *)
Fixpoint balanced_k (n : nat) (k : list frame) : Prop :=
  match k with [] => True | f :: k => balanced n (f_tree f) /\ balanced_k (bump (f_color f) n) k end.
Fixpoint red_ok_k (c : color) (k : list frame) : Prop :=
  match k with
  | [] => True
  | f :: k => (f_color f = Red -> c = Black /\ root_color (f_tree f) = Black) /\ red_ok (f_tree f) /\ red_ok_k (f_color f) k
  end.
Fixpoint black_top (k : list frame) : Prop := match k with [] => True | f :: k => (k = [] -> f_color f = Black) /\ black_top k end.

Lemma root_color_node_on d c a x b : root_color (node_on d c a x b) = c.
Proof. by destruct d. Qed.
Lemma red_ok_node_on d c a x b : red_ok (node_on d c a x b) <-> (c = Red -> root_color a = Black /\ root_color b = Black) /\ red_ok a /\ red_ok b.
Proof. destruct d; cbn; tauto. Qed.
Lemma balanced_node_on n d c a x b : balanced n (node_on d c a x b) <-> exists m, n = bump c m /\ balanced m a /\ balanced m b.
Proof. destruct d; cbn; [done|]. split; intros (m & ? & ? & ?); by exists m. Qed.

(** Colours decide the numbers of black nodes. *)
Lemma balanced_plug n t k : balanced n t -> balanced_k n k -> exists m, balanced m (plug t k).
Proof.
  revert n t. induction k as [|[d c x b] k IH]; intros n t Ht Hk; cbn in *; [by exists n|]. destruct Hk as [Hb Hk].
  apply (IH (bump c n)); [|done]. apply balanced_node_on. by exists n.
Qed.

Lemma red_ok_plug t k : red_ok t -> red_ok_k (root_color t) k -> red_ok (plug t k).
Proof.
  revert t. induction k as [|[d c x b] k IH]; intros t Ht Hk; cbn in *; [done|]. destruct Hk as (Hc & Hb & Hk). apply IH; [|by rewrite root_color_node_on].
  by apply red_ok_node_on.
Qed.

Lemma root_plug t k : black_top k -> root_color t = Black \/ k <> [] -> root_color (plug t k) = Black.
Proof.
  revert t. induction k as [|[d c x b] k IH]; intros t Hk Ht; cbn in *; [by destruct Ht|]. destruct Hk as [Hc Hk]. apply IH; [done|]. rewrite root_color_node_on.
  destruct k; [left; auto|by right].
Qed.

Lemma unplug_balanced n t k : balanced n (plug t k) -> exists m, balanced m t /\ balanced_k m k.
Proof.
  revert t. induction k as [|[d c x b] k IH]; intros t Ht; cbn in *; [by exists n|]. destruct (IH _ Ht) as (m & (m' & -> & Ha & Hb)%balanced_node_on & Hk). by exists m'.
Qed.

Lemma unplug_red_ok t k : red_ok (plug t k) -> red_ok t /\ red_ok_k (root_color t) k.
Proof.
  revert t. induction k as [|[d c x b] k IH]; intros t Ht; cbn in *; [done|]. destruct (IH _ Ht) as [(Hc & Ha & Hb)%red_ok_node_on Hk].
  rewrite root_color_node_on in Hk. done.
Qed.

Lemma unplug_root t k : root_color (plug t k) = Black -> black_top k.
Proof.
  revert t. induction k as [|[d c x b] k IH]; intros t Ht; cbn in *; [done|]. split; [|by eapply IH]. intros ->. cbn in Ht. by rewrite root_color_node_on in Ht.
Qed.

(** *** Order *)

Lemma inorder_plug t t' k : inorder t = inorder t' -> inorder (plug t k) = inorder (plug t' k).
Proof. revert t t'. induction k as [|[[|] c x b] k IH]; intros t t' H; cbn; [done| |]; apply IH; cbn; by rewrite H. Qed.

Lemma inorder_hole d c c' a a' x b b' : inorder a = inorder a' -> inorder b = inorder b' -> inorder (node_on d c a x b) = inorder (node_on d c' a' x b').
Proof. intros Ha Hb. destruct d; cbn; by rewrite Ha, Hb. Qed.

Lemma inorder_rotate d c c' c1 c2 a x b y e : inorder (node_on d c a x (node_on d c' b y e)) = inorder (node_on d c1 (node_on d c2 a x b) y e).
Proof. destruct d; cbn; by rewrite <- app_assoc. Qed.

(** ** Fuel *)

Lemma rep_dom h t p z : rep h t p -> z ∈ inorder t -> is_Some (h !! z).
Proof.
  revert p. induction t as [|c l IHl x r IHr]; intros p; cbn; [by intros _ ?%elem_of_nil|]. intros (Hx & Hl & Hr) Hz.
  apply elem_of_app in Hz as [Hz|[->|Hz]%elem_of_cons]; eauto.
Qed.

Lemma repk_dom s k hole z : repk s k hole -> z ∈ addrs_k k -> is_Some (nodes s !! z).
Proof.
  revert hole. induction k as [|f k IH]; intros hole; [by intros _ ?%elem_of_nil|]. rewrite addrs_k_cons. intros (Hx & Ht & Hk) Hz.
  apply elem_of_cons in Hz as [->|[Hz|Hz]%elem_of_app]; eauto using rep_dom.
Qed.

Lemma holds_size s t k : holds s t k -> (length (inorder t) + length k <= size (nodes s))%nat.
Proof.
  intros [H1 H2 H3 _]. assert (length k <= length (addrs_k k))%nat as Hk.
  { clear. induction k as [|f k IH]; [done|]. rewrite addrs_k_cons. cbn. rewrite length_app. lia. }
  assert (length (inorder t ++ addrs_k k) <= size (nodes s))%nat; [|rewrite length_app in *; lia].
  rewrite <- (size_list_to_set (C := gset Z)), <- size_dom by done. apply subseteq_size. intros z Hz%elem_of_list_to_set. apply elem_of_dom.
  apply elem_of_app in Hz as [Hz|Hz]; eauto using rep_dom, repk_dom.
Qed.

(** ** Insertion *)

(** The loop, said once for the two sides. *)
Definition insert_body (rec : rb_root -> Z -> option rb_root) (e : side) (t : rb_root) (g p : fio_rb_node) (gparent parent node : Z) : option rb_root :=
  let uncle := child (other e) g in
  let* red := some_red t uncle in
  if (red : bool) then
    let* t := rb_set_black t uncle in
    let* t := rb_set_black t parent in
    let* t := rb_set_red t gparent in
    rec t gparent
  else
    let* '(t, parent, node) := if child (other e) p =? node then let* t := rotate e t parent in Some (t, node, parent) else Some (t, parent, node) in
    let* t := rb_set_black t parent in
    let* t := rb_set_red t gparent in
    let* t := rotate (other e) t gparent in
    rec t node.

Lemma insert_loop_eq fuel t node n p : load t node = Some n -> load t (rb_parent n) = Some p -> rb_parent n <> 0 -> rb_is_black p = false ->
  rb_insert_loop (S fuel) t node = let* g := load t (rb_parent p) in
    insert_body (rb_insert_loop fuel) (if rb_parent n =? rb_left g then L else R) t g p (rb_parent p) (rb_parent n) node.
Proof.
  intros Hn Hp H0 Hb. cbn [rb_insert_loop]. rewrite Hn. cbn [mbind option_bind]. destruct (Z.eqb_spec (rb_parent n) 0); [done|]. rewrite Hp. cbn [mbind option_bind]. rewrite Hb.
  destruct (load t (rb_parent p)) as [g|]; [|done]. cbn [mbind option_bind]. by destruct (rb_parent n =? rb_left g).
Qed.

Lemma insert_loop_stop fuel t node n : load t node = Some n -> (rb_parent n = 0 \/ exists p, load t (rb_parent n) = Some p /\ rb_is_black p = true) ->
  rb_insert_loop fuel t node = Some t.
Proof.
  intros Hn Hp. destruct fuel; cbn [rb_insert_loop]; rewrite Hn; cbn [mbind option_bind]; (destruct (Z.eqb_spec (rb_parent n) 0); [done|]);
    destruct Hp as [?|(p & -> & Hb)]; [done| |done|]; cbn [mbind option_bind]; by rewrite Hb.
Qed.

(** Reading a node of the context. *)
Lemma holds_load_frame s t f k : holds s t (f :: k) ->
  load s (f_addr f) = Some (cell_on (f_side f) (top k + color_bit (f_color f)) (ptr t) (ptr (f_tree f))) /\ valid (f_addr f) /\ aligned (top k).
Proof.
  destruct f as [d c x b]. intros H%holds_up. pose proof (top_aligned _ _ _ H). by apply holds_load in H as [? ?].
Qed.

Lemma some_red_spec s t k : holds s t k -> some_red s (ptr t) = Some (match root_color t with Red => true | Black => false end).
Proof.
  intros H. destruct t as [|c l x r]; [done|]. pose proof (top_aligned _ _ _ H). apply (holds_load s L c l x r k) in H as [Hx [Hv _]]. unfold some_red. cbn [ptr].
  destruct (Z.eqb_spec x 0); [lia|]. rewrite Hx. cbn [mbind option_bind root_color]. unfold rb_is_red. rewrite cell_is_black by done. by destruct c.
Qed.

(** A tree as a node with given sides. *)
Lemma as_node_on d t : t <> E -> exists c a x b, t = node_on d c a x b.
Proof. destruct t as [|c l x r]; [done|]. intros _. destruct d; by repeat eexists. Qed.

(** The loop's own state: the tree in focus is red, and right but for its parent. *)
Record inserting (s : rb_root) (t : tree) (k : list frame) : Prop := mk_inserting {
  in_holds : holds s t k;
  in_red : red_ok t;
  in_root : root_color t = Red;
  in_bal : exists n, balanced n t /\ balanced_k n k;
  in_ctx : red_ok_k Black k;
  in_top : black_top k }.

(** What it leaves: [u] is right but that its root may be red. *)
Definition inserted (u0 : tree) (s : rb_root) : Prop :=
  exists u, holds s u [] /\ u <> E /\ inorder u = inorder u0 /\ red_ok u /\ (exists n, balanced n u).

Lemma plug_not_E t k : t <> E -> plug t k <> E.
Proof. revert t. induction k as [|[[|] c x b] k IH]; intros t Ht; cbn; [done| |]; by apply IH. Qed.

Lemma inserting_done s t k : inserting s t k -> (match k with [] => True | f :: _ => f_color f = Black end) -> inserted (plug t k) s.
Proof.
  intros [Hh Hr Hc (n & Hb & Hbk) Hk Ht] Hf. exists (plug t k). split; [by apply (proj1 (holds_plug s t k))|]. split; [apply plug_not_E; by destruct t|]. split; [done|].
  split; [|by eapply balanced_plug]. apply red_ok_plug; [done|]. destruct k as [|f k]; [done|]. cbn in *. rewrite Hf in *. split; [done|]. tauto.
Qed.

(** A red uncle: the three change colour, and the grandparent is the next in focus. *)
Lemma insert_recolor s t d1 p b d2 g u k : inserting s t (mk_frame d1 Red p b :: mk_frame d2 Black g u :: k) -> root_color u = Red ->
  exists s' u', (let* s := rb_set_black s (ptr u) in let* s := rb_set_black s p in rb_set_red s g) = Some s' /\
    inserting s' (node_on d2 Red (node_on d1 Black t p b) g u') k /\
    inorder (plug (node_on d2 Red (node_on d1 Black t p b) g u') k) = inorder (plug t (mk_frame d1 Red p b :: mk_frame d2 Black g u :: k)).
Proof.
  intros [Hh Hr Hc (n & Hb & Hbk) Hk Ht] Hu. destruct u as [|cu ul ux ur]; [done|]. cbn in Hu. subst cu. cbn [balanced_k red_ok_k f_color f_tree black_top bump] in *.
  destruct Hbk as (Hbb & Hbu & Hbk), Hk as (Hk1 & Hrb & Hk2 & Hru & Hk), Ht as (_ & Hkt & Htt).
  apply holds_up, holds_up, holds_down in Hh. apply (set_black_spec s L Red ul ux ur) in Hh as (s1 & E1 & Hh).
  apply holds_down, holds_up in Hh. apply set_black_spec in Hh as (s2 & E2 & Hh). apply holds_up in Hh. apply set_red_spec in Hh as (s3 & E3 & Hh).
  exists s3, (T Black ul ux ur). cbn [ptr]. rewrite E1. cbn [mbind option_bind]. rewrite E2. cbn [mbind option_bind]. split; [done|].
  split; [|cbn [plug f_side f_color f_addr f_tree]; by apply inorder_plug, inorder_hole; [apply inorder_hole|]].
  cbn in Hru. cbn in Hbu. destruct Hbu as (n' & -> & Hbl & Hbr). split; try done.
  - apply red_ok_node_on. rewrite root_color_node_on. split; [done|]. split; [|cbn; tauto]. apply red_ok_node_on. by split.
  - by rewrite root_color_node_on.
  - exists (S n'). split; [|done]. apply balanced_node_on. exists (S n'). split; [done|]. split; [apply balanced_node_on; by exists n'|by exists n'].
Qed.

(** A black uncle, after the rotation that brings the two red nodes to the outside. *)
Lemma insert_rotate s t d g q b u k fuel : holds s (node_on d Black (node_on d Red t q b) g u) k -> t <> E -> red_ok t -> root_color t = Red -> red_ok b -> root_color b = Black ->
  red_ok u -> root_color u = Black -> (exists n, balanced n t /\ balanced n b /\ balanced n u /\ balanced_k (S n) k) -> red_ok_k Black k -> black_top k ->
  exists s', (let* s := rb_set_black s q in let* s := rb_set_red s g in let* s := rotate (other d) s g in rb_insert_loop fuel s (ptr t)) = Some s' /\
    inserted (plug (node_on d Black (node_on d Red t q b) g u) k) s'.
Proof.
  intros Hh Ht0 Hrt Hct Hrb Hcb Hru Hcu (n & Bt & Bb & Bu & Bk) Hk Htop. apply holds_up in Hh. apply set_black_spec in Hh as (s1 & E1 & Hh). apply holds_up in Hh.
  apply set_red_spec in Hh as (s2 & E2 & Hh). rewrite <- node_on_other, <- (node_on_other d _ t) in Hh. apply rotate_spec in Hh as (s3 & E3 & Hh).
  rewrite E1. cbn [mbind option_bind]. rewrite E2. cbn [mbind option_bind]. rewrite E3. cbn [mbind option_bind]. exists s3. split.
  - destruct (as_node_on L t Ht0) as (c & l & x & r & ->). apply holds_down in Hh. rewrite ptr_node_on. pose proof (top_aligned _ _ _ Hh) as Ha. cbn [top f_addr] in Ha.
    pose proof (holds_load _ _ _ _ _ _ _ Hh) as [Hx _]. cbn [top f_addr] in Hx. apply (insert_loop_stop _ _ _ _ Hx). right. rewrite cell_parent by done.
    apply holds_load_frame in Hh as (Hq & _ & Hqa). cbn [f_addr f_side f_color f_tree] in Hq. eexists. split; [exact Hq|]. by rewrite cell_is_black.
  - set (v := node_on (other d) Black (node_on (other d) Red u g b) q t) in *. exists (plug v k). split; [by apply (proj1 (holds_plug s3 v k))|]. split; [apply plug_not_E; unfold v; by destruct (other d)|].
    split; [apply inorder_plug; unfold v; destruct d; cbn; by rewrite <- app_assoc|].
    split; [apply red_ok_plug; [|by unfold v; rewrite root_color_node_on]|eapply (balanced_plug (S n)); [|done]].
    + unfold v. apply red_ok_node_on. split; [done|]. split; [apply red_ok_node_on|]; done.
    + unfold v. apply balanced_node_on. exists n. split; [done|]. split; [|done]. apply balanced_node_on. by exists n.
Qed.

(** Which side of its parent a node is on. *)
Lemma side_test s t d c p b k : holds s t (mk_frame d c p b :: k) -> t <> E -> (ptr t =? ptr b) = false.
Proof.
  intros Hh Ht. apply Z.eqb_neq. intros Hp. destruct Hh as [_ _ Hd Hv]. rewrite addrs_k_cons in Hd, Hv. cbn [f_addr f_tree] in Hd, Hv.
  pose proof (ptr_in t Ht) as H1. rewrite Forall_app in Hv. destruct Hv as [Hv _].
  apply list.NoDup_app in Hd as (_ & Hd & _). destruct (decide (b = E)) as [->|Hb].
  - destruct (ptr_or_null t Hv) as [[? _]|(_ & _ & [H0 _])]; [done|]. cbn in Hp. lia.
  - apply (Hd _ H1). rewrite Hp. pose proof (ptr_in b Hb). set_solver.
Qed.

Lemma side_of s t d1 c1 p b d2 c2 g u k : holds s t (mk_frame d1 c1 p b :: mk_frame d2 c2 g u :: k) -> forall pc,
  (if p =? rb_left (cell_on d2 pc p (ptr u)) then L else R) = d2.
Proof.
  intros Hh pc. apply holds_up in Hh. pose proof (side_test _ _ _ _ _ _ _ Hh) as H. rewrite ptr_node_on in H. destruct d2; cbn; [by rewrite Z.eqb_refl|].
  rewrite H; [done|]. by destruct d1.
Qed.

Lemma inner_test s t d c p b k d' pc : holds s t (mk_frame d c p b :: k) -> t <> E ->
  (child d' (cell_on d pc (ptr t) (ptr b)) =? ptr t) = match d, d' with L, L | R, R => true | _, _ => false end.
Proof.
  intros Hh Ht. pose proof (side_test _ _ _ _ _ _ _ Hh Ht) as H. rewrite Z.eqb_sym in H. destruct d, d'; cbn; rewrite ?Z.eqb_refl; done.
Qed.

Lemma inserting_uncle s t d1 p b d2 c2 g u k : inserting s t (mk_frame d1 Red p b :: mk_frame d2 c2 g u :: k) -> c2 = Black.
Proof. intros [_ _ _ _ Hk _]. cbn in Hk. destruct c2; [|done]. naive_solver. Qed.

(** The rotations when the uncle is black. *)
Lemma insert_black_uncle s t d1 p b d2 g u k fuel : inserting s t (mk_frame d1 Red p b :: mk_frame d2 Black g u :: k) -> root_color u = Black -> forall pc,
  exists s', (let* '(s, parent, node) :=
      if child (other d2) (cell_on d1 pc (ptr t) (ptr b)) =? ptr t then let* s := rotate d2 s p in Some (s, ptr t, p) else Some (s, p, ptr t) in
    let* s := rb_set_black s parent in let* s := rb_set_red s g in let* s := rotate (other d2) s g in rb_insert_loop fuel s node) = Some s' /\
    inserted (plug t (mk_frame d1 Red p b :: mk_frame d2 Black g u :: k)) s'.
Proof.
  intros [Hh Hr Hc (n & Hb & Hbk) Hk Ht] Hu pc. assert (t <> E) as Ht0 by (by destruct t). rewrite (inner_test _ _ _ _ _ _ _ _ _ Hh Ht0).
  cbn [balanced_k red_ok_k f_color f_tree black_top bump] in *. destruct Hbk as (Hbb & Hbu & Hbk), Hk as (Hk1 & Hrb & Hk2 & Hru & Hk), Ht as (_ & _ & Htt).
  destruct (Hk1 eq_refl) as [_ Hcb]. apply holds_up in Hh. destruct (decide (d1 = d2)) as [->|Hd].
  - assert (match d2 with L => match other d2 with L => true | R => false end | R => match other d2 with L => false | R => true end end = false) as -> by (by destruct d2).
    cbn [mbind option_bind]. apply holds_up in Hh. apply (insert_rotate s t d2 g p b u k fuel); try done. by exists n.
  - assert (d1 = other d2) as -> by (by destruct d1, d2). assert (match other d2 with L => match other d2 with L => true | R => false end | R => match other d2 with L => false | R => true end end = true) as -> by (by destruct d2).
    destruct (as_node_on d2 t Ht0) as (ct & l & x & r & ->). rewrite root_color_node_on in Hc. subst ct. rewrite ptr_node_on, node_on_other in *.
    apply rotate_spec in Hh as (s1 & E1 & Hh). rewrite E1. cbn [mbind option_bind]. apply holds_up in Hh.
    apply red_ok_node_on in Hr as (Hlr & Hrl & Hrr). destruct (Hlr eq_refl) as [Hcl Hcr]. apply balanced_node_on in Hb as (m & -> & Hbl & Hbr). cbn [bump] in *.
    destruct (insert_rotate s1 (node_on d2 Red b p l) d2 g x r u k fuel Hh) as (s' & E & u' & U1 & U2 & U3 & U4 & U5); try done.
    + by destruct d2.
    + by apply red_ok_node_on.
    + by rewrite root_color_node_on.
    + exists m. split_and!; try done. apply balanced_node_on. by exists m.
    + rewrite ptr_node_on in E. exists s'. split; [done|]. exists u'. split_and!; try done. rewrite U3. cbn [plug f_side f_color f_addr f_tree]. apply inorder_plug, inorder_hole; [|done].
      rewrite node_on_other. symmetry. apply inorder_rotate.
Qed.

Lemma insert_loop_spec fuel s t k : inserting s t k -> (length k <= fuel)%nat -> exists s', rb_insert_loop fuel s (ptr t) = Some s' /\ inserted (plug t k) s'.
Proof.
  revert s t k. induction fuel as [|fuel IH]; intros s t k Hi Hf; pose proof Hi as [Hh Hr Hc _ Hk Htop]; (assert (t <> E) as Ht0 by (by destruct t));
    destruct (as_node_on L t Ht0) as (c & l & x & r & ->); rewrite root_color_node_on in Hc; subst c; rewrite ptr_node_on; pose proof (holds_load _ _ _ _ _ _ _ Hh) as [Hx _]; pose proof (top_aligned _ _ _ Hh) as Ha.
  - destruct k; [|cbn in Hf; lia]. exists s. split; [|by apply inserting_done]. apply (insert_loop_stop _ _ _ _ Hx). left. by rewrite cell_parent.
  - destruct k as [|[d1 c1 p b] k]; [exists s; split; [|by apply inserting_done]; apply (insert_loop_stop _ _ _ _ Hx); left; by rewrite cell_parent|].
    pose proof (holds_load_frame _ _ _ _ Hh) as (Hp & [Hp0 _] & Hpa). cbn [f_addr f_side f_color f_tree top] in *. destruct c1.
    2: { exists s. split; [|by apply inserting_done]. apply (insert_loop_stop _ _ _ _ Hx). right. rewrite cell_parent by done. eexists. split; [exact Hp|]. by rewrite cell_is_black. }
    destruct k as [|[d2 c2 g u] k]; [by destruct Htop as [H _]; specialize (H eq_refl)|]. assert (c2 = Black) as -> by exact (inserting_uncle _ _ _ _ _ _ _ _ _ _ Hi).
    pose proof Hh as Hh2. apply holds_up in Hh2. pose proof (holds_load_frame _ _ _ _ Hh2) as (Hg & _ & Hga). cbn [f_addr f_side f_color f_tree top] in *. rewrite ptr_node_on in Hg.
    erewrite (insert_loop_eq fuel s x _ _ Hx); [|rewrite cell_parent by done; exact Hp|rewrite cell_parent by done; lia|by rewrite cell_is_black].
    rewrite !cell_parent, Hg by done. cbn [mbind option_bind].
    rewrite (side_of _ _ _ _ _ _ _ _ _ _ _ Hh). unfold insert_body. rewrite cell_child_other. apply holds_up, holds_down in Hh2. rewrite (some_red_spec _ _ _ Hh2). cbn [mbind option_bind].
    destruct (root_color u) eqn:Hu.
    + destruct (insert_recolor _ _ _ _ _ _ _ _ _ Hi Hu) as (s' & u' & E & Hi' & Hin). destruct (IH _ _ _ Hi') as (s2 & E2 & v & V1 & V2 & V3 & V4); [cbn in Hf; lia|].
      exists s2. split; [|exists v; by rewrite V3].
      destruct (rb_set_black s (ptr u)) as [s3|]; [|done]. cbn [mbind option_bind] in E |- *. destruct (rb_set_black s3 p) as [s4|]; [|done]. cbn [mbind option_bind] in E |- *. rewrite E. cbn [mbind option_bind]. by rewrite ptr_node_on in E2.
    + pose proof (insert_black_uncle _ _ _ _ _ _ _ _ _ fuel Hi Hu (g + color_bit Red)) as H. rewrite ptr_node_on in H. exact H.
Qed.

(** The place of a hole. *)
Definition link_of (k : list frame) : rb_link :=
  match k with [] => link_root | f :: _ => match f_side f with L => link_left (f_addr f) | R => link_right (f_addr f) end end.

Lemma set_link_eval s k x y : repk s k x -> NoDup (addrs_k k) ->
  exists s', set_link s (link_of k) y = Some s' /\ repk s' k y /\ forall z, z <> top k \/ k = [] -> nodes s' !! z = nodes s !! z.
Proof.
  intros Hk Hd. destruct k as [|[d c z b] k]; [by exists (set_root s y)|]. pose proof Hk as (Hz & Hb & Hk'). cbn [f_addr f_side f_color f_tree] in *.
  assert (set_link s (link_of (mk_frame d c z b :: k)) y = set_child d s z y) as -> by (by destruct d).
  rewrite (set_child_cell _ _ _ _ _ _ _ Hz). eexists. split; [done|]. split.
  - eapply repk_rehole; [done|done| |]; cbn [nodes rb_node f_addr f_side f_color f_tree]; [by rewrite lookup_insert, decide_True|]. intros w _ Hw. by rewrite lookup_insert_ne.
  - intros w [Hw|?]; [|done]. cbn [nodes]. by rewrite lookup_insert_ne.
Qed.

Lemma rb_link_spec s k x n : holds s E k -> load s x = Some n -> x ∉ addrs_k k -> valid x ->
  exists s', rb_link_node s x (top k) (link_of k) = Some s' /\ holds s' (T Red E x E) k.
Proof.
  intros [_ Hk Hd Hv] Hx Hxk Hvx. cbn [inorder app ptr] in *. unfold rb_link_node, store. rewrite Hx. cbn [mbind option_bind]. set (s1 := mk_root _ _).
  destruct (set_link_eval s1 k 0 x) as (s' & El & Hk' & F); [|done|].
  { eapply repk_agree; [exact Hk|done|]. intros z Hz. cbn. rewrite lookup_insert_ne; [done|]. by intros ->. }
  exists s'. split; [done|]. apply (holds_node s' L Red E x E k). split; [|split_and!; try done; [by constructor|by constructor]].
  rewrite F; [cbn; rewrite lookup_insert, decide_True by done; unfold RB_RED; by rewrite Z.add_0_r|]. destruct k; [by right|left]. intros ->. apply Hxk, top_in. done.
Qed.

(** A new red leaf becomes part of a red-black tree. *)
Lemma rb_insert_color_spec s x k : holds s (T Red E x E) k -> red_black (plug E k) ->
  exists s' t, rb_insert_color s x = Some s' /\ holds s' t [] /\ red_black t /\ inorder t = inorder (plug (T Red E x E) k).
Proof.
  intros Hh [Hr (n & Hb) Hc]. apply unplug_red_ok in Hr as [_ Hk]. pose proof (unplug_root _ _ Hc) as Htop. apply unplug_balanced in Hb as (m & Hm & Hbk). cbn in Hm. subst m.
  destruct (insert_loop_spec (size (nodes s)) s (T Red E x E) k) as (s1 & E1 & u & U1 & U2 & U3 & U4 & (m & U5)).
  - split; try done. exists 0%nat. split; [|done]. by exists 0%nat.
  - pose proof (holds_size _ _ _ Hh). lia.
  - unfold rb_insert_color. cbn [ptr] in E1. rewrite E1. cbn [mbind option_bind]. destruct (as_node_on L u U2) as (c & l & y & r & ->).
    assert (rb_node s1 = y) as -> by (by destruct U1 as [_ U1 _ _]). apply set_black_spec in U1 as (s2 & E2 & H2). exists s2, (node_on L Black l y r).
    split; [done|]. split; [done|]. split; [|rewrite <- U3; by apply inorder_hole]. apply red_ok_node_on in U4 as (_ & Hl & Hr). apply balanced_node_on in U5 as (m' & -> & Bl & Br).
    split; [by apply red_ok_node_on|exists (S m'); apply balanced_node_on; by exists m'|done].
Qed.

(** ** Removal *)

Lemma relink_link d s k x y : repk s k x -> NoDup (x :: addrs_k k) -> Forall valid (x :: addrs_k k) -> relink d s (top k) x y = set_link s (link_of k) y.
Proof.
  intros Hk Hd Hv. destruct k as [|[d' c z t] k]; [done|]. destruct Hk as (Hz & Ht & Hk'). cbn [top f_addr f_side f_color f_tree] in *.
  assert (valid x /\ valid z) as [[Hx _] [Hz0 _]] by (inversion_clear Hv as [|?? H1 H2]; by inversion_clear H2).
  apply list.NoDup_cons in Hd as [Hxn Hd]. rewrite addrs_k_cons in Hxn. cbn [f_addr f_tree] in Hxn.
  assert (ptr t <> x) as Hpt by (destruct t; cbn; [lia|intros ->; apply Hxn; cbn; set_solver]).
  unfold relink. rewrite (proj2 (c_true_iff z)) by lia. unfold load. rewrite Hz. cbn [mbind option_bind]. destruct (side_eq d d') as [-> | ->].
  - rewrite cell_child, Z.eqb_refl. by destruct d.
  - rewrite <- (other_other d) at 1. rewrite cell_child_other. destruct (Z.eqb_spec x (ptr t)); [by destruct Hpt|]. by destruct d.
Qed.

(** The cells of a tree and of its context do not overlap. *)
Lemma away s t k z : holds s t k -> z ∈ addrs_k k -> z <> ptr t \/ t = E.
Proof.
  intros [_ _ Hd _] Hz. destruct (decide (t = E)) as [|Ht]; [by right|left]. intros ->. apply list.NoDup_app in Hd as (_ & Hd & _). by apply (Hd _ (ptr_in t Ht)).
Qed.

Lemma top_away k z : z ∉ addrs_k k -> z <> top k \/ k = [].
Proof. intros Hz. destruct k; [by right|left]. intros ->. by apply Hz, top_in. Qed.

(** A node with at most one child gives it its place. *)
Lemma splice_spec s d c x b k : holds s (node_on d c E x b) k ->
  exists s', (let* s := if c_true (ptr b) then rb_set_parent s (ptr b) (top k) else Some s in set_link s (link_of k) (ptr b)) = Some s' /\ holds s' b k /\ load s' x = load s x /\
    (forall s1, (if c_true (ptr b) then rb_set_parent s (ptr b) (top k) else Some s) = Some s1 -> forall d', relink d' s1 (top k) x (ptr b) = set_link s1 (link_of k) (ptr b)).
Proof.
  intros Hh. pose proof (top_aligned _ _ _ Hh) as Hq. apply holds_node in Hh as (Hx & _ & Hb & Hk & Hd & Hv). cbn [inorder app] in *.
  pose proof Hv as [[Hx0 Hxa] Hvbk]%list.Forall_cons. pose proof Hvbk as [Hvb Hvk]%Forall_app. pose proof Hd as [Hxn Hdd]%list.NoDup_cons. pose proof Hdd as (Db & Dbk & Dk)%list.NoDup_app.
  destruct (reparent_eval s b x (top k) Hb Hvb Hxa Hq) as (s1 & E1 & R1 & F1 & P1).
  assert (forall z, z ∉ inorder b -> z <> ptr b \/ b = E) as Pb by (intros z Hz; destruct (decide (b = E)); [by right|left; intros ->; by apply Hz, ptr_in]).
  assert (repk s1 k x) as Hk1 by (eapply repk_agree; [exact Hk|done|]; intros z Hz; apply F1, Pb; intros Hz'; by apply (Dbk z)).
  destruct (set_link_eval s1 k x (ptr b) Hk1 Dk) as (s2 & E2 & Hk2 & F2). exists s2. rewrite E1. cbn [mbind option_bind]. split; [done|]. split; [|split].
  - assert (forall z, z ∈ inorder b -> nodes s2 !! z = nodes s1 !! z) as F2b by (intros z Hz; apply F2, top_away; by apply Dbk). split; try done.
    eapply rep_reparent; [exact Hb|done| |].
    + intros Hb0. rewrite F2b by (by apply ptr_in). by apply P1.
    + intros z Hz Hz'. rewrite F2b, F1 by auto. done.
  - unfold load. rewrite F2, F1; [done| |]; [apply Pb|apply top_away]; set_solver.
  - intros s1' [= <-] d'. apply relink_link; [done| |].
    + apply list.NoDup_cons. split; [set_solver|done].
    + by apply list.Forall_cons.
Qed.

(** *** The leftmost node *)

Definition left_path (j : list frame) : Prop := Forall (fun f => f_side f = L) j.

Lemma holds_app s t j k : holds s (plug t j) k <-> holds s t (j ++ k).
Proof. revert t. induction j as [|[d c x b] j IH]; intros t; cbn [plug app]; [done|]. rewrite IH. cbn [f_side f_color f_addr f_tree]. apply holds_up. Qed.

Lemma plug_app t j k : plug t (j ++ k) = plug (plug t j) k.
Proof. revert t. induction j as [|f j IH]; intros t; cbn [plug app]; [done|]. by rewrite IH. Qed.

Lemma leftmost_spec s t k fuel : holds s t k -> t <> E -> (length (inorder t) <= S fuel)%nat ->
  exists j c y b, t = plug (T c E y b) j /\ left_path j /\ leftmost fuel s (ptr t) = Some y.
Proof.
  revert k fuel. induction t as [|c l IHl x r _]; intros k fuel Hh; [done|]. intros _ Hf. pose proof (holds_load s L c l x r k Hh) as [Hx _].
  destruct (decide (l = E)) as [->|Hl].
  - exists [], c, x, r. split; [done|]. split; [by constructor|]. cbn [ptr]. destruct fuel; cbn [leftmost]; by rewrite Hx.
  - apply (holds_up s L) in Hh. pose proof (ptr_null _ _ _ Hh) as Hn. destruct l as [|cl ll xl rl]; [done|]. cbn [inorder] in Hf. rewrite !length_app in Hf. cbn [length] in Hf.
    destruct fuel as [|fuel]; [lia|]. destruct (IHl _ fuel Hh) as (j & cy & y & b & Hp & Hj & Hlm); [done|cbn [inorder]; rewrite length_app; cbn [length]; lia|].
    exists (j ++ [mk_frame L c x r]), cy, y, b. split; [by rewrite plug_app, <- Hp|]. split; [apply Forall_app; split; [exact Hj|by repeat constructor]|].
    cbn [ptr]. cbn [leftmost]. rewrite Hx. cbn [mbind option_bind cell_on rb_left]. rewrite Hn. exact Hlm.
Qed.

(** *** The successor takes the place of a node with two children *)

Lemma inorder_valid s t k z : holds s t k -> z ∈ inorder t -> valid z.
Proof. intros [_ _ _ Hv] Hz. apply Forall_app in Hv as [Hv _]. eapply Forall_forall in Hv; [exact Hv|]. by apply list_elem_of_In. Qed.

Lemma replace_spec s c l o r k y n : holds s (T c l o r) k -> l <> E -> load s y = Some n -> valid y -> y ∉ o :: inorder l ++ inorder r ++ addrs_k k ->
  exists s', (let* s := store s y (fun _ => cell_on L (top k + color_bit c) (ptr l) (ptr r)) in
    let* s := relink L s (top k) o y in let* s := rb_set_parent s (ptr l) y in
    if c_true (ptr r) then rb_set_parent s (ptr r) y else Some s) = Some s' /\ holds s' (T c l y r) k.
Proof.
  intros Hh Hl Hy Hvy Hyn. pose proof (top_aligned _ _ _ Hh) as Hq. apply (holds_node s L) in Hh as (Ho & Hrl & Hrr & Hk & Hd & Hv).
  pose proof Hv as [Hov Hvs]%list.Forall_cons. pose proof (proj2 Hov : aligned o) as Hoa. pose proof Hvs as [Hvl [Hvr Hvk]%Forall_app]%Forall_app. pose proof Hd as [Hon Hdd]%list.NoDup_cons.
  pose proof Hdd as (Dl & Dl' & (Dr & Dr' & Dk)%list.NoDup_app)%list.NoDup_app. destruct Hvy as [Hy0 Hya].
  assert ((y ∉ inorder l) /\ (y ∉ inorder r) /\ (y ∉ addrs_k k) /\ y <> o) as (Yl & Yr & Yk & Yo) by set_solver.
  assert (forall z, z ∈ inorder l -> ((z ∉ inorder r) /\ (z ∉ addrs_k k)) /\ z <> y) as Zl by (intros z Hz; split; [split; intros Hz'; apply (Dl' z Hz), elem_of_app; auto|by intros ->]).
  assert (forall z, z ∈ inorder r -> ((z ∉ inorder l) /\ (z ∉ addrs_k k)) /\ z <> y) as Zr.
  { intros z Hz. split; [split; intros Hz'|by intros ->]; [apply (Dl' z Hz'), elem_of_app; auto|by apply (Dr' z)]. }
  assert (forall z, z ∈ addrs_k k -> (z ∉ inorder l) /\ (z ∉ inorder r)) as Zk by (intros z Hz; split; intros Hz'; [apply (Dl' z Hz'), elem_of_app; auto|by apply (Dr' z)]).
  assert (o ∉ addrs_k k) as Ok by (intros Hz; apply Hon; apply elem_of_app; right; apply elem_of_app; auto).
  unfold store. rewrite Hy. cbn [mbind option_bind]. set (s1 := mk_root _ _).
  assert (forall z, z <> y -> nodes s1 !! z = nodes s !! z) as F1 by (intros z Hz; cbn; by rewrite lookup_insert_ne).
  assert (repk s1 k o) as Hk1 by (eapply repk_agree; [exact Hk|done|]; intros z Hz; apply F1; by intros ->).
  rewrite (relink_link L s1 k o y Hk1); [|by apply list.NoDup_cons|by apply list.Forall_cons].
  destruct (set_link_eval s1 k o y Hk1 Dk) as (s2 & E2 & Hk2 & F2). rewrite E2. cbn [mbind option_bind].
  assert (forall z, (z ∉ addrs_k k) -> z <> y -> nodes s2 !! z = nodes s !! z) as F2' by (intros z Hz Hz'; rewrite F2 by (by apply top_away); by apply F1).
  assert (nodes s2 !! y = Some (cell_on L (top k + color_bit c) (ptr l) (ptr r))) as Y2 by (rewrite F2 by (by apply top_away); cbn; by rewrite lookup_insert, decide_True).
  assert (forall t z, (z ∉ inorder t) -> z <> ptr t \/ t = E) as Pt by (intros t z Hz; destruct (decide (t = E)); [by right|left; intros ->; by apply Hz, ptr_in]).
  destruct (reparent_eval s2 l o y) as (s3 & E3 & R3 & F3 & P3); [|done..|].
  { eapply rep_agree; [exact Hrl|]. intros z Hz. by apply F2'; apply Zl. }
  assert (c_true (ptr l) = true) as El by (destruct (ptr_or_null l Hvl) as [[? _]|(_ & _ & [? _])]; [done|apply c_true_iff; lia]).
  rewrite El in E3. rewrite E3. cbn [mbind option_bind].
  assert (forall z, z ∈ inorder r -> nodes s3 !! z = nodes s !! z) as F3r by (intros z Hz; rewrite F3 by (by apply Pt, Zr); by apply F2'; apply Zr).
  destruct (reparent_eval s3 r o y) as (s4 & E4 & R4 & F4 & P4); [by eapply rep_agree|done..|].
  exists s4. split; [exact E4|]. apply (holds_node s4 L). split; [by rewrite F4, F3 by (by apply Pt)|]. split; [|split; [|split; [|split]]].
  - eapply rep_reparent; [exact Hrl|done| |].
    + intros _. pose proof (ptr_in l Hl) as Hp. rewrite F4 by (by apply Pt, Zl). rewrite P3 by done. by rewrite F2' by (by apply Zl).
    + intros z Hz Hz'. rewrite F4 by (by apply Pt, Zl). rewrite F3 by auto. by apply F2'; apply Zl.
  - eapply rep_reparent; [exact Hrr|done| |].
    + intros Hr0. rewrite P4 by done. by rewrite F3r by (by apply ptr_in).
    + intros z Hz Hz'. rewrite F4 by auto. by apply F3r.
  - eapply repk_agree; [exact Hk2|by rewrite R4, R3|]. intros z Hz. rewrite F4, F3 by (by apply Pt, Zk). done.
  - apply list.NoDup_cons. split; [intros [Hz|[Hz|Hz]%elem_of_app]%elem_of_app; done|done].
  - by apply list.Forall_cons.
Qed.

(** *** The repair after a removal *)

Definition erase_body (rec : rb_root -> Z -> Z -> option (rb_root * Z)) (d : side) (t : rb_root) (p : fio_rb_node) (parent : Z) : option (rb_root * Z) :=
  let oth := child (other d) p in
  let* o := load t oth in
  let* '(t, oth) :=
    if rb_is_red o then
      let* t := rb_set_black t oth in let* t := rb_set_red t parent in let* t := rotate d t parent in
      let* p := load t parent in Some (t, child (other d) p)
    else Some (t, oth) in
  let* o := load t oth in
  let* near := none_or_black t (child d o) in
  let* far := none_or_black t (child (other d) o) in
  if (near : bool) && (far : bool) then
    let* t := rb_set_red t oth in let* p := load t parent in rec t parent (rb_parent p)
  else
    let* '(t, oth) :=
      if far then
        let* t := if c_true (child d o) then rb_set_black t (child d o) else Some t in
        let* t := rb_set_red t oth in let* t := rotate (other d) t oth in
        let* p := load t parent in Some (t, child (other d) p)
      else Some (t, oth) in
    let* p := load t parent in
    let* t := rb_set_color t oth (rb_color p) in
    let* t := rb_set_black t parent in
    let* o := load t oth in
    let* t := if c_true (child (other d) o) then rb_set_black t (child (other d) o) else Some t in
    let* t := rotate d t parent in
    Some (t, rb_node t).

Lemma erase_loop_eq fuel t node parent p : none_or_black t node = Some true -> node <> rb_node t -> load t parent = Some p ->
  rb_erase_loop (S fuel) t node parent = erase_body (rb_erase_loop fuel) (if rb_left p =? node then L else R) t p parent.
Proof.
  intros Hb Hn Hp. cbn [rb_erase_loop]. rewrite Hb. cbn [mbind option_bind]. destruct (Z.eqb_spec node (rb_node t)); [done|]. cbn [negb andb]. rewrite Hp. cbn [mbind option_bind].
  destruct (rb_left p =? node); [done|]. unfold erase_body. cbn [other child]. destruct (load t (rb_left p)) as [o|]; [|done]. cbn [mbind option_bind]. cbn [rotate].
  destruct (if rb_is_red o then _ else _) as [[t1 oth]|]; [|done]. cbn [mbind option_bind]. destruct (load t1 oth) as [o1|]; [|done]. cbn [mbind option_bind].
  destruct (none_or_black t1 (rb_left o1)) as [[|]|], (none_or_black t1 (rb_right o1)) as [[|]|]; done.
Qed.

Lemma erase_loop_stop fuel t node parent b : none_or_black t node = Some b -> b = false \/ node = rb_node t -> rb_erase_loop fuel t node parent = Some (t, node).
Proof.
  intros Hb H. destruct fuel; cbn [rb_erase_loop]; rewrite Hb; cbn [mbind option_bind]; (destruct H as [->| ->]; [done|]); by rewrite Z.eqb_refl, andb_false_r.
Qed.

Lemma none_or_black_spec s t k : holds s t k -> none_or_black s (ptr t) = Some (match root_color t with Red => false | Black => true end).
Proof.
  intros H. destruct t as [|c l x r]; [done|]. pose proof (top_aligned _ _ _ H). apply (holds_load s L c l x r k) in H as [Hx [Hv _]]. unfold none_or_black. cbn [ptr].
  destruct (Z.eqb_spec x 0); [lia|]. rewrite Hx. cbn [mbind option_bind root_color]. rewrite cell_is_black by done. by destruct c.
Qed.

Definition blacken (t : tree) : tree := match t with E => E | T _ l x r => T Black l x r end.

(** At each turn the tree in focus has one black node too few on its ways down. *)
Record erasing (s : rb_root) (t : tree) (k : list frame) : Prop := mk_erasing {
  er_holds : holds s t k;
  er_red : red_ok t;
  er_bal : exists n, balanced n t /\ balanced_k (S n) k;
  er_ctx : red_ok_k Black k;
  er_top : black_top k }.

(** At the end all is right when the tree in focus becomes black. *)
Record repaired (s : rb_root) (t : tree) (k : list frame) : Prop := mk_repaired {
  re_holds : holds s t k;
  re_red : red_ok (blacken t);
  re_bal : exists n, balanced n (blacken t) /\ balanced_k n k;
  re_ctx : red_ok_k Black k;
  re_top : black_top k }.

Lemma blacken_node_on d c a x b : blacken (node_on d c a x b) = node_on d Black a x b.
Proof. by destruct d. Qed.

Lemma balanced_S_not_E n t : balanced (S n) t -> t <> E.
Proof. by intros H ->. Qed.

Lemma red_ok_k_black c k : red_ok_k c k -> red_ok_k Black k.
Proof. destruct k as [|f k]; [done|]. cbn. tauto. Qed.

(** A red sibling: a rotation gives a black one. *)
Lemma erase_red_sibling s t d c p w k : erasing s t (mk_frame d c p w :: k) -> root_color w = Red ->
  exists s' y a b, (let* s := rb_set_black s (ptr w) in let* s := rb_set_red s p in rotate d s p) = Some s' /\
    erasing s' t (mk_frame d Red p a :: mk_frame d Black y b :: k) /\ root_color a = Black /\
    inorder (plug t (mk_frame d Red p a :: mk_frame d Black y b :: k)) = inorder (plug t (mk_frame d c p w :: k)).
Proof.
  intros [Hh Hr (n & Hb & Hbw & Hbk) Hk Ht] Hw. cbn [f_color f_tree red_ok_k black_top] in *. destruct Hk as (Hc & Hrw & Hk), Ht as [Hct Ht].
  assert (c = Black) as -> by (destruct c; [|done]; by destruct (Hc eq_refl); rewrite Hw in *). pose proof (balanced_S_not_E _ _ Hbw) as Hw0.
  destruct (as_node_on d w Hw0) as (cw & a & y & b & ->). rewrite root_color_node_on in Hw. subst cw. rewrite ptr_node_on.
  apply red_ok_node_on in Hrw as (Hab & Hra & Hrb). destruct (Hab eq_refl) as [Hca Hcb]. apply balanced_node_on in Hbw as (m & Em & Hba & Hbb). cbn in Em. subst m.
  apply holds_up, holds_down in Hh. apply set_black_spec in Hh as (s1 & E1 & Hh). apply holds_down in Hh. apply set_red_spec in Hh as (s2 & E2 & Hh).
  apply rotate_spec in Hh as (s3 & E3 & Hh). exists s3, y, a, b. rewrite E1. cbn [mbind option_bind]. rewrite E2. cbn [mbind option_bind]. split; [done|].
  apply into_near, into_near in Hh. split; [|split; [done|cbn [plug f_side f_color f_addr f_tree]; apply inorder_plug; symmetry; apply inorder_rotate]].
  split; try done; cbn [f_color f_tree red_ok_k black_top]; first [by exists n|tauto].
Qed.

(** A black sibling with black children becomes red. *)
Lemma erase_black_nephews s t d c p a y b k : erasing s t (mk_frame d c p (node_on d Black a y b) :: k) -> root_color t = Black -> root_color a = Black -> root_color b = Black ->
  exists s', rb_set_red s y = Some s' /\ match c with
    | Black => erasing s' (node_on d c t p (node_on d Red a y b)) k
    | Red => repaired s' (node_on d c t p (node_on d Red a y b)) k
    end /\ inorder (plug (node_on d c t p (node_on d Red a y b)) k) = inorder (plug t (mk_frame d c p (node_on d Black a y b) :: k)).
Proof.
  intros [Hh Hr (n & Hb & Hbw & Hbk) Hk Ht] Hct Hca Hcb. cbn [f_color f_tree red_ok_k black_top] in *. destruct Hk as (Hc & (_ & Hra & Hrb)%red_ok_node_on & Hk), Ht as [Hct' Ht].
  apply balanced_node_on in Hbw as (m & [= <-] & Hba & Hbb). apply holds_up, holds_down in Hh. apply set_red_spec in Hh as (s1 & E1 & Hh). apply holds_down in Hh.
  exists s1. split; [done|]. split; [|cbn [plug f_side f_color f_addr f_tree]; apply inorder_plug, inorder_hole; [done|by apply inorder_hole]].
  assert (red_ok (node_on d Red a y b)) as Hrw by (by apply red_ok_node_on). assert (balanced n (node_on d Red a y b)) as Hbw by (apply balanced_node_on; by exists n).
  destruct c; split; try done.
  - rewrite blacken_node_on. by apply red_ok_node_on.
  - exists (S n). split; [|done]. rewrite blacken_node_on. apply balanced_node_on. by exists n.
  - by eapply red_ok_k_black.
  - by apply red_ok_node_on.
  - exists (S n). split; [|done]. apply balanced_node_on. by exists n.
Qed.

(** Only the near child of the sibling is red: it takes the place of the sibling. *)
Lemma erase_near_red s t d c p a y b k : erasing s t (mk_frame d c p (node_on d Black a y b) :: k) -> root_color a = Red -> root_color b = Black ->
  exists s' a1 x b1, (let* s := rb_set_black s (ptr a) in let* s := rb_set_red s y in rotate (other d) s y) = Some s' /\
    erasing s' t (mk_frame d c p (node_on d Black a1 x b1) :: k) /\ root_color b1 = Red /\
    inorder (plug t (mk_frame d c p (node_on d Black a1 x b1) :: k)) = inorder (plug t (mk_frame d c p (node_on d Black a y b) :: k)).
Proof.
  intros [Hh Hr (n & Hb & Hbw & Hbk) Hk Ht] Hca Hcb. cbn [f_color f_tree red_ok_k black_top] in *. destruct Hk as (Hc & (_ & Hra & Hrb)%red_ok_node_on & Hk).
  apply balanced_node_on in Hbw as (m & [= <-] & Hba & Hbb). assert (a <> E) as Ha0 by (by destruct a). destruct (as_node_on d a Ha0) as (ca & a1 & x & a2 & ->).
  rewrite root_color_node_on in Hca. subst ca. rewrite ptr_node_on. apply red_ok_node_on in Hra as (Ha12 & Hr1 & Hr2). destruct (Ha12 eq_refl) as [Hc1 Hc2].
  apply balanced_node_on in Hba as (m & Em & Hb1 & Hb2). cbn in Em. subst m.
  apply holds_up, into_far, into_near in Hh. apply set_black_spec in Hh as (s1 & E1 & Hh). apply holds_up in Hh. apply set_red_spec in Hh as (s2 & E2 & Hh).
  rewrite <- node_on_other, <- (node_on_other d _ a1) in Hh. apply rotate_spec in Hh as (s3 & E3 & Hh). rewrite !node_on_other in Hh.
  apply holds_down, holds_up in Hh.
  exists s3, a1, x, (node_on d Red a2 y b). rewrite E1. cbn [mbind option_bind]. rewrite E2. cbn [mbind option_bind]. split; [done|].
  assert (red_ok (node_on d Red a2 y b)) as Hrw by (by apply red_ok_node_on). assert (balanced n (node_on d Red a2 y b)) as Hbw by (apply balanced_node_on; by exists n).
  split; [|split; [apply root_color_node_on|cbn [plug f_side f_color f_addr f_tree]; apply inorder_plug, inorder_hole; [done|apply inorder_rotate]]].
  split; try done; cbn [f_color f_tree red_ok_k black_top].
  - exists n. split; [done|]. split; [apply balanced_node_on; by exists n|done].
  - split; [|split; [by apply red_ok_node_on|done]]. intros Hcr. by rewrite root_color_node_on.
Qed.

(** The far child of the sibling is red: one rotation ends the repair. *)
Lemma erase_far_red s t d c p a y b k : erasing s t (mk_frame d c p (node_on d Black a y b) :: k) -> root_color b = Red ->
  exists s' u, (let* s := rb_set_color s y (color_bit c) in let* s := rb_set_black s p in let* s := rb_set_black s (ptr b) in rotate d s p) = Some s' /\
    ptr u = rb_node s' /\ repaired s' u [] /\ inorder u = inorder (plug t (mk_frame d c p (node_on d Black a y b) :: k)).
Proof.
  intros [Hh Hr (n & Hb & Hbw & Hbk) Hk Ht] Hcb. cbn [f_color f_tree red_ok_k black_top] in *. destruct Hk as (Hc & (_ & Hra & Hrb)%red_ok_node_on & Hk), Ht as [Hct Ht].
  apply balanced_node_on in Hbw as (m & [= <-] & Hba & Hbb). destruct b as [|cb bl bx br]; [done|]. cbn in Hcb. subst cb. cbn [ptr].
  apply holds_up, holds_down in Hh. apply (set_color_spec _ _ _ _ _ _ _ c) in Hh as (s1 & E1 & Hh). apply holds_down in Hh. apply set_black_spec in Hh as (s2 & E2 & Hh).
  apply into_far, into_far in Hh. apply (set_black_spec s2 L Red bl bx br) in Hh as (s3 & E3 & Hh). apply holds_down, holds_down in Hh. apply rotate_spec in Hh as (s4 & E4 & Hh).
  set (u := node_on d c (node_on d Black t p a) y (node_on L Black bl bx br)) in *. exists s4, (plug u k). rewrite E1. cbn [mbind option_bind]. rewrite E2. cbn [mbind option_bind]. rewrite E3. cbn [mbind option_bind].
  split; [done|]. apply (proj1 (holds_plug s4 u k)) in Hh. split; [by destruct Hh as [_ Hh _ _]|].
  split; [|cbn [plug f_side f_color f_addr f_tree]; apply inorder_plug; unfold u; rewrite <- (inorder_rotate d c Black c Black); apply inorder_hole; [done|by apply inorder_hole]].
  assert (red_ok (plug u k)) as Hru.
  { destruct Hrb as (_ & Hrl & Hrr). apply red_ok_plug; [|unfold u; rewrite root_color_node_on; by destruct c]. unfold u. apply red_ok_node_on. rewrite root_color_node_on.
    split; [done|]. split; [by apply red_ok_node_on|done]. }
  assert (exists m, balanced m (plug u k)) as [m Hm].
  { destruct Hbb as (m & Em & Hbl & Hbr). cbn in Em. subst m. apply (balanced_plug (bump c (S n))); [|done]. unfold u. apply balanced_node_on. exists (S n). split; [done|].
    split; [apply balanced_node_on; by exists n|by exists n]. }
  assert (root_color (plug u k) = Black) as Hcu.
  { apply root_plug; [done|]. destruct k; [left; unfold u; rewrite root_color_node_on; auto|by right]. }
  assert (blacken (plug u k) = plug u k) as Ebl by (destruct (plug u k) as [|cu ? ? ?]; [done|]; cbn in Hcu; by subst cu). split; rewrite ?Ebl; try done. by exists m.
Qed.

(** What is left of a turn when the sibling is black. *)
Definition erase_rest (rec : rb_root -> Z -> Z -> option (rb_root * Z)) (d : side) (t : rb_root) (oth parent : Z) : option (rb_root * Z) :=
  let* o := load t oth in
  let* near := none_or_black t (child d o) in
  let* far := none_or_black t (child (other d) o) in
  if (near : bool) && (far : bool) then
    let* t := rb_set_red t oth in let* p := load t parent in rec t parent (rb_parent p)
  else
    let* '(t, oth) :=
      if far then
        let* t := if c_true (child d o) then rb_set_black t (child d o) else Some t in
        let* t := rb_set_red t oth in let* t := rotate (other d) t oth in
        let* p := load t parent in Some (t, child (other d) p)
      else Some (t, oth) in
    let* p := load t parent in
    let* t := rb_set_color t oth (rb_color p) in
    let* t := rb_set_black t parent in
    let* o := load t oth in
    let* t := if c_true (child (other d) o) then rb_set_black t (child (other d) o) else Some t in
    let* t := rotate d t parent in
    Some (t, rb_node t).

Definition loop_ok (fuel : nat) (s : rb_root) (t : tree) (k : list frame) : Prop :=
  exists s' u j, rb_erase_loop fuel s (ptr t) (top k) = Some (s', ptr u) /\ repaired s' u j /\ inorder (plug u j) = inorder (plug t k).

Lemma repaired_stop fuel s t k : repaired s t k -> root_color t = Red -> loop_ok fuel s t k.
Proof.
  intros Hr Hc. exists s, t, k. split; [|done]. pose proof (none_or_black_spec _ _ _ (re_holds _ _ _ Hr)) as Hb. rewrite Hc in Hb.
  apply (erase_loop_stop _ _ _ _ _ Hb). by left.
Qed.

(** The last rotation. *)
Lemma erase_end s t d c p a y b k : erasing s t (mk_frame d c p (node_on d Black a y b) :: k) -> root_color b = Red ->
  exists s' u, (let* p1 := load s p in let* s := rb_set_color s y (rb_color p1) in let* s := rb_set_black s p in let* o := load s y in
      let* s := if c_true (child (other d) o) then rb_set_black s (child (other d) o) else Some s in let* s := rotate d s p in Some (s, rb_node s)) = Some (s', ptr u) /\
    repaired s' u [] /\ inorder u = inorder (plug t (mk_frame d c p (node_on d Black a y b) :: k)).
Proof.
  intros He Hb. destruct (erase_far_red _ _ _ _ _ _ _ _ _ He Hb) as (s' & u & E & Hu & Hre & Hin). exists s', u. split; [|done].
  pose proof (er_holds _ _ _ He) as Hh. pose proof (holds_load_frame _ _ _ _ Hh) as (Hp & _ & Hpa). cbn [f_addr f_side f_color f_tree] in *. rewrite Hp. cbn [mbind option_bind]. rewrite cell_color by done.
  apply holds_up, holds_down in Hh. apply (set_color_spec _ _ _ _ _ _ _ c) in Hh as (s1 & E1 & Hh). apply holds_down in Hh. apply set_black_spec in Hh as (s2 & E2 & Hh). apply into_far in Hh.
  rewrite E1 in E |- *. cbn [mbind option_bind] in E |- *. rewrite E2 in E |- *. cbn [mbind option_bind] in E |- *. pose proof (holds_load _ _ _ _ _ _ _ Hh) as [Hy _]. rewrite Hy. cbn [mbind option_bind].
  rewrite cell_child_other. apply into_far in Hh. rewrite (ptr_null _ _ _ Hh). destruct b as [|cb bl bx br]; [done|].
  destruct (rb_set_black s2 _) as [s3|]; [|done]. cbn [mbind option_bind] in E |- *. rewrite E. cbn [mbind option_bind]. by rewrite Hu.
Qed.

Lemma erase_rest_spec fuel s t d c p a y b k : erasing s t (mk_frame d c p (node_on d Black a y b) :: k) -> root_color t = Black ->
  (c = Black -> forall s' w, erasing s' w k -> loop_ok fuel s' w k) ->
  exists s' u j, erase_rest (rb_erase_loop fuel) d s y p = Some (s', ptr u) /\ repaired s' u j /\ inorder (plug u j) = inorder (plug t (mk_frame d c p (node_on d Black a y b) :: k)).
Proof.
  intros He Hct IH. pose proof (er_holds _ _ _ He) as Hh. apply holds_up, holds_down in Hh. pose proof (holds_load _ _ _ _ _ _ _ Hh) as [Hy _].
  pose proof (none_or_black_spec _ _ _ (into_near _ _ _ _ _ _ _ Hh)) as Hna. pose proof (none_or_black_spec _ _ _ (into_far _ _ _ _ _ _ _ Hh)) as Hfb.
  unfold erase_rest. rewrite Hy. cbn [mbind option_bind]. rewrite cell_child, cell_child_other, Hna. cbn [mbind option_bind]. rewrite Hfb. cbn [mbind option_bind].
  destruct (root_color b) eqn:Hcb; [rewrite andb_false_r|].
  - destruct (erase_end _ _ _ _ _ _ _ _ _ He Hcb) as (s' & u & E & Hre & Hin). exists s', u, []. cbn [mbind option_bind]. done.
  - destruct (root_color a) eqn:Hca; cbn [andb].
    + destruct (erase_near_red _ _ _ _ _ _ _ _ _ He Hca Hcb) as (s1 & a1 & x & b1 & E1 & He1 & Hb1 & Hin1).
      rewrite (ptr_null _ _ _ (into_near _ _ _ _ _ _ _ Hh)). destruct a as [|ca al ax ar]; [done|]. cbn [ptr] in *.
      destruct (rb_set_black s ax) as [s2|]; [|done]. cbn [mbind option_bind] in E1 |- *. destruct (rb_set_red s2 y) as [s3|]; [|done]. cbn [mbind option_bind] in E1 |- *. rewrite E1. cbn [mbind option_bind].
      pose proof (holds_load_frame _ _ _ _ (er_holds _ _ _ He1)) as (Hp1 & _ & _). cbn [f_addr f_side f_color f_tree] in Hp1. rewrite Hp1. cbn [mbind option_bind]. rewrite cell_child_other, ptr_node_on.
      destruct (erase_end _ _ _ _ _ _ _ _ _ He1 Hb1) as (s' & u & E & Hre & Hin). exists s', u, []. split; [exact E|]. split; [done|]. cbn [plug]. by rewrite Hin, Hin1.
    + destruct (erase_black_nephews _ _ _ _ _ _ _ _ _ He Hct Hca Hcb) as (s1 & E1 & He1 & Hin1). rewrite E1. cbn [mbind option_bind].
      assert (holds s1 (node_on d c t p (node_on d Red a y b)) k) as Hh1 by (destruct c; [apply re_holds|apply er_holds]; done).
      pose proof (holds_load _ _ _ _ _ _ _ Hh1) as [Hp _]. rewrite Hp. cbn [mbind option_bind]. rewrite cell_parent by (by eapply top_aligned).
      assert (loop_ok fuel s1 (node_on d c t p (node_on d Red a y b)) k) as (s' & u & j & E & Hre & Hin).
      { destruct c; [apply repaired_stop; [done|apply root_color_node_on]|by apply IH]. }
      rewrite ptr_node_on in E. exists s', u, j. split; [done|]. split; [done|]. by rewrite Hin, Hin1.
Qed.

Lemma root_in_context s k hole : repk s k hole -> k <> [] -> rb_node s ∈ addrs_k k.
Proof.
  revert hole. induction k as [|f k IH]; intros hole; [done|]. rewrite addrs_k_cons. intros (_ & _ & Hk) _. destruct k as [|f' k]; [cbn in Hk; rewrite Hk; by left|].
  right. apply elem_of_app. right. by apply (IH (f_addr f)).
Qed.

Lemma root_away s t f k : holds s t (f :: k) -> ptr t <> rb_node s.
Proof.
  intros Hh. pose proof (root_in_context _ _ _ (hd_ctx _ _ _ Hh) ltac:(done)) as Hr. destruct (away _ _ _ _ Hh Hr) as [H| ->]; [done|]. cbn.
  pose proof (hd_valid _ _ _ Hh) as Hv. apply Forall_app in Hv as [_ Hv]. eapply Forall_forall in Hv; [|apply list_elem_of_In; exact Hr]. destruct Hv. lia.
Qed.

Lemma erase_side s t d c p w k pc : holds s t (mk_frame d c p w :: k) -> w <> E -> (if rb_left (cell_on d pc (ptr t) (ptr w)) =? ptr t then L else R) = d.
Proof.
  intros Hh Hw. destruct d; cbn; [by rewrite Z.eqb_refl|]. destruct (decide (t = E)) as [->|Ht]; [|rewrite Z.eqb_sym; by rewrite (side_test _ _ _ _ _ _ _ Hh)].
  pose proof (ptr_null _ _ _ (into_far _ _ _ _ _ _ _ (proj2 (holds_up _ _ _ _ _ _ _) Hh))) as Hn. cbn. destruct w; [done|]. by apply negb_true_iff in Hn as ->.
Qed.

Lemma erase_loop_spec fuel s t k : erasing s t k -> (length k <= fuel)%nat -> loop_ok fuel s t k.
Proof.
  revert s t k. induction fuel as [|fuel IH]; intros s t k He Hf; pose proof (er_holds _ _ _ He) as Hh; pose proof (none_or_black_spec _ _ _ Hh) as Hnb;
    (destruct (root_color t) eqn:Hct; [apply repaired_stop; [|done]; destruct He as [_ Hr (n & Hb & Hbk) Hk Ht]; destruct t as [|ct l x r]; [done|]; cbn in Hct; subst ct;
      cbn in Hr; split; try done; [cbn; tauto|]; exists (S n); split; [|done]; destruct Hb as (m & -> & ? & ?); by exists m|]);
    destruct k as [|[d c p w] k];
    try (exists s, t, []; split; [apply (erase_loop_stop _ _ _ _ _ Hnb); right; by destruct Hh as [_ -> _ _]|]; split; [|done]; destruct He as [_ Hr (n & Hb & Hbk) Hk Ht];
      assert (blacken t = t) as Eb by (destruct t as [|ct ? ? ?]; [done|]; cbn in Hct; by subst ct); split; rewrite ?Eb; try done; by exists n); [cbn in Hf; lia|].
  assert (w <> E) as Hw0 by (destruct He as [_ _ (n & _ & Hbw & _) _ _]; by eapply balanced_S_not_E).
  pose proof (holds_load_frame _ _ _ _ Hh) as (Hp & _ & Hpa). cbn [f_addr f_side f_color f_tree top] in *. unfold loop_ok. cbn [top f_addr].
  rewrite (erase_loop_eq fuel s (ptr t) p _ Hnb (root_away _ _ _ _ Hh) Hp), (erase_side _ _ _ _ _ _ _ _ Hh Hw0).
  destruct (as_node_on d w Hw0) as (cw & a & y & b & Ew). pose proof Hh as Hhw. apply holds_up, holds_down in Hhw. rewrite Ew in Hhw. pose proof (holds_load _ _ _ _ _ _ _ Hhw) as [Hy _].
  pose proof (top_aligned _ _ _ Hhw) as Hya. unfold erase_body. rewrite cell_child_other, Ew, ptr_node_on, Hy. cbn [mbind option_bind]. unfold rb_is_red at 1. rewrite cell_is_black by done.
  destruct cw; cbn [negb].
  - destruct (erase_red_sibling _ _ _ _ _ _ _ He) as (s1 & y1 & a1 & b1 & E1 & He1 & Ha1 & Hin1); [by rewrite Ew, root_color_node_on|]. rewrite Ew, ptr_node_on in E1.
    destruct (rb_set_black s y) as [s2|]; [|done]. cbn [mbind option_bind] in E1 |- *. destruct (rb_set_red s2 p) as [s3|]; [|done]. cbn [mbind option_bind] in E1 |- *. rewrite E1. cbn [mbind option_bind].
    pose proof (holds_load_frame _ _ _ _ (er_holds _ _ _ He1)) as (Hp1 & _ & _). cbn [f_addr f_side f_color f_tree] in Hp1. rewrite Hp1. cbn [mbind option_bind]. rewrite cell_child_other.
    assert (a1 <> E) as Ha0 by (destruct He1 as [_ _ (n & _ & Hba & _) _ _]; by eapply balanced_S_not_E). destruct (as_node_on d a1 Ha0) as (ca & a2 & y2 & b2 & Ea). rewrite Ea in *. rewrite root_color_node_on in Ha1. subst ca. rewrite ptr_node_on.
    destruct (erase_rest_spec fuel _ _ _ _ _ _ _ _ _ He1 Hct ltac:(done)) as (s' & u & j & E & Hre & Hin). exists s', u, j. split; [exact E|]. split; [done|]. by rewrite Hin, Hin1, ?Ew.
  - cbn [mbind option_bind]. rewrite Ew in He. destruct (erase_rest_spec fuel _ _ _ _ _ _ _ _ _ He Hct) as (s' & u & j & E & Hre & Hin).
    + intros _ s1 w1 Hw1. apply IH; [done|cbn in Hf; lia].
    + exists s', u, j. split; [exact E|]. split; [done|]. by rewrite Hin, ?Ew.
Qed.

Lemma erase_color_spec s t k : erasing s t k ->
  exists s' u, __rb_erase_color s (ptr t) (top k) = Some s' /\ holds s' u [] /\ red_black u /\ inorder u = inorder (plug t k).
Proof.
  intros He. assert (length k <= size (nodes s))%nat as Hf by (pose proof (holds_size _ _ _ (er_holds _ _ _ He)); lia).
  destruct (erase_loop_spec _ _ _ _ He Hf) as (s1 & u & j & E & [Hh Hr (n & Hb & Hbk) Hk Ht] & Hin). unfold __rb_erase_color. rewrite E. cbn [mbind option_bind].
  assert (root_color (blacken u) = Black) as Hcu by (by destruct u).
  assert (exists s2, (if c_true (ptr u) then rb_set_black s1 (ptr u) else Some s1) = Some s2 /\ holds s2 (blacken u) j) as (s2 & E2 & H2).
  { rewrite (ptr_null _ _ _ Hh). destruct u as [|c l x r]; [by exists s1|]. by apply (set_black_spec s1 L c l x r). }
  exists s2, (plug (blacken u) j). split; [exact E2|]. split; [by apply (proj1 (holds_plug s2 (blacken u) j))|]. split.
  - split; [apply red_ok_plug; [done|by rewrite Hcu]|by eapply balanced_plug|apply root_plug; auto].
  - rewrite <- Hin. apply inorder_plug. by destruct u.
Qed.

(** A node with at most one child that can be taken out of a red-black tree. *)
Record removable (c : color) (b : tree) (k : list frame) : Prop := mk_removable {
  rm_red : red_ok b /\ red_ok_k c k /\ (c = Red -> root_color b = Black);
  rm_bal : exists n, balanced n b /\ balanced_k (bump c n) k;
  rm_top : black_top k }.

Lemma removable_node d c x b k : red_black (plug (node_on d c E x b) k) -> removable c b k.
Proof.
  intros [Hr (n & Hb) Hc]. apply unplug_red_ok in Hr as [(Hcb & _ & Hr)%red_ok_node_on Hk]. rewrite root_color_node_on in Hk. apply unplug_root in Hc.
  apply unplug_balanced in Hb as (m & (m' & -> & _ & Hb)%balanced_node_on & Hbk). split; [|by exists m'|done]. split_and!; try done. intros H. by destruct (Hcb H).
Qed.

Lemma erase_finish s c b k : holds s b k -> removable c b k ->
  exists s' u, (if color_bit c =? RB_BLACK then __rb_erase_color s (ptr b) (top k) else Some s) = Some s' /\ holds s' u [] /\ red_black u /\ inorder u = inorder (plug b k).
Proof.
  intros Hh [(Hr & Hk & Hcb) (n & Hb & Hbk) Ht]. destruct c; cbn [color_bit].
  - exists s, (plug b k). split; [done|]. split; [by apply (proj1 (holds_plug s b k))|]. split; [|done]. specialize (Hcb eq_refl).
    split; [apply red_ok_plug; [done|rewrite Hcb; by eapply red_ok_k_black]|by eapply balanced_plug|apply root_plug; auto].
  - apply erase_color_spec. split; try done. by exists n.
Qed.

(** The addresses of a context have no part in it. *)
Lemma removable_rename c b j d c' o o' w k : removable c b (j ++ mk_frame d c' o w :: k) -> removable c b (j ++ mk_frame d c' o' w :: k).
Proof.
  assert (forall c, red_ok_k c (j ++ mk_frame d c' o w :: k) -> red_ok_k c (j ++ mk_frame d c' o' w :: k)) as H1.
  { induction j as [|f j IH]; intros c1; cbn [app red_ok_k f_color f_tree]; [done|]. intros (? & ? & ?). auto. }
  assert (forall n, balanced_k n (j ++ mk_frame d c' o w :: k) -> balanced_k n (j ++ mk_frame d c' o' w :: k)) as H2.
  { clear. induction j as [|f j IH]; intros n; cbn [app balanced_k f_color f_tree]; [done|]. intros (? & ?). auto. }
  assert (black_top (j ++ mk_frame d c' o w :: k) -> black_top (j ++ mk_frame d c' o' w :: k)) as H3.
  { clear. induction j as [|f j IH]; cbn [app black_top f_color]; [done|]. intros [H ?]. split; [|auto]. intros [_ ?]%app_eq_nil. done. }
  intros [(Hr & Hk & Hcb) (n & Hb & Hbk) Ht]. split; auto. exists n. auto.
Qed.

Lemma relink_L s parent x y :
  (if c_true parent then let* p := load s parent in if rb_left p =? x then set_left s parent y else set_right s parent y else Some (set_root s y)) = relink L s parent x y.
Proof. unfold relink. destruct (c_true parent); [|done]. destruct (load s parent); [|done]. cbn [mbind option_bind child]. by rewrite Z.eqb_sym. Qed.

Lemma rb_erase_one s d c x b k : holds s (node_on d c E x b) k -> red_black (plug (node_on d c E x b) k) ->
  exists s' u, rb_erase s x = Some s' /\ holds s' u [] /\ red_black u /\ inorder u = inorder (plug b k).
Proof.
  intros Hh Hrb. pose proof (holds_load _ _ _ _ _ _ _ Hh) as [Hx _]. pose proof (top_aligned _ _ _ Hh) as Hq. destruct (splice_spec _ _ _ _ _ _ Hh) as (s1 & E1 & H1 & _ & Hrel).
  destruct (erase_finish _ _ _ _ H1 (removable_node _ _ _ _ _ Hrb)) as (s2 & u & E2 & H2). exists s2, u. split; [|done].
  unfold rb_erase. rewrite Hx. cbn [mbind option_bind]. set (n := cell_on _ _ _ _).
  assert (c_true (rb_left n) && c_true (rb_right n) = false) as -> by (destruct d; cbn; [done|apply andb_false_r]).
  assert ((if c_true (rb_left n) then rb_left n else rb_right n) = ptr b) as ->.
  { destruct d; cbn; [done|]. destruct (c_true (ptr b)) eqn:Ec; [done|]. by apply c_true_false_iff in Ec. }
  unfold n. rewrite cell_parent, cell_color by done. destruct (if c_true (ptr b) then _ else _) as [s3|]; [|done]. cbn [mbind option_bind] in E1 |- *.
  cbv zeta. rewrite relink_L, (Hrel s3 eq_refl L), E1. cbn [mbind option_bind]. exact E2.
Qed.

Lemma inorder_plug_perm t k : inorder (plug t k) ≡ₚ inorder t ++ addrs_k k.
Proof.
  revert t. induction k as [|[d c x b] k IH]; intros t; cbn [plug]; [cbn; by rewrite app_nil_r|]. rewrite IH, inorder_node_on, addrs_k_cons. cbn [f_addr f_tree f_side f_color]. solve_Permutation.
Qed.

Lemma addrs_k_app j k : addrs_k (j ++ k) = addrs_k j ++ addrs_k k.
Proof. unfold addrs_k. by rewrite map_app, concat_app. Qed.

Lemma inorder_ctx k : exists pre post, forall t, inorder (plug t k) = pre ++ inorder t ++ post.
Proof.
  induction k as [|[d c x b] k (pre & post & IH)]; [exists [], []; intros t; cbn; by rewrite app_nil_r|]. destruct d.
  - exists pre, (x :: inorder b ++ post). intros t. cbn [plug f_side f_color f_addr f_tree]. rewrite IH. cbn. by rewrite <- app_assoc.
  - exists (pre ++ inorder b ++ [x]), post. intros t. cbn [plug f_side f_color f_addr f_tree]. rewrite IH. cbn. by rewrite <- !app_assoc.
Qed.

Lemma inorder_left_path c y b j : left_path j -> inorder (plug (T c E y b) j) = y :: inorder (plug b j).
Proof.
  intros Hj. enough (forall t1 t2, inorder t1 = y :: inorder t2 -> inorder (plug t1 j) = y :: inorder (plug t2 j)) as H by (by apply H).
  induction Hj as [|[d cf x w] j Hd Hj IH]; intros t1 t2 Ht; cbn [plug]; [done|]. apply IH. cbn in Hd. subst d. cbn. by rewrite Ht.
Qed.

(** Unlinking the successor [y] of [o]. *)
Lemma successor_unlink s c l o k cy y b j : left_path j -> holds s (T cy E y b) (j ++ mk_frame R c o l :: k) ->
  let parent := top (j ++ mk_frame R c o l :: k) in
  exists s1, (let* t := if c_true (ptr b) then rb_set_parent s (ptr b) parent else Some s in
      if parent =? o then let* t := set_right t parent (ptr b) in Some (t, y) else let* t := set_left t parent (ptr b) in Some (t, parent))
      = Some (s1, top (j ++ mk_frame R c y l :: k)) /\ holds s1 b (j ++ mk_frame R c o l :: k) /\ load s1 y = load s y.
Proof.
  intros Hj Hh parent. apply (splice_spec s L) in Hh as Hs. destruct Hs as (s1 & E1 & H1 & Hy & _). exists s1. split; [|done]. fold parent in E1.
  destruct (if c_true (ptr b) then _ else _) as [s2|]; [|done]. cbn [mbind option_bind] in E1 |- *. destruct j as [|[d cz z w] j]; cbn [app] in *.
  - subst parent. cbn [top f_addr link_of f_side set_link] in E1 |- *. rewrite Z.eqb_refl, E1. done.
  - apply list.Forall_cons in Hj as [Hd Hj]. cbn in Hd. subst d parent. cbn [top f_addr link_of f_side set_link] in E1 |- *. rewrite E1. cbn [mbind option_bind].
    destruct (Z.eqb_spec z o) as [->|]; [|done]. exfalso. pose proof (hd_distinct _ _ _ H1) as Hd. apply list.NoDup_app in Hd as (_ & _ & Hd).
    rewrite addrs_k_cons, addrs_k_app, addrs_k_cons in Hd. cbn [f_addr f_tree] in Hd. apply list.NoDup_cons in Hd as [Hd _]. apply Hd. set_solver.
Qed.

Lemma rb_erase_two s c l o r k : holds s (T c l o r) k -> l <> E -> r <> E -> red_black (plug (T c l o r) k) ->
  exists s' u, rb_erase s o = Some s' /\ holds s' u [] /\ red_black u /\ exists v, inorder v = inorder l ++ inorder r /\ inorder u = inorder (plug v k).
Proof.
  intros Hh Hl Hr Hrb. pose proof (holds_load s L c l o r k Hh) as [Ho _]. pose proof (into_far s L c l o r k Hh) as Hhr. pose proof (ptr_null _ _ _ Hhr) as Er. pose proof (ptr_null _ _ _ (into_near s L c l o r k Hh)) as El.
  assert (c_true (ptr l) = true /\ c_true (ptr r) = true) as [Cl Cr] by (by destruct l, r).
  destruct (leftmost_spec s r _ (size (nodes s)) Hhr Hr) as (j & cy & y & b & Epl & Hj & Elm); [pose proof (holds_size _ _ _ Hhr); lia|].
  rewrite Epl in Hhr. apply holds_app in Hhr as Hy. cbn [other] in Hy. pose proof (holds_load s L cy E y b _ Hy) as [Ly Vy]. pose proof (top_aligned _ _ _ Hy) as Ha.
  destruct (successor_unlink _ _ _ _ _ _ _ _ _ Hj Hy) as (s1 & E1 & H1 & L1). cbv zeta in E1.
  pose proof (proj1 (holds_node s L cy E y b _) Hy) as (_ & _ & _ & _ & Hd & _). apply list.NoDup_cons in Hd as [Hyn _]. cbn [inorder app] in Hyn.
  apply holds_app in H1. apply (proj2 (holds_down s1 L c l o (plug b j) k)) in H1. cbn [node_on] in H1. pose proof (holds_load s1 L c l o (plug b j) k H1) as [Lo _]. pose proof (top_aligned _ _ _ H1) as Hak.
  destruct (replace_spec s1 c l o (plug b j) k y _ H1 Hl (eq_trans L1 Ly) Vy) as (s2 & E2 & H2).
  { intros Hin. apply Hyn. rewrite inorder_plug_perm in Hin. rewrite addrs_k_app, addrs_k_cons. cbn [f_addr f_tree]. set_solver. }
  apply (holds_down s2 L c l y (plug b j) k), holds_app in H2. cbn [other] in H2.
  assert (removable cy b (j ++ mk_frame R c o l :: k)) as Hrm by (apply (removable_node L cy y); cbn [node_on]; rewrite plug_app, <- Epl; done).
  destruct (erase_finish _ _ _ _ H2 (removable_rename _ _ _ _ _ _ y _ _ Hrm)) as (s3 & u & E3 & H3 & Hu & Hin). exists s3, u. split; [|split; [done|split; [done|]]].
  - unfold rb_erase. rewrite Ho. cbn [mbind option_bind cell_on rb_left rb_right]. rewrite Cl, Cr. cbn [andb]. rewrite Elm. cbn [mbind option_bind]. rewrite Ly. cbn [mbind option_bind]. cbv zeta.
    rewrite cell_parent, cell_color by done. cbn [cell_on rb_right]. destruct (if c_true (ptr b) then _ else _) as [s4|]; [|done]. cbn [mbind option_bind] in E1 |- *. rewrite E1. cbn [mbind option_bind].
    rewrite Lo. cbn [mbind option_bind]. rewrite cell_parent by done. cbn [cell_on rb_parent_color rb_right rb_left] in E2 |- *.
    destruct (store s1 y _) as [s5|]; [|done]. cbn [mbind option_bind] in E2 |- *. rewrite relink_L. destruct (relink L s5 _ _ _) as [s6|]; [|done]. cbn [mbind option_bind] in E2 |- *.
    destruct (rb_set_parent s6 _ _) as [s7|]; [|done]. cbn [mbind option_bind] in E2 |- *. rewrite E2. cbn [mbind option_bind]. exact E3.
  - exists (T c l y (plug b j)). split; [cbn; by rewrite Epl, (inorder_left_path cy)|]. by rewrite Hin, plug_app.
Qed.

Lemma rb_erase_spec s c l x r k : holds s (T c l x r) k -> red_black (plug (T c l x r) k) ->
  exists s' u pre post, rb_erase s x = Some s' /\ holds s' u [] /\ red_black u /\ inorder (plug (T c l x r) k) = pre ++ x :: post /\ inorder u = pre ++ post.
Proof.
  intros Hh Hrb. destruct (inorder_ctx k) as (pre & post & Hctx).
  assert (exists s' u v, rb_erase s x = Some s' /\ holds s' u [] /\ red_black u /\ inorder v = inorder l ++ inorder r /\ inorder u = inorder (plug v k)) as (s' & u & v & E & H1 & H2 & Hv & Hu).
  { destruct (decide (l = E)) as [->|Hl]; [|destruct (decide (r = E)) as [->|Hr]].
    - destruct (rb_erase_one s L c x r k Hh Hrb) as (s' & u & ? & ? & ? & ?). by exists s', u, r.
    - destruct (rb_erase_one s R c x l k Hh Hrb) as (s' & u & ? & ? & ? & ?). exists s', u, l. by rewrite app_nil_r.
    - destruct (rb_erase_two s c l x r k Hh Hl Hr Hrb) as (s' & u & ? & ? & ? & v & ? & ?). by exists s', u, v. }
  exists s', u, (pre ++ inorder l), (inorder r ++ post). split_and!; try done.
  - rewrite Hctx. cbn. by rewrite <- !app_assoc.
  - rewrite Hu, Hctx, Hv. by rewrite <- !app_assoc.
Qed.

(** ** Walking *)

Lemma leftmost_head s t k fuel : holds s t k -> t <> E -> (length (inorder t) <= S fuel)%nat -> leftmost fuel s (ptr t) = head (inorder t).
Proof.
  intros Hh Ht Hf. destruct (leftmost_spec s t k fuel Hh Ht Hf) as (j & c & y & b & -> & Hj & ->). by rewrite inorder_left_path.
Qed.

Lemma rb_first_spec s t : holds s t [] -> rb_first s = Some (default 0 (head (inorder t))).
Proof.
  intros Hh. unfold rb_first. assert (rb_node s = ptr t) as -> by (by destruct Hh as [_ ? _ _]). rewrite (ptr_null _ _ _ Hh). pose proof (holds_size _ _ _ Hh). destruct t as [|c l x r]; [done|].
  rewrite (leftmost_head _ _ _ _ Hh); [|done|lia]. destruct (inorder (T c l x r)) eqn:Ei; [|done]. cbn in Ei. by destruct (inorder l).
Qed.

(** What comes after the hole of a context. *)
Fixpoint after (k : list frame) : list Z :=
  match k with [] => [] | f :: k => match f_side f with L => f_addr f :: inorder (f_tree f) ++ after k | R => after k end end.

Lemma inorder_after k : exists pre, forall t, inorder (plug t k) = pre ++ inorder t ++ after k.
Proof.
  induction k as [|[[|] c x b] k (pre & IH)]; [exists []; intros t; cbn; by rewrite app_nil_r| |].
  - exists pre. intros t. cbn [plug f_side f_color f_addr f_tree after]. rewrite IH. cbn. by rewrite <- app_assoc.
  - exists (pre ++ inorder b ++ [x]). intros t. cbn [plug f_side f_color f_addr f_tree after]. rewrite IH. cbn. by rewrite <- !app_assoc.
Qed.

Lemma up_right_spec fuel s t k : holds s t k -> t <> E -> (length k <= fuel)%nat -> up_right fuel s (ptr t) = Some (default 0 (head (after k))).
Proof.
  revert t k. induction fuel as [|fuel IH]; intros t k Hh Ht Hf; destruct (as_node_on L t Ht) as (c & l & x & r & ->); rewrite ptr_node_on;
    pose proof (holds_load _ _ _ _ _ _ _ Hh) as [Hx _]; pose proof (top_aligned _ _ _ Hh) as Ha; cbn [up_right]; rewrite Hx; cbn [mbind option_bind]; rewrite cell_parent by done;
    (destruct k as [|f k]; [done|]); [cbn in Hf; lia|].
  pose proof (holds_load_frame _ _ _ _ Hh) as (Hp & [Hp0 _] & _). destruct f as [d cp p b]. cbn [top f_addr f_side f_color f_tree after] in *. destruct (Z.eqb_spec p 0); [lia|].
  rewrite Hp. cbn [mbind option_bind]. rewrite ptr_node_on. pose proof (side_test _ _ _ _ _ _ _ Hh Ht) as Hs. rewrite ptr_node_on in Hs. destruct d; cbn [cell_on rb_right].
  - by rewrite Hs.
  - rewrite Z.eqb_refl. apply (proj2 (holds_up _ _ _ _ _ _ _)) in Hh. rewrite <- (IH _ _ Hh); [by rewrite ptr_node_on|done|cbn in Hf; lia].
Qed.

Lemma rb_next_spec s c l x r k : holds s (T c l x r) k -> rb_next s x = Some (default 0 (head (inorder r ++ after k))).
Proof.
  intros Hh. pose proof (holds_load s L c l x r k Hh) as [Hx [Hx0 _]]. pose proof (top_aligned _ _ _ Hh) as Ha. pose proof (holds_size _ _ _ Hh) as Hsz. unfold rb_next. rewrite Hx. cbn [mbind option_bind].
  assert (RB_EMPTY_NODE (cell_on L (top k + color_bit c) (ptr l) (ptr r)) x = false) as ->.
  { unfold RB_EMPTY_NODE. rewrite cell_parent by done. apply Z.eqb_neq. intros Ht. destruct k as [|f k]; [cbn in Ht; lia|].
    destruct (away _ _ _ _ Hh (top_in (f :: k) ltac:(done))) as [H|H]; [by apply H|done]. }
  cbn [cell_on rb_right]. pose proof (into_far s L c l x r k Hh) as Hr. rewrite (ptr_null _ _ _ Hr). destruct r as [|cr rl rx rr].
  - cbn [inorder app ptr c_true]. by rewrite <- (up_right_spec (size (nodes s)) s _ k Hh) by (done || lia).
  - rewrite (leftmost_head _ _ _ _ Hr); [|done|pose proof (holds_size _ _ _ Hr); lia]. destruct (inorder (T cr rl rx rr)) eqn:Ei; [|done]. cbn in Ei. by destruct (inorder rl).
Qed.

(** ** Height *)

Fixpoint height (t : tree) : nat := match t with E => 0 | T _ l _ r => S (max (height l) (height r)) end.

Lemma balanced_height n t : balanced n t -> red_ok t -> (height t <= 2 * n + match root_color t with Red => 1 | Black => 0 end)%nat.
Proof.
  revert n. induction t as [|c l IHl x r IHr]; intros n; [by intros -> _|]. intros (m & -> & Hl & Hr) (Hc & Rl & Rr).
  pose proof (IHl _ Hl Rl). pose proof (IHr _ Hr Rr). cbn [height root_color]. destruct c; cbn [bump].
  - destruct (Hc eq_refl) as [E1 E2]. rewrite E1 in *. rewrite E2 in *. lia.
  - destruct (root_color l), (root_color r); lia.
Qed.

Lemma balanced_size n t : balanced n t -> (2 ^ n <= S (length (inorder t)))%nat.
Proof.
  revert n. induction t as [|c l IHl x r IHr]; intros n; [by intros ->|]. intros (m & -> & Hl & Hr). cbn [inorder]. rewrite length_app. cbn [length].
  pose proof (IHl _ Hl). pose proof (IHr _ Hr). destruct c; cbn [bump Nat.pow]; lia.
Qed.

Lemma red_black_height t : red_black t -> (height t <= 2 * Nat.log2 (S (length (inorder t))))%nat.
Proof.
  intros [Hr (n & Hb) Hc]. pose proof (balanced_height _ _ Hb Hr) as Hh. rewrite Hc in Hh. pose proof (balanced_size _ _ Hb) as Hs.
  assert (n <= Nat.log2 (S (length (inorder t))))%nat; [|lia]. rewrite <- (Nat.log2_pow2 n) by lia. by apply Nat.log2_le_mono.
Qed.
(** ** No operation makes or frees memory *)

Definition cells (s : rb_root) : gset Z := dom (nodes s).

Lemma store_cells s x f s' : store s x f = Some s' -> cells s' = cells s.
Proof.
  unfold store, load. destruct (nodes s !! x) as [n|] eqn:E; [|done]. intros [= <-]. unfold cells. cbn. rewrite dom_insert_L.
  apply elem_of_dom_2 in E. apply subseteq_union_1_L, singleton_subseteq_l, E.
Qed.

(** Case analysis on a computation that gave a result. *)
Ltac cells_tac :=
  repeat match goal with
  | H : Some _ = Some _ |- _ => injection H as H; subst
  | H : None = Some _ |- _ => discriminate H
  | H : store _ _ _ = Some _ |- _ => apply store_cells in H
  | H : (_ ≫= _) = Some _ |- _ => let o := fresh "o" in let E := fresh "E" in apply bind_Some in H as (o & E & H)
  | H : (let '(_, _) := ?p in _) = Some _ |- _ => destruct p
  | H : (if ?b then _ else _) = Some _ |- _ => destruct b
  end.

Lemma rotate_cells d s x s' : rotate d s x = Some s' -> cells s' = cells s.
Proof.
  destruct d; cbn; unfold __rb_rotate_left, __rb_rotate_right, set_right, set_left, rb_set_parent, set_root; intros H; cells_tac; unfold cells in *; cbn in *; congruence.
Qed.

Ltac cells_calc := unfold set_right, set_left, rb_set_parent, rb_set_black, rb_set_red, rb_set_color, set_root in *; cells_tac; unfold cells in *; cbn in *; congruence.

Lemma insert_loop_cells fuel s x s' : rb_insert_loop fuel s x = Some s' -> cells s' = cells s.
Proof.
  revert s x. induction fuel as [|fuel IH]; intros s x H; cbn [rb_insert_loop] in H; [cells_calc|].
  assert (forall t y t', __rb_rotate_left t y = Some t' -> cells t' = cells t) as HL by apply (rotate_cells L).
  assert (forall t y t', __rb_rotate_right t y = Some t' -> cells t' = cells t) as HR by apply (rotate_cells R).
  unfold rb_set_black, rb_set_red in H. cells_tac;
    repeat match goal with
    | E : rb_insert_loop fuel _ _ = Some _ |- _ => apply IH in E
    | E : __rb_rotate_left _ _ = Some _ |- _ => apply HL in E
    | E : __rb_rotate_right _ _ = Some _ |- _ => apply HR in E
    end; congruence.
Qed.

Lemma rb_insert_color_cells s x s' : rb_insert_color s x = Some s' -> cells s' = cells s.
Proof. unfold rb_insert_color, rb_set_black. intros H. cells_tac. apply insert_loop_cells in E. congruence. Qed.

Lemma rb_link_node_cells s x p l s' : rb_link_node s x p l = Some s' -> cells s' = cells s.
Proof. unfold rb_link_node, set_link. intros H. destruct l; cells_calc. Qed.

Lemma erase_loop_cells fuel s x p s' x' : rb_erase_loop fuel s x p = Some (s', x') -> cells s' = cells s.
Proof.
  revert s x p. induction fuel as [|fuel IH]; intros s x p H; cbn [rb_erase_loop] in H; [cells_calc|].
  assert (forall t y t', __rb_rotate_left t y = Some t' -> cells t' = cells t) as HL by apply (rotate_cells L).
  assert (forall t y t', __rb_rotate_right t y = Some t' -> cells t' = cells t) as HR by apply (rotate_cells R).
  unfold rb_set_black, rb_set_red, rb_set_color in H. cells_tac;
    repeat match goal with
    | E : rb_erase_loop fuel _ _ _ = Some _ |- _ => apply IH in E
    | E : __rb_rotate_left _ _ = Some _ |- _ => apply HL in E
    | E : __rb_rotate_right _ _ = Some _ |- _ => apply HR in E
    end; congruence.
Qed.

Lemma erase_color_cells s x p s' : __rb_erase_color s x p = Some s' -> cells s' = cells s.
Proof. unfold __rb_erase_color, rb_set_black. intros H. cells_tac; apply erase_loop_cells in E; congruence. Qed.

Lemma rb_erase_cells s x s' : rb_erase s x = Some s' -> cells s' = cells s.
Proof.
  unfold rb_erase, set_right, set_left, rb_set_parent, set_root. intros H. cells_tac;
    repeat match goal with E : __rb_erase_color _ _ _ = Some _ |- _ => apply erase_color_cells in E end; unfold cells in *; cbn in *; congruence.
Qed.

(** * The tree as its user sees it *)

(** The memory holds a red-black tree of the nodes [xs], in this order. *)
Definition is_rb (s : rb_root) (xs : list Z) : Prop := exists t, holds s t [] /\ red_black t /\ inorder t = xs.

(** [link], below [parent], is the empty place between [pre] and [post]. *)
Definition gap (s : rb_root) (pre post : list Z) (parent : Z) (link : rb_link) : Prop :=
  exists k, holds s E k /\ red_black (plug E k) /\ parent = top k /\ link = link_of k /\ forall t, inorder (plug t k) = pre ++ inorder t ++ post.

Lemma split_unique (x : Z) pre post pre' post' : NoDup (pre ++ x :: post) -> pre ++ x :: post = pre' ++ x :: post' -> pre = pre' /\ post = post'.
Proof.
  revert pre'. induction pre as [|y pre IH]; intros [|y' pre'] Hd He; cbn in *; [by injection He as ->|injection He as E1 E2..].
  - subst y' post. apply list.NoDup_cons in Hd as [Hd _]. destruct Hd. set_solver.
  - subst y post'. apply list.NoDup_cons in Hd as [Hd _]. destruct Hd. set_solver.
  - subst y'. apply list.NoDup_cons in Hd as [_ Hd]. destruct (IH _ Hd E2) as [-> ->]. done.
Qed.

Lemma focus_on t x : x ∈ inorder t -> exists c l r k, t = plug (T c l x r) k.
Proof.
  induction t as [|c l IHl y r IHr]; cbn; [by intros ?%elem_of_nil|]. intros [Hx|[->|Hx]%elem_of_cons]%elem_of_app.
  - destruct (IHl Hx) as (c' & l' & r' & k & ->). exists c', l', r', (k ++ [mk_frame L c y r]). by rewrite plug_app.
  - by exists c, l, r, [].
  - destruct (IHr Hx) as (c' & l' & r' & k & ->). exists c', l', r', (k ++ [mk_frame R c y l]). by rewrite plug_app.
Qed.

Lemma holds_inorder s t : holds s t [] -> NoDup (inorder t) /\ Forall valid (inorder t).
Proof. intros [_ _ H1 H2]. cbn in *. by rewrite app_nil_r in *. Qed.

Lemma is_rb_distinct s xs : is_rb s xs -> NoDup xs /\ Forall valid xs.
Proof. intros (t & Hh & _ & <-). by apply (holds_inorder s). Qed.

Lemma is_rb_first s xs : is_rb s xs -> rb_first s = Some (default 0 (head xs)).
Proof. intros (t & Hh & _ & <-). by apply rb_first_spec. Qed.

Lemma is_rb_at s pre x post : is_rb s (pre ++ x :: post) -> exists c l r k, holds s (T c l x r) k /\ red_black (plug (T c l x r) k) /\ inorder (plug (T c l x r) k) = pre ++ x :: post.
Proof.
  intros (t & Hh & Hr & Ht). destruct (focus_on t x) as (c & l & r & k & ->); [rewrite Ht; set_solver|]. exists c, l, r, k. split; [|done]. by apply holds_plug.
Qed.

Lemma is_rb_next s pre x post : is_rb s (pre ++ x :: post) -> rb_next s x = Some (default 0 (head post)).
Proof.
  intros Hs. pose proof (is_rb_distinct _ _ Hs) as [Hd _]. destruct (is_rb_at _ _ _ _ Hs) as (c & l & r & k & Hh & _ & Ht). rewrite (rb_next_spec _ _ _ _ _ _ Hh).
  destruct (inorder_after k) as (before & Hk). rewrite Hk in Ht. cbn [inorder] in Ht.
  rewrite <- !app_assoc, <- app_comm_cons, app_assoc in Ht. symmetry in Ht. by apply split_unique in Ht as [_ ->].
Qed.

Lemma is_rb_erase s pre x post : is_rb s (pre ++ x :: post) -> exists s', rb_erase s x = Some s' /\ is_rb s' (pre ++ post).
Proof.
  intros Hs. pose proof (is_rb_distinct _ _ Hs) as [Hd _]. destruct (is_rb_at _ _ _ _ Hs) as (c & l & r & k & Hh & Hr & Ht).
  destruct (rb_erase_spec _ _ _ _ _ _ Hh Hr) as (s' & u & pre' & post' & E1 & Hu & Hru & Hi & Hiu). rewrite Ht in Hi. apply split_unique in Hi as [-> ->]; [|done].
  exists s'. split; [done|]. by exists u.
Qed.

Lemma is_rb_insert s pre post parent link x n : gap s pre post parent link -> load s x = Some n -> valid x -> x ∉ pre ++ post ->
  exists s1 s2, rb_link_node s x parent link = Some s1 /\ rb_insert_color s1 x = Some s2 /\ is_rb s2 (pre ++ x :: post).
Proof.
  intros (k & Hh & Hr & -> & -> & Hk) Hx Hv Hn. destruct (rb_link_spec s k x n Hh Hx) as (s1 & E1 & H1); [|done|].
  { pose proof (inorder_plug_perm E k) as Hp. cbn in Hp. rewrite <- Hp, Hk. done. }
  destruct (rb_insert_color_spec _ _ _ H1 Hr) as (s2 & t & E2 & H2 & Hr2 & Hi). exists s1, s2. split; [done|]. split; [done|]. exists t. split; [done|]. split; [done|]. by rewrite Hi, Hk.
Qed.

(** Every place of the order has its gap. *)
Lemma gap_exists s pre post : is_rb s (pre ++ post) -> exists parent link, gap s pre post parent link.
Proof.
  intros (t & Hh & Hr & Ht). assert (exists k, t = plug E k /\ forall u, inorder (plug u k) = pre ++ inorder u ++ post) as (k & -> & Hk).
  { clear Hh Hr. revert pre post Ht. induction t as [|c l IHl x r IHr]; intros pre post Ht; cbn in Ht.
    - destruct pre, post; try done. exists []. split; [done|]. intros u. cbn. by rewrite app_nil_r.
    - assert (exists mid, (pre = inorder l ++ x :: mid /\ inorder r = mid ++ post) \/ (inorder l = pre ++ mid /\ post = mid ++ x :: inorder r)) as (mid & [[-> Hr']|[Hl' ->]]).
      { clear -Ht. revert pre Ht. induction (inorder l) as [|y ys IH]; intros pre Ht; cbn in *.
        - destruct pre as [|z pre]; [exists []; right; split; [done|by cbn in *]|]. cbn in Ht. injection Ht as -> ->. exists pre. by left.
        - destruct pre as [|z pre]; [exists (y :: ys); right; by cbn in *|]. cbn in Ht. injection Ht as -> Ht. destruct (IH _ Ht) as (mid & [[-> ?]|[-> ?]]); exists mid; [by left|by right]. }
      + destruct (IHr _ _ Hr') as (k & -> & Hk). exists (k ++ [mk_frame R c x l]). split; [by rewrite plug_app|]. intros u. rewrite plug_app. cbn. rewrite Hk, <- app_assoc. done.
      + destruct (IHl _ _ Hl') as (k & -> & Hk). exists (k ++ [mk_frame L c x r]). split; [by rewrite plug_app|]. intros u. rewrite plug_app. cbn. rewrite Hk, <- !app_assoc. done. }
  exists (top k), (link_of k), k. split; [by apply holds_plug|done].
Qed.

(** C40: lib/rbtree.c keeps red-black trees.  In a tree of the nodes [xs]: [rb_first] and
    [rb_next] walk [xs] in order; [rb_erase] takes out just its node; [rb_link_node] at a
    place between two nodes (there is one wherever wanted) and [rb_insert_color] put a new
    node just there; all end without a null pointer being followed, and leave a tree with no
    red node below a red one, equal numbers of black nodes on all ways down, right links to
    children and parents, and so of a height of at most twice the logarithm of its size. *)
Theorem rbtree_operations s xs : is_rb s xs ->
  (exists t, holds s t [] /\ red_black t /\ inorder t = xs /\ (height t <= 2 * Nat.log2 (S (length xs)))%nat) /\
  rb_first s = Some (default 0 (head xs)) /\
  (forall pre x post, xs = pre ++ x :: post -> rb_next s x = Some (default 0 (head post)) /\ exists s', rb_erase s x = Some s' /\ is_rb s' (pre ++ post)) /\
  (forall pre post, xs = pre ++ post -> (exists parent link, gap s pre post parent link) /\
    forall parent link x n, gap s pre post parent link -> load s x = Some n -> valid x -> x ∉ xs ->
      exists s1 s2, rb_link_node s x parent link = Some s1 /\ rb_insert_color s1 x = Some s2 /\ is_rb s2 (pre ++ x :: post)).
Proof.
  intros Hs. split_and!.
  - pose proof Hs as (t & Hh & Hr & <-). exists t. split_and!; try done. by apply red_black_height.
  - by apply is_rb_first.
  - intros pre x post ->. split; [by eapply is_rb_next|by apply is_rb_erase].
  - intros pre post ->. split; [by apply gap_exists|]. intros parent link x n Hg Hx Hv Hn. by eapply is_rb_insert.
Qed.

(** ** A tree in memory *)

Definition three : rb_root :=
  mk_root (<[8 := mk_node 16 0 0]> (<[16 := mk_node 1 24 8]> (<[24 := mk_node 16 0 0]> (<[32 := mk_node 0 0 0]> ∅)))) 16.

Lemma three_is_rb : is_rb three [8; 16; 24].
Proof.
  exists (T Black (T Red E 8 E) 16 (T Red E 24 E)). split; [|split; [|done]].
  - split; [by vm_compute|done|by apply (bool_decide_unpack _); vm_compute|]. repeat constructor.
  - split; [done|exists 1%nat|done]. exists 0%nat. split; [done|]. split; exists 0%nat; done.
Qed.

Lemma rbtree_operations_witness : (exists s, rb_erase three 16 = Some s /\ is_rb s [8; 24]) /\
  exists s1 s2 parent link, rb_link_node three 32 parent link = Some s1 /\ rb_insert_color s1 32 = Some s2 /\ is_rb s2 [8; 16; 32; 24].
Proof.
  destruct (rbtree_operations three [8; 16; 24] three_is_rb) as (_ & _ & Hat & Hgap). split.
  - by apply (Hat [8] 16 [24]).
  - destruct (Hgap [8; 16] [24] eq_refl) as ((parent & link & Hg) & Hins). destruct (Hins parent link 32 (mk_node 0 0 0) Hg) as (s1 & s2 & H); [done|done| |by exists s1, s2, parent, link].
    by apply (bool_decide_unpack _); vm_compute.
Defined.
