(* ===== verification/IoHist.v ===== *)
(** iolog.c, verify.c, trim.c: the history of writes - a red-black tree of pieces sorted by
    file and offset when offsets may repeat, a list otherwise - from which verification
    reads back. *)
From stdpp Require Import gmap sorting.
From S2P Require Import Prelude RbTree RbOps.
#[local] Set Warnings "-clear-no-such-hyp".
Local Open Scope word_scope.

(** * Data

    A piece and its [rb_node] have one address.  The lists hold addresses; the links of
    [io_hist_list] share the memory of the [rb_node] that such a piece does not use. *)

Definition IP_F_ONRB : Z := 1.
Definition IP_F_ONLIST : Z := 2.
Definition IP_F_TRIMMED : Z := 4.
Definition IP_F_IN_FLIGHT : Z := 8.

Record io_piece : Type := mk_ipo { ip_file : Z; ip_offset : Z; ip_len : Z; ip_numberio : Z; ip_flags : Z }.

Record thread_data : Type := mk_td {
  io_hist_tree : rb_root; pieces : gmap Z io_piece; io_hist_list : list Z; io_hist_len : Z; trim_list : list Z; trim_entries : Z; block_infos : list Z }.

Record io_u : Type := mk_io_u {
  u_file : Z; u_offset : Z; u_verify_offset : Z; u_buflen : Z; u_xfer_buflen : Z; u_numberio : Z; u_ver_list : bool; u_trimmed : bool; u_resid : Z; u_ipo : Z }.

Definition set_tree (td : thread_data) (t : rb_root) : thread_data := mk_td t (pieces td) (io_hist_list td) (io_hist_len td) (trim_list td) (trim_entries td) (block_infos td).
Definition set_pieces (td : thread_data) (m : gmap Z io_piece) : thread_data := mk_td (io_hist_tree td) m (io_hist_list td) (io_hist_len td) (trim_list td) (trim_entries td) (block_infos td).
Definition set_list (td : thread_data) (l : list Z) (n : Z) : thread_data := mk_td (io_hist_tree td) (pieces td) l n (trim_list td) (trim_entries td) (block_infos td).
Definition set_trim (td : thread_data) (l : list Z) (n : Z) : thread_data := mk_td (io_hist_tree td) (pieces td) (io_hist_list td) (io_hist_len td) l n (block_infos td).
Definition set_infos (td : thread_data) (b : list Z) : thread_data :=
  mk_td (io_hist_tree td) (pieces td) (io_hist_list td) (io_hist_len td) (trim_list td) (trim_entries td) b.
Definition set_len (td : thread_data) (n : Z) : thread_data := set_list td (io_hist_list td) n.
Definition set_ipo (u : io_u) (x : Z) : io_u :=
  mk_io_u (u_file u) (u_offset u) (u_verify_offset u) (u_buflen u) (u_xfer_buflen u) (u_numberio u) (u_ver_list u) (u_trimmed u) (u_resid u) x.

Definition piece (td : thread_data) (x : Z) : option io_piece := pieces td !! x.
Definition has (f : Z) (p : io_piece) : bool := c_true (ip_flags p & f).
Definition with_flags (p : io_piece) (f : Z) : io_piece := mk_ipo (ip_file p) (ip_offset p) (ip_len p) (ip_numberio p) f.
Definition set_piece (td : thread_data) (x : Z) (p : io_piece) : thread_data := set_pieces td (<[x := p]> (pieces td)).

(** * Operations *)

(** [calloc] and [free]; [x] is the address that [calloc] returns. *)
Definition new_piece (td : thread_data) (x : Z) (p : io_piece) : thread_data :=
  set_piece (set_tree td (mk_root (<[x := mk_node 0 0 0]> (nodes (io_hist_tree td))) (rb_node (io_hist_tree td)))) x p.
Definition free_piece (td : thread_data) (x : Z) : thread_data :=
  set_pieces (set_tree td (mk_root (delete x (nodes (io_hist_tree td))) (rb_node (io_hist_tree td)))) (delete x (pieces td)).

Definition remove (x : Z) (l : list Z) : list Z := List.filter (fun y => negb (y =? x)) l.

Definition remove_trim_entry (td : thread_data) (x : Z) : thread_data :=
  if existsb (Z.eqb x) (trim_list td) then set_trim td (remove x (trim_list td)) (subw 64 (trim_entries td) 1) else td.

(** One comparison of the walk down the tree: the side to go on, and [overlap]. *)
Definition compare_piece (ipo __ipo : io_piece) : side * bool :=
  if ip_file ipo <? ip_file __ipo then (L, false)
  else if ip_file __ipo <? ip_file ipo then (R, false)
  else if ip_offset ipo <? ip_offset __ipo then (L, ip_offset __ipo <? addw 64 (ip_offset ipo) (ip_len ipo))
  else if ip_offset __ipo <? ip_offset ipo then (R, ip_offset ipo <? addw 64 (ip_offset __ipo) (ip_len __ipo))
  else (L, true).

Inductive place : Type := overlaps (old : Z) | free_place (parent : Z) (p : rb_link).

(** The walk, from the pointer [cur] at [p] below [parent]. *)
Fixpoint find_place (fuel : nat) (td : thread_data) (ipo : io_piece) (cur parent : Z) (p : rb_link) : option place :=
  if cur =? 0 then Some (free_place parent p) else
  match fuel with
  | O => None
  | S fuel =>
      let* n := load (io_hist_tree td) cur in
      let* __ipo := piece td cur in
      let '(d, overlap) := compare_piece ipo __ipo in
      if overlap then Some (overlaps cur)
      else match d with
        | L => find_place fuel td ipo (rb_left n) cur (link_left cur)
        | R => find_place fuel td ipo (rb_right n) cur (link_right cur)
        end
  end.

(** An overlapping piece leaves the tree. *)
Definition drop_overlap (td : thread_data) (old : Z) : option thread_data :=
  let td := set_len td (subw 64 (io_hist_len td) 1) in
  let* t := rb_erase (io_hist_tree td) old in
  let td := remove_trim_entry (set_tree td t) old in
  let* p := piece td old in
  Some (if has IP_F_IN_FLIGHT p then td else free_piece td old).

(** From [restart]; each restart follows the removal of a piece. *)
Fixpoint sort_piece (fuel : nat) (td : thread_data) (x : Z) (ipo : io_piece) : option thread_data :=
  let* pl := find_place (size (nodes (io_hist_tree td))) td ipo (rb_node (io_hist_tree td)) 0 link_root in
  match pl with
  | overlaps old => match fuel with O => None | S fuel => let* td := drop_overlap td old in sort_piece fuel td x ipo end
  | free_place parent p =>
      let* t := rb_link_node (io_hist_tree td) x parent p in
      let* t := rb_insert_color t x in
      let td := set_piece (set_tree td t) x (with_flags ipo (Z.lor (ip_flags ipo) IP_F_ONRB)) in
      Some (set_len td (addw 64 (io_hist_len td) 1))
  end.

(** [x] is what [calloc] returns, [should_trim] the answer of [io_u_should_trim] and
    [overlap_risk] that of [fio_offset_overlap_risk]. *)
Definition log_io_piece (td : thread_data) (u : io_u) (x : Z) (should_trim overlap_risk : bool) : option (thread_data * io_u) :=
  let ipo := mk_ipo (u_file u) (u_offset u) (u_buflen u) (u_numberio u) IP_F_IN_FLIGHT in
  let td := new_piece td x ipo in
  let u := set_ipo u x in
  let td := if should_trim then set_trim td (trim_list td ++ [x]) (addw 64 (trim_entries td) 1) else td in
  if negb overlap_risk then
    Some (set_piece (set_list td (io_hist_list td ++ [x]) (addw 64 (io_hist_len td) 1)) x (with_flags ipo (Z.lor (ip_flags ipo) IP_F_ONLIST)), u)
  else
    let* t := RB_CLEAR_NODE (io_hist_tree td) x in
    let* td := sort_piece (size (nodes t)) (set_tree td t) x ipo in
    Some (td, u).

Definition fio_offset_overlap_risk (norandommap softrandommap : bool) (ddir_seq_add ddir_seq_nr : Z) : bool :=
  norandommap || softrandommap || c_true ddir_seq_add || (1 <? ddir_seq_nr).

(** The state of a block of the file and how often it was trimmed, in one word. *)
Definition BLOCK_INFO_STATE_SHIFT : Z := 29.
Definition BLOCK_INFO_TRIMS (i : Z) : Z := i & (Z.shiftl 1 BLOCK_INFO_STATE_SHIFT - 1).
Definition BLOCK_INFO_STATE (i : Z) : Z := Z.shiftr i BLOCK_INFO_STATE_SHIFT.
Definition BLOCK_INFO (state trim_cycles : Z) : Z := Z.lor trim_cycles (wrap 32 (Z.shiftl state BLOCK_INFO_STATE_SHIFT)).
Definition BLOCK_INFO_SET_STATE (i state : Z) : Z := BLOCK_INFO state (BLOCK_INFO_TRIMS i).
Definition BLOCK_STATE_TRIMMED : Z := 1.
Definition BLOCK_STATE_TRIM_FAILURE : Z := 3.
Definition BLOCK_STATE_WRITE_FAILURE : Z := 4.

Inductive ddir : Type := DDIR_READ | DDIR_WRITE | DDIR_TRIM.

(** [file_offset] is where the file begins, [bs] the block size of trims; the answer is the
    index of the block and its word.  An index that is negative as an [int] fails the
    assertion too, as there are at most [MAX_NR_BLOCK_INFOS] = 8192 blocks. *)
Definition io_u_block_info (td : thread_data) (u : io_u) (file_offset bs : Z) : option (nat * Z) :=
  let* _ := c_assert (negb (bs =? 0)) in
  let idx := wrap 32 (subw 64 (u_offset u) file_offset / bs) in
  let* _ := c_assert (idx <? zlength (block_infos td)) in
  let* i := block_infos td !! Z.to_nat idx in
  Some (Z.to_nat idx, i).

Definition trim_block_info (td : thread_data) (u : io_u) (file_offset bs : Z) : option thread_data :=
  let* '(idx, info) := io_u_block_info td u file_offset bs in
  if BLOCK_STATE_TRIM_FAILURE <=? BLOCK_INFO_STATE info then Some td
  else Some (set_infos td (<[idx := BLOCK_INFO BLOCK_STATE_TRIMMED (BLOCK_INFO_TRIMS info + 1)]> (block_infos td))).

(** The mark of a block whose transfer failed. *)
Definition fail_block_info (td : thread_data) (u : io_u) (d : ddir) (file_offset bs : Z) : option thread_data :=
  if zlength (block_infos td) =? 0 then Some td else
  let* '(idx, info) := io_u_block_info td u file_offset bs in
  if BLOCK_INFO_STATE info <? BLOCK_STATE_TRIM_FAILURE then
    Some (match d with
          | DDIR_TRIM => set_infos td (<[idx := BLOCK_INFO_SET_STATE info BLOCK_STATE_TRIM_FAILURE]> (block_infos td))
          | DDIR_WRITE => set_infos td (<[idx := BLOCK_INFO_SET_STATE info BLOCK_STATE_WRITE_FAILURE]> (block_infos td))
          | DDIR_READ => td
          end)
  else Some td.

Definition unlog_io_piece (td : thread_data) (u : io_u) (d : ddir) (file_offset bs : Z) : option (thread_data * io_u) :=
  let x := u_ipo u in
  let* td := fail_block_info td u d file_offset bs in
  if x =? 0 then Some (td, u) else
  let* p := piece td x in
  let* td :=
    if has IP_F_ONRB p then let* t := rb_erase (io_hist_tree td) x in Some (set_tree td t)
    else Some (if has IP_F_ONLIST p then set_list td (remove x (io_hist_list td)) (io_hist_len td) else td) in
  let td := free_piece td x in
  Some (set_len td (subw 64 (io_hist_len td) 1), set_ipo u 0).

(** What [io_completed] does to the piece of a unit without an error. *)
Definition piece_completed (td : thread_data) (x : Z) : option thread_data :=
  let* p := piece td x in Some (set_piece td x (with_flags p (Z.ldiff (ip_flags p) IP_F_IN_FLIGHT))).

Definition trim_io_piece (td : thread_data) (u : io_u) : option thread_data :=
  let x := u_ipo u in
  if x =? 0 then Some td else
  let* p := piece td x in Some (set_piece td x (mk_ipo (ip_file p) (ip_offset p) (subw 64 (u_xfer_buflen u) (u_resid u)) (ip_numberio p) (ip_flags p))).

(** The piece that is next to be verified, if its write has completed, taken out of the
    history. *)
Definition next_piece (td : thread_data) : option (option Z * thread_data) :=
  if negb (rb_node (io_hist_tree td) =? 0) then
    let* x := rb_first (io_hist_tree td) in
    let* p := piece td x in
    if has IP_F_IN_FLIGHT p then Some (None, td) else
    let* t := rb_erase (io_hist_tree td) x in
    let* _ := c_assert (has IP_F_ONRB p) in
    Some (Some x, set_piece (set_tree td t) x (with_flags p (Z.ldiff (ip_flags p) IP_F_ONRB)))
  else
    match io_hist_list td with
    | [] => Some (None, td)
    | x :: l =>
        let* p := piece td x in
        if has IP_F_IN_FLIGHT p then Some (None, td) else
        let* _ := c_assert (has IP_F_ONLIST p) in
        Some (Some x, set_piece (set_list td l (io_hist_len td)) x (with_flags p (Z.ldiff (ip_flags p) IP_F_ONLIST)))
    end.

(** [opens] says whether the file is open or can be opened; the answer is 0 when there is a
    unit to verify. *)
Definition get_next_verify (td : thread_data) (u : io_u) (opens : Z -> bool) : option (Z * io_u * thread_data) :=
  if negb (u_file u =? 0) then Some (0, u, td) else
  let* '(next, td) := next_piece td in
  match next with
  | None => Some (1, u, td)
  | Some x =>
      let* p := piece td x in
      let td := set_len td (subw 64 (io_hist_len td) 1) in
      let u := mk_io_u (ip_file p) (ip_offset p) (ip_offset p) (ip_len p) (u_xfer_buflen u) (ip_numberio p) true (if has IP_F_TRIMMED p then true else u_trimmed u) (u_resid u) (u_ipo u) in
      if negb (opens (u_file u)) then Some (1, u, td) else
      let u := mk_io_u (u_file u) (u_offset u) (u_verify_offset u) (u_buflen u) (u_buflen u) (u_numberio u) (u_ver_list u) (u_trimmed u) (u_resid u) (u_ipo u) in
      Some (0, u, free_piece (remove_trim_entry td x) x)
  end.

Fixpoint prune_tree (fuel : nat) (td : thread_data) : option thread_data :=
  let* x := rb_first (io_hist_tree td) in
  if x =? 0 then Some td else
  match fuel with
  | O => None
  | S fuel =>
      let* t := rb_erase (io_hist_tree td) x in
      let td := remove_trim_entry (set_tree td t) x in
      prune_tree fuel (free_piece (set_len td (subw 64 (io_hist_len td) 1)) x)
  end.

Fixpoint prune_list (l : list Z) (td : thread_data) : thread_data :=
  match l with
  | [] => td
  | x :: l =>
      let td := remove_trim_entry (set_list td l (io_hist_len td)) x in
      prune_list l (free_piece (set_len td (subw 64 (io_hist_len td) 1)) x)
  end.

Definition prune_io_piece_log (td : thread_data) : option thread_data :=
  let* td := prune_tree (size (nodes (io_hist_tree td))) td in Some (prune_list (io_hist_list td) td).

(** The part of [get_next_trim] that takes the piece out of what is to be verified or marks it. *)
Definition trimmed_piece (td : thread_data) (x : Z) (p : io_piece) (trim_zero : bool) : option thread_data :=
  if negb trim_zero then
    let* td :=
      if has IP_F_ONLIST p then Some (set_list td (remove x (io_hist_list td)) (io_hist_len td))
      else let* _ := c_assert (has IP_F_ONRB p) in let* t := rb_erase (io_hist_tree td) x in Some (set_tree td t) in
    Some (free_piece (set_len td (subw 64 (io_hist_len td) 1)) x)
  else Some (set_piece td x (with_flags p (Z.lor (ip_flags p) IP_F_TRIMMED))).

(** [trim_zero] is the option; false when there is nothing to trim or the file does not
    open. *)
Definition get_next_trim (td : thread_data) (u : io_u) (trim_zero : bool) (opens : Z -> bool) : option (bool * io_u * thread_data) :=
  if negb (u_file u =? 0) then Some (true, u, td) else
  match trim_list td with
  | [] => Some (false, u, td)
  | x :: _ =>
      let* _ := c_assert (c_true (trim_entries td)) in
      let* p := piece td x in
      let td := remove_trim_entry td x in
      let u := mk_io_u (ip_file p) (ip_offset p) (u_verify_offset u) (ip_len p) (u_xfer_buflen u) (u_numberio u) (u_ver_list u) (u_trimmed u) (u_resid u) (u_ipo u) in
      let* td := trimmed_piece td x p trim_zero in
      if negb (opens (u_file u)) then Some (false, u, td) else
      Some (true, mk_io_u (u_file u) (u_offset u) (u_verify_offset u) (u_buflen u) (u_buflen u) (u_numberio u) (u_ver_list u) (u_trimmed u) (u_resid u) (u_ipo u), td)
  end.

(** * Proofs *)

(** ** Order of pieces *)

Definition before (p q : io_piece) : Prop :=
  ip_file p < ip_file q \/ ip_file p = ip_file q /\ ip_offset p < ip_offset q /\ ip_offset p + ip_len p <= ip_offset q.

#[global] Instance before_dec p q : Decision (before p q).
Proof. unfold before. apply _. Defined.

Definition fits (p : io_piece) : Prop := 0 <= ip_offset p /\ 0 <= ip_len p /\ ip_offset p + ip_len p < 2 ^ 64.

Lemma before_trans p q r : before p q -> before q r -> before p r.
Proof. unfold before. lia. Qed.

Lemma before_irrefl p q : before p q -> ~ before q p.
Proof. unfold before. lia. Qed.

Lemma compare_piece_spec p q : fits p -> fits q ->
  let '(d, overlap) := compare_piece p q in
  if (overlap : bool) then ~ before p q /\ ~ before q p else match d with L => before p q | R => before q p end.
Proof.
  intros (P1 & P2 & P3) (Q1 & Q2 & Q3). unfold compare_piece, before, addw. rewrite !(wrap_small 64) by (unfold is_word; lia).
  destruct (Z.ltb_spec (ip_file p) (ip_file q)); [lia|]. destruct (Z.ltb_spec (ip_file q) (ip_file p)); [lia|].
  destruct (Z.ltb_spec (ip_offset p) (ip_offset q)).
  - destruct (Z.ltb_spec (ip_offset q) (ip_offset p + ip_len p)); lia.
  - destruct (Z.ltb_spec (ip_offset q) (ip_offset p)); [|lia]. destruct (Z.ltb_spec (ip_offset p) (ip_offset q + ip_len q)); lia.
Qed.

(** ** The history *)

Definition no_piece : io_piece := mk_ipo 0 0 0 0 0.
Definition look (td : thread_data) (x : Z) : io_piece := default no_piece (piece td x).

(** The pieces [xs] of the tree are in order and do not overlap. *)
Record hist_ok (td : thread_data) (xs : list Z) : Prop := mk_hist_ok {
  ho_tree : is_rb (io_hist_tree td) xs;
  ho_sorted : StronglySorted (fun x y => before (look td x) (look td y)) xs;
  ho_piece : forall x, x ∈ xs -> exists p, piece td x = Some p /\ fits p /\ has IP_F_ONRB p = true /\ has IP_F_ONLIST p = false;
  ho_list : NoDup (io_hist_list td) /\ forall x, x ∈ io_hist_list td -> exists p, piece td x = Some p /\ fits p /\ has IP_F_ONRB p = false /\ has IP_F_ONLIST p = true;
  ho_len : io_hist_len td = zlength xs + zlength (io_hist_list td) /\ io_hist_len td < 2 ^ 64;
  ho_trim : NoDup (trim_list td) /\ (forall x, x ∈ trim_list td -> is_Some (piece td x)) /\ trim_entries td = zlength (trim_list td) /\ trim_entries td < 2 ^ 64 }.

(** *** The walk *)

Fixpoint prior (k : list frame) : list Z :=
  match k with [] => [] | f :: k => match f_side f with L => prior k | R => prior k ++ inorder (f_tree f) ++ [f_addr f] end end.

Lemma inorder_around t k : inorder (plug t k) = prior k ++ inorder t ++ after k.
Proof.
  revert t. induction k as [|[[|] c x b] k IH]; intros t; cbn [plug prior after f_side f_color f_addr f_tree]; [cbn; by rewrite app_nil_r| |]; rewrite IH; cbn; by rewrite <- !app_assoc.
Qed.

(** The hole of [k] is where [p] belongs. *)
Definition fits_at (td : thread_data) (p : io_piece) (k : list frame) : Prop :=
  (forall y, y ∈ prior k -> before (look td y) p) /\ forall y, y ∈ after k -> before p (look td y).

Lemma find_place_spec td p fuel t k : fits p -> holds (io_hist_tree td) t k -> (forall x, x ∈ inorder t -> exists q, piece td x = Some q /\ fits q) ->
  StronglySorted (fun x y => before (look td x) (look td y)) (inorder t) -> fits_at td p k -> (height t <= fuel)%nat ->
  (exists old, find_place fuel td p (ptr t) (top k) (link_of k) = Some (overlaps old) /\ old ∈ inorder t /\ ~ before p (look td old) /\ ~ before (look td old) p) \/
  (exists k', find_place fuel td p (ptr t) (top k) (link_of k) = Some (free_place (top k') (link_of k')) /\ plug E k' = plug t k /\ holds (io_hist_tree td) E k' /\ fits_at td p k').
Proof.
  intros Hp. revert t k. induction fuel as [|fuel IH]; intros t k Hh Hq Hs [Hb Ha] Hf.
  - destruct t; [|cbn in Hf; lia]. right. by exists k.
  - destruct t as [|c l x r]; [right; by exists k|]. pose proof (holds_load _ L c l x r k Hh) as [Hx [Hx0 _]]. destruct (Hq x) as (q & Eq & Fq); [cbn; set_solver|].
    cbn [find_place ptr]. destruct (Z.eqb_spec x 0); [lia|]. rewrite Hx. cbn [mbind option_bind]. rewrite Eq. cbn [mbind option_bind cell_on rb_left rb_right].
    assert (look td x = q) as Lx by (unfold look; by rewrite Eq). pose proof (compare_piece_spec p q Hp Fq) as Hc. cbn [inorder] in Hs.
    apply StronglySorted_app in Hs as (Hlr & Hsl & Hsr). apply StronglySorted_cons in Hsr as [Hxr Hsr]. rewrite Forall_forall in Hxr. cbn in Hf.
    destruct (compare_piece p q) as [d [|]]; [left; exists x; rewrite Lx; split; [done|]; split; [cbn; set_solver|tauto]|]. destruct d.
    + apply (into_near _ L c l x r k) in Hh. destruct (IH l (mk_frame L c x r :: k) Hh) as [(old & E1 & E2 & E3)|(k' & E1 & E2 & E3)]; try done.
      * intros y Hy. apply Hq. cbn. set_solver.
      * split; [done|]. cbn [after f_side f_addr f_tree]. intros y [->|[Hy|Hy]%elem_of_app]%elem_of_cons; [by rewrite Lx| |by apply Ha].
        apply (before_trans _ q); [done|]. rewrite <- Lx. apply Hxr. by apply list_elem_of_In.
      * lia.
      * left. exists old. split; [done|]. split; [cbn; set_solver|done].
      * right. exists k'. by split_and!; try apply E3.
    + apply (into_far _ L c l x r k) in Hh. destruct (IH r (mk_frame R c x l :: k) Hh) as [(old & E1 & E2 & E3)|(k' & E1 & E2 & E3)]; try done.
      * intros y Hy. apply Hq. cbn. set_solver.
      * split; [|done]. cbn [prior f_side f_addr f_tree]. intros y [Hy|[Hy|Hy]%elem_of_app]%elem_of_app; [by apply Hb| |apply list_elem_of_singleton in Hy as ->; by rewrite Lx].
        apply (before_trans _ q); [|done]. rewrite <- Lx. apply Hlr; set_solver.
      * lia.
      * left. exists old. split; [done|]. split; [cbn; set_solver|done].
      * right. exists k'. by split_and!; try apply E3.
Qed.

(** ** Lists of addresses *)

Lemma elem_of_remove x y l : y ∈ remove x l <-> y ∈ l /\ y <> x.
Proof. unfold remove. rewrite !list_elem_of_In, List.filter_In. rewrite negb_true_iff, Z.eqb_neq. done. Qed.

Lemma remove_notin x l : x ∉ l -> remove x l = l.
Proof.
  intros Hx. induction l as [|y l IH]; [done|]. cbn. destruct (Z.eqb_spec y x) as [->|]; [destruct Hx; by left|]. cbn. f_equal. apply IH. intros H. apply Hx. by right.
Qed.

Lemma remove_length x l : NoDup l -> x ∈ l -> zlength (remove x l) = zlength l - 1.
Proof.
  induction 1 as [|y l Hy Hd IH]; [by intros ?%elem_of_nil|]. intros [->|Hx]%elem_of_cons; unfold zlength in *; cbn.
  - rewrite Z.eqb_refl. cbn. fold (remove y l). rewrite remove_notin by done. lia.
  - destruct (Z.eqb_spec y x) as [->|]; [done|]. cbn [negb length]. fold (remove x l). specialize (IH Hx). lia.
Qed.

Lemma remove_NoDup x l : NoDup l -> NoDup (remove x l).
Proof. intros H. unfold remove. apply NoDup_ListNoDup, List.NoDup_filter, NoDup_ListNoDup, H. Qed.

Lemma existsb_eqb x l : existsb (Z.eqb x) l = true <-> x ∈ l.
Proof. rewrite existsb_exists. setoid_rewrite Z.eqb_eq. rewrite list_elem_of_In. split; [by intros (y & ? & ->)|by exists x]. Qed.

Lemma StronglySorted_drop {A} (P : A -> A -> Prop) pre x post : StronglySorted P (pre ++ x :: post) -> StronglySorted P (pre ++ post).
Proof.
  rewrite !StronglySorted_app. intros (H1 & H2 & [_ H3]%StronglySorted_cons). split_and!; try done. intros a b Ha Hb. apply H1; [done|by right].
Qed.

Lemma sorted_agree td td' xs : StronglySorted (fun x y => before (look td x) (look td y)) xs -> (forall x, x ∈ xs -> look td' x = look td x) ->
  StronglySorted (fun x y => before (look td' x) (look td' y)) xs.
Proof.
  induction 1 as [|x xs Hs IH Hx]; intros H; constructor; [apply IH; intros y Hy; apply H; by right|]. rewrite Forall_forall in *. intros y Hy. apply list_elem_of_In in Hy as Hy'.
  rewrite (H x), (H y) by (by left || by right). by apply Hx.
Qed.

Lemma look_agree td td' x : piece td' x = piece td x -> look td' x = look td x.
Proof. unfold look. by intros ->. Qed.

Lemma is_rb_agree s s' xs : is_rb s xs -> (forall z, z ∈ xs -> nodes s' !! z = nodes s !! z) -> rb_node s' = rb_node s -> is_rb s' xs.
Proof.
  intros (t & [H1 H2 H3 H4] & Hr & <-) Hn Hs. exists t. split; [|done]. split; try done; [by eapply rep_agree|]. cbn in *. congruence.
Qed.

(** ** The list of what is to be trimmed *)

Definition trim_ok (td : thread_data) : Prop :=
  NoDup (trim_list td) /\ (forall x, x ∈ trim_list td -> is_Some (piece td x)) /\ trim_entries td = zlength (trim_list td) /\ trim_entries td < 2 ^ 64.

Lemma remove_trim_eq td x : exists l n, remove_trim_entry td x = set_trim td l n /\ (trim_ok td -> trim_ok (set_trim td l n) /\ x ∉ l).
Proof.
  unfold remove_trim_entry. destruct (existsb (Z.eqb x) (trim_list td)) eqn:E.
  - apply existsb_eqb in E. eexists _, _. split; [done|]. intros (H1 & H2 & H3 & H4). pose proof (remove_length _ _ H1 E) as Hl. split.
    + split; [by apply remove_NoDup|]. split; [intros y [Hy _]%elem_of_remove; by apply H2|]. cbn. unfold subw. rewrite wrap_small; [lia|]. unfold is_word. unfold zlength in *. lia.
    + intros [_ ?]%elem_of_remove. done.
  - exists (trim_list td), (trim_entries td). split; [by destruct td|]. intros H. split; [done|]. rewrite <- existsb_eqb. by rewrite E.
Qed.

Lemma subw_len n : 0 < n < 2 ^ 64 -> subw 64 n 1 = n - 1.
Proof. intros H. unfold subw. apply wrap_small. unfold is_word. lia. Qed.
Lemma addw_len n : 0 <= n -> n + 1 < 2 ^ 64 -> addw 64 n 1 = n + 1.
Proof. intros H1 H2. unfold addw. apply wrap_small. unfold is_word. lia. Qed.

Lemma zlength_cons {A} (x : A) l : zlength (x :: l) = zlength l + 1.
Proof. unfold zlength. cbn [length]. lia. Qed.

(** A piece of the tree is not on the list. *)
Lemma tree_not_list td xs x : hist_ok td xs -> x ∈ xs -> x ∉ io_hist_list td.
Proof. intros H Hx Hl. destruct (ho_piece _ _ H x Hx) as (p & E & _ & F & _). destruct (ho_list _ _ H) as [_ HL]. destruct (HL x Hl) as (q & E' & _ & F' & _). congruence. Qed.

(** *** Taking a piece out of the tree

    [m] and [tr] are the pieces and the tree that are left. *)
Lemma hist_take td pre x post t (m : gmap Z io_piece) tr l e b : hist_ok td (pre ++ x :: post) -> rb_erase (io_hist_tree td) x = Some t ->
  (forall y, y <> x -> m !! y = pieces td !! y) -> (forall y, y <> x -> nodes tr !! y = nodes t !! y) -> rb_node tr = rb_node t ->
  trim_ok (mk_td tr m (io_hist_list td) (io_hist_len td) l e b) ->
  hist_ok (mk_td tr m (io_hist_list td) (subw 64 (io_hist_len td) 1) l e b) (pre ++ post).
Proof.
  intros H Et Hm Hn Hrt Ht. pose proof (is_rb_distinct _ _ (ho_tree _ _ H)) as [Hd _]. destruct (is_rb_erase _ _ _ _ (ho_tree _ _ H)) as (t' & Et' & Hrb). rewrite Et in Et'. injection Et' as <-.
  assert (x ∉ pre ++ post) as Hx.
  { apply list.NoDup_app in Hd as (_ & Hd1 & Hd2). apply list.NoDup_cons in Hd2 as [Hd2 _]. intros [Hp|Hp]%elem_of_app; [|done]. apply (Hd1 x Hp). by left. }
  set (td' := mk_td _ _ _ _ _ _ _). assert (forall y, y <> x -> piece td' y = piece td y) as Hpc by (intros y Hy; by apply Hm).
  assert (forall y, y ∈ pre ++ post -> y <> x /\ y ∈ pre ++ x :: post) as Hin by (intros y Hy; split; [by intros ->|set_solver]).
  destruct (ho_list _ _ H) as [HL1 HL2]. destruct (ho_len _ _ H) as [HN1 HN2]. unfold zlength in HN1. rewrite length_app in HN1. cbn [length] in HN1. split.
  - eapply is_rb_agree; [exact Hrb| |done]. intros z Hz. apply Hn. by apply Hin.
  - eapply sorted_agree; [eapply StronglySorted_drop, (ho_sorted _ _ H)|]. intros y Hy. apply look_agree, Hpc. by apply Hin.
  - intros y Hy. destruct (Hin y Hy) as [Hyx Hy']. rewrite (Hpc y Hyx). by apply (ho_piece _ _ H).
  - split; [done|]. intros y Hy. rewrite Hpc; [by apply HL2|]. intros ->. apply (tree_not_list _ _ x H); [set_solver|done].
  - cbn. unfold zlength. rewrite length_app. rewrite subw_len by lia. lia.
  - done.
Qed.

(** *** Logging *)

Lemma height_length t : (height t <= length (inorder t))%nat.
Proof. induction t as [|c l IHl x r IHr]; cbn; [done|]. rewrite length_app. cbn. lia. Qed.

Lemma drop_overlap_spec td pre old post : hist_ok td (pre ++ old :: post) ->
  exists td', drop_overlap td old = Some td' /\ hist_ok td' (pre ++ post) /\ (forall y, y <> old -> piece td' y = piece td y) /\ io_hist_list td' = io_hist_list td /\
    io_hist_len td' = io_hist_len td - 1 /\ (forall y, y <> old -> is_Some (load (io_hist_tree td) y) -> is_Some (load (io_hist_tree td') y)).
Proof.
  intros H. destruct (is_rb_erase _ _ _ _ (ho_tree _ _ H)) as (t & Et & _). destruct (ho_piece _ _ H old) as (p & Ep & _); [set_solver|].
  assert (subw 64 (io_hist_len td) 1 = io_hist_len td - 1) as El.
  { destruct (ho_len _ _ H) as [H1 H2]. unfold zlength in H1. rewrite length_app in H1. cbn [length] in H1. apply subw_len. lia. }
  unfold drop_overlap. cbn [io_hist_tree set_len set_list]. rewrite Et. cbn [mbind option_bind]. set (td1 := set_tree _ t).
  destruct (remove_trim_eq td1 old) as (l & n & -> & Hl). destruct (Hl (ho_trim _ _ H)) as [Htr Hold]. unfold piece at 1. cbn. unfold piece in Ep. rewrite Ep. cbn [mbind option_bind].
  assert (forall y, is_Some (load (io_hist_tree td) y) -> is_Some (load t y)) as Hc.
  { intros y Hy. apply rb_erase_cells in Et. unfold load, cells in *. apply elem_of_dom. rewrite Et. by apply elem_of_dom. }
  destruct (has IP_F_IN_FLIGHT p); (eexists; split; [done|]).
  - split_and!; try done; [|intros y _; apply Hc]. by apply (hist_take td pre old post t).
  - split; [|split_and!; try done; intros y Hy; [by apply lookup_delete_ne|intros Hy'; unfold load in *; cbn; rewrite lookup_delete_ne by done; by apply Hc]].
    apply (hist_take td pre old post t); try done; try (intros y Hy; by apply lookup_delete_ne).
    destruct Htr as (T1 & T2 & T3). split; [done|]. split; [|done]. intros y Hy. assert (y <> old) by (by intros ->). unfold piece in *. cbn in *. rewrite lookup_delete_ne by done. by apply T2.
Qed.

Lemma filter_none {A} (P : A -> Prop) `{!forall x, Decision (P x)} (l : list A) : (forall x, x ∈ l -> ~ P x) -> filter P l = [].
Proof. induction l as [|x l IH]; intros Hn; [done|]. rewrite filter_cons_False by (apply Hn; by left). apply IH. intros y Hy. apply Hn. by right. Qed.
Lemma filter_every {A} (P : A -> Prop) `{!forall x, Decision (P x)} (l : list A) : (forall x, x ∈ l -> P x) -> filter P l = l.
Proof. induction l as [|x l IH]; intros Hn; [done|]. rewrite filter_cons_True by (apply Hn; by left). f_equal. apply IH. intros y Hy. apply Hn. by right. Qed.
Lemma filter_agree {A} (P Q : A -> Prop) `{!forall x, Decision (P x)} `{!forall x, Decision (Q x)} (l : list A) : (forall x, x ∈ l -> P x <-> Q x) -> filter P l = filter Q l.
Proof.
  induction l as [|x l IH]; intros Hn; [done|]. assert (P x <-> Q x) as Hx by (apply Hn; by left). assert (filter P l = filter Q l) as Hl by (apply IH; intros y Hy; apply Hn; by right).
  destruct (decide (P x)); [rewrite !filter_cons_True by tauto|rewrite !filter_cons_False by tauto]; by rewrite Hl.
Qed.

(** The pieces that [p] does not overlap, and [x] at its place between them. *)
Definition with_piece (td : thread_data) (xs : list Z) (x : Z) (p : io_piece) : list Z :=
  filter (fun y => before (look td y) p) xs ++ x :: filter (fun y => before p (look td y)) xs.

Lemma with_piece_drop td td' pre old post x p : ~ before p (look td old) -> ~ before (look td old) p -> (forall y, y ∈ pre ++ post -> look td' y = look td y) ->
  with_piece td' (pre ++ post) x p = with_piece td (pre ++ old :: post) x p.
Proof.
  intros H1 H2 Hl. unfold with_piece. rewrite (filter_agree (fun y => before (look td' y) p) (fun y => before (look td y) p)) by (intros y Hy; by rewrite Hl).
  rewrite (filter_agree (fun y => before p (look td' y)) (fun y => before p (look td y))) by (intros y Hy; by rewrite Hl).
  rewrite !list.filter_app. by rewrite (filter_cons_False _ old post H2), (filter_cons_False _ old post H1).
Qed.

Lemma with_piece_at td k x p : fits_at td p k -> with_piece td (prior k ++ after k) x p = prior k ++ x :: after k.
Proof.
  intros [Hb Ha]. unfold with_piece. rewrite !list.filter_app. rewrite (filter_every _ (prior k)), (filter_none _ (after k)), (filter_none _ (prior k)), (filter_every _ (after k)); try done; [by rewrite app_nil_r| |];
    intros y Hy H; [by apply (before_irrefl _ _ (Hb y Hy))|by apply (before_irrefl _ _ (Ha y Hy))].
Qed.

Lemma StronglySorted_insert {A} (P : A -> A -> Prop) pre x post : StronglySorted P (pre ++ post) -> (forall y, y ∈ pre -> P y x) -> (forall y, y ∈ post -> P x y) ->
  StronglySorted P (pre ++ x :: post).
Proof.
  rewrite !StronglySorted_app. intros (H1 & H2 & H3) Hb Ha. split_and!; try done.
  - intros a b Hxa [->|Hxb]%elem_of_cons; [by apply Hb|by apply H1].
  - constructor; [done|]. rewrite Forall_forall. intros y Hy. apply Ha. by apply list_elem_of_In.
Qed.

(** A new piece that is not in the history yet. *)
Record fresh_piece (td : thread_data) (xs : list Z) (x : Z) (p : io_piece) : Prop := mk_fresh {
  fr_piece : piece td x = Some p;
  fr_fits : fits p;
  fr_flags : ip_flags p = IP_F_IN_FLIGHT;
  fr_new : (x ∉ xs) /\ (x ∉ io_hist_list td);
  fr_valid : valid x;
  fr_node : is_Some (load (io_hist_tree td) x);
  fr_len : io_hist_len td + 1 < 2 ^ 64 }.

Lemma place_ok td k x p t : hist_ok td (prior k ++ after k) -> fresh_piece td (prior k ++ after k) x p -> fits_at td p k -> is_rb t (prior k ++ x :: after k) ->
  hist_ok (set_len (set_piece (set_tree td t) x (with_flags p (Z.lor (ip_flags p) IP_F_ONRB))) (addw 64 (io_hist_len td) 1)) (prior k ++ x :: after k).
Proof.
  intros H [F1 F2 F3 [F4 F4'] F5 F6 F7] [Hb Ha] Ht. set (p' := with_flags p (Z.lor (ip_flags p) IP_F_ONRB)). set (td' := set_len _ _).
  assert (piece td' x = Some p') as Px by (unfold piece; cbn; by rewrite lookup_insert, decide_True).
  assert (forall y, y <> x -> piece td' y = piece td y) as Py by (intros y Hy; unfold piece; cbn; by apply lookup_insert_ne).
  assert (look td' x = p') as Lx by (unfold look; by rewrite Px). assert (forall y, y ∈ prior k ++ after k -> y <> x) as Hyx by (intros y Hy; by intros ->).
  assert (forall y, y ∈ prior k ++ after k -> look td' y = look td y) as Ly by (intros y Hy; apply look_agree, Py; auto).
  destruct (ho_list _ _ H) as [HL1 HL2]. destruct (ho_len _ _ H) as [HN1 HN2]. destruct (ho_trim _ _ H) as (T1 & T2 & T3). split.
  - done.
  - apply StronglySorted_insert; [eapply sorted_agree; [apply (ho_sorted _ _ H)|done]| |]; intros y Hy; rewrite Lx, Ly by set_solver; [by apply Hb|by apply Ha].
  - intros y Hy. destruct (decide (y = x)) as [->|Hn]; [exists p'; split; [done|]; split; [done|]; unfold p', has; cbn; by rewrite F3|]. rewrite Py by done. apply (ho_piece _ _ H). set_solver.
  - split; [done|]. intros y Hy. rewrite Py; [by apply HL2|]. by intros ->.
  - cbn. unfold zlength in *. rewrite length_app in *. cbn [length]. rewrite addw_len by lia. lia.
  - split; [done|]. split; [|done]. intros y Hy. destruct (decide (y = x)) as [->|Hn]; [by rewrite Px|]. rewrite Py by done. by apply T2.
Qed.

Lemma hist_find td xs p : hist_ok td xs -> fits p ->
  let r := find_place (size (nodes (io_hist_tree td))) td p (rb_node (io_hist_tree td)) 0 link_root in
  (exists old, r = Some (overlaps old) /\ old ∈ xs /\ ~ before p (look td old) /\ ~ before (look td old) p) \/
  (exists k, r = Some (free_place (top k) (link_of k)) /\ xs = prior k ++ after k /\ gap (io_hist_tree td) (prior k) (after k) (top k) (link_of k) /\ fits_at td p k).
Proof.
  intros H Hp r. pose proof (ho_tree _ _ H) as (t & Hh & Hr & Ht). assert (rb_node (io_hist_tree td) = ptr t) as Ep by (by destruct Hh as [_ ? _ _]).
  destruct (find_place_spec td p (size (nodes (io_hist_tree td))) t [] Hp Hh) as [(old & E1 & E2 & E3)|(k & E1 & E2 & E3 & E4)].
  - intros x Hx. rewrite Ht in Hx. destruct (ho_piece _ _ H x Hx) as (q & ? & ? & _). by exists q.
  - rewrite Ht. apply (ho_sorted _ _ H).
  - by split; intros y ?%elem_of_nil.
  - pose proof (height_length t). pose proof (holds_size _ _ _ Hh). lia.
  - left. exists old. unfold r. rewrite Ep. split; [exact E1|]. by rewrite <- Ht.
  - right. exists k. unfold r. rewrite Ep. split; [exact E1|]. cbn in E2. pose proof (inorder_around E k) as Hi. rewrite E2, Ht in Hi. cbn in Hi. split; [done|]. split; [|done].
    exists k. rewrite E2. split_and!; try done. intros u. apply inorder_around.
Qed.

(** A place for the piece ends the loop, whatever the fuel. *)
Lemma sort_piece_at fuel td xs k x p : hist_ok td xs -> fresh_piece td xs x p -> xs = prior k ++ after k -> fits_at td p k ->
  gap (io_hist_tree td) (prior k) (after k) (top k) (link_of k) ->
  find_place (size (nodes (io_hist_tree td))) td p (rb_node (io_hist_tree td)) 0 link_root = Some (free_place (top k) (link_of k)) ->
  exists td', sort_piece fuel td x p = Some td' /\ hist_ok td' (with_piece td xs x p) /\ piece td' x = Some (with_flags p (Z.lor (ip_flags p) IP_F_ONRB)) /\
    (forall y, y ∈ with_piece td xs x p \/ y ∈ io_hist_list td -> y <> x -> piece td' y = piece td y) /\ io_hist_list td' = io_hist_list td.
Proof.
  intros H F -> Hk Hg Ef. rewrite (with_piece_at td k x p Hk). destruct (fr_node _ _ _ _ F) as [n Hn]. destruct (is_rb_insert _ _ _ _ _ x n Hg Hn (fr_valid _ _ _ _ F) (proj1 (fr_new _ _ _ _ F))) as (t1 & t2 & E1 & E2 & Ht2).
  destruct fuel; cbn [sort_piece]; rewrite Ef; cbn [mbind option_bind]; rewrite E1; cbn [mbind option_bind]; rewrite E2; cbn [mbind option_bind]; (eexists; split; [done|]);
    (split; [exact (place_ok td k x p t2 H F Hk Ht2)|]); (split; [unfold piece; cbn; by rewrite lookup_insert, decide_True|]); (split; [|done]); intros y _ Hy; unfold piece; cbn; by apply lookup_insert_ne.
Qed.

Lemma sort_piece_spec fuel td xs x p : hist_ok td xs -> fresh_piece td xs x p -> (length xs <= fuel)%nat ->
  exists td', sort_piece fuel td x p = Some td' /\ hist_ok td' (with_piece td xs x p) /\ piece td' x = Some (with_flags p (Z.lor (ip_flags p) IP_F_ONRB)) /\
    (forall y, y ∈ with_piece td xs x p \/ y ∈ io_hist_list td -> y <> x -> piece td' y = piece td y) /\ io_hist_list td' = io_hist_list td.
Proof.
  revert td xs. induction fuel as [|fuel IH]; intros td xs H F Hf; pose proof (hist_find td xs p H (fr_fits _ _ _ _ F)) as Hfind; cbn zeta in Hfind;
    destruct Hfind as [(old & Ef & Hold & N1 & N2)|(k & Ef & Ek & Hg & Hk)];
    [cbn [sort_piece]; rewrite Ef; cbn [mbind option_bind]| |cbn [sort_piece]; rewrite Ef; cbn [mbind option_bind]| ].
  - destruct xs; [by apply elem_of_nil in Hold|cbn in Hf; lia].
  - by apply (sort_piece_at _ td xs k x p).
  - apply list_elem_of_split in Hold as (pre & post & ->). destruct (drop_overlap_spec _ _ _ _ H) as (td1 & E1 & H1 & P1 & L1 & N & C1). rewrite E1. cbn [mbind option_bind].
    destruct F as [F1 F2 F3 [F4 F4'] F5 F6 F7]. assert (x <> old) as Hxo by (intros ->; apply F4; set_solver).
    assert (old ∉ pre ++ post) as Hop.
    { pose proof (is_rb_distinct _ _ (ho_tree _ _ H)) as [Hd _]. apply list.NoDup_app in Hd as (_ & Hd1 & Hd2). apply list.NoDup_cons in Hd2 as [Hd2 _]. intros [Hp|Hp]%elem_of_app; [|done]. apply (Hd1 old Hp). by left. }
    assert (with_piece td1 (pre ++ post) x p = with_piece td (pre ++ old :: post) x p) as Ew.
    { apply with_piece_drop; try done. intros y Hy. apply look_agree, P1. by intros ->. }
    destruct (IH td1 (pre ++ post) H1) as (td' & E & H' & P' & Py & L').
    + split; try done; [by rewrite P1|split; [set_solver|by rewrite L1]|by apply C1|lia].
    + rewrite length_app in *. cbn in Hf. lia.
    + exists td'. rewrite Ew in *. split; [done|]. split; [done|]. split; [done|]. split; [|by rewrite L', L1]. intros y Hy Hyx. rewrite Py by (by rewrite ?L1). apply P1. intros ->. destruct Hy as [Hy|Hy]; [|apply (tree_not_list _ _ old H); [set_solver|done]].
      rewrite <- Ew in Hy. unfold with_piece in Hy. apply elem_of_app in Hy as [Hy|[->|Hy]%elem_of_cons]; [|done|]; apply list_elem_of_filter in Hy as [_ Hy]; done.
  - by apply (sort_piece_at _ td xs k x p).
Qed.

Lemma hist_ok_agree td td' xs : hist_ok td xs -> is_rb (io_hist_tree td') xs -> (forall y, y ∈ xs \/ y ∈ io_hist_list td -> piece td' y = piece td y) -> io_hist_list td' = io_hist_list td ->
  io_hist_len td' = io_hist_len td -> trim_ok td' -> hist_ok td' xs.
Proof.
  intros H Ht Hp Hl Hn Htr. split; try done.
  - eapply sorted_agree; [apply (ho_sorted _ _ H)|]. intros y Hy. apply look_agree, Hp. by left.
  - intros y Hy. rewrite Hp by (by left). by apply (ho_piece _ _ H).
  - rewrite Hl. destruct (ho_list _ _ H) as [H1 H2]. split; [done|]. intros y Hy. rewrite Hp by (by right). by apply H2.
  - rewrite Hl, Hn. apply (ho_len _ _ H).
Qed.

(** [calloc] returns an address that is not in use. *)
Record unused (td : thread_data) (x : Z) : Prop := mk_unused { un_valid : valid x; un_node : nodes (io_hist_tree td) !! x = None; un_piece : piece td x = None }.

Definition piece_of (u : io_u) : io_piece := mk_ipo (u_file u) (u_offset u) (u_buflen u) (u_numberio u) IP_F_IN_FLIGHT.

Definition room (td : thread_data) : Prop := io_hist_len td + 1 < 2 ^ 64 /\ trim_entries td + 1 < 2 ^ 64.

Lemma unused_notin td xs x : hist_ok td xs -> unused td x -> (x ∉ xs) /\ (x ∉ io_hist_list td) /\ (x ∉ trim_list td).
Proof.
  intros H [_ _ Hx]. split; [|split].
  - intros Hy. destruct (ho_piece _ _ H x Hy) as (p & ? & _). congruence.
  - intros Hy. destruct (ho_list _ _ H) as [_ HL]. destruct (HL x Hy) as (p & ? & _). congruence.
  - intros Hy. destruct (ho_trim _ _ H) as (_ & HT & _). destruct (HT x Hy) as [p ?]. congruence.
Qed.

(** The state with the new piece, on the trim list or not. *)
Definition started (td : thread_data) (x : Z) (p : io_piece) (should_trim : bool) : thread_data :=
  let td := new_piece td x p in if should_trim then set_trim td (trim_list td ++ [x]) (addw 64 (trim_entries td) 1) else td.

Lemma started_hist td xs x p b : hist_ok td xs -> unused td x -> room td ->
  hist_ok (started td x p b) xs /\ piece (started td x p b) x = Some p /\ (forall y, y <> x -> piece (started td x p b) y = piece td y) /\
  io_hist_tree (started td x p b) = mk_root (<[x := mk_node 0 0 0]> (nodes (io_hist_tree td))) (rb_node (io_hist_tree td)) /\
  io_hist_list (started td x p b) = io_hist_list td /\ io_hist_len (started td x p b) = io_hist_len td.
Proof.
  intros H Hu [_ Hr]. destruct (unused_notin _ _ _ H Hu) as (N1 & N2 & N3). destruct (ho_trim _ _ H) as (T1 & T2 & T3 & T4).
  assert (piece (started td x p b) x = Some p) as Px by (unfold started, piece; destruct b; cbn; by rewrite lookup_insert, decide_True).
  assert (forall y, y <> x -> piece (started td x p b) y = piece td y) as Py by (intros y Hy; unfold started, piece; destruct b; cbn; by apply lookup_insert_ne).
  split; [|split_and!; try done; by destruct b]. apply (hist_ok_agree td); try done; try (by destruct b).
  - eapply is_rb_agree; [apply (ho_tree _ _ H)| |by destruct b]. intros z Hz. assert (z <> x) by (by intros ->). destruct b; cbn; by apply lookup_insert_ne.
  - intros y Hy. apply Py. intros ->. tauto.
  - assert (forall y, y ∈ trim_list td -> is_Some (piece (started td x p b) y)) as Ht by (intros y Hy; rewrite Py; [by apply T2|by intros ->]).
    destruct b; [|by split_and!]. split; [|split; [|cbn; unfold zlength in *; rewrite addw_len by lia; rewrite length_app; cbn [length]; lia]].
    + cbn. apply list.NoDup_app. split; [done|]. split; [intros y Hy Hyx%list_elem_of_singleton; subst y; done|apply NoDup_singleton].
    + cbn [trim_list started set_trim]. intros y [Hy|Hy%list_elem_of_singleton]%elem_of_app; [by apply Ht|]. subst y. by exists p.
Qed.

(** [log_io_piece] puts the piece of the unit at its place in the tree, in the stead of the
    pieces it overlaps, or at the end of the list. *)
Definition logged (td : thread_data) (xs : list Z) (u : io_u) (x : Z) (overlap_risk : bool) (td' : thread_data) : Prop :=
  let kept := if overlap_risk then with_piece td xs x (piece_of u) else xs in
  hist_ok td' kept /\ io_hist_list td' = (if overlap_risk then io_hist_list td else io_hist_list td ++ [x]) /\
  piece td' x = Some (with_flags (piece_of u) (IP_F_IN_FLIGHT + if overlap_risk then IP_F_ONRB else IP_F_ONLIST)) /\
  forall y, y <> x -> y ∈ kept \/ y ∈ io_hist_list td -> piece td' y = piece td y.

Lemma rb_size s xs : is_rb s xs -> (length xs <= size (nodes s))%nat.
Proof. intros (t & Hh & _ & <-). pose proof (holds_size _ _ _ Hh). lia. Qed.

Lemma with_piece_agree td td' xs x p : (forall y, y ∈ xs -> look td' y = look td y) -> with_piece td' xs x p = with_piece td xs x p.
Proof. intros H. unfold with_piece. f_equal; [|f_equal]; apply filter_agree; intros y Hy; by rewrite H. Qed.

Lemma with_piece_elem td xs x p y : y ∈ with_piece td xs x p -> y = x \/ y ∈ xs.
Proof. unfold with_piece. rewrite elem_of_app, elem_of_cons, !list_elem_of_filter. tauto. Qed.

Lemma started_log td u x b risk : log_io_piece td u x b risk =
  let td1 := started td x (piece_of u) b in
  if negb risk then Some (set_piece (set_list td1 (io_hist_list td1 ++ [x]) (addw 64 (io_hist_len td1) 1)) x (with_flags (piece_of u) (Z.lor IP_F_IN_FLIGHT IP_F_ONLIST)), set_ipo u x)
  else let* t := RB_CLEAR_NODE (io_hist_tree td1) x in let* td2 := sort_piece (size (nodes t)) (set_tree td1 t) x (piece_of u) in Some (td2, set_ipo u x).
Proof. done. Qed.

Lemma append_ok td xs x p : hist_ok td xs -> piece td x = Some p -> fits p -> ip_flags p = IP_F_IN_FLIGHT -> (x ∉ xs) -> (x ∉ io_hist_list td) -> io_hist_len td + 1 < 2 ^ 64 ->
  hist_ok (set_piece (set_list td (io_hist_list td ++ [x]) (addw 64 (io_hist_len td) 1)) x (with_flags p (Z.lor IP_F_IN_FLIGHT IP_F_ONLIST))) xs.
Proof.
  intros H Hp Hft Hf N1 N2 Hr. set (q := with_flags p _). set (td' := set_piece _ x q). destruct (ho_list _ _ H) as [L1 L2]. destruct (ho_len _ _ H) as [HN1 HN2]. destruct (ho_trim _ _ H) as (T1 & T2 & T3).
  assert (piece td' x = Some q) as Px by (unfold piece; cbn; by rewrite lookup_insert, decide_True). assert (forall y, y <> x -> piece td' y = piece td y) as Py by (intros y Hy; by apply lookup_insert_ne).
  split.
  - apply (ho_tree _ _ H).
  - eapply sorted_agree; [apply (ho_sorted _ _ H)|]. intros y Hy. apply look_agree, Py. by intros ->.
  - intros y Hy. rewrite Py by (by intros ->). by apply (ho_piece _ _ H).
  - split.
    + cbn. apply list.NoDup_app. split; [done|]. split; [intros y Hy Hyx%list_elem_of_singleton; subst y; done|apply NoDup_singleton].
    + cbn [io_hist_list set_list set_piece set_pieces td']. intros y [Hy|Hy%list_elem_of_singleton]%elem_of_app; [rewrite Py by (by intros ->); by apply L2|]. subst y. exists q. split; [done|]. by unfold has, q.
  - cbn. unfold zlength in *. rewrite length_app. cbn [length]. rewrite addw_len by lia. lia.
  - split; [done|]. split; [|done]. intros y Hy. destruct (decide (y = x)) as [->|Hn]; [by exists q|]. rewrite Py by done. by apply T2.
Qed.

Lemma log_io_piece_spec td xs u x b risk : hist_ok td xs -> unused td x -> room td -> fits (piece_of u) ->
  exists td', log_io_piece td u x b risk = Some (td', set_ipo u x) /\ logged td xs u x risk td'.
Proof.
  intros H Hu Hr Hf. rewrite started_log. cbn zeta. destruct (started_hist td xs x (piece_of u) b H Hu Hr) as (H1 & Px & Py & Et & El & En). set (td1 := started td x (piece_of u) b) in *.
  destruct (unused_notin _ _ _ H Hu) as (N1 & N2 & N3). destruct Hr as [Hr1 Hr2]. destruct risk; cbn [negb].
  - unfold RB_CLEAR_NODE, rb_set_parent, store, load. rewrite Et. cbn [nodes rb_node]. rewrite lookup_insert, decide_True by done. cbn [mbind option_bind].
    set (t := mk_root _ _). assert (hist_ok (set_tree td1 t) xs) as H2.
    { apply (hist_ok_agree td1); try done; [|apply (ho_trim _ _ H1)]. eapply is_rb_agree; [apply (ho_tree _ _ H1)| |by rewrite Et]. intros z Hz. rewrite Et. cbn. by rewrite lookup_insert_ne by (by intros ->). }
    destruct (sort_piece_spec (size (nodes t)) (set_tree td1 t) xs x (piece_of u) H2) as (td' & Es & H' & P' & Py' & L').
    + split; try done; [cbn; by rewrite El|apply Hu|eexists; unfold load, t; cbn; by rewrite lookup_insert, decide_True|cbn; by rewrite En].
    + apply (rb_size _ _ (ho_tree _ _ H2)).
    + assert (with_piece (set_tree td1 t) xs x (piece_of u) = with_piece td xs x (piece_of u)) as Ew by (apply with_piece_agree; intros y Hy; apply look_agree, (Py y); by intros ->).
      exists td'. rewrite Es. split; [done|]. rewrite Ew in *. split; [done|]. split; [by rewrite L'|]. split; [done|]. intros y Hy Hk. rewrite Py'; [by apply Py| |done]. cbn. by rewrite El.
  - eexists. split; [done|]. split; [|split; [cbn; by rewrite El|split; [by apply lookup_insert_eq|]]].
    + apply append_ok; try done; [by rewrite El|by rewrite En].
    + intros y Hy _. unfold piece. cbn. rewrite lookup_insert_ne by done. by apply Py.
Qed.

(** *** Taking pieces out of the history *)

Lemma list_take td xs pre x post (m : gmap Z io_piece) tr l e b : hist_ok td xs -> io_hist_list td = pre ++ x :: post ->
  (forall y, y <> x -> m !! y = pieces td !! y) -> (forall y, y <> x -> nodes tr !! y = nodes (io_hist_tree td) !! y) -> rb_node tr = rb_node (io_hist_tree td) ->
  trim_ok (mk_td tr m (pre ++ post) (io_hist_len td) l e b) ->
  hist_ok (mk_td tr m (pre ++ post) (subw 64 (io_hist_len td) 1) l e b) xs.
Proof.
  intros H El Hm Hn Hrt Ht. destruct (ho_list _ _ H) as [L1 L2]. destruct (ho_len _ _ H) as [HN1 HN2]. rewrite El in *. apply drop_notin in L1 as [L1 Hx]. unfold zlength in HN1. rewrite length_app in HN1. cbn [length] in HN1.
  assert (x ∉ xs) as Hxs by (intros Hi; apply (tree_not_list _ _ x H Hi); rewrite El; set_solver). set (td' := mk_td _ _ _ _ _ _ _).
  assert (forall y, y <> x -> piece td' y = piece td y) as Hpc by (intros y Hy; by apply Hm). split.
  - eapply is_rb_agree; [apply (ho_tree _ _ H)| |done]. intros z Hz. apply Hn. by intros ->.
  - eapply sorted_agree; [apply (ho_sorted _ _ H)|]. intros y Hy. apply look_agree, Hpc. by intros ->.
  - intros y Hy. rewrite Hpc by (by intros ->). by apply (ho_piece _ _ H).
  - split; [done|]. intros y Hy. rewrite Hpc by (by intros ->). apply L2. cbn in Hy. set_solver.
  - cbn. unfold zlength. rewrite length_app. rewrite subw_len by lia. lia.
  - done.
Qed.

(** A piece that is on no list any more can be freed. *)
Lemma free_ok td x xs : hist_ok td xs -> (x ∉ xs) -> (x ∉ io_hist_list td) -> (x ∉ trim_list td) -> hist_ok (free_piece td x) xs.
Proof.
  intros H N1 N2 N3. destruct (ho_trim _ _ H) as (T1 & T2 & T3). apply (hist_ok_agree td); try done.
  - eapply is_rb_agree; [apply (ho_tree _ _ H)| |done]. intros z Hz. cbn. by rewrite lookup_delete_ne by (by intros ->).
  - intros y Hy. unfold piece. cbn. rewrite lookup_delete_ne; [done|]. intros ->. tauto.
  - split; [done|]. split; [|done]. intros y Hy. unfold piece. cbn. rewrite lookup_delete_ne; [by apply T2|]. by intros ->.
Qed.

Lemma untrim_ok td x xs : hist_ok td xs -> hist_ok (remove_trim_entry td x) xs /\ (x ∉ trim_list (remove_trim_entry td x)).
Proof.
  intros H. destruct (remove_trim_eq td x) as (l & n & -> & Hl). destruct (Hl (ho_trim _ _ H)) as [H1 H2]. split; [|done]. apply (hist_ok_agree td); try done. apply (ho_tree _ _ H).
Qed.

Lemma untrim_rest td x : let td' := remove_trim_entry td x in
  io_hist_tree td' = io_hist_tree td /\ pieces td' = pieces td /\ io_hist_list td' = io_hist_list td /\ io_hist_len td' = io_hist_len td.
Proof. cbn zeta. by destruct (remove_trim_eq td x) as (l & n & -> & _). Qed.

(** A change to a piece that keeps its place. *)
Lemma trim_touch td x q : trim_ok td -> trim_ok (set_piece td x q).
Proof.
  intros (T1 & T2 & T3). split; [done|]. split; [|done]. intros y Hy. unfold piece. cbn. destruct (decide (y = x)) as [->|Hn]; [exists q; by rewrite lookup_insert, decide_True|]. rewrite lookup_insert_ne by done. by apply T2.
Qed.

Lemma is_rb_root s xs : is_rb s xs -> (rb_node s =? 0) = match xs with [] => true | _ => false end.
Proof.
  intros (t & Hh & _ & <-). assert (rb_node s = ptr t) as -> by (by destruct Hh as [_ ? _ _]). pose proof (ptr_null _ _ _ Hh) as Hp. unfold c_true in Hp.
  destruct t as [|c l x r]; [done|]. apply (f_equal negb) in Hp. rewrite negb_involutive in Hp. rewrite Hp. cbn. by destruct (inorder l).
Qed.

Lemma has_clear f g p : Z.land (Z.lnot g) f = f -> has f (with_flags p (Z.ldiff (ip_flags p) g)) = has f p.
Proof. intros H. unfold has. cbn. by rewrite Z.ldiff_land, <- Z.land_assoc, H. Qed.

(** [next_piece] with the count of the pieces brought up to date. *)
Lemma next_piece_spec td xs : hist_ok td xs ->
  match xs ++ io_hist_list td with
  | [] => next_piece td = Some (None, td)
  | x :: _ => exists p, piece td x = Some p /\
      if has IP_F_IN_FLIGHT p then next_piece td = Some (None, td)
      else exists q td', next_piece td = Some (Some x, td') /\ piece td' x = Some q /\ (ip_file q, ip_offset q, ip_len q, ip_numberio q, has IP_F_TRIMMED q) = (ip_file p, ip_offset p, ip_len p, ip_numberio p, has IP_F_TRIMMED p) /\
        hist_ok (set_len td' (subw 64 (io_hist_len td') 1)) (tail xs) /\ io_hist_list td' = match xs with [] => tail (io_hist_list td) | _ => io_hist_list td end /\ (x ∉ tail xs ++ io_hist_list td') /\
        forall y, y <> x -> piece td' y = piece td y
  end.
Proof.
  intros H. unfold next_piece. pose proof (ho_tree _ _ H) as Ht. rewrite (is_rb_root _ _ Ht). destruct xs as [|x xs]; cbn [app tail].
  - cbn [negb]. destruct (io_hist_list td) as [|x l] eqn:El; [done|]. destruct (ho_list _ _ H) as [L1 L2]. rewrite El in L1, L2. destruct (L2 x) as (p & Ep & _ & Fr & Fl); [by left|]. exists p. split; [done|].
    rewrite Ep. cbn [mbind option_bind]. destruct (has IP_F_IN_FLIGHT p); [done|]. rewrite Fl. cbn [c_assert mbind option_bind]. eexists _, _. split; [done|]. split; [unfold piece; cbn; by rewrite lookup_insert, decide_True|].
    split; [by rewrite has_clear|]. split; [|split; [done|]; split; [cbn; by apply list.NoDup_cons in L1 as [? _]|intros y Hy; by apply lookup_insert_ne]].
    apply (list_take td [] [] x l); try done; [intros y Hy; by apply lookup_insert_ne|]. apply (trim_touch td x), (ho_trim _ _ H).
  - destruct (is_rb_erase _ [] x xs Ht) as (t & Et & _). destruct (ho_piece _ _ H x) as (p & Ep & _ & Fp & _); [by left|]. exists p. split; [done|].
    rewrite (is_rb_first _ _ Ht). cbn [from_option head mbind option_bind negb id]. rewrite Ep. cbn [mbind option_bind].
    destruct (has IP_F_IN_FLIGHT p); [done|]. rewrite Et. cbn [mbind option_bind]. rewrite Fp. cbn [c_assert mbind option_bind]. eexists _, _. split; [done|]. split; [unfold piece; cbn; by rewrite lookup_insert, decide_True|].
    split; [by rewrite has_clear|]. split; [|split; [done|split; [|intros y Hy; by apply lookup_insert_ne]]].
    + apply (hist_take td [] x xs t); try done; [intros y Hy; by apply lookup_insert_ne|]. apply (trim_touch td x), (ho_trim _ _ H).
    + pose proof (is_rb_distinct _ _ Ht) as [Hd _]. apply list.NoDup_cons in Hd as [Hd _]. pose proof (tree_not_list _ _ x H) as Hl. cbn. set_solver.
Qed.

(** What [get_next_verify] stores in the unit. *)
Definition verifies (u' : io_u) (p : io_piece) : Prop :=
  (u_file u', u_offset u', u_verify_offset u', u_buflen u', u_numberio u', u_ver_list u') = (ip_file p, ip_offset p, ip_offset p, ip_len p, ip_numberio p, true).

Lemma get_next_verify_spec td xs u opens : hist_ok td xs -> u_file u = 0 ->
  match xs ++ io_hist_list td with
  | [] => get_next_verify td u opens = Some (1, u, td)
  | x :: _ => exists p, piece td x = Some p /\
      if has IP_F_IN_FLIGHT p then get_next_verify td u opens = Some (1, u, td)
      else exists u' td', get_next_verify td u opens = Some (if opens (ip_file p) then 0 else 1, u', td') /\ verifies u' p /\
        (has IP_F_TRIMMED p = true -> u_trimmed u' = true) /\ hist_ok td' (tail xs) /\ (xs ++ io_hist_list td = x :: tail xs ++ io_hist_list td') /\ (opens (ip_file p) = true -> piece td' x = None) /\
        forall y, y <> x -> piece td' y = piece td y
  end.
Proof.
  intros H Hu. pose proof (next_piece_spec td xs H) as Hn. unfold get_next_verify. rewrite Hu. cbn [Z.eqb negb]. destruct (xs ++ io_hist_list td) as [|x rest] eqn:El; [by rewrite Hn|].
  destruct Hn as (p & Ep & Hn). exists p. split; [done|]. destruct (has IP_F_IN_FLIGHT p); [by rewrite Hn|]. destruct Hn as (q & td1 & E1 & Eq & Hq & H1 & L1 & N1 & P1).
  injection Hq as Q1 Q2 Q3 Q4 Q5. rewrite E1. cbn [mbind option_bind]. rewrite Eq. cbn [mbind option_bind u_file]. rewrite Q1. set (td2 := set_len td1 _) in *.
  assert (x :: rest = x :: tail xs ++ io_hist_list td1) as Er by (rewrite <- El, L1; destruct xs; cbn in *; [by rewrite El|congruence]).
  destruct (untrim_ok td2 x (tail xs) H1) as [H2 N2]. destruct (untrim_rest td2 x) as (_ & R2 & L2 & _).
  destruct (opens (ip_file p)) eqn:Eo; cbn [negb]; (eexists _, _; split; [done|]); (split; [by unfold verifies; cbn; rewrite ?Q1, Q2, Q3, Q4|]); (split; [cbn; rewrite Q5; by intros ->|]).
  - assert (io_hist_list (remove_trim_entry td2 x) = io_hist_list td1) as L3 by (by rewrite L2). split; [|split; [by rewrite Er; cbn; rewrite L3|split; [intros _; by apply lookup_delete_eq|]]].
    2: { intros y Hy. rewrite <- (P1 y Hy). unfold piece. cbn [pieces free_piece set_pieces set_tree]. rewrite R2. by apply lookup_delete_ne. }
    apply free_ok; try done; [|rewrite L3]; set_solver.
  - done.
Qed.

(** *** Completion and failure of writes *)

(** A change of a piece that keeps its file and offset, does not grow it and keeps the flags
    that say where it is. *)
Lemma change_ok td xs x p q : hist_ok td xs -> piece td x = Some p -> ip_file q = ip_file p -> ip_offset q = ip_offset p -> 0 <= ip_len q <= ip_len p ->
  has IP_F_ONRB q = has IP_F_ONRB p -> has IP_F_ONLIST q = has IP_F_ONLIST p -> hist_ok (set_piece td x q) xs.
Proof.
  intros H Hp Q1 Q2 Q3 Q4 Q5. set (td' := set_piece td x q). assert (piece td' x = Some q) as Px by (by apply lookup_insert_eq). assert (forall y, y <> x -> piece td' y = piece td y) as Py by (intros y Hy; by apply lookup_insert_ne).
  destruct (ho_list _ _ H) as [L1 L2]. split; try done; try apply H.
  - assert (forall y, ip_file (look td' y) = ip_file (look td y) /\ ip_offset (look td' y) = ip_offset (look td y) /\ ip_len (look td' y) <= ip_len (look td y)) as Hl.
    { intros y. unfold look. destruct (decide (y = x)) as [->|Hn]; [rewrite Px, Hp; cbn; lia|]. rewrite Py by done. lia. }
    assert (forall y z, before (look td y) (look td z) -> before (look td' y) (look td' z)) as Hb.
    { intros y z. destruct (Hl y) as (? & ? & ?). destruct (Hl z) as (? & ? & ?). unfold before. lia. }
    pose proof (ho_sorted _ _ H) as Hs. induction Hs as [|y ys Hs IH Hy]; constructor; [|rewrite Forall_forall in *; eauto].
    clear - Hs Hb. induction Hs as [|y ys Hs IH Hy]; constructor; [done|]. rewrite Forall_forall in *. eauto.
  - intros y Hy. destruct (ho_piece _ _ H y Hy) as (p' & E' & F' & O' & O''). destruct (decide (y = x)) as [->|Hn]; [|rewrite Py by done; by exists p'].
    assert (p' = p) as -> by congruence. exists q. unfold fits in *. rewrite Q4, Q5. split_and!; try done; lia.
  - split; [done|]. intros y Hy. destruct (L2 y Hy) as (p' & E' & F'). destruct (decide (y = x)) as [->|Hn]; [|rewrite Py by done; by exists p'].
    assert (p' = p) as -> by congruence. exists q. unfold fits in *. rewrite Q4, Q5. destruct F' as (? & ? & ?). split_and!; try done; lia.
  - apply (trim_touch td x), (ho_trim _ _ H).
Qed.

Lemma piece_completed_spec td xs x p : hist_ok td xs -> piece td x = Some p -> fits p ->
  exists td' q, piece_completed td x = Some td' /\ hist_ok td' xs /\ piece td' x = Some q /\ has IP_F_IN_FLIGHT q = false /\ io_hist_list td' = io_hist_list td.
Proof.
  intros H Hp (_ & F & _). unfold piece_completed. rewrite Hp. cbn [mbind option_bind]. set (q := with_flags p _). exists (set_piece td x q), q.
  split; [done|]. split; [|split; [by apply lookup_insert_eq|split; [|done]]].
  - apply (change_ok _ _ _ p); try done; by apply has_clear.
  - unfold has, q. cbn. by rewrite Z.ldiff_land, <- Z.land_assoc, Z.land_0_r.
Qed.

Lemma trim_io_piece_spec td xs u p : hist_ok td xs -> u_ipo u <> 0 -> piece td (u_ipo u) = Some p -> 0 <= u_resid u <= u_xfer_buflen u -> u_xfer_buflen u - u_resid u <= ip_len p -> ip_len p < 2 ^ 64 ->
  exists td', trim_io_piece td u = Some td' /\ hist_ok td' xs /\ ip_len (look td' (u_ipo u)) = u_xfer_buflen u - u_resid u /\ io_hist_list td' = io_hist_list td.
Proof.
  intros H Hx Hp H1 H2 H3. unfold trim_io_piece. destruct (Z.eqb_spec (u_ipo u) 0); [done|]. rewrite Hp. cbn [mbind option_bind].
  assert (subw 64 (u_xfer_buflen u) (u_resid u) = u_xfer_buflen u - u_resid u) as El by (apply wrap_small; unfold is_word; lia).
  eexists. split; [done|]. split; [|split; [unfold look, piece; cbn; by rewrite lookup_insert, decide_True|done]]. apply (change_ok _ _ _ p); try done. cbn. lia.
Qed.

Lemma fail_block_info_eq td u d fo bs td1 : fail_block_info td u d fo bs = Some td1 -> exists b, td1 = set_infos td b.
Proof.
  unfold fail_block_info. destruct (zlength (block_infos td) =? 0); [intros [= <-]; exists (block_infos td); by destruct td|].
  destruct (io_u_block_info td u fo bs) as [[idx i]|]; [|done]. cbn [mbind option_bind]. destruct (_ <? _); [|intros [= <-]; exists (block_infos td); by destruct td].
  destruct d; intros [= <-]; try (by eexists). exists (block_infos td). by destruct td.
Qed.

Lemma infos_ok td xs b : hist_ok td xs -> hist_ok (set_infos td b) xs.
Proof. intros H. apply (hist_ok_agree td); try done; apply H. Qed.

Lemma remove_middle x pre post : NoDup (pre ++ x :: post) -> remove x (pre ++ x :: post) = pre ++ post.
Proof.
  intros H. apply drop_notin in H as [_ H]. rewrite elem_of_app in H. unfold remove. rewrite List.filter_app. cbn. rewrite Z.eqb_refl. cbn. fold (remove x pre) (remove x post). by rewrite !remove_notin by tauto.
Qed.

Lemma trim_free td td' x : trim_ok td -> (x ∉ trim_list td) -> trim_list td' = trim_list td -> trim_entries td' = trim_entries td -> pieces td' = delete x (pieces td) -> trim_ok td'.
Proof.
  intros (T1 & T2 & T3) Hx M1 M2 Hm. unfold trim_ok. rewrite M1, M2. split; [done|]. split; [|done]. intros y Hy. unfold piece. rewrite Hm, lookup_delete_ne; [by apply T2|]. by intros ->.
Qed.

(** [unlog_io_piece] takes the piece out of the tree or the list, provided that it is in the
    history and not on the list of what is to be trimmed. *)
Lemma unlog_io_piece_spec td xs u d fo bs td1 : hist_ok td xs -> fail_block_info td u d fo bs = Some td1 -> (u_ipo u ∉ trim_list td) -> u_ipo u ∈ xs ++ io_hist_list td -> u_ipo u <> 0 ->
  exists td', unlog_io_piece td u d fo bs = Some (td', set_ipo u 0) /\ hist_ok td' (remove (u_ipo u) xs) /\ io_hist_list td' = remove (u_ipo u) (io_hist_list td) /\ piece td' (u_ipo u) = None.
Proof.
  intros H Ef Ht Hx Hx0. destruct (fail_block_info_eq _ _ _ _ _ _ Ef) as [b ->]. apply (infos_ok _ _ b) in H. set (td1 := set_infos td b) in *. fold (trim_list td1) in Ht. change (io_hist_list td) with (io_hist_list td1) in *.
  unfold unlog_io_piece. rewrite Ef. cbn [mbind option_bind]. destruct (Z.eqb_spec (u_ipo u) 0); [done|]. set (x := u_ipo u) in *.
  apply elem_of_app in Hx as [Hx|Hx].
  - pose proof (tree_not_list _ _ _ H Hx) as Nl. destruct (ho_piece _ _ H x Hx) as (p & -> & _ & Fp & _). cbn [mbind option_bind]. rewrite Fp. apply list_elem_of_split in Hx as (pre & post & ->).
    destruct (is_rb_distinct _ _ (ho_tree _ _ H)) as [Hd _]. destruct (is_rb_erase _ _ _ _ (ho_tree _ _ H)) as (t & Et & _). rewrite Et. cbn [mbind option_bind]. eexists. split; [done|].
    rewrite remove_middle, remove_notin by done. split; [|split; [done|by apply lookup_delete_eq]].
    apply (hist_take td1 pre x post t); try done; [intros y Hy; by apply lookup_delete_ne|intros y Hy; by apply lookup_delete_ne|by apply (trim_free td1 _ x (ho_trim _ _ H))].
  - destruct (ho_list _ _ H) as [Hd L2]. destruct (L2 x Hx) as (p & -> & _ & F1 & F2). cbn [mbind option_bind]. rewrite F1, F2. cbn [mbind option_bind]. eexists. split; [done|].
    assert (x ∉ xs) as Nx by (intros Hi; by apply (tree_not_list _ _ _ H Hi)). rewrite (remove_notin x xs) by done. split; [|split; [done|by apply lookup_delete_eq]].
    apply list_elem_of_split in Hx as (pre & post & El). cbn [io_hist_list set_list free_piece set_pieces set_tree set_len]. rewrite El in *. rewrite remove_middle by done.
    apply (list_take td1 xs pre x post); try done; [intros y Hy; by apply lookup_delete_ne|intros y Hy; by apply lookup_delete_ne|by apply (trim_free td1 _ x (ho_trim _ _ H))].
Qed.

(** *** Throwing the history away *)

Lemma remove_trim_keeps td x y : y ∈ trim_list (remove_trim_entry td x) -> y ∈ trim_list td.
Proof. unfold remove_trim_entry. destruct (existsb _ _); [|done]. cbn. by intros [? _]%elem_of_remove. Qed.

Lemma prune_tree_spec fuel td xs : hist_ok td xs -> (length xs <= fuel)%nat ->
  exists td', prune_tree fuel td = Some td' /\ hist_ok td' [] /\ io_hist_list td' = io_hist_list td /\
    (forall y, piece td' y = if decide (y ∈ xs) then None else piece td y) /\ (forall y, y ∈ trim_list td' -> y ∈ trim_list td).
Proof.
  revert td xs. induction fuel as [|fuel IH]; intros td [|x xs] H Hf; try (cbn in Hf; lia); pose proof (ho_tree _ _ H) as Ht; cbn [prune_tree]; rewrite (is_rb_first _ _ Ht); cbn [from_option head mbind option_bind id];
    try (exists td; by split_and!; try (intros y; rewrite decide_False by (by intros ?%elem_of_nil))).
  destruct (is_rb_distinct _ _ Ht) as [Hd Hv]. apply list.NoDup_cons in Hd as [Hx Hd]. apply Forall_cons_1 in Hv as [[Hv _] _]. destruct (Z.eqb_spec x 0); [lia|].
  destruct (is_rb_erase _ [] x xs Ht) as (t & Et & _). rewrite Et. cbn [mbind option_bind].
  assert (hist_ok (set_len (set_tree td t) (subw 64 (io_hist_len td) 1)) xs) as H1 by (apply (hist_take td [] x xs t); try done; apply (ho_trim _ _ H)).
  destruct (untrim_ok _ x _ H1) as [H2 N2]. destruct (untrim_rest (set_tree td t) x) as (R1 & R2 & R3 & R4).
  assert (set_len (remove_trim_entry (set_tree td t) x) (subw 64 (io_hist_len (remove_trim_entry (set_tree td t) x)) 1) = remove_trim_entry (set_len (set_tree td t) (subw 64 (io_hist_len td) 1)) x) as E.
  { unfold remove_trim_entry. cbn. by destruct (existsb _ _). }
  rewrite E. set (td2 := remove_trim_entry _ x) in *. destruct (untrim_rest (set_len (set_tree td t) (subw 64 (io_hist_len td) 1)) x) as (S1 & S2 & S3 & S4). fold td2 in S1, S2, S3, S4.
  destruct (IH (free_piece td2 x) xs) as (td' & E' & H' & L' & P' & T').
  - apply free_ok; try done. rewrite S3. apply (tree_not_list _ _ x H). by left.
  - cbn in Hf. lia.
  - exists td'. split; [done|]. split; [done|]. split; [by rewrite L'; cbn; rewrite S3|]. split; [|intros y Hy; exact (remove_trim_keeps _ x y (T' y Hy))].
    intros y. rewrite P'. unfold piece. cbn [pieces free_piece set_pieces set_tree]. rewrite S2. destruct (decide (y ∈ xs)); [rewrite decide_True by (by right); done|].
    destruct (decide (y = x)) as [->|Hn]; [rewrite decide_True by (by left); by apply lookup_delete_eq|]. rewrite decide_False by (by intros [?|?]%elem_of_cons). by rewrite lookup_delete_ne.
Qed.

Lemma prune_list_spec l td : hist_ok td [] -> io_hist_list td = l ->
  let td' := prune_list l td in hist_ok td' [] /\ io_hist_list td' = [] /\ (forall y, piece td' y = if decide (y ∈ l) then None else piece td y) /\ (forall y, y ∈ trim_list td' -> y ∈ trim_list td).
Proof.
  revert td. induction l as [|x l IH]; intros td H El; cbn [prune_list]; [split; [done|]; split; [done|]; split; [|done]; intros y; by rewrite decide_False by (by intros ?%elem_of_nil)|].
  assert (hist_ok (set_list td l (subw 64 (io_hist_len td) 1)) []) as H1 by (apply (list_take td [] [] x l); try done; apply (ho_trim _ _ H)).
  destruct (untrim_ok _ x _ H1) as [H2 N2]. destruct (ho_list _ _ H) as [Hd _]. rewrite El in Hd. apply list.NoDup_cons in Hd as [Hx Hd].
  assert (set_len (remove_trim_entry (set_list td l (io_hist_len td)) x) (subw 64 (io_hist_len (remove_trim_entry (set_list td l (io_hist_len td)) x)) 1) = remove_trim_entry (set_list td l (subw 64 (io_hist_len td) 1)) x) as E.
  { unfold remove_trim_entry. cbn. by destruct (existsb _ _). }
  rewrite E. destruct (untrim_rest (set_list td l (subw 64 (io_hist_len td) 1)) x) as (S1 & S2 & S3 & S4). set (td2 := remove_trim_entry _ x) in *.
  destruct (IH (free_piece td2 x)) as (H' & L' & P' & T').
  - apply free_ok; try done; [by intros ?%elem_of_nil|by rewrite S3].
  - cbn. by rewrite S3.
  - split; [done|]. split; [done|]. split; [|intros y Hy; exact (remove_trim_keeps _ x y (T' y Hy))].
    intros y. rewrite P'. unfold piece. cbn [pieces free_piece set_pieces set_tree]. rewrite S2. destruct (decide (y ∈ l)); [rewrite decide_True by (by right); done|].
    destruct (decide (y = x)) as [->|Hn]; [rewrite decide_True by (by left); by apply lookup_delete_eq|]. rewrite decide_False by (by intros [?|?]%elem_of_cons). by rewrite lookup_delete_ne.
Qed.

Lemma prune_io_piece_log_spec td xs : hist_ok td xs ->
  exists td', prune_io_piece_log td = Some td' /\ hist_ok td' [] /\ io_hist_list td' = [] /\ io_hist_len td' = 0 /\ forall y, piece td' y = if decide (y ∈ xs ++ io_hist_list td) then None else piece td y.
Proof.
  intros H. destruct (prune_tree_spec _ td xs H (rb_size _ _ (ho_tree _ _ H))) as (td1 & E1 & H1 & L1 & P1 & _). unfold prune_io_piece_log. rewrite E1. cbn [mbind option_bind].
  destruct (prune_list_spec (io_hist_list td1) td1 H1 eq_refl) as (H2 & L2 & P2 & _). eexists. split; [done|]. split; [done|]. split; [done|]. split.
  - destruct (ho_len _ _ H2) as [Hn _]. rewrite L2 in Hn. done.
  - intros y. rewrite P2, P1, L1. repeat case_decide; try done; set_solver.
Qed.

Lemma has_set f g p : Z.land g f = 0 -> has f (with_flags p (Z.lor (ip_flags p) g)) = has f p.
Proof. intros H. unfold has. cbn. by rewrite Z.land_lor_distr_l, H, Z.lor_0_r. Qed.

Lemma trimmed_piece_spec td xs x p z : hist_ok td xs -> piece td x = Some p -> (x ∉ trim_list td) -> x ∈ xs ++ io_hist_list td ->
  exists td', trimmed_piece td x p z = Some td' /\ trim_list td' = trim_list td /\
    if (z : bool) then hist_ok td' xs /\ io_hist_list td' = io_hist_list td /\ piece td' x = Some (with_flags p (Z.lor (ip_flags p) IP_F_TRIMMED))
    else hist_ok td' (remove x xs) /\ io_hist_list td' = remove x (io_hist_list td) /\ piece td' x = None.
Proof.
  intros H Hp Nt Hx. unfold trimmed_piece. destruct z; cbn [negb].
  - eexists. split; [done|]. split; [done|]. split; [|split; [done|by apply lookup_insert_eq]].
    apply (change_ok _ _ _ p); try done; [|by apply has_set|by apply has_set]. cbn. split; [|lia]. destruct (ho_list _ _ H) as [_ L2].
    apply elem_of_app in Hx as [Hx|Hx]; [destruct (ho_piece _ _ H x Hx) as (p' & Ep & F & _)|destruct (L2 x Hx) as (p' & Ep & F & _)]; assert (p' = p) as -> by congruence; apply F.
  - apply elem_of_app in Hx as [Hx|Hx].
    + pose proof (tree_not_list _ _ _ H Hx) as Nl. destruct (ho_piece _ _ H x Hx) as (p' & Ep & _ & Fp & Fl). assert (p' = p) as -> by congruence. apply list_elem_of_split in Hx as (pre & post & ->).
      rewrite Fl, Fp. cbn [c_assert mbind option_bind]. destruct (is_rb_distinct _ _ (ho_tree _ _ H)) as [Hd _]. destruct (is_rb_erase _ _ _ _ (ho_tree _ _ H)) as (t & Et & _). rewrite Et. cbn [mbind option_bind].
      eexists. split; [done|]. split; [done|]. rewrite remove_middle, remove_notin by done. split; [|split; [done|by apply lookup_delete_eq]].
      apply (hist_take td pre x post t); try done; [intros y Hy; by apply lookup_delete_ne|intros y Hy; by apply lookup_delete_ne|by apply (trim_free td _ x (ho_trim _ _ H))].
    + destruct (ho_list _ _ H) as [Hd L2]. destruct (L2 x Hx) as (p' & Ep & _ & F1 & F2). assert (p' = p) as -> by congruence. rewrite F2. cbn [mbind option_bind]. eexists. split; [done|]. split; [done|].
      assert (x ∉ xs) as Nx by (intros Hi; by apply (tree_not_list _ _ _ H Hi)). rewrite (remove_notin x xs) by done. split; [|split; [done|by apply lookup_delete_eq]].
      apply list_elem_of_split in Hx as (pre & post & El). cbn [io_hist_list set_list free_piece set_pieces set_tree set_len]. rewrite El in *. rewrite remove_middle by done.
      apply (list_take td xs pre x post); try done; [intros y Hy; by apply lookup_delete_ne|intros y Hy; by apply lookup_delete_ne|by apply (trim_free td _ x (ho_trim _ _ H))].
Qed.

(** The list of what is to be trimmed gives its first piece; it leaves the history unless
    trimmed blocks are to be verified too. *)
Lemma get_next_trim_spec td xs u z opens x l : hist_ok td xs -> u_file u = 0 -> trim_list td = x :: l -> x ∈ xs ++ io_hist_list td ->
  exists p u' td', piece td x = Some p /\ get_next_trim td u z opens = Some (opens (ip_file p), u', td') /\ (u_file u', u_offset u', u_buflen u') = (ip_file p, ip_offset p, ip_len p) /\ trim_list td' = l /\
    if (z : bool) then hist_ok td' xs /\ io_hist_list td' = io_hist_list td /\ piece td' x = Some (with_flags p (Z.lor (ip_flags p) IP_F_TRIMMED))
    else hist_ok td' (remove x xs) /\ io_hist_list td' = remove x (io_hist_list td) /\ piece td' x = None.
Proof.
  intros H Hu Hl Hx. destruct (ho_trim _ _ H) as (T1 & T2 & T3 & T4). rewrite Hl in T1, T3. destruct (T2 x) as [p Ep]; [rewrite Hl; by left|].
  assert (remove_trim_entry td x = set_trim td l (subw 64 (trim_entries td) 1)) as Et.
  { unfold remove_trim_entry. rewrite Hl. cbn [existsb]. rewrite Z.eqb_refl. cbn [orb]. f_equal. apply (remove_middle x []) in T1. exact T1. }
  destruct (untrim_ok td x xs H) as [H1 N1]. rewrite Et in H1, N1. set (td1 := set_trim td l _) in *.
  destruct (trimmed_piece_spec td1 xs x p z H1 Ep N1 Hx) as (td2 & E2 & L2 & H2).
  unfold get_next_trim. rewrite Hu, Hl. cbn [Z.eqb negb]. assert (c_true (trim_entries td) = true) as -> by (unfold c_true; rewrite T3, zlength_cons; unfold zlength; destruct (Z.eqb_spec (Z.of_nat (length l) + 1) 0); [lia|done]).
  cbn [c_assert mbind option_bind]. rewrite Ep. cbn [mbind option_bind]. rewrite Et. fold td1. rewrite E2. cbn [mbind option_bind u_file].
  destruct (opens (ip_file p)) eqn:Eo; cbn [negb]; eexists p, _, td2; split_and!; try done; cbn; by rewrite ?Eo.
Qed.

(** Verification after the writes: units are filled in until there is nothing left. *)
Fixpoint verify_all (fuel : nat) (td : thread_data) (u : io_u) (opens : Z -> bool) : option (list io_u * thread_data) :=
  let* '(r, u', td') := get_next_verify td u opens in
  if negb (r =? 0) then Some ([], td') else
  match fuel with
  | O => None
  | S fuel => let* '(us, td') := verify_all fuel td' u opens in Some (u' :: us, td')
  end.

Lemma hist_distinct td xs : hist_ok td xs -> NoDup (xs ++ io_hist_list td).
Proof.
  intros H. apply list.NoDup_app. split; [by destruct (is_rb_distinct _ _ (ho_tree _ _ H))|]. split; [intros x; by apply (tree_not_list td)|]. by destruct (ho_list _ _ H).
Qed.

Lemma verify_all_spec n td xs u opens : hist_ok td xs -> length (xs ++ io_hist_list td) = n -> u_file u = 0 -> (forall f, opens f = true) -> (forall x, x ∈ xs ++ io_hist_list td -> has IP_F_IN_FLIGHT (look td x) = false) ->
  exists us td', verify_all n td u opens = Some (us, td') /\ Forall2 verifies us (map (look td) (xs ++ io_hist_list td)) /\ hist_ok td' [] /\ io_hist_list td' = [].
Proof.
  intros H Hn Hu Ho Hc. remember (xs ++ io_hist_list td) as zs eqn:Ez. revert n td xs H Hn Ez Hc. induction zs as [|z zs IH]; intros n td xs H Hn Ez Hc; subst n; cbn [verify_all length];
    pose proof (get_next_verify_spec td xs u opens H Hu) as Hv; rewrite <- Ez in Hv.
  - rewrite Hv. cbn. exists [], td. symmetry in Ez. apply app_eq_nil in Ez as [-> ->]. done.
  - destruct Hv as (p & Ep & Hv). assert (look td z = p) as Lz by (unfold look; by rewrite Ep). pose proof (Hc z ltac:(by left)) as Hf. rewrite Lz in Hf. rewrite Hf in Hv.
    destruct Hv as (u' & td1 & E1 & V1 & _ & H1 & Er & _ & P1). rewrite E1, Ho. cbn [mbind option_bind Z.eqb negb]. injection Er as Er.
    assert (forall y, y ∈ zs -> look td1 y = look td y) as Hl.
    { intros y Hy. apply look_agree, P1. intros ->. pose proof (hist_distinct _ _ H) as Hd. rewrite <- Ez in Hd. by apply list.NoDup_cons in Hd as [Hd _]. }
    destruct (IH (length zs) td1 (tail xs) H1) as (us & td' & -> & Hus & H'); [done|done|intros y Hy; rewrite Hl by done; apply Hc; by right|].
    exists (u' :: us), td'. split; [done|]. split; [|done]. cbn. constructor; [by rewrite Lz|]. by rewrite <- (map_ext_in _ _ _ (fun y Hy => Hl y (proj2 (list_elem_of_In _ _) Hy))).
Qed.

(** C24: the history of writes keeps its pieces in order and without overlaps, the last one
    logged in the stead of the earlier ones.  From a history whose tree holds the pieces [xs],
    a new write takes its place in the order and removes exactly the pieces it overlaps, or
    goes to the end of the list when offsets cannot repeat; the first piece is not given out
    while its write is in flight; once the writes have completed, verification is given every
    piece, in order, and then ends; and [prune_io_piece_log] frees them all.  No operation
    touches memory that is not there. *)
Theorem write_history td xs : hist_ok td xs ->
  (forall u x b risk, unused td x -> room td -> fits (piece_of u) -> exists td', log_io_piece td u x b risk = Some (td', set_ipo u x) /\ logged td xs u x risk td') /\
  (forall u opens x rest, u_file u = 0 -> xs ++ io_hist_list td = x :: rest -> has IP_F_IN_FLIGHT (look td x) = true -> get_next_verify td u opens = Some (1, u, td)) /\
  (forall x p, piece td x = Some p -> fits p -> exists td' q, piece_completed td x = Some td' /\ hist_ok td' xs /\ piece td' x = Some q /\ has IP_F_IN_FLIGHT q = false /\ io_hist_list td' = io_hist_list td) /\
  (forall u opens, u_file u = 0 -> (forall f, opens f = true) -> (forall x, x ∈ xs ++ io_hist_list td -> has IP_F_IN_FLIGHT (look td x) = false) ->
    exists us td', verify_all (length (xs ++ io_hist_list td)) td u opens = Some (us, td') /\ Forall2 verifies us (map (look td) (xs ++ io_hist_list td)) /\ hist_ok td' [] /\ io_hist_list td' = []) /\
  exists td', prune_io_piece_log td = Some td' /\ io_hist_len td' = 0 /\ forall y, piece td' y = if decide (y ∈ xs ++ io_hist_list td) then None else piece td y.
Proof.
  intros H. split; [intros u x b risk; by apply log_io_piece_spec|]. split; [|split; [intros x p; by apply piece_completed_spec|split; [intros u opens Hu Ho Hc; by apply verify_all_spec|]]].
  - intros u opens x rest Hu El Hf. pose proof (get_next_verify_spec td xs u opens H Hu) as Hv. rewrite El in Hv. destruct Hv as (p & Ep & Hv). unfold look in Hf. rewrite Ep in Hf. cbn in Hf. by rewrite Hf in Hv.
  - destruct (prune_io_piece_log_spec td xs H) as (td' & E & _ & _ & Hl & Hp). by exists td'.
Qed.

(** Three writes of ten bytes at 0, 10 and 30, and one of 20 bytes at 15. *)
Definition a_piece (offset flags : Z) : io_piece := mk_ipo 100 offset 10 1 flags.
Definition three_writes : thread_data :=
  mk_td three (<[8 := a_piece 0 IP_F_ONRB]> (<[16 := a_piece 10 IP_F_ONRB]> (<[24 := a_piece 30 IP_F_ONRB]> ∅))) [] 3 [] 0 [].
Definition a_write (offset len : Z) : io_u := mk_io_u 100 offset offset len len 1 false false 0 0.
Definition no_unit : io_u := mk_io_u 0 0 0 0 0 0 false false 0 0.

Lemma three_writes_ok : hist_ok three_writes [8; 16; 24].
Proof.
  constructor.
  - apply three_is_rb.
  - repeat first [apply SSorted_cons|apply SSorted_nil|apply List.Forall_cons|apply List.Forall_nil]; right; by vm_compute.
  - intros x Hx. repeat (apply elem_of_cons in Hx as [->|Hx]); [| | |by apply elem_of_nil in Hx]; (eexists; split; [by vm_compute|]); by vm_compute.
  - split; [constructor|]. by intros x ?%elem_of_nil.
  - done.
  - split; [constructor|]. split; [by intros x ?%elem_of_nil|done].
Qed.

Lemma write_history_witness :
  (exists td', log_io_piece three_writes (a_write 15 20) 40 false true = Some (td', set_ipo (a_write 15 20) 40) /\ logged three_writes [8; 16; 24] (a_write 15 20) 40 true td') /\
  with_piece three_writes [8; 16; 24] 40 (piece_of (a_write 15 20)) = [8; 40] /\
  exists us td', verify_all 3 three_writes no_unit (fun _ => true) = Some (us, td') /\ map u_offset us = [0; 10; 30].
Proof.
  destruct (write_history three_writes [8; 16; 24] three_writes_ok) as (Hlog & _ & _ & Hv & _). split; [|split; [by vm_compute|]].
  - apply Hlog; by repeat constructor.
  - destruct (Hv no_unit (fun _ => true)) as (us & td' & E & Hus & _); [done|done| |].
    + intros x Hx. repeat (apply elem_of_cons in Hx as [->|Hx]); [by vm_compute|by vm_compute|by vm_compute|by apply elem_of_nil in Hx].
    + exists us, td'. split; [done|]. clear - Hus. cbn in Hus. repeat (apply Forall2_cons_inv_r in Hus as (? & ? & [= _ ? _ _ _ _] & Hus & ->)). apply Forall2_nil_inv_r in Hus as ->. cbn [map]. rewrite H0, H1, H2. by vm_compute.
Defined.

(** An overlapped piece whose write is in flight keeps [IP_F_ONRB] although it is not in the
    tree; if that write fails, [unlog_io_piece] erases it once more: the tree is empty and the
    piece that replaced it is never verified. *)
Definition no_writes : thread_data := mk_td (mk_root ∅ 0) ∅ [] 0 [] 0 [].

Example unlog_erases_twice :
  (let* '(td, a) := log_io_piece no_writes (a_write 0 10) 8 false true in
   let* '(td, b) := log_io_piece td (a_write 5 3) 16 false true in
   let* '(td, a) := unlog_io_piece td a DDIR_WRITE 0 512 in
   Some (rb_node (io_hist_tree td), map fst (map_to_list (pieces td)), io_hist_len td)) = Some (0, [16], 0).
Proof. by vm_compute. Qed.

(** A piece that is to be trimmed stays on that list when its write fails, and has been freed
    when it is its turn. *)
Example unlog_leaves_trim_entry :
  (let* '(td, a) := log_io_piece no_writes (a_write 0 10) 8 true true in
   let* '(td, a) := unlog_io_piece td a DDIR_WRITE 0 512 in
   Some (trim_list td, trim_entries td, piece td 8, get_next_trim td no_unit false (fun _ => true))) = Some ([8], 1, None, None).
Proof. by vm_compute. Qed.
