(* ===== verification/Zbd.v ===== *)
(** zbd.c: jobs on zoned block devices, whose zones are written in order. *)
From S2P Require Import Prelude Bits.
Local Open Scope word_scope.

(** * Data

    One job and its file.  The mutex of a zone is recursive: [locks] counts how often the
    job holds it; [locked] says whether it holds the mutex of the device, which is not. *)

Inductive zbd_zoned_model : Type := ZBD_NONE | ZBD_HOST_AWARE | ZBD_HOST_MANAGED.
Inductive fio_ddir : Type := DDIR_READ | DDIR_WRITE | DDIR_TRIM | DDIR_OTHER.
Inductive io_u_action : Type := io_u_accept | io_u_eof | io_u_completed.

Definition ZBD_ZONE_COND_OFFLINE : Z := 15.
Definition ZBD_MAX_WRITE_ZONES : Z := 4096.
Definition UINT_MAX : Z := 2 ^ 32 - 1.

Record fio_zone_info : Type := mk_zone {
  start : Z; wp : Z; capacity : Z; writes_in_flight : Z; max_write_error_offset : Z; cond : Z;
  has_wp : bool; write : bool; reset_zone : bool; fixing_zone_wp : bool; locks : nat }.

Record zoned_block_device_info : Type := mk_info {
  model : zbd_zoned_model; max_write_zones : Z; zone_size : Z; wp_valid_data_bytes : Z; zone_size_log2 : Z; nr_zones : Z;
  num_write_zones : Z; write_cnt : Z; write_zones : list Z; zone_info : list fio_zone_info; locked : bool }.

Record fio_file : Type := mk_file { file_offset : Z; io_size : Z; real_file_size : Z; min_zone : Z; max_zone : Z }.

(** [zrf] is the number of writes between two resets, if there is a frequency of resets, and
    [zrt] whether so many valid bytes reach the threshold, if there is one. *)
Record options : Type := mk_options {
  min_bs : fio_ddir -> Z; verify : bool; job_max_open_zones : Z; td_random : bool; td_write : bool; td_rw : bool; read_beyond_wp : bool;
  zrf : option Z; zrt : option (Z -> bool); rwmix_write : Z; recover_zbd_write_error : bool; sync_engine : bool }.

(** [u_held]: the callbacks [zbd_queue_io] and [zbd_put_io] of the unit are set. *)
Record io_u : Type := mk_io_u { u_ddir : fio_ddir; u_offset : Z; u_buflen : Z; u_error : bool; u_held : bool }.

(** What the job asks of the device. *)
Inductive command : Type := Reset (zone : Z) | Finish (zone : Z) | Write (offset len : Z).

(** [flying] are the units that are queued or in flight, [commands] the commands for
    sequential zones so far, the last one first. *)
Record state : Type := mk_state { zbd_info : zoned_block_device_info; td_num_write_zones : Z; nr_zone_resets : Z; flying : list io_u; commands : list command }.

Implicit Types (s : state) (z : fio_zone_info) (u : io_u) (i : Z).

(** ** Changes of one field *)

Definition set_zi (s : state) (x : zoned_block_device_info) : state := mk_state x (td_num_write_zones s) (nr_zone_resets s) (flying s) (commands s).
Definition set_td (s : state) (n : Z) : state := mk_state (zbd_info s) n (nr_zone_resets s) (flying s) (commands s).
Definition set_resets (s : state) (n : Z) : state := mk_state (zbd_info s) (td_num_write_zones s) n (flying s) (commands s).
Definition set_flying (s : state) (l : list io_u) : state := mk_state (zbd_info s) (td_num_write_zones s) (nr_zone_resets s) l (commands s).
Definition issue (s : state) (c : command) : state := mk_state (zbd_info s) (td_num_write_zones s) (nr_zone_resets s) (flying s) (c :: commands s).

Definition set_info (b : zoned_block_device_info) (vdb num cnt : Z) (wz : list Z) (zs : list fio_zone_info) (lk : bool) : zoned_block_device_info :=
  mk_info (model b) (max_write_zones b) (zone_size b) vdb (zone_size_log2 b) (nr_zones b) num cnt wz zs lk.
Definition set_zones (s : state) (zs : list fio_zone_info) : state :=
  let b := zbd_info s in set_zi s (set_info b (wp_valid_data_bytes b) (num_write_zones b) (write_cnt b) (write_zones b) zs (locked b)).
Definition set_targets (s : state) (num : Z) (wz : list Z) : state :=
  let b := zbd_info s in set_zi s (set_info b (wp_valid_data_bytes b) num (write_cnt b) wz (zone_info b) (locked b)).
Definition set_vdb (s : state) (n : Z) : state :=
  let b := zbd_info s in set_zi s (set_info b n (num_write_zones b) (write_cnt b) (write_zones b) (zone_info b) (locked b)).
Definition set_cnt (s : state) (n : Z) : state :=
  let b := zbd_info s in set_zi s (set_info b (wp_valid_data_bytes b) (num_write_zones b) n (write_zones b) (zone_info b) (locked b)).
Definition set_locked (s : state) (x : bool) : state :=
  let b := zbd_info s in set_zi s (set_info b (wp_valid_data_bytes b) (num_write_zones b) (write_cnt b) (write_zones b) (zone_info b) x).

Definition with_wp z (x : Z) : fio_zone_info := mk_zone (start z) x (capacity z) (writes_in_flight z) (max_write_error_offset z) (cond z) (has_wp z) (write z) (reset_zone z) (fixing_zone_wp z) (locks z).
Definition with_flight z (x : Z) : fio_zone_info := mk_zone (start z) (wp z) (capacity z) x (max_write_error_offset z) (cond z) (has_wp z) (write z) (reset_zone z) (fixing_zone_wp z) (locks z).
Definition with_write z (x : bool) : fio_zone_info := mk_zone (start z) (wp z) (capacity z) (writes_in_flight z) (max_write_error_offset z) (cond z) (has_wp z) x (reset_zone z) (fixing_zone_wp z) (locks z).
Definition with_reset z (x : bool) : fio_zone_info := mk_zone (start z) (wp z) (capacity z) (writes_in_flight z) (max_write_error_offset z) (cond z) (has_wp z) (write z) x (fixing_zone_wp z) (locks z).
Definition with_fixing z (x : bool) (m : Z) : fio_zone_info := mk_zone (start z) (wp z) (capacity z) (writes_in_flight z) m (cond z) (has_wp z) (write z) (reset_zone z) x (locks z).
Definition with_locks z (n : nat) : fio_zone_info := mk_zone (start z) (wp z) (capacity z) (writes_in_flight z) (max_write_error_offset z) (cond z) (has_wp z) (write z) (reset_zone z) (fixing_zone_wp z) n.

Definition place u (offset buflen : Z) : io_u := mk_io_u (u_ddir u) offset buflen (u_error u) (u_held u).
Definition hold u (x : bool) : io_u := mk_io_u (u_ddir u) (u_offset u) (u_buflen u) (u_error u) x.

(** ** Zones *)

Definition zone s i : option fio_zone_info := arr_get (zone_info (zbd_info s)) i.
Definition update s i (g : fio_zone_info -> fio_zone_info) : option state :=
  let* z := zone s i in let* zs := arr_set (zone_info (zbd_info s)) i (g z) in Some (set_zones s zs).

(** The mutex of the device. *)
Definition lock_info s : option state := let* _ := c_assert (negb (locked (zbd_info s))) in Some (set_locked s true).
Definition unlock_info s : option state := let* _ := c_assert (locked (zbd_info s)) in Some (set_locked s false).

Definition zbd_zone_end s i : option Z := let* z := zone s (i + 1) in Some (start z).
Definition zbd_zone_capacity_end z : Z := addw 64 (start z) (capacity z).
Definition zbd_zone_remainder z : Z := if zbd_zone_capacity_end z <=? wp z then 0 else subw 64 (zbd_zone_capacity_end z) (wp z).

Definition zbd_zone_full z (required : Z) : option bool :=
  let* _ := c_assert (required & 511 =? 0) in Some (has_wp z && (zbd_zone_remainder z <? required)).

Definition zbd_offset_to_zone_idx (b : zoned_block_device_info) (offset : Z) : option Z :=
  let* zone_idx :=
    if 0 <? zone_size_log2 b then Some (wrap 32 (Z.shiftr offset (zone_size_log2 b)))
    else let* _ := c_assert (negb (zone_size b =? 0)) in Some (wrap 32 (offset / zone_size b)) in
  Some (Z.min zone_idx (nr_zones b)).

(** *** Reports *)

(** What the device says of a zone. *)
Inductive zbd_zone_type : Type := ZBD_ZONE_TYPE_CNV | ZBD_ZONE_TYPE_SWR | ZBD_ZONE_TYPE_SWP.
Definition ZBD_ZONE_COND_NOT_WP : Z := 0.
Definition ZBD_ZONE_COND_IMP_OPEN : Z := 2.
Definition ZBD_ZONE_COND_EXP_OPEN : Z := 3.
Definition ZBD_ZONE_COND_CLOSED : Z := 4.
Definition ZBD_ZONE_COND_FULL : Z := 14.
Definition ZBD_REPORT_MAX_ZONES : Z := 8192.
Record zbd_zone : Type := mk_zbd_zone { r_start : Z; r_wp : Z; r_len : Z; r_capacity : Z; r_type : zbd_zone_type; r_cond : Z }.

(** [report] is what the device answers when it is asked for up to so many zones from an offset
    on: an error, which is negative, or the zones. *)
Definition zbd_report_zones (report : Z -> Z -> Z + list zbd_zone) (offset n : Z) : Z + list zbd_zone :=
  match report offset n with inr [] => inl (-5) | r => r end.

(** What the kernel makes of a reset or a finish: [fd] is the file's descriptor, negative if
    it is not open, [open_file] that of the file opened again or the error, and [ioctl] the
    error of the request for so many sectors from one on, if it fails. *)
Definition ENOTTY : Z := 25.
Definition blkzoned_request (open_file : Z + Z) (ioctl : Z -> Z -> Z -> option Z) (fd offset length : Z) : Z + option Z :=
  match (if fd <? 0 then open_file else inr fd) with
  | inl errno => inl (- errno)
  | inr fd => inr (ioctl fd (Z.shiftr offset 9) (Z.shiftr length 9))
  end.
Definition blkzoned_reset_wp (fd : Z) (open_file : Z + Z) (ioctl : Z -> Z -> Z -> option Z) (offset length : Z) : Z :=
  match blkzoned_request open_file ioctl fd offset length with inl ret => ret | inr None => 0 | inr (Some errno) => - errno end.
Definition blkzoned_finish_zone (fd : Z) (open_file : Z + Z) (ioctl : Z -> Z -> Z -> option Z) (offset length : Z) : Z :=
  match blkzoned_request open_file ioctl fd offset length with
  | inl ret => ret
  | inr None => 0
  | inr (Some errno) => let ret := - errno in if ret =? ENOTTY then 0 else ret
  end.

Section Zbd.

(** The job's options and file; what the device answers to a reset or a finish of the zone at
    an offset (negative: failed), to a request for a report, and to a request to write zeroes
    or data at the write pointer (zero: done); the order in which units in flight complete. *)
Context (o : options) (f : fio_file) (reset_wp finish_wp : Z -> Z -> Z) (report : Z -> Z -> Z + list zbd_zone) (move_wp : Z -> Z -> Z) (completion : list io_u -> list io_u).

(** * Operations *)

Definition is_valid_offset (offset : Z) : bool := subw 64 offset (file_offset f) <? io_size f.

Definition zone_lock s i : option state :=
  let* z := zone s i in
  let* _ := c_assert ((min_zone f <=? i) && (i <? max_zone f)) in
  let* _ := c_assert (has_wp z) in
  update s i (fun z => with_locks z (S (locks z))).

Definition zone_unlock s i : option state :=
  let* z := zone s i in
  let* _ := c_assert (has_wp z) in
  let* _ := c_assert (negb (Nat.eqb (locks z) 0)) in
  update s i (fun z => with_locks z (pred (locks z))).

Definition accounting_vdb : bool := match zrt o with Some _ => td_write o | None => false end.

Definition zoned s : bool := match model (zbd_info s) with ZBD_NONE => false | _ => true end.

(** The answer is what the function returns. *)
Definition __zbd_reset_zone s i : option (Z * state) :=
  let* z := zone s i in
  let* next := zbd_zone_end s i in
  let offset := start z in
  let length := subw 64 next offset in
  let data_in_zone := subw 64 (wp z) (start z) in
  if data_in_zone =? 0 then Some (0, s) else
  let* _ := c_assert (is_valid_offset (subw 64 (addw 64 offset length) 1)) in
  let '(ret, s) := if zoned s then (reset_wp offset length, if 0 <=? reset_wp offset length then issue s (Reset offset) else s) else (0, s) in
  if ret <? 0 then Some (ret, s) else
  let* s :=
    if accounting_vdb then
      let* s := lock_info s in unlock_info (set_vdb s (subw 64 (wp_valid_data_bytes (zbd_info s)) data_in_zone))
    else Some s in
  let* s := update s i (fun z => with_wp z (start z)) in
  Some (ret, set_resets s (addw 64 (nr_zone_resets s) 1)).

(** The place of zone [i] in the first [n] of [l]. *)
Fixpoint target_index (l : list Z) (n : nat) i (zi : Z) : Z :=
  match n, l with
  | S n, x :: l => if x =? i then zi else target_index l n i (zi + 1)
  | _, _ => zi
  end.

Definition zbd_write_zone_put s i : option state :=
  let* z := zone s i in
  if negb (write z) then Some s else
  let wz := write_zones (zbd_info s) in
  let num := num_write_zones (zbd_info s) in
  let zi := target_index wz (Z.to_nat num) i 0 in
  if zi =? num then Some s else
  let wz := take (Z.to_nat zi) wz ++ drop (Z.to_nat zi + 1) wz ++ drop (Z.to_nat ZBD_MAX_WRITE_ZONES - 1) wz in
  let s := set_td (set_targets s (subw 32 num 1) wz) (subw 32 (td_num_write_zones s) 1) in
  update s i (fun z => with_write z false).

Definition zbd_write_zone_put_locked s i : option state :=
  let* s := lock_info s in let* s := zbd_write_zone_put s i in unlock_info s.

Definition zbd_reset_zone s i : option (Z * state) :=
  let* '(ret, s) := __zbd_reset_zone s i in
  if negb (ret =? 0) then Some (ret, s) else
  let* s := zbd_write_zone_put_locked s i in Some (0, s).

Definition zbd_finish_zone s i : option (Z * state) :=
  let* z := zone s i in
  let* next := zbd_zone_end s i in
  let offset := start z in
  let length := zone_size (zbd_info s) in
  let '(ret, s) := if zoned s then (finish_wp offset length, if 0 <=? finish_wp offset length then issue s (Finish offset) else s) else (0, s) in
  if ret <? 0 then Some (ret, s) else
  let* s := update s i (fun z => with_wp z next) in Some (ret, s).

(** The loop of [zbd_reset_zones] over [n] zones from [i] on. *)
Fixpoint reset_loop (n : nat) s i (res : Z) : option (Z * state) :=
  match n with
  | O => Some (res, s)
  | S n =>
      let* z := zone s i in
      if negb (has_wp z) then reset_loop n s (i + 1) res else
      let* s := zone_lock s i in
      let* '(res, s) :=
        if negb (wp z =? start z) then let* '(ret, s) := zbd_reset_zone s i in Some (if ret <? 0 then 1 else res, s)
        else Some (res, s) in
      let* s := zone_unlock s i in
      reset_loop n s (i + 1) res
  end.

Definition zbd_reset_zones s (zb ze : Z) : option (Z * state) :=
  if min_bs o DDIR_WRITE =? 0 then Some (1, s) else reset_loop (Z.to_nat (ze - zb)) s zb 0.

Definition __zbd_write_zone_get s i : option (bool * state) :=
  let* z := zone s i in
  if cond z =? ZBD_ZONE_COND_OFFLINE then Some (false, s)
  else if verify o && (zbd_zone_remainder z =? 0) then Some (false, s)
  else if max_write_zones (zbd_info s) =? 0 then Some (true, s) else
  let* s := lock_info s in
  let num := num_write_zones (zbd_info s) in
  let* '(res, s) :=
    if write z then Some (negb (zbd_zone_remainder z =? 0), s)
    else if (0 <? job_max_open_zones o) && (job_max_open_zones o <=? td_num_write_zones s) then Some (false, s)
    else if max_write_zones (zbd_info s) <=? num then Some (false, s)
    else
      let* wz := arr_set (write_zones (zbd_info s)) num i in
      let s := set_td (set_targets s (addw 32 num 1) wz) (addw 32 (td_num_write_zones s) 1) in
      let* s := update s i (fun z => with_write z true) in
      Some (true, s) in
  let* s := unlock_info s in
  Some (res, s).

Definition zbd_write_zone_get s i : option (bool * state) :=
  let* z := zone s i in
  let* full := if verify o then zbd_zone_full z (min_bs o DDIR_WRITE) else Some false in
  if (full : bool) then Some (false, s) else __zbd_write_zone_get s i.

Definition _zbd_reset_write_cnt s : state := set_cnt s (match zrf o with Some n => n | None => UINT_MAX end).
Definition zbd_reset_write_cnt s : option state := let* s := lock_info s in unlock_info (_zbd_reset_write_cnt s).

Definition zbd_dec_and_reset_write_cnt s : option (bool * state) :=
  let* s := lock_info s in
  let* _ := c_assert (c_true (write_cnt (zbd_info s))) in
  let cnt := write_cnt (zbd_info s) - 1 in
  let s := set_cnt s cnt in
  let s := if cnt =? 0 then _zbd_reset_write_cnt s else s in
  let* s := unlock_info s in
  Some (cnt =? 0, s).

(** [data_left] says whether there are data to be verified or that verification runs. *)
Definition zbd_file_reset s (data_left : bool) : option state :=
  if negb (td_write o) then Some s else
  let* s :=
    if verify o && negb data_left then let* '(_, s) := zbd_reset_zones s (min_zone f) (max_zone f) in Some s
    else Some s in
  zbd_reset_write_cnt s.

(** *** The end of a unit *)

Definition zbd_end_zone_io s u i : option state :=
  let* z := zone s i in
  match u_ddir u with
  | DDIR_WRITE => if zbd_zone_capacity_end z <=? addw 64 (u_offset u) (u_buflen u) then zbd_write_zone_put_locked s i else Some s
  | _ => Some s
  end.

(** The unit is no longer in flight in its zone. *)
Definition zone_done s u i : option state :=
  match u_ddir u with
  | DDIR_WRITE =>
      update s i (fun z =>
        let n := subw 32 (writes_in_flight z) 1 in
        let z := with_flight z n in if (n =? 0) && fixing_zone_wp z then with_fixing z false (max_write_error_offset z) else z)
  | _ => Some s
  end.

Definition zbd_put_io s u : option state :=
  let* i := zbd_offset_to_zone_idx (zbd_info s) (u_offset u) in
  let* z := zone s i in
  let* _ := c_assert (has_wp z) in
  let* s := zbd_end_zone_io s u i in
  let* s := zone_done s u i in
  zone_unlock s i.

Definition zbd_put_io_u s u : option state := if u_held u then zbd_put_io s u else Some s.

Fixpoint put_all (l : list io_u) s : option state :=
  match l with [] => Some s | u :: l => let* s := zbd_put_io_u s u in put_all l s end.

(** Waits until nothing is in flight. *)
Definition io_u_quiesce s : option state := put_all (completion (flying s)) (set_flying s []).

Inductive fio_q_status : Type := FIO_Q_COMPLETED | FIO_Q_QUEUED | FIO_Q_BUSY.

(** [None] inside: nothing is written; else what is written to move the write pointer. *)
Definition zbd_recover_write_error s u : option (option (Z * Z) * state) :=
  let* i := zbd_offset_to_zone_idx (zbd_info s) (u_offset u) in
  let* z := zone s i in
  if negb (has_wp z) then Some (None, s) else
  let write_end_offset := subw 64 (addw 64 (u_offset u) (u_buflen u)) (start z) in
  let* _ := c_assert (c_true (writes_in_flight z)) in
  let most := if max_write_error_offset z <? write_end_offset then wrap 32 write_end_offset else max_write_error_offset z in
  let* s := update s i (fun z => with_fixing z true most) in
  if 1 <? writes_in_flight z then Some (None, s) else
  match zbd_report_zones report (start z) 1 with
  | inr [r] =>
      let retry_end := addw 64 (start z) most in
      if (r_wp r <? start z) || (retry_end <? r_wp r) then Some (None, s) else
      let retry := (r_wp r, subw 64 retry_end (r_wp r)) in
      if zoned s && negb (move_wp (r_wp r) (snd retry) =? 0) then Some (None, s) else
      let* s := update s i (fun z => with_wp z (addw 64 (r_wp r) (snd retry))) in
      Some (Some retry, s)
  | _ => Some (None, s)
  end.

(** The engine has been given the unit and answered [q]. *)
Definition zbd_queue_io s u (q : fio_q_status) : option (io_u * state) :=
  let* i := zbd_offset_to_zone_idx (zbd_info s) (u_offset u) in
  let* z := zone s i in
  let* _ := c_assert (has_wp z) in
  let success := negb (u_error u) in
  let* s :=
    if negb success && recover_zbd_write_error o && sync_engine o && match u_ddir u, q with DDIR_WRITE, FIO_Q_COMPLETED => true | _, _ => false end then
      let* '(_, s) := zbd_recover_write_error s u in Some s
    else Some s in
  let* s :=
    if success then
      let* s :=
        match u_ddir u with
        | DDIR_WRITE =>
            let zone_end := Z.min (addw 64 (u_offset u) (u_buflen u)) (zbd_zone_capacity_end z) in
            let* s :=
              if accounting_vdb && (wp z <=? zone_end) then
                let* s := lock_info s in unlock_info (set_vdb s (addw 64 (wp_valid_data_bytes (zbd_info s)) (subw 64 zone_end (wp z))))
              else Some s in
            update s i (fun z => with_wp z zone_end)
        | _ => Some s
        end in
      match q with FIO_Q_COMPLETED => zbd_end_zone_io s u i | _ => Some s end
    else Some s in
  if negb success || match q with FIO_Q_QUEUED => false | _ => true end then
    let* s := zone_done s u i in let* s := zone_unlock s i in Some (hold u false, s)
  else Some (u, s).

Definition zbd_queue_io_u s u (q : fio_q_status) : option (io_u * state) :=
  if u_held u then zbd_queue_io s u q else Some (u, s).

(** *** The choice of a zone to write to *)

(** C's [unsigned long long] arithmetic, kept in 32 bits. *)
Definition pick_random_zone_idx s u : option Z :=
  let* _ := c_assert (negb (io_size f =? 0)) in
  Some (wrap 32 (mulw 64 (subw 64 (u_offset u) (file_offset f)) (num_write_zones (zbd_info s)) / io_size f)).

Fixpoint pick_loop (n : nat) s (write_zone_idx : Z) : option (option Z) :=
  match n with
  | O => Some None
  | S n =>
      let k := if num_write_zones (zbd_info s) <=? write_zone_idx then 0 else write_zone_idx in
      let* cur := arr_get (write_zones (zbd_info s)) k in
      if (min_zone f <=? cur) && (cur <? max_zone f) then Some (Some cur) else pick_loop n s (k + 1)
  end.

Definition zbd_pick_write_zone s u : option (option Z) :=
  let* k := pick_random_zone_idx s u in
  let* _ := c_assert ((k =? 0) || (k <? num_write_zones (zbd_info s))) in
  pick_loop (Z.to_nat (num_write_zones (zbd_info s))) s k.

(** What a part of [zbd_convert_to_write_zone] comes to: a zone, held, or none, or to go on
    with zone [i]. *)
Inductive found : Type := zone_found (i : Z) | no_zone | go_on (i : Z).

(** Up to the loop that looks for a write target. *)
Fixpoint next_seq_zone (fuel : nat) s i : option Z :=
  let i := if max_zone f <=? i + 1 then min_zone f else i + 1 in
  let* z := zone s i in
  if has_wp z then Some i else match fuel with O => None | S fuel => next_seq_zone fuel s i end.

Definition finish_remainder s i : option (found * state) :=
  let* z := zone s i in
  if (0 <? zbd_zone_remainder z) && (zbd_zone_remainder z <? min_bs o DDIR_WRITE) then
    let* s := zbd_write_zone_put_locked s i in
    let* s := io_u_quiesce s in
    let* '(_, s) := zbd_finish_zone s i in
    let* s := zone_unlock s i in
    if (max_zone f <=? i + 1) && negb (td_random o) then Some (no_zone, s) else
    let* i := next_seq_zone (Z.to_nat (nr_zones (zbd_info s))) s i in
    let* s := zone_lock s i in
    Some (go_on i, s)
  else Some (go_on i, s).

Definition first_target s u : option Z :=
  let* i :=
    if c_true (max_write_zones (zbd_info s)) || c_true (job_max_open_zones o) then
      let* k := pick_random_zone_idx s u in arr_get (write_zones (zbd_info s)) k
    else zbd_offset_to_zone_idx (zbd_info s) (u_offset u) in
  Some (if i <? min_zone f then min_zone f else if max_zone f <=? i then max_zone f - 1 else i).

(** A turn of the loop, which goes on with [again]; a zone to go on with at
    [choose_other_zone] is held, and the mutex of the device too. *)
Definition target_turn s u i (again : state -> Z -> option (found * state)) : option (found * state) :=
  let* z := zone s i in
  let* s := if has_wp z then zone_lock s i else Some s in
  let* s := lock_info s in
  let b := zbd_info s in
  let examine :=
    if min_bs o DDIR_WRITE <=? zbd_zone_remainder z then let* s := unlock_info s in Some (zone_found i, s) else Some (go_on i, s) in
  let unlimited := (max_write_zones b =? 0) && (job_max_open_zones o =? 0) in
  if has_wp z && negb (cond z =? ZBD_ZONE_COND_OFFLINE) && unlimited then examine
  else if has_wp z && (num_write_zones b =? 0) then Some (go_on i, s)
  else
    let* pick := zbd_pick_write_zone s u in
    if match pick with Some i' => i' =? i | None => false end then examine else
    let* s := unlock_info s in
    let* s := if has_wp z then zone_unlock s i else Some s in
    match pick with None => Some (no_zone, s) | Some i' => again s i' end.

Fixpoint target_loop (fuel : nat) s u i : option (found * state) :=
  target_turn s u i (fun s i => match fuel with O => None | S fuel => target_loop fuel s u i end).

(** At [choose_other_zone]. *)
Definition wait_zone_write s : bool :=
  let b := zbd_info s in
  (num_write_zones b =? subw 32 (max_zone f) (min_zone f)) || (c_true (max_write_zones b) && (num_write_zones b =? max_write_zones b)) ||
  (c_true (job_max_open_zones o) && (td_num_write_zones s =? job_max_open_zones o)).

(** The search of the zones behind [i], which is held if it has a write pointer. *)
Fixpoint scan_zones (n : nat) s i : option (found * state) :=
  match n with
  | O => Some (go_on i, s)
  | S n =>
      let* z := zone s i in
      let* s := if has_wp z then zone_unlock s i else Some s in
      let* next := zone s (i + 1) in
      let i := if is_valid_offset (start next) then i + 1 else min_zone f in
      let* z := zone s i in
      let* _ := c_assert (is_valid_offset (start z)) in
      if negb (has_wp z) then scan_zones n s i else
      let* s := zone_lock s i in
      if write z then scan_zones n s i else
      let* '(got, s) := zbd_write_zone_get s i in
      if (got : bool) then Some (zone_found i, s) else scan_zones n s i
  end.

(** The search of the write targets from the [k]th on; zone [i] and the device are held. *)
Fixpoint scan_targets (n : nat) (k : Z) s i : option (found * state) :=
  match n with
  | O => Some (go_on i, s)
  | S n =>
      let* t := arr_get (write_zones (zbd_info s)) k in
      if (t <? min_zone f) || (max_zone f <=? t) then scan_targets n (k + 1) s i else
      let* s := unlock_info s in
      let* s := zone_unlock s i in
      let* s := zone_lock s t in
      let* z := zone s t in
      if min_bs o DDIR_WRITE <=? zbd_zone_remainder z then Some (zone_found t, s)
      else let* s := lock_info s in scan_targets n (k + 1) s t
  end.

(** All targets are too full: one of them is finished. *)
Definition finish_target s u i : option (found * state) :=
  let* pick :=
    if td_random o && negb (verify o) then zbd_pick_write_zone s u else Some None in
  match pick with
  | Some t =>
      let* s := unlock_info s in
      let* s := zone_unlock s i in
      let* s := zone_lock s t in
      let* s := io_u_quiesce s in
      let* '(_, s) := zbd_finish_zone s t in
      Some (zone_found t, s)
  | None => let* s := unlock_info s in let* s := zone_unlock s i in Some (no_zone, s)
  end.

(** From [retry]: once more as long as units are in flight, and once after that. *)
Fixpoint choose_other_zone (fuel : nat) (should_retry : bool) s u i : option (found * state) :=
  let* '(r, s) := scan_zones (Z.to_nat (io_size f / zone_size (zbd_info s))) s i in
  match r with
  | go_on i =>
      let* s := lock_info s in
      let* '(r, s) := scan_targets (Z.to_nat (num_write_zones (zbd_info s))) 0 s i in
      match r with
      | go_on i =>
          let in_flight := match flying s with [] => false | _ => true end in
          if in_flight || should_retry then
            let* s := unlock_info s in
            let* s := zone_unlock s i in
            let* s := io_u_quiesce s in
            let* s := zone_lock s i in
            match fuel with O => None | S fuel => choose_other_zone fuel in_flight s u i end
          else finish_target s u i
      | _ => Some (r, s)
      end
  | _ => Some (r, s)
  end.

(** The zone, held, and the unit, which begins there. *)
Definition zbd_convert_to_write_zone s u i : option (option Z * io_u * state) :=
  let* _ := c_assert (is_valid_offset (u_offset u)) in
  let out s i :=
    let* z := zone s i in
    let* _ := c_assert (has_wp z) in
    let* _ := c_assert (negb (cond z =? ZBD_ZONE_COND_OFFLINE)) in
    Some (Some i, place u (start z) (u_buflen u), s) in
  let* '(r, s) := finish_remainder s i in
  match r with
  | go_on i =>
      let* '(got, s) := zbd_write_zone_get s i in
      if (got : bool) then Some (Some i, u, s) else
      let* s := zone_unlock s i in
      let* t := first_target s u in
      let* '(r, s) := target_loop 2 s u t in
      match r with
      | no_zone => Some (None, u, s)
      | zone_found t => out s t
      | go_on t =>
          let wait := wait_zone_write s in
          let* s := unlock_info s in
          let* s := if wait then io_u_quiesce s else Some s in
          let* '(r, s) := choose_other_zone 2 true s u t in
          match r with
          | no_zone => Some (None, u, s)
          | zone_found t => out s t
          | go_on _ => None
          end
      end
  | _ => Some (None, u, s)
  end.

(** *** Reading *)

(** [zbd_find_zone]: the zones behind [zb], up to [zl], and before it, from [zb - 1] on. *)
Definition readable (min_bytes : Z) s i : option (bool * state) :=
  let* z := zone s i in
  if cond z =? ZBD_ZONE_COND_OFFLINE then Some (false, s) else
  let* s := if has_wp z then zone_lock s i else Some s in
  if addw 64 (start z) min_bytes <=? wp z then Some (true, s) else
  let* s := if has_wp z then zone_unlock s i else Some s in
  Some (false, s).

Fixpoint find_loop (fuel : nat) s (min_bytes z1 z2 zl : Z) : option (option Z * state) :=
  if negb ((z1 <? zl) || (min_zone f <=? z2)) then Some (None, s) else
  let* up :=
    if z1 <? zl then let* z := zone s z1 in Some (negb (cond z =? ZBD_ZONE_COND_OFFLINE)) else Some false in
  if negb up && negb (td_random o) then Some (None, s) else
  let* '(found, s) := if (up : bool) then readable min_bytes s z1 else Some (false, s) in
  if (found : bool) then Some (Some z1, s) else
  let* '(found, s) := if td_random o && (min_zone f <=? z2) then readable min_bytes s z2 else Some (false, s) in
  if (found : bool) then Some (Some z2, s) else
  match fuel with O => None | S fuel => find_loop fuel s min_bytes (z1 + 1) (z2 - 1) zl end.

Definition zbd_find_zone s (min_bytes zb zl : Z) : option (option Z * state) :=
  find_loop (Z.to_nat (nr_zones (zbd_info s)) + 1) s min_bytes (zb + 1) (zb - 1) zl.

(** *** The place of a unit *)

(** Writes to a conventional zone do not go on into a sequential one. *)
Definition adjust_conventional s u i : option io_u :=
  let min_bs := min_bs o (u_ddir u) in
  let* zb := zone s i in
  let* next := zone s (i + 1) in
  if negb (has_wp next) || (addw 64 (u_offset u) (u_buflen u) <=? start next) then Some u else
  let '(offset, new_len) :=
    if start next <? addw 64 (u_offset u) min_bs then
      let offset := subw 64 (addw 64 (start zb) (start next)) (u_offset u) in
      (offset, Z.min (u_buflen u) (subw 64 (start next) offset))
    else (u_offset u, subw 64 (start next) (u_offset u)) in
  let* _ := c_assert (negb (min_bs =? 0)) in
  Some (place u offset (mulw 64 (new_len / min_bs) min_bs)).

Definition at_eof s (i : option Z) : option state :=
  match i with
  | None => Some s
  | Some i => let* z := zone s i in if has_wp z then zone_unlock s i else Some s
  end.

Definition accept s u i : option (io_u_action * io_u * state) :=
  let* z := zone s i in
  let* _ := c_assert (has_wp z) in
  let* _ := c_assert (negb (cond z =? ZBD_ZONE_COND_OFFLINE)) in
  let* _ := c_assert (negb (u_held u)) in
  let u := hold u true in
  let* s := match u_ddir u with DDIR_WRITE => update s i (fun z => with_flight z (addw 32 (writes_in_flight z) 1)) | _ => Some s end in
  Some (io_u_accept, u, s).

Definition eof s u (i : option Z) : option (io_u_action * io_u * state) := let* s := at_eof s i in Some (io_u_eof, u, s).

(** [retry_lock]; after the write pointer was fixed the job starts over. *)
Fixpoint retry_lock (fuel : nat) s i : option state :=
  let* s := zone_lock s i in
  let* z := zone s i in
  if negb (sync_engine o) && fixing_zone_wp z then
    let* s := zone_unlock s i in
    let* s := io_u_quiesce s in
    match fuel with O => None | S fuel => retry_lock fuel s i end
  else Some s.

(** [verifying]: the job reads back what it wrote. *)
Definition adjust_read s u (orig : Z) (verifying : bool) : option (io_u_action * io_u * state) :=
  let min_bs := min_bs o DDIR_READ in
  if verifying && td_write o then accept s u orig else
  let* zb := zone s orig in
  let range := if negb (cond zb =? ZBD_ZONE_COND_OFFLINE) then subw 64 (wp zb) (start zb) else 0 in
  let* '(found, u, s) :=
    if (range <? min_bs) || (negb (td_random o) && (wp zb <? addw 64 (u_offset u) min_bs)) then
      let* s := zone_unlock s orig in
      let* '(found, s) := zbd_find_zone s min_bs orig (max_zone f) in
      match found with
      | None => Some (None, u, s)
      | Some i =>
          let* z := zone s i in
          let range := subw 64 (wp z) (start z) in
          let* _ := c_assert (min_bs <=? range) in
          Some (Some (i, range), if td_random o then u else place u (start z) (u_buflen u), s)
      end
    else Some (Some (orig, range), u, s) in
  match found with
  | None => eof s u None
  | Some (i, range) =>
      let* z := zone s i in
      let* offset :=
        if range <=? u_buflen u then Some (start z)
        else if td_random o then
          let* _ := c_assert (negb (min_bs =? 0)) in
          Some (addw 64 (start z) (mulw 64 (subw 64 (u_offset u) (start zb) mod (range - u_buflen u) / min_bs) min_bs))
        else Some (u_offset u) in
      if negb (has_wp z) then Some (io_u_accept, place u offset (u_buflen u), s) else
      let new_len := Z.min (u_buflen u) (subw 64 (wp z) offset) in
      let* _ := c_assert (negb (min_bs =? 0)) in
      let new_len := mulw 64 (new_len / min_bs) min_bs in
      let u := place u offset (if new_len <? u_buflen u then new_len else u_buflen u) in
      let* _ := c_assert (start z <=? offset) in
      let* _ := c_assert (addw 64 offset (u_buflen u) <=? wp z) in
      accept s u i
  end.

(** From [retry] to a zone whose rest holds a block or nothing. *)
Fixpoint write_zone (fuel : nat) s u i : option (option Z * io_u * state) :=
  let* '(r, u, s) := zbd_convert_to_write_zone s u i in
  match r with
  | None => Some (None, u, s)
  | Some i =>
      let* z := zone s i in
      if (0 <? zbd_zone_remainder z) && (zbd_zone_remainder z <? min_bs o DDIR_WRITE) then
        match fuel with O => None | S fuel => write_zone fuel s u i end
      else Some (Some i, u, s)
  end.

(** Is it time to reset a zone? *)
Definition reset_due s : option (bool * state) :=
  match zrf o with
  | None => Some (false, s)
  | Some _ =>
      if match zrt o with Some reached => reached (wp_valid_data_bytes (zbd_info s)) | None => true end
      then zbd_dec_and_reset_write_cnt s else Some (false, s)
  end.

(** [next_verify] is what [get_next_verify] puts into the unit, if there is something to
    verify.  A unit that verifies does not hold its zone. *)
Definition adjust_write s u i (next_verify : option io_u) : option (io_u_action * io_u * state) :=
  let min_bs := min_bs o DDIR_WRITE in
  if zone_size (zbd_info s) <? u_buflen u then eof s u (Some i) else
  let* '(r, u, s) := write_zone (Z.to_nat (nr_zones (zbd_info s))) s u i in
  match r with
  | None => eof s u None
  | Some i =>
      let* '(due, s) := reset_due s in
      let* s := if (due : bool) then update s i (fun z => with_reset z true) else Some s in
      let* z := zone s i in
      let* full := zbd_zone_full z min_bs in
      let reset := reset_zone z || full in
      match (if reset && verify o then next_verify else None) with
      | Some v => let* s := zone_unlock s i in Some (io_u_accept, v, s)
      | None =>
          let* '(ret, s) :=
            if (reset : bool) then
              let* s := io_u_quiesce s in
              let* s := update s i (fun z => with_reset z false) in
              __zbd_reset_zone s i
            else Some (0, s) in
          let* z := zone s i in
          if (ret <? 0) || (reset && (capacity z <? min_bs)) then eof s u (Some i) else
          let* full := zbd_zone_full z min_bs in
          let* _ := c_assert (negb full) in
          let u := place u (wp z) (u_buflen u) in
          if negb (is_valid_offset (u_offset u)) then eof s u (Some i) else
          let new_len := Z.min (u_buflen u) (subw 64 (zbd_zone_capacity_end z) (u_offset u)) in
          let* _ := c_assert (negb (min_bs =? 0)) in
          let new_len := mulw 64 (new_len / min_bs) min_bs in
          if new_len =? u_buflen u then accept s u i
          else if min_bs <=? new_len then accept s (place u (u_offset u) new_len) i
          else eof s u (Some i)
      end
  end.

Definition adjust_trim s u i : option (io_u_action * io_u * state) :=
  let* z := zone s i in
  if negb (td_random o) || (start z <? wp z) then accept s u i else
  let* s := zone_unlock s i in
  let* '(found, s) := zbd_find_zone s 1 i (max_zone f) in
  match found with
  | Some i => let* z := zone s i in accept s (place u (start z) (u_buflen u)) i
  | None => eof s u None
  end.

Definition zbd_adjust_block s u (verifying : bool) (next_verify : option io_u) : option (io_u_action * io_u * state) :=
  let* _ := c_assert (c_true (min_bs o (u_ddir u))) in
  let* _ := c_assert (is_valid_offset (u_offset u)) in
  let* _ := c_assert (c_true (u_buflen u)) in
  let* i := zbd_offset_to_zone_idx (zbd_info s) (u_offset u) in
  let* zb := zone s i in
  if negb (has_wp zb) then
    match u_ddir u with
    | DDIR_WRITE => let* u := adjust_conventional s u i in Some (io_u_accept, u, s)
    | _ => Some (io_u_accept, u, s)
    end
  else if negb (cond zb =? ZBD_ZONE_COND_OFFLINE) && match u_ddir u with DDIR_READ => read_beyond_wp o | _ => false end then Some (io_u_accept, u, s)
  else
    let* s := retry_lock 1 s i in
    match u_ddir u with
    | DDIR_READ => adjust_read s u i verifying
    | DDIR_WRITE => adjust_write s u i next_verify
    | DDIR_TRIM => adjust_trim s u i
    | DDIR_OTHER => accept s u i
    end.

(** A trim of a sequential zone resets it; the error is -EINVAL. *)
Definition zbd_do_io_u_trim s u : option (Z * state) :=
  let* i := zbd_offset_to_zone_idx (zbd_info s) (u_offset u) in
  let* z := zone s i in
  if negb (has_wp z) then Some (0, s)
  else if negb (u_offset u =? start z) then Some (-22, s)
  else let* '(ret, s) := zbd_reset_zone s i in Some (if ret <? 0 then ret else 2, s).

Definition zbd_adjust_ddir (d : fio_ddir) (written : bool) : fio_ddir :=
  match d with
  | DDIR_READ => if negb (td_rw o) then d else if written || read_beyond_wp o || (rwmix_write o =? 0) then DDIR_READ else DDIR_WRITE
  | _ => d
  end.

End Zbd.

(** *** Set-up *)

Fixpoint ilog2 (fuel : nat) (i log : Z) : Z :=
  match fuel with O => log | S fuel => if i =? 0 then log else ilog2 fuel (Z.shiftr i 1) (log + 1) end.

Definition new_zone (st cap : Z) : fio_zone_info := mk_zone st st cap 0 0 1 true false false false 0.
Definition sentinel (st : Z) : fio_zone_info := mk_zone st 0 0 0 0 0 false false false false 0.

(** The zones of a device that has none; an error code otherwise. *)
Definition init_zone_info (zone_size zone_capacity real_file_size : Z) : Z + zoned_block_device_info :=
  if zone_size =? 0 then inl 1
  else if zone_size <? 512 then inl 1
  else
    let zone_capacity := if zone_capacity =? 0 then zone_size else zone_capacity in
    if zone_size <? zone_capacity then inl 1
    else if real_file_size <? zone_size then inl (-22)
    else
      let nr := wrap 32 (subw 64 (addw 64 real_file_size zone_size) 1 / zone_size) in
      let zones := map (fun k : nat => new_zone (mulw 64 (Z.of_nat k) zone_size) zone_capacity) (seq 0 (Z.to_nat nr)) in
      inr (mk_info ZBD_NONE 0 zone_size 0 (if is_power_of_2 zone_size then ilog2 64 zone_size (-1) else 0) nr 0 0
             (replicate (Z.to_nat ZBD_MAX_WRITE_ZONES) 0) (zones ++ [sentinel (mulw 64 nr zone_size)]) false).

(** The limit on open zones; an error code otherwise.  [device_max] is what
    [zbd_get_max_open_zones] answers. *)
Definition zbd_set_max_write_zones (b : zoned_block_device_info) (ignore_zone_limits : bool) (max_open_zones : Z) (device_max : Z + Z) : Z + zoned_block_device_info :=
  let limited n :=
    if ZBD_MAX_WRITE_ZONES <? n then inl (-22)
    else inr (mk_info (model b) n (zone_size b) (wp_valid_data_bytes b) (zone_size_log2 b) (nr_zones b) (num_write_zones b) (write_cnt b) (write_zones b) (zone_info b) (locked b)) in
  if match model b with ZBD_HOST_MANAGED => ignore_zone_limits | _ => true end then limited max_open_zones
  else
    match device_max with
    | inl e => inl e
    | inr device_max =>
        if device_max =? 0 then limited max_open_zones
        else if max_open_zones =? 0 then limited device_max
        else if max_open_zones <=? device_max then limited max_open_zones
        else inl (-22)
    end.

Definition with_start z (x : Z) : fio_zone_info := mk_zone x (wp z) (capacity z) (writes_in_flight z) (max_write_error_offset z) (cond z) (has_wp z) (write z) (reset_zone z) (fixing_zone_wp z) (locks z).

(** The value in an [int]. *)
Definition to_int (n : Z) : Z := let n := wrap 32 n in if n <? 2 ^ 31 then n else n - 2 ^ 32.

Section Report.

Context (report : Z -> Z -> Z + list zbd_zone).

Definition parse_zone (zone_size : Z) (r : zbd_zone) : option fio_zone_info :=
  let* wp :=
    if (r_cond r =? ZBD_ZONE_COND_NOT_WP) || (r_cond r =? ZBD_ZONE_COND_FULL) then Some (addw 64 (r_start r) (r_capacity r))
    else
      let* _ := c_assert (r_start r <=? r_wp r) in
      let* _ := c_assert (r_wp r <=? addw 64 (r_start r) zone_size) in
      Some (r_wp r) in
  Some (mk_zone (r_start r) wp (r_capacity r) 0 0 (r_cond r) (match r_type r with ZBD_ZONE_TYPE_SWR => true | _ => false end) false false false 0).

(** [ps] are the zones that are known so far; there is room for [nr + 1]. *)
Fixpoint parse_report (zone_size nr : Z) (ps : list fio_zone_info) (l : list zbd_zone) : option (Z + list fio_zone_info) :=
  match l with
  | [] => Some (inr ps)
  | r :: l =>
      let* _ := c_assert (zlength ps <=? nr) in
      let* p := parse_zone zone_size r in
      if match arr_get ps (zlength ps - 1) with Some q => negb (start p =? addw 64 (start q) zone_size) | None => false end then Some (inl (-22))
      else parse_report zone_size nr (ps ++ [p]) l
  end.

Fixpoint parse_loop (fuel : nat) (zone_size nr : Z) (ps : list fio_zone_info) (l : list zbd_zone) : option (Z + list fio_zone_info * Z) :=
  let* r := parse_report zone_size nr ps l in
  match r with
  | inl e => Some (inl e)
  | inr ps =>
      let* q := arr_get l (zlength l - 1) in
      let offset := addw 64 (r_start q) (r_len q) in
      if nr <=? zlength ps then Some (inr (ps, offset)) else
      match zbd_report_zones report offset (Z.min (nr - zlength ps) ZBD_REPORT_MAX_ZONES) with
      | inl e => Some (inl e)
      | inr l => match fuel with O => None | S fuel => parse_loop fuel zone_size nr ps l end
      end
  end.

Definition zone_log2 (zone_size : Z) : Z := if is_power_of_2 zone_size then ilog2 64 zone_size (-1) else 0.

(** [td_zone_size] is the job's own zone size, or zero. *)
Definition parse_zone_info (td_zone_size real_file_size : Z) : option (Z + zoned_block_device_info) :=
  match zbd_report_zones report 0 ZBD_REPORT_MAX_ZONES with
  | inl e => Some (inl e)
  | inr l =>
      let* q := arr_get l 0 in
      let zone_size := r_len q in
      let* _ := c_assert (negb (zone_size =? 0)) in
      let nr := to_int (subw 64 (addw 64 real_file_size zone_size) 1 / zone_size) in
      if negb (td_zone_size =? 0) && negb (td_zone_size =? zone_size) then Some (inl (-22)) else
      let* r := if 0 <? nr then parse_loop (Z.to_nat nr) zone_size nr [] l else Some (inr ([], 0)) in
      match r with
      | inl e => Some (inl e)
      | inr (ps, offset) =>
          let ps := ps ++ replicate (Z.to_nat (nr + 1) - length ps) (sentinel 0) in
          let* last := arr_get ps nr in
          let* zones := arr_set ps nr (with_start last offset) in
          Some (inr (mk_info ZBD_NONE 0 zone_size 0 (zone_log2 zone_size) nr 0 0 (replicate (Z.to_nat ZBD_MAX_WRITE_ZONES) 0) zones false))
      end
  end.

Definition set_model (m : zbd_zoned_model) (b : zoned_block_device_info) : zoned_block_device_info :=
  mk_info m (max_write_zones b) (zone_size b) (wp_valid_data_bytes b) (zone_size_log2 b) (nr_zones b) (num_write_zones b) (write_cnt b) (write_zones b) (zone_info b) (locked b).

(** [m] is the model that [zbd_get_zoned_model] finds. *)
Definition zbd_create_zone_info (m : Z + zbd_zoned_model) (td_zone_size zone_capacity real_file_size : Z) (ignore_zone_limits : bool) (max_open_zones : Z) (device_max : Z + Z) : option (Z + zoned_block_device_info) :=
  match m with
  | inl e => Some (inl e)
  | inr m =>
      let* r := match m with ZBD_NONE => Some (init_zone_info td_zone_size zone_capacity real_file_size) | _ => parse_zone_info td_zone_size real_file_size end in
      match r with
      | inl e => Some (inl e)
      | inr b => Some (zbd_set_max_write_zones (set_model m b) ignore_zone_limits max_open_zones device_max)
      end
  end.

End Report.

(** *** The files of a job *)

Fixpoint any_seq (n : nat) (b : zoned_block_device_info) i : option bool :=
  match n with O => Some false | S n => let* z := arr_get (zone_info b) i in if has_wp z then Some true else any_seq n b (i + 1) end.

Definition zbd_is_seq_job (b : zoned_block_device_info) (f : fio_file) : option bool :=
  if io_size f =? 0 then Some false else
  let* first := zbd_offset_to_zone_idx b (file_offset f) in
  let* last := zbd_offset_to_zone_idx b (subw 64 (addw 64 (file_offset f) (io_size f)) 1) in
  any_seq (Z.to_nat (last - first + 1)) b first.

Definition resize (f : fio_file) (offset size : Z) : fio_file := mk_file offset size (real_file_size f) (min_zone f) (max_zone f).
Definition file_end (f : fio_file) : Z := addw 64 (file_offset f) (io_size f).
Definition zbd_offset_to_zone (b : zoned_block_device_info) (offset : Z) : option fio_zone_info := let* i := zbd_offset_to_zone_idx b offset in arr_get (zone_info b) i.

(** The offset goes up to the start of a zone, if it is not there; no file if none is left. *)
Definition align_offset (b : zoned_block_device_info) (f : fio_file) : option (option fio_file) :=
  let* i := zbd_offset_to_zone_idx b (file_offset f) in
  let* z := arr_get (zone_info b) i in
  if file_offset f =? start z then Some (Some f) else
  let* next := arr_get (zone_info b) (i + 1) in
  let new_offset := start next in
  if file_end f <=? new_offset then Some None
  else Some (Some (resize f new_offset (subw 64 (io_size f) (subw 64 new_offset (file_offset f))))).

(** The size goes down to a number of zones. *)
Definition align_size (b : zoned_block_device_info) (f : fio_file) : option (option fio_file) :=
  let* z := zbd_offset_to_zone b (file_end f) in
  let new_end := start z in
  if file_end f =? new_end then Some (Some f)
  else if new_end <=? file_offset f then Some None
  else Some (Some (resize f (file_offset f) (subw 64 new_end (file_offset f)))).

(** The file of a job that only reads, or that writes; [None] inside if the sizes do not fit. *)
Definition zbd_zone_align_file_sizes (b : zoned_block_device_info) (td_zone_size zone_skip : Z) (only_reads : bool) (f : fio_file) : option (option fio_file) :=
  if real_file_size f <=? file_offset f then Some (Some f) else
  let* seq := zbd_is_seq_job b f in
  if negb seq then Some (Some f) else
  let td_size := if td_zone_size =? 0 then zone_size b else td_zone_size in
  if td_size =? 0 then Some None
  else if negb (td_size =? zone_size b) then Some None
  else if negb (zone_skip mod td_size =? 0) then Some None
  else if only_reads then
    let* z := zbd_offset_to_zone b (file_end f) in
    if start z <? file_end f then Some (Some (resize f (file_offset f) (subw 64 (start z) (file_offset f)))) else Some (Some f)
  else
    let* r := align_offset b f in
    match r with None => Some None | Some f => align_size b f end.

(** [trim]: the smallest, the largest and the usual block of trims, and whether they are
    split, for a job that trims. *)
Definition zbd_verify_bs (b : zoned_block_device_info) (trim : option (Z * Z * Z * bool)) : bool :=
  match trim with
  | None => true
  | Some (min_bs, max_bs, bs, split) => (min_bs =? max_bs) && negb split && (bs =? zone_size b)
  end.

(** The data of the zones that are written to. *)
Fixpoint valid_data (n : nat) (b : zoned_block_device_info) i (vdb : Z) : option Z :=
  match n with
  | O => Some vdb
  | S n => let* z := arr_get (zone_info b) i in valid_data n b (i + 1) (if has_wp z then addw 64 vdb (subw 64 (wp z) (start z)) else vdb)
  end.

(** For the first job on the device. *)
Definition zbd_verify_and_set_vdb (o : options) (f : fio_file) s : option state :=
  if negb (accounting_vdb o) then Some s else
  let* seq := zbd_is_seq_job (zbd_info s) f in
  if negb seq then Some s else
  let* vdb := valid_data (Z.to_nat (max_zone f - min_zone f)) (zbd_info s) (min_zone f) 0 in
  Some (set_vdb s vdb).

(** Zones that are open are write targets; [max_active] is the limit of the device on active
    zones. *)
Fixpoint open_zones (o : options) (max_active : Z) (n : nat) s i : option (bool * state) :=
  match n with
  | O => Some (true, s)
  | S n =>
      let* z := zone s i in
      if negb ((cond z =? ZBD_ZONE_COND_IMP_OPEN) || (cond z =? ZBD_ZONE_COND_EXP_OPEN) || (cond z =? ZBD_ZONE_COND_CLOSED)) then open_zones o max_active n s (i + 1)
      else if (max_active =? 0) && (cond z =? ZBD_ZONE_COND_CLOSED) then open_zones o max_active n s (i + 1)
      else
        let* '(got, s) := __zbd_write_zone_get o s i in
        if (got : bool) then open_zones o max_active n s (i + 1) else Some (false, s)
  end.

(** What a job asks for, apart from [options]. *)
Record set_up : Type := mk_set_up {
  direct_io : bool; only_reads : bool; td_zone_size : Z; td_zone_skip : Z; trim_blocks : option (Z * Z * Z * bool);
  continue_on_error : bool; experimental_verify : bool; max_open_zones : Z }.

(** [None] inside stands for the answer 1. *)
Definition zbd_setup_files (o : options) (c : set_up) (max_active : Z) s (f : fio_file) : option (option (fio_file * state)) :=
  if negb (direct_io c) then Some None else
  let* r := zbd_zone_align_file_sizes (zbd_info s) (td_zone_size c) (td_zone_skip c) (only_reads c) f in
  match r with
  | None => Some None
  | Some f =>
      if negb (zbd_verify_bs (zbd_info s) (trim_blocks c)) then Some None
      else if recover_zbd_write_error o && td_write o && (negb (continue_on_error c) || verify o && negb (sync_engine o)) then Some None
      else if experimental_verify c then Some None
      else
        let* first := zbd_offset_to_zone_idx (zbd_info s) (file_offset f) in
        let* last := zbd_offset_to_zone_idx (zbd_info s) (file_end f) in
        let f := mk_file (file_offset f) (io_size f) (real_file_size f) first last in
        let* s := zbd_verify_and_set_vdb o f s in
        let* seq := zbd_is_seq_job (zbd_info s) f in
        let* _ := c_assert (negb seq || (first <? last)) in
        if (0 <? max_open_zones c) && negb (max_write_zones (zbd_info s) =? max_open_zones c) then Some None
        else if negb (td_write o) then Some (Some (f, s))
        else if c_true (job_max_open_zones o) && (max_write_zones (zbd_info s) =? 0) then Some None
        else
          let* '(fits, s) := open_zones o max_active (Z.to_nat (last - first)) s first in
          if (fits : bool) then Some (Some (f, s)) else Some None
  end.

(** *** Skips of sequential jobs *)

(** What [zoneskip] keeps count of: [pos_offset] is the [file_offset] of the file and [last_pos]
    that of the direction. *)
Record position : Type := mk_position { zone_bytes : Z; io_skip_bytes : Z; pos_offset : Z; last_pos : Z }.

Definition skip_to (q : position) (skipped pos : Z) : position := mk_position (zone_bytes q) (addw 64 (io_skip_bytes q) skipped) (pos_offset q) pos.

(** From the end of the capacity of a zone to its end. *)
Definition skip_capacity (o : options) s (d : fio_ddir) i (q : position) : option position :=
  let* z := zone s i in
  if (capacity z <? zone_size (zbd_info s)) && negb (td_random o) && match d with DDIR_WRITE => true | _ => false end && (zbd_zone_capacity_end z <=? last_pos q) then
    let* next := zbd_zone_end s i in Some (skip_to q (subw 64 next (last_pos q)) next)
  else Some q.

(** [start_offset] is what [get_start_offset] answers. *)
Definition setup_zbd_zone_mode (o : options) (f : fio_file) (td_size td_skip start_offset : Z) s (d : fio_ddir) (q : position) : option position :=
  let* _ := c_assert (c_true td_size) in
  let* i := zbd_offset_to_zone_idx (zbd_info s) (last_pos q) in
  let* q := skip_capacity o s d i q in
  if td_random o || (td_skip =? 0) then Some q else
  let* z := zone s i in
  let* skips :=
    if td_size <=? zone_bytes q then Some true else
    let* next := zbd_zone_end s i in
    Some ((next <=? last_pos q) || match d with DDIR_READ => negb (read_beyond_wp o) && (wp z <=? last_pos q) | _ => false end) in
  if (skips : bool) then
    let offset := addw 64 (pos_offset q) (addw 64 td_size td_skip) in
    let offset := if real_file_size f <=? offset then start_offset else offset in
    Some (mk_position 0 (addw 64 (io_skip_bytes q) td_skip) offset offset)
  else Some q.
