(* ===== verification/ZbdInv.v ===== *)
(** zbd.c: the invariant of a job on a zoned device. *)
From stdpp Require Import sets.
From S2P Require Import Prelude Zbd.
#[local] Set Warnings "-clear-no-such-hyp".

(** * What a zone is *)

(** The part of a zone that only writes, resets and finishes change. *)
Record shape : Type := mk_shape { h_start : Z; h_wp : Z; h_capacity : Z; h_cond : Z; h_has_wp : bool }.
Definition shape_of (z : fio_zone_info) : shape := mk_shape (start z) (wp z) (capacity z) (cond z) (has_wp z).
Definition shapes (s : state) : list shape := map shape_of (zone_info (zbd_info s)).

Definition config_of (b : zoned_block_device_info) : zbd_zoned_model * Z * Z * Z * Z := (model b, max_write_zones b, zone_size b, zone_size_log2 b, nr_zones b).
Definition config (s : state) : zbd_zoned_model * Z * Z * Z * Z := config_of (zbd_info s).

Implicit Types (s : state) (z : fio_zone_info) (u : io_u) (i j : Z) (us : list io_u) (h : option Z).

Lemma zone_shape s i z : zone s i = Some z -> arr_get (shapes s) i = Some (shape_of z).
Proof. unfold zone, shapes, arr_get. destruct (i <? 0); [done|]. intros E. by rewrite list_lookup_fmap, E. Qed.

Lemma update_eq s i z g : zone s i = Some z -> update s i g = Some (set_zones s (<[Z.to_nat i := g z]> (zone_info (zbd_info s)))).
Proof.
  intros E. unfold update. rewrite E. cbn [mbind option_bind]. unfold zone in E. rewrite arr_set_Some by (by apply arr_get_range in E). done.
Qed.

Lemma zone_insert s i z j x : zone s i = Some z -> zone (set_zones s (<[Z.to_nat i := x]> (zone_info (zbd_info s)))) j = if decide (i = j) then Some x else zone s j.
Proof. intros E. unfold zone in *. cbn. apply arr_get_insert. by apply arr_get_range in E. Qed.

Lemma shapes_insert s i x : shapes (set_zones s (<[Z.to_nat i := x]> (zone_info (zbd_info s)))) = <[Z.to_nat i := shape_of x]> (shapes s).
Proof. unfold shapes. cbn. by rewrite list_fmap_insert. Qed.

Lemma shapes_keep s i z x : zone s i = Some z -> shape_of x = shape_of z -> shapes (set_zones s (<[Z.to_nat i := x]> (zone_info (zbd_info s)))) = shapes s.
Proof.
  intros E Hx. rewrite shapes_insert, Hx. apply list_insert_id. apply zone_shape in E. unfold arr_get in E. by destruct (i <? 0).
Qed.

(** * The zone of an offset *)

Lemma offset_idx (b : zoned_block_device_info) off : 0 < zone_size b -> zone_size_log2 b = 0 \/ 0 < zone_size_log2 b /\ zone_size b = 2 ^ zone_size_log2 b -> nr_zones b < 2 ^ 32 ->
  0 <= off / zone_size b <= nr_zones b -> zbd_offset_to_zone_idx b off = Some (off / zone_size b).
Proof.
  intros Hs Hg Hn Hi. unfold zbd_offset_to_zone_idx.
  assert ((if 0 <? zone_size_log2 b then Some (wrap 32 (Z.shiftr off (zone_size_log2 b))) else let* _ := c_assert (negb (zone_size b =? 0)) in Some (wrap 32 (off / zone_size b))) = Some (off / zone_size b)) as ->.
  - destruct (Z.ltb_spec 0 (zone_size_log2 b)); [|destruct (Z.eqb_spec (zone_size b) 0); [lia|]]; cbn [negb c_assert mbind option_bind].
    + destruct Hg as [|[_ E]]; [lia|]. rewrite Z.shiftr_div_pow2 by lia. rewrite <- E. f_equal. apply wrap_small. unfold is_word. lia.
    + f_equal. apply wrap_small. unfold is_word. lia.
  - cbn [mbind option_bind]. f_equal. lia.
Qed.

(** * The device

    The write pointers of the device's zones after the commands; [None] if the device refused
    one.  A zone is written at its pointer and up to its capacity, and reset or finished as a
    whole. *)
Section Device.
Context (zs : Z) (cap : Z -> Z).

Definition move (d : Z -> Z) i (x : Z) : Z -> Z := fun j => if j =? i then x else d j.

Definition device_step (d : Z -> Z) (c : command) : option (Z -> Z) :=
  match c with
  | Reset off => if off mod zs =? 0 then Some (move d (off / zs) off) else None
  | Finish off => if off mod zs =? 0 then Some (move d (off / zs) (off + zs)) else None
  | Write off len =>
      let i := off / zs in
      if (d i =? off) && (0 <? len) && (off + len <=? i * zs + cap i) then Some (move d i (off + len)) else None
  end.

Fixpoint device (d : Z -> Z) (l : list command) : option (Z -> Z) :=
  match l with [] => Some d | c :: l => let* d := device d l in device_step d c end.
End Device.

(** * The invariant *)

Definition unit_zone (zs : Z) u : Z := u_offset u / zs.
Definition is_write u : bool := match u_ddir u with DDIR_WRITE => true | _ => false end.

(** How many of the units hold zone [i], and how many of them write. *)
Definition units_at (zs : Z) us i : nat := length (List.filter (fun u => u_held u && (unit_zone zs u =? i)) us).
Definition writes_at (zs : Z) us i : nat := length (List.filter (fun u => u_held u && is_write u && (unit_zone zs u =? i)) us).

Definition targets s : list Z := take (Z.to_nat (num_write_zones (zbd_info s))) (write_zones (zbd_info s)).

Section Inv.
Context (o : options) (f : fio_file) (cap : Z -> Z) (d0 : Z -> Z) (cfg : zbd_zoned_model * Z * Z * Z * Z) (started whole : bool).

Definition in_file i : Prop := min_zone f <= i < max_zone f.

(** Equal zones, and a file of whole zones; the device's own numbers stay. *)
Record geometry s : Prop := mk_geometry {
  g_config : config s = cfg;
  g_size : 0 < zone_size (zbd_info s);
  g_log : zone_size_log2 (zbd_info s) = 0 \/ 0 < zone_size_log2 (zbd_info s) /\ zone_size (zbd_info s) = 2 ^ zone_size_log2 (zbd_info s);
  g_nr : nr_zones (zbd_info s) + 1 < 2 ^ 32 /\ (nr_zones (zbd_info s) + 1) * zone_size (zbd_info s) < 2 ^ 63;
  g_len : zlength (shapes s) = nr_zones (zbd_info s) + 1;
  g_start : forall i x, arr_get (shapes s) i = Some x -> h_start x = i * zone_size (zbd_info s);
  g_wp : forall i x, in_file i -> arr_get (shapes s) i = Some x -> h_capacity x = cap i /\ 0 <= cap i <= zone_size (zbd_info s) /\
    (h_has_wp x = true -> h_start x <= h_wp x <= h_start x + cap i \/ h_wp x = h_start x + zone_size (zbd_info s));
  g_conv : forall i x, in_file i -> arr_get (shapes s) i = Some x -> h_has_wp x = false -> h_start x <= h_wp x <= h_start x + zone_size (zbd_info s);
  g_file : 0 <= min_zone f < max_zone f /\ max_zone f <= nr_zones (zbd_info s);
  g_offset : file_offset f = min_zone f * zone_size (zbd_info s) /\ io_size f = (max_zone f - min_zone f) * zone_size (zbd_info s) }.

(** The array of write targets. *)
Record targets_ok s : Prop := mk_targets_ok {
  t_num : 0 <= num_write_zones (zbd_info s) <= max_write_zones (zbd_info s);
  t_max : max_write_zones (zbd_info s) <= ZBD_MAX_WRITE_ZONES /\ zlength (write_zones (zbd_info s)) = ZBD_MAX_WRITE_ZONES;
  t_nodup : NoDup (targets s);
  t_flag : forall i z, zone s i = Some z -> write z = true <-> i ∈ targets s;
  t_zone : forall i, i ∈ targets s -> in_file i /\ exists x, arr_get (shapes s) i = Some x /\ h_has_wp x = true /\ h_cond x <> ZBD_ZONE_COND_OFFLINE;
  t_job : td_num_write_zones s = num_write_zones (zbd_info s) /\ (0 < job_max_open_zones o -> num_write_zones (zbd_info s) <= job_max_open_zones o) }.

(** The units [us] and the code, if [h] is a zone, hold their zones. *)
Record held_ok us h s : Prop := mk_held_ok {
  l_locks : forall i z, zone s i = Some z -> locks z = (units_at (zone_size (zbd_info s)) us i + if decide (h = Some i) then 1 else 0)%nat;
  l_flight : forall i z, zone s i = Some z -> writes_in_flight z = Z.of_nat (writes_at (zone_size (zbd_info s)) us i) /\ fixing_zone_wp z = false;
  l_units : forall u, u ∈ us -> u_held u = true -> in_file (unit_zone (zone_size (zbd_info s)) u) /\ 0 <= u_offset u /\
    exists x, arr_get (shapes s) (unit_zone (zone_size (zbd_info s)) u) = Some x /\ h_has_wp x = true;
  l_held : forall i, h = Some i -> in_file i /\ exists x, arr_get (shapes s) i = Some x /\ h_has_wp x = true;
  l_few : zlength us < 2 ^ 31 }.

(** The device is where the code thinks it is. *)
Definition device_ok s : Prop :=
  zoned s = true -> exists d, device (zone_size (zbd_info s)) cap d0 (commands s) = Some d /\
    forall i x, in_file i -> arr_get (shapes s) i = Some x -> h_has_wp x = true -> h_wp x = d i.

(** If the zones are [whole], what is left of a sequential zone is always of whole blocks:
    "This algorithm can only work correctly if all write pointers are a multiple of the fio
    block size." *)
Definition rests_ok s : Prop :=
  whole = true -> forall i x, in_file i -> arr_get (shapes s) i = Some x -> h_has_wp x = true ->
    (min_bs o DDIR_WRITE | cap i) /\ ((min_bs o DDIR_WRITE | h_start x + cap i - h_wp x) \/ h_start x + cap i <= h_wp x).

Record inv us h (lk : bool) s : Prop := mk_inv {
  i_geometry : geometry s; i_targets : targets_ok s; i_held : held_ok us h s; i_device : device_ok s; i_rests : rests_ok s;
  i_locked : locked (zbd_info s) = lk; i_cnt : started = true -> zrf o <> None -> 0 < write_cnt (zbd_info s) < 2 ^ 32 }.

(** What most steps keep; the second also keeps the targets. *)
Record keeps s s' : Prop := mk_keeps {
  k_shapes : shapes s' = shapes s; k_config : config s' = config s; k_commands : commands s' = commands s; k_flying : flying s' = flying s }.
Definition keeps_targets s s' : Prop := keeps s s' /\ num_write_zones (zbd_info s') = num_write_zones (zbd_info s) /\ write_zones (zbd_info s') = write_zones (zbd_info s) /\
  td_num_write_zones s' = td_num_write_zones s /\ forall i z, zone s i = Some z -> exists z', zone s' i = Some z' /\ write z' = write z.

Lemma keeps_refl s : keeps s s.
Proof. done. Qed.
Lemma keeps_trans s1 s2 s3 : keeps s1 s2 -> keeps s2 s3 -> keeps s1 s3.
Proof. intros [] []. split; congruence. Qed.
Lemma keeps_targets_refl s : keeps_targets s s.
Proof. split; [done|]. split_and!; try done. by intros i z H; exists z. Qed.
Lemma keeps_targets_trans s1 s2 s3 : keeps_targets s1 s2 -> keeps_targets s2 s3 -> keeps_targets s1 s3.
Proof.
  intros (K1 & N1 & W1 & T1 & Z1) (K2 & N2 & W2 & T2 & Z2). split; [by eapply keeps_trans|]. split_and!; try congruence. intros i z H. destruct (Z1 i z H) as (z' & H' & ?). destruct (Z2 i z' H') as (z'' & ? & ?).
  exists z''. split; [done|congruence].
Qed.

Lemma config_size s s' : config s' = config s -> zone_size (zbd_info s') = zone_size (zbd_info s) /\ nr_zones (zbd_info s') = nr_zones (zbd_info s) /\ zone_size_log2 (zbd_info s') = zone_size_log2 (zbd_info s) /\
  max_write_zones (zbd_info s') = max_write_zones (zbd_info s) /\ zoned s' = zoned s.
Proof. unfold config, config_of, zoned. intros [= E1 E2 E3 E4 E5]. by rewrite E1, E2, E3, E4, E5. Qed.

Lemma geometry_keeps s s' : keeps s s' -> geometry s -> geometry s'.
Proof. intros [K1 K2 _ _] []. destruct (config_size _ _ K2) as (E1 & E2 & E3 & E4 & _). split; rewrite ?K2, ?E1, ?E2, ?E3, ?K1; done. Qed.

Lemma device_keeps s s' : keeps s s' -> device_ok s -> device_ok s'.
Proof. intros [K1 K2 K3 _] H. destruct (config_size _ _ K2) as (E1 & _ & _ & _ & E5). unfold device_ok. by rewrite E1, E5, K1, K3. Qed.

Lemma rests_keeps s s' : keeps s s' -> rests_ok s -> rests_ok s'.
Proof. intros [K1 _ _ _] H. unfold rests_ok. by rewrite K1. Qed.

Lemma zone_exists s i : geometry s -> 0 <= i <= nr_zones (zbd_info s) -> exists z, zone s i = Some z.
Proof. intros H Hi. apply arr_get_Some. pose proof (g_len _ H) as Hl. unfold shapes, zlength in *. rewrite length_map in Hl. lia. Qed.

Lemma zone_back s i x : arr_get (shapes s) i = Some x -> exists z, zone s i = Some z /\ shape_of z = x.
Proof. unfold zone, shapes, arr_get. destruct (i <? 0); [done|]. rewrite list_lookup_fmap. destruct (_ !! _) as [z|]; [|done]. intros [= <-]. by exists z. Qed.

Lemma zone_keeps s s' i z : shapes s' = shapes s -> zone s i = Some z -> exists z', zone s' i = Some z' /\ shape_of z' = shape_of z.
Proof. intros E H. apply zone_back. rewrite E. by apply zone_shape. Qed.

Lemma targets_keeps s s' : keeps_targets s s' -> targets_ok s -> targets_ok s'.
Proof.
  intros (K & N & W & T & Z) [H1 H2 H3 H4 H5 H6]. destruct (config_size _ _ (k_config _ _ K)) as (_ & _ & _ & E4 & _). unfold targets in *. split; unfold targets; rewrite ?N, ?W, ?T, ?E4; try done.
  - intros i z' Hz'. pose proof (zone_shape _ _ _ Hz') as Hs. rewrite (k_shapes _ _ K) in Hs. destruct (zone_back _ _ _ Hs) as (z & Hz & _). destruct (Z i z Hz) as (z'' & Hz'' & Ew).
    assert (z'' = z') as -> by congruence. rewrite Ew. by apply H4.
  - rewrite (k_shapes _ _ K). done.
Qed.

(** *** Changes of a zone that keep its shape *)

Lemma change_keeps s i z x : zone s i = Some z -> shape_of x = shape_of z -> write x = write z ->
  keeps_targets s (set_zones s (<[Z.to_nat i := x]> (zone_info (zbd_info s)))).
Proof.
  intros Hz Hx Hw. split; [split; try done; by eapply shapes_keep|]. split_and!; try done. intros j zj Hj. rewrite (zone_insert _ _ _ _ _ Hz). case_decide as Hd; [|by exists zj].
  subst j. exists x. split; [done|]. congruence.
Qed.

(** The part of the invariant that does not speak of the zones that are held. *)
Definition sound (lk : bool) s : Prop := geometry s /\ targets_ok s /\ device_ok s /\ rests_ok s /\ locked (zbd_info s) = lk /\ (started = true -> zrf o <> None -> 0 < write_cnt (zbd_info s) < 2 ^ 32).

Lemma inv_sound us h lk s : inv us h lk s <-> sound lk s /\ held_ok us h s.
Proof. split; [intros []; by split|]. by intros [(?&?&?&?&?&?) ?]. Qed.

Lemma sound_change lk s i z x : sound lk s -> zone s i = Some z -> shape_of x = shape_of z -> write x = write z -> sound lk (set_zones s (<[Z.to_nat i := x]> (zone_info (zbd_info s)))).
Proof.
  intros (H1 & H2 & H3 & H4 & H5 & H6) Hz Hx Hw. pose proof (change_keeps _ _ _ _ Hz Hx Hw) as K. split_and!; try done; [by eapply geometry_keeps; [apply K|]|by eapply targets_keeps|by eapply device_keeps; [apply K|]|by eapply rests_keeps; [apply K|]].
Qed.

Lemma held_keeps us h s s' : shapes s' = shapes s -> config s' = config s -> (forall i z', zone s' i = Some z' -> exists z, zone s i = Some z /\ locks z' = locks z /\ writes_in_flight z' = writes_in_flight z /\ fixing_zone_wp z' = fixing_zone_wp z) ->
  held_ok us h s -> held_ok us h s'.
Proof.
  intros K1 K2 Hz [H1 H2 H3 H4 H5]. destruct (config_size _ _ K2) as (E1 & _). split; rewrite ?E1, ?K1; try done.
  - intros i z' Hi. destruct (Hz i z' Hi) as (z & Hi' & -> & _). by apply H1.
  - intros i z' Hi. destruct (Hz i z' Hi) as (z & Hi' & _ & -> & ->). by apply H2.
Qed.

Lemma held_insert us us' h h' s i z x : zone s i = Some z -> shape_of x = shape_of z ->
  (forall j zj, zone s j = Some zj -> let x' := if decide (i = j) then x else zj in
    locks x' = (units_at (zone_size (zbd_info s)) us' j + if decide (h' = Some j) then 1 else 0)%nat /\
    writes_in_flight x' = Z.of_nat (writes_at (zone_size (zbd_info s)) us' j) /\ fixing_zone_wp x' = false) ->
  (forall u, u ∈ us' -> u_held u = true -> in_file (unit_zone (zone_size (zbd_info s)) u) /\ 0 <= u_offset u /\ exists x, arr_get (shapes s) (unit_zone (zone_size (zbd_info s)) u) = Some x /\ h_has_wp x = true) ->
  (forall i, h' = Some i -> in_file i /\ exists x, arr_get (shapes s) i = Some x /\ h_has_wp x = true) -> zlength us' < 2 ^ 31 ->
  held_ok us h s -> held_ok us' h' (set_zones s (<[Z.to_nat i := x]> (zone_info (zbd_info s)))).
Proof.
  intros Hz Hx Hj Hu Hh Hl _. pose proof (shapes_keep _ _ _ _ Hz Hx) as Es. split; rewrite ?Es; try done; intros j zj; rewrite (zone_insert _ _ _ _ _ Hz); intros Hzj.
  - specialize (Hj j). case_decide; [subst j; injection Hzj as <-; apply (Hj z Hz)|by apply (Hj zj)].
  - specialize (Hj j). case_decide; [subst j; injection Hzj as <-; apply (Hj z Hz)|by apply (Hj zj)].
Qed.

(** *** Locks *)

Lemma zone_lock_spec us lk s i x : inv us None lk s -> in_file i -> arr_get (shapes s) i = Some x -> h_has_wp x = true ->
  ok (zone_lock f s i) (fun s' => inv us (Some i) lk s' /\ keeps_targets s s').
Proof.
  intros [Hs Hh]%inv_sound Hi Hx Hw. destruct (zone_back _ _ _ Hx) as (z & Hz & Ez). assert (has_wp z = true) as Hz' by (by rewrite <- Hw, <- Ez).
  unfold zone_lock. rewrite Hz. cbn [mbind option_bind]. unfold in_file in Hi. apply ok_assert; [destruct (Z.leb_spec (min_zone f) i), (Z.ltb_spec i (max_zone f)); lia|].
  apply ok_assert; [done|]. rewrite (update_eq _ _ _ _ Hz). apply ok_ret. split; [|by apply (change_keeps _ _ z)]. apply inv_sound. split; [by apply (sound_change _ _ _ z)|].
  apply (held_insert us us None (Some i) s i z); try done; try apply Hh.
  - intros j zj Hj. destruct (l_flight _ _ _ Hh j zj Hj) as [F1 F2]. pose proof (l_locks _ _ _ Hh j zj Hj) as L. rewrite decide_False in L by done. cbn zeta. destruct (decide (i = j)) as [<-|Hd].
    + rewrite decide_True by done. assert (zj = z) as -> by congruence. cbn. split; [lia|]. by split.
    + rewrite decide_False by congruence. by split.
  - intros j [= <-]. split; [done|]. by exists x.
Qed.

Lemma zone_unlock_spec us lk s i : inv us (Some i) lk s -> ok (zone_unlock s i) (fun s' => inv us None lk s' /\ keeps_targets s s').
Proof.
  intros [Hs Hh]%inv_sound. destruct (l_held _ _ _ Hh i eq_refl) as (Hi & x & Hx & Hw). destruct (zone_back _ _ _ Hx) as (z & Hz & Ez). assert (has_wp z = true) as Hz' by (by rewrite <- Hw, <- Ez).
  pose proof (l_locks _ _ _ Hh i z Hz) as L. rewrite decide_True in L by done. unfold zone_unlock. rewrite Hz. cbn [mbind option_bind]. apply ok_assert; [done|].
  apply ok_assert; [destruct (Nat.eqb_spec (locks z) 0); [lia|done]|]. rewrite (update_eq _ _ _ _ Hz). apply ok_ret. split; [|by apply (change_keeps _ _ z)]. apply inv_sound. split; [by apply (sound_change _ _ _ z)|].
  apply (held_insert us us (Some i) None s i z); try done; try apply Hh.
  intros j zj Hj. destruct (l_flight _ _ _ Hh j zj Hj) as [F1 F2]. pose proof (l_locks _ _ _ Hh j zj Hj) as Lj. rewrite (decide_False (P := None = Some j)) by done. cbn zeta. destruct (decide (i = j)) as [<-|Hd].
  - assert (zj = z) as -> by congruence. cbn. split; [lia|]. by split.
  - rewrite decide_False in Lj by congruence. by split.
Qed.

Lemma keeps_locked s x : keeps_targets s (set_locked s x).
Proof. split; [done|]. split_and!; try done. intros i z Hz. by exists z. Qed.

Lemma held_locked us h s x : held_ok us h s -> held_ok us h (set_locked s x).
Proof. intros H. apply (held_keeps us h s); try done. intros i z Hz. by exists z. Qed.

Lemma sound_locked lk lk' s : sound lk s -> sound lk' (set_locked s lk').
Proof. intros (H1 & H2 & H3 & H4 & H5 & H6). pose proof (keeps_locked s lk') as K. split_and!; try done; [by apply (geometry_keeps s); [apply K|]|by apply (targets_keeps s)]. Qed.

Lemma lock_info_spec us h s : inv us h false s -> ok (lock_info s) (fun s' => inv us h true s' /\ keeps_targets s s').
Proof.
  intros [Hs Hh]%inv_sound. unfold lock_info. apply ok_assert; [destruct Hs as (_ & _ & _ & _ & -> & _); done|]. apply ok_ret. split; [|apply keeps_locked]. apply inv_sound.
  split; [by eapply sound_locked|by apply held_locked].
Qed.

Lemma unlock_info_spec us h s : inv us h true s -> ok (unlock_info s) (fun s' => inv us h false s' /\ keeps_targets s s').
Proof.
  intros [Hs Hh]%inv_sound. unfold unlock_info. apply ok_assert; [destruct Hs as (_ & _ & _ & _ & -> & _); done|]. apply ok_ret. split; [|apply keeps_locked]. apply inv_sound.
  split; [by eapply sound_locked|by apply held_locked].
Qed.

(** *** Write targets *)

Lemma target_index_spec l n i zi : (n <= length l)%nat ->
  ((i ∉ take n l) /\ target_index l n i zi = zi + Z.of_nat n) \/ exists pre post, take n l = pre ++ i :: post /\ target_index l n i zi = zi + zlength pre.
Proof.
  revert l zi. induction n as [|n IH]; intros l zi Hn; [left; split; [by intros ?%elem_of_nil|by destruct l; cbn; lia]|]. destruct l as [|x l]; cbn [length] in Hn; [lia|]. cbn [target_index take firstn].
  destruct (Z.eqb_spec x i) as [->|Hx]; [right; exists [], (take n l); split; [done|]; unfold zlength; cbn; lia|].
  destruct (IH l (zi + 1)) as [[H1 H2]|(pre & post & H1 & H2)]; [lia| |].
  - left. split; [|lia]. intros [->|H]%elem_of_cons; done.
  - right. exists (x :: pre), post. split; [by rewrite H1|]. unfold zlength in *. cbn [length]. lia.
Qed.

Lemma drop_target l pre i post n : take n l = pre ++ i :: post -> (n <= length l)%nat -> Z.of_nat (length l) = ZBD_MAX_WRITE_ZONES ->
  let l' := take (length pre) l ++ drop (length pre + 1) l ++ drop (Z.to_nat ZBD_MAX_WRITE_ZONES - 1) l in
  Z.of_nat (length l') = ZBD_MAX_WRITE_ZONES /\ take (n - 1) l' = pre ++ post.
Proof.
  intros Ht Hn Hl l'. assert (length (pre ++ i :: post) = n) as Hlen by (rewrite <- Ht, length_take; lia). rewrite length_app in Hlen. cbn [length] in Hlen.
  assert (l = pre ++ i :: post ++ drop n l) as El by (rewrite <- (take_drop n l) at 1; rewrite Ht, <- app_assoc; done).
  assert (l' = pre ++ post ++ drop n l ++ drop (Z.to_nat ZBD_MAX_WRITE_ZONES - 1) l) as ->.
  { unfold l'. rewrite El at 1 2. rewrite take_app_length, drop_app_add. change (drop 1 (i :: post ++ drop n l)) with (post ++ drop n l). by rewrite <- (app_assoc post). }
  split.
  - rewrite !length_app, !length_drop. unfold ZBD_MAX_WRITE_ZONES in *. lia.
  - rewrite app_assoc, take_app_length'; [done|]. rewrite length_app. lia.
Qed.

Lemma put_spec us h s i x : inv us h true s -> arr_get (shapes s) i = Some x ->
  ok (zbd_write_zone_put s i) (fun s' => inv us h true s' /\ keeps s s').
Proof.
  intros [Hs Hh]%inv_sound Hx. destruct (zone_back _ _ _ Hx) as (z & Hz & _). unfold zbd_write_zone_put. rewrite Hz. cbn [mbind option_bind].
  destruct (write z) eqn:Ew; cbn [negb]; [|apply ok_ret; split; [by apply inv_sound|apply keeps_refl]].
  destruct Hs as (Hg & Ht & Hd & Hrs & Hl & Hc). destruct Ht as [T1 [T2 T2'] T3 T4 T5 T6]. unfold targets in *. set (n := Z.to_nat (num_write_zones (zbd_info s))) in *. set (wz := write_zones (zbd_info s)) in *.
  assert (n <= length wz)%nat as Hn by (unfold zlength, ZBD_MAX_WRITE_ZONES in *; lia).
  destruct (target_index_spec wz n i 0 Hn) as [[Hi _]|(pre & post & Hi & ->)]; [by apply (T4 i z Hz) in Ew|].
  assert (length (pre ++ i :: post) = n) as Hlen by (rewrite <- Hi, length_take; lia). rewrite length_app in Hlen. cbn [length] in Hlen.
  destruct (Z.eqb_spec (0 + zlength pre) (num_write_zones (zbd_info s))); [unfold zlength in *; lia|]. replace (Z.to_nat (0 + zlength pre)) with (length pre) by (unfold zlength; lia).
  pose proof (drop_target wz pre i post n Hi Hn T2') as [D1 D2]. set (wz' := take _ _ ++ _) in *. cbn zeta in D1, D2.
  set (s1 := set_td _ _). assert (zone s1 i = Some z) as Hz1 by done. rewrite (update_eq _ _ _ _ Hz1). apply ok_ret.
  assert (num_write_zones (zbd_info s) - 1 = Z.of_nat (n - 1)) as En by lia. assert (subw 32 (num_write_zones (zbd_info s)) 1 = Z.of_nat (n - 1)) as Es.
  { unfold subw. rewrite En. apply wrap_small. unfold is_word, ZBD_MAX_WRITE_ZONES in *. lia. }
  set (s2 := set_zones s1 _). assert (keeps s s2) as K by (split; try done; by apply (shapes_keep s1 i z)).
  assert (targets s2 = pre ++ post) as Et by (unfold targets, s2; cbn; rewrite Es, Nat2Z.id; exact D2).
  rewrite Hi in T3, T4, T5. apply drop_notin in T3 as [T3 Hni]. split; [|done]. apply inv_sound. split; [split_and!; try done; [by apply (geometry_keeps s)| |by apply (device_keeps s)|by apply (rests_keeps s)]|].
  - split; rewrite ?Et; try done.
    + cbn. rewrite Es. lia.
    + intros j zj. unfold s2. rewrite (zone_insert _ _ _ _ _ Hz1). case_decide as Hd'; [intros [= <-]; subst j; cbn; by split|]. intros Hj. rewrite (T4 j zj Hj), !elem_of_app, elem_of_cons. naive_solver.
    + intros j Hj. rewrite (k_shapes _ _ K). apply T5. rewrite !elem_of_app, elem_of_cons in *. naive_solver.
    + cbn. destruct T6 as [T6 T7]. rewrite T6. split; [done|]. intros Hjob. specialize (T7 Hjob). rewrite Es. lia.
  - apply (held_keeps us h s); try done; [by apply K|]. intros j zj. unfold s2. rewrite (zone_insert _ _ _ _ _ Hz1). case_decide as Hd'; [intros [= <-]; subst j; by exists z|]. intros Hj. by exists zj.
Qed.

Lemma put_locked_spec us h s i x : inv us h false s -> arr_get (shapes s) i = Some x ->
  ok (zbd_write_zone_put_locked s i) (fun s' => inv us h false s' /\ keeps s s').
Proof.
  intros H Hx. unfold zbd_write_zone_put_locked. eapply ok_bind; [by apply lock_info_spec|]. intros s1 [H1 [K1 _]]. eapply ok_bind; [apply (put_spec us h s1 i x H1); by rewrite (k_shapes _ _ K1)|].
  intros s2 [H2 K2]. eapply ok_impl; [by apply (unlock_info_spec us h)|]. intros s3 [H3 [K3 _]]. split; [done|]. eapply keeps_trans; [done|]. by eapply keeps_trans.
Qed.

(** The zone becomes the next target. *)
Lemma get_new_spec us h i x s z wz : inv us h true s -> in_file i -> arr_get (shapes s) i = Some x -> h_has_wp x = true -> zone s i = Some z -> write z = false -> cond z <> ZBD_ZONE_COND_OFFLINE ->
  num_write_zones (zbd_info s) < max_write_zones (zbd_info s) -> (0 < job_max_open_zones o -> td_num_write_zones s < job_max_open_zones o) ->
  wz = <[Z.to_nat (num_write_zones (zbd_info s)) := i]> (write_zones (zbd_info s)) ->
  let s1 := set_td (set_targets s (addw 32 (num_write_zones (zbd_info s)) 1) wz) (addw 32 (td_num_write_zones s) 1) in
  ok (update s1 i (fun z => with_write z true)) (fun s' => inv us h true s' /\ keeps s s').
Proof.
  intros [Hs Hh]%inv_sound Hi Hx Hx' Hz Hw Hc Hn Hj Ewz s1.
  destruct Hs as (Hg & Ht & Hd & Hrs & Hl & Hcnt). destruct Ht as [T1 [T2 T2'] T3 T4 T5 [T6 T7]]. set (n := num_write_zones (zbd_info s)) in *.
  assert (addw 32 n 1 = n + 1) as En by (apply wrap_small; unfold is_word, ZBD_MAX_WRITE_ZONES in *; lia).
  assert (zone s1 i = Some z) as Hz1 by done. rewrite (update_eq _ _ _ _ Hz1). apply ok_ret. set (s2 := set_zones s1 _).
  assert (keeps s s2) as K by (split; try done; by apply (shapes_keep s1 i z)).
  assert (targets s2 = targets s ++ [i]) as Et.
  { unfold targets, s2, s1. cbn. fold n. rewrite En, Ewz. replace (Z.to_nat (n + 1)) with (S (Z.to_nat n)) by lia. unfold zlength, ZBD_MAX_WRITE_ZONES in *.
    rewrite (take_S_r _ _ i) by (apply list_lookup_insert_eq; lia). by rewrite take_insert_ge by lia. }
  assert (i ∉ targets s) as Hni by (rewrite <- (T4 i z Hz), Hw; done).
  split; [|done]. apply inv_sound. split; [split_and!; try done; [by apply (geometry_keeps s)| |by apply (device_keeps s)|by apply (rests_keeps s)]|].
  - split; rewrite ?Et.
    + cbn. fold n. rewrite En. lia.
    + cbn. unfold zlength. rewrite Ewz, length_insert. done.
    + apply list.NoDup_app. split; [done|]. split; [intros y Hy Hyi%list_elem_of_singleton; subst y; done|apply NoDup_singleton].
    + intros j zj. unfold s2. rewrite (zone_insert _ _ _ _ _ Hz1). case_decide as Hd'; [intros [= <-]; subst j; cbn; split; [intros _; set_solver|done]|]. intros Hjz. rewrite (T4 j zj Hjz). set_solver.
    + intros j [Hjt|Hji%list_elem_of_singleton]%elem_of_app; rewrite (k_shapes _ _ K); [by apply T5|]. subst j. split; [done|]. exists x. split; [done|]. split; [done|].
      apply zone_shape in Hz. assert (x = shape_of z) as -> by congruence. done.
    + cbn. fold n. rewrite T6. split; [done|]. intros Hjob. specialize (Hj Hjob). fold n in T6. lia.
  - apply (held_keeps us h s); try done; [by apply K|]. intros j zj. unfold s2. rewrite (zone_insert _ _ _ _ _ Hz1). case_decide as Hd'; [intros [= <-]; subst j; by exists z|]. intros Hjz. by exists zj.
Qed.

Lemma get_spec us h i x s : inv us h false s -> in_file i -> arr_get (shapes s) i = Some x -> h_has_wp x = true ->
  ok (__zbd_write_zone_get o s i) (fun '(b, s') => inv us h false s' /\ keeps s s' /\ (b = true -> forall x, arr_get (shapes s) i = Some x -> h_cond x <> ZBD_ZONE_COND_OFFLINE)).
Proof.
  intros H Hi Hx Hx'. pose proof H as [Hs Hh]%inv_sound. destruct (zone_back _ _ _ Hx) as (z & Hz & Ez). unfold __zbd_write_zone_get. rewrite Hz. cbn [mbind option_bind].
  assert (h_cond x = cond z) as Ec by (by rewrite <- Ez). assert (cond z <> ZBD_ZONE_COND_OFFLINE -> true = true -> forall x, arr_get (shapes s) i = Some x -> h_cond x <> ZBD_ZONE_COND_OFFLINE) as Hon by (intros Hc _ y Hy; congruence).
  destruct (Z.eqb_spec (cond z) ZBD_ZONE_COND_OFFLINE) as [|Hc]; [by apply ok_ret|]. specialize (Hon Hc). destruct (verify o && _); [by apply ok_ret|]. destruct (max_write_zones (zbd_info s) =? 0); [by apply ok_ret|].
  eapply ok_bind; [by apply lock_info_spec|]. intros s1 [H1 [K1 [N1 [W1 [T1 Z1]]]]]. destruct (config_size _ _ (k_config _ _ K1)) as (_ & _ & _ & E4 & _).
  apply (ok_bind _ _ (fun '(b, s') => inv us h true s' /\ keeps s s' /\ (b = true -> forall x, arr_get (shapes s) i = Some x -> h_cond x <> ZBD_ZONE_COND_OFFLINE))).
  - destruct (write z) eqn:Ew; [apply ok_ret; split; [done|]; split; [done|]; intros _; by apply Hon|]. destruct (_ && _) eqn:Ej; [by apply ok_ret|]. destruct (Z.leb_spec (max_write_zones (zbd_info s1)) (num_write_zones (zbd_info s1))); [by apply ok_ret|].
    destruct (Z1 i z Hz) as (z1 & Hz1 & Ew1). pose proof (zone_shape _ _ _ Hz1) as Sh1. rewrite (k_shapes _ _ K1), (zone_shape _ _ _ Hz) in Sh1. injection Sh1 as _ _ _ Ec1 _.
    pose proof (i_targets _ _ _ _ H1) as [M1 [M2 M3] _ _ _ _]. rewrite arr_set_Some by (rewrite M3; lia). cbn [mbind option_bind].
    eapply ok_bind; [eapply (get_new_spec us h i x s1 z1); try done; [by rewrite (k_shapes _ _ K1)|congruence|congruence|]|].
    + intros Hjob. destruct (Z.ltb_spec 0 (job_max_open_zones o)), (Z.leb_spec (job_max_open_zones o) (td_num_write_zones s1)); try done; lia.
    + intros s2 [H2 K2]. apply ok_ret. split; [done|]. split; [by eapply keeps_trans|done].
  - intros [b s2] (H2 & K2 & Hb). eapply ok_bind; [by apply (unlock_info_spec us h)|]. intros s3 [H3 [K3 _]]. apply ok_ret. split; [done|]. split; [by apply (keeps_trans s s2)|done].
Qed.

(** *** Units *)

Lemma zone_idx_spec s off : geometry s -> 0 <= off -> 0 <= off / zone_size (zbd_info s) <= nr_zones (zbd_info s) ->
  zbd_offset_to_zone_idx (zbd_info s) off = Some (off / zone_size (zbd_info s)).
Proof. intros Hg Ho Hi. apply offset_idx; [apply (g_size _ Hg)|apply (g_log _ Hg)|destruct (g_nr _ Hg); lia|done]. Qed.

Lemma unit_idx us h s u : geometry s -> held_ok us h s -> u ∈ us -> u_held u = true ->
  let i := unit_zone (zone_size (zbd_info s)) u in zbd_offset_to_zone_idx (zbd_info s) (u_offset u) = Some i /\ exists z, zone s i = Some z /\ has_wp z = true.
Proof.
  intros Hg Hh Hu Hd i. destruct (l_units _ _ _ Hh u Hu Hd) as (Hi & Ho & x & Hx & Hw). pose proof (g_file _ Hg) as Hf. unfold in_file in Hi. split; [apply zone_idx_spec; try done; unfold unit_zone in Hi; lia|].
  destruct (zone_back _ _ _ Hx) as (z & Hz & <-). by exists z.
Qed.

Lemma units_at_cons zs u us j : units_at zs (u :: us) j = ((if u_held u && (unit_zone zs u =? j)%Z then 1 else 0) + units_at zs us j)%nat.
Proof. unfold units_at. cbn [List.filter]. by destruct (_ && _). Qed.
Lemma writes_at_cons zs u us j : writes_at zs (u :: us) j = ((if u_held u && is_write u && (unit_zone zs u =? j)%Z then 1 else 0) + writes_at zs us j)%nat.
Proof. unfold writes_at. cbn [List.filter]. by destruct (_ && _ && _). Qed.

Lemma writes_few zs us j : Z.of_nat (writes_at zs us j) <= zlength us.
Proof. unfold writes_at, zlength. pose proof (List.filter_length_le (fun u => u_held u && is_write u && (unit_zone zs u =? j)) us). lia. Qed.

Lemma held_drop us h s u : held_ok (u :: us) h s -> u_held u = false -> held_ok us h s.
Proof.
  intros [H1 H2 H3 H4 H5] Hu. split; try done.
  - intros i z Hz. rewrite (H1 i z Hz), units_at_cons, Hu. done.
  - intros i z Hz. destruct (H2 i z Hz) as [-> ?]. by rewrite writes_at_cons, Hu.
  - intros v Hv. apply H3. by right.
  - unfold zlength in *. cbn [length] in H5. lia.
Qed.

(** A unit that does not count as a write. *)
Definition as_read u : io_u := mk_io_u DDIR_READ (u_offset u) (u_buflen u) (u_error u) (u_held u).

Lemma held_as_read us h s u : held_ok (u :: us) h s -> is_write u = false -> held_ok (as_read u :: us) h s.
Proof.
  intros [L1 L2 L3 L4 L5] Hr. split; try done.
  - intros j zj Hj. rewrite (L1 j zj Hj), !units_at_cons. done.
  - intros j zj Hj. destruct (L2 j zj Hj) as [-> ?]. split; [|done]. rewrite !writes_at_cons, Hr. cbn [as_read is_write u_ddir]. by rewrite !andb_false_r.
  - intros v [->|Hv]%elem_of_cons Hvd; [by apply (L3 u); [left|]|apply L3; [by right|done]].
Qed.

Lemma zone_done_spec us h lk s u : inv (u :: us) h lk s -> u_held u = true ->
  ok (zone_done s u (unit_zone (zone_size (zbd_info s)) u)) (fun s' => inv (as_read u :: us) h lk s' /\ keeps_targets s s').
Proof.
  intros [Hs Hh]%inv_sound Hu. destruct (unit_idx _ _ _ u (proj1 Hs) Hh) as (Ei & z & Hz & Hw); [by left|done|]. set (i := unit_zone _ u) in *.
  unfold zone_done. destruct (u_ddir u) eqn:Ed; try (apply ok_ret; split; [apply inv_sound; split; [done|]; apply (held_as_read us h s u); [done|unfold is_write; by rewrite Ed]|apply keeps_targets_refl]).
  rewrite (update_eq _ _ _ _ Hz). apply ok_ret. cbn beta zeta. match goal with |- context [insert _ ?y _] => set (x := y) end.
  destruct (l_flight _ _ _ Hh i z Hz) as [Fz Fx]. rewrite writes_at_cons, Hu in Fz. assert (is_write u = true) as Eu by (unfold is_write; by rewrite Ed). rewrite Eu, Z.eqb_refl in Fz. cbn [andb] in Fz.
  pose proof (writes_few (zone_size (zbd_info s)) us i) as Hfew. pose proof (l_few _ _ _ Hh) as Hl. unfold zlength in Hl, Hfew. cbn [length] in Hl.
  assert (subw 32 (writes_in_flight z) 1 = Z.of_nat (writes_at (zone_size (zbd_info s)) us i)) as Es by (unfold subw; rewrite Fz, wrap_small; [lia|unfold is_word; lia]).
  assert (x = with_flight z (Z.of_nat (writes_at (zone_size (zbd_info s)) us i))) as -> by (unfold x; rewrite Es; cbn [fixing_zone_wp with_flight]; rewrite Fx, andb_false_r; done).
  split; [|by apply (change_keeps _ _ z)]. apply inv_sound. split; [by apply (sound_change _ _ _ z)|].
  apply (held_insert (u :: us) (as_read u :: us) h h s i z); try done.
  - intros j zj Hj. cbn zeta. rewrite units_at_cons, writes_at_cons. cbn [as_read u_held is_write u_ddir unit_zone u_offset]. rewrite andb_false_r. cbn [andb].
    pose proof (l_locks _ _ _ Hh j zj Hj) as Lj. rewrite units_at_cons in Lj. destruct (l_flight _ _ _ Hh j zj Hj) as [Fj Gj]. rewrite writes_at_cons, Hu, Eu in Fj. cbn [andb] in Fj. fold i in Fj.
    destruct (decide (i = j)) as [<-|Hd].
    + assert (zj = z) as -> by congruence. cbn. split_and!; done.
    + destruct (Z.eqb_spec i j); [done|]. split_and!; done.
  - intros v [->|Hv]%elem_of_cons Hvd; [by apply (l_units _ _ _ Hh u); [left|]|apply (l_units _ _ _ Hh v); [by right|done]].
  - apply Hh.
Qed.

(** The unit gives up its zone. *)
Lemma unlock_unit_spec us h lk s u : inv (u :: us) h lk s -> u_held u = true -> is_write u = false ->
  ok (zone_unlock s (unit_zone (zone_size (zbd_info s)) u)) (fun s' => inv us h lk s' /\ keeps_targets s s').
Proof.
  intros [Hs Hh]%inv_sound Hu Hr. destruct (unit_idx _ _ _ u (proj1 Hs) Hh) as (_ & z & Hz & Hw); [by left|done|]. set (i := unit_zone _ u) in *.
  pose proof (l_locks _ _ _ Hh i z Hz) as L. rewrite units_at_cons, Hu, Z.eqb_refl in L. cbn [andb] in L. unfold zone_unlock. rewrite Hz. cbn [mbind option_bind]. apply ok_assert; [done|].
  apply ok_assert; [destruct (Nat.eqb_spec (locks z) 0); [lia|done]|]. rewrite (update_eq _ _ _ _ Hz). apply ok_ret. split; [|by apply (change_keeps _ _ z)]. apply inv_sound. split; [by apply (sound_change _ _ _ z)|].
  apply (held_insert (u :: us) us h h s i z); try done.
  - intros j zj Hj. destruct (l_flight _ _ _ Hh j zj Hj) as [F1 F2]. rewrite writes_at_cons, Hr, andb_false_r in F1. cbn [andb] in F1. pose proof (l_locks _ _ _ Hh j zj Hj) as Lj. rewrite units_at_cons, Hu in Lj. cbn [andb] in Lj. fold i in Lj. cbn zeta.
    destruct (decide (i = j)) as [<-|Hd].
    + assert (zj = z) as -> by congruence. cbn. split; [lia|]. by split.
    + destruct (Z.eqb_spec i j); [done|]. by split.
  - intros v Hv. apply (l_units _ _ _ Hh). by right.
  - apply Hh.
  - pose proof (l_few _ _ _ Hh) as Hl. unfold zlength in *. cbn [length] in Hl. lia.
Qed.

Lemma end_zone_spec us h s u i x : inv us h false s -> arr_get (shapes s) i = Some x -> ok (zbd_end_zone_io s u i) (fun s' => inv us h false s' /\ keeps s s').
Proof.
  intros H Hx. destruct (zone_back _ _ _ Hx) as (z & Hz & _). unfold zbd_end_zone_io. rewrite Hz. cbn [mbind option_bind].
  destruct (u_ddir u); try (by apply ok_ret). destruct (_ <=? _); [|by apply ok_ret]. by apply (put_locked_spec us h s i x).
Qed.

Lemma put_io_spec us h s u : inv (u :: us) h false s -> ok (zbd_put_io_u s u) (fun s' => inv us h false s' /\ keeps s s').
Proof.
  intros H. pose proof H as [Hs Hh]%inv_sound. unfold zbd_put_io_u. destruct (u_held u) eqn:Hu; [|apply ok_ret; split; [|apply keeps_refl]; apply inv_sound; split; [done|by apply (held_drop us h s u)]].
  destruct (unit_idx _ _ _ u (proj1 Hs) Hh) as (Ei & z & Hz & Hw); [by left|done|]. unfold zbd_put_io. rewrite Ei. cbn [mbind option_bind]. rewrite Hz. cbn [mbind option_bind]. apply ok_assert; [done|].
  eapply ok_bind; [eapply (end_zone_spec (u :: us) h); [done|by apply zone_shape]|]. intros s1 [H1 K1]. destruct (config_size _ _ (k_config _ _ K1)) as [E1 _].
  eapply ok_bind; [rewrite <- E1; by apply (zone_done_spec us h false)|]. intros s2 [H2 [K2 _]]. destruct (config_size _ _ (k_config _ _ K2)) as [E2 _].
  eapply ok_impl; [rewrite <- E1, <- E2; exact (unlock_unit_spec us h false s2 (as_read u) H2 Hu eq_refl)|]. intros s3 [H3 [K3 _]]. split; [done|]. eapply keeps_trans; [done|]. by eapply keeps_trans.
Qed.

Lemma put_all_spec l us h s : inv (l ++ us) h false s -> ok (put_all l s) (fun s' => inv us h false s' /\ keeps s s').
Proof.
  revert s. induction l as [|u l IH]; intros s H; cbn [put_all]; [apply ok_ret; split; [done|apply keeps_refl]|].
  eapply ok_bind; [apply (put_io_spec (l ++ us) h s u H)|]. intros s1 [H1 K1]. eapply ok_impl; [by apply IH|]. intros s2 [H2 K2]. split; [done|]. by eapply keeps_trans.
Qed.

Lemma units_perm zs us us' j : us ≡ₚ us' -> units_at zs us j = units_at zs us' j /\ writes_at zs us j = writes_at zs us' j.
Proof.
  intros H. unfold units_at, writes_at. split; apply Permutation_length.
  - induction H as [|u l l' _ IH|u v l|l1 l2 l3 _ IH1 _ IH2]; cbn; [done|by destruct (_ && _); rewrite IH|repeat destruct (_ && _); solve [reflexivity|apply perm_swap]|by rewrite IH1].
  - induction H as [|u l l' _ IH|u v l|l1 l2 l3 _ IH1 _ IH2]; cbn; [done|by destruct (_ && _ && _); rewrite IH|repeat destruct (_ && _ && _); solve [reflexivity|apply perm_swap]|by rewrite IH1].
Qed.

Lemma inv_perm us us' h lk s : us ≡ₚ us' -> inv us h lk s -> inv us' h lk s.
Proof.
  intros Hp [Hs [L1 L2 L3 L4 L5]]%inv_sound. apply inv_sound. split; [done|]. split; try done.
  - intros i z Hz. destruct (units_perm (zone_size (zbd_info s)) _ _ i Hp) as [<- _]. by apply L1.
  - intros i z Hz. destruct (units_perm (zone_size (zbd_info s)) _ _ i Hp) as [_ <-]. by apply L2.
  - intros u Hu. apply L3. by rewrite Hp.
  - unfold zlength in *. by rewrite <- Hp.
Qed.

(** *** Waiting *)

Context (completion : list io_u -> list io_u) (completion_all : forall l, completion l ≡ₚ l).

Lemma quiesce_spec p h s : inv (flying s ++ p) h false s -> ok (io_u_quiesce completion s) (fun s' => inv (flying s' ++ p) h false s' /\ flying s' = [] /\ shapes s' = shapes s /\ config s' = config s /\ commands s' = commands s).
Proof.
  intros H. unfold io_u_quiesce. assert (inv (completion (flying s) ++ p) h false (set_flying s [])) as H1.
  { apply (inv_perm (flying s ++ p)); [by rewrite completion_all|]. destruct H as [G T L D R K C]. split; try done; [by destruct G|by destruct T|by destruct L]. }
  eapply ok_impl; [by apply put_all_spec|]. intros s' [H2 [K1 K2 K3 K4]]. assert (flying s' = []) as E by done. split; [by rewrite E|]. done.
Qed.

(** *** Moving a write pointer *)

Definition shape_wp (x : shape) (w : Z) : shape := mk_shape (h_start x) w (h_capacity x) (h_cond x) (h_has_wp x).

(** Zone [i] has the pointer [w], and all else is as before. *)
Definition moved s s' i (w : Z) : Prop :=
  config s' = config s /\ flying s' = flying s /\ exists x, arr_get (shapes s) i = Some x /\ shapes s' = <[Z.to_nat i := shape_wp x w]> (shapes s).

Definition command_to s (c : command) : state := if zoned s then issue s c else s.

Lemma moved_spec us h lk s i z w c : inv us h lk s -> zone s i = Some z -> in_file i -> has_wp z = true ->
  (start z <= w <= start z + cap i \/ w = start z + zone_size (zbd_info s)) ->
  (whole = true -> (min_bs o DDIR_WRITE | start z + cap i - w) \/ start z + cap i <= w) ->
  (forall d, d i = wp z -> exists d', device_step (zone_size (zbd_info s)) cap d c = Some d' /\ forall j, d' j = move d i w j) ->
  let s' := set_zones (command_to s c) (<[Z.to_nat i := with_wp z w]> (zone_info (zbd_info s))) in inv us h lk s' /\ moved s s' i w.
Proof.
  intros [Hs Hh]%inv_sound Hz Hi Hw Hwp Hrest Hc s'. destruct Hs as (Hg & Ht & Hd & Hrs & Hl & Hcnt).
  assert (config s' = config s /\ flying s' = flying s /\ td_num_write_zones s' = td_num_write_zones s /\ zone_info (zbd_info s') = <[Z.to_nat i := with_wp z w]> (zone_info (zbd_info s)) /\
    num_write_zones (zbd_info s') = num_write_zones (zbd_info s) /\ write_zones (zbd_info s') = write_zones (zbd_info s) /\ locked (zbd_info s') = locked (zbd_info s) /\ write_cnt (zbd_info s') = write_cnt (zbd_info s))
    as (E1 & E2 & E3 & E4 & E5 & E6 & E7 & E8) by (unfold s', command_to; by destruct (zoned s)).
  assert (forall j, zone s' j = if decide (i = j) then Some (with_wp z w) else zone s j) as Ez.
  { intros j. unfold zone. rewrite E4. unfold zone in Hz. apply arr_get_insert. by apply arr_get_range in Hz. }
  assert (shapes s' = <[Z.to_nat i := shape_wp (shape_of z) w]> (shapes s)) as Es by (unfold shapes; rewrite E4, list_fmap_insert; done).
  pose proof (zone_shape _ _ _ Hz) as Hx. destruct (config_size _ _ E1) as (C1 & C2 & C3 & C4 & C5).
  assert (forall j, arr_get (shapes s') j = if decide (i = j) then Some (shape_wp (shape_of z) w) else arr_get (shapes s) j) as Esj by (intros j; rewrite Es; apply arr_get_insert; by apply arr_get_range in Hx).
  split; [|split; [done|]; split; [done|]; by exists (shape_of z)]. apply inv_sound. split; [split_and!|].
  - destruct Hg. split; rewrite ?E1, ?C1, ?C2, ?C3; try done.
    + rewrite Es. unfold zlength in *. by rewrite length_insert.
    + intros j x. rewrite Esj. case_decide; [intros [= <-]; subst j; by apply (g_start0 i (shape_of z))|by apply g_start0].
    + intros j x Hj. rewrite Esj. case_decide; [intros [= <-]; subst j|by apply g_wp0]. destruct (g_wp0 i _ Hi Hx) as (? & ? & _). done.
    + intros j x Hj. rewrite Esj. case_decide; [intros [= <-]; cbn; by rewrite Hw|by apply g_conv0].
  - destruct Ht. unfold targets in *. split; unfold targets; rewrite ?C4, ?E3, ?E5, ?E6; try done.
    + intros j zj. rewrite Ez. case_decide; [intros [= <-]; subst j; by apply (t_flag0 i z)|by apply t_flag0].
    + intros j Hj. destruct (t_zone0 j Hj) as (? & x & Hxj & ?). split; [done|]. rewrite Esj. case_decide; [subst j|by exists x]. exists (shape_wp (shape_of z) w). split; [done|]. assert (x = shape_of z) as -> by congruence. done.
  - intros Hzo. rewrite C5 in Hzo. destruct (Hd Hzo) as (d & Hdev & Hdw). destruct (Hc d) as (d' & Hd' & Hm); [by rewrite <- (Hdw i (shape_of z) Hi Hx Hw)|]. exists d'. split.
    + rewrite C1. unfold s', command_to. rewrite Hzo. cbn [set_zones issue commands device set_zi]. rewrite Hdev. cbn [mbind option_bind]. exact Hd'.
    + intros j x Hj. rewrite Esj, Hm. unfold move. destruct (decide (i = j)) as [<-|Hn]; [intros [= <-] _; by rewrite Z.eqb_refl|]. destruct (Z.eqb_spec j i); [done|]. by apply Hdw.
  - intros Hwh j x Hj. rewrite Esj. destruct (decide (i = j)) as [<-|]; [intros [= <-] _|by apply Hrs]. cbn. split; [by apply (Hrs Hwh i (shape_of z) Hi Hx Hw)|by apply Hrest].
  - by rewrite E7.
  - by rewrite E8.
  - destruct Hh. split; rewrite ?C1; try done.
    + intros j zj. rewrite Ez. case_decide; [intros [= <-]; subst j; by apply (l_locks0 i z)|by apply l_locks0].
    + intros j zj. rewrite Ez. case_decide; [intros [= <-]; subst j; by apply (l_flight0 i z)|by apply l_flight0].
    + intros u Hu Hud. destruct (l_units0 u Hu Hud) as (? & ? & x & Hxj & ?). split; [done|]. split; [done|]. rewrite Esj. case_decide as Hcase; [|by exists x]. eexists. split; [done|]. rewrite <- Hcase in Hxj. assert (x = shape_of z) as -> by congruence. done.
    + intros j Hj. destruct (l_held0 j Hj) as (? & x & Hxj & ?). split; [done|]. rewrite Esj. case_decide; [subst j|by exists x]. eexists. split; [done|]. assert (x = shape_of z) as -> by congruence. done.
Qed.

Lemma moved_keeps s1 s2 s3 i w : keeps s1 s2 -> moved s2 s3 i w -> moved s1 s3 i w.
Proof. intros [K1 K2 K3 K4] (M1 & M2 & x & M3 & M4). split; [congruence|]. split; [congruence|]. exists x. by rewrite <- K1. Qed.

Lemma keeps_moved s1 s2 s3 i w : moved s1 s2 i w -> keeps s2 s3 -> moved s1 s3 i w.
Proof. intros (M1 & M2 & x & M3 & M4) [K1 K2 K3 K4]. split; [congruence|]. split; [congruence|]. exists x. split; [done|]. congruence. Qed.

Lemma zone_in_file s i : geometry s -> in_file i -> exists z next, zone s i = Some z /\ zone s (i + 1) = Some next /\ start z = i * zone_size (zbd_info s) /\ start next = i * zone_size (zbd_info s) + zone_size (zbd_info s) /\
  0 <= i < nr_zones (zbd_info s) /\ 0 <= start z /\ start next < 2 ^ 63 /\ capacity z = cap i /\ 0 <= cap i <= zone_size (zbd_info s) /\
  (has_wp z = true -> start z <= wp z <= start z + cap i \/ wp z = start z + zone_size (zbd_info s)).
Proof.
  intros Hg Hi. pose proof (g_file _ Hg) as Hf. pose proof Hi as Hi'. unfold in_file in Hi'. destruct (zone_exists s i Hg) as [z Hz]; [lia|]. destruct (zone_exists s (i + 1) Hg) as [z' Hz']; [lia|]. exists z, z'.
  pose proof (zone_shape _ _ _ Hz) as Sz. pose proof (g_start _ Hg i _ Sz) as E1. pose proof (g_start _ Hg (i + 1) _ (zone_shape _ _ _ Hz')) as E2. destruct (g_wp _ Hg i _ Hi Sz) as (W1 & W2 & W3).
  destruct (g_nr _ Hg) as [_ Hn]. pose proof (g_size _ Hg) as Hs. cbn in E1, E2, W1, W3. split_and!; try done; nia.
Qed.

Lemma subw_small a b : 0 <= b <= a -> a < 2 ^ 64 -> subw 64 a b = a - b.
Proof. intros. apply wrap_small. unfold is_word. lia. Qed.
Lemma addw_small a b : 0 <= a -> 0 <= b -> a + b < 2 ^ 64 -> addw 64 a b = a + b.
Proof. intros. apply wrap_small. unfold is_word. lia. Qed.

Lemma div_start i zs : 0 < zs -> i * zs / zs = i.
Proof. intros. apply Z.div_mul. lia. Qed.

Context (reset_wp finish_wp : Z -> Z -> Z).

Lemma finish_spec us h s i x : inv us h false s -> in_file i -> arr_get (shapes s) i = Some x -> h_has_wp x = true ->
  ok (zbd_finish_zone finish_wp s i) (fun '(r, s') => inv us h false s' /\ if r <? 0 then s' = s else moved s s' i (i * zone_size (zbd_info s) + zone_size (zbd_info s))).
Proof.
  intros H Hi Hx Hw. pose proof (i_geometry _ _ _ _ H) as Hg. destruct (zone_in_file s i Hg Hi) as (z & nx & Hz & Hn & E1 & E2 & B1 & B2 & B3 & C1 & C2 & C3).
  pose proof (zone_shape _ _ _ Hz) as Sz. assert (x = shape_of z) as -> by congruence. pose proof (g_size _ Hg) as Hs. unfold zbd_finish_zone. rewrite Hz. cbn [mbind option_bind]. unfold zbd_zone_end. rewrite Hn. cbn [mbind option_bind].
  set (r := if zoned s then _ else _). assert (r = (fst r, if fst r <? 0 then s else command_to s (Finish (start z)))) as ->.
  { unfold r, command_to. destruct (zoned s); [|done]. cbn [fst]. destruct (Z.leb_spec 0 (finish_wp (start z) (zone_size (zbd_info s)))), (Z.ltb_spec (finish_wp (start z) (zone_size (zbd_info s))) 0); by try lia. }
  clearbody r. destruct (fst r <? 0) eqn:Er; [apply ok_ret; by rewrite Er|].
  assert (zone (command_to s (Finish (start z))) i = Some z) as Hz1 by (unfold command_to; by destruct (zoned s)). rewrite (update_eq _ _ _ _ Hz1). cbn [mbind option_bind]. apply ok_ret. rewrite Er.
  assert (zone_info (zbd_info (command_to s (Finish (start z)))) = zone_info (zbd_info s)) as -> by (unfold command_to; by destruct (zoned s)). rewrite <- E2.
  apply (moved_spec us h false s i z (start nx) (Finish (start z)) H Hz Hi Hw); [right; lia|intros _; right; lia|]. intros d Hd. cbn [device_step]. rewrite E1, Z.mod_mul, div_start by lia. cbn. eexists. split; [done|].
  intros j. by rewrite E2.
Qed.

Lemma valid_in_file s off : geometry s -> file_offset f <= off < file_offset f + io_size f <-> is_valid_offset f off = true /\ 0 <= off < 2 ^ 64.
Proof.
  intros Hg. destruct (g_offset _ Hg) as [E1 E2]. destruct (g_file _ Hg) as [F1 F2]. pose proof (g_size _ Hg) as Hs. destruct (g_nr _ Hg) as [_ Hn]. unfold is_valid_offset, subw, wrap. rewrite Z.ltb_lt.
  assert (0 <= file_offset f /\ 0 <= io_size f /\ file_offset f + io_size f < 2 ^ 63) as (? & ? & ?) by nia. split.
  - intros. rewrite Z.mod_small by lia. lia.
  - intros [Hm Hb]. destruct (Z.le_gt_cases (file_offset f) off); [rewrite Z.mod_small in Hm by lia; lia|]. rewrite (Z.mod_eq (off - file_offset f)) in Hm by lia.
    assert ((off - file_offset f) / 2 ^ 64 = -1) as Hq by (symmetry; apply (Z.div_unique _ _ _ (off - file_offset f + 2 ^ 64)); lia). rewrite Hq in Hm. lia.
Qed.

Lemma start_valid s i : geometry s -> in_file i -> forall k, 0 <= k < zone_size (zbd_info s) -> is_valid_offset f (i * zone_size (zbd_info s) + k) = true.
Proof.
  intros Hg Hi k Hk. apply (valid_in_file s); [done|]. destruct (g_offset _ Hg) as [-> ->]. pose proof (g_size _ Hg) as Hs. unfold in_file in Hi. nia.
Qed.

Lemma set_vdb_inv us h lk s n : inv us h lk s -> inv us h lk (set_vdb s n).
Proof. intros [G T L D R K C]. split; try done; [by destruct G|by destruct T|by destruct L]. Qed.

Lemma set_resets_inv us h lk s n : inv us h lk s -> inv us h lk (set_resets s n).
Proof. intros [G T L D R K C]. split; try done; [by destruct G|by destruct T|by destruct L]. Qed.

(** What a job that accounts for the valid data does around a change of their number. *)
Lemma account_eq (b : bool) s (n : state -> Z) : locked (zbd_info s) = false ->
  (if b then let* s := lock_info s in unlock_info (set_vdb s (n s)) else Some s) = Some (if b then set_vdb s (n (set_locked s true)) else s).
Proof.
  intros Hl. destruct b; [|done]. unfold lock_info. rewrite Hl. cbn. unfold set_vdb, set_locked, set_info, set_zi. cbn. by rewrite Hl.
Qed.

Lemma reset_spec us h s i x : inv us h false s -> in_file i -> arr_get (shapes s) i = Some x -> h_has_wp x = true ->
  ok (__zbd_reset_zone o f reset_wp s i) (fun '(r, s') => inv us h false s' /\ if r <? 0 then s' = s else moved s s' i (i * zone_size (zbd_info s))).
Proof.
  intros H Hi Hx Hw. pose proof (i_geometry _ _ _ _ H) as Hg. destruct (zone_in_file s i Hg Hi) as (z & nx & Hz & Hn & E1 & E2 & B1 & B2 & B3 & C1 & C2 & C3).
  pose proof (zone_shape _ _ _ Hz) as Sz. assert (x = shape_of z) as -> by congruence. pose proof (g_size _ Hg) as Hs. unfold __zbd_reset_zone. rewrite Hz. cbn [mbind option_bind]. unfold zbd_zone_end. rewrite Hn. cbn [mbind option_bind].
  specialize (C3 Hw). rewrite (subw_small (wp z)) by lia. destruct (Z.eqb_spec (wp z - start z) 0) as [E0|E0].
  { apply ok_ret. split; [done|]. split; [done|]. split; [done|]. exists (shape_of z). split; [done|]. rewrite list_insert_id; [done|]. unfold arr_get in Sz. destruct (i <? 0); [done|]. rewrite Sz. f_equal. unfold shape_wp, shape_of. cbn. f_equal. lia. }
  rewrite (subw_small (start nx)), (addw_small (start z)) by lia. rewrite (subw_small _ 1) by lia. apply ok_assert; [rewrite E1; replace (i * zone_size (zbd_info s) + (start nx - i * zone_size (zbd_info s)) - 1) with (i * zone_size (zbd_info s) + (zone_size (zbd_info s) - 1)) by lia; apply start_valid; by try lia|].
  set (r := if zoned s then _ else _). assert (r = (fst r, if fst r <? 0 then s else command_to s (Reset (start z)))) as ->.
  { unfold r, command_to. destruct (zoned s); [|done]. cbn [fst]. destruct (Z.leb_spec 0 (reset_wp (start z) (start nx - start z))), (Z.ltb_spec (reset_wp (start z) (start nx - start z)) 0); by try lia. }
  clearbody r. destruct (fst r <? 0) eqn:Er; [apply ok_ret; by rewrite Er|].
  assert (locked (zbd_info (command_to s (Reset (start z)))) = false) as Hl by (unfold command_to; destruct (zoned s); apply (i_locked _ _ _ _ H)).
  rewrite (account_eq _ _ (fun s => subw 64 (wp_valid_data_bytes (zbd_info s)) (wp z - start z)) Hl). cbn [mbind option_bind]. set (n := subw 64 _ _). clearbody n.
  pose proof (moved_spec us h false s i z (start z) (Reset (start z)) H Hz Hi Hw) as Hm. cbn zeta in Hm. destruct Hm as [M1 M2]; [lia| | |].
  { intros Hwh. left. replace (start z + cap i - start z) with (cap i) by lia. by apply (i_rests _ _ _ _ H Hwh i (shape_of z) Hi Sz Hw). }
  { intros d Hd. cbn [device_step]. rewrite E1, Z.mod_mul, div_start by lia. cbn. by eexists. }
  set (s1 := if accounting_vdb o then _ else _). assert (zone s1 i = Some z) as Hz1 by (unfold s1, command_to; by destruct (zoned s), (accounting_vdb o)). rewrite (update_eq _ _ _ _ Hz1). cbn [mbind option_bind]. apply ok_ret. rewrite Er.
  assert (set_zones s1 (<[Z.to_nat i := with_wp z (start z)]> (zone_info (zbd_info s1))) = let s2 := set_zones (command_to s (Reset (start z))) (<[Z.to_nat i := with_wp z (start z)]> (zone_info (zbd_info s))) in if accounting_vdb o then set_vdb s2 n else s2) as ->
    by (unfold s1, command_to; by destruct (zoned s), (accounting_vdb o)).
  rewrite <- E1. cbn zeta. split; [apply set_resets_inv; destruct (accounting_vdb o); [by apply set_vdb_inv|done]|by destruct (accounting_vdb o)].
Qed.

(** *** Walks around the zones of the file *)

Definition nxt i : Z := if max_zone f <=? i + 1 then min_zone f else i + 1.

Lemma nxt_in_file i : in_file i -> in_file (nxt i).
Proof. unfold in_file, nxt. intros H. destruct (Z.leb_spec (max_zone f) (i + 1)); lia. Qed.

Lemma iter_nxt k i : in_file i -> Nat.iter k nxt i = min_zone f + (i - min_zone f + Z.of_nat k) mod (max_zone f - min_zone f).
Proof.
  intros Hi. unfold in_file in Hi. set (n := max_zone f - min_zone f). induction k as [|k IH]; [cbn; rewrite Z.add_0_r, Z.mod_small by lia; lia|].
  rewrite Nat.iter_succ, IH. set (y := i - min_zone f + Z.of_nat k). replace (i - min_zone f + Z.of_nat (S k)) with (y + 1) by lia.
  pose proof (Z.mod_pos_bound y n) as Hb. pose proof (Z.div_mod y n) as Hd. unfold nxt. destruct (Z.leb_spec (max_zone f) (min_zone f + y mod n + 1)).
  - rewrite <- (Z.mod_unique (y + 1) n (y / n + 1) 0); lia.
  - rewrite <- (Z.mod_unique (y + 1) n (y / n) (y mod n + 1)); lia.
Qed.

Lemma iter_nxt_all i : in_file i -> Nat.iter (Z.to_nat (max_zone f - min_zone f)) nxt i = i.
Proof.
  intros Hi. rewrite iter_nxt by done. unfold in_file in Hi. rewrite Z2Nat.id by lia.
  rewrite <- (Z.mod_unique _ _ 1 (i - min_zone f)); lia.
Qed.

(** The zone [i], if the code holds it when it comes there. *)
Definition seq_zone s i : option Z := match arr_get (shapes s) i with Some x => if h_has_wp x then Some i else None | None => None end.

Lemma seq_zone_keeps s s' i : shapes s' = shapes s -> seq_zone s' i = seq_zone s i.
Proof. unfold seq_zone. by intros ->. Qed.

Lemma seq_zone_spec s i z : zone s i = Some z -> seq_zone s i = if has_wp z then Some i else None.
Proof. intros Hz. unfold seq_zone. by rewrite (zone_shape _ _ _ Hz). Qed.

Lemma next_seq_spec fuel s i d : geometry s -> in_file i -> (d <= fuel)%nat -> seq_zone s (Nat.iter (S d) nxt i) <> None ->
  ok (next_seq_zone f fuel s i) (fun j => in_file j /\ exists x, arr_get (shapes s) j = Some x /\ h_has_wp x = true).
Proof.
  intros Hg. revert i d. induction fuel as [|fuel IH]; intros i d Hi Hd Hs; cbn [next_seq_zone]; fold (nxt i); pose proof (nxt_in_file _ Hi) as Hn; destruct (zone_in_file s (nxt i) Hg Hn) as (z & _ & Hz & _);
    rewrite Hz; cbn [mbind option_bind]; rewrite Nat.iter_succ_r in Hs; destruct (has_wp z) eqn:Ew;
    try (apply ok_ret; split; [done|]; exists (shape_of z); split; [by apply zone_shape|done]).
  - destruct d; [|lia]. cbn in Hs. by rewrite (seq_zone_spec _ _ _ Hz), Ew in Hs.
  - destruct d as [|d]; [cbn in Hs; by rewrite (seq_zone_spec _ _ _ Hz), Ew in Hs|]. apply (IH (nxt i) d); [done|lia|done].
Qed.

(** *** How many zones have a rest that is too small for a block *)

Context (finish_works : whole = true \/ forall off len, 0 <= finish_wp off len).

Definition rest (x : shape) : Z := if addw 64 (h_start x) (h_capacity x) <=? h_wp x then 0 else subw 64 (addw 64 (h_start x) (h_capacity x)) (h_wp x).
Definition partial (x : shape) : bool := (0 <? rest x) && (rest x <? min_bs o DDIR_WRITE).
Definition partials s : nat := length (List.filter partial (shapes s)).

Lemma rest_spec z : rest (shape_of z) = zbd_zone_remainder z.
Proof. done. Qed.

Lemma filter_insert {A} (q : A -> bool) (l : list A) k x y : l !! k = Some x -> q y = false ->
  (length (List.filter q (<[k := y]> l)) + (if q x then 1 else 0) = length (List.filter q l))%nat.
Proof.
  revert k. induction l as [|w l IH]; intros [|k]; try done.
  - cbn. intros [= ->] ->. destruct (q x); cbn; lia.
  - change (<[S k := y]> (w :: l)) with (w :: <[k := y]> l). cbn [List.filter]. intros Hx Hy. specialize (IH k Hx Hy). destruct (q w); cbn [length]; lia.
Qed.

Lemma partials_finish s s' i x : geometry s -> in_file i -> arr_get (shapes s) i = Some x -> moved s s' i (i * zone_size (zbd_info s) + zone_size (zbd_info s)) ->
  (partials s' + (if partial x then 1 else 0) = partials s)%nat.
Proof.
  intros Hg Hi Hx (_ & _ & y & Hy & E). assert (y = x) as -> by congruence. unfold partials. rewrite E. unfold arr_get in Hx. destruct (i <? 0) eqn:Ei; [done|]. apply (filter_insert partial (shapes s) _ x); [done|].
  assert (arr_get (shapes s) i = Some x) as Hx' by (unfold arr_get; by rewrite Ei). destruct (g_wp _ Hg i x Hi Hx') as (C1 & C2 & _). pose proof (g_start _ Hg i x Hx') as Es. destruct (g_nr _ Hg) as [_ Hn].
  pose proof (g_file _ Hg) as Hf. pose proof (g_size _ Hg) as Hsz. unfold in_file in Hi. unfold partial, rest. cbn. rewrite Es, C1. assert (0 <= i * zone_size (zbd_info s) <= nr_zones (zbd_info s) * zone_size (zbd_info s)) by (split; [apply Z.mul_nonneg_nonneg; lia|apply Z.mul_le_mono_nonneg_r; lia]). rewrite addw_small by lia.
  destruct (Z.leb_spec (i * zone_size (zbd_info s) + cap i) (i * zone_size (zbd_info s) + zone_size (zbd_info s))); [done|lia].
Qed.

Lemma partials_same s s' : shapes s' = shapes s -> partials s' = partials s.
Proof. unfold partials. by intros ->. Qed.

(** Zones that are whole have no such rest. *)
Lemma rests_not_partial s i x : geometry s -> rests_ok s -> whole = true -> in_file i -> arr_get (shapes s) i = Some x -> h_has_wp x = true -> partial x = false.
Proof.
  intros Hg Hr Hwh Hi Hx Hw. destruct (Hr Hwh i x Hi Hx Hw) as [_ Hd]. destruct (g_wp _ Hg i x Hi Hx) as (C1 & C2 & C3). specialize (C3 Hw). pose proof (g_start _ Hg i x Hx) as Es. destruct (g_nr _ Hg) as [_ Hn].
  pose proof (g_file _ Hg) as Hf. pose proof (g_size _ Hg) as Hsz. unfold in_file in Hi. assert (0 <= i * zone_size (zbd_info s) <= nr_zones (zbd_info s) * zone_size (zbd_info s)) by (split; [apply Z.mul_nonneg_nonneg; lia|apply Z.mul_le_mono_nonneg_r; lia]).
  unfold partial, rest. rewrite C1, addw_small by lia. destruct (Z.leb_spec (h_start x + cap i) (h_wp x)); [done|]. rewrite subw_small by lia. destruct Hd as [Hd|]; [|lia]. apply andb_false_iff. right. apply Z.ltb_ge, Z.divide_pos_le; [lia|done].
Qed.

(** *** The parts of [zbd_convert_to_write_zone]; [p] are units that hold a zone and are not in flight *)

Context (p : list io_u).

(** The invariant with the units of the state itself. *)
Definition live h lk s : Prop := inv (flying s ++ p) h lk s.

(** No zone has less room than before but those that are finished. *)
Definition settles s s' : Prop := config s' = config s /\ (partials s' <= partials s)%nat /\ (length (flying s') <= length (flying s))%nat.

Lemma settles_trans s1 s2 s3 : settles s1 s2 -> settles s2 s3 -> settles s1 s3.
Proof. intros (E1 & P1 & L1) (E2 & P2 & L2). split; [congruence|lia]. Qed.
Lemma settles_refl s : settles s s.
Proof. done. Qed.
Lemma keeps_settles s s' : keeps s s' -> settles s s'.
Proof. intros [K1 K2 _ K4]. split; [done|]. by rewrite (partials_same _ _ K1), K4. Qed.

Lemma live_keeps h lk s s' : keeps s s' -> inv (flying s ++ p) h lk s' -> live h lk s'.
Proof. intros [_ _ _ K]. unfold live. by rewrite K. Qed.

Lemma held_zone h lk s i : live (Some i) lk s -> h = Some i -> in_file i /\ exists x, arr_get (shapes s) i = Some x /\ h_has_wp x = true.
Proof. intros H ->. by apply (l_held _ _ _ (i_held _ _ _ _ H)). Qed.

Lemma live_lock lk s i : live None lk s -> in_file i -> seq_zone s i <> None -> ok (zone_lock f s i) (fun s' => live (Some i) lk s' /\ keeps_targets s s').
Proof.
  intros H Hi Hs. unfold seq_zone in Hs. destruct (arr_get (shapes s) i) as [x|] eqn:Hx; [|done]. destruct (h_has_wp x) eqn:Hw; [|done]. eapply ok_impl; [by apply (zone_lock_spec _ _ _ _ x H)|].
  intros s' [H' K]. split; [|done]. by apply (live_keeps _ _ s); [apply K|].
Qed.

Lemma live_unlock lk s i : live (Some i) lk s -> ok (zone_unlock s i) (fun s' => live None lk s' /\ keeps_targets s s').
Proof. intros H. eapply ok_impl; [by apply zone_unlock_spec|]. intros s' [H' K]. split; [|done]. by apply (live_keeps _ _ s); [apply K|]. Qed.

Lemma live_lock_info h s : live h false s -> ok (lock_info s) (fun s' => live h true s' /\ keeps_targets s s').
Proof. intros H. eapply ok_impl; [by apply lock_info_spec|]. intros s' [H' K]. split; [|done]. by apply (live_keeps _ _ s); [apply K|]. Qed.
Lemma live_unlock_info h s : live h true s -> ok (unlock_info s) (fun s' => live h false s' /\ keeps_targets s s').
Proof. intros H. eapply ok_impl; [by apply unlock_info_spec|]. intros s' [H' K]. split; [|done]. by apply (live_keeps _ _ s); [apply K|]. Qed.

Lemma live_quiesce h s : live h false s -> ok (io_u_quiesce completion s) (fun s' => live h false s' /\ flying s' = [] /\ shapes s' = shapes s /\ config s' = config s).
Proof. intros H. eapply ok_impl; [by apply (quiesce_spec p)|]. by intros s' (H' & ? & ? & ? & _). Qed.

(** A zone that can be written to, or finished. *)
Definition online s i : Prop := forall x, arr_get (shapes s) i = Some x -> h_cond x <> ZBD_ZONE_COND_OFFLINE.

Lemma live_get s i : live (Some i) false s -> (min_bs o DDIR_WRITE & 511)%word = 0 ->
  ok (zbd_write_zone_get o s i) (fun '(b, s') => live (Some i) false s' /\ keeps s s' /\ (b = true -> online s i)).
Proof.
  intros H Hbs. destruct (held_zone _ _ _ _ H eq_refl) as (Hi & x & Hx & Hw). destruct (zone_back _ _ _ Hx) as (z & Hz & _). unfold zbd_write_zone_get. rewrite Hz. cbn [mbind option_bind].
  unfold zbd_zone_full. rewrite Hbs. cbn [Z.eqb c_assert mbind option_bind].
  assert (ok (if verify o then Some (has_wp z && (zbd_zone_remainder z <? min_bs o DDIR_WRITE)) else Some false) (fun _ => True)) as (full & -> & _) by (destruct (verify o); by eexists). cbn [mbind option_bind].
  destruct full; [by apply ok_ret|]. eapply ok_impl; [by apply (get_spec (flying s ++ p) (Some i) i x)|]. intros [b s'] (H' & K & Hb). split; [by apply (live_keeps _ _ s)|]. by split.
Qed.

Context (blocks : (min_bs o DDIR_WRITE & 511)%word = 0).

(** *** A rest that is too small *)

(** A finish may fail, where the zones are whole. *)
Lemma finish_done us h s i x : inv us h false s -> in_file i -> arr_get (shapes s) i = Some x -> h_has_wp x = true ->
  ok (zbd_finish_zone finish_wp s i) (fun '(_, s') => inv us h false s' /\ (moved s s' i (i * zone_size (zbd_info s) + zone_size (zbd_info s)) \/ whole = true /\ s' = s)).
Proof.
  intros H Hi Hx Hw. destruct (finish_spec us h s i x H Hi Hx Hw) as ([r s'] & E & H' & M). exists (r, s'). split; [done|]. split; [done|]. destruct (Z.ltb_spec r 0) as [Hr|Hr]; [|by left].
  destruct finish_works as [Hwh|Hf]; [by right|]. exfalso. unfold zbd_finish_zone in E. destruct (zone s i) as [z|]; [|done]. cbn [mbind option_bind] in E. destruct (zbd_zone_end s i); [|done]. cbn [mbind option_bind] in E.
  destruct (zoned s); cbn [Z.ltb] in E.
  - specialize (Hf (start z) (zone_size (zbd_info s))). destruct (Z.ltb_spec (finish_wp (start z) (zone_size (zbd_info s))) 0); [lia|]. destruct (update _ _ _); [|done]. cbn in E. injection E as <- _. lia.
  - change (0 <? 0) with false in E. cbn iota in E. destruct (update _ _ _); [|done]. cbn in E. injection E as <- _. lia.
Qed.

Lemma finish_remainder_spec s i : live (Some i) false s ->
  ok (finish_remainder o f finish_wp completion s i) (fun '(r, s') => settles s s' /\ match r with
    | zone_found _ => False
    | no_zone => live None false s'
    | go_on j => live (Some j) false s' /\ ((j = i /\ s' = s /\ forall x, arr_get (shapes s) i = Some x -> partial x = false) \/ (partials s' < partials s)%nat)
    end).
Proof.
  intros H. pose proof (i_geometry _ _ _ _ H) as Hg. destruct (held_zone _ _ _ _ H eq_refl) as (Hi & x & Hx & Hw). destruct (zone_back _ _ _ Hx) as (z & Hz & Ez). unfold finish_remainder. rewrite Hz. cbn [mbind option_bind].
  destruct (_ && _) eqn:Hp; [|apply ok_ret; split; [done|]; split; [done|]; left; split; [done|]; split; [done|]; intros y Hy; assert (y = shape_of z) as -> by congruence; exact Hp].
  eapply ok_bind; [by apply (put_locked_spec _ _ _ _ x H)|]. intros s1 [H1 K1]. apply (live_keeps _ _ s) in H1; [|done]. eapply ok_bind; [by apply live_quiesce|]. intros s2 (H2 & F2 & S2 & C2).
  assert (arr_get (shapes s2) i = Some x) as Hx2 by (by rewrite S2, (k_shapes _ _ K1)).
  assert (partial x = true) as Hpx by (by rewrite <- Ez).
  eapply ok_bind; [by apply (finish_done _ _ _ _ x H2)|]. intros [r s3] [H3 [M3|[Hwh _]]]; [|by rewrite (rests_not_partial s2 i x (i_geometry _ _ _ _ H2) (i_rests _ _ _ _ H2) Hwh Hi Hx2 Hw) in Hpx].
  pose proof M3 as (C3 & F3 & _). assert (live (Some i) false s3) as L3 by (unfold live; by rewrite F3).
  pose proof (partials_finish s2 s3 i x (i_geometry _ _ _ _ H2) Hi Hx2 M3) as Hc. rewrite Hpx in Hc. rewrite (partials_same s s2) in Hc by (by rewrite S2, (k_shapes _ _ K1)).
  eapply ok_bind; [by apply live_unlock|]. intros s4 [H4 [K4 _]]. pose proof (i_geometry _ _ _ _ H4) as Hg4.
  assert (config s4 = config s) as C4 by (rewrite (k_config _ _ K4), C3, C2; apply (k_config _ _ K1)).
  assert (settles s s4) as S4 by (split; [done|]; rewrite (partials_same _ _ (k_shapes _ _ K4)), (k_flying _ _ K4), F3, F2; cbn; lia).
  destruct ((max_zone f <=? i + 1) && negb (td_random o)); [by apply ok_ret|].
  assert (seq_zone s4 i <> None) as Hs4.
  { unfold seq_zone. rewrite (k_shapes _ _ K4). destruct M3 as (_ & _ & y & Hy & ->). assert (y = x) as -> by congruence. rewrite arr_get_insert by (by apply arr_get_range in Hx2). rewrite decide_True by done. cbn. by rewrite Hw. }
  destruct (g_file _ Hg4) as [Hf1 Hf2]. unfold in_file in Hi.
  eapply ok_bind; [apply (next_seq_spec _ s4 i (Z.to_nat (max_zone f - min_zone f) - 1) Hg4 Hi); [lia|]|].
  { replace (S (Z.to_nat (max_zone f - min_zone f) - 1)) with (Z.to_nat (max_zone f - min_zone f)) by lia. by rewrite (iter_nxt_all i Hi). }
  intros j (Hj & y & Hy & Hyw). eapply ok_bind; [apply (live_lock _ _ j H4 Hj); unfold seq_zone; by rewrite Hy, Hyw|]. intros s5 [H5 [K5 _]]. apply ok_ret.
  split; [eapply settles_trans; [done|by apply keeps_settles]|]. split; [done|]. right. rewrite (partials_same _ _ (k_shapes _ _ K5)), (partials_same _ _ (k_shapes _ _ K4)). lia.
Qed.

(** *** The choice of a target *)

Lemma pick_idx_spec s u : geometry s -> is_valid_offset f (u_offset u) = true -> 0 <= num_write_zones (zbd_info s) <= ZBD_MAX_WRITE_ZONES ->
  ok (pick_random_zone_idx f s u) (fun k => 0 <= k /\ (k = 0 \/ k < num_write_zones (zbd_info s))).
Proof.
  intros Hg Hu Hn. destruct (g_offset _ Hg) as [_ Ei]. pose proof (g_file _ Hg) as Hf. pose proof (g_size _ Hg) as Hs. assert (0 < io_size f) as Hio by nia. unfold is_valid_offset in Hu. apply Z.ltb_lt in Hu.
  unfold pick_random_zone_idx. apply ok_assert; [destruct (Z.eqb_spec (io_size f) 0); [lia|done]|]. apply ok_ret. set (x := subw 64 (u_offset u) (file_offset f)) in *. set (n := num_write_zones (zbd_info s)) in *.
  assert (0 <= x) as Hx by (apply Z.mod_pos_bound; lia). assert (0 <= mulw 64 x n <= x * n) as Hm by (unfold mulw, wrap; split; [apply Z.mod_pos_bound; lia|apply Z.mod_le; nia]).
  assert (0 <= mulw 64 x n / io_size f) as Hd by (apply Z.div_pos; lia). assert (n = 0 \/ mulw 64 x n / io_size f < n) as Hlt by (destruct (Z.eq_dec n 0); [by left|right; apply Z.div_lt_upper_bound; nia]).
  assert (mulw 64 x n / io_size f <= n) as Hle by (destruct Hlt as [E|]; [rewrite E, Z.mul_0_r in Hm; rewrite E; replace (mulw 64 x 0) with 0 in * by lia; by rewrite Z.div_0_l by lia|lia]).
  rewrite wrap_small by (unfold is_word, ZBD_MAX_WRITE_ZONES in *; lia). lia.
Qed.

Lemma targets_get s k : targets_ok s -> 0 <= k < num_write_zones (zbd_info s) -> exists t, arr_get (write_zones (zbd_info s)) k = Some t /\ t ∈ targets s.
Proof.
  intros [T1 [T2 T3] _ _ _ _] Hk. destruct (arr_get_Some (write_zones (zbd_info s)) k) as [t Ht]; [lia|]. exists t. split; [done|]. unfold targets. unfold arr_get in Ht. destruct (Z.ltb_spec k 0); [lia|].
  apply (list_elem_of_lookup_2 _ (Z.to_nat k)). rewrite lookup_take_lt by lia. done.
Qed.

Lemma pick_loop_spec n s k : targets_ok s -> 0 <= k <= num_write_zones (zbd_info s) -> (n <= Z.to_nat (num_write_zones (zbd_info s)))%nat ->
  ok (pick_loop f n s k) (fun r => forall t, r = Some t -> t ∈ targets s).
Proof.
  intros Ht. revert k. induction n as [|n IH]; intros k Hk Hn; cbn [pick_loop]; [by apply ok_ret|]. set (k' := if _ <=? k then 0 else k).
  assert (0 <= k' < num_write_zones (zbd_info s)) as Hk' by (unfold k'; destruct (Z.leb_spec (num_write_zones (zbd_info s)) k); lia).
  destruct (targets_get s k' Ht Hk') as (t & -> & Hi). cbn [mbind option_bind]. destruct (_ && _); [apply ok_ret; by intros ? [= <-]|]. apply IH; lia.
Qed.

Lemma pick_spec s u : geometry s -> targets_ok s -> is_valid_offset f (u_offset u) = true -> ok (zbd_pick_write_zone f s u) (fun r => forall t, r = Some t -> t ∈ targets s).
Proof.
  intros Hg Ht Hu. pose proof (t_num _ Ht). destruct (t_max _ Ht) as [? _]. unfold zbd_pick_write_zone. eapply ok_bind; [apply (pick_idx_spec s u Hg Hu); lia|]. intros k [Hk0 Hk].
  apply ok_assert; [destruct (Z.eqb_spec k 0), (Z.ltb_spec k (num_write_zones (zbd_info s))); try done; lia|]. apply pick_loop_spec; [done|lia|done].
Qed.

Lemma first_target_spec s u : geometry s -> targets_ok s -> is_valid_offset f (u_offset u) = true -> 0 <= u_offset u < 2 ^ 64 -> ok (first_target o f s u) in_file.
Proof.
  intros Hg Ht Hu Hb. pose proof (t_num _ Ht) as Hn. destruct (t_max _ Ht) as [Hm Hl]. pose proof (g_file _ Hg) as Hf. unfold first_target. apply (ok_bind _ _ (fun _ => True)).
  - destruct (_ || _).
    + eapply ok_bind; [apply (pick_idx_spec s u Hg Hu); lia|]. intros k [Hk0 Hk]. destruct (arr_get_Some (write_zones (zbd_info s)) k) as [t Et]; [unfold ZBD_MAX_WRITE_ZONES in *; lia|]. by exists t.
    + assert (file_offset f <= u_offset u < file_offset f + io_size f) as Hv by (by apply (valid_in_file s)). destruct (g_offset _ Hg) as [E1 E2]. rewrite E1, E2 in Hv. pose proof (g_size _ Hg) as Hs.
      rewrite zone_idx_spec; [by eexists|done|lia|]. split; [apply Z.div_pos; lia|]. apply Z.lt_succ_r, Z.div_lt_upper_bound; nia.
  - intros i _. apply ok_ret. unfold in_file. destruct (Z.ltb_spec i (min_zone f)), (Z.leb_spec (max_zone f) i); lia.
Qed.

Lemma live_lock_opt lk s i z : live None lk s -> in_file i -> zone s i = Some z ->
  ok (if has_wp z then zone_lock f s i else Some s) (fun s' => live (seq_zone s i) lk s' /\ keeps_targets s s').
Proof.
  intros H Hi Hz. rewrite (seq_zone_spec _ _ _ Hz). destruct (has_wp z) eqn:Ew; [|apply ok_ret; split; [done|apply keeps_targets_refl]]. apply live_lock; [done|done|]. by rewrite (seq_zone_spec _ _ _ Hz), Ew.
Qed.

Lemma live_unlock_opt lk s i z : live (seq_zone s i) lk s -> zone s i = Some z -> ok (if has_wp z then zone_unlock s i else Some s) (fun s' => live None lk s' /\ keeps_targets s s').
Proof. intros H Hz. rewrite (seq_zone_spec _ _ _ Hz) in H. destruct (has_wp z); [by apply live_unlock|apply ok_ret; split; [done|apply keeps_targets_refl]]. Qed.

Lemma scan_zones_spec n s i : live (seq_zone s i) false s -> in_file i ->
  ok (scan_zones o f n s i) (fun '(r, s') => keeps s s' /\ match r with
    | zone_found j => live (Some j) false s' /\ online s' j
    | go_on j => j = Nat.iter n nxt i /\ live (seq_zone s' j) false s'
    | no_zone => False
    end).
Proof.
  revert s i. induction n as [|n IH]; intros s i H Hi; cbn [scan_zones]; [by apply ok_ret|]. pose proof (i_geometry _ _ _ _ H) as Hg. destruct (zone_in_file s i Hg Hi) as (z & nx & Hz & Hnx & E1 & E2 & B1 & B2 & B3 & _).
  rewrite Hz. cbn [mbind option_bind]. eapply ok_bind; [exact (live_unlock_opt false s i z H Hz)|]. intros s1 [H1 [K1 _]]. pose proof (i_geometry _ _ _ _ H1) as Hg1. destruct (config_size _ _ (k_config _ _ K1)) as (C1 & _).
  destruct (zone_in_file s1 i Hg1 Hi) as (_ & nx1 & _ & Hnx1 & _ & E2' & _). rewrite Hnx1. cbn [mbind option_bind]. rewrite C1 in E2'.
  assert ((if is_valid_offset f (start nx1) then i + 1 else min_zone f) = nxt i) as ->.
  { pose proof (valid_in_file s (start nx1) Hg) as Hv. destruct (g_offset _ Hg) as [O1 O2]. rewrite O1, O2 in Hv. pose proof (g_size _ Hg). unfold in_file in Hi. unfold nxt.
    destruct (is_valid_offset f (start nx1)), (Z.leb_spec (max_zone f) (i + 1)); try done; [|exfalso]; [destruct (proj2 Hv) as [_ Hlt]; [split; [done|lia]|nia]|].
    destruct (proj1 Hv) as [? _]; [nia|done]. }
  pose proof (nxt_in_file _ Hi) as Hn. set (j := nxt i) in *. destruct (zone_in_file s1 j Hg1 Hn) as (zj & _ & Hzj & _ & Ej & _). rewrite Hzj. cbn [mbind option_bind].
  apply ok_assert; [rewrite Ej, <- (Z.add_0_r (j * _)); apply start_valid; [done|done|]; pose proof (g_size _ Hg1); lia|].
  assert (forall s', keeps s s' -> live (seq_zone s' j) false s' -> ok (scan_zones o f n s' j) (fun '(r, s') => keeps s s' /\ match r with
    | zone_found j => live (Some j) false s' /\ online s' j | go_on j => j = Nat.iter (S n) nxt i /\ live (seq_zone s' j) false s' | no_zone => False end)) as Hgo.
  { intros s' K' H'. eapply ok_impl; [by apply IH|]. intros [r s''] [K'' Hr]. split; [by eapply keeps_trans|]. destruct r; try done. rewrite Nat.iter_succ_r. done. }
  destruct (has_wp zj) eqn:Ew; cbn [negb]; [|apply Hgo; [done|]; by rewrite (seq_zone_spec _ _ _ Hzj), Ew].
  assert (forall s', keeps s1 s' -> seq_zone s' j = Some j) as Hsj by (intros s' K'; rewrite (seq_zone_keeps _ _ _ (k_shapes _ _ K')), (seq_zone_spec _ _ _ Hzj), Ew; done).
  eapply ok_bind; [apply live_lock; [done|done|by rewrite Hsj]|]. intros s2 [H2 [K2 _]]. assert (keeps s s2) as K12 by (by eapply keeps_trans).
  destruct (write zj); [apply Hgo; [done|by rewrite Hsj]|]. eapply ok_bind; [by apply live_get|]. intros [b s3] (H3 & K3 & Hb). assert (keeps s s3) as K13 by (by eapply keeps_trans).
  destruct b; [apply ok_ret; split; [done|]; split; [done|]; intros x; rewrite (k_shapes _ _ K3); by apply Hb|]. apply Hgo; [done|]. rewrite Hsj; [done|]. by eapply keeps_trans.
Qed.

Lemma keeps_t_targets s s' : keeps_targets s s' -> targets s' = targets s.
Proof. intros (_ & N & W & _). unfold targets. by rewrite N, W. Qed.

Lemma target_seq s t : targets_ok s -> t ∈ targets s -> in_file t /\ seq_zone s t = Some t /\ online s t.
Proof.
  intros Ht Hin. destruct (t_zone _ Ht t Hin) as (Hi & x & Hx & Hw & Hc). split; [done|]. split; [unfold seq_zone; by rewrite Hx, Hw|]. intros y Hy. by assert (y = x) as -> by congruence.
Qed.

Lemma online_keeps s s' i : shapes s' = shapes s -> online s i -> online s' i.
Proof. unfold online. by intros ->. Qed.

Lemma scan_targets_spec n k s i : live (Some i) true s -> 0 <= k -> k + Z.of_nat n <= num_write_zones (zbd_info s) ->
  ok (scan_targets o f n k s i) (fun '(r, s') => keeps_targets s s' /\ match r with
    | zone_found t => live (Some t) false s' /\ online s' t
    | go_on t => live (Some t) true s'
    | no_zone => False
    end).
Proof.
  revert k s i. induction n as [|n IH]; intros k s i H Hk Hn; cbn [scan_targets]; [apply ok_ret; split; [apply keeps_targets_refl|done]|].
  destruct (targets_get s k (i_targets _ _ _ _ H)) as (t & -> & Ht); [lia|]. cbn [mbind option_bind]. destruct (_ || _); [apply IH; [done|lia|lia]|].
  eapply ok_bind; [by apply live_unlock_info|]. intros s1 [H1 K1]. eapply ok_bind; [by apply live_unlock|]. intros s2 [H2 K2]. pose proof (keeps_targets_trans _ _ _ K1 K2) as K12.
  destruct (target_seq s2 t (i_targets _ _ _ _ H2)) as (Hi & Hs & Ho); [by rewrite (keeps_t_targets _ _ K12)|]. eapply ok_bind; [apply live_lock; [done|done|by rewrite Hs]|]. intros s3 [H3 K3]. pose proof (keeps_targets_trans _ _ _ K12 K3) as K13.
  destruct (zone_in_file s3 t (i_geometry _ _ _ _ H3) Hi) as (z & _ & Hz & _). rewrite Hz. cbn [mbind option_bind].
  destruct (_ <=? _); [apply ok_ret; split; [done|]; split; [done|]; by apply (online_keeps s2); [apply K3|]|].
  eapply ok_bind; [by apply live_lock_info|]. intros s4 [H4 K4]. pose proof (keeps_targets_trans _ _ _ K13 K4) as K14. eapply ok_impl; [apply IH; [done|lia|]|].
  - destruct K14 as (_ & -> & _). lia.
  - intros [r s5] [K5 Hr]. split; [by eapply keeps_targets_trans|]. by destruct r.
Qed.

Lemma finish_settles us h s s1 s2 t : inv us h false s1 -> in_file t -> config s1 = config s -> shapes s1 = shapes s -> flying s1 = [] -> moved s1 s2 t (t * zone_size (zbd_info s1) + zone_size (zbd_info s1)) -> settles s s2.
Proof.
  intros H Hi C S F M. pose proof M as (C' & F' & x & Hx & _). split; [congruence|]. pose proof (partials_finish s1 s2 t x (i_geometry _ _ _ _ H) Hi Hx M) as Hp. rewrite (partials_same _ _ S) in Hp. rewrite F', F. cbn. lia.
Qed.

Lemma finish_target_spec s u i : live (Some i) true s -> is_valid_offset f (u_offset u) = true ->
  ok (finish_target o f finish_wp completion s u i) (fun '(r, s') => settles s s' /\ match r with
    | zone_found t => live (Some t) false s' /\ online s' t
    | no_zone => live None false s'
    | go_on _ => False
    end).
Proof.
  intros H Hu. unfold finish_target. apply (ok_bind _ _ (fun r => forall t, r = Some t -> t ∈ targets s)); [destruct (_ && _); [by apply pick_spec; [apply H|apply H|]|by apply ok_ret]|]. intros r Hr.
  destruct r as [t|].
  - specialize (Hr t eq_refl). eapply ok_bind; [by apply live_unlock_info|]. intros s1 [H1 K1]. eapply ok_bind; [by apply live_unlock|]. intros s2 [H2 K2]. pose proof (keeps_targets_trans _ _ _ K1 K2) as K12.
    destruct (target_seq s2 t (i_targets _ _ _ _ H2)) as (Hi & Hs & Ho); [by rewrite (keeps_t_targets _ _ K12)|]. eapply ok_bind; [apply live_lock; [done|done|by rewrite Hs]|]. intros s3 [H3 K3].
    eapply ok_bind; [by apply live_quiesce|]. intros s4 (H4 & F4 & S4 & C4). destruct (held_zone _ _ _ _ H4 eq_refl) as (_ & x & Hx & Hw). eapply ok_bind; [by apply (finish_done _ _ _ _ x H4)|]. intros [r s5] [H5 M5]. apply ok_ret.
    destruct (keeps_targets_trans _ _ _ K12 K3) as [K13 _]. destruct M5 as [M5|[_ ->]].
    2: { split; [|split; [done|intros w; rewrite S4, (k_shapes _ _ (proj1 K3)); apply Ho]]. split; [by rewrite C4, (k_config _ _ K13)|]. rewrite (partials_same s s4) by (by rewrite S4, (k_shapes _ _ K13)). rewrite F4. cbn. lia. } split; [eapply (finish_settles _ _ s s4); try done; [by rewrite C4, (k_config _ _ K13)|by rewrite S4, (k_shapes _ _ K13)]|].
    pose proof M5 as (_ & F5 & y & Hy & E5). split; [unfold live; by rewrite F5|]. intros w. rewrite E5, arr_get_insert by (by apply arr_get_range in Hy). rewrite decide_True by done. intros [= <-]. cbn. apply Ho. by rewrite <- (k_shapes _ _ (proj1 K3)), <- S4.
  - eapply ok_bind; [by apply live_unlock_info|]. intros s1 [H1 K1]. eapply ok_bind; [by apply live_unlock|]. intros s2 [H2 K2]. apply ok_ret. split; [|done]. apply keeps_settles. eapply keeps_trans; [apply K1|apply K2].
Qed.

(** How many more rounds there can be. *)
Definition rounds (should_retry : bool) s : nat := match flying s with [] => if should_retry then 1 else 0 | _ => 2 end.

Lemma choose_other_spec fuel retry s u i : live (Some i) false s -> is_valid_offset f (u_offset u) = true -> (rounds retry s <= fuel)%nat ->
  ok (choose_other_zone o f finish_wp completion fuel retry s u i) (fun '(r, s') => settles s s' /\ match r with
    | zone_found t => live (Some t) false s' /\ online s' t
    | no_zone => live None false s'
    | go_on _ => False
    end).
Proof.
  revert retry s i. induction fuel as [|fuel IH]; intros retry s i H Hu Hf; cbn [choose_other_zone]; destruct (held_zone _ _ _ _ H eq_refl) as (Hi & x & Hx & Hw); pose proof (i_geometry _ _ _ _ H) as Hg;
    (assert (io_size f / zone_size (zbd_info s) = max_zone f - min_zone f) as -> by (destruct (g_offset _ Hg) as [_ ->]; apply div_start, (g_size _ Hg)));
    (eapply ok_bind; [apply scan_zones_spec; [unfold seq_zone; by rewrite Hx, Hw|done]|]); intros [[t| |j] s1] [K1 H1]; try done;
    try (by apply ok_ret; split; [by apply keeps_settles|]);
    destruct H1 as [-> H1]; rewrite (iter_nxt_all i Hi) in *; unfold seq_zone in H1; rewrite (k_shapes _ _ K1), Hx, Hw in H1;
    (eapply ok_bind; [by apply live_lock_info|]); intros s2 [H2 K2]; pose proof (t_num _ (i_targets _ _ _ _ H2)) as Hnum;
    (eapply ok_bind; [apply scan_targets_spec; [done|lia|lia]|]); intros [[t| |j] s3] [K3 H3]; try done;
    (assert (keeps s s3) as K13 by (eapply keeps_trans; [done|]; eapply keeps_trans; [apply K2|apply K3]));
    try (by apply ok_ret; split; [by apply keeps_settles|]); rewrite (k_flying _ _ K13); unfold rounds in Hf.
  - destruct (flying s); [|lia]. destruct retry; [lia|]. cbn [orb]. eapply ok_impl; [by apply finish_target_spec|]. intros [r s4] [S4 Hr]. split; [|done]. eapply settles_trans; [by apply keeps_settles|done].
  - destruct ((match flying s with [] => false | _ => true end) || retry) eqn:Er.
    + eapply ok_bind; [by apply live_unlock_info|]. intros s4 [H4 K4]. eapply ok_bind; [by apply live_unlock|]. intros s5 [H5 K5]. eapply ok_bind; [by apply live_quiesce|]. intros s6 (H6 & F6 & S6 & C6).
      assert (keeps s s5) as K15 by (eapply keeps_trans; [done|]; eapply keeps_trans; [apply K4|apply K5]).
      destruct (held_zone _ _ _ _ H3 eq_refl) as (Hj & y & Hy & Hyw). assert (seq_zone s6 j <> None) as Hsj.
      { unfold seq_zone. rewrite S6, (k_shapes _ _ (proj1 K5)), (k_shapes _ _ (proj1 K4)), Hy, Hyw. done. }
      eapply ok_bind; [by apply live_lock|]. intros s7 [H7 K7]. eapply ok_impl; [apply IH; [done|done|]|].
      * unfold rounds. rewrite (k_flying _ _ (proj1 K7)), F6. destruct (flying s); [|lia]. destruct retry; [lia|done].
      * intros [r s8] [S8 Hr]. split; [|done]. eapply settles_trans; [|done]. split; [rewrite (k_config _ _ (proj1 K7)), C6; apply (k_config _ _ K15)|].
        rewrite (partials_same _ _ (k_shapes _ _ (proj1 K7))), (partials_same s s6), (k_flying _ _ (proj1 K7)), F6; [cbn; lia|]. by rewrite S6, (k_shapes _ _ K15).
    + eapply ok_impl; [by apply finish_target_spec|]. intros [r s4] [S4 Hr]. split; [|done]. eapply settles_trans; [by apply keeps_settles|done].
Qed.

Lemma pick_loop_keeps n s s' k : num_write_zones (zbd_info s') = num_write_zones (zbd_info s) -> write_zones (zbd_info s') = write_zones (zbd_info s) -> pick_loop f n s' k = pick_loop f n s k.
Proof. intros N W. revert k. induction n as [|n IH]; intros k; cbn [pick_loop]; [done|]. rewrite N, W. destruct (arr_get _ _); [|done]. cbn [mbind option_bind]. by rewrite IH. Qed.

Lemma pick_keeps s s' u : keeps_targets s s' -> zbd_pick_write_zone f s' u = zbd_pick_write_zone f s u.
Proof. intros (_ & N & W & _). unfold zbd_pick_write_zone, pick_random_zone_idx. rewrite N. destruct (c_assert _); [|done]. cbn [mbind option_bind]. destruct (c_assert _); [|done]. cbn [mbind option_bind]. by apply pick_loop_keeps. Qed.

(** With the mutex of zone [i], if it has one, and that of the device. *)
Lemma target_locks s i z : live None false s -> in_file i -> zone s i = Some z ->
  ok (let* s := if has_wp z then zone_lock f s i else Some s in lock_info s) (fun s' => live (seq_zone s i) true s' /\ keeps_targets s s').
Proof.
  intros H Hi Hz. eapply ok_bind; [exact (live_lock_opt false s i z H Hi Hz)|]. intros s1 [H1 K1]. eapply ok_impl; [by apply live_lock_info|]. intros s2 [H2 K2]. split; [done|]. by eapply keeps_targets_trans.
Qed.

Lemma target_unlocks s i z : live (seq_zone s i) true s -> zone s i = Some z ->
  ok (let* s := unlock_info s in if has_wp z then zone_unlock s i else Some s) (fun s' => live None false s' /\ keeps_targets s s').
Proof.
  intros H Hz. eapply ok_bind; [by apply live_unlock_info|]. intros s1 [H1 K1]. destruct (zone_keeps s s1 i z (k_shapes _ _ (proj1 K1)) Hz) as (z1 & Hz1 & Ez). assert (has_wp z = has_wp z1) as -> by (by injection Ez).
  eapply ok_impl; [apply (live_unlock_opt false s1 i z1); [|done]; by rewrite (seq_zone_keeps _ _ _ (k_shapes _ _ (proj1 K1)))|]. intros s2 [H2 K2]. split; [done|]. by eapply keeps_targets_trans.
Qed.

Definition target_ok s '(r, s') : Prop := keeps_targets s s' /\ match r with
  | zone_found j => live (Some j) false s' /\ online s' j
  | go_on j => live (Some j) true s'
  | no_zone => live None false s'
  end.

Lemma examine_spec s s2 i z : keeps_targets s s2 -> live (Some i) true s2 -> online s2 i ->
  ok (if min_bs o DDIR_WRITE <=? zbd_zone_remainder z then let* s := unlock_info s2 in Some (zone_found i, s) else Some (go_on i, s2)) (target_ok s).
Proof.
  intros K H Ho. destruct (_ <=? _); [|by apply ok_ret]. eapply ok_bind; [by apply live_unlock_info|]. intros s3 [H3 K3]. apply ok_ret. split; [by eapply keeps_targets_trans|]. split; [done|]. by apply (online_keeps s2); [apply K3|].
Qed.

Lemma target_turn_spec s u i k : live None false s -> in_file i -> is_valid_offset f (u_offset u) = true ->
  (forall s' j, keeps_targets s s' -> live None false s' -> in_file j -> j <> i -> zbd_pick_write_zone f s' u = Some (Some j) -> zbd_pick_write_zone f s u = Some (Some j) -> ok (k s' j) (target_ok s')) ->
  ok (target_turn o f s u i k) (target_ok s).
Proof.
  intros H Hi Hu Hk. destruct (zone_in_file s i (i_geometry _ _ _ _ H) Hi) as (z & _ & Hz & _). unfold target_turn. rewrite Hz. cbn [mbind option_bind].
  eapply ok_bind; [exact (live_lock_opt false s i z H Hi Hz)|]. intros s1 [H1 K1]. eapply ok_bind; [by apply live_lock_info|]. intros s2 [H2 K2]. pose proof (keeps_targets_trans _ _ _ K1 K2) as K12. rewrite (seq_zone_spec _ _ _ Hz) in H2.
  destruct (has_wp z && negb (cond z =? ZBD_ZONE_COND_OFFLINE) && _) eqn:Ex.
  { destruct (has_wp z); [|done]. apply examine_spec; [done|done|]. intros x. rewrite (k_shapes _ _ (proj1 K12)), (zone_shape _ _ _ Hz). intros [= <-]. cbn. by destruct (Z.eqb_spec (cond z) ZBD_ZONE_COND_OFFLINE). }
  destruct (has_wp z && (num_write_zones (zbd_info s2) =? 0)) eqn:En; [destruct (has_wp z); [|done]; by apply ok_ret|].
  destruct (pick_spec s2 u (i_geometry _ _ _ _ H2) (i_targets _ _ _ _ H2) Hu) as (pick & Ep & Hp). rewrite Ep. cbn [mbind option_bind].
  destruct (match pick with Some i' => i' =? i | None => false end) eqn:Ei.
  { destruct pick as [j|]; [|done]. apply Z.eqb_eq in Ei as ->. destruct (target_seq s2 i (i_targets _ _ _ _ H2) (Hp i eq_refl)) as (_ & Hs & Ho). rewrite (seq_zone_keeps _ _ _ (k_shapes _ _ (proj1 K12))), (seq_zone_spec _ _ _ Hz) in Hs.
    rewrite Hs in H2. by apply examine_spec. }
  rewrite <- (seq_zone_spec _ _ _ Hz), <- (seq_zone_keeps s s2 i (k_shapes _ _ (proj1 K12))) in H2. destruct (zone_keeps s s2 i z (k_shapes _ _ (proj1 K12)) Hz) as (z2 & Hz2 & Ez). assert (has_wp z = has_wp z2) as -> by (by injection Ez).
  eapply ok_bind; [by apply live_unlock_info|]. intros s3 [H3 K3]. destruct (zone_keeps s2 s3 i z2 (k_shapes _ _ (proj1 K3)) Hz2) as (z3 & Hz3 & Ez3). assert (has_wp z2 = has_wp z3) as -> by (by injection Ez3).
  rewrite <- (seq_zone_keeps s2 s3 i (k_shapes _ _ (proj1 K3))) in H3. eapply ok_bind; [exact (live_unlock_opt false s3 i z3 H3 Hz3)|]. intros s4 [H4 K4].
  assert (keeps_targets s s4) as K14 by (eapply keeps_targets_trans; [done|]; by eapply keeps_targets_trans).
  destruct pick as [j|]; [|by apply ok_ret]. destruct (target_seq s2 j (i_targets _ _ _ _ H2) (Hp j eq_refl)) as (Hj & _).
  eapply ok_impl; [apply Hk; try done; [by apply Z.eqb_neq|by rewrite (pick_keeps s2 s4 u (keeps_targets_trans _ _ _ K3 K4))|by rewrite <- (pick_keeps s s2 u K12)]|]. intros [r s5] [K5 Hr]. split; [by eapply keeps_targets_trans|done].
Qed.

Lemma target_loop_spec fuel s u i : live None false s -> in_file i -> is_valid_offset f (u_offset u) = true -> (fuel = O -> zbd_pick_write_zone f s u = Some (Some i)) ->
  ok (target_loop o f fuel s u i) (target_ok s).
Proof.
  revert s i. induction fuel as [|fuel IH]; intros s i H Hi Hu Hf; apply target_turn_spec; try done.
  - intros s' j K H' Hj Hji Hp Hp'. rewrite Hf in Hp' by done. by injection Hp' as <-.
  - intros s' j K H' Hj Hji Hp Hp'. by apply IH.
Qed.

Definition same_unit u u' : Prop := u_ddir u' = u_ddir u /\ u_buflen u' = u_buflen u /\ u_error u' = u_error u /\ u_held u' = u_held u.
Definition valid_unit u : Prop := is_valid_offset f (u_offset u) = true /\ 0 <= u_offset u < 2 ^ 64.

(** The unit goes to a zone that is held and online, or nowhere. *)
Definition converted s u '(r, u', s') : Prop := settles s s' /\ same_unit u u' /\ valid_unit u' /\
  match r with Some i => live (Some i) false s' /\ online s' i | None => live None false s' end.

Lemma convert_out s s' u i : settles s s' -> live (Some i) false s' -> online s' i ->
  ok (let* z := zone s' i in let* _ := c_assert (has_wp z) in let* _ := c_assert (negb (cond z =? ZBD_ZONE_COND_OFFLINE)) in Some (Some i, place u (start z) (u_buflen u), s')) (fun '(r, u', s'') => s'' = s' /\ converted s u (r, u', s'')).
Proof.
  intros S H Ho. destruct (held_zone _ _ _ _ H eq_refl) as (Hi & x & Hx & Hw). pose proof (i_geometry _ _ _ _ H) as Hg. destruct (zone_in_file s' i Hg Hi) as (z & nx & Hz & _ & E1 & E2 & B1 & B2 & B3 & _).
  rewrite Hz. cbn [mbind option_bind]. assert (x = shape_of z) as -> by (apply zone_shape in Hz; congruence). apply ok_assert; [exact Hw|]. apply ok_assert; [by destruct (Z.eqb_spec (cond z) ZBD_ZONE_COND_OFFLINE) as [Ec|]; [destruct (Ho _ Hx)|]|].
  apply ok_ret. split; [done|]. split; [done|]. split; [done|]. split; [|done]. pose proof (g_size _ Hg). split; cbn; [|lia]. rewrite E1, <- (Z.add_0_r (i * _)). apply start_valid; [done|done|lia].
Qed.

(** A zone that has too small a rest is finished on the way, or there is none. *)
Lemma convert_spec s u i : live (Some i) false s -> valid_unit u ->
  ok (zbd_convert_to_write_zone o f finish_wp completion s u i) (fun '(r, u', s') => converted s u (r, u', s') /\
    ((exists x, arr_get (shapes s) i = Some x /\ partial x = true) -> (partials s' < partials s)%nat \/ r = None)).
Proof.
  intros H [Hu Hb]. unfold zbd_convert_to_write_zone. apply ok_assert; [done|]. eapply ok_bind; [by apply finish_remainder_spec|]. intros [[j| |j] s1] [S1 H1]; [done|apply ok_ret; split; [by split|by right]|].
  destruct H1 as [H1 Hd].
  assert ((exists x, arr_get (shapes s) i = Some x /\ partial x = true) -> (partials s1 < partials s)%nat) as Hlt by (intros (x & Hx & Hp); destruct Hd as [(_ & _ & Hn)|]; [by rewrite (Hn x Hx) in Hp|done]).
  eapply ok_bind; [by apply live_get|]. intros [b s2] (H2 & K2 & Hb2). pose proof (settles_trans _ _ _ S1 (keeps_settles _ _ K2)) as S2.
  assert (forall s', settles s2 s' -> (exists x, arr_get (shapes s) i = Some x /\ partial x = true) -> (partials s' < partials s)%nat) as Hlt2.
  { intros s' (_ & Hle & _) Hex. specialize (Hlt Hex). rewrite (partials_same _ _ (k_shapes _ _ K2)) in Hle. lia. }
  destruct b; [apply ok_ret; split; [|intros Hex; left; by apply Hlt2]; split; [done|]; split; [done|]; split; [done|]; split; [done|]; intros x; rewrite (k_shapes _ _ K2); by apply Hb2|].
  eapply ok_bind; [by apply live_unlock|]. intros s3 [H3 [K3 _]]. pose proof (settles_trans _ _ _ S2 (keeps_settles _ _ K3)) as S3.
  eapply ok_bind; [by apply first_target_spec; [apply H3|apply H3| |]|]. intros t Ht. eapply ok_bind; [by apply target_loop_spec|]. intros [[j'| |j'] s4] [[K4 _] H4]; pose proof (settles_trans _ _ _ S3 (keeps_settles _ _ K4)) as S4;
    (assert (settles s2 s4) as S24 by (eapply settles_trans; [by apply keeps_settles|by apply keeps_settles])).
  - destruct H4 as [H4 Ho4]. eapply ok_impl; [by apply (convert_out s s4 u)|]. intros [[r u'] s5] [-> Hc]. split; [done|]. intros Hex. left. by apply Hlt2.
  - apply ok_ret. split; [by split|by right].
  - eapply ok_bind; [by apply live_unlock_info|]. intros s5 [H5 [K5 _]].
    eapply (ok_bind _ _ (fun s' => live (Some j') false s' /\ settles s5 s')); [destruct (wait_zone_write o f s4)|].
    { eapply ok_impl; [by apply live_quiesce|]. intros s6 (H6 & F6 & S6 & C6). split; [done|]. split; [done|]. rewrite (partials_same _ _ S6), F6. cbn. lia. }
    { by apply ok_ret. }
    intros s6 [H6 S6]. assert (forall s', settles s' s4 -> forall s7, settles s6 s7 -> settles s' s7) as Hch.
    { intros s' Hs' s7 Hs7. eapply settles_trans; [done|]. eapply settles_trans; [by apply keeps_settles|]. by eapply settles_trans. }
    eapply ok_bind; [apply choose_other_spec; [done|done|unfold rounds; destruct (flying s6); lia]|]. intros [[t'| |t'] s7] [S7 H7]; [| |done].
    + destruct H7 as [H7 Ho7].
      eapply ok_impl; [apply (convert_out s s7 u); [by apply Hch|done|done]|]. intros [[r u'] s8] [-> Hc]. split; [done|]. intros Hex. left. apply Hlt2; [by apply Hch|done].
    + apply ok_ret. split; [|by right]. split; [by apply Hch|by split].
Qed.

(** *** Up to a zone whose rest holds a block *)

Lemma partials_not_all s i x : arr_get (shapes s) i = Some x -> partial x = false -> (partials s < length (shapes s))%nat.
Proof.
  intros Hx Hp. unfold partials, arr_get in *. destruct (i <? 0); [done|]. apply list_elem_of_lookup_2 in Hx. apply list_elem_of_split in Hx as (l1 & l2 & ->). rewrite List.filter_app, !length_app. cbn. rewrite Hp.
  pose proof (List.filter_length_le partial l1). pose proof (List.filter_length_le partial l2). lia.
Qed.

Lemma partials_pos s i x : arr_get (shapes s) i = Some x -> partial x = true -> (0 < partials s)%nat.
Proof.
  intros Hx Hp. unfold partials, arr_get in *. destruct (i <? 0); [done|]. apply list_elem_of_lookup_2 in Hx. apply list_elem_of_split in Hx as (l1 & l2 & ->). rewrite List.filter_app, !length_app. cbn. rewrite Hp. cbn. lia.
Qed.

Lemma write_zone_spec fuel s u i x : live (Some i) false s -> valid_unit u -> arr_get (shapes s) i = Some x -> (partials s <= fuel)%nat \/ partial x = true /\ (partials s <= S fuel)%nat ->
  ok (write_zone o f finish_wp completion fuel s u i) (fun '(r, u', s') => converted s u (r, u', s') /\ forall j y, r = Some j -> arr_get (shapes s') j = Some y -> partial y = false).
Proof.
  revert s u i x. induction fuel as [|fuel IH]; intros s u i x H Hu Hx Hf; cbn [write_zone]; (eapply ok_bind; [by apply convert_spec|]); intros [[r u1] s1] [Hc Hd];
    (destruct r as [j|]; [|by apply ok_ret]); pose proof Hc as (S1 & U1 & V1 & H1 & O1); destruct (held_zone _ _ _ _ H1 eq_refl) as (Hj & y & Hy & Hyw);
    destruct (zone_back _ _ _ Hy) as (z & Hz & Ez); rewrite Hz; cbn [mbind option_bind]; rewrite <- rest_spec, Ez; fold (partial y);
    (destruct (partial y) eqn:Ey; [|apply ok_ret; split; [done|]; intros j' y' [= <-] Hy'; congruence]);
    pose proof S1 as (_ & Hle & _).
  - assert (0 < partials s1)%nat by (by apply (partials_pos s1 j y)). destruct Hf as [Hf|[Hp Hf]]; [lia|]. destruct Hd as [Hd|Hd]; [by exists x|lia|done].
  - eapply ok_impl; [apply (IH s1 u1 j y H1 V1 Hy); right; split; [done|]; destruct Hf as [Hf|[Hp Hf]]; [lia|]; destruct Hd as [Hd|Hd]; [by exists x|lia|done]|].
    intros [[r u2] s2] [(S2 & U2 & V2 & H2) Hn]. split; [|done]. split; [by eapply settles_trans|]. split; [|done]. destruct U1 as (? & ? & ? & ?), U2 as (? & ? & ? & ?). split_and!; congruence.
Qed.

(** *** Accepting a unit *)

Lemma live_few h lk s : live h lk s -> zlength (flying s ++ p) < 2 ^ 31.
Proof. intros H. apply (l_few _ _ _ (i_held _ _ _ _ H)). Qed.

(** The unit takes over the zone that the code holds. *)
Lemma accept_spec s u i : live (Some i) false s -> online s i -> u_held u = false -> unit_zone (zone_size (zbd_info s)) u = i -> 0 <= u_offset u -> zlength (flying s ++ p) + 1 < 2 ^ 31 ->
  ok (accept s u i) (fun '(a, u', s') => a = io_u_accept /\ u' = hold u true /\ inv (u' :: flying s' ++ p) None false s' /\ keeps_targets s s').
Proof.
  intros H Ho Hh Hi Hu Hl. destruct (held_zone _ _ _ _ H eq_refl) as (Hin & x & Hx & Hw). destruct (zone_back _ _ _ Hx) as (z & Hz & Ez). unfold accept. rewrite Hz. cbn [mbind option_bind].
  apply ok_assert; [by rewrite <- Hw, <- Ez|]. apply ok_assert; [destruct (Z.eqb_spec (cond z) ZBD_ZONE_COND_OFFLINE) as [Ec|]; [|done]; destruct (Ho x Hx); by rewrite <- Ez|]. apply ok_assert; [by rewrite Hh|].
  pose proof H as [Hs Hd]%inv_sound. set (g := fun z => if is_write u then with_flight z (addw 32 (writes_in_flight z) 1) else z).
  assert ((match u_ddir (hold u true) with DDIR_WRITE => update s i (fun z => with_flight z (addw 32 (writes_in_flight z) 1)) | _ => Some s end) = Some (set_zones s (<[Z.to_nat i := g z]> (zone_info (zbd_info s))))) as ->.
  { unfold g, is_write. cbn [hold u_ddir]. destruct (u_ddir u); try by rewrite (update_eq _ _ _ _ Hz).
    all: rewrite list_insert_id; [by destruct s as [[] ? ? ? ?]|]; unfold zone, arr_get in Hz; by destruct (i <? 0). }
  cbn [mbind option_bind]. assert (shape_of (g z) = shape_of z /\ write (g z) = write z /\ locks (g z) = locks z /\ fixing_zone_wp (g z) = fixing_zone_wp z) as (G1 & G2 & G3 & G4) by (unfold g; by destruct (is_write u)).
  pose proof (change_keeps _ _ _ _ Hz G1 G2) as K. apply ok_ret. split; [done|]. split; [done|]. split; [|done]. rewrite (k_flying _ _ (proj1 K)). apply inv_sound. split; [by apply (sound_change _ _ _ z)|].
  apply (held_insert (flying s ++ p) (hold u true :: flying s ++ p) (Some i) None s i z); try done.
  - intros j zj Hj. pose proof (l_locks _ _ _ Hd j zj Hj) as Lj. destruct (l_flight _ _ _ Hd j zj Hj) as [Fj Gj]. rewrite units_at_cons, writes_at_cons. cbn [hold u_held andb]. change (unit_zone (zone_size (zbd_info s)) (hold u true)) with (unit_zone (zone_size (zbd_info s)) u). rewrite Hi.
    change (is_write (hold u true)) with (is_write u). cbn zeta. rewrite (decide_False (P := None = Some j)) by done. destruct (decide (i = j)) as [<-|Hn].
    + assert (zj = z) as -> by congruence. rewrite Z.eqb_refl, G3, G4. rewrite decide_True in Lj by done. split; [lia|]. split; [|done]. unfold g. destruct (is_write u); cbn [andb]; [|done]. cbn [with_flight writes_in_flight]. rewrite Fj.
      pose proof (writes_few (zone_size (zbd_info s)) (flying s ++ p) i). unfold addw. rewrite wrap_small; [lia|]. unfold is_word. lia.
    + rewrite decide_False in Lj by congruence. destruct (Z.eqb_spec i j); [done|]. rewrite andb_false_r. split; [lia|]. by split.
  - intros v [->|Hv]%elem_of_cons Hvd; [|by apply (l_units _ _ _ Hd)]. change (unit_zone (zone_size (zbd_info s)) (hold u true)) with (unit_zone (zone_size (zbd_info s)) u). rewrite Hi. split; [done|]. split; [done|]. by exists x.
  - unfold zlength in *. cbn [length]. lia.
Qed.

Lemma eof_spec s u i : live (Some i) false s -> ok (eof s u (Some i)) (fun '(a, u', s') => a = io_u_eof /\ u' = u /\ live None false s' /\ keeps_targets s s').
Proof.
  intros H. destruct (held_zone _ _ _ _ H eq_refl) as (Hi & x & Hx & Hw). destruct (zone_back _ _ _ Hx) as (z & Hz & Ez). unfold eof, at_eof. rewrite Hz. cbn [mbind option_bind]. assert (has_wp z = true) as -> by (by rewrite <- Hw, <- Ez).
  destruct (live_unlock _ _ _ H) as (s' & -> & H' & K). cbn [mbind option_bind]. by apply ok_ret.
Qed.

(** *** Writes *)

Context (running : started = true) (block_pos : 0 < min_bs o DDIR_WRITE < 2 ^ 63) (zrf_pos : forall n, zrf o = Some n -> 0 < n < 2 ^ 32).

Lemma set_cnt_inv us h lk s n : (started = true -> zrf o <> None -> 0 < n < 2 ^ 32) -> inv us h lk s -> inv us h lk (set_cnt s n).
Proof. intros Hn [G T L D K C]. split; try done; [by destruct G|by destruct T|by destruct L]. Qed.

Lemma cnt_value : 0 < match zrf o with Some n => n | None => UINT_MAX end < 2 ^ 32.
Proof using zrf_pos. pose proof zrf_pos as Hp. destruct (zrf o) as [m|]; [by apply Hp|done]. Qed.

Lemma dec_cnt_spec us h s : inv us h false s -> zrf o <> None -> ok (zbd_dec_and_reset_write_cnt o s) (fun '(b, s') => inv us h false s' /\ keeps_targets s s').
Proof.
  intros H Hz. unfold zbd_dec_and_reset_write_cnt. eapply ok_bind; [by apply lock_info_spec|]. intros s1 [H1 K1]. pose proof (i_cnt _ _ _ _ H1 running Hz) as Hc.
  apply ok_assert; [unfold c_true; destruct (Z.eqb_spec (write_cnt (zbd_info s1)) 0); [lia|done]|]. set (n := write_cnt (zbd_info s1) - 1). set (s2 := if n =? 0 then _ else _).
  assert (inv us h true s2 /\ keeps_targets s1 s2) as [H2 K2].
  { unfold s2, _zbd_reset_write_cnt. destruct (Z.eqb_spec n 0).
    - split; [unfold _zbd_reset_write_cnt; change (set_cnt (set_cnt s1 n) (match zrf o with Some n => n | None => UINT_MAX end)) with (set_cnt s1 (match zrf o with Some n => n | None => UINT_MAX end)); apply set_cnt_inv; [|done]; intros _ _; apply cnt_value|].
      split; [done|]. split_and!; try done. intros j zj Hj. by exists zj.
    - split; [apply set_cnt_inv; [intros _ _; lia|done]|]. split; [done|]. split_and!; try done. intros j zj Hj. by exists zj. }
  eapply ok_bind; [by apply (unlock_info_spec us h)|]. intros s3 [H3 K3]. apply ok_ret. split; [done|]. eapply keeps_targets_trans; [done|]. by eapply keeps_targets_trans.
Qed.

Lemma due_spec h s : live h false s -> ok (reset_due o s) (fun '(b, s') => live h false s' /\ keeps_targets s s').
Proof.
  intros H. unfold reset_due. pose proof (dec_cnt_spec (flying s ++ p) h s H) as Hd. destruct (zrf o) as [m|] in Hd |- *; [|apply ok_ret; split; [done|apply keeps_targets_refl]]. destruct (match zrt o with Some _ => _ | None => true end); [|apply ok_ret; split; [done|apply keeps_targets_refl]].
  eapply ok_impl; [by apply Hd|]. intros [b s'] [H' K]. split; [|done]. by apply (live_keeps _ _ s); [apply K|].
Qed.

(** [reset_zone] is only a mark. *)
Lemma mark_spec h s i x b : live h false s -> arr_get (shapes s) i = Some x -> ok (update s i (fun z => with_reset z b)) (fun s' => live h false s' /\ keeps_targets s s').
Proof.
  intros H Hx. destruct (zone_back _ _ _ Hx) as (z & Hz & _). rewrite (update_eq _ _ _ _ Hz). apply ok_ret. pose proof (change_keeps s i z (with_reset z b) Hz eq_refl eq_refl) as K. split; [|done].
  pose proof H as [Hs Hd]%inv_sound. unfold live. rewrite (k_flying _ _ (proj1 K)). apply inv_sound. split; [by apply (sound_change _ _ _ z)|]. apply (held_keeps _ _ s); [apply K|apply K| |done].
  intros j zj. rewrite (zone_insert _ _ _ _ _ Hz). case_decide; [intros [= <-]; subst j; by exists z|]. intros Hj. by exists zj.
Qed.

Lemma rest_zone s i z : geometry s -> in_file i -> zone s i = Some z -> has_wp z = true ->
  zbd_zone_capacity_end z = start z + cap i /\ zbd_zone_remainder z = Z.max 0 (start z + cap i - wp z).
Proof.
  intros Hg Hi Hz Hw. destruct (zone_in_file s i Hg Hi) as (z' & nx & Hz' & _ & E1 & E2 & B1 & B2 & B3 & C1 & C2 & C3). assert (z' = z) as -> by congruence. specialize (C3 Hw). pose proof (g_size _ Hg).
  assert (zbd_zone_capacity_end z = start z + cap i) as E by (unfold zbd_zone_capacity_end; rewrite C1, addw_small by lia; done). split; [done|]. unfold zbd_zone_remainder. rewrite E.
  destruct (Z.leb_spec (start z + cap i) (wp z)); [lia|]. rewrite subw_small by lia. lia.
Qed.

(** What a write is when it is accepted: it begins at the write pointer of a sequential zone
    that is online, and is of whole blocks, of at least one and no more than asked for, and
    ends in the zone's capacity.  It holds the zone. *)
Definition write_accepted u u' s' : Prop := exists i z, in_file i /\ zone s' i = Some z /\ has_wp z = true /\ online s' i /\
  u_offset u' = wp z /\ u_ddir u' = DDIR_WRITE /\ u_error u' = u_error u /\ (min_bs o DDIR_WRITE | u_buflen u') /\ min_bs o DDIR_WRITE <= u_buflen u' <= u_buflen u /\
  start z <= wp z /\ wp z + u_buflen u' <= start z + cap i /\ u_held u' = true /\ inv (u' :: flying s' ++ p) None false s'.

(** What [zbd_adjust_block] does with a write. *)
Definition write_adjusted u (next_verify : option io_u) '(a, u', s') : Prop :=
  match a with
  | io_u_eof => live None false s'
  | io_u_accept => write_accepted u u' s' \/ next_verify = Some u' /\ live None false s' /\ zlength (flying s' ++ p) + 1 < 2 ^ 31
  | io_u_completed => False
  end.

(** The end: the unit is put at the write pointer of zone [i], where there is room. *)
Lemma place_write_spec s u i z : live (Some i) false s -> online s i -> zone s i = Some z -> has_wp z = true -> u_held u = false -> is_write u = true -> 0 < u_buflen u < 2 ^ 63 -> zlength (flying s ++ p) + 1 < 2 ^ 31 ->
  min_bs o DDIR_WRITE <= zbd_zone_remainder z ->
  ok (let u := place u (wp z) (u_buflen u) in
      if negb (is_valid_offset f (u_offset u)) then eof s u (Some i) else
      let new_len := Z.min (u_buflen u) (subw 64 (zbd_zone_capacity_end z) (u_offset u)) in
      let* _ := c_assert (negb (min_bs o DDIR_WRITE =? 0)) in
      let new_len := mulw 64 (new_len / min_bs o DDIR_WRITE) (min_bs o DDIR_WRITE) in
      if new_len =? u_buflen u then accept s u i
      else if min_bs o DDIR_WRITE <=? new_len then accept s (place u (u_offset u) new_len) i
      else eof s u (Some i)) (write_adjusted u None).
Proof.
  intros H Ho Hz Hw Hh Hwr Hlen Hfew Hr. pose proof (i_geometry _ _ _ _ H) as Hg. destruct (held_zone _ _ _ _ H eq_refl) as (Hi & _). destruct (rest_zone s i z Hg Hi Hz Hw) as [Ec Er]. rewrite Er in Hr.
  destruct (zone_in_file s i Hg Hi) as (z' & nx & Hz' & _ & E1 & E2 & B1 & B2 & B3 & C1 & C2 & C3). assert (z' = z) as -> by congruence. specialize (C3 Hw). pose proof (g_size _ Hg) as Hsz. cbn [place u_offset u_buflen].
  assert (is_valid_offset f (wp z) = true) as Hv by (replace (wp z) with (i * zone_size (zbd_info s) + (wp z - start z)) by lia; apply start_valid; [done|done|lia]). rewrite Hv. cbn [negb].
  apply ok_assert; [destruct (Z.eqb_spec (min_bs o DDIR_WRITE) 0); [lia|done]|]. rewrite Ec, subw_small by lia. set (m := Z.min (u_buflen u) (start z + cap i - wp z)). set (b := min_bs o DDIR_WRITE) in *.
  pose proof (Z.div_mod m b) as Hdm. pose proof (Z.mod_pos_bound m b) as Hmm. assert (0 <= m / b) as Hq by (apply Z.div_pos; lia). assert (m / b * b <= m) as Hqb by lia.
  assert (mulw 64 (m / b) b = m / b * b) as -> by (apply wrap_small; unfold is_word; nia).
  assert (forall n, b <= n <= m -> (b | n) -> ok (accept s (place u (wp z) n) i) (write_adjusted u None)) as Hacc.
  { intros n Hn Hb. assert (unit_zone (zone_size (zbd_info s)) (place u (wp z) n) = i) as Hui.
    { unfold unit_zone. cbn. symmetry. apply (Z.div_unique_pos _ _ i (wp z - start z)); lia. }
    eapply ok_impl; [apply (accept_spec s (place u (wp z) n) i H Ho Hh Hui); [cbn; lia|done]|]. intros [[a u'] s'] (-> & -> & H' & K). left.
    destruct (zone_keeps s s' i z (k_shapes _ _ (proj1 K)) Hz) as (z2 & Hz2 & Ez2). injection Ez2 as F1 F2 F3 F4 F5. exists i, z2. rewrite F5, F2, F1. unfold is_write in Hwr. cbn [hold place u_offset u_ddir u_buflen u_error u_held].
    split_and!; try done; try lia; [by apply (online_keeps s); [apply K|]|by destruct (u_ddir u)]. }
  destruct (Z.eqb_spec (m / b * b) (u_buflen u)) as [Eq|Eq].
  - rewrite <- Eq. destruct (Z.eq_dec (m / b) 0) as [E0|E0]; [rewrite E0 in Eq; lia|]. apply Hacc; [split; [nia|lia]|by exists (m / b)].
  - destruct (Z.leb_spec b (m / b * b)); [apply Hacc; [lia|by exists (m / b)]|].
    eapply ok_impl; [by apply eof_spec|]. by intros [[a u'] s'] (-> & -> & H' & _).
Qed.

Lemma settles_few s s' : settles s s' -> zlength (flying s ++ p) + 1 < 2 ^ 31 -> zlength (flying s' ++ p) + 1 < 2 ^ 31.
Proof. intros (_ & _ & Hl). unfold zlength. rewrite !length_app. lia. Qed.

Lemma write_adjusted_unit u u' nv r : same_unit u u' -> write_adjusted u' nv r -> write_adjusted u nv r.
Proof.
  destruct r as [[[] v] s']; cbn; try done. intros (E1 & E2 & E3 & E4) [(i & z & H)|H]; [left|by right]. exists i, z. by rewrite <- E2, <- E3.
Qed.

Lemma write_adjusted_none u nv r : write_adjusted u None r -> write_adjusted u nv r.
Proof. destruct r as [[[] v] s']; cbn; try done. intros [H|[? _]]; [by left|done]. Qed.

(** A zone that is to be reset. *)
Lemma reset_for_write s i : live (Some i) false s -> online s i ->
  ok (let* s := io_u_quiesce completion s in let* s := update s i (fun z => with_reset z false) in __zbd_reset_zone o f reset_wp s i)
     (fun '(r, s') => live (Some i) false s' /\ online s' i /\ (length (flying s') <= length (flying s))%nat /\ (0 <= r -> forall z, zone s' i = Some z -> wp z = start z)).
Proof.
  intros H Ho. eapply ok_bind; [by apply live_quiesce|]. intros s1 (H1 & F1 & S1 & C1). destruct (held_zone _ _ _ _ H1 eq_refl) as (Hi & x & Hx & Hw).
  eapply ok_bind; [exact (mark_spec _ _ _ x false H1 Hx)|]. intros s2 [H2 K2]. assert (arr_get (shapes s2) i = Some x) as Hx2 by (by rewrite (k_shapes _ _ (proj1 K2))).
  eapply ok_impl; [by apply (reset_spec _ _ _ _ x H2)|]. intros [r s3] [H3 M3]. destruct (Z.ltb_spec r 0) as [Hr|Hr].
  - subst s3. split; [done|]. split; [intros y Hy; apply Ho; by rewrite <- S1, <- (k_shapes _ _ (proj1 K2))|]. split; [rewrite (k_flying _ _ (proj1 K2)), F1; cbn; lia|lia].
  - pose proof M3 as (C3 & F3 & y & Hy & E3). assert (y = x) as -> by congruence. split; [unfold live; by rewrite F3|]. pose proof (arr_get_range _ _ _ Hx2) as Hrange.
    assert (arr_get (shapes s3) i = Some (shape_wp x (i * zone_size (zbd_info s2)))) as Hx3 by (rewrite E3, arr_get_insert by done; by rewrite decide_True).
    split; [intros w; rewrite Hx3; intros [= <-]; cbn; apply Ho; by rewrite <- S1|]. split; [rewrite F3, (k_flying _ _ (proj1 K2)), F1; cbn; lia|].
    intros _ z Hz. apply zone_shape in Hz. rewrite Hx3 in Hz. injection Hz as E1 E2 _ _ _. pose proof (g_start _ (i_geometry _ _ _ _ H2) i x Hx2) as Es. congruence.
Qed.

Lemma full_spec z : zbd_zone_full z (min_bs o DDIR_WRITE) = Some (has_wp z && (zbd_zone_remainder z <? min_bs o DDIR_WRITE)).
Proof. unfold zbd_zone_full. by rewrite blocks. Qed.

Lemma adjust_write_spec s u i nv : live (Some i) false s -> valid_unit u -> u_held u = false -> is_write u = true -> 0 < u_buflen u < 2 ^ 63 -> zlength (flying s ++ p) + 1 < 2 ^ 31 ->
  ok (adjust_write o f reset_wp finish_wp completion s u i nv) (write_adjusted u nv).
Proof.
  intros H Hu Hh Hwr Hlen Hfew. unfold adjust_write. destruct (_ <? _); [eapply ok_impl; [by apply eof_spec|]; by intros [[a u'] s'] (-> & -> & H' & _)|].
  destruct (held_zone _ _ _ _ H eq_refl) as (Hi & x & Hx & Hw). pose proof (g_len _ (i_geometry _ _ _ _ H)) as Hl. unfold zlength in Hl. eapply ok_bind; [apply (write_zone_spec _ s u i x H Hu Hx)|].
  { pose proof (List.filter_length_le partial (shapes s)) as Hp. fold (partials s) in Hp. destruct (partial x) eqn:Ex; [right; split; [done|lia]|left]. pose proof (partials_not_all s i x Hx Ex). lia. }
  intros [[r u1] s1] [(S1 & U1 & V1 & H1) Hn]. destruct r as [j|]; [|by apply ok_ret]. destruct H1 as [H1 Ho1]. specialize (Hn j).
  eapply ok_bind; [by apply due_spec|]. intros [due s2] [H2 K2]. destruct (held_zone _ _ _ _ H2 eq_refl) as (Hj & y & Hy & Hyw).
  eapply (ok_bind _ _ (fun s' => live (Some j) false s' /\ keeps_targets s2 s')); [destruct due; [exact (mark_spec _ _ _ y true H2 Hy)|apply ok_ret; split; [done|apply keeps_targets_refl]]|]. intros s3 [H3 K3].
  pose proof (keeps_targets_trans _ _ _ K2 K3) as K13. pose proof (settles_trans _ _ _ S1 (keeps_settles _ _ (proj1 K13))) as S13. assert (online s3 j) as Ho3 by (apply (online_keeps s1); [apply K13|done]).
  destruct (zone_in_file s3 j (i_geometry _ _ _ _ H3) Hj) as (z & _ & Hz & _). assert (has_wp z = true) as Hzw by (pose proof (zone_shape _ _ _ Hz) as E; rewrite (k_shapes _ _ (proj1 K3)) in E; assert (y = shape_of z) as -> by congruence; done).
  rewrite Hz. cbn [mbind option_bind]. rewrite full_spec, Hzw. cbn [mbind option_bind andb]. set (full := zbd_zone_remainder z <? min_bs o DDIR_WRITE). remember (reset_zone z || full) as reset eqn:Ereset.
  destruct (if reset && verify o then nv else None) as [v|] eqn:Env.
  { eapply ok_bind; [by apply live_unlock|]. intros s4 [H4 [K4 _]]. apply ok_ret. right. split; [by destruct (reset && verify o)|]. split; [done|]. rewrite (k_flying _ _ K4). by apply settles_few in S13. }
  eapply (ok_bind _ _ (fun '(r, s') => live (Some j) false s' /\ online s' j /\ (length (flying s') <= length (flying s3))%nat /\ (0 <= r -> if reset then forall z, zone s' j = Some z -> wp z = start z else zone s' j = Some z))).
  { destruct reset; [by apply reset_for_write|by apply ok_ret]. }
  intros [r s4] (H4 & Ho4 & F4 & W4). destruct (held_zone _ _ _ _ H4 eq_refl) as (_ & y4 & Hy4 & Hyw4). destruct (zone_in_file s4 j (i_geometry _ _ _ _ H4) Hj) as (z4 & _ & Hz4 & _). rewrite Hz4. cbn [mbind option_bind].
  assert (has_wp z4 = true) as Hzw4 by (pose proof (zone_shape _ _ _ Hz4) as E; assert (y4 = shape_of z4) as -> by congruence; done).
  destruct ((r <? 0) || reset && (capacity z4 <? min_bs o DDIR_WRITE)) eqn:Ee; [eapply ok_impl; [by apply eof_spec|]; by intros [[a u'] s'] (-> & -> & H' & _)|]. apply orb_false_iff in Ee as [Er Ec]. apply Z.ltb_ge in Er. specialize (W4 Er).
  destruct (rest_zone s4 j z4 (i_geometry _ _ _ _ H4) Hj Hz4 Hzw4) as [Eend Erest]. destruct (zone_in_file s4 j (i_geometry _ _ _ _ H4) Hj) as (z4' & _ & Hz4' & _ & _ & _ & _ & _ & _ & Ecap & _). assert (z4' = z4) as -> by congruence.
  assert (min_bs o DDIR_WRITE <= zbd_zone_remainder z4) as Hroom.
  { destruct reset eqn:Erz; [rewrite Erest, (W4 z4 Hz4); cbn [andb] in Ec; apply Z.ltb_ge in Ec; lia|]. assert (z4 = z) as -> by congruence. symmetry in Ereset. apply orb_false_iff in Ereset as [_ Ef]. apply Z.ltb_ge in Ef. exact Ef. }
  rewrite full_spec, Hzw4. cbn [mbind option_bind andb]. apply ok_assert; [destruct (Z.ltb_spec (zbd_zone_remainder z4) (min_bs o DDIR_WRITE)); [lia|done]|].
  destruct U1 as (U1 & U2 & U3 & U4). eapply ok_impl; [apply (place_write_spec s4 u1 j z4); try done; [by rewrite U4|unfold is_write; by rewrite U1|by rewrite U2|]|].
  - apply settles_few in S13; [|done]. unfold zlength in *. rewrite length_app in *. lia.
  - intros r'. intros Ha. apply write_adjusted_none. eapply write_adjusted_unit; [|done]. by repeat split.
Qed.

(** *** Reads *)

Context (read_pos : 0 < min_bs o DDIR_READ < 2 ^ 63).

Lemma readable_spec n s i : live None false s -> in_file i ->
  ok (readable f n s i) (fun '(b, s') => keeps s s' /\ if (b : bool) then live (seq_zone s' i) false s' /\ online s' i /\ exists z, zone s' i = Some z /\ addw 64 (start z) n <= wp z else live None false s').
Proof.
  intros H Hi. destruct (zone_in_file s i (i_geometry _ _ _ _ H) Hi) as (z & _ & Hz & _). unfold readable. rewrite Hz. cbn [mbind option_bind]. destruct (Z.eqb_spec (cond z) ZBD_ZONE_COND_OFFLINE) as [|Hc]; [by apply ok_ret|].
  eapply ok_bind; [exact (live_lock_opt false s i z H Hi Hz)|]. intros s1 [H1 [K1 _]]. destruct (zone_keeps s s1 i z (k_shapes _ _ K1) Hz) as (z1 & Hz1 & Ez). injection Ez as F1 F2 F3 F4 F5. rewrite <- (seq_zone_keeps _ _ i (k_shapes _ _ K1)) in H1.
  destruct (Z.leb_spec (addw 64 (start z) n) (wp z)).
  - apply ok_ret. split; [done|]. split; [done|]. split; [intros x; rewrite (zone_shape _ _ _ Hz1); intros [= <-]; cbn; congruence|]. exists z1. split; [done|]. congruence.
  - rewrite <- F5. eapply ok_bind; [exact (live_unlock_opt false s1 i z1 H1 Hz1)|]. intros s2 [H2 [K2 _]]. apply ok_ret. split; [by eapply keeps_trans|done].
Qed.

Definition found_zone n s '(r, s') : Prop := keeps s s' /\ match r with
  | Some i => in_file i /\ live (seq_zone s' i) false s' /\ online s' i /\ exists z, zone s' i = Some z /\ addw 64 (start z) n <= wp z
  | None => live None false s'
  end.

Lemma found_keeps n s1 s2 r : keeps s1 s2 -> found_zone n s2 r -> found_zone n s1 r.
Proof. destruct r as [r s3]. intros K [K' H]. split; [by eapply keeps_trans|done]. Qed.

Lemma find_loop_spec (fuel : nat) (n : Z) s (z1 z2 : Z) : live None false s -> min_zone f < z1 -> z2 < max_zone f ->
  (Z.max (max_zone f - z1) (z2 - min_zone f + 1) <= Z.of_nat fuel) ->
  ok (find_loop o f fuel s n z1 z2 (max_zone f)) (found_zone n s).
Proof.
  revert s z1 z2. induction fuel as [|fuel IH]; intros s z1 z2 H Hz1 Hz2 Hf; cbn [find_loop].
  - destruct (Z.ltb_spec z1 (max_zone f)), (Z.leb_spec (min_zone f) z2); try lia. by apply ok_ret.
  - destruct (negb _); [by apply ok_ret|].
    eapply (ok_bind _ _ (fun b : bool => b = true -> in_file z1)).
    { destruct (Z.ltb_spec z1 (max_zone f)); [|by apply ok_ret]. assert (in_file z1) as Hi by (unfold in_file; lia). destruct (zone_in_file s z1 (i_geometry _ _ _ _ H) Hi) as (z & _ & -> & _). by apply ok_ret. }
    intros up Hup. destruct (negb up && negb (td_random o)); [by apply ok_ret|].
    eapply (ok_bind _ _ (fun '(b, s') => keeps s s' /\ if (b : bool) then found_zone n s (Some z1, s') else live None false s')).
    { destruct up; [|by apply ok_ret]. eapply ok_impl; [apply readable_spec; [done|by apply Hup]|]. intros [[|] s1] [K1 H1]; [|done]. split; [done|]. split; [done|]. split; [by apply Hup|done]. }
    intros [[|] s1] [K1 H1]; [by apply ok_ret|].
    eapply (ok_bind _ _ (fun '(b, s') => keeps s s' /\ if (b : bool) then found_zone n s (Some z2, s') else live None false s')).
    { destruct (td_random o); [|by apply ok_ret]. destruct (Z.leb_spec (min_zone f) z2); [|by apply ok_ret]. cbn [andb]. assert (in_file z2) as Hi by (unfold in_file; lia).
      eapply ok_impl; [by apply readable_spec|]. intros [[|] s2] [K2 H2]; (split; [by eapply keeps_trans|]); [|done]. split; [by eapply keeps_trans|]. done. }
    intros [[|] s2] [K2 H2]; [by apply ok_ret|].
    eapply ok_impl; [apply IH; try done; lia|]. intros r. by apply found_keeps.
Qed.

(** What a read is when it is accepted: it lies between the start and the write pointer of a
    sequential zone that is online, which it holds, or begins in a conventional zone. *)
Definition read_accepted u u' s' : Prop := exists i z, in_file i /\ zone s' i = Some z /\ online s' i /\ u_ddir u' = u_ddir u /\ u_error u' = u_error u /\
  start z <= u_offset u' /\ 0 < u_buflen u' <= u_buflen u /\ (has_wp z = true -> u_offset u' + u_buflen u' <= wp z) /\ u_held u' = has_wp z /\ inv (u' :: flying s' ++ p) None false s'.

Definition read_adjusted u '(a, u', s') : Prop :=
  match a with
  | io_u_eof => live None false s'
  | io_u_accept => read_accepted u u' s'
  | io_u_completed => False
  end.

Lemma inv_unheld us lk s u : inv us None lk s -> u_held u = false -> zlength us + 1 < 2 ^ 31 -> inv (u :: us) None lk s.
Proof.
  intros [Hs [L1 L2 L3 L4 L5]]%inv_sound Hu Hl. apply inv_sound. split; [done|]. split; try done.
  - intros i z Hz. by rewrite (L1 i z Hz), units_at_cons, Hu.
  - intros i z Hz. destruct (L2 i z Hz) as [-> ?]. by rewrite writes_at_cons, Hu.
  - intros v [->|Hv]%elem_of_cons Hd; [congruence|by apply L3].
  - unfold zlength in *. cbn [length]. lia.
Qed.

(** The first zone in which to read: that of the unit, or another one with enough data. *)
Definition read_from s u '(found, u', s') : Prop := keeps s s' /\ same_unit u u' /\ match found with
  | None => live None false s'
  | Some (i, range) => in_file i /\ live (seq_zone s' i) false s' /\ online s' i /\ exists z, zone s' i = Some z /\ range = wp z - start z /\ min_bs o DDIR_READ <= range /\
      (td_random o = false -> start z <= u_offset u' /\ u_offset u' + min_bs o DDIR_READ <= wp z)
  end.

Lemma wp_bounds s i z : geometry s -> in_file i -> zone s i = Some z -> 0 <= start z <= wp z /\ wp z <= start z + zone_size (zbd_info s) < 2 ^ 63 /\ start z = i * zone_size (zbd_info s).
Proof.
  intros Hg Hi Hz. destruct (zone_in_file s i Hg Hi) as (z' & nx & Hz' & _ & E1 & E2 & B1 & B2 & B3 & C1 & C2 & C3). assert (z' = z) as -> by congruence. pose proof (g_size _ Hg).
  destruct (has_wp z) eqn:Ew; [specialize (C3 eq_refl); lia|]. pose proof (g_conv _ Hg i _ Hi (zone_shape _ _ _ Hz) Ew) as Hc. cbn in Hc. lia.
Qed.

Lemma read_from_spec s u orig : live (Some orig) false s -> unit_zone (zone_size (zbd_info s)) u = orig -> 0 <= u_offset u < 2 ^ 63 ->
  ok (let* zb := zone s orig in
      let range := if negb (cond zb =? ZBD_ZONE_COND_OFFLINE) then subw 64 (wp zb) (start zb) else 0 in
      if (range <? min_bs o DDIR_READ) || (negb (td_random o) && (wp zb <? addw 64 (u_offset u) (min_bs o DDIR_READ))) then
        let* s := zone_unlock s orig in
        let* '(found, s) := zbd_find_zone o f s (min_bs o DDIR_READ) orig (max_zone f) in
        match found with
        | None => Some (None, u, s)
        | Some i =>
            let* z := zone s i in
            let range := subw 64 (wp z) (start z) in
            let* _ := c_assert (min_bs o DDIR_READ <=? range) in
            Some (Some (i, range), if td_random o then u else place u (start z) (u_buflen u), s)
        end
      else Some (Some (orig, range), u, s)) (read_from s u).
Proof.
  intros H Hu Hoff. destruct (held_zone _ _ _ _ H eq_refl) as (Hi & x & Hx & Hw). pose proof (i_geometry _ _ _ _ H) as Hg. destruct (zone_in_file s orig Hg Hi) as (zb & _ & Hzb & _). rewrite Hzb. cbn [mbind option_bind].
  destruct (wp_bounds s orig zb Hg Hi Hzb) as (B1 & B2 & B3). rewrite subw_small by lia. rewrite addw_small by lia. remember (if negb (cond zb =? ZBD_ZONE_COND_OFFLINE) then wp zb - start zb else 0) as range eqn:Er.
  destruct ((range <? min_bs o DDIR_READ) || negb (td_random o) && (wp zb <? u_offset u + min_bs o DDIR_READ)) eqn:Ec.
  - eapply ok_bind; [by apply live_unlock|]. intros s1 [H1 [K1 _]]. pose proof (i_geometry _ _ _ _ H1) as Hg1. destruct (config_size _ _ (k_config _ _ K1)) as (_ & En & _). pose proof (g_file _ Hg) as Hf. unfold in_file in Hi.
    eapply ok_bind; [apply (find_loop_spec _ _ s1); [done|lia|lia|]; rewrite En; lia|]. intros [[i|] s2] [K2 H2]; [|apply ok_ret; split; [by eapply keeps_trans|done]].
    destruct H2 as (Hi2 & H2 & Ho2 & z & Hz & Hle). rewrite Hz. cbn [mbind option_bind]. destruct (wp_bounds s2 i z (i_geometry _ _ _ _ H2) Hi2 Hz) as (D1 & D2 & D3). rewrite addw_small in Hle by lia. rewrite subw_small by lia.
    apply ok_assert; [apply Z.leb_le; lia|]. apply ok_ret. split; [by eapply keeps_trans|]. split; [by destruct (td_random o)|]. split; [done|]. split; [done|]. split; [done|]. exists z. split; [done|]. split; [done|]. split; [lia|].
    intros ->. cbn. lia.
  - apply orb_false_iff in Ec as [Ec1 Ec2]. apply Z.ltb_ge in Ec1. destruct (Z.eqb_spec (cond zb) ZBD_ZONE_COND_OFFLINE) as [|Hc]; cbn [negb] in Er; [lia|]. apply ok_ret. split; [done|]. split; [done|]. split; [done|].
    split; [unfold seq_zone; by rewrite Hx, Hw|]. split; [intros y; rewrite (zone_shape _ _ _ Hzb); by intros [= <-]|]. exists zb. split; [done|]. split; [done|]. split; [done|]. intros Hr. rewrite Hr in Ec2. cbn [negb andb] in Ec2. apply Z.ltb_ge in Ec2.
    split; [|done]. pose proof (g_size _ Hg) as Hs. rewrite B3, <- Hu. unfold unit_zone. rewrite Z.mul_comm. by apply Z.mul_div_le.
Qed.

(** How far into zone [z], with [range] bytes of data, the unit is put. *)
Definition read_place u (zb z : fio_zone_info) (range : Z) : option Z :=
  if range <=? u_buflen u then Some (start z)
  else if td_random o then
    let* _ := c_assert (negb (min_bs o DDIR_READ =? 0)) in
    Some (addw 64 (start z) (mulw 64 (subw 64 (u_offset u) (start zb) mod (range - u_buflen u) / min_bs o DDIR_READ) (min_bs o DDIR_READ)))
  else Some (u_offset u).

Lemma read_place_spec u zb z : 0 <= start z <= wp z -> wp z < 2 ^ 63 -> min_bs o DDIR_READ <= u_buflen u -> min_bs o DDIR_READ <= wp z - start z ->
  (td_random o = false -> start z <= u_offset u /\ u_offset u + min_bs o DDIR_READ <= wp z) ->
  ok (read_place u zb z (wp z - start z)) (fun off => start z <= off /\ off + min_bs o DDIR_READ <= wp z).
Proof.
  intros Hs Hw Hb Hr Hu. set (b := min_bs o DDIR_READ) in *. unfold read_place. destruct (Z.leb_spec (wp z - start z) (u_buflen u)) as [|Hlt]; [apply ok_ret; lia|].
  destruct (td_random o); [|by apply ok_ret, Hu]. fold b. apply ok_assert; [destruct (Z.eqb_spec b 0); [lia|done]|]. apply ok_ret. set (x := subw 64 (u_offset u) (start zb) mod (wp z - start z - u_buflen u)).
  pose proof (Z.mod_pos_bound (subw 64 (u_offset u) (start zb)) (wp z - start z - u_buflen u)) as Hx. fold x in Hx. assert (0 <= x < wp z - start z - u_buflen u) as Hx' by (apply Hx; lia).
  assert (0 <= x / b) as Hq by (apply Z.div_pos; lia). assert (x / b * b <= x) as Hle by (rewrite Z.mul_comm; apply Z.mul_div_le; lia).
  assert (mulw 64 (x / b) b = x / b * b) as -> by (apply wrap_small; unfold is_word; nia). rewrite addw_small by nia. nia.
Qed.

Lemma adjust_read_spec s u orig verifying : live (Some orig) false s -> verifying && td_write o = false -> unit_zone (zone_size (zbd_info s)) u = orig -> 0 <= u_offset u < 2 ^ 63 ->
  u_held u = false -> is_write u = false -> min_bs o DDIR_READ <= u_buflen u < 2 ^ 63 -> zlength (flying s ++ p) + 1 < 2 ^ 31 ->
  ok (adjust_read o f s u orig verifying) (read_adjusted u).
Proof.
  intros H Hv Hu Hoff Hh Hr Hb Hfew. destruct (held_zone _ _ _ _ H eq_refl) as (Hi & _). destruct (zone_in_file s orig (i_geometry _ _ _ _ H) Hi) as (zb & _ & Hzb & _). pose proof (read_from_spec s u orig H Hu Hoff) as Hfrom.
  unfold adjust_read. rewrite Hv. rewrite Hzb in *. cbn [mbind option_bind] in Hfrom |- *. eapply ok_bind; [exact Hfrom|]. clear Hfrom. intros [[[[i range]|] u1] s1] (K1 & U1 & H1); [|by apply ok_ret].
  destruct H1 as (Hi1 & H1 & Ho1 & z & Hz & -> & Hmin & Hseq). rewrite Hz. cbn [mbind option_bind]. pose proof (i_geometry _ _ _ _ H1) as Hg. destruct (wp_bounds s1 i z Hg Hi1 Hz) as (B1 & B2 & B3). destruct U1 as (U1 & U2 & U3 & U4).
  assert (zlength (flying s1 ++ p) + 1 < 2 ^ 31) as Hfew1 by (by rewrite (k_flying _ _ K1)).
  eapply ok_bind; [apply (read_place_spec u1 zb z); [lia|lia|lia|lia|done]|]. intros off [Hoff1 Hoff2]. rewrite (seq_zone_spec _ _ _ Hz) in H1. destruct (has_wp z) eqn:Ew; cbn [negb].
  - rewrite subw_small by lia. apply ok_assert; [destruct (Z.eqb_spec (min_bs o DDIR_READ) 0); [lia|done]|]. set (b := min_bs o DDIR_READ) in *. set (m := Z.min (u_buflen u1) (wp z - off)). assert (b <= m) as Hm by lia.
    pose proof (Z.div_mod m b) as Hdm. pose proof (Z.mod_pos_bound m b) as Hmm. assert (1 <= m / b) as Hq by (apply Z.div_le_lower_bound; lia). assert (mulw 64 (m / b) b = m / b * b) as -> by (apply wrap_small; unfold is_word; nia).
    set (len := if m / b * b <? u_buflen u1 then m / b * b else u_buflen u1). assert (0 < len <= m) as Hlen by (unfold len; destruct (Z.ltb_spec (m / b * b) (u_buflen u1)); nia).
    cbn [place u_buflen]. apply ok_assert; [apply Z.leb_le; lia|]. rewrite addw_small by lia. apply ok_assert; [apply Z.leb_le; lia|].
    assert (unit_zone (zone_size (zbd_info s1)) (place u1 off len) = i) as Hui by (unfold unit_zone; cbn; symmetry; apply (Z.div_unique_pos _ _ i (off - start z)); lia).
    eapply ok_impl; [apply (accept_spec s1 (place u1 off len) i H1 Ho1); [cbn; congruence|done|cbn; lia|done]|]. intros [[a u'] s'] (-> & -> & H' & K).
    destruct (zone_keeps s1 s' i z (k_shapes _ _ (proj1 K)) Hz) as (z2 & Hz2 & Ez2). injection Ez2 as F1 F2 F3 F4 F5. exists i, z2. rewrite F5, F2, F1. cbn [hold place u_offset u_ddir u_buflen u_error u_held].
    split_and!; try done; try lia. by apply (online_keeps s1); [apply K|].
  - apply ok_ret. exists i, z. cbn [place u_offset u_ddir u_buflen u_error u_held]. split_and!; try done; try lia; try congruence. apply inv_unheld; [done|cbn; congruence|done].
Qed.

(** *** The engine *)
(** The write [u] has been taken: the pointer moves behind it. *)
Lemma queue_write_spec us h s u i z : inv us h false s -> zone s i = Some z -> in_file i -> has_wp z = true ->
  u_offset u = wp z -> start z <= wp z -> 0 < u_buflen u -> wp z + u_buflen u <= start z + cap i -> (min_bs o DDIR_WRITE | u_buflen u) ->
  ok (let s := command_to s (Write (u_offset u) (u_buflen u)) in
      let zone_end := Z.min (addw 64 (u_offset u) (u_buflen u)) (zbd_zone_capacity_end z) in
      let* s :=
        if accounting_vdb o && (wp z <=? zone_end) then
          let* s := lock_info s in unlock_info (set_vdb s (addw 64 (wp_valid_data_bytes (zbd_info s)) (subw 64 zone_end (wp z))))
        else Some s in
      update s i (fun z => with_wp z zone_end)) (fun s' => inv us h false s' /\ moved s s' i (wp z + u_buflen u)).
Proof.
  intros H Hz Hi Hw Ho Hs Hl He Hbl. pose proof (i_geometry _ _ _ _ H) as Hg. destruct (zone_in_file s i Hg Hi) as (z' & nx & Hz' & _ & E1 & E2 & B1 & B2 & B3 & C1 & C2 & C3). assert (z' = z) as -> by congruence.
  pose proof (g_size _ Hg) as Hsz. destruct (rest_zone s i z Hg Hi Hz Hw) as [Ec _]. cbn zeta. rewrite Ec, Ho, addw_small by lia. replace (Z.min (wp z + u_buflen u) (start z + cap i)) with (wp z + u_buflen u) by lia.
  set (s1 := command_to s _). assert (locked (zbd_info s1) = false) as Hl1 by (unfold s1, command_to; destruct (zoned s); apply (i_locked _ _ _ _ H)).
  rewrite (account_eq _ s1 (fun s => addw 64 (wp_valid_data_bytes (zbd_info s)) (subw 64 (wp z + u_buflen u) (wp z))) Hl1). cbn [mbind option_bind]. set (n := addw 64 _ _). clearbody n. remember (accounting_vdb o && _) as b eqn:Eb. clear Eb.
  pose proof (moved_spec us h false s i z (wp z + u_buflen u) (Write (wp z) (u_buflen u)) H Hz Hi Hw) as Hm. cbn zeta in Hm. destruct Hm as [M1 M2]; [left; lia| | |].
  { intros Hwh. destruct (i_rests _ _ _ _ H Hwh i (shape_of z) Hi (zone_shape _ _ _ Hz) Hw) as [_ [Hd|Hd]]; cbn in Hd; [left|lia].
    replace (start z + cap i - (wp z + u_buflen u)) with ((start z + cap i - wp z) - u_buflen u) by lia. by apply Z.divide_sub_r. }
  { intros d Hd. assert (wp z / zone_size (zbd_info s) = i) as Ei by (symmetry; apply (Z.div_unique_pos _ _ i (wp z - start z)); lia). cbn [device_step]. rewrite Ei, Hd, Z.eqb_refl.
    destruct (Z.ltb_spec 0 (u_buflen u)), (Z.leb_spec (wp z + u_buflen u) (i * zone_size (zbd_info s) + cap i)); try lia. by eexists. }
  set (s2 := if b then _ else _). assert (zone s2 i = Some z) as Hz2 by (unfold s2, s1, command_to; by destruct (zoned s), b). rewrite (update_eq _ _ _ _ Hz2). apply ok_ret.
  assert (set_zones s2 (<[Z.to_nat i := with_wp z (wp z + u_buflen u)]> (zone_info (zbd_info s2))) = let s3 := set_zones s1 (<[Z.to_nat i := with_wp z (wp z + u_buflen u)]> (zone_info (zbd_info s))) in if b then set_vdb s3 n else s3) as ->
    by (unfold s2, s1, command_to; by destruct (zoned s), b).
  cbn zeta. split; [destruct b; [by apply set_vdb_inv|done]|by destruct b].
Qed.

(** *** [zbd_adjust_block] *)

Lemma retry_lock_spec n s i : live None false s -> in_file i -> seq_zone s i <> None -> ok (retry_lock o f completion n s i) (fun s' => live (Some i) false s' /\ keeps_targets s s').
Proof.
  intros H Hi Hs. assert (forall s' z, live (Some i) false s' -> zone s' i = Some z -> fixing_zone_wp z = false) as Hfix by (intros s' z H' Hz; apply (l_flight _ _ _ (i_held _ _ _ _ H') i z Hz)).
  destruct n as [|n]; cbn [retry_lock]; (eapply ok_bind; [by apply live_lock|]); intros s1 [H1 K1]; destruct (zone_in_file s1 i (i_geometry _ _ _ _ H1) Hi) as (z & _ & Hz & _); rewrite Hz; cbn [mbind option_bind];
    rewrite (Hfix s1 z H1 Hz), andb_false_r; by apply ok_ret.
Qed.

Lemma unit_in_file s u : geometry s -> valid_unit u -> in_file (unit_zone (zone_size (zbd_info s)) u) /\ zbd_offset_to_zone_idx (zbd_info s) (u_offset u) = Some (unit_zone (zone_size (zbd_info s)) u) /\ 0 <= u_offset u < 2 ^ 63.
Proof.
  intros Hg [Hv Hb]. pose proof (proj2 (valid_in_file s (u_offset u) Hg) (conj Hv Hb)) as Hr. destruct (g_offset _ Hg) as [O1 O2]. pose proof (g_file _ Hg) as Hf. pose proof (g_size _ Hg) as Hs. destruct (g_nr _ Hg) as [_ Hn]. rewrite O1, O2 in Hr. unfold unit_zone.
  assert (in_file (u_offset u / zone_size (zbd_info s))) as Hi by (unfold in_file; split; [apply Z.div_le_lower_bound; nia|apply Z.div_lt_upper_bound; nia]). split; [done|]. unfold in_file in Hi.
  split; [apply zone_idx_spec; try done; lia|nia].
Qed.

(** A write to a conventional zone: it stays in the zone if a sequential one follows. *)
Definition conv_accepted u '(a, u', s') : Prop := a = io_u_accept /\ live None false s' /\ zlength (flying s' ++ p) + 1 < 2 ^ 31 /\ u_held u' = false /\ u_error u' = u_error u /\ 0 <= u_buflen u' <= u_buflen u /\
  exists i z next, in_file i /\ zone s' i = Some z /\ has_wp z = false /\ zone s' (i + 1) = Some next /\ (has_wp next = true -> start z <= u_offset u' /\ u_offset u' + u_buflen u' <= start next).

Lemma adjust_conventional_spec s u i z : live None false s -> in_file i -> zone s i = Some z -> has_wp z = false -> unit_zone (zone_size (zbd_info s)) u = i -> 0 <= u_offset u ->
  u_held u = false -> is_write u = true -> 0 < u_buflen u < 2 ^ 63 -> zlength (flying s ++ p) + 1 < 2 ^ 31 ->
  ok (let* u := adjust_conventional o s u i in Some (io_u_accept, u, s)) (conv_accepted u).
Proof.
  intros H Hi Hz Hw Hu Ho Hh Hwr Hl Hfew. pose proof (i_geometry _ _ _ _ H) as Hg. destruct (zone_in_file s i Hg Hi) as (z' & nx & Hz' & Hn & E1 & E2 & B1 & B2 & B3 & _). assert (z' = z) as -> by congruence. pose proof (g_size _ Hg) as Hsz.
  assert (start z <= u_offset u < start nx) as Hr by (unfold unit_zone in Hu; pose proof (Z.div_mod (u_offset u) (zone_size (zbd_info s))); pose proof (Z.mod_pos_bound (u_offset u) (zone_size (zbd_info s))); nia).
  unfold adjust_conventional. rewrite Hz. cbn [mbind option_bind]. rewrite Hn. cbn [mbind option_bind].
  assert (u_ddir u = DDIR_WRITE) as Ed by (unfold is_write in Hwr; by destruct (u_ddir u)). rewrite Ed. set (b := min_bs o DDIR_WRITE) in *. rewrite (addw_small (u_offset u) b), (addw_small (u_offset u) (u_buflen u)) by lia.
  assert (forall u', u_held u' = false -> u_error u' = u_error u -> 0 <= u_buflen u' <= u_buflen u -> (has_wp nx = true -> start z <= u_offset u' /\ u_offset u' + u_buflen u' <= start nx) -> conv_accepted u (io_u_accept, u', s)) as Hc.
  { intros u' Hh' He' Hl' Hin. do 6 (split; [done|]). by exists i, z, nx. }
  destruct (negb (has_wp nx) || (u_offset u + u_buflen u <=? start nx)) eqn:En.
  { apply ok_ret, Hc; [done|done|lia|]. intros Hnw. rewrite Hnw in En. cbn [negb orb] in En. apply Z.leb_le in En. lia. }
  rewrite (addw_small (start z)) by lia. rewrite (subw_small _ (u_offset u)) by lia. set (off := start z + start nx - u_offset u).
  assert (forall m x, 0 <= m <= u_buflen u -> start z <= x -> x + m <= start nx ->
    ok (let* u := (let* _ := c_assert (negb (b =? 0)) in Some (place u x (mulw 64 (m / b) b))) in Some (io_u_accept, u, s)) (conv_accepted u)) as Hp.
  { intros m x Hm Hx1 Hx2. destruct (Z.eqb_spec b 0); [lia|]. cbn [negb c_assert mbind option_bind]. assert (0 <= m / b) as Hq by (apply Z.div_pos; lia). assert (m / b * b <= m) as Hqb by (rewrite Z.mul_comm; apply Z.mul_div_le; lia).
    assert (mulw 64 (m / b) b = m / b * b) as -> by (apply wrap_small; unfold is_word; nia). apply ok_ret, Hc; [done|done|cbn; nia|]. intros _. cbn. lia. }
  destruct (Z.ltb_spec (start nx) (u_offset u + b)); rewrite subw_small by lia; apply Hp; lia.
Qed.

Lemma adjust_block_write s u v nv : live None false s -> valid_unit u -> u_held u = false -> is_write u = true -> 0 < u_buflen u < 2 ^ 63 -> zlength (flying s ++ p) + 1 < 2 ^ 31 ->
  ok (zbd_adjust_block o f reset_wp finish_wp completion s u v nv) (fun r => write_adjusted u nv r \/ conv_accepted u r).
Proof.
  intros H Hu Hh Hw Hl Hfew. destruct (unit_in_file s u (i_geometry _ _ _ _ H) Hu) as (Hi & Ei & Ho). assert (u_ddir u = DDIR_WRITE) as Ed by (unfold is_write in Hw; by destruct (u_ddir u)). unfold zbd_adjust_block. rewrite Ed.
  apply ok_assert; [unfold c_true; destruct (Z.eqb_spec (min_bs o DDIR_WRITE) 0); [lia|done]|]. apply ok_assert; [apply Hu|]. apply ok_assert; [unfold c_true; destruct (Z.eqb_spec (u_buflen u) 0); [lia|done]|].
  rewrite Ei. cbn [mbind option_bind]. set (i := unit_zone _ u) in *. destruct (zone_in_file s i (i_geometry _ _ _ _ H) Hi) as (z & _ & Hz & _). rewrite Hz. cbn [mbind option_bind].
  destruct (has_wp z) eqn:Ew; cbn [negb]; [|eapply ok_impl; [apply (adjust_conventional_spec s u i z); try done; lia|intros r Hr; by right]]. rewrite andb_false_r.
  eapply ok_bind; [apply retry_lock_spec; [done|done|by rewrite (seq_zone_spec _ _ _ Hz), Ew]|]. intros s1 [H1 K1]. eapply ok_impl; [apply adjust_write_spec; try done; by rewrite (k_flying _ _ (proj1 K1))|]. intros r Hr. by left.
Qed.

Lemma adjust_block_read s u v nv : live None false s -> valid_unit u -> u_held u = false -> u_ddir u = DDIR_READ -> v && td_write o = false -> min_bs o DDIR_READ <= u_buflen u < 2 ^ 63 -> zlength (flying s ++ p) + 1 < 2 ^ 31 ->
  ok (zbd_adjust_block o f reset_wp finish_wp completion s u v nv) (fun r => read_adjusted u r \/ r = (io_u_accept, u, s) /\ (read_beyond_wp o = true \/ exists z, zone s (unit_zone (zone_size (zbd_info s)) u) = Some z /\ has_wp z = false)).
Proof.
  intros H Hu Hh Ed Hv Hl Hfew. destruct (unit_in_file s u (i_geometry _ _ _ _ H) Hu) as (Hi & Ei & Ho). unfold zbd_adjust_block. rewrite Ed.
  apply ok_assert; [unfold c_true; destruct (Z.eqb_spec (min_bs o DDIR_READ) 0); [lia|done]|]. apply ok_assert; [apply Hu|]. apply ok_assert; [unfold c_true; destruct (Z.eqb_spec (u_buflen u) 0); [lia|done]|].
  rewrite Ei. cbn [mbind option_bind]. set (i := unit_zone _ u) in *. destruct (zone_in_file s i (i_geometry _ _ _ _ H) Hi) as (z & _ & Hz & _). rewrite Hz. cbn [mbind option_bind].
  destruct (has_wp z) eqn:Ew; cbn [negb]; [|apply ok_ret; right; split; [done|]; right; by exists z]. destruct (negb (cond z =? ZBD_ZONE_COND_OFFLINE) && read_beyond_wp o) eqn:Eb; [apply ok_ret; right; split; [done|]; left; by apply andb_true_iff in Eb as [_ Eb]|].
  eapply ok_bind; [apply retry_lock_spec; [done|done|by rewrite (seq_zone_spec _ _ _ Hz), Ew]|]. intros s1 [H1 K1]. destruct (config_size _ _ (k_config _ _ (proj1 K1))) as (C1 & _).
  eapply ok_impl; [apply adjust_read_spec; try done; [by rewrite C1|unfold is_write; by rewrite Ed|by rewrite (k_flying _ _ (proj1 K1))]|]. intros r Hr. by left.
Qed.

(** *** [zbd_queue_io] *)

Context (report : Z -> Z -> Z + list zbd_zone) (move_wp : Z -> Z -> Z).

Lemma queue_end us s u i : inv (u :: us) None false s -> u_held u = true -> i = unit_zone (zone_size (zbd_info s)) u ->
  ok (let* s := zone_done s u i in let* s := zone_unlock s i in Some (hold u false, s)) (fun '(u', s') => keeps s s' /\ inv us None false s').
Proof.
  intros H Hu ->. eapply ok_bind; [by apply (zone_done_spec us None false)|]. intros s1 [H1 [K1 _]]. destruct (config_size _ _ (k_config _ _ K1)) as (<- & _).
  eapply ok_bind; [exact (unlock_unit_spec us None false s1 (as_read u) H1 Hu eq_refl)|]. intros s2 [H2 [K2 _]]. apply ok_ret. split; [by eapply keeps_trans|done].
Qed.

(** What the engine does with a unit. *)
Definition take_unit s u : state := if u_held u && is_write u then command_to s (Write (u_offset u) (u_buflen u)) else s.

Lemma take_unit_info s u : zbd_info (take_unit s u) = zbd_info s /\ flying (take_unit s u) = flying s.
Proof. unfold take_unit, command_to. destruct (_ && _); [by destruct (zoned s)|done]. Qed.

(** A unit that is accepted: at the write pointer if it writes. *)
Definition placed s u : Prop := is_write u = true -> exists z, zone s (unit_zone (zone_size (zbd_info s)) u) = Some z /\ u_offset u = wp z /\ start z <= wp z /\ 0 < u_buflen u /\
  wp z + u_buflen u <= start z + cap (unit_zone (zone_size (zbd_info s)) u) /\ (min_bs o DDIR_WRITE | u_buflen u).

Lemma queue_spec us s u q : inv (u :: us) None false s -> u_held u = true -> u_error u = false -> placed s u -> q <> FIO_Q_BUSY ->
  ok (zbd_queue_io o report move_wp (take_unit s u) u q) (fun '(u', s') => flying s' = flying s /\ match q with
    | FIO_Q_QUEUED => u' = u /\ inv (u :: us) None false s'
    | _ => inv us None false s'
    end).
Proof.
  intros H Hu He Hp Hq. destruct (unit_idx _ _ _ u (i_geometry _ _ _ _ H) (i_held _ _ _ _ H)) as (Ei & z & Hz & Hw); [by left|done|]. pose proof (l_units _ _ _ (i_held _ _ _ _ H) u) as Hin. destruct Hin as (Hi & _); [by left|done|].
  set (i := unit_zone (zone_size (zbd_info s)) u) in *. unfold zbd_queue_io. destruct (take_unit_info s u) as [Ezi Efl]. rewrite Ezi, Ei. cbn [mbind option_bind]. assert (zone (take_unit s u) i = Some z) as Hz1 by (unfold zone; by rewrite Ezi).
  rewrite Hz1. cbn [mbind option_bind]. apply ok_assert; [done|]. rewrite He. cbn [negb andb mbind option_bind].
  assert (ok (match u_ddir u with
      | DDIR_WRITE =>
          let zone_end := Z.min (addw 64 (u_offset u) (u_buflen u)) (zbd_zone_capacity_end z) in
          let* s := if accounting_vdb o && (wp z <=? zone_end) then let* s := lock_info (take_unit s u) in unlock_info (set_vdb s (addw 64 (wp_valid_data_bytes (zbd_info s)) (subw 64 zone_end (wp z)))) else Some (take_unit s u) in
          update s i (fun z => with_wp z zone_end)
      | _ => Some (take_unit s u) end) (fun s' => inv (u :: us) None false s' /\ config s' = config s /\ flying s' = flying s /\ exists x, arr_get (shapes s') i = Some x)) as Hwr.
  { assert (take_unit s u = if is_write u then command_to s (Write (u_offset u) (u_buflen u)) else s) as -> by (unfold take_unit; by rewrite Hu). destruct (is_write u) eqn:Ewr.
    - destruct (Hp Ewr) as (z' & Hz' & P1 & P2 & P3 & P4 & P5). fold i in Hz', P4. assert (z' = z) as -> by congruence. unfold is_write in Ewr. destruct (u_ddir u); try done.
      eapply ok_impl; [exact (queue_write_spec (u :: us) None s u i z H Hz Hi Hw P1 P2 P3 P4 P5)|]. intros s' [H' (M1 & M2 & x & Hx & M3)]. split; [done|]. split; [done|]. split; [done|]. rewrite M3, arr_get_insert by (by apply arr_get_range in Hx).
      rewrite decide_True by done. by eexists.
    - unfold is_write in Ewr. destruct (u_ddir u); try done; apply ok_ret; (split; [done|]); (split; [done|]); (split; [done|]); exists (shape_of z); by apply zone_shape. }
  eapply (ok_bind _ _ (fun s' => inv (u :: us) None false s' /\ config s' = config s /\ flying s' = flying s)).
  { eapply ok_bind; [exact Hwr|]. intros s1 (H1 & C1 & F1 & x & Hx). destruct q; [|by apply ok_ret|done]. eapply ok_impl; [by apply (end_zone_spec (u :: us) None s1 u i x)|]. intros s2 [H2 [K1 K2 K3 K4]]. split; [done|]. split; congruence. }
  intros s2 (H2 & C2 & F2). destruct (config_size _ _ C2) as (Es & _). destruct q; [|by apply ok_ret|done]. cbn [negb orb].
  eapply ok_impl; [apply (queue_end us s2 u i H2 Hu); by rewrite Es|]. intros [u' s3] [[K1 K2 K3 K4] H3]. split; [congruence|done].
Qed.

(** *** Resets of all zones *)

Lemma reset_zone_spec us s i x : inv us (Some i) false s -> in_file i -> arr_get (shapes s) i = Some x -> h_has_wp x = true ->
  ok (zbd_reset_zone o f reset_wp s i) (fun '(_, s') => inv us (Some i) false s' /\ config s' = config s /\ flying s' = flying s).
Proof.
  intros H Hi Hx Hw. unfold zbd_reset_zone. eapply ok_bind; [by apply (reset_spec us (Some i) s i x)|]. intros [r s1] [H1 M1]. assert (config s1 = config s /\ flying s1 = flying s) as [C1 F1] by (destruct (r <? 0); [by subst|by destruct M1 as (? & ? & _)]).
  destruct (negb (r =? 0)); [by apply ok_ret|]. destruct (l_held _ _ _ (i_held _ _ _ _ H1) i eq_refl) as (_ & y & Hy & _). eapply ok_bind; [by apply (put_locked_spec us (Some i) s1 i y)|].
  intros s2 [H2 [K1 K2 K3 K4]]. apply ok_ret. split; [done|]. split; congruence.
Qed.

Lemma reset_loop_spec us n s i res : inv us None false s -> min_zone f <= i -> i + Z.of_nat n <= max_zone f ->
  ok (reset_loop o f reset_wp n s i res) (fun '(_, s') => inv us None false s' /\ flying s' = flying s).
Proof.
  revert s i res. induction n as [|n IH]; intros s i res H Hi Hn; cbn [reset_loop]; [by apply ok_ret|]. assert (in_file i) as Hif by (unfold in_file; lia).
  destruct (zone_in_file s i (i_geometry _ _ _ _ H) Hif) as (z & _ & Hz & _). rewrite Hz. cbn [mbind option_bind]. destruct (has_wp z) eqn:Ew; cbn [negb]; [|apply IH; [done|lia|lia]].
  eapply ok_bind; [by apply (zone_lock_spec us false s i (shape_of z)); [|done|apply zone_shape|]|]. intros s1 [H1 [[K1 K2 K3 K4] _]].
  eapply (ok_bind _ _ (fun '(_, s') => inv us (Some i) false s' /\ flying s' = flying s)).
  { destruct (negb (wp z =? start z)); [|by apply ok_ret]. destruct (l_held _ _ _ (i_held _ _ _ _ H1) i eq_refl) as (_ & y & Hy & Hyw). eapply ok_bind; [by apply (reset_zone_spec us s1 i y)|].
    intros [r s2] (H2 & C2 & F2). apply ok_ret. split; [done|congruence]. }
  intros [res' s2] [H2 F2]. eapply ok_bind; [by apply (zone_unlock_spec us false s2 i)|]. intros s3 [H3 [[_ _ _ F3] _]]. eapply ok_impl; [apply IH; [done|lia|lia]|]. intros [r s4] [H4 F4]. split; [done|congruence].
Qed.

Lemma file_reset_spec us s b : inv us None false s ->
  ok (zbd_file_reset o f reset_wp s b) (fun s' => inv us None false s' /\ flying s' = flying s /\ (td_write o = true -> 0 < write_cnt (zbd_info s') < 2 ^ 32)).
Proof.
  intros H. unfold zbd_file_reset. destruct (td_write o); cbn [negb]; [|by apply ok_ret]. eapply (ok_bind _ _ (fun s' => inv us None false s' /\ flying s' = flying s)).
  - destruct (verify o && negb b); [|by apply ok_ret]. eapply (ok_bind _ _ (fun '(_, s') => inv us None false s' /\ flying s' = flying s)); [|by intros [r s1] ?; apply ok_ret].
    unfold zbd_reset_zones. destruct (Z.eqb_spec (min_bs o DDIR_WRITE) 0); [lia|]. destruct (g_file _ (i_geometry _ _ _ _ H)). apply reset_loop_spec; [done|lia|lia].
  - intros s1 [H1 F1]. unfold zbd_reset_write_cnt. eapply ok_bind; [by apply lock_info_spec|]. intros s2 [H2 [[_ _ _ F2] _]].
    assert (inv us None true (_zbd_reset_write_cnt o s2)) as H3 by (unfold _zbd_reset_write_cnt; apply set_cnt_inv; [intros _ _; apply cnt_value|done]).
    pose proof (unlock_info_spec us None _ H3) as (s4 & E4 & H4 & [_ _ _ F4] & _). exists s4. split; [done|]. split; [done|]. split; [rewrite F4; cbn; congruence|]. intros _.
    unfold unlock_info in E4. rewrite (i_locked _ _ _ _ H3) in E4. cbn in E4. injection E4 as <-. apply cnt_value.
Qed.
End Inv.
