(* ===== verification/ZbdJob.v ===== *)
(** zbd.c: the run of a job on a zoned device, from unit to unit. *)
From stdpp Require Import sets.
From S2P Require Import Prelude Zbd ZbdInv.
#[local] Set Warnings "-clear-no-such-hyp".

Implicit Types (s : state) (z : fio_zone_info) (u : io_u) (i : Z).

(** * Events *)

(** What becomes of a unit that is given to the engine. *)
Inductive answer : Type := taken (q : fio_q_status) | failed.

(** A unit is placed and given to the engine; a unit in flight completes; the job waits for
    all; the file starts over. *)
Inductive event : Type := Submit (u : io_u) (verifying : bool) (next_verify : option io_u) (a : answer) | Complete (n : nat) | Wait | File_reset (data_left : bool).

Definition with_error u (x : bool) : io_u := mk_io_u (u_ddir u) (u_offset u) (u_buflen u) x (u_held u).

Section Job.

Context (o : options) (f : fio_file) (reset_wp finish_wp : Z -> Z -> Z) (report : Z -> Z -> Z + list zbd_zone) (move_wp : Z -> Z -> Z) (completion : list io_u -> list io_u).

(** [td_io_queue] for a unit that has been placed. *)
Definition queue_unit s u (a : answer) : option state :=
  match a with
  | taken q =>
      let* '(u, s) := zbd_queue_io_u o report move_wp (take_unit s u) u q in
      Some (match q with FIO_Q_QUEUED => set_flying s (u :: flying s) | _ => s end)
  | failed => let* '(_, s) := zbd_queue_io_u o report move_wp s (with_error u true) FIO_Q_COMPLETED in Some s
  end.

Definition job_step s (e : event) : option state :=
  match e with
  | Submit u verifying next_verify a =>
      let* '(r, u, s) := zbd_adjust_block o f reset_wp finish_wp completion s u verifying next_verify in
      match r with io_u_accept => queue_unit s u a | _ => Some s end
  | Complete n => match flying s !! n with Some u => zbd_put_io_u (set_flying s (delete n (flying s))) u | None => Some s end
  | Wait => io_u_quiesce completion s
  | File_reset data_left => zbd_file_reset o f reset_wp s data_left
  end.

(** What the rest of the job asks for: reads and writes in the file, of a length that fits;
    units that verify do not hold a zone.  An engine that is not busy, and that keeps the
    number of units in flight within an [int]. *)
Definition asked u (verifying : bool) : Prop :=
  is_valid_offset f (u_offset u) = true /\ 0 <= u_offset u < 2 ^ 64 /\ u_held u = false /\ u_error u = false /\
  (u_ddir u = DDIR_WRITE /\ 0 < u_buflen u < 2 ^ 63 \/ u_ddir u = DDIR_READ /\ min_bs o DDIR_READ <= u_buflen u < 2 ^ 63 /\ verifying && td_write o = false).

Definition legal s (e : event) : Prop :=
  match e with
  | Submit u verifying next_verify a => asked u verifying /\ (forall v, next_verify = Some v -> u_held v = false /\ u_error v = false) /\ a <> taken FIO_Q_BUSY /\ zlength (flying s) + 1 < 2 ^ 31
  | _ => True
  end.

Inductive reachable s0 : state -> Prop :=
  | reached_first : reachable s0 s0
  | reached_next s e s' : reachable s0 s -> legal s e -> job_step s e = Some s' -> reachable s0 s'.

End Job.

(** * Steps keep the invariant *)

Section Steps.
Context (o : options) (f : fio_file) (cap d0 : Z -> Z) (cfg : zbd_zoned_model * Z * Z * Z * Z) (whole : bool) (completion : list io_u -> list io_u) (completion_all : forall l, completion l ≡ₚ l)
  (reset_wp finish_wp : Z -> Z -> Z) (finish_works : whole = true \/ forall off len, 0 <= finish_wp off len) (report : Z -> Z -> Z + list zbd_zone) (move_wp : Z -> Z -> Z)
  (blocks : (min_bs o DDIR_WRITE & 511)%word = 0) (block_pos : 0 < min_bs o DDIR_WRITE < 2 ^ 63) (zrf_pos : forall n, zrf o = Some n -> 0 < n < 2 ^ 32)
  (read_pos : 0 < min_bs o DDIR_READ < 2 ^ 63) (no_recovery : recover_zbd_write_error o = false).

(** The invariant of the job. *)
Definition job_inv s : Prop := inv o f cap d0 cfg true whole (flying s) None false s.

Lemma job_live s : job_inv s <-> live o f cap d0 cfg true whole [] None false s.
Proof. unfold job_inv, live. by rewrite app_nil_r. Qed.

Lemma inv_flying us h lk s l : inv o f cap d0 cfg true whole us h lk s -> inv o f cap d0 cfg true whole us h lk (set_flying s l).
Proof. intros [G T L D R K C]. split; try done; [by destruct G|by destruct T|by destruct L]. Qed.

Lemma inv_error us h lk s u x : inv o f cap d0 cfg true whole (u :: us) h lk s -> inv o f cap d0 cfg true whole (with_error u x :: us) h lk s.
Proof.
  intros [Hs [L1 L2 L3 L4 L5]]%inv_sound. apply inv_sound. split; [done|]. split; try done.
  - intros j z Hz. rewrite (L1 j z Hz), !units_at_cons. done.
  - intros j z Hz. destruct (L2 j z Hz) as [-> ?]. split; [|done]. by rewrite !writes_at_cons.
  - intros v [->|Hv]%elem_of_cons Hd; [by apply (L3 u); [left|]|apply L3; [by right|done]].
Qed.

Lemma inv_drop us h lk s u : inv o f cap d0 cfg true whole (u :: us) h lk s -> u_held u = false -> inv o f cap d0 cfg true whole us h lk s.
Proof. intros [Hs Hh]%inv_sound Hu. apply inv_sound. split; [done|]. by apply (held_drop f us h s u). Qed.

(** A unit that is ready for the engine. *)
Definition ready s u : Prop := inv o f cap d0 cfg true whole (u :: flying s) None false s /\ u_error u = false /\ (u_held u = true -> placed o cap s u).

Lemma queue_unit_spec s u a : ready s u -> a <> taken FIO_Q_BUSY -> ok (queue_unit o report move_wp s u a) job_inv.
Proof.
  intros (H & He & Hp) Ha. unfold queue_unit, zbd_queue_io_u. destruct a as [q|].
  - assert (q <> FIO_Q_BUSY) as Hq by congruence. destruct (u_held u) eqn:Hu.
    + eapply ok_bind; [apply (queue_spec o f cap d0 cfg true whole report move_wp (flying s) s u q H Hu He (Hp eq_refl) Hq)|]. intros [u' s'] [F' H']. apply ok_ret. unfold job_inv.
      destruct q; [by rewrite F'| |done]. destruct H' as [-> H']. cbn [set_flying flying]. rewrite F'. by apply inv_flying.
    + assert (take_unit s u = s) as -> by (unfold take_unit; by rewrite Hu). cbn [mbind option_bind]. apply ok_ret. destruct q; [by apply (inv_drop _ _ _ _ u)|by apply inv_flying|done].
  - cbn [with_error u_held]. destruct (u_held u) eqn:Hu; [|cbn [mbind option_bind]; apply ok_ret; by apply (inv_drop _ _ _ _ u)].
    apply (inv_error _ _ _ _ _ true) in H. set (v := with_error u true) in *. assert (u_held v = true) as Hv by done.
    destruct (unit_idx f _ _ _ _ s v (i_geometry _ _ _ _ _ _ _ _ _ _ _ H) (i_held _ _ _ _ _ _ _ _ _ _ _ H)) as (Ei & z & Hz & Hw); [by left|done|].
    unfold zbd_queue_io. rewrite Ei. cbn [mbind option_bind]. rewrite Hz. cbn [mbind option_bind]. rewrite Hw. cbn [c_assert mbind option_bind]. rewrite no_recovery. change (u_error v) with true. cbn [negb andb orb mbind option_bind].
    apply (ok_bind _ _ (fun '(_, s') => flying s' = flying s /\ inv o f cap d0 cfg true whole (flying s) None false s')).
    + eapply ok_impl; [exact (queue_end o f cap d0 cfg true whole _ s v _ H Hv eq_refl)|]. by intros [u' s'] [[_ _ _ F'] H'].
    + intros [u' s'] [F' H']. apply ok_ret. unfold job_inv. by rewrite F'.
Qed.

(** A write that is accepted is at the write pointer, where there is room; it is [ready]. *)
Lemma accepted_ready u u' s' : u_error u = false -> write_accepted o f cap d0 cfg true whole [] u u' s' -> 0 < min_bs o DDIR_WRITE -> ready s' u'.
Proof.
  intros He (i & z & Hi & Hz & Hw & _ & Ho & _ & Ee & Hdv & Hl & Hs & Hc & _ & H) Hb. rewrite app_nil_r in H. split; [done|]. split; [congruence|]. intros _ _.
  destruct (zone_in_file f cap cfg s' i (i_geometry _ _ _ _ _ _ _ _ _ _ _ H) Hi) as (z' & _ & Hz' & _ & E1 & _ & _ & _ & _ & _ & C2 & _). assert (z' = z) as -> by congruence.
  assert (unit_zone (zone_size (zbd_info s')) u' = i) as -> by (unfold unit_zone; symmetry; apply (Z.div_unique_pos _ _ i (wp z - start z)); lia). exists z. split_and!; try done; lia.
Qed.

Lemma unheld_ready s u : job_inv s -> u_held u = false -> u_error u = false -> zlength (flying s) + 1 < 2 ^ 31 -> ready s u.
Proof. intros H Hu He Hl. split; [by apply inv_unheld|]. split; [done|]. by rewrite Hu. Qed.

Lemma inv_few s us : inv o f cap d0 cfg true whole us None false s -> zlength us < 2 ^ 31.
Proof. intros H. apply (l_few _ _ _ _ (i_held _ _ _ _ _ _ _ _ _ _ _ H)). Qed.

Lemma submit_spec s u v nv : job_inv s -> asked o f u v -> (forall w, nv = Some w -> u_held w = false /\ u_error w = false) -> zlength (flying s) + 1 < 2 ^ 31 ->
  ok (zbd_adjust_block o f reset_wp finish_wp completion s u v nv) (fun '(r, u', s') => match r with io_u_accept => ready s' u' | io_u_eof => job_inv s' | io_u_completed => False end).
Proof.
  intros H%job_live (Hv & Hb & Hh & He & Hd) Hn Hl. assert (zlength (flying s ++ []) + 1 < 2 ^ 31) as Hl' by (by rewrite app_nil_r). destruct Hd as [[Hd Hlen]|(Hd & Hlen & Hver)].
  - eapply ok_impl; [apply (adjust_block_write o f cap d0 cfg true whole completion completion_all reset_wp finish_wp finish_works [] blocks eq_refl block_pos zrf_pos s u v nv H (conj Hv Hb) Hh); [unfold is_write; by rewrite Hd|done|done]|].
    intros [[[] u'] s'] [Ha|Hc]; cbn in *; try done; try (by apply job_live); try (by destruct Hc).
    + destruct Ha as [Ha|(Hnv & H' & Hl2)]; [apply (accepted_ready u); [done|done|lia]|]. destruct (Hn u' Hnv). rewrite app_nil_r in Hl2. by apply unheld_ready; [apply job_live|..].
    + destruct Hc as (_ & H' & Hl2 & Hu' & He' & _). rewrite app_nil_r in Hl2. apply unheld_ready; [by apply job_live|done|congruence|done].
  - eapply ok_impl; [by apply (adjust_block_read o f cap d0 cfg true whole completion reset_wp finish_wp [] read_pos s u v nv H (conj Hv Hb) Hh Hd Hver Hlen)|].
    intros [[[] u'] s'] [Hr|Hr]; cbn in *; try done; try (by apply job_live); try (by destruct Hr).
    + destruct Hr as (i & z & _ & _ & _ & Ed & Ee & _ & _ & _ & _ & Hi). rewrite app_nil_r in Hi. split; [done|]. split; [congruence|]. intros _ Hw. unfold is_write in Hw. by rewrite Ed, Hd in Hw.
    + destruct Hr as [[= -> ->] _]. apply unheld_ready; [by apply job_live|done|done|done].
Qed.

Lemma complete_spec s n : job_inv s -> ok (job_step o f reset_wp finish_wp report move_wp completion s (Complete n)) job_inv.
Proof.
  intros H. cbn [job_step]. destruct (flying s !! n) as [u|] eqn:En; [|by apply ok_ret]. pose proof (delete_Permutation _ _ _ En) as Hp.
  apply (inv_perm o f cap d0 cfg true whole _ _ _ _ _ Hp), (inv_flying _ _ _ _ (delete n (flying s))) in H. eapply ok_impl; [by apply (put_io_spec o f cap d0 cfg true whole (delete n (flying s)) None)|].
  intros s' [H' [_ _ _ F']]. unfold job_inv. by rewrite F'.
Qed.

(** A job goes on: no assertion fails, no loop lasts, no index is out of range; and the
    invariant is kept. *)
Lemma job_spec s e : job_inv s -> legal o f s e -> ok (job_step o f reset_wp finish_wp report move_wp completion s e) job_inv.
Proof.
  intros H He. destruct e as [u v nv a|n| |b].
  - destruct He as (Ha & Hn & Hb & Hl). cbn [job_step]. eapply ok_bind; [by apply submit_spec|]. intros [[[] u'] s'] Hr; [by apply queue_unit_spec|by apply ok_ret|done].
  - by apply complete_spec.
  - cbn [job_step]. eapply ok_impl; [apply (quiesce_spec o f cap d0 cfg true whole completion completion_all [] None s); by apply job_live|]. intros s' [H' _]. by apply job_live.
  - cbn [job_step]. eapply ok_impl; [by apply (file_reset_spec o f cap d0 cfg true whole reset_wp block_pos zrf_pos (flying s))|]. intros s' (H' & F' & _). unfold job_inv. by rewrite F'.
Qed.

Lemma reachable_inv s0 s : job_inv s0 -> reachable o f reset_wp finish_wp report move_wp completion s0 s -> job_inv s.
Proof. intros H0 Hr. induction Hr as [|s e s' _ IH He E]; [done|]. destruct (job_spec s e IH He) as (s'' & E' & H''). by assert (s'' = s') as <- by congruence. Qed.

End Steps.
