(* ===== verification/ZbdInit.v ===== *)
(** zbd.c: the zones that a job begins with. *)
From stdpp Require Import sets.
From S2P Require Import Prelude Bits Zbd ZbdInv ZbdJob.
#[local] Set Warnings "-clear-no-such-hyp".

Implicit Types (s : state) (u : io_u) (i : Z).

(** * Zones that nobody has used *)

(** A table of zones of equal size, with nothing in flight and no targets. *)
Record fresh (b : zoned_block_device_info) : Prop := mk_fresh {
  f_size : 0 < zone_size b;
  f_log : zone_size_log2 b = 0 \/ 0 < zone_size_log2 b /\ zone_size b = 2 ^ zone_size_log2 b;
  f_nr : 0 < nr_zones b /\ nr_zones b + 1 < 2 ^ 32 /\ (nr_zones b + 1) * zone_size b < 2 ^ 63;
  f_len : zlength (zone_info b) = nr_zones b + 1;
  f_start : forall i z, arr_get (zone_info b) i = Some z -> start z = i * zone_size b;
  f_wp : forall i z, i < nr_zones b -> arr_get (zone_info b) i = Some z -> 0 <= capacity z <= zone_size b /\
    if has_wp z then start z <= wp z <= start z + capacity z \/ wp z = start z + zone_size b else start z <= wp z <= start z + zone_size b;
  f_idle : forall i z, arr_get (zone_info b) i = Some z -> write z = false /\ locks z = O /\ writes_in_flight z = 0 /\ fixing_zone_wp z = false;
  f_open : forall i z, arr_get (zone_info b) i = Some z -> cond z = ZBD_ZONE_COND_IMP_OPEN \/ cond z = ZBD_ZONE_COND_EXP_OPEN \/ cond z = ZBD_ZONE_COND_CLOSED -> has_wp z = true;
  f_last : forall z, arr_get (zone_info b) (nr_zones b) = Some z -> has_wp z = false;
  f_none : num_write_zones b = 0 /\ zlength (write_zones b) = ZBD_MAX_WRITE_ZONES /\ locked b = false }.

Lemma ilog2_spec fuel x log : 0 <= x < 2 ^ Z.of_nat fuel -> ilog2 fuel x log = if x =? 0 then log else log + 1 + Z.log2 x.
Proof.
  revert x log. induction fuel as [|fuel IH]; intros x log Hx; cbn [ilog2].
  - change (2 ^ Z.of_nat 0) with 1 in Hx. replace x with 0 by lia. done.
  - destruct (Z.eqb_spec x 0) as [|Hn]; [done|]. rewrite Nat2Z.inj_succ, Z.pow_succ_r in Hx by lia. pose proof (Z.shiftr_div_pow2 x 1 ltac:(lia)) as Hs. change (2 ^ 1) with 2 in Hs.
    pose proof (Z.div_mod x 2 ltac:(lia)) as Hd. pose proof (Z.mod_pos_bound x 2 ltac:(lia)) as Hm. rewrite IH by lia. destruct (Z.eqb_spec (Z.shiftr x 1) 0) as [E|E].
    + assert (x = 1) as -> by lia. cbn. lia.
    + pose proof (Z.log2_shiftr x 1 ltac:(lia)) as El. pose proof (Z.log2_nonneg (Z.shiftr x 1)). assert (0 < Z.log2 x) by (apply Z.log2_pos; lia). lia.
Qed.

Lemma zone_log2_spec zs : 0 < zs < 2 ^ 63 -> zone_log2 zs = 0 \/ 0 < zone_log2 zs /\ zs = 2 ^ zone_log2 zs.
Proof.
  intros Hz. unfold zone_log2. destruct (is_power_of_2 zs) eqn:E; [|by left]. apply is_power_of_2_spec in E as (k & Hk & ->); [|unfold is_word; lia].
  rewrite ilog2_spec by lia. destruct (Z.eqb_spec (2 ^ k) 0); [lia|]. rewrite Z.log2_pow2 by lia. replace (-1 + 1 + k) with k by lia. destruct (Z.eq_dec k 0); [by left|right; lia].
Qed.

Lemma to_int_small n : 0 <= n < 2 ^ 31 -> to_int n = n.
Proof. intros H. unfold to_int. rewrite wrap_small by (unfold is_word; lia). by destruct (Z.ltb_spec n (2 ^ 31)); [|lia]. Qed.

(** The number of zones of a file, the last of which may be a part of one. *)
Lemma ceil_spec size zs n : 0 < zs -> 0 < size -> size + zs < 2 ^ 64 -> (n - 1) * zs < size <= n * zs -> subw 64 (addw 64 size zs) 1 / zs = n.
Proof.
  intros Hz Hs Hw Hn. rewrite addw_small by lia. rewrite subw_small by lia. symmetry. apply (Z.div_unique_pos _ _ n (size + zs - 1 - n * zs)); lia.
Qed.

Lemma table_get (P : list fio_zone_info) (q : fio_zone_info) i z : arr_get (P ++ [q]) i = Some z -> (0 <= i < zlength P /\ arr_get P i = Some z) \/ i = zlength P /\ z = q.
Proof.
  intros H. pose proof (arr_get_range _ _ _ H) as Hr. rewrite zlength_app in Hr. change (zlength [q]) with 1 in Hr. unfold arr_get, zlength in *. destruct (Z.ltb_spec i 0); [lia|]. unfold zlength.
  destruct (Z.lt_ge_cases i (Z.of_nat (length P))) as [Hi|Hi]; [left; rewrite lookup_app_l in H by lia; by split|]. assert (i = Z.of_nat (length P)) as -> by lia. right. rewrite Nat2Z.id in H.
  rewrite lookup_app_r, Nat.sub_diag in H by done. cbn in H. split; [done|congruence].
Qed.

(** A table of [n] zones and the sentinel behind them. *)
Lemma fresh_table (m : zbd_zoned_model) max zs n (P : list fio_zone_info) : 0 < zs -> 0 < n -> n + 1 < 2 ^ 32 -> (n + 1) * zs < 2 ^ 63 -> zlength P = n ->
  (forall i z, arr_get P i = Some z -> start z = i * zs /\ (0 <= capacity z <= zs /\ if has_wp z then start z <= wp z <= start z + capacity z \/ wp z = start z + zs else start z <= wp z <= start z + zs) /\
    (write z = false /\ locks z = O /\ writes_in_flight z = 0 /\ fixing_zone_wp z = false) /\
    (cond z = ZBD_ZONE_COND_IMP_OPEN \/ cond z = ZBD_ZONE_COND_EXP_OPEN \/ cond z = ZBD_ZONE_COND_CLOSED -> has_wp z = true)) ->
  fresh (mk_info m max zs 0 (zone_log2 zs) n 0 0 (replicate (Z.to_nat ZBD_MAX_WRITE_ZONES) 0) (P ++ [sentinel (n * zs)]) false).
Proof.
  intros Hz Hn Hn32 Hb HP H. split; cbn [zone_size zone_size_log2 nr_zones zone_info num_write_zones write_zones locked].
  - done.
  - apply zone_log2_spec. nia.
  - done.
  - rewrite zlength_app, HP. done.
  - intros i z [[Hi Hg]|[-> ->]]%table_get; [by apply H|cbn; by rewrite HP].
  - intros i z Hi [[_ Hg]|[-> ->]]%table_get; [by destruct (H i z Hg) as (_ & ? & _)|lia].
  - intros i z [[Hi Hg]|[-> ->]]%table_get; [by apply (H i z)|done].
  - intros i z [[Hi Hg]|[-> ->]]%table_get; [by apply (H i z)|intros [?|[?|?]]; done].
  - intros z [[Hi Hg]|[_ ->]]%table_get; [lia|done].
  - split; [done|]. split; [|done]. unfold zlength. by rewrite length_replicate.
Qed.

(** * A device and its reports *)

Section Device.
Context (zs : Z) (D : list zbd_zone) (report : Z -> Z -> Z + list zbd_zone).

(** Zones one after the other, whose pointers are in their capacity or at their end; only
    sequential zones are open. *)
Definition zone_ok (k : nat) (r : zbd_zone) : Prop :=
  r_start r = Z.of_nat k * zs /\ r_len r = zs /\ 0 <= r_capacity r <= zs /\
  (r_cond r = ZBD_ZONE_COND_NOT_WP \/ r_cond r = ZBD_ZONE_COND_FULL \/ r_start r <= r_wp r <= r_start r + r_capacity r \/ r_wp r = r_start r + zs) /\
  (r_cond r = ZBD_ZONE_COND_IMP_OPEN \/ r_cond r = ZBD_ZONE_COND_EXP_OPEN \/ r_cond r = ZBD_ZONE_COND_CLOSED -> r_type r = ZBD_ZONE_TYPE_SWR).

(** A report begins with the zone at the offset and has at least one zone, if there is one. *)
Record device_reports : Prop := mk_device_reports {
  v_size : 0 < zs;
  v_zones : forall k r, D !! k = Some r -> zone_ok k r;
  v_few : 0 < zlength D /\ zlength D + 1 < 2 ^ 31 /\ (zlength D + 1) * zs < 2 ^ 63;
  v_report : forall k n, 0 <= k < zlength D -> 0 < n -> exists m, (0 < m)%nat /\ Z.of_nat m <= n /\ report (k * zs) n = inr (take m (drop (Z.to_nat k) D)) }.

Definition parsed (r : zbd_zone) : fio_zone_info :=
  mk_zone (r_start r) (if (r_cond r =? ZBD_ZONE_COND_NOT_WP) || (r_cond r =? ZBD_ZONE_COND_FULL) then r_start r + r_capacity r else r_wp r) (r_capacity r) 0 0 (r_cond r)
    (match r_type r with ZBD_ZONE_TYPE_SWR => true | _ => false end) false false false 0.

Context (Hd : device_reports).

Lemma parse_zone_spec k r : D !! k = Some r -> parse_zone zs r = Some (parsed r).
Proof.
  intros Hk. pose proof (lookup_lt_Some _ _ _ Hk) as Hlt. destruct (v_zones Hd _ _ Hk) as (E1 & E2 & C & W & _). destruct (v_few Hd) as (_ & F1 & F2). pose proof (v_size Hd). unfold zlength in *. assert (Z.of_nat k * zs <= Z.of_nat (length D) * zs) by nia.
  unfold parse_zone, parsed. destruct (Z.eqb_spec (r_cond r) ZBD_ZONE_COND_NOT_WP); cbn [orb]; [rewrite addw_small by lia; done|]. destruct (Z.eqb_spec (r_cond r) ZBD_ZONE_COND_FULL); cbn [orb]; [rewrite addw_small by lia; done|].
  rewrite addw_small by lia. destruct (Z.leb_spec (r_start r) (r_wp r)); [|lia]. destruct (Z.leb_spec (r_wp r) (r_start r + zs)); [|lia]. done.
Qed.

Lemma arr_get_last {A} (l : list A) (x : A) : arr_get (l ++ [x]) (zlength (l ++ [x]) - 1) = Some x.
Proof. rewrite zlength_app. change (zlength [x]) with 1. replace (zlength l + 1 - 1) with (Z.of_nat (length l)) by (unfold zlength; lia). rewrite arr_get_nat, lookup_app_r by lia. by rewrite Nat.sub_diag. Qed.

Lemma parse_report_spec m j : (j <= length D)%nat -> parse_report zs (zlength D) (take j (map parsed D)) (take m (drop j D)) = Some (inr (take (j + m) (map parsed D))).
Proof.
  revert j. induction m as [|m IH]; intros j Hj; [cbn; by rewrite Nat.add_0_r|]. destruct (drop j D) as [|r l] eqn:El.
  { cbn. pose proof (f_equal length El) as Hl. rewrite length_drop in Hl. cbn in Hl. rewrite !take_ge by (rewrite length_map; lia). done. }
  assert (D !! j = Some r) as Hr by (rewrite <- (Nat.add_0_r j), <- lookup_drop, El; done). assert (drop (S j) D = l) as El' by (replace (S j) with (j + 1)%nat by lia; rewrite <- drop_drop, El; done). pose proof (lookup_lt_Some _ _ _ Hr) as Hlt.
  assert (zlength (take j (map parsed D)) = Z.of_nat j) as Hzl by (unfold zlength; rewrite length_take, length_map; lia). cbn [take firstn parse_report]. rewrite Hzl. destruct (Z.leb_spec (Z.of_nat j) (zlength D)) as [_|Hc]; [|unfold zlength in Hc; lia]. cbn [c_assert mbind option_bind]. rewrite (parse_zone_spec j r Hr). cbn [mbind option_bind].
  assert (take j (map parsed D) ++ [parsed r] = take (S j) (map parsed D)) as -> by (symmetry; apply take_S_r; by rewrite list_lookup_fmap, Hr).
  assert (match arr_get (take j (map parsed D)) (Z.of_nat j - 1) with Some q => negb (start (parsed r) =? addw 64 (start q) zs) | None => false end = false) as ->.
  { rewrite <- Hzl. destruct j as [|j]; [done|]. destruct (lookup_lt_is_Some_2 D j) as [q Hq]; [lia|]. rewrite (take_S_r _ _ (parsed q)) by (by rewrite list_lookup_fmap, Hq). rewrite arr_get_last.
    destruct (v_zones Hd _ _ Hr) as (E1 & _). destruct (v_zones Hd _ _ Hq) as (E2 & _). destruct (v_few Hd) as (_ & _ & F2). pose proof (v_size Hd). unfold zlength in *. assert (Z.of_nat (S j) * zs <= Z.of_nat (length D) * zs) by nia. cbn [start parsed].
    rewrite E1, E2, addw_small by lia. destruct (Z.eqb_spec (Z.of_nat (S j) * zs) (Z.of_nat j * zs + zs)); [done|lia]. }
  rewrite <- El'. rewrite IH by lia. do 3 f_equal. lia.
Qed.

Lemma report_spec k n : 0 <= k < zlength D -> 0 < n -> exists m, (0 < m)%nat /\ zbd_report_zones report (k * zs) n = inr (take m (drop (Z.to_nat k) D)).
Proof.
  intros Hk Hn. destruct (v_report Hd k n Hk Hn) as (m & Hm & _ & E). exists m. split; [done|]. unfold zbd_report_zones. rewrite E. destruct (take m (drop (Z.to_nat k) D)) eqn:El; [|done].
  apply (f_equal length) in El. rewrite length_take, length_drop in El. unfold zlength in Hk. cbn in El. lia.
Qed.

Lemma parse_loop_spec fuel j m : (j < length D)%nat -> (0 < m)%nat -> (length D <= S (j + fuel))%nat ->
  parse_loop report fuel zs (zlength D) (take j (map parsed D)) (take m (drop j D)) = Some (inr (map parsed D, zlength D * zs)).
Proof.
  revert j m. induction fuel as [|fuel IH]; intros j m Hj Hm Hf; cbn [parse_loop]; rewrite parse_report_spec by lia; cbn [mbind option_bind];
    (assert (exists q, take m (drop j D) = take (Nat.min m (length D - j) - 1) (drop j D) ++ [q] /\ D !! (j + (Nat.min m (length D - j) - 1))%nat = Some q) as (q & Eq & Hq);
      [destruct (lookup_lt_is_Some_2 D (j + (Nat.min m (length D - j) - 1))) as [q Hq]; [lia|]; exists q; split; [|done]; rewrite <- (take_S_r _ _ q) by (by rewrite lookup_drop);
       replace (S (Nat.min m (length D - j) - 1)) with (Nat.min m (length D - j)) by lia; destruct (Nat.le_ge_cases m (length D - j)); [by rewrite Nat.min_l by lia|rewrite Nat.min_r by lia; rewrite !take_ge by (rewrite length_drop; lia); done]|]);
    rewrite Eq, arr_get_last; cbn [mbind option_bind]; destruct (v_zones Hd _ _ Hq) as (E1 & E2 & _); destruct (v_few Hd) as (_ & F1 & F2); pose proof (v_size Hd) as Hzs; unfold zlength in *;
    (assert (addw 64 (r_start q) (r_len q) = Z.of_nat (Nat.min (j + m) (length D)) * zs) as ->;
      [rewrite E1, E2; replace (Z.of_nat (j + (Nat.min m (length D - j) - 1))) with (Z.of_nat (Nat.min (j + m) (length D)) - 1) by lia; set (X := Z.of_nat (Nat.min (j + m) (length D))); assert (1 <= X <= Z.of_nat (length D)) as HX by lia; assert (zs <= X * zs <= Z.of_nat (length D) * zs) by (split; nia); rewrite addw_small; lia|]);
    rewrite length_take, length_map; destruct (Z.leb_spec (Z.of_nat (length D)) (Z.of_nat (Nat.min (j + m) (length D)))) as [Hle|Hgt];
    try (rewrite Nat.min_r by lia; rewrite take_ge by (rewrite length_map; lia); done); [lia|].
  destruct (report_spec (Z.of_nat (j + m)) (Z.min (Z.of_nat (length D) - Z.of_nat (Nat.min (j + m) (length D))) ZBD_REPORT_MAX_ZONES)) as (m' & Hm' & Er); [unfold zlength; lia|unfold ZBD_REPORT_MAX_ZONES; lia|].
  rewrite (Nat.min_l (j + m)) by lia. rewrite Nat.min_l in Er by lia. rewrite Er, Nat2Z.id. apply IH; lia.
Qed.

Lemma parsed_table i z : arr_get (map parsed D) i = Some z ->
  start z = i * zs /\ (0 <= capacity z <= zs /\ if has_wp z then start z <= wp z <= start z + capacity z \/ wp z = start z + zs else start z <= wp z <= start z + zs) /\
  (write z = false /\ locks z = O /\ writes_in_flight z = 0 /\ fixing_zone_wp z = false) /\
  (cond z = ZBD_ZONE_COND_IMP_OPEN \/ cond z = ZBD_ZONE_COND_EXP_OPEN \/ cond z = ZBD_ZONE_COND_CLOSED -> has_wp z = true).
Proof.
  unfold arr_get. destruct (Z.ltb_spec i 0) as [|Hi]; [done|]. rewrite list_lookup_fmap. destruct (D !! Z.to_nat i) as [r|] eqn:Er; [|done]. intros [= <-]. destruct (v_zones Hd _ _ Er) as (E1 & E2 & C & W & O). cbn.
  rewrite Z2Nat.id in E1 by lia. split; [done|]. split; [split; [done|]|split; [done|]].
  - pose proof (v_size Hd). destruct (Z.eqb_spec (r_cond r) ZBD_ZONE_COND_NOT_WP); cbn [orb]; [destruct (r_type r); lia|]. destruct (Z.eqb_spec (r_cond r) ZBD_ZONE_COND_FULL); destruct (r_type r); lia.
  - intros Ho. by rewrite (O Ho).
Qed.

(** The table that is made of the reports. *)
Definition device_info : zoned_block_device_info :=
  mk_info ZBD_NONE 0 zs 0 (zone_log2 zs) (zlength D) 0 0 (replicate (Z.to_nat ZBD_MAX_WRITE_ZONES) 0) (map parsed D ++ [sentinel (zlength D * zs)]) false.

Lemma parse_zone_info_eq td_size size : (zlength D - 1) * zs < size <= zlength D * zs -> 0 < size ->
  parse_zone_info report td_size size = Some (if negb (td_size =? 0) && negb (td_size =? zs) then inl (-22) else inr device_info).
Proof.
  intros Hs Hp. pose proof (v_size Hd) as Hzs. destruct (v_few Hd) as (F0 & F1 & F2). unfold parse_zone_info. destruct (report_spec 0 ZBD_REPORT_MAX_ZONES) as (m & Hm & Er); [lia|done|]. rewrite Z.mul_0_l in Er. change (drop (Z.to_nat 0) D) with D in Er. rewrite Er.
  destruct (lookup_lt_is_Some_2 D 0) as [r Hr]; [unfold zlength in F0; lia|]. assert (arr_get (take m D) 0 = Some r) as -> by (unfold arr_get; cbn; by rewrite lookup_take_lt by lia). cbn [mbind option_bind].
  destruct (v_zones Hd _ _ Hr) as (_ & -> & _). destruct (Z.eqb_spec zs 0); [lia|]. cbn [negb c_assert mbind option_bind]. rewrite (ceil_spec size zs (zlength D)) by (try done; nia). rewrite to_int_small by lia.
  destruct (negb (td_size =? 0) && negb (td_size =? zs)); [done|]. destruct (Z.ltb_spec 0 (zlength D)); [|lia]. rewrite zlength_to_nat.
  change (take m D) with (take m (drop 0 D)). change (@nil fio_zone_info) with (take 0 (map parsed D)). rewrite parse_loop_spec by (unfold zlength in *; lia). cbn [mbind option_bind].
  assert (Z.to_nat (zlength D + 1) - length (map parsed D) = 1)%nat as -> by (rewrite length_map; unfold zlength; lia). cbn [replicate].
  assert (arr_get (map parsed D ++ [sentinel 0]) (zlength D) = Some (sentinel 0)) as -> by (unfold zlength; rewrite arr_get_nat, lookup_app_r by (by rewrite length_map); by rewrite length_map, Nat.sub_diag). cbn [mbind option_bind].
  rewrite arr_set_Some by (rewrite zlength_app; change (zlength [sentinel 0]) with 1; unfold zlength; rewrite length_map; lia). cbn [mbind option_bind]. unfold device_info. do 3 f_equal.
  rewrite zlength_to_nat. rewrite insert_app_r_alt by (by rewrite length_map). by rewrite length_map, Nat.sub_diag.
Qed.

Lemma device_fresh m max : fresh (mk_info m max zs 0 (zone_log2 zs) (zlength D) 0 0 (replicate (Z.to_nat ZBD_MAX_WRITE_ZONES) 0) (map parsed D ++ [sentinel (zlength D * zs)]) false).
Proof. destruct (v_few Hd) as (F0 & F1 & F2). apply fresh_table; [apply (v_size Hd)|done|lia|done|unfold zlength; by rewrite length_map|apply parsed_table]. Qed.

End Device.

(** * The table of a device or of a file *)

Lemma fresh_config (m : zbd_zoned_model) max b : fresh b ->
  fresh (mk_info m max (zone_size b) (wp_valid_data_bytes b) (zone_size_log2 b) (nr_zones b) (num_write_zones b) (write_cnt b) (write_zones b) (zone_info b) (locked b)).
Proof. by intros []; split. Qed.

Lemma inr_eq {A B} (x y : B) : @inr A B x = inr y -> x = y.
Proof. congruence. Qed.

(** What holds of the outside: zones reported as they should be, or a file that is not too big. *)
Definition outside (report : Z -> Z -> Z + list zbd_zone) (m : zbd_zoned_model) (zs cap size : Z) : Prop :=
  match m with
  | ZBD_NONE => 0 <= cap /\ 0 <= zs /\ size < 2 ^ 61 /\ size <= (2 ^ 31 - 2) * zs
  | _ => exists zs' D, device_reports zs' D report /\ (zlength D - 1) * zs' < size <= zlength D * zs' /\ 0 < size
  end.

Lemma init_table_fresh zs cap size b : init_zone_info zs cap size = inr b -> outside (fun _ _ => inl 0) ZBD_NONE zs cap size -> fresh b /\ size <= nr_zones b * zone_size b.
Proof.
  unfold init_zone_info. intros E (Hc & Hz & Hs & Hn). destruct (Z.eqb_spec zs 0) as [|Hz0]; [done|]. destruct (zs <? 512); [done|]. destruct (Z.ltb_spec zs (if cap =? 0 then zs else cap)) as [|Hcap]; [done|]. destruct (Z.ltb_spec size zs); [done|].
  set (n := (size + zs - 1) / zs). assert ((n - 1) * zs < size <= n * zs) as Hnn by (pose proof (Z.div_mod (size + zs - 1) zs ltac:(lia)) as Hdm; fold n in Hdm; pose proof (Z.mod_pos_bound (size + zs - 1) zs ltac:(lia)); lia).
  rewrite (ceil_spec size zs n) in E by lia. assert (n - 1 < 2 ^ 31 - 2) as Hn1 by (apply (Z.mul_lt_mono_pos_r zs); lia). assert (0 < n) as Hn0 by (apply (Z.mul_lt_mono_pos_r zs); lia). assert (0 < n < 2 ^ 31) as Hn' by lia. assert (0 <= n * zs < 2 ^ 62) as Hb by lia. rewrite wrap_small in E by (unfold is_word; lia). apply inr_eq in E as <-. cbn [nr_zones zone_size]. split; [|lia].
  assert (mulw 64 n zs = n * zs) as -> by (apply wrap_small; unfold is_word; lia). apply fresh_table; [lia|lia|lia|lia|unfold zlength; rewrite length_map, length_seq; lia|].
  intros i z. unfold arr_get. destruct (Z.ltb_spec i 0) as [|Hi]; [done|]. rewrite list_lookup_fmap. destruct (seq 0 (Z.to_nat n) !! Z.to_nat i) as [k|] eqn:Ek; [|done]. apply lookup_seq in Ek as [-> Hk]. intros [= <-]. cbn. rewrite Z2Nat.id by lia.
  assert (0 <= i * zs <= n * zs) as Hib by (split; [apply Z.mul_nonneg_nonneg; lia|apply Z.mul_le_mono_nonneg_r; lia]). unfold mulw. rewrite wrap_small by (unfold is_word; lia). split; [done|]. split; [|split; [done|by intros [?|[?|?]]]]. destruct (Z.eqb_spec cap 0); lia.
Qed.

Lemma set_max_fresh b ign max dmax b' : fresh b -> zbd_set_max_write_zones b ign max dmax = inr b' -> 0 <= max -> (forall n, dmax = inr n -> 0 <= n) ->
  fresh b' /\ model b' = model b /\ 0 <= max_write_zones b' <= ZBD_MAX_WRITE_ZONES /\ nr_zones b' = nr_zones b /\ zone_size b' = zone_size b.
Proof.
  intros Hf E Hm Hd. assert (forall n, 0 <= n -> (if ZBD_MAX_WRITE_ZONES <? n then inl (-22) else inr (mk_info (model b) n (zone_size b) (wp_valid_data_bytes b) (zone_size_log2 b) (nr_zones b) (num_write_zones b) (write_cnt b) (write_zones b) (zone_info b) (locked b))) = inr b' ->
    fresh b' /\ model b' = model b /\ 0 <= max_write_zones b' <= ZBD_MAX_WRITE_ZONES /\ nr_zones b' = nr_zones b /\ zone_size b' = zone_size b) as Hl.
  { intros n Hn. destruct (Z.ltb_spec ZBD_MAX_WRITE_ZONES n); [done|]. intros [= <-]. split; [by apply fresh_config|]. split; [done|]. split; [done|]. by split. }
  unfold zbd_set_max_write_zones in E. destruct (match model b with ZBD_HOST_MANAGED => ign | _ => true end); [by apply (Hl max)|]. destruct dmax as [e|n]; [done|]. specialize (Hd n eq_refl). destruct (n =? 0); [by apply (Hl max)|].
  destruct (max =? 0); [by apply (Hl n)|]. destruct (max <=? n); [by apply (Hl max)|done].
Qed.

Lemma create_fresh report m zs cap size ign max dmax b : zbd_create_zone_info report (inr m) zs cap size ign max dmax = Some (inr b) -> outside report m zs cap size -> 0 <= max -> (forall n, dmax = inr n -> 0 <= n) ->
  fresh b /\ model b = m /\ 0 <= max_write_zones b <= ZBD_MAX_WRITE_ZONES /\ size <= nr_zones b * zone_size b.
Proof.
  intros E Ho Hm Hd. unfold zbd_create_zone_info in E. destruct (match m with ZBD_NONE => Some (init_zone_info zs cap size) | _ => parse_zone_info report zs size end) as [[e|b0]|] eqn:E0; cbn [mbind option_bind] in E; try done.
  assert (fresh b0 /\ size <= nr_zones b0 * zone_size b0) as [Hf Hs].
  { destruct m; [apply (init_table_fresh zs cap size b0); [congruence|done]|..];
      destruct Ho as (zs' & D & Hr & Hsz & Hp); rewrite (parse_zone_info_eq zs' D report Hr zs size Hsz Hp) in E0; destruct (negb (zs =? 0) && negb (zs =? zs')); try done; injection E0 as <-;
      (split; [by apply device_fresh with report|cbn; lia]). }
  injection E as E. destruct (set_max_fresh (set_model m b0) ign max dmax b (fresh_config m _ b0 Hf) E Hm Hd) as (H1 & H2 & H3 & H4 & H5). rewrite H4, H5. done.
Qed.

(** * The file of the job *)

Definition capacities (b : zoned_block_device_info) : Z -> Z := fun i => match arr_get (zone_info b) i with Some z => capacity z | None => 0 end.
Definition pointers (b : zoned_block_device_info) : Z -> Z := fun i => match arr_get (zone_info b) i with Some z => wp z | None => 0 end.

Section Files.
Context (b : zoned_block_device_info) (Hf : fresh b).

Lemma table_zone i : 0 <= i <= nr_zones b -> exists z, arr_get (zone_info b) i = Some z /\ start z = i * zone_size b.
Proof. intros Hi. destruct (arr_get_Some (zone_info b) i) as [z Hz]; [rewrite (f_len b Hf); lia|]. exists z. split; [done|]. by apply (f_start b Hf). Qed.

Lemma table_idx off : 0 <= off <= nr_zones b * zone_size b -> zbd_offset_to_zone_idx b off = Some (off / zone_size b) /\ 0 <= off / zone_size b <= nr_zones b.
Proof.
  intros Ho. pose proof (f_size b Hf) as Hs. assert (0 <= off / zone_size b <= nr_zones b) as Hi by (split; [apply Z.div_pos; lia|]; apply Z.lt_succ_r, Z.div_lt_upper_bound; lia).
  split; [|done]. apply offset_idx; [done|apply (f_log b Hf)|pose proof (f_nr b Hf); lia|done].
Qed.

Lemma any_seq_total n i : 0 <= i -> i + Z.of_nat n <= nr_zones b + 1 -> ok (any_seq n b i) (fun _ => True).
Proof.
  revert i. induction n as [|n IH]; intros i Hi Hn; cbn [any_seq]; [by apply ok_ret|]. destruct (table_zone i) as (z & -> & _); [lia|]. cbn [mbind option_bind]. destruct (has_wp z); [by apply ok_ret|]. apply IH; lia.
Qed.

(** The part of the file that the job uses. *)
Definition within (f : fio_file) : Prop := 0 <= file_offset f /\ 0 < io_size f /\ file_offset f + io_size f <= nr_zones b * zone_size b.

Lemma within_end f : within f -> file_end f = file_offset f + io_size f.
Proof. intros (H1 & H2 & H3). destruct (f_nr b Hf) as (_ & _ & Hn). pose proof (f_size b Hf). apply addw_small; lia. Qed.

Lemma seq_job_total f : within f -> ok (zbd_is_seq_job b f) (fun _ => True).
Proof.
  intros Hw. pose proof (within_end f Hw) as He. unfold file_end in He. destruct Hw as (H1 & H2 & H3). destruct (f_nr b Hf) as (_ & _ & Hn). pose proof (f_size b Hf). unfold zbd_is_seq_job. destruct (io_size f =? 0); [by apply ok_ret|].
  destruct (table_idx (file_offset f)) as [-> I1]; [lia|]. rewrite He, subw_small by lia. destruct (table_idx (file_offset f + io_size f - 1)) as [-> I2]; [lia|]. cbn [mbind option_bind]. apply any_seq_total; lia.
Qed.

Lemma align_offset_spec f : within f -> ok (align_offset b f) (fun r => forall f', r = Some f' -> within f' /\ file_offset f' mod zone_size b = 0).
Proof.
  intros Hw. pose proof (within_end f Hw) as He. destruct Hw as (H1 & H2 & H3). destruct (f_nr b Hf) as (_ & _ & Hn). pose proof (f_size b Hf) as Hs. unfold align_offset. destruct (table_idx (file_offset f)) as [-> I1]; [lia|]. cbn [mbind option_bind].
  set (i := file_offset f / zone_size b) in *. destruct (table_zone i) as (z & -> & Ez); [lia|]. cbn [mbind option_bind]. pose proof (Z.div_mod (file_offset f) (zone_size b) ltac:(lia)) as Hdm. fold i in Hdm. pose proof (Z.mod_pos_bound (file_offset f) (zone_size b) Hs) as Hm.
  destruct (Z.eqb_spec (file_offset f) (start z)) as [E|E]; [apply ok_ret; intros f' [= <-]; split; [done|lia]|]. assert (i < nr_zones b) as Hi by (apply (Z.mul_lt_mono_pos_r (zone_size b)); lia).
  destruct (table_zone (i + 1)) as (nx & -> & En); [lia|]. cbn [mbind option_bind]. destruct (Z.leb_spec (file_end f) (start nx)) as [|Hlt]; [by apply ok_ret|]. apply ok_ret. intros f' [= <-]. rewrite He in Hlt. rewrite En in *.
  unfold within. cbn [resize file_offset io_size]. rewrite (subw_small _ (file_offset f)) by lia. rewrite subw_small by lia. split; [lia|]. apply Z.mod_mul. lia.
Qed.

(** A file of whole zones. *)
Definition aligned (f : fio_file) : Prop := exists i j, 0 <= i < j /\ j <= nr_zones b /\ file_offset f = i * zone_size b /\ io_size f = (j - i) * zone_size b.

Lemma align_size_spec f : within f -> file_offset f mod zone_size b = 0 -> ok (align_size b f) (fun r => forall f', r = Some f' -> aligned f').
Proof.
  intros Hw Ha. pose proof (within_end f Hw) as He. destruct Hw as (H1 & H2 & H3). destruct (f_nr b Hf) as (_ & _ & Hn). pose proof (f_size b Hf) as Hs. unfold align_size, zbd_offset_to_zone. rewrite He. destruct (table_idx (file_offset f + io_size f)) as [-> I1]; [lia|].
  cbn [mbind option_bind]. set (j := (file_offset f + io_size f) / zone_size b) in *. destruct (table_zone j) as (z & -> & Ez); [lia|]. cbn [mbind option_bind]. rewrite Ez.
  pose proof (Z.div_mod (file_offset f) (zone_size b) ltac:(lia)) as Hdm. rewrite Ha in Hdm. set (i := file_offset f / zone_size b) in *.
  assert (0 <= i) as Hi by (apply Z.div_pos; lia).
  destruct (Z.eqb_spec (file_offset f + io_size f) (j * zone_size b)) as [E|E]; [|destruct (Z.leb_spec (j * zone_size b) (file_offset f)) as [|Hlt]; [by apply ok_ret|]]; apply ok_ret; intros f' [= <-]; exists i, j.
  - assert (i < j) by (apply (Z.mul_lt_mono_pos_r (zone_size b)); lia). split_and!; lia.
  - assert (i < j) by (apply (Z.mul_lt_mono_pos_r (zone_size b)); lia). cbn [resize file_offset io_size]. rewrite subw_small by nia. split_and!; lia.
Qed.

Lemma align_spec f tz skip : within f -> file_offset f < real_file_size f -> zbd_is_seq_job b f = Some true -> ok (zbd_zone_align_file_sizes b tz skip false f) (fun r => forall f', r = Some f' -> aligned f').
Proof.
  intros Hw Hr Hq. unfold zbd_zone_align_file_sizes. destruct (Z.leb_spec (real_file_size f) (file_offset f)); [lia|]. rewrite Hq. cbn [mbind option_bind negb]. set (td := if tz =? 0 then zone_size b else tz).
  destruct (td =? 0); [by apply ok_ret|]. destruct (negb (td =? zone_size b)); [by apply ok_ret|]. destruct (negb (skip mod td =? 0)); [by apply ok_ret|]. eapply ok_bind; [by apply align_offset_spec|].
  intros [f1|] H1; [|by apply ok_ret]. destruct (H1 f1 eq_refl) as [H2 H3]. by apply align_size_spec.
Qed.

Lemma valid_data_total n i v : 0 <= i -> i + Z.of_nat n <= nr_zones b -> ok (valid_data n b i v) (fun _ => True).
Proof.
  revert i v. induction n as [|n IH]; intros i v Hi Hn; cbn [valid_data]; [by apply ok_ret|]. destruct (table_zone i) as (z & -> & _); [lia|]. cbn [mbind option_bind]. apply IH; lia.
Qed.
End Files.

(** * The state in which a job begins *)

Lemma fresh_shape s i x : fresh (zbd_info s) -> arr_get (shapes s) i = Some x -> exists z, arr_get (zone_info (zbd_info s)) i = Some z /\ x = shape_of z.
Proof. intros _ Hx. destruct (zone_back s i x Hx) as (z & Hz & <-). by exists z. Qed.

(** Sequential zones whose capacities, and what is left of them, are of whole blocks. *)
Definition whole_zones (bs : Z) (b : zoned_block_device_info) : Prop := forall i z, i < nr_zones b -> arr_get (zone_info b) i = Some z -> has_wp z = true ->
  (bs | capacity z) /\ ((bs | start z + capacity z - wp z) \/ start z + capacity z <= wp z).

Lemma fresh_inv o whole s offset size rs i j : fresh (zbd_info s) -> (whole = true -> whole_zones (min_bs o DDIR_WRITE) (zbd_info s)) -> td_num_write_zones s = 0 -> flying s = [] -> commands s = [] -> 0 <= max_write_zones (zbd_info s) <= ZBD_MAX_WRITE_ZONES ->
  0 <= i < j -> j <= nr_zones (zbd_info s) -> offset = i * zone_size (zbd_info s) -> size = (j - i) * zone_size (zbd_info s) ->
  inv o (mk_file offset size rs i j) (capacities (zbd_info s)) (pointers (zbd_info s)) (config s) false whole [] None false s.
Proof.
  intros Hf Hwh Htd Hfl Hcm Hm Hij Hj -> ->. destruct (f_none _ Hf) as (N1 & N2 & N3). destruct (f_nr _ Hf) as (R1 & R2 & R3). split.
  - split; cbn [min_zone max_zone file_offset io_size]; try done; try apply Hf.
    + unfold zlength, shapes. rewrite length_map. apply (f_len _ Hf).
    + intros k x Hx. destruct (fresh_shape s k x Hf Hx) as (z & Hz & ->). apply (f_start _ Hf k z Hz).
    + intros k x Hk Hx. unfold in_file in Hk. cbn in Hk. destruct (fresh_shape s k x Hf Hx) as (z & Hz & ->). destruct (f_wp _ Hf k z ltac:(lia) Hz) as [W1 W2]. unfold capacities. rewrite Hz. cbn. split; [done|]. split; [done|]. intros Hw. by rewrite Hw in W2.
    + intros k x Hk Hx. unfold in_file in Hk. cbn in Hk. destruct (fresh_shape s k x Hf Hx) as (z & Hz & ->). destruct (f_wp _ Hf k z ltac:(lia) Hz) as [W1 W2]. cbn. intros Hw. by rewrite Hw in W2.
  - assert (targets s = []) as Ht by (unfold targets; by rewrite N1). split; rewrite ?Ht, ?N1; try done; try lia.
    + apply NoDup_nil_2.
    + intros k z Hz. destruct (f_idle _ Hf k z Hz) as (-> & _). split; [done|by intros ?%elem_of_nil].
    + by intros k ?%elem_of_nil.
  - split; try done.
    + intros k z Hz. by destruct (f_idle _ Hf k z Hz) as (_ & -> & _).
    + intros k z Hz. by destruct (f_idle _ Hf k z Hz) as (_ & _ & -> & ->).
    + by intros u ?%elem_of_nil.
  - intros _. rewrite Hcm. exists (pointers (zbd_info s)). split; [done|]. intros k x _ Hx _. destruct (fresh_shape s k x Hf Hx) as (z & Hz & ->). unfold pointers. by rewrite Hz.
  - intros E k x Hk Hx Hw. unfold in_file in Hk. cbn in Hk. destruct (fresh_shape s k x Hf Hx) as (z & Hz & ->). unfold capacities. rewrite Hz. apply (Hwh E k z); [lia|done|done].
  - done.
  - done.
Qed.

(** Zones that are open have a write pointer. *)
Definition open_seq s : Prop := forall i x, arr_get (shapes s) i = Some x -> h_cond x = ZBD_ZONE_COND_IMP_OPEN \/ h_cond x = ZBD_ZONE_COND_EXP_OPEN \/ h_cond x = ZBD_ZONE_COND_CLOSED -> h_has_wp x = true.

Lemma open_zones_spec o f cap d0 cfg whole ma n s i : inv o f cap d0 cfg false whole [] None false s -> open_seq s -> min_zone f <= i -> i + Z.of_nat n <= max_zone f ->
  ok (open_zones o ma n s i) (fun '(_, s') => inv o f cap d0 cfg false whole [] None false s' /\ keeps s s').
Proof.
  revert s i. induction n as [|n IH]; intros s i H Ho Hi Hn; cbn [open_zones]; [by apply ok_ret|]. assert (in_file f i) as Hif by (unfold in_file; lia).
  destruct (zone_in_file f cap cfg s i (i_geometry _ _ _ _ _ _ _ _ _ _ _ H) Hif) as (z & _ & Hz & _). rewrite Hz. cbn [mbind option_bind].
  destruct ((cond z =? ZBD_ZONE_COND_IMP_OPEN) || (cond z =? ZBD_ZONE_COND_EXP_OPEN) || (cond z =? ZBD_ZONE_COND_CLOSED)) eqn:Ec; cbn [negb]; [|apply IH; [done|done|lia|lia]].
  destruct ((ma =? 0) && (cond z =? ZBD_ZONE_COND_CLOSED)); [apply IH; [done|done|lia|lia]|]. pose proof (zone_shape _ _ _ Hz) as Hx.
  assert (h_has_wp (shape_of z) = true) as Hw. { apply (Ho i); [done|]. cbn. apply orb_true_iff in Ec as [[Ec|Ec]%orb_true_iff|Ec]; apply Z.eqb_eq in Ec; auto. }
  eapply ok_bind; [by apply (get_spec o f cap d0 cfg false whole [] None i (shape_of z) s)|]. intros [b s1] (H1 & K1 & _). destruct b; [|by apply ok_ret].
  eapply ok_impl; [apply IH; [done| |lia|lia]; intros k y; rewrite (k_shapes _ _ K1); apply Ho|]. intros [r s2] [H2 K2]. split; [done|]. by eapply keeps_trans.
Qed.

Lemma set_vdb_fresh s n : fresh (zbd_info s) -> fresh (zbd_info (set_vdb s n)).
Proof. by intros []; split. Qed.

Lemma vdb_spec o f s : fresh (zbd_info s) -> within (zbd_info s) f -> 0 <= min_zone f <= max_zone f -> max_zone f <= nr_zones (zbd_info s) -> ok (zbd_verify_and_set_vdb o f s) (fun s' => exists n, s' = set_vdb s n).
Proof.
  intros Hf Hw Hi Hj. assert (s = set_vdb s (wp_valid_data_bytes (zbd_info s))) as Es by (by destruct s as [[] ? ? ? ?]). unfold zbd_verify_and_set_vdb. destruct (negb (accounting_vdb o)); [apply ok_ret; by eexists|].
  eapply ok_bind; [by apply seq_job_total|]. intros [|] _; cbn [negb]; [|apply ok_ret; by eexists]. eapply ok_bind; [apply valid_data_total; [done|lia|lia]|]. intros v _. apply ok_ret. by eexists.
Qed.

(** What [zbd_setup_files] leaves: the job's invariant, but for the counter of writes, which
    [zbd_file_reset] sets. *)
Definition set_up_ok o whole (b : zoned_block_device_info) (f : fio_file) s : Prop :=
  inv o f (capacities b) (pointers b) (config_of b) false whole [] None false s /\ flying s = [] /\ commands s = [] /\ zone_size (zbd_info s) = zone_size b /\ model (zbd_info s) = model b.

Lemma setup_spec o whole c ma s f : fresh (zbd_info s) -> (whole = true -> whole_zones (min_bs o DDIR_WRITE) (zbd_info s)) -> td_num_write_zones s = 0 -> flying s = [] -> commands s = [] -> 0 <= max_write_zones (zbd_info s) <= ZBD_MAX_WRITE_ZONES ->
  within (zbd_info s) f -> file_offset f < real_file_size f -> zbd_is_seq_job (zbd_info s) f = Some true -> td_write o = true -> only_reads c = false ->
  ok (zbd_setup_files o c ma s f) (fun r => forall f' s', r = Some (f', s') -> set_up_ok o whole (zbd_info s) f' s').
Proof.
  intros Hf Hwh Htd Hfl Hcm Hm Hw Hr Hq Ho Hc. unfold zbd_setup_files. destruct (negb (direct_io c)); [by apply ok_ret|]. rewrite Hc. eapply ok_bind; [by apply align_spec|]. intros [f1|] H1; [|by apply ok_ret].
  destruct (H1 f1 eq_refl) as (i & j & Hij & Hj & Eo & Es). destruct (negb (zbd_verify_bs _ _)); [by apply ok_ret|]. destruct (recover_zbd_write_error o && td_write o && _); [by apply ok_ret|]. destruct (experimental_verify c); [by apply ok_ret|].
  pose proof (f_size _ Hf) as Hs. assert (within (zbd_info s) f1) as Hw1 by (unfold within; rewrite Eo, Es; nia). rewrite (within_end _ Hf f1 Hw1). assert (file_offset f1 + io_size f1 = j * zone_size (zbd_info s)) as Ee by (rewrite Eo, Es; lia). rewrite Ee, Eo.
  assert (0 <= i * zone_size (zbd_info s) /\ i * zone_size (zbd_info s) <= nr_zones (zbd_info s) * zone_size (zbd_info s) /\ j * zone_size (zbd_info s) <= nr_zones (zbd_info s) * zone_size (zbd_info s) /\ 0 <= j * zone_size (zbd_info s)) as (B1 & B2 & B3 & B4) by nia.
  destruct (table_idx _ Hf (i * zone_size (zbd_info s))) as [-> _]; [lia|]. destruct (table_idx _ Hf (j * zone_size (zbd_info s))) as [-> _]; [lia|]. rewrite !div_start by done. cbn [mbind option_bind]. set (f2 := mk_file _ _ _ i j).
  assert (within (zbd_info s) f2) as Hw2 by (unfold within, f2; cbn [file_offset io_size]; unfold within in Hw1; lia).
  eapply ok_bind; [apply vdb_spec; [done|done|cbn; lia|done]|]. intros s1 [n ->]. pose proof (set_vdb_fresh s n Hf) as Hf1.
  eapply ok_bind; [apply seq_job_total; [done|exact Hw2]|]. intros q _. apply ok_assert; [destruct (Z.ltb_spec i j); [by destruct q|lia]|].
  assert (inv o f2 (capacities (zbd_info s)) (pointers (zbd_info s)) (config s) false whole [] None false (set_vdb s n)) as H2 by (apply (fresh_inv o whole (set_vdb s n)); done).
  destruct ((0 <? max_open_zones c) && _); [by apply ok_ret|]. rewrite Ho. cbn [negb]. destruct (c_true (job_max_open_zones o) && _); [by apply ok_ret|].
  eapply ok_bind; [apply (open_zones_spec o f2 (capacities (zbd_info s)) (pointers (zbd_info s)) (config s) whole); [done| |cbn; lia|cbn; lia]|].
  - intros k x Hx. destruct (fresh_shape _ k x Hf1 Hx) as (z & Hz & ->). apply (f_open _ Hf k z Hz).
  - intros [[|] s2] [H3 [K1 K2 K3 K4]]; [|by apply ok_ret]. apply ok_ret. intros f' s' [= <- <-]. split; [done|]. destruct (config_size _ _ K2) as (E1 & _ & _ & _ & _). split; [rewrite K4; exact Hfl|]. split; [rewrite K3; exact Hcm|]. split; [rewrite E1; done|].
    unfold config, config_of in K2. by injection K2.
Qed.

Lemma start_spec o whole b f s reset_wp left : set_up_ok o whole b f s -> 0 < min_bs o DDIR_WRITE < 2 ^ 63 -> (forall n, zrf o = Some n -> 0 < n < 2 ^ 32) -> td_write o = true ->
  ok (zbd_file_reset o f reset_wp s left) (fun s' => job_inv o f (capacities b) (pointers b) (config_of b) whole s').
Proof.
  intros (H & F & _) Hb Hz Hw. eapply ok_impl; [by apply (file_reset_spec o f (capacities b) (pointers b) (config_of b) false whole reset_wp Hb Hz [] s left)|]. intros s' ([G T L D R K _] & F' & Hc). unfold job_inv. rewrite F', F. split; try done. intros _ _. by apply Hc.
Qed.

(** * Runs of a job *)

Section Runs.

Context (o : options) (c : set_up) (reset_wp finish_wp : Z -> Z -> Z) (report : Z -> Z -> Z + list zbd_zone) (move_wp : Z -> Z -> Z) (completion : list io_u -> list io_u)
  (m : zbd_zoned_model) (zs cap max : Z) (ign : bool) (dmax : Z + Z) (ma : Z) (f0 : fio_file).

(** The table that the set-up makes. *)
Definition made (b : zoned_block_device_info) : Prop := zbd_create_zone_info report (inr m) zs cap (real_file_size f0) ign max dmax = Some (inr b).

(** What is taken for granted: of the outside, that units complete in some order, that the
    reports or the size are sound, and that either zones can be finished or the zones that are
    reported are of whole blocks; of the options, that the job writes,
    with blocks of whole sectors, and does not recover from failed writes; that the part of
    the file is not empty and in the file. *)
Record premises : Prop := mk_premises {
  p_completion : forall l, completion l ≡ₚ l;
  p_finish : (forall off len, 0 <= finish_wp off len) \/ (forall b, made b -> whole_zones (min_bs o DDIR_WRITE) b);
  p_outside : outside report m zs cap (real_file_size f0);
  p_max : 0 <= max /\ forall n, dmax = inr n -> 0 <= n;
  p_writes : td_write o = true /\ only_reads c = false;
  p_blocks : (min_bs o DDIR_WRITE & 511)%word = 0 /\ 0 < min_bs o DDIR_WRITE < 2 ^ 63 /\ 0 < min_bs o DDIR_READ < 2 ^ 63;
  p_zrf : forall n, zrf o = Some n -> 0 < n < 2 ^ 32;
  p_recovery : recover_zbd_write_error o = false;
  p_file : 0 <= file_offset f0 /\ 0 < io_size f0 /\ file_offset f0 + io_size f0 <= real_file_size f0 }.

(** The table [b] is made, the file is fitted to it and has a sequential zone, and starts over
    for the first time. *)
Definition begins (b : zoned_block_device_info) (left : bool) (f : fio_file) s : Prop :=
  made b /\ zbd_is_seq_job b f0 = Some true /\
  exists s1, zbd_setup_files o c ma (mk_state b 0 0 [] []) f0 = Some (Some (f, s1)) /\ zbd_file_reset o f reset_wp s1 left = Some s.

Lemma finish_or_whole : premises -> exists whole, (whole = true \/ forall off len, 0 <= finish_wp off len) /\ forall b, made b -> whole = true -> whole_zones (min_bs o DDIR_WRITE) b.
Proof. intros P. destruct (p_finish P) as [H|H]; [exists false|exists true]; split; [by right|done|by left|]. intros b Hb _. by apply H. Qed.

Lemma begins_set_up whole b left f s : premises -> (forall b, made b -> whole = true -> whole_zones (min_bs o DDIR_WRITE) b) -> begins b left f s ->
  fresh b /\ model b = m /\ job_inv o f (capacities b) (pointers b) (config_of b) whole s.
Proof.
  intros P Hwh (Eb & Eq & s1 & E1 & E2). destruct (p_max P) as [Hm Hd]. destruct (p_file P) as (F1 & F2 & F3). destruct (p_writes P) as [W1 W2]. destruct (p_blocks P) as (_ & B1 & _).
  destruct (create_fresh _ _ _ _ _ _ _ _ _ Eb (p_outside P) Hm Hd) as (Hf & Hmo & Hmx & Hsz). split; [done|]. split; [done|].
  assert (within b f0) as Hw by (unfold within; lia).
  destruct (setup_spec o whole c ma (mk_state b 0 0 [] []) f0 Hf (Hwh b Eb) eq_refl eq_refl eq_refl Hmx Hw ltac:(lia) Eq W1 W2) as (r & Er & Hr). rewrite E1 in Er. injection Er as <-. specialize (Hr f s1 eq_refl). cbn [zbd_info] in Hr.
  destruct (start_spec o whole b f s1 reset_wp left Hr B1 (p_zrf P) W1) as (s2 & E3 & H3). by assert (s2 = s) as <- by congruence.
Qed.

Lemma run_inv b left f s0 s : premises -> begins b left f s0 -> reachable o f reset_wp finish_wp report move_wp completion s0 s -> exists whole,
  (whole = true \/ forall off len, 0 <= finish_wp off len) /\ fresh b /\ model b = m /\ job_inv o f (capacities b) (pointers b) (config_of b) whole s.
Proof.
  intros P B R. destruct (finish_or_whole P) as (whole & Hfin & Hwh). exists whole. destruct (begins_set_up whole _ _ _ _ P Hwh B) as (Hf & Hmo & H0). destruct (p_blocks P) as (B1 & B2 & B3). do 3 (split; [done|]).
  exact (reachable_inv o f _ _ _ whole completion (p_completion P) reset_wp finish_wp Hfin report move_wp B1 B2 (p_zrf P) B3 (p_recovery P) s0 s H0 R).
Qed.

(** C7: on a zoned device every write that the job lets through begins at the write pointer of
    its zone and ends in the zone's capacity, and every reset and finish is of a whole zone -
    whatever units, completions, waits and restarts came before, whatever of them failed, and
    with all zones the job was still writing to: a device that starts with the pointers it has
    reported and refuses all else accepts every command, and the pointers in the job's table
    are those of the device.  The job reads and writes; it does not trim; its engine refuses
    units but is never busy, and a unit that was queued completes without an error. *)
Theorem zoned_job_refines_device b left f s0 s : premises -> begins b left f s0 -> m <> ZBD_NONE ->
  reachable o f reset_wp finish_wp report move_wp completion s0 s ->
  exists d, device (zone_size b) (capacities b) (pointers b) (commands s) = Some d /\
    forall i z, min_zone f <= i < max_zone f -> zone s i = Some z -> has_wp z = true -> wp z = d i.
Proof.
  intros P B Hm R. destruct (run_inv _ _ _ _ _ P B R) as (whole & _ & _ & Hmo & H). pose proof (g_config _ _ _ _ (i_geometry _ _ _ _ _ _ _ _ _ _ _ H)) as Hc. unfold config, config_of in Hc. injection Hc as Hc1 _ Hc3 _ _.
  destruct (i_device _ _ _ _ _ _ _ _ _ _ _ H) as (d & Hd & Hw); [unfold zoned; rewrite Hc1, Hmo; by destruct m|]. rewrite Hc3 in Hd. exists d. split; [done|].
  intros i z Hi Hz Hzw. apply (Hw i (shape_of z)); [exact Hi|by apply zone_shape|done].
Qed.

Lemma create_total : premises -> exists r, zbd_create_zone_info report (inr m) zs cap (real_file_size f0) ign max dmax = Some r.
Proof.
  intros P. pose proof (p_outside P) as Ho. unfold zbd_create_zone_info. destruct m; [cbn [mbind option_bind]; destruct (init_zone_info _ _ _); by eexists|..];
    destruct Ho as (zs' & D & Hr & Hsz & Hp); rewrite (parse_zone_info_eq zs' D report Hr zs _ Hsz Hp); cbn [mbind option_bind]; destruct (_ && _); by eexists.
Qed.

(** C14: a job that reads and writes, on a device of which either every zone can be finished or
    every sequential zone has a capacity and a rest of whole blocks.  Its set-up ends without a
    failed assertion or an access outside the table, and so does every later step of it, where
    resets and the engine may fail as they like: no loop around the zones, over the write
    targets, over retries or for a readable zone lasts, no mutex is unlocked that is not held,
    no target is missing from the array, no assertion fails.  The premise on the zones cannot
    be dropped: where a rest is smaller than a block and a finish fails, the retry of
    [zbd_adjust_block] has no end ([retry_without_end]).  Nor can the limits of the runs: a
    random trim ([trim_of_empty_zone_fails]) and a preferred zone that is open
    ([preferred_zone_is_a_target]) do fail assertions; an engine that is busy, units that
    complete with an error and verifying reads of a job that writes are not in the runs. *)
Theorem zoned_job_never_stuck : premises ->
  (exists r, zbd_create_zone_info report (inr m) zs cap (real_file_size f0) ign max dmax = Some r) /\
  (forall b, zbd_create_zone_info report (inr m) zs cap (real_file_size f0) ign max dmax = Some (inr b) -> zbd_is_seq_job b f0 = Some true ->
    exists r, zbd_setup_files o c ma (mk_state b 0 0 [] []) f0 = Some r /\ forall f s1 left, r = Some (f, s1) -> exists s, zbd_file_reset o f reset_wp s1 left = Some s) /\
  (forall b left f s0 s e, begins b left f s0 -> reachable o f reset_wp finish_wp report move_wp completion s0 s -> legal o f s e ->
    exists s', job_step o f reset_wp finish_wp report move_wp completion s e = Some s').
Proof.
  intros P. destruct (p_blocks P) as (B1 & B2 & B3). split; [by apply create_total|]. split.
  - intros b Eb Eq. destruct (finish_or_whole P) as (whole & _ & Hwh). destruct (p_max P) as [Hm Hd]. destruct (p_file P) as (F1 & F2 & F3). destruct (p_writes P) as [W1 W2].
    destruct (create_fresh _ _ _ _ _ _ _ _ _ Eb (p_outside P) Hm Hd) as (Hf & Hmo & Hmx & Hsz). assert (within b f0) as Hw by (unfold within; lia).
    destruct (setup_spec o whole c ma (mk_state b 0 0 [] []) f0 Hf (Hwh b Eb) eq_refl eq_refl eq_refl Hmx Hw ltac:(lia) Eq W1 W2) as (r & Er & Hr). exists r. split; [done|]. intros f s1 left ->.
    destruct (start_spec o whole b f s1 reset_wp left (Hr f s1 eq_refl) B2 (p_zrf P) W1) as (s2 & E3 & _). by exists s2.
  - intros b left f s0 s e B R He. destruct (run_inv _ _ _ _ _ P B R) as (whole & Hfin & _ & _ & H).
    destruct (job_spec o f _ _ _ whole completion (p_completion P) reset_wp finish_wp Hfin report move_wp B1 B2 (p_zrf P) B3 (p_recovery P) s e H He) as (s' & E & _). by exists s'.
Qed.

(** ** Where units go *)

(** A write: at the pointer of a sequential zone that is online, whole blocks that fit into
    what was asked and what the zone still holds; or in a conventional zone, not going on
    into a sequential one. *)
Definition write_placed (f : fio_file) u '(r, u', s') : Prop := r = io_u_eof \/ r = io_u_accept /\ exists i z next, min_zone f <= i < max_zone f /\ zone s' i = Some z /\ zone s' (i + 1) = Some next /\
  if has_wp z then
    cond z <> ZBD_ZONE_COND_OFFLINE /\ u_held u' = true /\ u_offset u' = wp z /\ (min_bs o DDIR_WRITE | u_buflen u') /\ min_bs o DDIR_WRITE <= u_buflen u' <= u_buflen u /\
    start z <= wp z /\ wp z + u_buflen u' <= start z + capacity z
  else u_held u' = false /\ 0 <= u_buflen u' <= u_buflen u /\ (has_wp next = true -> start z <= u_offset u' /\ u_offset u' + u_buflen u' <= start next).

(** A read: of data that a sequential zone has, or in a conventional zone; or where it was
    asked for, if that is in a conventional zone or the job may read behind the pointers. *)
Definition read_placed (f : fio_file) s u '(r, u', s') : Prop := r = io_u_eof \/ r = io_u_accept /\
  ((exists i z, min_zone f <= i < max_zone f /\ zone s' i = Some z /\ cond z <> ZBD_ZONE_COND_OFFLINE /\ u_held u' = has_wp z /\
    start z <= u_offset u' /\ 0 < u_buflen u' <= u_buflen u /\ (has_wp z = true -> u_offset u' + u_buflen u' <= wp z)) \/
   u' = u /\ s' = s /\ (read_beyond_wp o = true \/ exists z, zone s (u_offset u / zone_size (zbd_info s)) = Some z /\ has_wp z = false)).

(** C20: whatever a job has done, the next write that it lets through begins at the write
    pointer of a sequential zone that is online, has at least a block, and ends in the zone's
    capacity, and it holds the zone - even if the zone it asked for was full, offline, beyond
    the limit of open zones or had a rest too small for a block; in a conventional zone it
    does not go on into a sequential one.  A read is of data before the write pointer. *)
Theorem zoned_units_placed b left f s0 s u v : premises -> begins b left f s0 -> reachable o f reset_wp finish_wp report move_wp completion s0 s -> asked o f u v -> zlength (flying s) + 1 < 2 ^ 31 ->
  exists r, zbd_adjust_block o f reset_wp finish_wp completion s u v None = Some r /\ if is_write u then write_placed f u r else read_placed f s u r.
Proof.
  intros P B R (Hv & Hb & Hh & He & Hd) Hl. destruct (run_inv _ _ _ _ _ P B R) as (whole & Hfin & _ & _ & H%job_live). destruct (p_blocks P) as (B1 & B2 & B3). rewrite <- (app_nil_r (flying s)) in Hl.
  destruct Hd as [[Hd Hlen]|(Hd & Hlen & Hver)]; unfold is_write at 1; rewrite Hd.
  - destruct (adjust_block_write o f _ _ _ true whole completion (p_completion P) reset_wp finish_wp Hfin [] B1 eq_refl B2 (p_zrf P) s u v None H (conj Hv Hb) Hh) as (r & E & Hr); [unfold is_write; by rewrite Hd|done|done|].
    exists r. split; [done|]. destruct r as [[r u'] s']. destruct Hr as [Hr|Hr].
    + destruct r; [|by left|done]. right. split; [done|]. destruct Hr as [Hr|[? _]]; [|done]. destruct Hr as (i & z & Hi & Hz & Hw & Ho & E1 & _ & _ & E4 & E5 & E6 & E7 & E8 & Hinv).
      destruct (zone_in_file f _ _ s' i (i_geometry _ _ _ _ _ _ _ _ _ _ _ Hinv) Hi) as (z' & nx & Hz' & Hn & _ & _ & _ & _ & _ & Ec & _). assert (z' = z) as -> by congruence. exists i, z, nx. rewrite Hw, Ec. split; [done|]. split; [done|]. split; [done|].
      split; [apply (Ho (shape_of z)); by apply zone_shape|]. done.
    + destruct Hr as (-> & _ & _ & E1 & _ & E2 & i & z & nx & Hi & Hz & Hw & Hn & Hin). right. split; [done|]. exists i, z, nx. by rewrite Hw.
  - destruct (adjust_block_read o f _ _ _ true whole completion reset_wp finish_wp [] B3 s u v None H (conj Hv Hb) Hh Hd Hver Hlen Hl) as (r & E & Hr). exists r. split; [done|]. destruct r as [[r u'] s']. destruct Hr as [Hr|[[= -> -> ->] Hr]].
    + destruct r; [|by left|done]. right. split; [done|]. left. destruct Hr as (i & z & Hi & Hz & Ho & _ & _ & E1 & E2 & E3 & E4 & _). exists i, z. split; [done|]. split; [done|]. split; [apply (Ho (shape_of z)); by apply zone_shape|]. done.
    + right. split; [done|]. right. done.
Qed.

(** ** Write targets and mutexes *)

(** C26: whatever a job has done, the zones it writes to are distinct sequential zones of its
    file that are online and marked, no more than the limits of the device and of the job
    allow; the mutex of a zone is held as often as units in flight are in it, the zone counts
    those of them that write, and the mutex of the device is free. *)
Theorem zoned_targets_and_locks b left f s0 s : premises -> begins b left f s0 -> reachable o f reset_wp finish_wp report move_wp completion s0 s ->
  (NoDup (targets s) /\ zlength (targets s) <= max_write_zones b /\ (0 < job_max_open_zones o -> zlength (targets s) <= job_max_open_zones o) /\
   forall i z, zone s i = Some z -> (write z = true <-> i ∈ targets s) /\ (write z = true -> min_zone f <= i < max_zone f /\ has_wp z = true /\ cond z <> ZBD_ZONE_COND_OFFLINE)) /\
  (forall i z, zone s i = Some z -> locks z = units_at (zone_size b) (flying s) i /\ writes_in_flight z = Z.of_nat (writes_at (zone_size b) (flying s) i)) /\
  locked (zbd_info s) = false.
Proof.
  intros P B R. destruct (run_inv _ _ _ _ _ P B R) as (whole & _ & _ & _ & H). pose proof (g_config _ _ _ _ (i_geometry _ _ _ _ _ _ _ _ _ _ _ H)) as Hc. unfold config, config_of in Hc. injection Hc as _ Hc2 Hc3 _ _.
  destruct (i_targets _ _ _ _ _ _ _ _ _ _ _ H) as [T1 [T2 T2'] T3 T4 T5 [T6 T7]]. assert (zlength (targets s) = num_write_zones (zbd_info s)) as Hl by (unfold targets, zlength in *; rewrite length_take; unfold ZBD_MAX_WRITE_ZONES in *; lia).
  split; [|split; [|apply H]].
  - split; [done|]. split; [lia|]. split; [lia|]. intros i z Hz. split; [by apply T4|]. intros Hw. apply (T4 i z Hz) in Hw. destruct (T5 i Hw) as (Hi & x & Hx & E1 & E2). apply zone_shape in Hz. assert (x = shape_of z) as -> by congruence. done.
  - intros i z Hz. pose proof (i_held _ _ _ _ _ _ _ _ _ _ _ H) as Hh. pose proof (l_locks _ _ _ _ Hh i z Hz) as L. destruct (l_flight _ _ _ _ Hh i z Hz) as [F _]. rewrite Hc3 in L, F. rewrite decide_False in L by done. split; [lia|done].
Qed.

End Runs.

(** * A device with four zones *)

Definition ex_zones : list zbd_zone :=
  [mk_zbd_zone 0 0 4096 4096 ZBD_ZONE_TYPE_CNV 0; mk_zbd_zone 4096 5120 4096 3072 ZBD_ZONE_TYPE_SWR 2;
   mk_zbd_zone 8192 8192 4096 3072 ZBD_ZONE_TYPE_SWR 1; mk_zbd_zone 12288 12288 4096 3072 ZBD_ZONE_TYPE_SWR 15].

(** Two zones in a report, at most. *)
Definition ex_report (offset n : Z) : Z + list zbd_zone := inr (take (Z.to_nat (Z.min n 2)) (drop (Z.to_nat (offset / 4096)) ex_zones)).
Definition ex_options : options := mk_options (fun _ => 1024) false 0 true true true false None None 50 false false.
Definition ex_set_up : set_up := mk_set_up true false 0 0 None false false 2.
Definition ex_whole : fio_file := mk_file 100 16284 16384 0 0.
Definition ex_all_zero (_ _ : Z) : Z := 0.
Definition ex_refused : Z -> Z -> Z := blkzoned_finish_zone 3 (inr 3) (fun _ _ _ => Some ENOTTY).
Definition ex_order (l : list io_u) : list io_u := reverse l.
Definition ex_table : zoned_block_device_info :=
  match zbd_create_zone_info ex_report (inr ZBD_HOST_MANAGED) 0 0 16384 false 2 (inr 4) with Some (inr b) => b | _ => mk_info ZBD_NONE 0 0 0 0 0 0 0 [] [] false end.
Definition ex_nothing : fio_file * state := (ex_whole, mk_state ex_table 0 0 [] []).
Definition ex_first : fio_file * state := match zbd_setup_files ex_options ex_set_up 0 (mk_state ex_table 0 0 [] []) ex_whole with Some (Some r) => r | _ => ex_nothing end.
Definition ex_file : fio_file := fst ex_first.
Definition ex_start : state := match zbd_file_reset ex_options ex_file ex_all_zero (snd ex_first) false with Some s => s | None => snd ex_nothing end.

Definition ex_unit (d : fio_ddir) (offset len : Z) : io_u := mk_io_u d offset len false false.
Definition ex_job (s : state) (e : event) : option state := job_step ex_options ex_file ex_all_zero ex_refused ex_report ex_all_zero ex_order s e.
Definition ex_events : list event :=
  [Submit (ex_unit DDIR_WRITE 6000 2048) false None (taken FIO_Q_QUEUED); Submit (ex_unit DDIR_WRITE 9000 2048) false None (taken FIO_Q_QUEUED); Complete 1;
   Submit (ex_unit DDIR_WRITE 9000 2048) false None (taken FIO_Q_COMPLETED); Submit (ex_unit DDIR_READ 5000 1024) false None (taken FIO_Q_QUEUED);
   Submit (ex_unit DDIR_WRITE 13000 1024) false None failed; Submit (ex_unit DDIR_WRITE 13000 1024) false None (taken FIO_Q_QUEUED); Wait; Submit (ex_unit DDIR_WRITE 5000 2048) false None (taken FIO_Q_QUEUED); File_reset false].
Fixpoint ex_run (s : state) (l : list event) : option state := match l with [] => Some s | e :: l => let* s := ex_job s e in ex_run s l end.
Definition ex_end : state := match ex_run ex_start ex_events with Some s => s | None => ex_start end.

(** [legal], for units after which nothing is verified. *)
Definition askedb (o : options) (f : fio_file) u (v : bool) : bool :=
  is_valid_offset f (u_offset u) && (0 <=? u_offset u) && (u_offset u <? 2 ^ 64) && negb (u_held u) && negb (u_error u) &&
  match u_ddir u with
  | DDIR_WRITE => (0 <? u_buflen u) && (u_buflen u <? 2 ^ 63)
  | DDIR_READ => (min_bs o DDIR_READ <=? u_buflen u) && (u_buflen u <? 2 ^ 63) && negb (v && td_write o)
  | _ => false
  end.

Definition legalb (o : options) (f : fio_file) s (e : event) : bool :=
  match e with
  | Submit u v None a => askedb o f u v && match a with taken FIO_Q_BUSY => false | _ => true end && (zlength (flying s) + 1 <? 2 ^ 31)
  | Submit _ _ _ _ => false
  | _ => true
  end.

Lemma askedb_spec o f u v : askedb o f u v = true -> asked o f u v.
Proof.
  unfold askedb, asked. rewrite !andb_true_iff, Z.leb_le, Z.ltb_lt, !negb_true_iff. intros [[[[[H1 H2] H3] H4] H5] H6]. split_and!; try done.
  destruct (u_ddir u); [right|left|done|done]; rewrite !andb_true_iff, ?Z.leb_le, ?Z.ltb_lt in H6; [|by split].
  destruct H6 as [[H6 H7] H8]. apply negb_true_iff in H8. by split_and!.
Qed.

Lemma legalb_spec o f s e : legalb o f s e = true -> legal o f s e.
Proof.
  destruct e as [u v [w|] a|n| |b]; cbn [legalb legal]; try done. rewrite !andb_true_iff, Z.ltb_lt. intros [[H1%askedb_spec H2] H3]. split; [done|]. split; [done|]. split; [|done]. intros ->. done.
Qed.

(** A run of legal events. *)
Fixpoint legal_run s (l : list event) : bool :=
  match l with [] => true | e :: l => legalb ex_options ex_file s e && match ex_job s e with Some s => legal_run s l | None => true end end.

Lemma events_reachable s0 s l s' : reachable ex_options ex_file ex_all_zero ex_refused ex_report ex_all_zero ex_order s0 s -> legal_run s l = true -> ex_run s l = Some s' ->
  reachable ex_options ex_file ex_all_zero ex_refused ex_report ex_all_zero ex_order s0 s'.
Proof.
  revert s. induction l as [|e l IH]; intros s R; cbn [legal_run ex_run]; [by intros _ [= <-]|]. intros [He Hl]%andb_prop. destruct (ex_job s e) as [s1|] eqn:E; [|done]. cbn [mbind option_bind]. apply IH; [|done].
  eapply reached_next; [done|by apply legalb_spec|done].
Qed.

(** The zones of the table are of whole blocks. *)
Definition whole_zonesb (bs : Z) (b : zoned_block_device_info) : bool :=
  forallb (fun z => negb (has_wp z) || (capacity z mod bs =? 0) && (((start z + capacity z - wp z) mod bs =? 0) || (start z + capacity z <=? wp z))) (take (Z.to_nat (nr_zones b)) (zone_info b)).

Lemma whole_zonesb_spec bs b : bs <> 0 -> whole_zonesb bs b = true -> whole_zones bs b.
Proof.
  intros Hb H i z Hi Hz Hw. unfold whole_zonesb in H. rewrite forallb_forall in H. pose proof (arr_get_range _ _ _ Hz) as Hr.
  specialize (H z). rewrite Hw in H. cbn [negb orb] in H. rewrite andb_true_iff, orb_true_iff, !Z.eqb_eq, Z.leb_le, !Z.mod_divide in H by done. apply H.
  apply list_elem_of_In, list_elem_of_lookup. exists (Z.to_nat i). rewrite lookup_take_lt by lia. rewrite <- arr_get_nat, Z2Nat.id by lia. done.
Qed.

Lemma ex_reports : device_reports 4096 ex_zones ex_report.
Proof.
  split; [done| |done|].
  - intros k r. do 4 (destruct k as [|k]; [intros [= <-]; unfold zone_ok; cbn; split_and!; try lia; by intros [?|[?|?]]|]). done.
  - intros k n Hk Hn. exists (Z.to_nat (Z.min n 2)). split; [lia|]. split; [lia|]. unfold ex_report. by rewrite Z.div_mul by lia.
Qed.

Lemma ex_premises : premises ex_options ex_set_up ex_refused ex_report ex_order ZBD_HOST_MANAGED 0 0 2 false (inr 4) ex_whole.
Proof.
  split; try done.
  - intros l. apply reverse_Permutation.
  - right. intros b Hb. assert (b = ex_table) as -> by (assert (Some (inr b : Z + zoned_block_device_info) = Some (inr ex_table)) as [= E]; [rewrite <- Hb; by vm_compute|done]). apply whole_zonesb_spec; by vm_compute.
  - exists 4096, ex_zones. split; [apply ex_reports|done].
  - split; [done|]. by intros n [= <-].
Qed.

Lemma ex_begins : begins ex_options ex_set_up ex_all_zero ex_report ZBD_HOST_MANAGED 0 0 2 false (inr 4) 0 ex_whole ex_table false ex_file ex_start.
Proof. split; [by vm_compute|]. split; [by vm_compute|]. exists (snd ex_first). split; by vm_compute. Qed.

Lemma ex_reachable : reachable ex_options ex_file ex_all_zero ex_refused ex_report ex_all_zero ex_order ex_start ex_end.
Proof. apply (events_reachable ex_start ex_start ex_events); [apply reached_first|by vm_compute|by vm_compute]. Qed.

(** The commands of the run: the write for 5000 went behind the pointer of the open zone, those
    for 9000 to the second one; the one for 13000, whose zone is offline, went to the rest of
    another zone, and what the engine refused was not issued; full zones were reset. *)
Example ex_commands : rev (commands ex_end) = [Write 5120 2048; Write 8192 2048; Write 10240 1024; Reset 8192; Write 8192 1024; Reset 4096; Write 4096 2048].
Proof. by vm_compute. Qed.

Lemma zoned_job_refines_device_witness : exists d, device (zone_size ex_table) (capacities ex_table) (pointers ex_table) (commands ex_end) = Some d /\
  forall i z, min_zone ex_file <= i < max_zone ex_file -> zone ex_end i = Some z -> has_wp z = true -> wp z = d i.
Proof.
  exact (zoned_job_refines_device ex_options ex_set_up ex_all_zero ex_refused ex_report ex_all_zero ex_order ZBD_HOST_MANAGED 0 0 2 false (inr 4) 0 ex_whole ex_table false ex_file ex_start ex_end
    ex_premises ex_begins (fun E => eq_ind ZBD_HOST_MANAGED (fun m => match m with ZBD_HOST_MANAGED => True | _ => False end) I ZBD_NONE E) ex_reachable).
Defined.

(** One more write, which the engine takes. *)
Lemma zoned_job_never_stuck_witness : exists s', ex_job ex_end (Submit (ex_unit DDIR_WRITE 12288 4096) false None (taken FIO_Q_QUEUED)) = Some s'.
Proof.
  apply (proj2 (proj2 (zoned_job_never_stuck ex_options ex_set_up ex_all_zero ex_refused ex_report ex_all_zero ex_order ZBD_HOST_MANAGED 0 0 2 false (inr 4) 0 ex_whole ex_premises))
    ex_table false ex_file ex_start ex_end); [apply ex_begins|apply ex_reachable|apply legalb_spec; by vm_compute].
Defined.

Lemma zoned_units_placed_witness : exists r, zbd_adjust_block ex_options ex_file ex_all_zero ex_refused ex_order ex_end (ex_unit DDIR_WRITE 12288 4096) false None = Some r /\ write_placed ex_options ex_file (ex_unit DDIR_WRITE 12288 4096) r.
Proof.
  refine (zoned_units_placed ex_options ex_set_up ex_all_zero ex_refused ex_report ex_all_zero ex_order ZBD_HOST_MANAGED 0 0 2 false (inr 4) 0 ex_whole ex_table false ex_file ex_start ex_end (ex_unit DDIR_WRITE 12288 4096) false
    ex_premises ex_begins ex_reachable _ _); [apply askedb_spec; by vm_compute|by vm_compute].
Defined.

Lemma zoned_targets_and_locks_witness : NoDup (targets ex_end) /\ zlength (targets ex_end) <= max_write_zones ex_table.
Proof.
  destruct (zoned_targets_and_locks ex_options ex_set_up ex_all_zero ex_refused ex_report ex_all_zero ex_order ZBD_HOST_MANAGED 0 0 2 false (inr 4) 0 ex_whole ex_table false ex_file ex_start ex_end
    ex_premises ex_begins ex_reachable) as [(H1 & H2 & _) _]. by split.
Defined.

(** * Where the code does not do what it means to *)

(** The comment of [zbd_zone_align_file_sizes] has the offset go down and the size up; they go
    the other way. *)
Example align_goes_inwards : (file_offset ex_whole, io_size ex_whole) = (100, 16284) /\ (file_offset ex_file, io_size ex_file) = (4096, 12288).
Proof. by vm_compute. Qed.

(** A job that counts valid data, for a threshold of resets. *)
Definition ex_counting : options := mk_options (fun _ => 1024) false 0 true true true false (Some 1) (Some (fun _ => false)) 50 false false.
Definition ex_counted : state := match zbd_verify_and_set_vdb ex_counting ex_file ex_start with Some s => s | None => ex_start end.

(** The finish of a zone moves its pointer without counting, and a reset takes off all of it. *)
Example finish_is_not_counted :
  wp_valid_data_bytes (zbd_info ex_counted) = 1024 /\
  (let* '(_, s) := zbd_finish_zone ex_all_zero ex_counted 1 in let* '(_, s) := zbd_reset_zone ex_counting ex_file ex_all_zero s 1 in Some (wp_valid_data_bytes (zbd_info s))) = Some (2 ^ 64 - 3072).
Proof. by vm_compute. Qed.

(** A job on the conventional zone and the next one: a random trim of the empty zone looks for
    one with data, finds the conventional one and fails [assert(zb->has_wp)]. *)
Definition ex_both : fio_file := mk_file 0 12288 16384 0 3.
Example trim_of_empty_zone_fails :
  zbd_adjust_block ex_options ex_both ex_all_zero ex_all_zero ex_order (match __zbd_reset_zone ex_options ex_both ex_all_zero ex_start 1 with Some (_, s) => s | None => ex_start end) (ex_unit DDIR_TRIM 4096 4096) false None = None.
Proof. by vm_compute. Qed.

(** An engine that is busy has not taken the write, but the pointer moves and the zone is
    released: the next write is placed behind one that has not been issued. *)
Example busy_moves_the_pointer :
  (let* '(_, u, s) := zbd_adjust_block ex_options ex_file ex_all_zero ex_all_zero ex_order ex_start (ex_unit DDIR_WRITE 5000 1024) false None in
   let* '(u, s) := zbd_queue_io_u ex_options ex_report ex_all_zero s u FIO_Q_BUSY in
   let* z := zone s 1 in Some (u_offset u, u_held u, wp z, locks z, commands s)) = Some (5120, false, 6144, O, []).
Proof. by vm_compute. Qed.

(** A device with sequential zones that are only preferred, one of them open.  It becomes a
    write target, though it is treated as conventional: [assert(zb->has_wp)] fails when a
    write is sent to it. *)
Definition ex_aware : list zbd_zone := [mk_zbd_zone 0 1024 4096 4096 ZBD_ZONE_TYPE_SWP 2; mk_zbd_zone 4096 4096 4096 4096 ZBD_ZONE_TYPE_SWR 1].
Definition ex_aware_first : option (fio_file * state) :=
  let* r := zbd_create_zone_info (fun _ _ => inr ex_aware) (inr ZBD_HOST_AWARE) 0 0 8192 false 1 (inr 0) in
  match r with
  | inl _ => None
  | inr b => let* r := zbd_setup_files ex_options (mk_set_up true false 0 0 None false false 1) 0 (mk_state b 0 0 [] []) (mk_file 0 8192 8192 0 0) in r
  end.
Example preferred_zone_is_a_target :
  (let* '(_, s) := ex_aware_first in let* z := zone s 0 in Some (targets s, has_wp z)) = Some ([0], false) /\
  (let* '(f, s) := ex_aware_first in zbd_adjust_block ex_options f ex_all_zero ex_all_zero ex_order s (ex_unit DDIR_WRITE 4096 1024) false None) = None.
Proof. by vm_compute. Qed.

(** [max_write_error_offset] is kept when a zone is reset: a failed write of 1024 bytes to the
    empty zone is then recovered by a write up to where the last failed write ended. *)
Example stale_error_offset :
  (let* s := update ex_start 2 (fun z => with_flight (with_fixing z false 3072) 1) in
   let* '(r, _) := zbd_recover_write_error (fun _ _ => inr [mk_zbd_zone 8192 8192 4096 3072 ZBD_ZONE_TYPE_SWR 2]) ex_all_zero s (ex_unit DDIR_WRITE 8192 1024) in Some r) = Some (Some (8192, 3072)).
Proof. by vm_compute. Qed.

(** Two zones with rests of half a block, of a kernel that cannot finish zones: a write for
    one is sent to the other and back, without end - the number of turns does not matter.
    In zones whose capacities and rests are of whole blocks this cannot happen (C14). *)
Definition ex_rests : list zbd_zone := [mk_zbd_zone 0 3584 4096 4096 ZBD_ZONE_TYPE_SWR 4; mk_zbd_zone 4096 7680 4096 4096 ZBD_ZONE_TYPE_SWR 4].
Definition ex_rests_first : fio_file * state :=
  match zbd_create_zone_info (fun _ _ => inr ex_rests) (inr ZBD_HOST_MANAGED) 0 0 8192 false 0 (inr 0) with
  | Some (inr b) => match zbd_setup_files ex_options (mk_set_up true false 0 0 None false false 0) 0 (mk_state b 0 0 [] []) (mk_file 0 8192 8192 0 0) with Some (Some r) => r | _ => ex_nothing end
  | _ => ex_nothing
  end.
Definition ex_rests_start : state := match zbd_file_reset ex_options (fst ex_rests_first) ex_all_zero (snd ex_rests_first) true with Some s => s | None => snd ex_nothing end.
Definition ex_write : io_u := ex_unit DDIR_WRITE 0 1024.
Definition ex_held (i : Z) : state := match zone_lock (fst ex_rests_first) ex_rests_start i with Some s => s | None => snd ex_nothing end.

Lemma retry_step o f finish_wp completion fuel s u i j s' : zbd_convert_to_write_zone o f finish_wp completion s u i = Some (Some j, u, s') -> zbd_zone_remainder <$> zone s' j = Some 512 -> min_bs o DDIR_WRITE = 1024 ->
  write_zone o f finish_wp completion fuel s u i = match fuel with O => None | S fuel => write_zone o f finish_wp completion fuel s' u j end.
Proof. intros E (z & Ez & Er)%fmap_Some Hb. destruct fuel; cbn [write_zone]; rewrite E; cbn [mbind option_bind]; rewrite Ez; cbn [mbind option_bind]; by rewrite <- Er, Hb. Qed.

(** Sent to and fro between two zones whose rests hold no block. *)
Lemma retry_cycle o f finish_wp completion u s0 i0 s1 i1 : min_bs o DDIR_WRITE = 1024 ->
  zbd_convert_to_write_zone o f finish_wp completion s0 u i0 = Some (Some i1, u, s1) -> zbd_zone_remainder <$> zone s1 i1 = Some 512 ->
  zbd_convert_to_write_zone o f finish_wp completion s1 u i1 = Some (Some i0, u, s0) -> zbd_zone_remainder <$> zone s0 i0 = Some 512 ->
  forall fuel, write_zone o f finish_wp completion fuel s0 u i0 = None.
Proof.
  intros Hb E0 R1 E1 R0 fuel. enough (write_zone o f finish_wp completion fuel s0 u i0 = None /\ write_zone o f finish_wp completion fuel s1 u i1 = None) by tauto.
  induction fuel as [|fuel [IH0 IH1]]; (split; [rewrite (retry_step _ _ _ _ _ _ _ _ _ _ E0 R1 Hb)|rewrite (retry_step _ _ _ _ _ _ _ _ _ _ E1 R0 Hb)]); done.
Qed.

Example retry_without_end : forall fuel, write_zone ex_options (fst ex_rests_first) ex_refused ex_order fuel (ex_held 0) ex_write 0 = None.
Proof. refine (retry_cycle _ _ _ _ _ _ _ (ex_held 1) 1 _ _ _ _ _); by vm_compute. Qed.

Example retry_of_a_write : zbd_adjust_block ex_options (fst ex_rests_first) ex_all_zero ex_refused ex_order ex_rests_start ex_write false None = None.
Proof. by vm_compute. Qed.

(** A kernel that knows no finish: the comment of [blkzoned_finish_zone] has that ignored, but
    the code compares the negated error with [ENOTTY]. *)
Example unknown_finish_is_an_error : ex_refused 0 4096 = - ENOTTY.
Proof. done. Qed.
