(* ===== verification/Net.v ===== *)
(** The commands that a fio client and its servers exchange (server.c, server.h, client.c):
    the byte orders, the socket, sending whole and from a vector, receiving with
    defragmentation, the queue of a server, the replies a client waits for, and the command
    line that a client sends. *)
From S2P Require Import Prelude Stream Crc.

(** * Byte orders (os/os.h) *)

Definition fio_swap16 (val : Z) : Z := Z.lor (shlw 16 val 8) (Z.shiftr val 8).

Definition fio_swap32 (val : Z) : Z :=
  let val := Z.lor (Z.shiftr (Z.land val 0xff00ff00) 8) (shlw 32 (Z.land val 0x00ff00ff) 8) in
  Z.lor (Z.shiftr val 16) (shlw 32 val 16).

Definition fio_swap64 (val : Z) : Z :=
  let val := Z.lor (Z.shiftr (Z.land val 0xff00ff00ff00ff00) 8)
                   (shlw 64 (Z.land val 0x00ff00ff00ff00ff) 8) in
  let val := Z.lor (Z.shiftr (Z.land val 0xffff0000ffff0000) 16)
                   (shlw 64 (Z.land val 0x0000ffff0000ffff) 16) in
  Z.lor (Z.shiftr val 32) (shlw 64 val 32).

(** The conversion of an [unsigned int] to [int]. *)
Definition as_int (z : Z) : Z := if z <? 2 ^ 31 then z else z - 2 ^ 32.

(** * Sockets

    A stream socket: the bytes that the peer has sent and those sent to it, and how the
    system will answer the calls that are still to come.  A call moves at least one byte
    and at most [n] of those asked for, or fails; when the answers are used up a call moves
    all there is to move.  With every answer comes the value that [exit_backend], which a
    signal sets, has after the call.  Where the incoming bytes end the peer has closed the
    connection. *)

Inductive errno := EINTR | EAGAIN | ENOTCONN.

Inductive answer := Moves (n : Z) | Fails (e : errno).

Record socket := Socket {
  incoming : list Z;
  outgoing : list Z;
  reads : list (answer * bool);
  writes : list (answer * bool);
}.

Definition retry (e : errno) : bool :=
  match e with EINTR | EAGAIN => true | ENOTCONN => false end.

(** The part of [len] bytes that one call moves. *)
Definition moved (n : Z) {A} (l : list A) : list A := take (Z.to_nat (Z.max n 1)) l.

Definition recv (sk : socket) (len : Z) : (list Z + errno) * bool * socket :=
  let asked := take (Z.to_nat len) (incoming sk) in
  let got (l : list Z) r := Socket (drop (length l) (incoming sk)) (outgoing sk) r (writes sk) in
  match reads sk with
  | [] => (inl asked, false, got asked [])
  | (Moves n, exits) :: r => (inl (moved n asked), exits, got (moved n asked) r)
  | (Fails e, exits) :: r => (inr e, exits, got [] r)
  end.

Definition writev (sk : socket) (iov : list (list Z)) : (Z + errno) * bool * socket :=
  let all := concat iov in
  let put (l : list Z) w := Socket (incoming sk) (outgoing sk ++ l) (reads sk) w in
  match writes sk with
  | [] => (inl (zlength all), false, put all [])
  | (Moves n, exits) :: w => (inl (zlength (moved n all)), exits, put (moved n all) w)
  | (Fails e, exits) :: w => (inr e, exits, put [] w)
  end.

(** * Moving a buffer *)

(** The [struct iovec] are an array, each with the bytes it still points to: [iov] is an
    index into it, and what the code changes in the array its caller sees. *)
Definition iov_at (array : list (list Z)) (iov count : Z) : option (list (list Z)) :=
  if (0 <=? iov) && (0 <=? count) && (iov + count <=? zlength array) then
    Some (take (Z.to_nat count) (drop (Z.to_nat iov) array))
  else None.

Definition iov_total_len (iov : list (list Z)) : Z := zlength (concat iov).

(** The loop [while (ret)] of [fio_sendv_data]: what is written is skipped. *)
Fixpoint iov_skip (fuel : nat) (array : list (list Z)) (iov ret : Z) : option (list (list Z) * Z) :=
  match fuel with
  | O => None
  | S fuel =>
      if ret =? 0 then Some (array, iov)
      else
        let* v := arr_get array iov in
        if zlength v <=? ret then iov_skip fuel array (iov + 1) (ret - zlength v)
        else
          let* array := arr_set array iov (drop (Z.to_nat ret) v) in
          Some (array, iov)
  end.

Definition sendv_done (total_len : Z) : Z := if total_len =? 0 then 0 else 1.

Fixpoint sendv_loop (fuel : nat) (sk : socket) (array : list (list Z)) (iov count total_len : Z)
    : option (Z * list (list Z) * socket) :=
  match fuel with
  | O => None
  | S fuel =>
      let* vec := iov_at array iov count in
      let '(ret, exit_backend, sk) := writev sk vec in
      match ret with
      | inl ret =>
          if 0 <? ret then
            let total_len := total_len - ret in
            if total_len =? 0 then Some (0, array, sk)
            else
              let* '(array, iov) := iov_skip (S (S (length array))) array iov ret in
              if exit_backend then Some (sendv_done total_len, array, sk)
              else sendv_loop fuel sk array iov count total_len
          else Some (sendv_done total_len, array, sk)
      | inr e =>
          if retry e && negb exit_backend then sendv_loop fuel sk array iov count total_len
          else Some (sendv_done total_len, array, sk)
      end
  end.

Definition fio_sendv_data (sk : socket) (array : list (list Z)) (count : Z)
    : option (Z * list (list Z) * socket) :=
  let* vec := iov_at array 0 count in
  sendv_loop (S (length (writes sk))) sk array 0 count (iov_total_len vec).

(** The bytes that [fio_recv_data] has stored, with its result. *)
Definition recv_done (len : Z) : Z := if len =? 0 then 0 else -1.

Fixpoint recv_data_loop (fuel : nat) (sk : socket) (len : Z) (wait : bool) (p : list Z)
    : option (Z * list Z * socket) :=
  match fuel with
  | O => None
  | S fuel =>
      let '(ret, exit_backend, sk) := recv sk len in
      match ret with
      | inl got =>
          if 0 <? zlength got then
            let len := len - zlength got in
            if len =? 0 then Some (0, p ++ got, sk)
            else if exit_backend then Some (recv_done len, p ++ got, sk)
            else recv_data_loop fuel sk len wait (p ++ got)
          else Some (recv_done len, p, sk)
      | inr e =>
          if retry e && wait && negb exit_backend then recv_data_loop fuel sk len wait p
          else Some (recv_done len, p, sk)
      end
  end.

Definition fio_recv_data (sk : socket) (len : Z) (wait : bool) : option (Z * list Z * socket) :=
  recv_data_loop (S (S (length (reads sk) + length (incoming sk)))) sk len wait [].

(** * Commands (server.h) *)

Record fio_net_cmd := Cmd {
  version : Z;
  opcode : Z;
  flags : Z;
  tag : Z;
  pdu_len : Z;
  cmd_crc16 : Z;
  pdu_crc16 : Z;
}.

(** A command in memory, with the bytes of its [payload]. *)
Record cmd_buf := Buf { cmd : fio_net_cmd; payload : list Z }.

Definition sizeof_cmd : Z := 24.
Definition FIO_SERVER_VER : Z := 110.
Definition FIO_SERVER_MAX_FRAGMENT_PDU : Z := 1024.
Definition FIO_SERVER_MAX_CMD_MB : Z := 2048.
Definition FIO_NET_CMD_QUIT : Z := 1.
Definition FIO_NET_CMD_JOB : Z := 3.
Definition FIO_NET_CMD_JOBLINE : Z := 4.
Definition FIO_NET_CMD_TEXT : Z := 5.
Definition FIO_NET_CMD_SEND_ETA : Z := 8.
Definition FIO_NET_CMD_STOP : Z := 12.
Definition FIO_NET_CMD_F_MORE : Z := 1.
Definition FIO_NET_CMD_CRC_SZ : Z := sizeof_cmd - 2 * 2.

Definition set_flags (c : fio_net_cmd) (f : Z) : fio_net_cmd :=
  Cmd (version c) (opcode c) f (tag c) (pdu_len c) (cmd_crc16 c) (pdu_crc16 c).
Definition set_tag (c : fio_net_cmd) (t : Z) : fio_net_cmd :=
  Cmd (version c) (opcode c) (flags c) t (pdu_len c) (cmd_crc16 c) (pdu_crc16 c).
Definition set_pdu_len (c : fio_net_cmd) (l : Z) : fio_net_cmd :=
  Cmd (version c) (opcode c) (flags c) (tag c) l (cmd_crc16 c) (pdu_crc16 c).
Definition set_cmd_crc16 (c : fio_net_cmd) (x : Z) : fio_net_cmd :=
  Cmd (version c) (opcode c) (flags c) (tag c) (pdu_len c) x (pdu_crc16 c).
Definition set_pdu_crc16 (c : fio_net_cmd) (x : Z) : fio_net_cmd :=
  Cmd (version c) (opcode c) (flags c) (tag c) (pdu_len c) (cmd_crc16 c) x.

(** An entry of a client's [cmd_list]; [addr] is its address, which is the tag sent. *)
Record fio_net_cmd_reply := Reply { addr : Z; ts : Z; saved_tag : Z; reply_opcode : Z }.

(** An entry of the queue of a server, with the entries linked to its [next]. *)
Record sk_entry := Entry {
  e_flags : Z;
  e_opcode : Z;
  e_buf : list Z;
  e_size : Z;
  e_tag : Z;
}.

Definition SK_F_SIMPLE : Z := 4.
Definition SK_F_VEC : Z := 8.
Definition SK_F_INLINE : Z := 16.

(** * A host *)

Section Host.

(** [CONFIG_BIG_ENDIAN], the sizes that [malloc] and [realloc] can give, and what fresh
    memory contains. *)
Context (big_endian : bool) (can_alloc : Z -> bool) (junk : nat -> Z).

Definition cpu_to_le16 (x : Z) : Z := if big_endian then fio_swap16 x else x.
Definition cpu_to_le32 (x : Z) : Z := if big_endian then fio_swap32 x else x.
Definition cpu_to_le64 (x : Z) : Z := if big_endian then fio_swap64 x else x.
Definition le16_to_cpu (x : Z) : Z := if big_endian then fio_swap16 x else x.
Definition le32_to_cpu (x : Z) : Z := if big_endian then fio_swap32 x else x.
Definition le64_to_cpu (x : Z) : Z := if big_endian then fio_swap64 x else x.

(** An integer of [n] bytes in the memory of this host. *)
Definition host_bytes (n : nat) (z : Z) : list Z :=
  if big_endian then be_bytes n z else le_bytes n z.
Definition host_value (l : list Z) : Z := if big_endian then be_value l else le_value l.

(** A field of [n] bytes at [off] of a structure in memory. *)
Definition field (off n : Z) (mem : list Z) : option Z :=
  if off <? 0 then None
  else let* l := read_bytes n (drop (Z.to_nat off) mem) in Some (host_value l).

Definition fresh (n : Z) : list Z := map junk (seq 0 (Z.to_nat n)).

(** The layout of [struct fio_net_cmd], without its payload. *)
Definition cmd_bytes (c : fio_net_cmd) : list Z :=
  host_bytes 2 (version c) ++ host_bytes 2 (opcode c) ++ host_bytes 4 (flags c) ++
  host_bytes 8 (tag c) ++ host_bytes 4 (pdu_len c) ++
  host_bytes 2 (cmd_crc16 c) ++ host_bytes 2 (pdu_crc16 c).

Definition bytes_cmd (l : list Z) : option fio_net_cmd :=
  let* version := field 0 2 l in
  let* opcode := field 2 2 l in
  let* flags := field 4 4 l in
  let* tag := field 8 8 l in
  let* pdu_len := field 16 4 l in
  let* cmd_crc16 := field 20 2 l in
  let* pdu_crc16 := field 22 2 l in
  Some (Cmd version opcode flags tag pdu_len cmd_crc16 pdu_crc16).

(** ** Sending *)

Definition __fio_init_net_cmd (opcode pdu_len tag : Z) : fio_net_cmd :=
  Cmd (cpu_to_le16 FIO_SERVER_VER) (cpu_to_le16 opcode) 0 (cpu_to_le64 tag)
    (cpu_to_le32 pdu_len) 0 0.

(** [None] is the null pointer. *)
Definition fio_init_net_cmd (b : cmd_buf) (opcode : Z) (pdu : option (list Z)) (pdu_len tag : Z)
    : option cmd_buf :=
  let c := __fio_init_net_cmd opcode pdu_len tag in
  match pdu with
  | None => Some (Buf c (payload b))
  | Some pdu =>
      let* src := read_bytes pdu_len pdu in
      let* payload := memcpy (payload b) 0 src in
      Some (Buf c payload)
  end.

Definition fio_net_cmd_crc_pdu (c : fio_net_cmd) (pdu : list Z) : option fio_net_cmd :=
  let* head := read_bytes FIO_NET_CMD_CRC_SZ (cmd_bytes c) in
  let c := set_cmd_crc16 c (cpu_to_le16 (fio_crc16 head)) in
  let pdu_len := le32_to_cpu (pdu_len c) in
  let* body := read_bytes pdu_len pdu in
  Some (set_pdu_crc16 c (cpu_to_le16 (fio_crc16 body))).

Definition fio_net_cmd_crc (b : cmd_buf) : option cmd_buf :=
  let* c := fio_net_cmd_crc_pdu (cmd b) (payload b) in
  Some (Buf c (payload b)).

Definition fio_send_data (sk : socket) (p : list Z) (len : Z) : option (Z * socket) :=
  let* _ := c_assert (len <=? sizeof_cmd + FIO_SERVER_MAX_FRAGMENT_PDU) in
  let* data := read_bytes len p in
  let* '(ret, _, sk) := fio_sendv_data sk [data] 1 in
  Some (ret, sk).

(** The length of the next fragment. *)
Definition fragment_len (size : Z) : Z :=
  let this_len := wrap 64 size in
  if FIO_SERVER_MAX_FRAGMENT_PDU <? this_len then FIO_SERVER_MAX_FRAGMENT_PDU else this_len.

(** [malloc] of a command; the code does not look whether it fails. *)
Definition alloc_cmd (len : Z) : option cmd_buf :=
  let* _ := c_assert (can_alloc len) in
  Some (Buf (Cmd 0 0 0 0 0 0 0) (fresh (len - sizeof_cmd))).

Fixpoint send_loop (fuel : nat) (sk : socket) (opcode : Z) (buf : option (list Z)) (size tag : Z)
    (b : option cmd_buf) (cur_len : Z) : option (Z * socket) :=
  match fuel with
  | O => None
  | S fuel =>
      let this_len := fragment_len size in
      let* '(b, cur_len) :=
        match b with
        | Some b' => if cur_len <? sizeof_cmd + this_len then
                       let* b := alloc_cmd (sizeof_cmd + this_len) in
                       Some (b, sizeof_cmd + this_len)
                     else Some (b', cur_len)
        | None => let* b := alloc_cmd (sizeof_cmd + this_len) in
                  Some (b, sizeof_cmd + this_len)
        end in
      let* b := fio_init_net_cmd b opcode buf this_len tag in
      let b := if this_len <? wrap 64 size then
                 Buf (set_flags (cmd b) (cpu_to_le32 FIO_NET_CMD_F_MORE)) (payload b)
               else b in
      let* b := fio_net_cmd_crc b in
      let* '(ret, sk) := fio_send_data sk (cmd_bytes (cmd b) ++ payload b)
                           (sizeof_cmd + this_len) in
      let size := size - this_len in
      let buf := option_map (drop (Z.to_nat this_len)) buf in
      if (ret =? 0) && negb (size =? 0) then
        send_loop fuel sk opcode buf size tag (Some b) cur_len
      else Some (ret, sk)
  end.

(** The replies that are waited for.  The address that [calloc] gives and the time are
    arguments. *)
Definition alloc_reply (address now tag opcode : Z) : fio_net_cmd_reply :=
  Reply address now tag opcode.

Definition add_reply (reply : fio_net_cmd_reply) (list : list fio_net_cmd_reply)
    : Datatypes.list fio_net_cmd_reply := list ++ [reply].

(** With a list the tag is replaced by the address of a reply, which [*tagptr] gets too, and
    the reply is in the list when all is sent.  The result: the return value, the socket, and
    the tag and the list after the call. *)
Definition fio_net_send_cmd (sk : socket) (opcode : Z) (buf : option (list Z)) (size : Z)
    (tagptr : option Z) (list : option (list fio_net_cmd_reply)) (address now : Z)
    : option (Z * socket * option Z * option (Datatypes.list fio_net_cmd_reply)) :=
  let fuel := S (Z.to_nat (size / FIO_SERVER_MAX_FRAGMENT_PDU + 1)) in
  match list with
  | Some list =>
      let* tag := tagptr in
      let reply := alloc_reply address now tag opcode in
      let* '(ret, sk) := send_loop fuel sk opcode buf size (addr reply) None 0 in
      Some (ret, sk, Some (addr reply),
            Some (if ret =? 0 then add_reply reply list else list))
  | None =>
      let tag := match tagptr with Some tag => tag | None => 0 end in
      let* '(ret, sk) := send_loop fuel sk opcode buf size tag None 0 in
      Some (ret, sk, tagptr, None)
  end.

Definition fio_net_send_simple_stack_cmd (sk : socket) (opcode tag : Z) : option (Z * socket) :=
  let* b := fio_init_net_cmd (Buf (Cmd 0 0 0 0 0 0 0) []) opcode None 0 tag in
  let* b := fio_net_cmd_crc b in
  fio_send_data sk (cmd_bytes (cmd b)) sizeof_cmd.

Definition fio_net_send_simple_cmd (sk : socket) (opcode tag : Z)
    (list : option (list fio_net_cmd_reply)) (address now : Z)
    : option (Z * socket * option (Datatypes.list fio_net_cmd_reply)) :=
  match list with
  | Some list =>
      let reply := alloc_reply address now tag opcode in
      let* '(ret, sk) := fio_net_send_simple_stack_cmd sk opcode (addr reply) in
      Some (ret, sk, Some (if ret =? 0 then add_reply reply list else list))
  | None =>
      let* '(ret, sk) := fio_net_send_simple_stack_cmd sk opcode tag in
      Some (ret, sk, None)
  end.

(** ** Sending from a vector *)

(** The vector [iov] is set up once: its first element is what the last call of
    [fio_sendv_data] left of it. *)
Fixpoint ext_pdu_loop (fuel : nat) (sk : socket) (opcode : Z) (buf : list Z) (size tag flags : Z)
    (sent_of_cmd : Z) : option (Z * socket) :=
  match fuel with
  | O => None
  | S fuel =>
      let this_len := fragment_len size in
      let this_flags :=
        if this_len <? wrap 64 size then Z.lor flags FIO_NET_CMD_F_MORE else flags in
      let c := set_flags (__fio_init_net_cmd opcode this_len tag) (cpu_to_le32 this_flags) in
      let* c := fio_net_cmd_crc_pdu c buf in
      let* body := read_bytes this_len buf in
      let* '(ret, iov, sk) :=
        fio_sendv_data sk [drop (Z.to_nat sent_of_cmd) (cmd_bytes c); body] 2 in
      let* iov0 := arr_get iov 0 in
      let size := size - this_len in
      if (ret =? 0) && negb (size =? 0) then
        ext_pdu_loop fuel sk opcode (drop (Z.to_nat this_len) buf) size tag flags
          (sizeof_cmd - zlength iov0)
      else Some (ret, sk)
  end.

Definition fio_send_cmd_ext_pdu (sk : socket) (opcode : Z) (buf : list Z) (size tag flags : Z)
    : option (Z * socket) :=
  ext_pdu_loop (S (Z.to_nat (size / FIO_SERVER_MAX_FRAGMENT_PDU + 1))) sk opcode buf size tag
    flags 0.

(** An entry of the queue and the entries linked to it. *)
Definition entry_set_flags (list : list sk_entry) : Z :=
  match list with [] => 0 | _ => FIO_NET_CMD_F_MORE end.

Fixpoint send_vec_next (sk : socket) (next : list sk_entry) (ret : Z) : option (Z * socket) :=
  match next with
  | [] => Some (ret, sk)
  | e :: next =>
      let* '(r, sk) := fio_send_cmd_ext_pdu sk (e_opcode e) (e_buf e) (e_size e) (e_tag e)
                         (entry_set_flags next) in
      send_vec_next sk next (ret + r)
  end.

Definition send_vec_entry (sk : socket) (first : sk_entry) (next : list sk_entry)
    : option (Z * socket) :=
  let* '(ret, sk) := fio_send_cmd_ext_pdu sk (e_opcode first) (e_buf first) (e_size first)
                       (e_tag first) (entry_set_flags next) in
  send_vec_next sk next ret.

Definition handle_sk_entry (sk : socket) (entry : sk_entry * list sk_entry) : option (Z * socket) :=
  let e := fst entry in
  if c_true (Z.land (e_flags e) SK_F_VEC) then send_vec_entry sk e (snd entry)
  else if c_true (Z.land (e_flags e) SK_F_SIMPLE) then
    let* '(ret, sk, _) := fio_net_send_simple_cmd sk (e_opcode e) (e_tag e) None 0 0 in
    Some (ret, sk)
  else
    let* '(ret, sk, _, _) := fio_net_send_cmd sk (e_opcode e) (Some (e_buf e)) (e_size e)
                               (Some (e_tag e)) None 0 0 in
    Some (ret, sk).

(** ** Receiving *)

Definition verify_convert_cmd (c : fio_net_cmd) : option (Z * fio_net_cmd) :=
  let c := set_cmd_crc16 c (le16_to_cpu (cmd_crc16 c)) in
  let c := set_pdu_crc16 c (le16_to_cpu (pdu_crc16 c)) in
  let* head := read_bytes FIO_NET_CMD_CRC_SZ (cmd_bytes c) in
  if negb (fio_crc16 head =? cmd_crc16 c) then Some (1, c)
  else
    let c := Cmd (le16_to_cpu (version c)) (le16_to_cpu (opcode c)) (le32_to_cpu (flags c))
               (le64_to_cpu (tag c)) (le32_to_cpu (pdu_len c)) (cmd_crc16 c) (pdu_crc16 c) in
    if negb (version c =? FIO_SERVER_VER) then Some (1, c)
    else if FIO_SERVER_MAX_FRAGMENT_PDU <? pdu_len c then Some (1, c)
    else Some (0, c).

(** [realloc] to [cmd_size] bytes: the payload keeps its bytes. *)
Definition realloc_cmd (b : option cmd_buf) (cmd_size : Z) : option cmd_buf :=
  let n := cmd_size - sizeof_cmd in
  if can_alloc cmd_size then
    match b with
    | Some b =>
        let kept := take (Z.to_nat n) (payload b) in
        Some (Buf (cmd b) (kept ++ fresh (n - zlength kept)))
    | None => Some (Buf (Cmd 0 0 0 0 0 0 0) (fresh n))
    end
  else None.

(** One command, or fragment, of [fio_net_recv_cmd]: [inl] when the loop ends, with [ret];
    [inr] when more is to come. *)
Definition recv_end : Type := Z * option cmd_buf * socket.
Definition recv_more : Type := cmd_buf * Z * Z * socket.

Definition recv_payload (sk : socket) (wait : bool) (c : fio_net_cmd) (b : cmd_buf)
    (cmd_size pdu_offset : Z) (first : bool) : option (recv_end + recv_more) :=
  let* '(ret, data, sk) := fio_recv_data sk (pdu_len c) wait in
  let* pl := memcpy (payload b) pdu_offset data in
  let b := Buf (cmd b) pl in
  if negb (ret =? 0) then Some (inl (ret, Some b, sk))
  else
    let* pdu := read_bytes (pdu_len c) (drop (Z.to_nat pdu_offset) pl) in
    if negb (fio_crc16 pdu =? pdu_crc16 c) then Some (inl (1, Some b, sk))
    else
      let pdu_offset := addw 64 pdu_offset (pdu_len c) in
      let b := if first then b
               else Buf (set_pdu_len (cmd b) (addw 32 (pdu_len (cmd b)) (pdu_len c))) pl in
      if c_true (Z.land (flags c) FIO_NET_CMD_F_MORE) then
        Some (inr (b, cmd_size, pdu_offset, sk))
      else Some (inl (0, Some b, sk)).

Definition recv_one (sk : socket) (wait : bool) (cmdret : option cmd_buf)
    (cmd_size pdu_offset : Z) (first : bool) : option (recv_end + recv_more) :=
  let* '(ret, raw, sk) := fio_recv_data sk sizeof_cmd wait in
  if negb (ret =? 0) then Some (inl (ret, cmdret, sk))
  else
    let* c := bytes_cmd raw in
    let* '(ret, c) := verify_convert_cmd c in
    if negb (ret =? 0) then Some (inl (ret, cmdret, sk))
    else
      let* cmd_size :=
        if first then
          let* _ := c_assert (match cmdret with None => true | Some _ => false end) in
          Some (addw 64 (addw 64 sizeof_cmd (pdu_len c)) 1)
        else Some (addw 64 cmd_size (pdu_len c)) in
      if FIO_SERVER_MAX_CMD_MB * 1024 <? cmd_size / 1024 then Some (inl (1, cmdret, sk))
      else
        match realloc_cmd cmdret cmd_size with
        | None => Some (inl (1, cmdret, sk))
        | Some b =>
            let b := if first then Buf c (payload b) else b in
            if negb first && negb (opcode (cmd b) =? opcode c) then Some (inl (1, Some b, sk))
            else if pdu_len c =? 0 then Some (inl (0, Some b, sk))
            else recv_payload sk wait c b cmd_size pdu_offset first
        end.

Fixpoint recv_cmd_loop (fuel : nat) (sk : socket) (wait : bool) (cmdret : option cmd_buf)
    (cmd_size pdu_offset : Z) (first : bool) : option recv_end :=
  match fuel with
  | O => None
  | S fuel =>
      let* r := recv_one sk wait cmdret cmd_size pdu_offset first in
      match r with
      | inl done => Some done
      | inr (b, cmd_size, pdu_offset, sk) =>
          recv_cmd_loop fuel sk wait (Some b) cmd_size pdu_offset false
      end
  end.

(** [buf[len] = 0] for the text that begins at [off] of the payload. *)
Definition zero_terminate (b : cmd_buf) : option cmd_buf :=
  let text (buf_len off : Z) :=
    let* len := field buf_len 4 (payload b) in
    let* pl := arr_set (payload b) (off + as_int (le32_to_cpu len)) 0 in
    Some (Buf (cmd b) pl) in
  if pdu_len (cmd b) =? 0 then Some b
  else if opcode (cmd b) =? FIO_NET_CMD_TEXT then text 4 24
  else if opcode (cmd b) =? FIO_NET_CMD_JOB then text 0 8
  else Some b.

(** The command received, or [None] for the null pointer. *)
Definition fio_net_recv_cmd (sk : socket) (wait : bool) : option (option cmd_buf * socket) :=
  let* '(ret, cmdret, sk) := recv_cmd_loop (S (length (incoming sk))) sk wait None 0 0 true in
  if negb (ret =? 0) then Some (None, sk)
  else
    match cmdret with
    | None => Some (None, sk)
    | Some b =>
        let* b := zero_terminate b in
        Some (Some (Buf (set_flags (cmd b) (Z.land (flags (cmd b)) (notw 32 FIO_NET_CMD_F_MORE)))
                        (payload b)), sk)
    end.

End Host.

(** * The queue of a server

    [can_smalloc] are the sizes that the shared pool can give.  [xmits] is the list that
    [handle_xmits] has taken off the queue and not sent yet. *)

Section Queue.
Context (big_endian : bool) (can_alloc : Z -> bool) (can_smalloc : Z -> bool) (junk : nat -> Z).

Definition SK_F_COPY : Z := 2.
Definition sizeof_sk_entry : Z := 64.

(** The inner [None] is the null pointer.  The code does not look whether the copy could be
    allocated. *)
Definition fio_net_prep_cmd (opcode : Z) (buf : list Z) (size : Z) (tagptr : option Z) (flags : Z)
    : option (option sk_entry) :=
  if negb (can_smalloc sizeof_sk_entry) then Some None
  else
    let* data :=
      if c_true (Z.land flags SK_F_COPY) then
        let* _ := c_assert (can_smalloc size) in read_bytes size buf
      else Some buf in
    Some (Some (Entry flags opcode data size (match tagptr with Some tag => tag | None => 0 end))).

Record sk_out := SkOut {
  sk : socket;
  queue : list (sk_entry * list sk_entry);
  xmits : list (sk_entry * list sk_entry);
}.

(** An entry is queued with what is linked to it; with [SK_F_INLINE] it is sent at once. *)
Definition fio_net_queue_entry (s : sk_out) (entry : sk_entry * list sk_entry) : option sk_out :=
  if c_true (Z.land (e_flags (fst entry)) SK_F_INLINE) then
    let* '(_, sk') := handle_sk_entry big_endian can_alloc junk (sk s) entry in
    Some (SkOut sk' (queue s) (xmits s))
  else Some (SkOut (sk s) (queue s ++ [entry]) (xmits s)).

Definition fio_net_queue_cmd (s : sk_out) (opcode : Z) (buf : list Z) (size : Z)
    (tagptr : option Z) (flags : Z) : option (Z * sk_out) :=
  let* entry := fio_net_prep_cmd opcode buf size tagptr flags in
  match entry with
  | Some entry => let* s := fio_net_queue_entry s (entry, []) in Some (0, s)
  | None => Some (1, s)
  end.

(** [handle_xmits] in the pieces that other threads can come between: the queue is taken over
    under its lock, and each entry is sent under another. *)
Definition splice_xmits (s : sk_out) : sk_out := SkOut (sk s) [] (xmits s ++ queue s).

Definition xmit_one (s : sk_out) : option (Z * sk_out) :=
  match xmits s with
  | [] => None
  | entry :: l =>
      let* '(ret, sk') := handle_sk_entry big_endian can_alloc junk (sk s) entry in
      Some (ret, SkOut sk' (queue s) l)
  end.

Fixpoint xmit_loop (fuel : nat) (s : sk_out) (ret : Z) : option (Z * sk_out) :=
  match xmits s with
  | [] => Some (ret, s)
  | _ =>
      match fuel with
      | O => None
      | S fuel => let* '(r, s) := xmit_one s in xmit_loop fuel s (ret + r)
      end
  end.

Definition handle_xmits (s : sk_out) : option (Z * sk_out) :=
  match queue s with
  | [] => Some (0, s)
  | _ => let s := splice_xmits s in xmit_loop (length (xmits s)) s 0
  end.

(** The text that [fio_server_text_output] queues: [struct cmd_text_pdu], then the text. *)
Definition text_pdu (level sec usec : Z) (buf : list Z) : list Z :=
  host_bytes big_endian 4 (cpu_to_le32 big_endian level) ++
  host_bytes big_endian 4 (cpu_to_le32 big_endian (wrap 32 (zlength buf))) ++
  host_bytes big_endian 8 (cpu_to_le64 big_endian sec) ++
  host_bytes big_endian 8 (cpu_to_le64 big_endian usec) ++ buf.

Definition fio_server_text_output (s : sk_out) (level sec usec : Z) (buf : list Z)
    : option (Z * sk_out) :=
  let tlen := wrap 32 (24 + zlength buf) in
  let* _ := c_assert (can_alloc tlen) in
  let* _ := c_assert (24 + zlength buf <=? tlen) in
  let* '(_, s) := fio_net_queue_cmd s FIO_NET_CMD_TEXT (text_pdu level sec usec buf) tlen None SK_F_COPY in
  Some (zlength buf, s).

End Queue.

(** * Replies (client.c) *)

(** The reply that is at the address of the tag is taken off the list, and the command gets the
    tag that was saved; [None] when there is none. *)
Fixpoint remove_reply_cmd (cmd_list : list fio_net_cmd_reply) (c : fio_net_cmd)
    : option (list fio_net_cmd_reply * fio_net_cmd) :=
  match cmd_list with
  | [] => None
  | reply :: l =>
      if tag c =? addr reply then Some (l, set_tag c (saved_tag reply))
      else match remove_reply_cmd l c with
           | Some (l, c) => Some (reply :: l, c)
           | None => None
           end
  end.

(** * Command lines (client.c, server.c) *)

Section JobLine.
Context (big_endian : bool) (junk : nat -> Z).

(** A C string with its end. *)
Definition arg_len (arg : list Z) : Z := wrap 32 (zlength arg + 1).

Fixpoint put_args (pdu : list Z) (offset : Z) (argv : list (list Z)) : option (list Z) :=
  match argv with
  | [] => Some pdu
  | arg :: argv =>
      let len16 := wrap 16 (arg_len arg) in
      let* pdu := memcpy pdu (offset + 2) (arg ++ [0]) in
      let* pdu := memcpy pdu offset (host_bytes big_endian 2 (cpu_to_le16 big_endian len16)) in
      put_args pdu (offset + 2 + len16) argv
  end.

(** The payload that [send_client_cmd_line] builds: [struct cmd_line_pdu], then for each
    argument its length and its text. *)
Definition cmd_line_pdu (argv : list (list Z)) (client_type : Z) : option (list Z) :=
  let mem := fold_right Z.add 0 (map arg_len argv) + 4 + zlength argv * 2 in
  let pdu := fresh junk mem in
  let* pdu := put_args pdu 4 argv in
  let* pdu := memcpy pdu 0 (host_bytes big_endian 2 (cpu_to_le16 big_endian (wrap 16 (zlength argv)))) in
  memcpy pdu 2 (host_bytes big_endian 2 (cpu_to_le16 big_endian (wrap 16 client_type))).

(** The string at [off], up to its end. *)
Fixpoint c_string (l : list Z) : option (list Z) :=
  match l with
  | [] => None
  | b :: l => if b =? 0 then Some [] else let* s := c_string l in Some (b :: s)
  end.

Fixpoint get_args (lines : nat) (pdu : list Z) (offset : Z) : option (list (list Z)) :=
  match lines with
  | O => Some []
  | S lines =>
      let* len := field big_endian offset 2 pdu in
      let* text := c_string (drop (Z.to_nat (offset + 2)) pdu) in
      let* argv := get_args lines pdu (offset + 2 + le16_to_cpu big_endian len) in
      Some (text :: argv)
  end.

(** The arguments and the type that [handle_jobline_cmd] parses. *)
Definition handle_jobline_cmd (pdu : list Z) : option (list (list Z) * Z) :=
  let* lines := field big_endian 0 2 pdu in
  let* client_type := field big_endian 2 2 pdu in
  let* argv := get_args (Z.to_nat (le16_to_cpu big_endian lines)) pdu 4 in
  Some (argv, le16_to_cpu big_endian client_type).

End JobLine.
