(* ===== verification/NetWire.v ===== *)
(** The commands of Net on the wire: frames with two checksums, whatever the byte order of
    the hosts, and what the sending functions write. *)
From S2P Require Import Prelude Stream Crc Net.

Lemma crc16_word l : is_bytes l -> is_word 16 (fio_crc16 l).
Proof.
  intros Hl. destruct crc_steps_detect as (H & _). eapply fold_detects_range; [done..|]. done.
Qed.

#[local] Opaque fio_crc16.

(** * Proofs: byte orders *)

Lemma lor_byte b x : is_word 8 b -> 0 <= x -> b + 256 * x = Z.lor b (Z.shiftl x 8).
Proof.
  intros Hb Hx. rewrite Z.shiftl_mul_pow2 by lia. change (2 ^ 8) with 256. rewrite (Z.mul_comm x).
  assert (Z.land b (256 * x) = 0) as H0.
  { apply Z.bits_inj'. intros i Hi. rewrite Z.land_spec, Z.bits_0.
    destruct (Z.lt_ge_cases i 8).
    - rewrite (Z.mul_comm 256). change 256 with (2 ^ 8). rewrite Z.mul_pow2_bits_low by lia.
      apply andb_false_r.
    - by rewrite (is_word_bits 8) by (done || lia). }
  rewrite Z.add_nocarry_lxor by done. by apply Z.lxor_lor.
Qed.

Lemma shlw_lor w a b n : 0 <= w -> 0 <= n -> shlw w (Z.lor a b) n = Z.lor (shlw w a n) (shlw w b n).
Proof.
  intros Hw Hn. apply Z.bits_inj'. intros i Hi.
  rewrite Z.lor_spec, !shlw_bits, Z.lor_spec by lia. by destruct (Z.testbit a _), (Z.testbit b _), (n <=? i), (i <? w).
Qed.

Lemma swap16_lor a b : fio_swap16 (Z.lor a b) = Z.lor (fio_swap16 a) (fio_swap16 b).
Proof.
  unfold fio_swap16. rewrite shlw_lor, Z.shiftr_lor by lia.
  apply Z.bits_inj'. intros i Hi. rewrite !Z.lor_spec. btauto.
Qed.

Lemma swap32_lor a b : fio_swap32 (Z.lor a b) = Z.lor (fio_swap32 a) (fio_swap32 b).
Proof.
  unfold fio_swap32. rewrite !Z.land_lor_distr_l, !Z.shiftr_lor, !shlw_lor, !Z.shiftr_lor by lia.
  apply Z.bits_inj'. intros i Hi. rewrite !Z.lor_spec. btauto.
Qed.

Lemma swap64_lor a b : fio_swap64 (Z.lor a b) = Z.lor (fio_swap64 a) (fio_swap64 b).
Proof.
  unfold fio_swap64.
  repeat (rewrite ?Z.land_lor_distr_l, ?Z.shiftr_lor, ?shlw_lor by lia).
  apply Z.bits_inj'. intros i Hi. rewrite !Z.lor_spec. btauto.
Qed.

(** A function of words of [n] bytes that is additive and moves each byte to the mirrored
    place. *)
Definition mirrors (swap : Z -> Z) (n : nat) : bool :=
  forallb (fun i => forallb (fun b =>
    swap (Z.shiftl (Z.of_nat b) (8 * Z.of_nat i)) =?
    Z.shiftl (Z.of_nat b) (8 * (Z.of_nat n - 1 - Z.of_nat i))) (seq 0 256)) (seq 0 n).

Lemma mirrors_byte swap n i b : mirrors swap n = true -> (i < n)%nat -> is_word 8 b ->
  swap (Z.shiftl b (8 * Z.of_nat i)) = Z.shiftl b (8 * (Z.of_nat n - 1 - Z.of_nat i)).
Proof.
  intros H Hi Hb. unfold mirrors in H. rewrite forallb_forall in H.
  specialize (H i ltac:(apply in_seq; lia)). apply (forallb_byte _ b) in H; [|done].
  apply Z.eqb_eq in H. by rewrite Z2Nat.id in H by (unfold is_word in Hb; lia).
Qed.

Lemma le_value_nonneg l : is_bytes l -> 0 <= le_value l.
Proof.
  induction 1 as [|b l Hb Hl IH]; cbn [le_value]; [lia|]. unfold is_word in Hb. lia.
Qed.

Lemma le_value_app l b : le_value (l ++ [b]) = le_value l + 256 ^ Z.of_nat (length l) * b.
Proof.
  induction l as [|c l IH]; cbn [le_value app length]; [lia|].
  rewrite IH, Nat2Z.inj_succ, Z.pow_succ_r by lia. ring.
Qed.

Lemma shiftl_lor_byte b x k : is_word 8 b -> 0 <= x -> 0 <= k ->
  Z.shiftl (b + 256 * x) k = Z.lor (Z.shiftl b k) (Z.shiftl x (8 + k)).
Proof. intros. by rewrite lor_byte, Z.shiftl_lor, Z.shiftl_shiftl by (done || lia). Qed.

(** Swapping the little-endian value of some bytes, from place [k] on. *)
Lemma swap_rest swap n : mirrors swap n = true -> swap 0 = 0 ->
  (forall a b, swap (Z.lor a b) = Z.lor (swap a) (swap b)) ->
  forall l k, is_bytes l -> (k + length l = n)%nat ->
  swap (Z.shiftl (le_value l) (8 * Z.of_nat k)) = be_value l.
Proof.
  intros Hm H0 Hl. unfold be_value. induction l as [|b l IH]; intros k Hb Hk.
  { cbn. by rewrite Z.shiftl_0_l. }
  apply Forall_cons_1 in Hb as [Hb Hr]. cbn [length] in Hk. cbn [le_value rev].
  pose proof (le_value_nonneg l Hr) as Hn.
  rewrite shiftl_lor_byte by (done || lia). rewrite Hl, (mirrors_byte swap n) by (done || lia).
  replace (8 + 8 * Z.of_nat k) with (8 * Z.of_nat (S k)) by lia. rewrite IH by (done || lia).
  rewrite le_value_app, length_rev. replace (8 * (Z.of_nat n - 1 - Z.of_nat k)) with (8 * Z.of_nat (length l)) by lia.
  assert (is_bytes (rev l)) as Hrr by by apply Forall_rev.
  rewrite Z.lor_comm, Z.shiftl_mul_pow2 by lia.
  rewrite <- Z.lxor_lor, <- Z.add_nocarry_lxor; [rewrite Z.pow_mul_r by lia; change (2 ^ 8) with 256; ring|..].
  all: apply Z.bits_inj'; intros i Hi; rewrite Z.land_spec, Z.bits_0.
  all: destruct (Z.lt_ge_cases i (8 * Z.of_nat (length l)));
    [rewrite Z.mul_pow2_bits_low by lia; apply andb_false_r|].
  all: rewrite (is_word_bits (8 * Z.of_nat (length l)) (le_value (rev l))); [done|split; [by apply le_value_nonneg|]|lia].
  all: rewrite <- (length_rev l); clear -Hrr; induction Hrr as [|c r Hc Hr IH]; cbn [le_value length]; [lia|].
  all: rewrite Nat2Z.inj_succ, Z.mul_succ_r, Z.pow_add_r by lia; unfold is_word in Hc; lia.
Qed.

Lemma be_value_rev l : be_value (rev l) = le_value l.
Proof. unfold be_value. by rewrite rev_involutive. Qed.

(** The swaps turn the value of bytes in one order into that in the other. *)
Record swaps (swap : Z -> Z) (n : nat) : Prop := {
  swap_le l : is_bytes l -> length l = n -> swap (le_value l) = be_value l;
  swap_be l : is_bytes l -> length l = n -> swap (be_value l) = le_value l;
}.

Lemma swaps_intro swap n : mirrors swap n = true -> swap 0 = 0 ->
  (forall a b, swap (Z.lor a b) = Z.lor (swap a) (swap b)) -> swaps swap n.
Proof.
  intros Hm H0 Hl.
  assert (forall l, is_bytes l -> length l = n -> swap (le_value l) = be_value l) as H.
  { intros l Hb Hn. pose proof (swap_rest swap n Hm H0 Hl l 0 Hb Hn) as E. by rewrite Z.shiftl_0_r in E. }
  split; [done|]. intros l Hb Hn. unfold be_value at 1.
  rewrite H by (rewrite ?length_rev; done || by apply Forall_rev). apply be_value_rev.
Qed.

Lemma swaps16 : swaps fio_swap16 2.
Proof. apply swaps_intro; [by vm_compute|done|apply swap16_lor]. Qed.
Lemma swaps32 : swaps fio_swap32 4.
Proof. apply swaps_intro; [by vm_compute|done|apply swap32_lor]. Qed.
Lemma swaps64 : swaps fio_swap64 8.
Proof. apply swaps_intro; [by vm_compute|done|apply swap64_lor]. Qed.

Lemma le_bytes_value l : is_bytes l -> le_bytes (length l) (le_value l) = l.
Proof.
  induction 1 as [|b l Hb Hl IH]; cbn [le_value length le_bytes]; [done|]. unfold is_word in Hb. change (2 ^ 8) with 256 in Hb.
  rewrite (Z.mul_comm 256), Z.mod_add, Z.mod_small by lia. rewrite Z.div_add, Z.div_small, Z.add_0_l by lia. by rewrite IH.
Qed.

Section Orders.
Context (big : bool).

(** A host stores the value it gets by [cpu_to_le] in the order of the wire. *)
Lemma host_le swap n v : swaps swap n -> 0 <= v < 2 ^ (8 * Z.of_nat n) ->
  host_bytes big n (if big then swap v else v) = le_bytes n v.
Proof.
  intros [H1 H2] Hv. unfold host_bytes. destruct big; [|done].
  rewrite <- (Z.mod_small v (2 ^ (8 * Z.of_nat n))) at 1 by done. rewrite <- le_value_bytes.
  rewrite H1 by (apply le_bytes_bytes || apply le_bytes_length).
  unfold be_bytes, be_value.
  pose proof (le_bytes_value (rev (le_bytes n v)) ltac:(apply Forall_rev, le_bytes_bytes)) as E.
  rewrite length_rev, le_bytes_length in E. rewrite E. apply rev_involutive.
Qed.

Lemma le_host swap n l : swaps swap n -> is_bytes l -> length l = n ->
  (if big then swap (host_value big l) else host_value big l) = le_value l.
Proof. intros [H1 H2] Hb Hl. unfold host_value. destruct big; [by apply H2|done]. Qed.

Lemma host_bytes_length n v : length (host_bytes big n v) = n.
Proof. unfold host_bytes. destruct big; [apply be_bytes_length|apply le_bytes_length]. Qed.

Lemma host_bytes_value l : is_bytes l -> host_bytes big (length l) (host_value big l) = l.
Proof.
  intros Hl. unfold host_bytes, host_value. destruct big; [|by apply le_bytes_value].
  unfold be_bytes, be_value. rewrite <- (length_rev l), le_bytes_value by by apply Forall_rev.
  apply rev_involutive.
Qed.

End Orders.

(** * Proofs: sockets *)

(** Sockets whose calls are interrupted or move little, but do not fail, with nobody asking
    the program to end. *)
Definition gentle (l : list (answer * bool)) : Prop :=
  Forall (fun a => snd a = false /\ fst a <> Fails ENOTCONN) l.

#[global] Instance errno_eq_dec : EqDecision errno.
Proof. solve_decision. Defined.
#[global] Instance answer_eq_dec : EqDecision answer.
Proof. solve_decision. Defined.
#[global] Instance gentle_dec l : Decision (gentle l).
Proof. unfold gentle. apply _. Defined.

(** [wrote sk l sk']: from [sk] to [sk'] the bytes [l] were sent. *)
Record wrote (sk : socket) (l : list Z) (sk' : socket) : Prop := {
  wrote_in : incoming sk' = incoming sk;
  wrote_reads : reads sk' = reads sk;
  wrote_out : outgoing sk' = outgoing sk ++ l;
  wrote_writes : exists k, writes sk' = drop k (writes sk);
}.

(** [took sk l sk']: the bytes [l] were received. *)
Record took (sk : socket) (l : list Z) (sk' : socket) : Prop := {
  took_in : incoming sk = l ++ incoming sk';
  took_reads : exists k, reads sk' = drop k (reads sk);
  took_out : outgoing sk' = outgoing sk;
  took_writes : writes sk' = writes sk;
}.

Lemma wrote_nil sk : wrote sk [] sk.
Proof. split; try done; [by rewrite app_nil_r|by exists 0%nat]. Qed.

Lemma wrote_app sk1 l1 sk2 l2 sk3 : wrote sk1 l1 sk2 -> wrote sk2 l2 sk3 -> wrote sk1 (l1 ++ l2) sk3.
Proof.
  intros [A1 A2 A3 [k A4]] [B1 B2 B3 [k' B4]]. split; [congruence..| |].
  - by rewrite B3, A3, app_assoc.
  - exists (k + k')%nat. by rewrite B4, A4, drop_drop.
Qed.

Lemma took_nil sk : took sk [] sk.
Proof. split; try done. by exists 0%nat. Qed.

Lemma took_app sk1 l1 sk2 l2 sk3 : took sk1 l1 sk2 -> took sk2 l2 sk3 -> took sk1 (l1 ++ l2) sk3.
Proof.
  intros [A1 [k A2] A3 A4] [B1 [k' B2] B3 B4]. split; [|..|congruence|congruence].
  - by rewrite A1, B1, app_assoc.
  - exists (k + k')%nat. by rewrite B2, A2, drop_drop.
Qed.

Lemma wrote_gentle sk l sk' : wrote sk l sk' -> gentle (writes sk) -> gentle (writes sk').
Proof. intros [_ _ _ [k E]] H. rewrite E. by apply Forall_drop. Qed.

Lemma took_gentle sk l sk' : took sk l sk' -> gentle (reads sk) -> gentle (reads sk').
Proof. intros [_ [k E] _ _] H. rewrite E. by apply Forall_drop. Qed.

Lemma took_length sk l sk' : took sk l sk' ->
  (length (reads sk') + length (incoming sk') <= length (reads sk) + length (incoming sk))%nat.
Proof.
  intros [E [k Ek] _ _]. rewrite E, Ek, length_app, length_drop. lia.
Qed.

Lemma moved_split n {A} (l : list A) : l <> [] -> exists a b, l = a ++ b /\ moved n l = a /\ a <> [].
Proof.
  intros Hl. exists (moved n l), (drop (Z.to_nat (Z.max n 1)) l). unfold moved.
  split_and!; [by rewrite take_drop|done|]. destruct l; [done|].
  destruct (Z.to_nat (Z.max n 1)) eqn:E; [lia|done].
Qed.

Lemma zlength_pos {A} (l : list A) : l <> [] -> 0 < zlength l.
Proof. unfold zlength. destruct l; cbn; [done|lia]. Qed.

(** ** Sending one buffer *)

Lemma iov_at_one v : iov_at [v] 0 1 = Some [v].
Proof. done. Qed.

Lemma iov_skip_one v b : v <> [] -> b <> [] -> iov_skip 3 [v ++ b] 0 (zlength v) = Some ([b], 0).
Proof.
  intros Hv Hb. pose proof (zlength_pos v Hv). pose proof (zlength_pos b Hb).
  cbn [iov_skip]. assert ((zlength v =? 0) = false) as -> by lia.
  change (arr_get [v ++ b] 0) with (Some (v ++ b)). cbn [mbind option_bind]. rewrite zlength_app.
  assert ((zlength v + zlength b <=? zlength v) = false) as -> by lia.
  unfold zlength. by rewrite Nat2Z.id, drop_app_length.
Qed.

(** A call for one buffer: nothing, a part or all of it is sent. *)
Lemma writev_spec sk v ret exits sk' : writev sk [v] = (ret, exits, sk') -> v <> [] ->
  (exists a b, ret = inl (zlength a) /\ v = a ++ b /\ a <> [] /\ wrote sk a sk' /\
     (b = [] \/ (length (writes sk') < length (writes sk))%nat)) \/
  (exists e, ret = inr e /\ wrote sk [] sk' /\ (length (writes sk') < length (writes sk))%nat /\
     (gentle (writes sk) -> retry e = true)).
Proof.
  intros H Hv. unfold writev in H. cbn [concat] in H. rewrite app_nil_r in H.
  destruct (writes sk) as [|[[n|e] x] w] eqn:Ew; injection H as <- <- <-.
  - left. exists v, []. rewrite app_nil_r. split_and!; try done; [|by left].
    split; try done. by exists 0%nat.
  - left. destruct (moved_split n v Hv) as (a & b & Ev & -> & Ha). exists a, b. split_and!; try done.
    + split; try done. by exists 1%nat; rewrite Ew.
    + right. cbn. lia.
  - right. exists e. split_and!; try done.
    + split; try done. by exists 1%nat; rewrite Ew.
    + cbn. lia.
    + intros Hg. apply Forall_cons_1 in Hg as [[_ Hg] _]. by destruct e.
Qed.

Lemma writev_exits sk l ret exits sk' : writev sk l = (ret, exits, sk') -> gentle (writes sk) -> exits = false.
Proof.
  intros H Hg. unfold writev in H. destruct (writes sk) as [|[[n|e] x] w]; injection H as <- <- <-; try done.
  all: by apply Forall_cons_1 in Hg as [[Hg _] _].
Qed.

(** What became of [data]: [left] was not sent; on a gentle socket all is. *)
Definition sent_as (sk : socket) (data : list Z) (ret : Z) (sk' : socket) : Prop :=
  exists sent left, data = sent ++ left /\ wrote sk sent sk' /\
    (ret = 0 /\ left = [] \/ ret = 1 /\ left <> []) /\ (gentle (writes sk) -> ret = 0).

Lemma sent_as_app sk1 a sk2 b ret sk3 : wrote sk1 a sk2 -> sent_as sk2 b ret sk3 -> sent_as sk1 (a ++ b) ret sk3.
Proof.
  intros Hw (s & l & -> & Hs & Hr & Hg). exists (a ++ s), l. split_and!; [by rewrite app_assoc|by eapply wrote_app|done|].
  intros H. by eapply Hg, wrote_gentle.
Qed.

Lemma sendv_done_some (l : list Z) : l <> [] -> sendv_done (zlength l) = 1.
Proof. intros H%zlength_pos. unfold sendv_done. zcases; [lia|done]. Qed.

Lemma sendv_loop_spec fuel : forall sk v, v <> [] -> (length (writes sk) < fuel)%nat ->
  exists ret iov sk', sendv_loop fuel sk [v] 0 1 (zlength v) = Some (ret, iov, sk') /\ sent_as sk v ret sk'.
Proof.
  induction fuel as [|fuel IH]; intros sk v Hv Hf; [lia|]. cbn [sendv_loop].
  rewrite iov_at_one. cbn [mbind option_bind]. destruct (writev sk [v]) as [[ret exits] sk'] eqn:E.
  pose proof (writev_exits _ _ _ _ _ E) as Hx.
  destruct (writev_spec _ _ _ _ _ E Hv) as [(a & b & -> & -> & Ha & Hw & Hb)|(e & -> & Hw & Hl & He)].
  - pose proof (zlength_pos a Ha). assert ((0 <? zlength a) = true) as -> by lia. rewrite zlength_app.
    destruct (Z.eqb_spec (zlength a + zlength b - zlength a) 0) as [E0|E0].
    { assert (b = []) as -> by (destruct b; [done|pose proof (zlength_pos (z :: b) ltac:(done)); lia]).
      do 3 eexists. split; [done|]. exists a, []. rewrite ?app_nil_r. split_and!; try done; by left. }
    assert (b <> []) as Hnb by (intros ->; unfold zlength in *; cbn in *; lia).
    destruct Hb as [->|Hb]; [done|]. cbn [length]. rewrite (iov_skip_one a b) by done. cbn [mbind option_bind].
    replace (zlength a + zlength b - zlength a) with (zlength b) by lia.
    destruct exits.
    + do 3 eexists. split; [done|]. rewrite sendv_done_some by done. exists a, b. split_and!; try done; [by right|].
      intros Hg. by specialize (Hx Hg).
    + destruct (IH sk' b Hnb ltac:(lia)) as (r & iov & sk2 & -> & Hs). do 3 eexists. split; [done|].
      by eapply sent_as_app.
  - destruct (retry e && negb exits) eqn:Er.
    + destruct (IH sk' v Hv ltac:(lia)) as (r & iov & sk2 & -> & Hs). do 3 eexists. split; [done|].
      by apply (sent_as_app _ [] sk').
    + do 3 eexists. split; [done|]. rewrite sendv_done_some by done. exists [], v. split_and!; try done; [by right|].
      intros Hg. rewrite (He Hg), (Hx Hg) in Er. done.
Qed.

Lemma fio_send_data_spec sk data len : 0 < len <= 1048 -> len <= zlength data ->
  exists ret sk', fio_send_data sk data len = Some (ret, sk') /\ sent_as sk (take (Z.to_nat len) data) ret sk'.
Proof.
  intros Hl Hd. unfold fio_send_data, c_assert, sizeof_cmd, FIO_SERVER_MAX_FRAGMENT_PDU. zcases; [|lia]. cbn [mbind option_bind].
  rewrite read_bytes_Some by lia. cbn [mbind option_bind].
  assert (take (Z.to_nat len) data <> []) as Hne.
  { unfold zlength in Hd. destruct data; [cbn in Hd; lia|]. destruct (Z.to_nat len) eqn:E; [lia|done]. }
  unfold fio_sendv_data. rewrite iov_at_one. cbn [mbind option_bind]. unfold iov_total_len. cbn [concat]. rewrite app_nil_r.
  destruct (sendv_loop_spec (S (length (writes sk))) sk _ Hne ltac:(lia)) as (ret & iov & sk' & -> & Hs).
  do 2 eexists. by split.
Qed.

(** * Frames

    The fragment of a command on the wire, every field little-endian. *)

Definition head (op fl tg len : Z) : list Z :=
  le_bytes 2 FIO_SERVER_VER ++ le_bytes 2 op ++ le_bytes 4 fl ++ le_bytes 8 tg ++ le_bytes 4 len.

Definition header (op fl tg len crc : Z) : list Z :=
  head op fl tg len ++ le_bytes 2 (fio_crc16 (head op fl tg len)) ++ le_bytes 2 crc.

Definition frame (op fl tg : Z) (chunk : list Z) : list Z :=
  header op fl tg (zlength chunk) (fio_crc16 chunk) ++ chunk.

(** The fragments of one command, each with its tag: all but the last one say that more is to
    come.  [fl] are the flags of the last one. *)
Fixpoint frames (op fl : Z) (l : list (Z * list Z)) : list Z :=
  match l with
  | [] => []
  | [(tg, chunk)] => frame op fl tg chunk
  | (tg, chunk) :: l => frame op FIO_NET_CMD_F_MORE tg chunk ++ frames op fl l
  end.

(** A buffer cut into fragments. *)
Fixpoint pieces (fuel : nat) (l : list Z) : list (list Z) :=
  match fuel with
  | O => [l]
  | S fuel => if zlength l <=? FIO_SERVER_MAX_FRAGMENT_PDU then [l]
              else take 1024 l :: pieces fuel (drop 1024 l)
  end.

Definition chunks (l : list Z) : list (list Z) := pieces (length l) l.

(** The bytes that a command with this payload is on the wire. *)
Definition wire (op tg : Z) (buf : list Z) : list Z := frames op 0 (map (pair tg) (chunks buf)).

Lemma frames_cons op fl t c l : l <> [] ->
  frames op fl ((t, c) :: l) = frame op FIO_NET_CMD_F_MORE t c ++ frames op fl l.
Proof. by destruct l as [|x l]. Qed.

Lemma pieces_not_nil n l : pieces n l <> [].
Proof. destruct n; cbn; [done|]. by destruct (_ <=? _). Qed.

Lemma pieces_fuel n : forall m l, (length l <= n)%nat -> (length l <= m)%nat -> pieces n l = pieces m l.
Proof.
  assert (forall l : list Z, (length l = 0)%nat -> (zlength l <=? FIO_SERVER_MAX_FRAGMENT_PDU) = true) as H0.
  { intros [|] H; done. }
  induction n as [|n IH]; intros [|m] l Hn Hm; cbn [pieces]; try done.
  - by rewrite H0 by lia.
  - by rewrite H0 by lia.
  - destruct (zlength l <=? FIO_SERVER_MAX_FRAGMENT_PDU) eqn:E; [done|]. f_equal.
    unfold FIO_SERVER_MAX_FRAGMENT_PDU, zlength in E. apply IH; rewrite length_drop; lia.
Qed.

Lemma chunks_small l : zlength l <= 1024 -> chunks l = [l].
Proof.
  intros H. unfold chunks. destruct (length l) eqn:E; cbn [pieces]; [done|].
  unfold FIO_SERVER_MAX_FRAGMENT_PDU. by destruct (Z.leb_spec (zlength l) 1024); [|lia].
Qed.

Lemma chunks_large l : 1024 < zlength l -> chunks l = take 1024 l :: chunks (drop 1024 l).
Proof.
  intros H. unfold chunks, zlength in *. destruct (length l) as [|n] eqn:E; [lia|]. cbn [pieces].
  unfold FIO_SERVER_MAX_FRAGMENT_PDU, zlength. rewrite E.
  destruct (Z.leb_spec (Z.of_nat (S n)) 1024); [lia|]. f_equal. apply pieces_fuel; rewrite length_drop; lia.
Qed.

(** Induction over the fragments of a buffer. *)
Lemma chunks_ind (P : list Z -> Prop) : (forall l, zlength l <= 1024 -> P l) ->
  (forall l, 1024 < zlength l -> P (drop 1024 l) -> P l) -> forall l, P l.
Proof.
  intros Hs Hl l. remember (length l) as n eqn:E. revert l E.
  induction (lt_wf n) as [n _ IH]. intros l ->. destruct (Z.le_gt_cases (zlength l) 1024); [by apply Hs|].
  apply Hl; [lia|]. eapply IH; [|done]. unfold zlength in *. rewrite length_drop. lia.
Qed.

Lemma chunks_concat l : concat (chunks l) = l.
Proof.
  induction l as [l Hl|l Hl IH] using chunks_ind.
  - rewrite chunks_small by done. cbn. by rewrite app_nil_r.
  - rewrite chunks_large by done. cbn [concat]. by rewrite IH, take_drop.
Qed.

Lemma chunks_not_nil l : chunks l <> [].
Proof. apply pieces_not_nil. Qed.

Lemma chunks_bounded l : Forall (fun c => zlength c <= 1024) (chunks l).
Proof.
  induction l as [l Hl|l Hl IH] using chunks_ind.
  - rewrite chunks_small by done. by constructor.
  - rewrite chunks_large by done. constructor; [|done]. unfold zlength. rewrite length_take. lia.
Qed.

Lemma chunks_full l : forall a c d, chunks l = a ++ c :: d -> d <> [] -> c <> [].
Proof.
  induction l as [l Hl|l Hl IH] using chunks_ind; intros a c d E Hd.
  - rewrite chunks_small in E by done. destruct a as [|? [|]]; injection E as; by subst.
  - rewrite chunks_large in E by done. destruct a as [|x a].
    + injection E as <- _. unfold zlength in Hl. by destruct l.
    + injection E as _ E. by eapply IH.
Qed.

Lemma head_length op fl tg len : length (head op fl tg len) = 20%nat.
Proof. unfold head. by rewrite !length_app, !le_bytes_length. Qed.

Lemma command_header_length op fl tg len crc : length (header op fl tg len crc) = 24%nat.
Proof. unfold header. by rewrite !length_app, head_length, !le_bytes_length. Qed.

Lemma head_bytes op fl tg len : is_bytes (head op fl tg len).
Proof. unfold head, is_bytes. rewrite !Forall_app. split_and!; apply le_bytes_bytes. Qed.

Lemma header_bytes op fl tg len crc : is_bytes (header op fl tg len crc).
Proof.
  unfold header, is_bytes. rewrite !Forall_app. split_and!; try apply le_bytes_bytes. apply head_bytes.
Qed.

(** ** Building a header *)

Lemma swap_swap swap n v : swaps swap n -> 0 <= v < 2 ^ (8 * Z.of_nat n) -> swap (swap v) = v.
Proof.
  intros [H1 H2] Hv. rewrite <- (Z.mod_small v (2 ^ (8 * Z.of_nat n))) by done. rewrite <- le_value_bytes.
  rewrite H1 by (apply le_bytes_bytes || apply le_bytes_length).
  apply H2; [apply le_bytes_bytes|apply le_bytes_length].
Qed.

Section Headers.
Context (big : bool).

Lemma le16_back v : is_word 16 v -> le16_to_cpu big (cpu_to_le16 big v) = v.
Proof. intros. unfold le16_to_cpu, cpu_to_le16. destruct big; [|done]. by apply (swap_swap _ 2); [apply swaps16|]. Qed.

Lemma le32_back v : is_word 32 v -> le32_to_cpu big (cpu_to_le32 big v) = v.
Proof. intros. unfold le32_to_cpu, cpu_to_le32. destruct big; [|done]. by apply (swap_swap _ 4); [apply swaps32|]. Qed.

Lemma wire16 v : is_word 16 v -> host_bytes big 2 (cpu_to_le16 big v) = le_bytes 2 v.
Proof. intros. apply host_le; [apply swaps16|done]. Qed.
Lemma wire32 v : is_word 32 v -> host_bytes big 4 (cpu_to_le32 big v) = le_bytes 4 v.
Proof. intros. apply host_le; [apply swaps32|done]. Qed.
Lemma wire64 v : is_word 64 v -> host_bytes big 8 (cpu_to_le64 big v) = le_bytes 8 v.
Proof. intros. apply host_le; [apply swaps64|done]. Qed.

Lemma cmd_bytes_length c : length (cmd_bytes big c) = 24%nat.
Proof. unfold cmd_bytes. by rewrite !length_app, !host_bytes_length. Qed.

Lemma zlength_cmd_bytes c : zlength (cmd_bytes big c) = 24.
Proof. unfold zlength. by rewrite cmd_bytes_length. Qed.

(** The header of a fragment after its checksums were computed. *)
Lemma crc_pdu_spec op len tg fl pdu : is_word 16 op -> is_word 32 len -> is_word 64 tg -> is_word 32 fl ->
  len <= zlength pdu -> is_bytes pdu ->
  exists c, fio_net_cmd_crc_pdu big
      (set_flags (__fio_init_net_cmd big op len tg) (cpu_to_le32 big fl)) pdu = Some c /\
    cmd_bytes big c = header op fl tg len (fio_crc16 (take (Z.to_nat len) pdu)).
Proof.
  intros Ho Hl Ht Hf Hp Hb. unfold fio_net_cmd_crc_pdu. set (c0 := set_flags _ _).
  assert (cmd_bytes big c0 = head op fl tg len ++ host_bytes big 2 0 ++ host_bytes big 2 0) as E.
  { unfold cmd_bytes, c0, head. cbn [__fio_init_net_cmd set_flags version opcode flags tag pdu_len cmd_crc16 pdu_crc16].
    rewrite !wire16, !wire32, wire64 by done. by rewrite <- !app_assoc. }
  rewrite E, read_bytes_Some by (rewrite !zlength_app; unfold zlength; rewrite head_length, !host_bytes_length; done).
  cbn [mbind option_bind]. change (Z.to_nat FIO_NET_CMD_CRC_SZ) with 20%nat.
  rewrite (take_app_length' _ _ 20) by by rewrite head_length.
  replace (le32_to_cpu big (pdu_len _)) with len by (symmetry; by apply le32_back).
  unfold is_word in Hl. rewrite read_bytes_Some by lia. cbn [mbind option_bind]. eexists. split; [done|].
  unfold cmd_bytes in E |- *. cbn [set_cmd_crc16 set_pdu_crc16 version opcode flags tag pdu_len cmd_crc16 pdu_crc16] in E |- *.
  rewrite wire16 by apply crc16_word, head_bytes. rewrite wire16 by by apply crc16_word, Forall_take.
  unfold header. rewrite !app_assoc in E. do 2 apply app_inv_tail in E. rewrite !app_assoc. by rewrite E.
Qed.

End Headers.

(** ** Sending a buffer *)

Lemma sent_as_stop sk a b ret sk' : ret <> 0 -> sent_as sk a ret sk' -> sent_as sk (a ++ b) ret sk'.
Proof.
  intros Hr (s & l & -> & Hw & Hc & Hg). exists s, (l ++ b). split_and!; [by rewrite app_assoc|done| |done].
  destruct Hc as [[-> _]|[-> Hl]]; [done|]. right. split; [done|]. by destruct l.
Qed.

Lemma sent_as_all sk a ret sk' : ret = 0 -> sent_as sk a ret sk' -> wrote sk a sk'.
Proof.
  intros -> (s & l & -> & Hw & [[_ ->]|[H _]] & _); [by rewrite app_nil_r|done].
Qed.

Lemma fragment_len_spec size : 0 <= size < 2 ^ 63 -> fragment_len size = Z.min size 1024 /\
  (fragment_len size <? wrap 64 size) = (1024 <? size).
Proof.
  intros H. unfold fragment_len. rewrite wrap_small by (unfold is_word; lia).
  unfold FIO_SERVER_MAX_FRAGMENT_PDU. destruct (Z.ltb_spec 1024 size); split; lia.
Qed.

Lemma zlength_fresh junk n : 0 <= n -> zlength (fresh junk n) = n.
Proof. intros. unfold zlength, fresh. rewrite length_map, length_seq. lia. Qed.

Lemma fresh_bytes junk n : (forall i, is_word 8 (junk i)) -> is_bytes (fresh junk n).
Proof. intros H. unfold fresh, is_bytes. by apply Forall_map, Forall_true. Qed.

Section Send.
Context (big : bool) (can_alloc : Z -> bool) (junk : nat -> Z).
Hypothesis Halloc : forall n, n <= 1048 -> can_alloc n = true.

Definition has_room (b : option cmd_buf) (cur_len : Z) : Prop :=
  match b with Some b => zlength (payload b) = cur_len - 24 | None => True end.

(** A fragment is put together in the buffer of the last one, or in a larger one. *)
Lemma alloc_spec b cur_len n : has_room b cur_len -> 0 <= n <= 1024 -> exists b' cur,
  match b with
  | Some b' => if cur_len <? sizeof_cmd + n then
                 let* b := alloc_cmd can_alloc junk (sizeof_cmd + n) in Some (b, sizeof_cmd + n)
               else Some (b', cur_len)
  | None => let* b := alloc_cmd can_alloc junk (sizeof_cmd + n) in Some (b, sizeof_cmd + n)
  end = Some (b', cur) /\ n <= zlength (payload b') /\ has_room (Some b') cur.
Proof.
  intros Hb Hn. unfold alloc_cmd, sizeof_cmd. rewrite Halloc by lia. cbn [c_assert mbind option_bind].
  assert (zlength (fresh junk (24 + n - 24)) = n) as Hf by (rewrite zlength_fresh; lia).
  destruct b as [b|]; [destruct (Z.ltb_spec cur_len (24 + n))|]; do 2 eexists; split; try done; cbn [has_room payload] in *; lia.
Qed.

Lemma frame_spec b op buf n tg fl : 0 <= n <= 1024 -> n <= zlength (payload b) -> n <= zlength buf ->
  is_word 16 op -> is_word 64 tg -> is_word 32 fl -> is_bytes buf ->
  exists b1 b2, fio_init_net_cmd big b op (Some buf) n tg = Some b1 /\ flags (cmd b1) = 0 /\
    fio_net_cmd_crc big (Buf (set_flags (cmd b1) (cpu_to_le32 big fl)) (payload b1)) = Some b2 /\
    zlength (payload b2) = zlength (payload b) /\
    take (Z.to_nat (24 + n)) (cmd_bytes big (cmd b2) ++ payload b2) = frame op fl tg (take (Z.to_nat n) buf).
Proof.
  intros Hn Hr Hbuf Ho Ht Hf Hb. unfold fio_init_net_cmd. rewrite read_bytes_Some by lia. cbn [mbind option_bind].
  assert (zlength (take (Z.to_nat n) buf) = n) as Hz by (unfold zlength in *; rewrite length_take; lia).
  rewrite memcpy_Some by lia. change (Z.to_nat 0) with 0%nat. rewrite take_0. cbn [mbind option_bind].
  set (pl := [] ++ take (Z.to_nat n) buf ++ drop (0 + length (take (Z.to_nat n) buf)) (payload b)).
  assert (take (Z.to_nat n) pl = take (Z.to_nat n) buf) as Ht1.
  { unfold pl. cbn [app]. rewrite (take_app_length' _ _ (Z.to_nat n)); [done|unfold zlength in Hz; lia]. }
  assert (zlength pl = zlength (payload b)) as Ht2.
  { unfold pl, zlength in *. cbn [app]. rewrite length_app, length_drop. lia. }
  destruct (crc_pdu_spec big op n tg fl (take (Z.to_nat n) pl)) as (c & Hc & Hcb); try done.
  { unfold is_word. lia. } { rewrite Ht1. lia. } { rewrite Ht1. by apply Forall_take. }
  assert (fio_net_cmd_crc_pdu big (set_flags (__fio_init_net_cmd big op n tg) (cpu_to_le32 big fl)) pl = Some c) as E.
  { rewrite <- Hc. unfold fio_net_cmd_crc_pdu. destruct (read_bytes FIO_NET_CMD_CRC_SZ _); [|done]. cbn [mbind option_bind].
    replace (le32_to_cpu big (pdu_len _)) with n by (symmetry; apply le32_back; unfold is_word; lia).
    rewrite !read_bytes_Some by (rewrite ?Ht1; lia). by rewrite take_take, Nat.min_id. }
  eexists _, (Buf c pl). split; [done|]. split; [done|]. unfold fio_net_cmd_crc. cbn [cmd payload]. rewrite E.
  split; [done|]. split; [exact Ht2|].
  rewrite Z2Nat.inj_add, take_app by lia. rewrite cmd_bytes_length.
  rewrite (take_ge (cmd_bytes big c)) by (rewrite cmd_bytes_length; lia).
  replace (Z.to_nat 24 + Z.to_nat n - 24)%nat with (Z.to_nat n) by lia. rewrite Ht1, Hcb.
  unfold frame. by rewrite Hz, Ht1, take_take, Nat.min_id.
Qed.

Lemma wire_small op tg buf : zlength buf <= 1024 -> wire op tg buf = frame op 0 tg buf.
Proof. intros H. unfold wire. by rewrite chunks_small. Qed.

Lemma wire_large op tg buf : 1024 < zlength buf ->
  wire op tg buf = frame op FIO_NET_CMD_F_MORE tg (take 1024 buf) ++ wire op tg (drop 1024 buf).
Proof.
  intros H. unfold wire. rewrite chunks_large by done. cbn [map]. rewrite frames_cons; [done|].
  pose proof (chunks_not_nil (drop 1024 buf)). by destruct (chunks _).
Qed.

Lemma send_loop_spec op tg : is_word 16 op -> is_word 64 tg -> forall buf fuel sk b cur_len,
  is_bytes buf -> zlength buf < 2 ^ 63 -> zlength buf <= 1024 * Z.of_nat fuel -> (0 < fuel)%nat ->
  has_room b cur_len ->
  exists ret sk', send_loop big can_alloc junk fuel sk op (Some buf) (zlength buf) tg b cur_len = Some (ret, sk') /\
    sent_as sk (wire op tg buf) ret sk'.
Proof.
  intros Ho Ht buf. induction buf as [buf Hs|buf Hs IH] using chunks_ind; intros fuel sk b cur Hb Hl Hf Hf0 Hr.
  all: destruct fuel as [|fuel]; [lia|]; cbn [send_loop]; pose proof (Nat2Z.is_nonneg (length buf)) as H0;
    destruct (fragment_len_spec (zlength buf)) as [E1 E2]; [unfold zlength in *; lia|]; rewrite E2, E1; clear E1 E2.
  - rewrite Z.min_l by done. destruct (alloc_spec b cur (zlength buf) Hr ltac:(unfold zlength in *; lia)) as (b' & c' & -> & Hn & Hr').
    cbn [mbind option_bind]. destruct (frame_spec b' op buf (zlength buf) tg 0) as (b1 & b2 & -> & Hb1 & Hc & Hz & Hfr); try done; try (unfold zlength in *; lia).
    cbn [mbind option_bind]. assert ((1024 <? zlength buf) = false) as -> by lia.
    assert (Buf (set_flags (cmd b1) (cpu_to_le32 big 0)) (payload b1) = b1) as Eb.
    { destruct b1 as [[]]. cbn in Hb1. subst. unfold cpu_to_le32. by destruct big. }
    rewrite Eb in Hc. rewrite Hc. cbn [mbind option_bind].
    destruct (fio_send_data_spec sk (cmd_bytes big (cmd b2) ++ payload b2) (sizeof_cmd + zlength buf)) as (ret & sk' & -> & Hw).
    { unfold zlength, sizeof_cmd in *. lia. } { rewrite zlength_app, zlength_cmd_bytes. unfold sizeof_cmd. lia. }
    cbn [mbind option_bind]. rewrite Z.sub_diag, andb_false_r. do 2 eexists. split; [done|].
    rewrite wire_small by done. unfold sizeof_cmd in Hw. rewrite Hfr in Hw. unfold zlength in Hw. by rewrite Nat2Z.id, take_ge in Hw by lia.
  - rewrite Z.min_r by lia. destruct (alloc_spec b cur 1024 Hr ltac:(lia)) as (b' & c' & -> & Hn & Hr').
    cbn [mbind option_bind]. destruct (frame_spec b' op buf 1024 tg FIO_NET_CMD_F_MORE) as (b1 & b2 & -> & Hb1 & Hc & Hz & Hfr); try done; try lia.
    cbn [mbind option_bind]. assert ((1024 <? zlength buf) = true) as -> by lia. rewrite Hc. cbn [mbind option_bind].
    destruct (fio_send_data_spec sk (cmd_bytes big (cmd b2) ++ payload b2) (sizeof_cmd + 1024)) as (ret & sk' & -> & Hw).
    { unfold sizeof_cmd. lia. } { rewrite zlength_app, zlength_cmd_bytes. unfold sizeof_cmd. lia. }
    cbn [mbind option_bind]. unfold sizeof_cmd in Hw. rewrite Hfr in Hw. rewrite wire_large by done.
    assert ((zlength buf - 1024 =? 0) = false) as -> by lia. rewrite andb_true_r.
    destruct (Z.eqb_spec ret 0) as [Er|Er].
    + cbn [option_map]. change (Z.to_nat 1024) with 1024%nat in Hw |- *. replace (zlength buf - 1024) with (zlength (drop 1024 buf)) by (unfold zlength in *; rewrite length_drop; lia).
      destruct (IH fuel sk' (Some b2) c') as (r & sk2 & -> & H2); try done.
      * by apply Forall_drop.
      * unfold zlength in *. rewrite length_drop. lia.
      * unfold zlength in *. rewrite length_drop. lia.
      * unfold zlength in *. lia.
      * cbn [has_room] in *. lia.
      * do 2 eexists. split; [done|]. eapply sent_as_app; [|done]. by eapply sent_as_all.
    + do 2 eexists. split; [done|]. by apply sent_as_stop.
Qed.

Lemma send_cmd_spec sk op buf tagptr tg list address now : is_word 16 op -> is_bytes buf -> zlength buf < 2 ^ 63 ->
  match list with Some _ => is_Some tagptr /\ tg = address | None => tg = match tagptr with Some t => t | None => 0 end end ->
  is_word 64 tg ->
  exists ret sk', fio_net_send_cmd big can_alloc junk sk op (Some buf) (zlength buf) tagptr list address now =
      Some (ret, sk', match list with Some _ => Some address | None => tagptr end,
        match list, tagptr with
        | Some l, Some t => Some (if ret =? 0 then l ++ [Reply address now t op] else l)
        | _, _ => None
        end) /\ sent_as sk (wire op tg buf) ret sk'.
Proof.
  intros Ho Hb Hl Ht Hw. unfold fio_net_send_cmd. set (fuel := S _).
  assert (zlength buf <= 1024 * Z.of_nat fuel) as Hf.
  { unfold fuel, FIO_SERVER_MAX_FRAGMENT_PDU. rewrite Nat2Z.inj_succ.
    pose proof (Z.mod_pos_bound (zlength buf) 1024 eq_refl). pose proof (Z.div_mod (zlength buf) 1024 ltac:(lia)).
    pose proof (Z.div_pos (zlength buf) 1024 ltac:(unfold zlength; lia) eq_refl). rewrite Z2Nat.id by lia. lia. }
  destruct list as [l|].
  - destruct Ht as [[t ->] ->]. cbn [mbind option_bind alloc_reply addr].
    destruct (send_loop_spec op address Ho Hw buf fuel sk None 0 Hb Hl Hf ltac:(unfold fuel; lia) I) as (ret & sk' & -> & Hs).
    do 2 eexists. by split.
  - subst tg. destruct (send_loop_spec op _ Ho Hw buf fuel sk None 0 Hb Hl Hf ltac:(unfold fuel; lia) I) as (ret & sk' & -> & Hs).
    do 2 eexists. by split.
Qed.

Lemma simple_stack_spec sk op tg : is_word 16 op -> is_word 64 tg ->
  exists ret sk', fio_net_send_simple_stack_cmd big sk op tg = Some (ret, sk') /\
    sent_as sk (frame op 0 tg []) ret sk'.
Proof.
  intros Ho Ht. unfold fio_net_send_simple_stack_cmd, fio_init_net_cmd, fio_net_cmd_crc. cbn [mbind option_bind cmd payload].
  destruct (crc_pdu_spec big op 0 tg 0 []) as (c & Hc & Hcb); try done; [constructor|].
  assert (set_flags (__fio_init_net_cmd big op 0 tg) (cpu_to_le32 big 0) = __fio_init_net_cmd big op 0 tg) as E
    by (unfold cpu_to_le32; by destruct big).
  rewrite E in Hc. rewrite Hc. cbn [mbind option_bind cmd].
  destruct (fio_send_data_spec sk (cmd_bytes big c) sizeof_cmd) as (ret & sk' & -> & Hs); [done|by rewrite zlength_cmd_bytes|].
  do 2 eexists. split; [done|]. rewrite Hcb in Hs. unfold frame. by rewrite app_nil_r.
Qed.

(** ** Sending a vector *)

(** Sockets on which a call moves a whole fragment. *)
Definition whole (l : list (answer * bool)) : Prop :=
  gentle l /\ Forall (fun a => match fst a with Moves n => 1048 <= n | Fails _ => True end) l.

#[global] Instance whole_dec l : Decision (whole l).
Proof.
  unfold whole. apply and_dec; [apply _|]. apply Forall_dec. intros [[n|e] x]; cbn; [apply Z_le_dec|by left].
Defined.

Lemma wrote_whole sk l sk' : wrote sk l sk' -> whole (writes sk) -> whole (writes sk').
Proof.
  intros H [Hg Hw]. split; [by eapply wrote_gentle|]. destruct H as [_ _ _ [k ->]]. by apply Forall_drop.
Qed.

Lemma moved_all n {A} (l : list A) : zlength l <= n -> moved n l = l.
Proof. unfold zlength, moved. intros H. apply take_ge. lia. Qed.

Lemma vector_loop_spec fuel : forall sk a b, a <> [] -> zlength a + zlength b <= 1048 ->
  (length (writes sk) < fuel)%nat -> whole (writes sk) ->
  exists sk', sendv_loop fuel sk [a; b] 0 2 (zlength (a ++ b)) = Some (0, [a; b], sk') /\ wrote sk (a ++ b) sk'.
Proof.
  induction fuel as [|fuel IH]; intros sk a b Ha Hl Hf Hw; [lia|]. cbn [sendv_loop].
  change (iov_at [a; b] 0 2) with (Some [a; b]). cbn [mbind option_bind]. unfold writev. cbn [concat]. rewrite app_nil_r.
  assert (0 < zlength (a ++ b)) as Hp.
  { rewrite zlength_app. pose proof (zlength_pos a Ha). unfold zlength in *. lia. }
  destruct (writes sk) as [|[[n|e] x] w] eqn:Ew.
  - assert ((0 <? zlength (a ++ b)) = true) as -> by lia. rewrite Z.sub_diag. eexists. split; [done|].
    split; try done. by exists 0%nat.
  - destruct Hw as [Hg Hw]. apply Forall_cons_1 in Hw as [Hn _]. cbn in Hn.
    rewrite moved_all by (rewrite zlength_app; lia). assert ((0 <? zlength (a ++ b)) = true) as -> by lia. rewrite Z.sub_diag.
    eexists. split; [done|]. split; try done. exists 1%nat. by rewrite Ew.
  - pose proof Hw as [Hg Hw2]. apply Forall_cons_1 in Hg as [[Hx Hr] _]. cbn in Hx, Hr. subst x.
    assert (retry e = true) as -> by by destruct e. cbn [andb negb].
    destruct (IH (Socket (incoming sk) (outgoing sk ++ []) (reads sk) w) a b) as (sk' & -> & H'); try done.
    + cbn in *. lia.
    + destruct Hw as [H1 H2]. by apply Forall_cons_1 in H1 as [_ H1], H2 as [_ H2].
    + eexists. split; [done|]. rewrite <- (app_nil_l (a ++ b)). eapply wrote_app; [|exact H'].
      split; try done. exists 1%nat. by rewrite Ew.
Qed.

Lemma frames_one_more op fl tg buf : 1024 < zlength buf ->
  frames op fl (map (pair tg) (chunks buf)) =
  frame op FIO_NET_CMD_F_MORE tg (take 1024 buf) ++ frames op fl (map (pair tg) (chunks (drop 1024 buf))).
Proof.
  intros H. rewrite chunks_large by done. cbn [map]. rewrite frames_cons; [done|].
  pose proof (chunks_not_nil (drop 1024 buf)). by destruct (chunks _).
Qed.

Lemma vec_fragment op n tg fl buf : 0 <= n <= 1024 -> n <= zlength buf -> is_word 16 op -> is_word 64 tg -> is_word 32 fl ->
  is_bytes buf -> exists c, fio_net_cmd_crc_pdu big (set_flags (__fio_init_net_cmd big op n tg) (cpu_to_le32 big fl)) buf = Some c /\
    cmd_bytes big c ++ take (Z.to_nat n) buf = frame op fl tg (take (Z.to_nat n) buf).
Proof.
  intros Hn Hl Ho Ht Hf Hb. destruct (crc_pdu_spec big op n tg fl buf) as (c & -> & E); try done; [unfold is_word; lia|].
  eexists. split; [done|]. rewrite E. unfold frame.
  assert (zlength (take (Z.to_nat n) buf) = n) as -> by (unfold zlength in *; rewrite length_take; lia).
  reflexivity.
Qed.

Lemma arr_get_0 {A} (x : A) l : arr_get (x :: l) 0 = Some x.
Proof. done. Qed.

Lemma ext_pdu_loop_spec op tg fl : is_word 16 op -> is_word 64 tg -> fl = 0 \/ fl = FIO_NET_CMD_F_MORE ->
  forall buf fuel sk, is_bytes buf -> zlength buf < 2 ^ 63 -> zlength buf <= 1024 * Z.of_nat fuel -> (0 < fuel)%nat ->
  whole (writes sk) ->
  exists sk', ext_pdu_loop big fuel sk op buf (zlength buf) tg fl 0 = Some (0, sk') /\
    wrote sk (frames op fl (map (pair tg) (chunks buf))) sk'.
Proof.
  intros Ho Ht Hfl buf. induction buf as [buf Hs|buf Hs IH] using chunks_ind; intros fuel sk Hb Hl Hf Hf0 Hw.
  all: destruct fuel as [|fuel]; [lia|]; cbn [ext_pdu_loop]; pose proof (Nat2Z.is_nonneg (length buf)) as H0;
    destruct (fragment_len_spec (zlength buf)) as [E1 E2]; [unfold zlength in *; lia|]; rewrite E2, E1; clear E1 E2.
  - rewrite Z.min_l by done. assert ((1024 <? zlength buf) = false) as -> by lia.
    destruct (vec_fragment op (zlength buf) tg fl buf) as (c & -> & E); try done; try (unfold zlength, is_word, FIO_NET_CMD_F_MORE in *; lia).
    cbn [mbind option_bind]. unfold zlength in H0. rewrite read_bytes_Some by (unfold zlength; lia). cbn [mbind option_bind]. rewrite drop_0.
    assert (take (Z.to_nat (zlength buf)) buf = buf) as Et by (unfold zlength; rewrite Nat2Z.id; by rewrite take_ge).
    rewrite Et in E |- *. unfold fio_sendv_data. change (iov_at [cmd_bytes big c; buf] 0 2) with (Some [cmd_bytes big c; buf]). cbn [mbind option_bind].
    unfold iov_total_len. cbn [concat]. rewrite app_nil_r.
    destruct (vector_loop_spec (S (length (writes sk))) sk (cmd_bytes big c) buf) as (sk' & -> & Hsk); try done.
    { intros En. pose proof (cmd_bytes_length big c). by rewrite En in H. } { rewrite zlength_cmd_bytes. lia. } { lia. }
    cbn [mbind option_bind]. rewrite arr_get_0. cbn [mbind option_bind].
    rewrite Z.sub_diag. cbn [Z.eqb andb negb]. eexists. split; [done|]. rewrite chunks_small by done. cbn [map frames]. by rewrite <- E.
  - rewrite Z.min_r by lia. assert ((1024 <? zlength buf) = true) as -> by lia.
    assert (Z.lor fl FIO_NET_CMD_F_MORE = FIO_NET_CMD_F_MORE) as -> by by destruct Hfl as [-> | ->].
    destruct (vec_fragment op 1024 tg FIO_NET_CMD_F_MORE buf) as (c & -> & E); try done; try lia.
    cbn [mbind option_bind]. rewrite read_bytes_Some by lia. cbn [mbind option_bind]. rewrite drop_0.
    change (Z.to_nat 1024) with 1024%nat in *. set (chunk := take 1024 buf) in *.
    assert (zlength chunk = 1024) as Hz by (unfold chunk, zlength in *; rewrite length_take; lia).
    unfold fio_sendv_data. change (iov_at [cmd_bytes big c; chunk] 0 2) with (Some [cmd_bytes big c; chunk]). cbn [mbind option_bind].
    unfold iov_total_len. cbn [concat]. rewrite app_nil_r.
    destruct (vector_loop_spec (S (length (writes sk))) sk (cmd_bytes big c) chunk) as (sk' & -> & Hsk); try done.
    { intros En. pose proof (cmd_bytes_length big c). by rewrite En in H. } { rewrite zlength_cmd_bytes. lia. } { lia. }
    cbn [mbind option_bind]. rewrite arr_get_0. cbn [mbind option_bind]. rewrite zlength_cmd_bytes.
    assert ((zlength buf - 1024 =? 0) = false) as -> by lia. cbn [Z.eqb andb negb].
    replace (zlength buf - 1024) with (zlength (drop 1024 buf)) by (unfold zlength in *; rewrite length_drop; lia).
    destruct (IH fuel sk') as (sk2 & E2 & H2); try (unfold zlength in *; rewrite length_drop; lia).
    { by apply Forall_drop. } { unfold zlength in *. lia. } { by eapply wrote_whole. }
    change (sizeof_cmd - 24) with 0. rewrite E2. eexists. split; [done|]. rewrite frames_one_more by done. rewrite E in Hsk. by eapply wrote_app.
Qed.

Lemma frames_app op fl l1 l2 : l2 <> [] -> frames op fl (l1 ++ l2) = frames op FIO_NET_CMD_F_MORE l1 ++ frames op fl l2.
Proof.
  intros H2. induction l1 as [|[t c] l1 IH]; [done|]. cbn [app].
  rewrite frames_cons by (by destruct l1). rewrite IH. destruct l1 as [|x l1]; [done|].
  rewrite (frames_cons op FIO_NET_CMD_F_MORE) by done. by rewrite app_assoc.
Qed.

Lemma ext_pdu_spec sk op tg fl buf : is_word 16 op -> is_word 64 tg -> fl = 0 \/ fl = FIO_NET_CMD_F_MORE ->
  is_bytes buf -> zlength buf < 2 ^ 63 -> whole (writes sk) ->
  exists sk', fio_send_cmd_ext_pdu big sk op buf (zlength buf) tg fl = Some (0, sk') /\
    wrote sk (frames op fl (map (pair tg) (chunks buf))) sk'.
Proof.
  intros Ho Ht Hfl Hb Hl Hw. apply ext_pdu_loop_spec; try done; [|lia].
  unfold FIO_SERVER_MAX_FRAGMENT_PDU. rewrite Nat2Z.inj_succ.
  pose proof (Z.mod_pos_bound (zlength buf) 1024 eq_refl). pose proof (Z.div_mod (zlength buf) 1024 ltac:(lia)).
  pose proof (Z.div_pos (zlength buf) 1024 ltac:(unfold zlength; lia) eq_refl). rewrite Z2Nat.id by lia. lia.
Qed.

(** ** The entries of a queue *)

Definition entry_frames (e : sk_entry) : list (Z * list Z) := map (pair (e_tag e)) (chunks (e_buf e)).

Definition is_vec (e : sk_entry) : bool := c_true (Z.land (e_flags e) SK_F_VEC).
Definition is_simple (e : sk_entry) : bool := c_true (Z.land (e_flags e) SK_F_SIMPLE).

(** The fragments that an entry is sent as, and the bytes. *)
Definition entry_pieces (e : sk_entry * list sk_entry) : list (Z * list Z) :=
  if is_vec (fst e) then concat (map entry_frames (fst e :: snd e))
  else if is_simple (fst e) then [(e_tag (fst e), [])]
  else entry_frames (fst e).

Definition entry_wire (e : sk_entry * list sk_entry) : list Z :=
  frames (e_opcode (fst e)) 0 (entry_pieces e).

Definition entry_data_ok (e : sk_entry) : Prop :=
  is_word 16 (e_opcode e) /\ is_word 64 (e_tag e) /\ is_bytes (e_buf e) /\
  e_size e = zlength (e_buf e) /\ zlength (e_buf e) < 2 ^ 63.

Definition entry_ok (e : sk_entry * list sk_entry) : Prop :=
  entry_data_ok (fst e) /\ Forall (fun n => entry_data_ok n /\ e_opcode n = e_opcode (fst e)) (snd e).

Lemma entry_frames_not_nil e : entry_frames e <> [].
Proof. unfold entry_frames. pose proof (chunks_not_nil (e_buf e)). by destruct (chunks _). Qed.

Lemma all_frames_not_nil e l : concat (map entry_frames (e :: l)) <> [].
Proof. cbn. pose proof (entry_frames_not_nil e). by destruct (entry_frames e). Qed.

Lemma set_flags_cases next : entry_set_flags next = 0 \/ entry_set_flags next = FIO_NET_CMD_F_MORE.
Proof. destruct next; [by left|by right]. Qed.

Lemma linked_frames op e next : frames op 0 (concat (map entry_frames (e :: next))) =
  frames op (entry_set_flags next) (entry_frames e) ++ frames op 0 (concat (map entry_frames next)).
Proof.
  destruct next as [|n next]; cbn [map concat entry_set_flags].
  - cbn [frames]. by rewrite !app_nil_r.
  - apply frames_app, (all_frames_not_nil n next).
Qed.

Lemma send_vec_next_spec op : forall next sk ret,
  Forall (fun n => entry_data_ok n /\ e_opcode n = op) next -> whole (writes sk) ->
  exists sk', send_vec_next big sk next ret = Some (ret, sk') /\
    wrote sk (frames op 0 (concat (map entry_frames next))) sk'.
Proof.
  induction next as [|e next IH]; intros sk ret Hn Hw; cbn [send_vec_next].
  { exists sk. split; [done|]. apply wrote_nil. }
  apply Forall_cons_1 in Hn as [[(Ho & Ht & Hb & Hz & Hl) <-] Hn]. rewrite Hz.
  destruct (ext_pdu_spec sk (e_opcode e) (e_tag e) (entry_set_flags next) (e_buf e)) as (sk1 & -> & H1); try done;
    [apply set_flags_cases|].
  cbn [mbind option_bind]. rewrite Z.add_0_r.
  destruct (IH sk1 ret Hn) as (sk2 & -> & H2); [by eapply wrote_whole|]. eexists. split; [done|].
  rewrite linked_frames. by eapply wrote_app.
Qed.

Lemma handle_sk_entry_spec sk e : entry_ok e -> (is_vec (fst e) = true -> whole (writes sk)) ->
  exists ret sk', handle_sk_entry big can_alloc junk sk e = Some (ret, sk') /\ sent_as sk (entry_wire e) ret sk'.
Proof.
  destruct e as [e next]. intros [(Ho & Ht & Hb & Hz & Hl) Hn] Hw. cbn [fst snd] in *.
  unfold handle_sk_entry, entry_wire, entry_pieces. cbn [fst snd]. fold (is_vec e) (is_simple e). rewrite Hz.
  destruct (is_vec e) eqn:Ev.
  - specialize (Hw eq_refl). unfold send_vec_entry. rewrite Hz.
    destruct (ext_pdu_spec sk (e_opcode e) (e_tag e) (entry_set_flags next) (e_buf e)) as (sk1 & -> & H1); try done;
      [apply set_flags_cases|].
    cbn [mbind option_bind].
    destruct (send_vec_next_spec (e_opcode e) next sk1 0 Hn) as (sk2 & -> & H2); [by eapply wrote_whole|].
    do 2 eexists. split; [done|]. rewrite linked_frames.
    exists (frames (e_opcode e) (entry_set_flags next) (entry_frames e) ++ frames (e_opcode e) 0 (concat (map entry_frames next))), [].
    rewrite app_nil_r. split_and!; try done; [by eapply wrote_app|by left].
  - destruct (is_simple e) eqn:Es.
    + destruct (simple_stack_spec sk (e_opcode e) (e_tag e) Ho Ht) as (ret & sk' & E & Hs).
      unfold fio_net_send_simple_cmd. rewrite E. cbn [mbind option_bind]. do 2 eexists. by split.
    + destruct (send_cmd_spec sk (e_opcode e) (e_buf e) (Some (e_tag e)) (e_tag e) None 0 0) as (ret & sk' & -> & Hs); try done.
      cbn [mbind option_bind]. do 2 eexists. by split.
Qed.

(** A call that moves the header of a vector and not all of the rest leaves [iov] at its second
    element and [count] at two. *)
Lemma vector_overruns fuel sk h b n w : zlength h = 24 -> writes sk = (Moves n, false) :: w -> 24 <= n < 24 + zlength b ->
  sendv_loop (S (S fuel)) sk [h; b] 0 2 (zlength (h ++ b)) = None.
Proof.
  intros Hh Hw Hn. cbn [sendv_loop]. change (iov_at [h; b] 0 2) with (Some [h; b]). cbn [mbind option_bind]. unfold writev. rewrite Hw. cbn [concat]. rewrite app_nil_r.
  assert (zlength (moved n (h ++ b)) = n) as -> by (unfold moved, zlength in *; rewrite length_take, length_app; lia).
  assert ((0 <? n) = true) as -> by lia. rewrite zlength_app, Hh. destruct (Z.eqb_spec (24 + zlength b - n) 0); [lia|].
  cbn [iov_skip length]. destruct (Z.eqb_spec n 0); [lia|]. change (arr_get [h; b] 0) with (Some h). cbn [mbind option_bind]. rewrite Hh.
  assert ((24 <=? n) = true) as -> by lia. destruct (Z.eqb_spec (n - 24) 0); [done|]. change (arr_get [h; b] (0 + 1)) with (Some b). cbn [mbind option_bind].
  assert ((zlength b <=? n - 24) = false) as -> by lia. done.
Qed.

Lemma vec_entry_overruns sk e n w : entry_ok e -> is_vec (fst e) = true -> writes sk = (Moves n, false) :: w ->
  24 <= n < 24 + Z.min 1024 (zlength (e_buf (fst e))) -> handle_sk_entry big can_alloc junk sk e = None.
Proof.
  destruct e as [e next]. intros [(Ho & Ht & Hb & Hz & Hl) _] Hv Hw Hn. cbn [fst] in *. unfold handle_sk_entry. cbn [fst snd]. fold (is_vec e). rewrite Hv.
  unfold send_vec_entry, fio_send_cmd_ext_pdu. rewrite Hz. cbn [ext_pdu_loop]. destruct (fragment_len_spec (zlength (e_buf e))) as [E1 E2]; [unfold zlength in *; lia|]. rewrite E2, E1. clear E1 E2.
  set (m := Z.min (zlength (e_buf e)) 1024). assert (0 <= m <= 1024 /\ m <= zlength (e_buf e) /\ m = Z.min 1024 (zlength (e_buf e))) as (Hm1 & Hm2 & Hm3) by (unfold m, zlength; lia).
  set (fl := if 1024 <? zlength (e_buf e) then _ else _).
  assert (is_word 32 fl) as Hfl by (unfold fl, entry_set_flags; destruct (1024 <? _), next; done).
  destruct (vec_fragment (e_opcode e) m (e_tag e) fl (e_buf e)) as (c & Hc & _); try done. rewrite Hc. cbn [mbind option_bind]. rewrite read_bytes_Some by lia. cbn [mbind option_bind]. rewrite drop_0.
  unfold fio_sendv_data. change (iov_at [?a; ?b] 0 2) with (Some [a; b]). rewrite Hw. cbn [mbind option_bind length].
  change (iov_at [cmd_bytes big c; take (Z.to_nat m) (e_buf e)] 0 2) with (Some [cmd_bytes big c; take (Z.to_nat m) (e_buf e)]). cbn [mbind option_bind]. unfold iov_total_len. cbn [concat]. rewrite app_nil_r.
  rewrite (vector_overruns (length w) sk _ _ n w); [done|by rewrite zlength_cmd_bytes|done|]. unfold zlength in *. rewrite length_take. lia.
Qed.

End Send.
