(* ===== verification/NetRecv.v ===== *)
(** Receiving the commands of Net: what the receiving function makes of any bytes, in whatever
    pieces they come, and the frames of NetWire as what it accepts. *)
From S2P Require Import Prelude Stream Crc Net NetWire.

#[local] Opaque fio_crc16.

(** * Proofs: receiving *)

Lemma recv_spec sk len ret exits sk' : recv sk len = (ret, exits, sk') -> 0 < len ->
  (exists a, ret = inl a /\ took sk a sk' /\ zlength a <= len /\
     (zlength a = len \/ a = [] /\ incoming sk = [] \/
      a <> [] /\ (length (reads sk') + length (incoming sk') < length (reads sk) + length (incoming sk))%nat)) \/
  (exists e, ret = inr e /\ took sk [] sk' /\ (length (reads sk') < length (reads sk))%nat /\
     (gentle (reads sk) -> retry e = true)).
Proof.
  intros H Hl. unfold recv in H. set (asked := take (Z.to_nat len) (incoming sk)) in *.
  assert (zlength asked <= len) as Ha by (unfold asked, zlength; rewrite length_take; lia).
  assert (forall a b r, asked = a ++ b -> (exists k, r = drop k (reads sk)) ->
    took sk a (Socket (drop (length a) (incoming sk)) (outgoing sk) r (writes sk))) as Ht.
  { intros a b r E Hr. split; try done. cbn [incoming].
    assert (take (length a) (incoming sk) = a) as E2.
    { unfold asked in E. assert (take (length a) (take (Z.to_nat len) (incoming sk)) = a) as E3 by (rewrite E; apply take_app_length).
      rewrite take_take in E3. apply (f_equal length) in E as El. rewrite length_take, length_app in El.
      by rewrite Nat.min_l in E3 by lia. }
    rewrite <- (take_drop (length a) (incoming sk)) at 1. by rewrite E2. }
  destruct (reads sk) as [|[[n|e] x] r] eqn:Er; injection H as <- <- <-.
  - left. exists asked. split_and!; try done; [apply (Ht _ []); [by rewrite app_nil_r|by exists 0%nat]|].
    destruct (decide (asked = [])) as [E|E].
    + right. left. split; [done|]. unfold asked in E. destruct (incoming sk); [done|]. destruct (Z.to_nat len) eqn:En; [lia|done].
    + right. right. split; [done|]. cbn [reads incoming length]. rewrite length_drop.
      destruct asked as [|y q] eqn:Eq; [done|]. unfold asked in Eq. destruct (incoming sk); [by destruct (Z.to_nat len)|]. cbn. lia.
  - left. destruct (decide (asked = [])) as [E|E].
    + exists []. rewrite E. unfold moved. rewrite take_nil. split_and!; try done.
      * apply (Ht [] []); [by rewrite E|]. by exists 1%nat.
      * unfold zlength. cbn. lia.
      * right. left. split; [done|]. unfold asked in E. destruct (incoming sk); [done|]. destruct (Z.to_nat len) eqn:En; [lia|done].
    + destruct (moved_split n asked E) as (a & b & Eab & -> & Hne). exists a. split_and!; try done.
      * apply (Ht _ b); [done|]. by exists 1%nat.
      * rewrite Eab, zlength_app in Ha. unfold zlength in *. lia.
      * right. right. split; [done|]. cbn [reads incoming length]. rewrite length_drop. lia.
  - right. exists e. split_and!; try done.
    + apply (Ht [] asked); [done|]. by exists 1%nat.
    + cbn. lia.
    + intros Hg. apply Forall_cons_1 in Hg as [[_ Hg] _]. by destruct e.
Qed.

Lemma recv_exits sk len ret exits sk' : recv sk len = (ret, exits, sk') -> gentle (reads sk) -> exits = false.
Proof.
  intros H Hg. unfold recv in H. destruct (reads sk) as [|[[n|e] x] r]; injection H as <- <- <-; try done.
  all: by apply Forall_cons_1 in Hg as [[Hg _] _].
Qed.

(** What [fio_recv_data] does when it is asked for [len] bytes. *)
Definition got_as (sk : socket) (wait : bool) (len : Z) (ret : Z) (got : list Z) (sk' : socket) : Prop :=
  took sk got sk' /\ (ret = 0 /\ zlength got = len \/ ret = -1 /\ zlength got < len) /\
  (gentle (reads sk) -> wait = true -> len <= zlength (incoming sk) -> ret = 0).

Lemma recv_done_short len : 0 < len -> recv_done len = -1.
Proof. intros H. unfold recv_done. by destruct (Z.eqb_spec len 0); [lia|]. Qed.

Lemma recv_data_loop_spec wait fuel : forall sk len p, 0 < len ->
  (length (reads sk) + length (incoming sk) < fuel)%nat ->
  exists ret got sk', recv_data_loop fuel sk len wait p = Some (ret, p ++ got, sk') /\ got_as sk wait len ret got sk'.
Proof.
  induction fuel as [|fuel IH]; intros sk len p Hl Hf; [lia|]. cbn [recv_data_loop].
  destruct (recv sk len) as [[ret exits] sk'] eqn:E. pose proof (recv_exits _ _ _ _ _ E) as Hx.
  destruct (recv_spec _ _ _ _ _ E Hl) as [(a & -> & Ht & Ha & Hc)|(e & -> & Ht & Hr & He)].
  - destruct (decide (a = [])) as [->|Hne].
    { change (0 <? zlength []) with false. cbn iota. rewrite recv_done_short by done.
      exists (-1), [], sk'. rewrite app_nil_r. split; [done|]. split_and!; [done|by right|].
      intros _ _ Hin. destruct Hc as [Hc|[[_ Hc]|[Hc _]]]; [unfold zlength in Hc; cbn in Hc; lia| |done].
      rewrite Hc in Hin. unfold zlength in Hin. cbn in Hin. lia. }
    pose proof (zlength_pos a Hne). assert ((0 <? zlength a) = true) as -> by lia.
    destruct (Z.eqb_spec (len - zlength a) 0) as [E0|E0].
    { exists 0, a, sk'. split; [done|]. split_and!; try done. left. split; [done|lia]. }
    destruct exits.
    { rewrite recv_done_short by lia. exists (-1), a, sk'. split; [done|]. split_and!; try done; [right; split; [done|lia]|].
      intros Hg. by specialize (Hx Hg). }
    destruct Hc as [Hc|[[-> _]|[_ Hc]]]; [lia|done|].
    destruct (IH sk' (len - zlength a) (p ++ a) ltac:(lia) ltac:(lia)) as (r & got & sk2 & -> & H1 & H2 & H3).
    exists r, (a ++ got), sk2. split; [by rewrite app_assoc|]. split_and!; [by eapply took_app|rewrite zlength_app; lia|].
    intros Hg Hw Hin. apply H3; [by eapply took_gentle|done|].
    rewrite (took_in _ _ _ Ht), zlength_app in Hin. lia.
  - destruct (retry e && wait && negb exits) eqn:Er.
    + destruct (IH sk' len p Hl) as (r & got & sk2 & -> & H1 & H2 & H3).
      { pose proof (took_length _ _ _ Ht). rewrite (took_in _ _ _ Ht) in *. cbn [app] in *. lia. }
      exists r, got, sk2. split; [done|]. split_and!; try done; [by apply (took_app _ [] sk')|].
      intros Hg Hw Hin. apply H3; [by eapply took_gentle|done|]. by rewrite (took_in _ _ _ Ht) in Hin.
    + rewrite recv_done_short by done. exists (-1), [], sk'. rewrite app_nil_r. split; [done|]. split_and!; [done|by right|].
      intros Hg -> _. by rewrite (He Hg), (Hx Hg) in Er.
Qed.

Lemma fio_recv_data_spec sk len wait : 0 < len ->
  exists ret got sk', fio_recv_data sk len wait = Some (ret, got, sk') /\ got_as sk wait len ret got sk'.
Proof. intros H. apply (recv_data_loop_spec wait _ sk len []); [done|lia]. Qed.

(** ** Headers *)

Definition part (off n : nat) (raw : list Z) : Z := le_value (take n (drop off raw)).

(** A header read little-endian. *)
Definition decode (raw : list Z) : fio_net_cmd :=
  Cmd (part 0 2 raw) (part 2 2 raw) (part 4 4 raw) (part 8 8 raw) (part 16 4 raw)
    (part 20 2 raw) (part 22 2 raw).

Definition good (raw : list Z) : Prop :=
  fio_crc16 (take 20 raw) = part 20 2 raw /\ part 0 2 raw = FIO_SERVER_VER /\
  part 16 4 raw <= FIO_SERVER_MAX_FRAGMENT_PDU.

Lemma part_word off n raw w : is_bytes raw -> w = 8 * Z.of_nat n -> (off + n <= length raw)%nat ->
  is_word w (part off n raw).
Proof.
  intros Hb -> Hl. unfold part. set (l := take n (drop off raw)).
  assert (is_bytes l) as Hlb by by apply Forall_take, Forall_drop.
  assert (length l = n) as E by (unfold l; rewrite length_take, length_drop; lia). clearbody l. subst n.
  split; [by apply le_value_nonneg|]. rewrite <- (le_bytes_value l Hlb) at 1. rewrite le_value_bytes.
  apply Z.mod_pos_bound. lia.
Qed.

Lemma part_bytes off n raw : is_bytes raw -> (off + n <= length raw)%nat ->
  le_bytes n (part off n raw) = take n (drop off raw).
Proof.
  intros Hb Hl. unfold part.
  rewrite <- (le_bytes_value (take n (drop off raw))) at 2 by by apply Forall_take, Forall_drop.
  f_equal. rewrite length_take, length_drop. lia.
Qed.

Lemma list_24 (raw : list Z) : length raw = 24%nat ->
  exists a b c d e f g, raw = a ++ b ++ c ++ d ++ e ++ f ++ g /\
    length a = 2%nat /\ length b = 2%nat /\ length c = 4%nat /\ length d = 8%nat /\ length e = 4%nat /\
    length f = 2%nat /\ length g = 2%nat.
Proof.
  intros H. exists (take 2 raw), (take 2 (drop 2 raw)), (take 4 (drop 4 raw)), (take 8 (drop 8 raw)),
    (take 4 (drop 16 raw)), (take 2 (drop 20 raw)), (drop 22 raw).
  split; [|rewrite ?length_take, ?length_drop; lia].
  do 24 (destruct raw as [|? raw]; [done|]). by destruct raw.
Qed.

Section Header.
Context (big : bool).

Lemma field_part raw o z off n : o = Z.of_nat off -> z = Z.of_nat n -> (off + n <= length raw)%nat ->
  field big o z raw = Some (host_value big (take n (drop off raw))).
Proof.
  intros -> -> H. unfold field. destruct (Z.ltb_spec (Z.of_nat off) 0); [lia|]. rewrite Nat2Z.id.
  rewrite read_bytes_Some by (unfold zlength; rewrite length_drop; lia). by rewrite Nat2Z.id.
Qed.

Lemma le16_host l : is_bytes l -> length l = 2%nat -> le16_to_cpu big (host_value big l) = le_value l.
Proof. apply (le_host big fio_swap16 2), swaps16. Qed.
Lemma le32_host l : is_bytes l -> length l = 4%nat -> le32_to_cpu big (host_value big l) = le_value l.
Proof. apply (le_host big fio_swap32 4), swaps32. Qed.
Lemma le64_host l : is_bytes l -> length l = 8%nat -> le64_to_cpu big (host_value big l) = le_value l.
Proof. apply (le_host big fio_swap64 8), swaps64. Qed.

(** What the receiver sees of 24 bytes. *)
Lemma verify_spec raw : length raw = 24%nat -> is_bytes raw ->
  exists c0 r c, bytes_cmd big raw = Some c0 /\ verify_convert_cmd big c0 = Some (r, c) /\
    (r = 0 /\ c = decode raw /\ good raw \/ r = 1 /\ ~ good raw).
Proof.
  intros Hl Hb. unfold bytes_cmd.
  rewrite (field_part raw 0 2 0 2), (field_part raw 2 2 2 2), (field_part raw 4 4 4 4), (field_part raw 8 8 8 8), (field_part raw 16 4 16 4),
    (field_part raw 20 2 20 2), (field_part raw 22 2 22 2) by (done || lia). cbn [mbind option_bind].
  set (c0 := Cmd _ _ _ _ _ _ _). exists c0.
  assert (forall off n, (off + n <= 24)%nat -> is_bytes (take n (drop off raw)) /\ length (take n (drop off raw)) = n) as Hp.
  { intros off n H. split; [by apply Forall_take, Forall_drop|]. rewrite length_take, length_drop. lia. }
  assert (le16_to_cpu big (version c0) = part 0 2 raw /\ le16_to_cpu big (opcode c0) = part 2 2 raw /\
    le32_to_cpu big (flags c0) = part 4 4 raw /\ le64_to_cpu big (tag c0) = part 8 8 raw /\
    le32_to_cpu big (pdu_len c0) = part 16 4 raw /\ le16_to_cpu big (cmd_crc16 c0) = part 20 2 raw /\
    le16_to_cpu big (pdu_crc16 c0) = part 22 2 raw) as (E1 & E2 & E3 & E4 & E5 & E6 & E7).
  { split_and!; [apply le16_host|apply le16_host|apply le32_host|apply le64_host|apply le32_host|apply le16_host..]; apply Hp; lia. }
  unfold verify_convert_cmd. cbn [set_cmd_crc16 set_pdu_crc16 version opcode flags tag pdu_len cmd_crc16 pdu_crc16].
  fold (version c0) (opcode c0) (flags c0) (tag c0) (pdu_len c0).
  rewrite E1, E2, E3, E4, E5, E6, E7.
  set (raw' := cmd_bytes big _).
  assert (take 20 raw' = take 20 raw) as Er.
  { unfold raw', cmd_bytes, c0. cbn [set_cmd_crc16 set_pdu_crc16 version opcode flags tag pdu_len].
    assert (forall off n, (off + n <= 24)%nat -> host_bytes big n (host_value big (take n (drop off raw))) = take n (drop off raw)) as Hh.
    { intros off n H. destruct (Hp off n H) as [H1 H2]. rewrite <- H2 at 1. by apply host_bytes_value. }
    rewrite !Hh by lia. rewrite drop_0, !app_assoc, !take_take_drop. cbn [Nat.add].
    rewrite <- app_assoc, take_app_le, take_take by (rewrite length_take; lia). done. }
  assert (zlength raw' = 24) as Hz by apply zlength_cmd_bytes.
  unfold FIO_NET_CMD_CRC_SZ, sizeof_cmd. rewrite read_bytes_Some by (rewrite Hz; lia). cbn [mbind option_bind].
  change (Z.to_nat (24 - 2 * 2)) with 20%nat. rewrite Er. unfold good.
  destruct (Z.eqb_spec (fio_crc16 (take 20 raw)) (part 20 2 raw)) as [Ec|Ec]; cbn [negb].
  2: { eexists _, _. split; [done|]. split; [done|]. right. by split; [|intros [? _]]. }
  destruct (Z.eqb_spec (part 0 2 raw) FIO_SERVER_VER) as [Ev|Ev]; cbn [negb].
  2: { eexists _, _. split; [done|]. split; [done|]. right. by split; [|intros (_ & ? & _)]. }
  destruct (Z.ltb_spec FIO_SERVER_MAX_FRAGMENT_PDU (part 16 4 raw)) as [Em|Em].
  - eexists _, _. split; [done|]. split; [done|]. right. split; [done|]. intros (_ & _ & ?). lia.
  - eexists _, _. split; [done|]. split; [done|]. by left.
Qed.

End Header.

(** The fields of a fragment, in their ranges. *)
Record in_range (op fl tg : Z) (chunk : list Z) (crc : Z) : Prop := {
  range_op : is_word 16 op;
  range_fl : is_word 32 fl;
  range_tg : is_word 64 tg;
  range_chunk : is_bytes chunk;
  range_len : zlength chunk <= 1024;
  range_crc : is_word 16 crc;
}.

Lemma value_bytes n w v : w = 8 * Z.of_nat n -> is_word w v -> le_value (le_bytes n v) = v.
Proof. intros -> H. rewrite le_value_bytes. by apply Z.mod_small. Qed.

Lemma part_start n a b : length a = n -> part 0 n (a ++ b) = le_value a.
Proof. intros H. unfold part. by rewrite drop_0, take_app_length' by done. Qed.

Lemma part_skips off k n a b : length a = k -> part (k + off) n (a ++ b) = part off n b.
Proof. intros H. unfold part. rewrite <- drop_drop. by rewrite drop_app_length' by done. Qed.

(** Finds the field of a header that begins at an offset. *)
Ltac find_part :=
  match goal with
  | |- context [part ?off ?n (?a ++ ?b)] =>
      let la := match a with le_bytes ?k _ => k end in
      let past := eval cbv in (la <=? off)%nat in
      lazymatch past with
      | true => let d := eval cbv in (off - la)%nat in
                replace (part off n (a ++ b)) with (part d n b)
                  by (symmetry; apply (part_skips d la n a b), le_bytes_length)
      | false => rewrite (part_start n a b) by apply le_bytes_length
      end
  end.

Lemma fields_decode op fl tg len x y : is_word 16 op -> is_word 32 fl -> is_word 64 tg -> is_word 32 len ->
  is_word 16 x -> is_word 16 y ->
  decode (head op fl tg len ++ le_bytes 2 x ++ le_bytes 2 y) = Cmd FIO_SERVER_VER op fl tg len x y.
Proof.
  intros Ho Hf Ht Hl Hx Hy. unfold decode, head. rewrite <- !app_assoc. repeat find_part.
  unfold part. rewrite drop_0, (take_ge (le_bytes 2 y)) by by rewrite le_bytes_length.
  by rewrite !(value_bytes 2 16), !(value_bytes 4 32), (value_bytes 8 64).
Qed.

Lemma header_decode op fl tg len crc rest : is_word 16 op -> is_word 32 fl -> is_word 64 tg -> 0 <= len <= 1024 ->
  is_word 16 crc -> let raw := header op fl tg len crc in
  decode raw = Cmd FIO_SERVER_VER op fl tg len (fio_crc16 (head op fl tg len)) crc /\
  good raw /\ take 24 (raw ++ rest) = raw.
Proof.
  intros Ho Hf Ht Hl Hc. cbn zeta.
  pose proof (crc16_word _ (head_bytes op fl tg len)) as Hcc.
  assert (decode (header op fl tg len crc) = Cmd FIO_SERVER_VER op fl tg len (fio_crc16 (head op fl tg len)) crc) as Ed
    by (apply fields_decode; [exact Ho|exact Hf|exact Ht|unfold is_word; lia|exact Hcc|exact Hc]).
  split; [exact Ed|]. split.
  - unfold good. change (part 20 2 ?r) with (cmd_crc16 (decode r)). change (part 0 2 ?r) with (version (decode r)).
    change (part 16 4 ?r) with (pdu_len (decode r)). rewrite Ed. cbn [cmd_crc16 version pdu_len].
    unfold header. rewrite (take_app_length' _ _ 20) by by rewrite head_length.
    split; [reflexivity|]. split; [reflexivity|apply Hl].
  - by rewrite (take_app_length' _ _ 24) by by rewrite command_header_length.
Qed.

Lemma header_inj op fl tg len crc op' fl' tg' len' crc' :
  is_word 16 op -> is_word 32 fl -> is_word 64 tg -> 0 <= len <= 1024 -> is_word 16 crc ->
  is_word 16 op' -> is_word 32 fl' -> is_word 64 tg' -> 0 <= len' <= 1024 -> is_word 16 crc' ->
  header op fl tg len crc = header op' fl' tg' len' crc' ->
  op = op' /\ fl = fl' /\ tg = tg' /\ len = len' /\ crc = crc'.
Proof.
  intros A1 A2 A3 A4 A5 B1 B2 B3 B4 B5 E.
  destruct (header_decode op fl tg len crc [] A1 A2 A3 A4 A5) as [E1 _].
  destruct (header_decode op' fl' tg' len' crc' [] B1 B2 B3 B4 B5) as [E2 _].
  rewrite E, E2 in E1.
  pose proof (f_equal opcode E1). pose proof (f_equal flags E1). pose proof (f_equal tag E1).
  pose proof (f_equal pdu_len E1). pose proof (f_equal pdu_crc16 E1). by cbn in *.
Qed.

(** 24 bytes that the receiver takes for a header are one. *)
Lemma good_header raw : length raw = 24%nat -> is_bytes raw -> good raw ->
  let c := decode raw in
  raw = header (opcode c) (flags c) (tag c) (pdu_len c) (pdu_crc16 c) /\
  is_word 16 (opcode c) /\ is_word 32 (flags c) /\ is_word 64 (tag c) /\ 0 <= pdu_len c <= 1024 /\
  is_word 16 (pdu_crc16 c) /\ version c = FIO_SERVER_VER.
Proof.
  intros Hl Hb (Hc & Hv & Hp). cbn zeta. cbn [decode version opcode flags tag pdu_len cmd_crc16 pdu_crc16].
  assert (head (part 2 2 raw) (part 4 4 raw) (part 8 8 raw) (part 16 4 raw) = take 20 raw) as Eh.
  { unfold head. rewrite <- Hv, !part_bytes by (done || lia).
    rewrite drop_0, !app_assoc, !take_take_drop. done. }
  split_and!; try (by apply part_word; [|..|lia]); try done.
  - unfold header. rewrite Eh, Hc, !part_bytes by (done || lia). rewrite !app_assoc, !take_take_drop. cbn [Nat.add].
    by rewrite take_ge by lia.
  - assert (is_word 32 (part 16 4 raw)) as [H _] by (apply part_word; [done..|lia]). done.
Qed.

Section Receive.
Context (big : bool) (can_alloc : Z -> bool) (junk : nat -> Z).

(** The largest command, with its text terminator. *)
Definition max_cmd : Z := 2 ^ 31 + 1023.

(** The memory that a command is assembled in: its fields, the payload so far, and one byte. *)
Record delivers (b : cmd_buf) (op fl tg : Z) (data : list Z) : Prop := {
  del_version : version (cmd b) = FIO_SERVER_VER;
  del_opcode : opcode (cmd b) = op;
  del_flags : flags (cmd b) = fl;
  del_tag : tag (cmd b) = tg;
  del_len : pdu_len (cmd b) = zlength data;
  del_data : take (length data) (payload b) = data;
  del_room : length (payload b) = S (length data);
}.

(** Where the receiver is: at the first fragment, or with some of them in memory. *)
Inductive stage : option cmd_buf -> Z -> Z -> bool -> option (Z * Z * Z) -> list Z -> Prop :=
  | stage_first : stage None 0 0 true None []
  | stage_next b op fl tg acc : delivers b op fl tg acc -> zlength acc + 25 <= max_cmd ->
      stage (Some b) (zlength acc + 25) (zlength acc) false (Some (op, fl, tg)) acc.

(** A fragment that can come at a stage; [last] when the command ends with it. *)
Record acceptable (st : option (Z * Z * Z)) (acc : list Z) (op fl tg : Z) (chunk : list Z) (crc : Z)
    (last : bool) : Prop := {
  acc_range : in_range op fl tg chunk crc;
  acc_op : match st with Some (op', _, _) => op = op' | None => True end;
  acc_size : zlength acc + zlength chunk + 25 <= max_cmd;
  acc_crc : chunk <> [] -> crc = fio_crc16 chunk;
  acc_last : last = true <-> chunk = [] \/ Z.land fl FIO_NET_CMD_F_MORE = 0;
}.

(** The command is that of the first fragment. *)
Definition named (st : option (Z * Z * Z)) (op fl tg : Z) : Z * Z * Z :=
  match st with Some n => n | None => (op, fl, tg) end.

Definition raw_frame (op fl tg : Z) (chunk : list Z) (crc : Z) : list Z :=
  header op fl tg (zlength chunk) crc ++ chunk.

(** The socket has such a fragment, and nothing is in the way of it. *)
Definition arrives (sk : socket) (wait : bool) (st : option (Z * Z * Z)) (acc : list Z) : Prop :=
  gentle (reads sk) /\ wait = true /\ (forall n, can_alloc n = true) /\
  exists op fl tg chunk crc last rest, acceptable st acc op fl tg chunk crc last /\
    incoming sk = raw_frame op fl tg chunk crc ++ rest.

(** What one turn of the receiver's loop gives. *)
Definition turn (sk : socket) (wait : bool) (st : option (Z * Z * Z)) (acc : list Z)
    (r : recv_end + recv_more) : Prop :=
  match r with
  | inl (ret, b, sk') =>
      ret <> 0 /\ (exists l, took sk l sk') /\ ~ arrives sk wait st acc \/
      ret = 0 /\ exists op fl tg chunk crc, acceptable st acc op fl tg chunk crc true /\
        took sk (raw_frame op fl tg chunk crc) sk' /\
        match b with
        | Some b => let '(op, fl, tg) := named st op fl tg in delivers b op fl tg (acc ++ chunk)
        | None => False
        end
  | inr (b, cmd_size, pdu_offset, sk') =>
      exists op fl tg chunk crc, acceptable st acc op fl tg chunk crc false /\
        took sk (raw_frame op fl tg chunk crc) sk' /\
        stage (Some b) cmd_size pdu_offset false (Some (named st op fl tg)) (acc ++ chunk)
  end.

Lemma frame_unique st acc sk0 sk op fl tg len crc op' fl' tg' chunk' crc' last' rest' :
  is_word 16 op -> is_word 32 fl -> is_word 64 tg -> 0 <= len <= 1024 -> is_word 16 crc ->
  took sk0 (header op fl tg len crc) sk -> acceptable st acc op' fl' tg' chunk' crc' last' ->
  incoming sk0 = raw_frame op' fl' tg' chunk' crc' ++ rest' ->
  op = op' /\ zlength chunk' = len /\ crc' = crc /\ incoming sk = chunk' ++ rest'.
Proof.
  intros Ho Hf Ht Hl Hc Hsk [[] _ _ _ _] E. rewrite (took_in _ _ _ Hsk) in E. unfold raw_frame in E.
  rewrite <- app_assoc in E. apply app_inj_1 in E as [E1 E2]; [|by rewrite !command_header_length].
  apply header_inj in E1 as (-> & _ & _ & -> & ->); try done. split; unfold zlength in *; lia.
Qed.

Lemma stage_size b cs off first st acc : stage b cs off first st acc ->
  zlength acc + 25 <= max_cmd /\ off = zlength acc /\ (first = true -> acc = []).
Proof. intros [|b' op fl tg acc' Hd Hm]; split_and!; try done. Qed.

(** The size of the command with one more fragment. *)
Lemma size_spec b cs off first st acc n : stage b cs off first st acc -> 0 <= n <= 1024 ->
  (if first then let* _ := c_assert (match b with None => true | Some _ => false end) in
                 Some (addw 64 (addw 64 sizeof_cmd n) 1)
   else Some (addw 64 cs n)) = Some (zlength acc + 25 + n).
Proof.
  intros Hs Hn. destruct Hs as [|b' op fl tg acc' Hd Hm].
  - cbn [c_assert mbind option_bind]. unfold addw, sizeof_cmd. rewrite !wrap_small by (unfold is_word; try rewrite wrap_small by (unfold is_word; lia); lia).
    f_equal. change (zlength []) with 0. lia.
  - unfold addw, max_cmd in *. assert (0 <= zlength acc') by (unfold zlength; lia). rewrite wrap_small by (unfold is_word; lia). done.
Qed.

Lemma realloc_spec b cs off first st acc n : stage b cs off first st acc -> 0 <= n <= 1024 ->
  (forall n, can_alloc n = true) -> exists b', realloc_cmd can_alloc junk b (zlength acc + 25 + n) = Some b'.
Proof. intros Hs Hn Ha. unfold realloc_cmd. rewrite Ha. destruct b; by eexists. Qed.

(** The command in memory when the fields of the fragment are known: the first gives it its own. *)
Lemma realloc_stage b cs off first st acc c n b' : stage b cs off first st acc -> 0 <= n <= 1024 ->
  realloc_cmd can_alloc junk b (zlength acc + 25 + n) = Some b' ->
  length (payload b') = S (length acc + Z.to_nat n) /\ take (length acc) (payload b') = acc /\
  let b2 := if first then Buf c (payload b') else b' in
  payload b2 = payload b' /\
  match st with
  | Some (op, fl, tg) => exists b0, b = Some b0 /\ cmd b2 = cmd b0 /\ delivers b0 op fl tg acc
  | None => cmd b2 = c
  end.
Proof.
  intros Hs Hn. unfold realloc_cmd. destruct (can_alloc _); [|done].
  assert (forall z, 0 <= z -> length (fresh junk z) = Z.to_nat z) as Hf.
  { intros z Hz. pose proof (zlength_fresh junk z Hz) as E. unfold zlength in E. lia. }
  destruct Hs as [|b0 op fl tg acc Hd Hm]; intros [= <-]; cbn [payload cmd].
  - unfold sizeof_cmd, zlength. cbn [length]. rewrite Hf by lia. split_and!; [lia|by rewrite take_0|done..].
  - pose proof (del_room _ _ _ _ _ Hd) as Hr. unfold sizeof_cmd, zlength in *.
    rewrite take_ge by (rewrite Hr; lia). split.
    { rewrite length_app, Hf by (rewrite Hr; lia). rewrite Hr. lia. }
    split. { rewrite take_app_le by lia. apply Hd. }
    split; [done|]. by exists b0.
Qed.

Lemma recv_payload_spec sk wait c b cs off first st acc b0 op fl tg crc chunk_len sk0 raw :
  stage b cs off first st acc -> 0 < chunk_len <= 1024 -> zlength acc + chunk_len + 25 <= max_cmd ->
  is_bytes (incoming sk) ->
  c = Cmd FIO_SERVER_VER op fl tg chunk_len (fio_crc16 (head op fl tg chunk_len)) crc ->
  is_word 16 op -> is_word 32 fl -> is_word 64 tg -> is_word 16 crc ->
  match st with Some (op', _, _) => op = op' | None => True end ->
  length (payload b0) = S (length acc + Z.to_nat chunk_len) -> take (length acc) (payload b0) = acc ->
  match st with
  | Some (op, fl, tg) => exists b1, cmd b0 = cmd b1 /\ delivers b1 op fl tg acc
  | None => cmd b0 = c
  end ->
  raw = header op fl tg chunk_len crc -> took sk0 raw sk ->
  exists r, recv_payload sk wait c b0 (zlength acc + 25 + chunk_len) off first = Some r /\ turn sk0 wait st acc r.
Proof.
  intros Hs Hn Hm Hb Hc Ho Hf Ht Hcrc Hst Hlen Htake Hcmd Hraw Hsk. unfold recv_payload.
  assert (pdu_len c = chunk_len) as Hp by by rewrite Hc. rewrite Hp.
  destruct (fio_recv_data_spec sk chunk_len wait) as (ret & got & sk' & -> & Htk & Hret & Hgen); [lia|]. cbn [mbind option_bind].
  destruct (stage_size _ _ _ _ _ _ Hs) as (_ & -> & Hfirst). assert (zlength got <= chunk_len) as Hgl by lia.
  assert (is_bytes got) as Hgb.
  { rewrite (took_in _ _ _ Htk) in Hb. by apply Forall_app in Hb as [Hb _]. }
  rewrite memcpy_Some by (unfold zlength in *; lia). cbn [mbind option_bind].
  assert (Z.to_nat (zlength acc) = length acc) as Ez by (unfold zlength; lia). rewrite !Ez, Htake.
  assert (0 <= chunk_len <= 1024) as Hn' by lia. subst raw.
  pose proof (frame_unique st acc sk0 sk op fl tg chunk_len crc) as Huniq.
  destruct Hret as [[-> Hz]|[-> Hz]]; cbn [Z.eqb negb].
  2: { eexists. split; [done|]. left. split; [done|]. split; [eexists; by eapply took_app|].
    intros (Hg & Hw & _ & op' & fl' & tg' & chunk' & crc' & last' & rest' & Ha & E). destruct (Huniq _ _ _ _ _ _ _ Ho Hf Ht Hn' Hcrc Hsk Ha E) as (_ & E1 & _ & E3).
    enough (-1 = 0) by done. apply Hgen; [by eapply took_gentle|done|]. rewrite E3, zlength_app. unfold zlength in *. lia. }
  set (pl := acc ++ got ++ drop (length acc + length got) (payload b0)).
  assert (drop (length acc) pl = got ++ drop (length acc + length got) (payload b0)) as Ed by (unfold pl; by rewrite drop_app_length).
  assert (drop (length acc + length got) (payload b0) <> []) as Hrest.
  { intros E. apply (f_equal length) in E. rewrite length_drop in E. cbn in E. unfold zlength in Hz. lia. }
  rewrite read_bytes_Some by (rewrite Ed, zlength_app; unfold zlength in *; lia). cbn [mbind option_bind]. rewrite Ed.
  assert (take (Z.to_nat chunk_len) (got ++ drop (length acc + length got) (payload b0)) = got) as Eg
    by (apply take_app_length'; unfold zlength in Hz; lia).
  rewrite Eg. assert (pdu_crc16 c = crc) as Hpc by by rewrite Hc. rewrite Hpc.
  assert (got <> []) as Hne by (intros ->; unfold zlength in Hz; cbn in Hz; lia).
  destruct (Z.eqb_spec (fio_crc16 got) crc) as [Ecrc|Ecrc]; cbn [negb].
  2: { eexists. split; [done|]. left. split; [done|]. split; [eexists; by eapply took_app|].
    intros (Hg & Hw & _ & op' & fl' & tg' & chunk' & crc' & last' & rest' & Ha & E). destruct (Huniq _ _ _ _ _ _ _ Ho Hf Ht Hn' Hcrc Hsk Ha E) as (_ & E1 & E2 & E3).
    apply Ecrc. rewrite (took_in _ _ _ Htk) in E3. apply app_inj_1 in E3 as [-> _]; [|unfold zlength in *; lia].
    rewrite <- E2. symmetry. by apply (acc_crc _ _ _ _ _ _ _ _ Ha). }
  assert (took sk0 (raw_frame op fl tg got crc) sk') as Htake2.
  { unfold raw_frame. rewrite Hz. by eapply took_app. }
  assert (in_range op fl tg got crc) as Hrange by (split; try done; lia).
  assert (zlength (acc ++ got) = zlength acc + chunk_len) as Hag by (rewrite zlength_app; lia).
  set (b2 := if first then _ else _).
  assert (let '(op, fl, tg) := named st op fl tg in delivers b2 op fl tg (acc ++ got)) as Hdel.
  { assert (payload b2 = pl) as Hpl by (unfold b2; by destruct first).
    assert (take (length (acc ++ got)) pl = acc ++ got /\ length pl = S (length (acc ++ got))) as [Hd1 Hd2].
    { unfold pl. rewrite (app_assoc acc), take_app_length. split; [done|]. rewrite !length_app, length_drop, Hlen. unfold zlength in Hz. lia. }
    destruct Hs as [|b1 op1 fl1 tg1 acc Hd1' Hm1]; cbn [named].
    - unfold b2 in *. split; cbn [cmd payload]; rewrite ?Hcmd, ?Hc; done.
    - destruct Hcmd as (b3 & Ec3 & [D1 D2 D3 D4 D5 _ _]). unfold b2 in *. split; cbn [cmd payload set_pdu_len version opcode flags tag pdu_len]; rewrite ?Ec3; try done.
      rewrite D5, Hag. unfold addw. unfold max_cmd, zlength in *. rewrite wrap_small by (unfold is_word; lia). done. }
  destruct (c_true (Z.land (flags c) FIO_NET_CMD_F_MORE)) eqn:El; rewrite Hc in El; cbn [flags] in El; unfold c_true in El.
  - eexists. split; [done|]. exists op, fl, tg, got, crc. split_and!; [split; try done|done|].
    + lia.
    + split; [done|]. intros [?|E]; [done|]. by rewrite E in El.
    + destruct (named st op fl tg) as [[op2 fl2] tg2] eqn:En. 
      assert (addw 64 (zlength acc) chunk_len = zlength (acc ++ got)) as ->.
      { rewrite Hag. unfold addw, max_cmd, zlength in *. apply wrap_small. unfold is_word. lia. }
      replace (zlength acc + 25 + chunk_len) with (zlength (acc ++ got) + 25) by lia. constructor; [done|lia].
  - eexists. split; [done|]. right. split; [done|]. exists op, fl, tg, got, crc. split_and!; [split; try done|done|done].
    + lia.
    + split; [|done]. intros _. right. apply Z.eqb_eq. by destruct (_ =? 0).
Qed.

Lemma turn_fails sk l sk' wait st acc b : took sk l sk' -> ~ arrives sk wait st acc ->
  turn sk wait st acc (inl (1, b, sk')) /\ turn sk wait st acc (inl (-1, b, sk')).
Proof. intros H1 H2. split; left; (split; [done|]; split; [by exists l|done]). Qed.

Lemma raw_frame_length op fl tg chunk crc : zlength (raw_frame op fl tg chunk crc) = 24 + zlength chunk.
Proof. unfold raw_frame. rewrite zlength_app. unfold zlength at 1. by rewrite command_header_length. Qed.

Lemma max_cmd_spec x : x / 1024 <= FIO_SERVER_MAX_CMD_MB * 1024 <-> x <= max_cmd.
Proof.
  unfold max_cmd, FIO_SERVER_MAX_CMD_MB. pose proof (Z.div_mod x 1024 ltac:(lia)).
  pose proof (Z.mod_pos_bound x 1024 eq_refl). lia.
Qed.

Lemma recv_one_spec sk wait b cs off first st acc : stage b cs off first st acc -> is_bytes (incoming sk) ->
  exists r, recv_one big can_alloc junk sk wait b cs off first = Some r /\ turn sk wait st acc r.
Proof.
  intros Hs Hb. unfold recv_one.
  destruct (fio_recv_data_spec sk sizeof_cmd wait) as (ret & raw & sk' & -> & Htk & Hret & Hgen); [done|]. cbn [mbind option_bind].
  destruct Hret as [[-> Hz]|[-> Hz]]; cbn [Z.eqb negb].
  2: { eexists. split; [done|]. refine (proj2 (turn_fails _ _ _ _ _ _ _ Htk _)).
    intros (Hg & Hw & _ & op & fl & tg & chunk & crc & last & rest & Ha & E). enough (-1 = 0) by done. apply Hgen; [done..|].
    rewrite E, zlength_app, raw_frame_length. unfold zlength, sizeof_cmd. lia. }
  assert (length raw = 24%nat) as Hlen by (unfold zlength, sizeof_cmd in Hz; lia).
  assert (is_bytes raw /\ is_bytes (incoming sk')) as [Hrb Hib].
  { rewrite (took_in _ _ _ Htk) in Hb. by apply Forall_app in Hb. }
  destruct (verify_spec big raw Hlen Hrb) as (c0 & r & c & -> & Hv & Hc). cbn [mbind option_bind]. rewrite Hv. cbn [mbind option_bind].
  destruct Hc as [(-> & -> & Hgood)|[-> Hbad]]; cbn [Z.eqb negb].
  2: { eexists. split; [done|]. refine (proj1 (turn_fails _ _ _ _ _ _ _ Htk _)).
    intros (Hg & Hw & _ & op & fl & tg & chunk & crc & last & rest & Ha & E). apply Hbad.
    rewrite (took_in _ _ _ Htk) in E. unfold raw_frame in E. rewrite <- app_assoc in E.
    apply app_inj_1 in E as [-> _]; [|by rewrite command_header_length].
    destruct (acc_range _ _ _ _ _ _ _ _ Ha) as [? ? ? ? ? ?]. refine (proj1 (proj2 (header_decode _ _ _ _ _ [] _ _ _ _ _))); try done.
    unfold zlength in *. lia. }
  destruct (good_header raw Hlen Hrb Hgood) as (Hraw & Ho & Hf & Ht & Hl & Hcrc & Hver).
  set (c := decode raw) in *. set (len := pdu_len c) in *.
  rewrite (size_spec b cs off first st acc len) by done. cbn [mbind option_bind].
  assert (took sk (header (opcode c) (flags c) (tag c) len (pdu_crc16 c)) sk') as Htk2 by by rewrite <- Hraw.
  pose proof (frame_unique st acc sk sk' (opcode c) (flags c) (tag c) len (pdu_crc16 c)) as Huniq.
  assert (0 <= zlength acc) as Hz0 by (unfold zlength; lia).
  destruct (Z.ltb_spec (FIO_SERVER_MAX_CMD_MB * 1024) ((zlength acc + 25 + len) / 1024)) as [Hbig|Hsmall].
  { eexists. split; [done|]. refine (proj1 (turn_fails _ _ _ _ _ _ _ Htk _)).
    intros (Hg & Hw & _ & op & fl & tg & chunk & crc & last & rest & Ha & E).
    destruct (Huniq _ _ _ _ _ _ _ Ho Hf Ht Hl Hcrc Htk2 Ha E) as (_ & E1 & _). pose proof (acc_size _ _ _ _ _ _ _ _ Ha) as Hm.
    pose proof (proj2 (max_cmd_spec (zlength acc + 25 + len)) ltac:(lia)). lia. }
  destruct (realloc_cmd can_alloc junk b (zlength acc + 25 + len)) as [b'|] eqn:Er.
  2: { eexists. split; [done|]. refine (proj1 (turn_fails _ _ _ _ _ _ _ Htk _)).
    intros (Hg & Hw & Hal & _). destruct (realloc_spec _ _ _ _ _ _ len Hs Hl Hal) as [? E]. by rewrite E in Er. }
  destruct (realloc_stage b cs off first st acc c len b' Hs Hl Er) as (Hlen' & Htake & Hpl & Hcmd). cbn zeta in Hpl, Hcmd.
  set (b2 := if first then _ else _) in *.
  assert (zlength acc + len + 25 <= max_cmd) as Hmax by (apply max_cmd_spec in Hsmall; lia).
  assert (opcode (cmd b2) = match st with Some (op, _, _) => op | None => opcode c end) as Hopc.
  { destruct st as [[[op fl] tg]|]; [|by rewrite Hcmd]. destruct Hcmd as (b0 & _ & -> & Hd). apply Hd. }
  destruct (negb first && negb (opcode (cmd b2) =? opcode c)) eqn:Eop.
  { eexists. split; [done|]. refine (proj1 (turn_fails _ _ _ _ _ _ _ Htk _)).
    intros (Hg & Hw & _ & op & fl & tg & chunk & crc & last & rest & Ha & E).
    destruct (Huniq _ _ _ _ _ _ _ Ho Hf Ht Hl Hcrc Htk2 Ha E) as (E1 & _). pose proof (acc_op _ _ _ _ _ _ _ _ Ha) as Hop.
    apply andb_true_iff in Eop as [_ Eop]. apply negb_true_iff, Z.eqb_neq in Eop. apply Eop. rewrite Hopc, E1.
    destruct st as [[[op1 fl1] tg1]|]; [done|done]. }
  assert (match st with Some (op', _, _) => opcode c = op' | None => True end) as Hst.
  { destruct Hs as [|b0 op fl tg acc Hd Hm]; [done|]. cbn [negb andb] in Eop. apply negb_false_iff, Z.eqb_eq in Eop. by rewrite <- Eop. }
  assert (zlength (@nil Z) = 0) as Hnil by done.
  destruct (Z.eqb_spec len 0) as [E0|E0].
  - eexists. split; [done|]. right. split; [done|]. exists (opcode c), (flags c), (tag c), [], (pdu_crc16 c). split_and!.
    + split; try done; [split; try done; by constructor|rewrite Hnil; lia|]. split; [by left|done].
    + unfold raw_frame. rewrite Hnil, app_nil_r. by rewrite E0 in Htk2.
    + rewrite app_nil_r. rewrite E0 in Hlen'. 
      assert (length (payload b2) = S (length acc) /\ take (length acc) (payload b2) = acc) as [P1 P2].
      { rewrite Hpl, Hlen'. split; [lia|done]. }
      destruct Hs as [|b0 op fl tg acc Hd Hm]; cbn [named].
      * split; rewrite ?Hcmd; done.
      * destruct Hcmd as (b1 & _ & Ec & [D1 D2 D3 D4 D5 _ _]). split; rewrite ?Ec; done.
  - destruct (recv_payload_spec sk' wait c b cs off first st acc b2 (opcode c) (flags c) (tag c) (pdu_crc16 c) len sk raw) as (r & -> & Hr); try done.
    { lia. }
    { unfold c at 1. destruct (header_decode (opcode c) (flags c) (tag c) len (pdu_crc16 c) [] Ho Hf Ht Hl Hcrc) as [Ed _].
      by rewrite <- Ed, <- Hraw. }
    { by rewrite Hpl. } { by rewrite Hpl. }
    { destruct st as [[[op1 fl1] tg1]|]; [|done]. destruct Hcmd as (b1 & _ & Ec & Hd). by exists b1. }
    by exists r.
Qed.

(** The bytes of the rest of a command, and the command they complete. *)
Inductive completes : option (Z * Z * Z) -> list Z -> list Z -> Z * Z * Z -> list Z -> Prop :=
  | completes_last st acc op fl tg chunk crc : acceptable st acc op fl tg chunk crc true ->
      completes st acc (raw_frame op fl tg chunk crc) (named st op fl tg) (acc ++ chunk)
  | completes_more st acc op fl tg chunk crc l n data : acceptable st acc op fl tg chunk crc false ->
      completes (Some (named st op fl tg)) (acc ++ chunk) l n data ->
      completes st acc (raw_frame op fl tg chunk crc ++ l) n data.

Lemma acceptable_unique st acc op fl tg chunk crc last op' fl' tg' chunk' crc' last' r r' :
  acceptable st acc op fl tg chunk crc last -> acceptable st acc op' fl' tg' chunk' crc' last' ->
  raw_frame op fl tg chunk crc ++ r = raw_frame op' fl' tg' chunk' crc' ++ r' ->
  op = op' /\ fl = fl' /\ tg = tg' /\ chunk = chunk' /\ last = last' /\ r = r'.
Proof.
  intros [[A1 A2 A3 A4 A5 A6] _ _ _ La] [[B1 B2 B3 B4 B5 B6] _ _ _ Lb] E. unfold raw_frame in E. rewrite <- !app_assoc in E.
  apply app_inj_1 in E as [E1 E2]; [|by rewrite !command_header_length].
  apply header_inj in E1 as (-> & -> & -> & Hz & ->); try done; try (unfold zlength in *; lia).
  apply app_inj_1 in E2 as [-> ->]; [|unfold zlength in Hz; lia].
  split_and!; try done. destruct last, last'; try done; [symmetry; by apply Lb, La|by apply La, Lb].
Qed.

(** A command is there, and nothing is in the way of it. *)
Definition command_arrives (sk : socket) (wait : bool) (st : option (Z * Z * Z)) (acc : list Z) : Prop :=
  gentle (reads sk) /\ wait = true /\ (forall n, can_alloc n = true) /\
  exists l rest n data, completes st acc l n data /\ incoming sk = l ++ rest.

Lemma command_first sk wait st acc : command_arrives sk wait st acc -> arrives sk wait st acc.
Proof.
  intros (Hg & Hw & Ha & l & rest & n & data & Hc & E). split_and!; try done.
  destruct Hc as [st acc op fl tg chunk crc H|st acc op fl tg chunk crc l n data H _];
    do 7 eexists; (split; [exact H|]); rewrite E, <- ?app_assoc; done.
Qed.

Lemma command_rest sk sk' wait st acc op fl tg chunk crc :
  acceptable st acc op fl tg chunk crc false -> took sk (raw_frame op fl tg chunk crc) sk' ->
  command_arrives sk wait st acc -> command_arrives sk' wait (Some (named st op fl tg)) (acc ++ chunk).
Proof.
  intros Ha Ht (Hg & Hw & Hal & l & rest & n & data & Hc & E). split_and!; try done; [by eapply took_gentle|].
  rewrite (took_in _ _ _ Ht) in E.
  destruct Hc as [st acc op' fl' tg' chunk' crc' H|st acc op' fl' tg' chunk' crc' l n data H Hc].
  - by destruct (acceptable_unique _ _ _ _ _ _ _ _ _ _ _ _ _ _ _ _ Ha H E) as (_ & _ & _ & _ & ? & _).
  - rewrite <- app_assoc in E.
    destruct (acceptable_unique _ _ _ _ _ _ _ _ _ _ _ _ _ _ _ _ Ha H E) as (-> & -> & -> & -> & _ & E2).
    by exists l, rest, n, data.
Qed.

Lemma recv_cmd_loop_spec wait fuel : forall sk b cs off first st acc, stage b cs off first st acc ->
  is_bytes (incoming sk) -> (length (incoming sk) < fuel)%nat ->
  exists ret r sk', recv_cmd_loop big can_alloc junk fuel sk wait b cs off first = Some (ret, r, sk') /\
    ((ret <> 0 /\ (exists l, took sk l sk') /\ ~ command_arrives sk wait st acc) \/
     (ret = 0 /\ exists l op fl tg data b', completes st acc l (op, fl, tg) data /\ took sk l sk' /\
        r = Some b' /\ delivers b' op fl tg data)).
Proof.
  induction fuel as [|fuel IH]; intros sk b cs off first st acc Hs Hb Hf; [lia|]. cbn [recv_cmd_loop].
  destruct (recv_one_spec sk wait b cs off first st acc Hs Hb) as (r & -> & Hr). cbn [mbind option_bind].
  destruct r as [[[ret rb] sk']|[[[rb cs'] off'] sk']].
  - do 3 eexists. split; [done|]. destruct Hr as [(Hret & Ht & Hn)|(-> & op & fl & tg & chunk & crc & Ha & Ht & Hd)].
    + left. split_and!; try done. intros H%command_first. done.
    + right. split; [done|]. destruct rb as [rb|]; [|done]. destruct (named st op fl tg) as [[op2 fl2] tg2] eqn:En.
      exists (raw_frame op fl tg chunk crc), op2, fl2, tg2, (acc ++ chunk), rb. split_and!; try done. rewrite <- En. by constructor.
  - destruct Hr as (op & fl & tg & chunk & crc & Ha & Ht & Hst).
    destruct (IH sk' (Some rb) cs' off' false _ _ Hst) as (ret & rb' & sk2 & -> & H).
    { rewrite (took_in _ _ _ Ht) in Hb. by apply Forall_app in Hb as [_ Hb]. }
    { pose proof (f_equal length (took_in _ _ _ Ht)) as E. rewrite length_app in E.
      pose proof (raw_frame_length op fl tg chunk crc). unfold zlength in *. lia. }
    do 3 eexists. split; [done|]. destruct H as [(Hret & [l Hl] & Hn)|(-> & l & op2 & fl2 & tg2 & data & b' & Hc & Hl & -> & Hd)].
    + left. split; [done|]. split; [eexists; by eapply took_app|]. intros H. apply Hn. by eapply command_rest.
    + right. split; [done|]. exists (raw_frame op fl tg chunk crc ++ l), op2, fl2, tg2, data, b'. split_and!; try done.
      * by eapply completes_more.
      * by eapply took_app.
Qed.

(** ** The command that is handed out *)

(** Where a text is ended in the payload, for the commands that carry one. *)
Definition text_end (op : Z) (data : list Z) : option Z :=
  if op =? FIO_NET_CMD_TEXT then Some (24 + as_int (part 4 4 data))
  else if op =? FIO_NET_CMD_JOB then Some (8 + as_int (part 0 4 data))
  else None.

(** The text, with its end, lies within the payload and the byte behind it. *)
Definition text_fits (op : Z) (data : list Z) : Prop :=
  data = [] \/ match text_end op data with
               | Some k => 8 <= zlength data /\ 0 <= k <= zlength data
               | None => True
               end.

(** The payload in memory: [x] is the byte behind the data. *)
Definition terminated (op : Z) (data : list Z) (x : Z) : list Z :=
  match data, text_end op data with
  | _ :: _, Some k => <[Z.to_nat k := 0]> (data ++ [x])
  | _, _ => data ++ [x]
  end.

Record received (b : cmd_buf) (op fl tg : Z) (data : list Z) (x : Z) : Prop := {
  rec_version : version (cmd b) = FIO_SERVER_VER;
  rec_opcode : opcode (cmd b) = op;
  rec_flags : flags (cmd b) = Z.land fl (notw 32 FIO_NET_CMD_F_MORE);
  rec_tag : tag (cmd b) = tg;
  rec_len : pdu_len (cmd b) = zlength data;
  rec_payload : payload b = terminated op data x;
}.

Lemma delivers_payload b op fl tg data : delivers b op fl tg data -> exists x, payload b = data ++ [x].
Proof.
  intros [_ _ _ _ _ Hd Hr]. rewrite <- (take_drop (length data) (payload b)), Hd.
  assert (length (drop (length data) (payload b)) = 1%nat) as E by (rewrite length_drop; lia).
  destruct (drop (length data) (payload b)) as [|x [|y l]]; try done. by exists x.
Qed.

Lemma text_field data x off : is_bytes data -> zlength data >= 8 -> (off + 4 <= 8)%nat ->
  exists v, field big (Z.of_nat off) 4 (data ++ [x]) = Some v /\ le32_to_cpu big v = part off 4 data.
Proof.
  intros Hb Hz Ho. unfold zlength in Hz. rewrite (field_part big _ _ _ off 4) by (done || rewrite length_app; lia).
  eexists. split; [done|]. unfold part. rewrite drop_app_le, take_app_le by (rewrite ?length_drop; lia).
  apply le32_host; [by apply Forall_take, Forall_drop|]. rewrite length_take, length_drop. lia.
Qed.

Lemma arr_set_end data x k : 0 <= k <= zlength data ->
  arr_set (data ++ [x]) k 0 = Some (<[Z.to_nat k := 0]> (data ++ [x])).
Proof.
  intros H. unfold arr_set. rewrite length_app. cbn [length]. unfold zlength in H.
  destruct (Z.leb_spec 0 k); [|lia]. destruct (Z.ltb_spec k (Z.of_nat (length data + 1))); [done|lia].
Qed.

Lemma zero_terminate_spec b op fl tg data : delivers b op fl tg data -> is_bytes data -> text_fits op data ->
  exists b' x, zero_terminate big b = Some b' /\ cmd b' = cmd b /\ payload b' = terminated op data x.
Proof.
  intros Hd Hb Hf. destruct (delivers_payload _ _ _ _ _ Hd) as [x Hx].
  unfold zero_terminate, terminated. rewrite (del_len _ _ _ _ _ Hd), (del_opcode _ _ _ _ _ Hd), Hx.
  destruct data as [|y data].
  { exists b, x. split; [done|]. split; [done|]. by rewrite Hx. }
  pose proof (zlength_pos (y :: data) ltac:(done)) as Hp. assert ((zlength (y :: data) =? 0) = false) as -> by (apply Z.eqb_neq; lia).
  destruct Hf as [Hf|Hf]; [done|]. unfold text_end in *. set (d := y :: data) in *.
  destruct (op =? FIO_NET_CMD_TEXT); [|destruct (op =? FIO_NET_CMD_JOB)].
  - destruct Hf as [H8 Hk]. destruct (text_field d x 4 Hb ltac:(lia) ltac:(lia)) as (v & Ev & El).
    change (Z.of_nat 4) with 4 in Ev. rewrite Ev. cbn [mbind option_bind]. rewrite El, arr_set_end by done. cbn [mbind option_bind].
    eexists _, x. split; [done|]. done.
  - destruct Hf as [H8 Hk]. destruct (text_field d x 0 Hb ltac:(lia) ltac:(lia)) as (v & Ev & El).
    change (Z.of_nat 0) with 0 in Ev. rewrite Ev. cbn [mbind option_bind]. rewrite El, arr_set_end by done. cbn [mbind option_bind].
    eexists _, x. split; [done|]. done.
  - exists b, x. split; [done|]. split; [done|]. by rewrite Hx.
Qed.

Lemma completes_bytes st acc l n data : completes st acc l n data -> is_bytes acc -> is_bytes data.
Proof.
  induction 1 as [st acc op fl tg chunk crc [[] _ _ _ _]|st acc op fl tg chunk crc l n data [[] _ _ _ _] _ IH]; intros Hb.
  - by apply Forall_app.
  - apply IH. by apply Forall_app.
Qed.

(** Whatever comes: nothing is handed out, or the command that the bytes taken from the
    socket make up; a command that is there and has nothing in its way is handed out. *)
Lemma recv_cmd_spec sk wait : is_bytes (incoming sk) ->
  (exists sk' l, fio_net_recv_cmd big can_alloc junk sk wait = Some (None, sk') /\ took sk l sk' /\
     ~ command_arrives sk wait None []) \/
  (exists sk' l op fl tg data, completes None [] l (op, fl, tg) data /\ took sk l sk' /\
     (text_fits op data -> exists b x, fio_net_recv_cmd big can_alloc junk sk wait = Some (Some b, sk') /\
        received b op fl tg data x)).
Proof.
  intros Hb. unfold fio_net_recv_cmd.
  destruct (recv_cmd_loop_spec wait (S (length (incoming sk))) sk None 0 0 true None [] stage_first Hb ltac:(lia))
    as (ret & r & sk' & -> & [(Hret & [l Hl] & Hn)|(-> & l & op & fl & tg & data & b & Hc & Hl & -> & Hd)]); cbn [mbind option_bind].
  - left. exists sk', l. assert ((ret =? 0) = false) as -> by lia. done.
  - right. exists sk', l, op, fl, tg, data. split; [done|]. split; [done|]. intros Hf. cbn [Z.eqb negb].
    destruct (zero_terminate_spec b op fl tg data Hd (completes_bytes _ _ _ _ _ Hc (Forall_nil_2 _)) Hf) as (b' & x & -> & Ec & Ep).
    cbn [mbind option_bind]. eexists _, x. split; [done|]. destruct Hd as [D1 D2 D3 D4 D5 _ _].
    split; cbn [cmd payload set_flags version opcode flags tag pdu_len]; by rewrite ?Ec, ?D3.
Qed.

Lemma completes_unique st acc l n data : completes st acc l n data ->
  forall l' n' data' r r', completes st acc l' n' data' -> l ++ r = l' ++ r' -> l = l' /\ n = n' /\ data = data'.
Proof.
  induction 1 as [st acc op fl tg chunk crc Ha|st acc op fl tg chunk crc l n data Ha Hc IH]; intros l' n' data' r r' H' E.
  - destruct H' as [st acc op' fl' tg' chunk' crc' Hb|st acc op' fl' tg' chunk' crc' l' n' data' Hb _].
    + pose proof (acceptable_unique _ _ _ _ _ _ _ _ _ _ _ _ _ _ _ _ Ha Hb E) as (-> & -> & -> & -> & _ & E2).
      split; [|done]. subst r'. by apply app_inv_tail in E.
    + rewrite <- app_assoc in E.
      by pose proof (acceptable_unique _ _ _ _ _ _ _ _ _ _ _ _ _ _ _ _ Ha Hb E) as (_ & _ & _ & _ & ? & _).
  - destruct H' as [st acc op' fl' tg' chunk' crc' Hb|st acc op' fl' tg' chunk' crc' l' n' data' Hb Hc'].
    + rewrite <- app_assoc in E.
      by pose proof (acceptable_unique _ _ _ _ _ _ _ _ _ _ _ _ _ _ _ _ Ha Hb E) as (_ & _ & _ & _ & ? & _).
    + rewrite <- !app_assoc in E.
      pose proof (acceptable_unique _ _ _ _ _ _ _ _ _ _ _ _ _ _ _ _ Ha Hb E) as (-> & -> & -> & -> & _ & E2).
      destruct (IH _ _ _ _ _ Hc' E2) as (-> & -> & ->). split; [|done].
      rewrite E2 in E. apply app_inv_tail in E. by rewrite E.
Qed.

(** Fragments that can be sent: only the last one may be empty. *)
Record sendable (op : Z) (l : list (Z * list Z)) : Prop := {
  send_op : is_word 16 op;
  send_some : l <> [];
  send_each : Forall (fun f => is_word 64 (fst f) /\ is_bytes (snd f) /\ zlength (snd f) <= 1024) l;
  send_full : forall a f d, l = a ++ f :: d -> d <> [] -> snd f <> [];
}.

Definition fragments_data (l : list (Z * list Z)) : list Z := concat (map snd l).
Definition fragments_tag (l : list (Z * list Z)) : Z := match l with f :: _ => fst f | [] => 0 end.
Definition fragments_flags (l : list (Z * list Z)) : Z :=
  match l with _ :: _ :: _ => FIO_NET_CMD_F_MORE | _ => 0 end.

Lemma frame_raw op fl tg chunk : frame op fl tg chunk = raw_frame op fl tg chunk (fio_crc16 chunk).
Proof. reflexivity. Qed.

Lemma frame_acceptable st acc op fl tg chunk last : is_word 16 op -> is_word 64 tg -> is_bytes chunk ->
  zlength chunk <= 1024 -> zlength acc + zlength chunk + 25 <= max_cmd ->
  match st with Some (op', _, _) => op = op' | None => True end ->
  fl = 0 /\ last = true \/ fl = FIO_NET_CMD_F_MORE /\ chunk <> [] /\ last = false ->
  acceptable st acc op fl tg chunk (fio_crc16 chunk) last.
Proof.
  intros Ho Ht Hb Hl Hm Hs Hfl. split; [|exact Hs|exact Hm|by intros _|].
  - split; [exact Ho| |exact Ht|exact Hb|exact Hl|by apply crc16_word]. destruct Hfl as [[-> _]|[-> _]]; done.
  - destruct Hfl as [[-> ->]|(-> & Hne & ->)]; [|]; split; try done; [by right|intros [?|?]; done].
Qed.

Lemma frames_complete op l : sendable op l -> forall st acc, 
  match st with Some (op', _, _) => op = op' | None => True end ->
  zlength acc + zlength (fragments_data l) + 25 <= max_cmd ->
  completes st acc (frames op 0 l) (named st op (fragments_flags l) (fragments_tag l)) (acc ++ fragments_data l).
Proof.
  intros [Ho Hne He Hfull]. induction l as [|[t c] l IH]; [done|]. intros st acc Hst Hm. clear Hne.
  apply Forall_cons_1 in He as [(Ht & Hb & Hl) He]. cbn [fst snd] in *. unfold fragments_data in *. cbn [map concat fst snd] in *.
  rewrite zlength_app in Hm. destruct l as [|f l].
  - cbn [map concat] in *. rewrite app_nil_r. cbn [frames fragments_flags fragments_tag fst].
    rewrite frame_raw. change (zlength []) with 0 in Hm. apply completes_last, frame_acceptable; try done; [lia|by left].
  - rewrite frames_cons by done. cbn [fragments_flags fragments_tag fst]. rewrite frame_raw.
    assert (c <> []) as Hc by by apply (Hfull [] (t, c) (f :: l)).
    assert (0 <= zlength (concat (map snd (f :: l)))) by (unfold zlength; lia).
    apply completes_more.
    + apply frame_acceptable; try done; [lia|by right].
    + rewrite app_assoc. assert (forall n : Z * Z * Z, named (Some n) op (fragments_flags (f :: l)) (fragments_tag (f :: l)) = n) as Hn by done.
      rewrite <- (Hn (named st op FIO_NET_CMD_F_MORE t)) at 2. apply IH; try done.
      * intros a f' d E Hd. apply (Hfull ((t, c) :: a) f' d); [by rewrite E|done].
      * destruct st as [[[op' fl'] tg']|]; done.
      * rewrite zlength_app. lia.
Qed.

Lemma frames_bytes op l : Forall (fun f => is_word 64 (fst f) /\ is_bytes (snd f) /\ zlength (snd f) <= 1024) l ->
  is_bytes (frames op 0 l).
Proof.
  induction l as [|[t c] l IH]; intros He; [constructor|]. apply Forall_cons_1 in He as [(_ & Hb & _) He].
  destruct l as [|f l].
  - cbn [frames]. apply Forall_app. split; [apply header_bytes|exact Hb].
  - rewrite frames_cons by done. apply Forall_app. split; [|by apply IH]. apply Forall_app. split; [apply header_bytes|exact Hb].
Qed.

(** A command that comes in its fragments is handed out. *)
Lemma recv_frames sk op l rest : sendable op l -> zlength (fragments_data l) + 25 <= max_cmd ->
  text_fits op (fragments_data l) -> is_bytes rest -> gentle (reads sk) -> (forall n, can_alloc n = true) ->
  incoming sk = frames op 0 l ++ rest ->
  exists sk' b x, fio_net_recv_cmd big can_alloc junk sk true = Some (Some b, sk') /\
    received b op 0 (fragments_tag l) (fragments_data l) x /\ took sk (frames op 0 l) sk'.
Proof.
  intros Hs Hm Hf Hr Hg Ha E.
  pose proof (frames_complete op l Hs None [] I ltac:(change (zlength []) with 0; lia)) as Hc. cbn [app named] in Hc.
  assert (is_bytes (incoming sk)) as Hb.
  { rewrite E. apply Forall_app. split; [|done]. apply frames_bytes, Hs. }
  destruct (recv_cmd_spec sk true Hb) as [(sk' & l' & _ & _ & Hn)|(sk' & l' & op' & fl' & tg' & data' & Hc' & Ht & H)].
  { exfalso. apply Hn. split_and!; try done. by exists (frames op 0 l), rest, (op, fragments_flags l, fragments_tag l), (fragments_data l). }
  pose proof (took_in _ _ _ Ht) as E2. rewrite E in E2.
  destruct (completes_unique _ _ _ _ _ Hc _ _ _ _ _ Hc' E2) as (<- & En & <-). injection En as <- <- <-.
  destruct (H Hf) as (b & x & Hrec & Hb'). exists sk', b, x. split; [done|]. split; [|done].
  destruct Hb' as [R1 R2 R3 R4 R5 R6]. split; try done. rewrite R3. by destruct l as [|? [|]].
Qed.

End Receive.
