(* ===== verification/NetLaws.v ===== *)
(** What the commands of Net promise: they arrive whole, in order and only undamaged; a text
    is ended; a reply finds its request; a command line is what it was. *)
From S2P Require Import Prelude Stream Crc Net NetWire NetRecv.

#[local] Opaque fio_crc16.

(** * Proofs: damage *)

Lemma le_bytes_word_inj n w a b : w = 8 * Z.of_nat n -> is_word w a -> is_word w b -> le_bytes n a = le_bytes n b -> a = b.
Proof. intros -> Ha Hb E. rewrite <- (value_bytes n _ a), <- (value_bytes n _ b) by done. by rewrite E. Qed.

Lemma insert_ne (l : list Z) j x : (j < length l)%nat -> x <> tbl l (Z.of_nat j) -> <[j := x]> l <> l.
Proof.
  intros Hj Hx E. apply Hx. unfold tbl. rewrite Nat2Z.id. symmetry. apply nth_lookup_Some.
  rewrite <- E. by apply list_lookup_insert_eq.
Qed.

Lemma crc_changed l j x : is_bytes l -> is_word 8 x -> (j < length l)%nat -> x <> tbl l (Z.of_nat j) ->
  fio_crc16 (<[j := x]> l) <> fio_crc16 l.
Proof.
  intros Hl Hx Hj Hne. destruct crc_steps_detect as (Hd & _).
  exact (fold_detects 16 crc16_byte l j x 0 Hd ltac:(done) Hl Hx Hj Hne).
Qed.

Lemma insert_bytes (l : list Z) j x : is_bytes l -> is_word 8 x -> is_bytes (<[j := x]> l).
Proof. intros. by apply Forall_insert. Qed.

Lemma tbl_right (a b : list Z) j : (length a <= j)%nat -> tbl (a ++ b) (Z.of_nat j) = tbl b (Z.of_nat (j - length a)).
Proof. intros. unfold tbl. rewrite !Nat2Z.id. by apply app_nth2. Qed.

Lemma tbl_left (a b : list Z) j : (j < length a)%nat -> tbl (a ++ b) (Z.of_nat j) = tbl a (Z.of_nat j).
Proof. intros. unfold tbl. rewrite !Nat2Z.id. by apply app_nth1. Qed.

(** A header with one changed byte is none, unless the byte is of the payload's checksum. *)
Lemma command_header_damaged op fl tg len crc j x op' fl' tg' len' crc' : (j < 24)%nat -> is_word 8 x ->
  is_word 16 op -> is_word 32 fl -> is_word 64 tg -> 0 <= len <= 1024 -> is_word 16 crc ->
  is_word 16 op' -> is_word 32 fl' -> is_word 64 tg' -> 0 <= len' <= 1024 -> is_word 16 crc' ->
  x <> tbl (header op fl tg len crc) (Z.of_nat j) ->
  <[j := x]> (header op fl tg len crc) = header op' fl' tg' len' crc' ->
  len' = len /\ crc' <> crc.
Proof.
  intros Hj Hx A1 A2 A3 A4 A5 B1 B2 B3 B4 B5 Hne E. unfold header in *.
  set (h := head op fl tg len) in *. set (h' := head op' fl' tg' len') in *.
  assert (is_bytes h /\ length h = 20%nat /\ length h' = 20%nat) as (Hb & Hl & Hl') by (split_and!; [apply head_bytes|apply head_length..]).
  pose proof (crc16_word h Hb) as Hc. pose proof (crc16_word h' (head_bytes _ _ _ _)) as Hc'.
  destruct (Nat.lt_ge_cases j 20) as [H20|H20].
  - rewrite tbl_left in Hne by lia. rewrite insert_app_l in E by lia.
    apply app_inj_1 in E as [E1 E2]; [|by rewrite length_insert, Hl, Hl'].
    apply app_inj_1 in E2 as [E2 _]; [|by rewrite !le_bytes_length].
    apply (le_bytes_word_inj 2 16) in E2; try done. rewrite <- E1 in E2. by destruct (crc_changed h j x Hb Hx ltac:(lia) Hne).
  - rewrite tbl_right in Hne by lia. rewrite insert_app_r_alt in E by lia. rewrite Hl in *.
    apply app_inj_1 in E as [E1 E2]; [|by rewrite Hl, Hl'].
    assert (header op fl tg len crc = header op' fl' tg' len' crc -> len' = len) as Hlen.
    { intros Eh. by apply header_inj in Eh as (_ & _ & _ & -> & _). }
    destruct (Nat.lt_ge_cases j 22) as [H22|H22].
    + rewrite tbl_left in Hne by (rewrite le_bytes_length; lia). rewrite insert_app_l in E2 by (rewrite le_bytes_length; lia).
      apply app_inj_1 in E2 as [E2 _]; [|by rewrite length_insert, !le_bytes_length].
      rewrite <- E1 in E2. by apply insert_ne in E2; [|rewrite le_bytes_length; lia|].
    + rewrite tbl_right in Hne by (rewrite le_bytes_length; lia). rewrite insert_app_r_alt in E2 by (rewrite le_bytes_length; lia).
      rewrite le_bytes_length in *.
      apply app_inj_1 in E2 as [_ E2]; [|by rewrite !le_bytes_length]. split.
      * apply Hlen. unfold header. fold h h'. by rewrite <- E1.
      * intros ->. by apply insert_ne in E2; [|rewrite le_bytes_length; lia|].
Qed.

(** A fragment with one changed byte is none. *)
Lemma frame_damaged op fl tg chunk j x st acc op' fl' tg' chunk' crc' last r r' :
  is_word 16 op -> is_word 32 fl -> is_word 64 tg -> is_bytes chunk -> zlength chunk <= 1024 -> chunk <> [] ->
  (j < length (frame op fl tg chunk))%nat -> is_word 8 x -> x <> tbl (frame op fl tg chunk) (Z.of_nat j) ->
  acceptable st acc op' fl' tg' chunk' crc' last ->
  <[j := x]> (frame op fl tg chunk) ++ r <> raw_frame op' fl' tg' chunk' crc' ++ r'.
Proof.
  intros Ho Hf Ht Hb Hl Hne Hj Hx Hd [[B1 B2 B3 B4 B5 B6] _ _ Hcrc _] E. unfold frame, raw_frame in *.
  set (hd := header op fl tg (zlength chunk) (fio_crc16 chunk)) in *. pose proof (crc16_word chunk Hb) as Hcw.
  assert (length hd = 24%nat) as Hhl by apply command_header_length. rewrite length_app in Hj.
  assert (0 <= zlength chunk <= 1024 /\ 0 <= zlength chunk' <= 1024) as [Hz Hz'] by (unfold zlength in *; lia).
  assert (forall z : list Z, zlength z = zlength chunk -> z <> []) as Hnn.
  { intros z Ez ->. pose proof (zlength_pos chunk Hne). rewrite <- Ez in *. by unfold zlength in *. }
  destruct (Nat.lt_ge_cases j 24) as [H24|H24].
  - rewrite tbl_left in Hd by lia. rewrite insert_app_l, <- !app_assoc in E by lia.
    apply app_inj_1 in E as [E1 E2]; [|by rewrite length_insert, Hhl, command_header_length].
    destruct (command_header_damaged _ _ _ _ _ _ _ _ _ _ _ _ H24 Hx Ho Hf Ht Hz Hcw B1 B2 B3 Hz' B6 Hd E1) as [Elen Ecrc].
    apply app_inj_1 in E2 as [<- _]; [|unfold zlength in Elen; lia]. apply Ecrc, Hcrc, Hne.
  - rewrite tbl_right in Hd by lia. rewrite insert_app_r_alt, <- !app_assoc in E by lia. rewrite Hhl in *.
    apply app_inj_1 in E as [E1 E2]; [|by rewrite Hhl, command_header_length].
    apply header_inj in E1 as (_ & _ & _ & Elen & Ecrc); try done.
    apply app_inj_1 in E2 as [E2 _]; [|rewrite length_insert; unfold zlength in Elen; lia].
    apply (crc_changed chunk (j - 24) x Hb Hx); [lia|done|]. rewrite E2, Ecrc. symmetry. apply Hcrc, Hnn. congruence.
Qed.

(** Fragments of which none is empty. *)
Definition all_full (l : list (Z * list Z)) : Prop := Forall (fun f => snd f <> []) l.

Lemma frames_damaged op l : is_word 16 op ->
  Forall (fun f => is_word 64 (fst f) /\ is_bytes (snd f) /\ zlength (snd f) <= 1024) l -> all_full l ->
  forall j x st acc l' n data r r', (j < length (frames op 0 l))%nat -> is_word 8 x ->
  x <> tbl (frames op 0 l) (Z.of_nat j) -> match st with Some (op', _, _) => op = op' | None => True end ->
  zlength acc + zlength (fragments_data l) + 25 <= max_cmd ->
  completes st acc l' n data -> <[j := x]> (frames op 0 l) ++ r <> l' ++ r'.
Proof.
  intros Ho. induction l as [|[t c] l IH]; intros He Hne j x st acc l' n data r r' Hj Hx Hd Hst Hm Hc E; [cbn in Hj; lia|].
  apply Forall_cons_1 in He as [(Ht & Hb & Hl) He], Hne as [Hn Hne]. cbn [fst snd] in *.
  assert (exists fl r2, (fl = 0 \/ fl = FIO_NET_CMD_F_MORE) /\ is_word 32 fl /\
    frames op 0 ((t, c) :: l) = frame op fl t c ++ r2 /\ (l = [] -> r2 = []) /\
    (l <> [] -> fl = FIO_NET_CMD_F_MORE /\ r2 = frames op 0 l)) as (fl & r2 & Hfl & Hfw & Ef & Hnil & Hcons).
  { destruct l as [|f l].
    - exists 0, []. split_and!; try done; [by left|by rewrite app_nil_r].
    - exists FIO_NET_CMD_F_MORE, (frames op 0 (f :: l)). split_and!; try done. by right. }
  rewrite Ef in *. 
  assert (exists op' fl' tg' chunk' crc' last r3, acceptable st acc op' fl' tg' chunk' crc' last /\
    l' ++ r' = raw_frame op' fl' tg' chunk' crc' ++ r3 /\
    (last = false -> exists l2, completes (Some (named st op' fl' tg')) (acc ++ chunk') l2 n data /\ r3 = l2 ++ r'))
    as (op' & fl' & tg' & chunk' & crc' & last & r3 & Ha & El & Hmore).
  { destruct Hc as [st acc op' fl' tg' chunk' crc' Ha|st acc op' fl' tg' chunk' crc' l2 n data Ha Hc2].
    - do 7 eexists. split; [exact Ha|]. split; [done|]. done.
    - do 7 eexists. split; [exact Ha|]. split; [by rewrite <- app_assoc|]. intros _. by exists l2. }
  rewrite El in E.
  destruct (Nat.lt_ge_cases j (length (frame op fl t c))) as [H|H].
  - rewrite tbl_left in Hd by lia. rewrite insert_app_l, <- app_assoc in E by lia.
    by eapply frame_damaged in E.
  - assert (l <> []) as Hln.
    { intros ->. rewrite (Hnil eq_refl), app_nil_r in Hj. lia. }
    destruct (Hcons Hln) as [-> ->]. rewrite tbl_right in Hd by lia. rewrite insert_app_r_alt, <- app_assoc in E by lia.
    unfold fragments_data in *. cbn [map concat snd] in Hm. rewrite zlength_app in Hm.
    assert (0 <= zlength (concat (map snd l))) as H0 by (unfold zlength; lia).
    assert (acceptable st acc op FIO_NET_CMD_F_MORE t c (fio_crc16 c) false) as Ha2
      by (apply frame_acceptable; try done; [lia|by right]).
    rewrite frame_raw in E. destruct (acceptable_unique _ _ _ _ _ _ _ _ _ _ _ _ _ _ _ _ Ha2 Ha E) as (<- & <- & <- & <- & <- & E2).
    destruct (Hmore eq_refl) as (l2 & Hc2 & ->). rewrite length_app in Hj.
    assert (match Some (named st op FIO_NET_CMD_F_MORE t) with Some (op', _, _) => op = op' | None => True end) as Hst2
      by by destruct st as [[[]]|].
    refine (IH He Hne (j - length (frame op FIO_NET_CMD_F_MORE t c))%nat x (Some (named st op FIO_NET_CMD_F_MORE t)) (acc ++ c) _ _ _ _ _ ltac:(lia) Hx Hd Hst2 _ Hc2 E2).
    rewrite zlength_app. lia.
Qed.

(** * Proofs: sending and receiving *)

Lemma in_app_last {A} (l a : list A) f d (P : A -> Prop) : Forall P (removelast l) -> l = a ++ f :: d -> d <> [] -> P f.
Proof.
  intros H -> Hd. rewrite removelast_app in H by done. apply Forall_app in H as [_ H].
  destruct d as [|x d]; [done|]. change (removelast (f :: x :: d)) with (f :: removelast (x :: d)) in H. by apply Forall_cons_1 in H as [H _].
Qed.

Lemma chunks_all_full tg buf : buf <> [] -> all_full (map (pair tg) (chunks buf)).
Proof.
  unfold all_full. induction buf as [l Hl|l Hl IH] using chunks_ind; intros Hne.
  - rewrite chunks_small by done. by constructor.
  - rewrite chunks_large by done. constructor.
    + cbn [snd]. by destruct l.
    + apply IH. intros E. apply (f_equal length) in E. rewrite length_drop in E. cbn in E. unfold zlength in Hl. lia.
Qed.

Lemma removelast_full l : all_full l -> all_full (removelast l).
Proof.
  intros H. destruct l as [|x l]; [done|]. rewrite (app_removelast_last (l := x :: l) x) in H by done. by apply Forall_app in H as [H _].
Qed.

Lemma chunks_init_full tg buf : all_full (removelast (map (pair tg) (chunks buf))).
Proof.
  destruct (decide (buf = [])) as [->|H]; [by constructor|]. by apply removelast_full, chunks_all_full.
Qed.

Lemma chunks_each tg buf : is_word 64 tg -> is_bytes buf ->
  Forall (fun f => is_word 64 (fst f) /\ is_bytes (snd f) /\ zlength (snd f) <= 1024) (map (pair tg) (chunks buf)).
Proof.
  intros Ht Hb. apply Forall_map. cbn [fst snd]. pose proof (chunks_bounded buf) as Hc. pose proof (chunks_concat buf) as E.
  rewrite <- E in Hb. clear E. induction (chunks buf) as [|c l IH]; constructor; cbn [concat] in Hb; apply Forall_app in Hb as [H1 H2];
    apply Forall_cons_1 in Hc as [Hc Hl]; [done|by apply IH].
Qed.

Lemma sendable_intro op l : is_word 16 op -> l <> [] ->
  Forall (fun f => is_word 64 (fst f) /\ is_bytes (snd f) /\ zlength (snd f) <= 1024) l -> all_full (removelast l) -> sendable op l.
Proof. intros Ho Hn He Hf. split; try done. intros a f d E Hd. by eapply (in_app_last l a f d). Qed.

Lemma chunks_data tg buf : fragments_data (map (pair tg) (chunks buf)) = buf.
Proof.
  unfold fragments_data. rewrite map_map. cbn [snd]. rewrite map_id. apply chunks_concat.
Qed.

Lemma chunks_tag tg buf : fragments_tag (map (pair tg) (chunks buf)) = tg.
Proof. pose proof (chunks_not_nil buf). by destruct (chunks buf). Qed.

Lemma chunks_sendable op tg buf : is_word 16 op -> is_word 64 tg -> is_bytes buf -> sendable op (map (pair tg) (chunks buf)).
Proof.
  intros Ho Ht Hb. apply sendable_intro; [done| |by apply chunks_each|apply chunks_init_full].
  pose proof (chunks_not_nil buf). by destruct (chunks buf).
Qed.

(** ** Entries *)

(** An entry whose command its receiver will take: of the entries that are linked only the
    last one may be empty, and a text has its end. *)
Record takeable (e : sk_entry * list sk_entry) : Prop := {
  take_ok : entry_ok e;
  take_full : is_vec (fst e) = true -> Forall (fun n => e_buf n <> []) (removelast (fst e :: snd e));
  take_size : zlength (fragments_data (entry_pieces e)) + 25 <= max_cmd;
  take_text : text_fits (e_opcode (fst e)) (fragments_data (entry_pieces e));
}.




Section Laws.
Context (big : bool) (can_alloc : Z -> bool) (junk : nat -> Z).
Hypothesis Halloc : forall n, can_alloc n = true.


(** The command that an entry stands for, as its receiver has it. *)
Definition arrived (e : sk_entry * list sk_entry) (b : cmd_buf) : Prop :=
  exists x, received b (e_opcode (fst e)) 0 (e_tag (fst e)) (fragments_data (entry_pieces e)) x.



End Laws.

(** ** The queue *)

Section QueueLaws.
Context (big : bool) (can_alloc : Z -> bool) (junk : nat -> Z).
Hypothesis Halloc : forall n, n <= 1048 -> can_alloc n = true.














End QueueLaws.

(** ** Replies *)

Lemma remove_reply_last l r c : Forall (fun q => addr q <> addr r) l -> tag c = addr r ->
  remove_reply_cmd (l ++ [r]) c = Some (l, set_tag c (saved_tag r)).
Proof.
  intros Hl Ht. induction Hl as [|q l Hq Hl IH]; cbn [app remove_reply_cmd].
  - rewrite Ht, Z.eqb_refl. done.
  - rewrite Ht in *. destruct (Z.eqb_spec (addr r) (addr q)) as [E|E]; [by destruct Hq|]. by rewrite IH.
Qed.

(** ** Texts *)

Lemma text_pdu_eq big level sec usec buf : is_word 32 level -> is_word 64 sec -> is_word 64 usec ->
  text_pdu big level sec usec buf =
  le_bytes 4 level ++ le_bytes 4 (wrap 32 (zlength buf)) ++ le_bytes 8 sec ++ le_bytes 8 usec ++ buf.
Proof.
  intros Hl Hs Hu. unfold text_pdu. by rewrite !wire32, !wire64 by (done || (apply wrap_range; lia)).
Qed.

Lemma text_pdu_length big level sec usec buf : zlength (text_pdu big level sec usec buf) = 24 + zlength buf.
Proof. unfold text_pdu. rewrite !zlength_app. unfold zlength. rewrite !host_bytes_length. lia. Qed.

(** The receiver ends the text right behind it. *)
Lemma text_pdu_end big level sec usec buf x : is_word 32 level -> is_word 64 sec -> is_word 64 usec ->
  zlength buf < 2 ^ 31 ->
  text_fits FIO_NET_CMD_TEXT (text_pdu big level sec usec buf) /\
  terminated FIO_NET_CMD_TEXT (text_pdu big level sec usec buf) x = text_pdu big level sec usec buf ++ [0].
Proof.
  intros Hl Hs Hu Hb. set (d := text_pdu big level sec usec buf).
  assert (text_end FIO_NET_CMD_TEXT d = Some (zlength d)) as E.
  { unfold text_end. cbn [Z.eqb Pos.eqb FIO_NET_CMD_TEXT]. unfold d. rewrite text_pdu_length, text_pdu_eq by done.
    replace (part 4 4 _) with (zlength buf).
    - unfold as_int. destruct (Z.ltb_spec (zlength buf) (2 ^ 31)); [done|lia].
    - symmetry. repeat find_part. rewrite (value_bytes 4 32) by (done || (apply wrap_range; lia)).
      apply wrap_small. unfold is_word, zlength in *. lia. }
  assert (0 <= zlength buf) as H0 by (unfold zlength; lia).
  assert (zlength d = 24 + zlength buf) as Ed by apply text_pdu_length. split.
  - unfold text_fits. right. rewrite E. lia.
  - unfold terminated. clearbody d. destruct d as [|y d]; [unfold zlength in Ed; cbn in Ed; lia|]. rewrite E.
    rewrite insert_app_r_alt by (unfold zlength; lia). unfold zlength. by rewrite Nat2Z.id, Nat.sub_diag.
Qed.

(** ** Command lines *)

(** Arguments that a command line can carry: C strings whose length with the end fits 16 bits. *)
Definition arg_ok (arg : list Z) : Prop :=
  Forall (fun b => is_word 8 b /\ b <> 0) arg /\ zlength arg + 1 < 2 ^ 16.

#[global] Instance arg_ok_dec arg : Decision (arg_ok arg).
Proof. unfold arg_ok. apply _. Defined.

Definition arg_bytes (arg : list Z) : list Z := le_bytes 2 (zlength arg + 1) ++ arg ++ [0].

Definition line_bytes (argv : list (list Z)) (client_type : Z) : list Z :=
  le_bytes 2 (zlength argv) ++ le_bytes 2 client_type ++ concat (map arg_bytes argv).

Lemma arg_lens arg : arg_ok arg -> arg_len arg = zlength arg + 1 /\ wrap 16 (arg_len arg) = zlength arg + 1 /\
  is_word 16 (zlength arg + 1).
Proof.
  intros [_ H]. assert (0 <= zlength arg) by (unfold zlength; lia).
  assert (arg_len arg = zlength arg + 1) as E by (apply wrap_small; unfold is_word; lia).
  rewrite E. split_and!; try done; [apply wrap_small|]; unfold is_word; lia.
Qed.

Lemma arg_bytes_length arg : zlength (arg_bytes arg) = zlength arg + 3.
Proof. unfold arg_bytes. rewrite !zlength_app. unfold zlength. rewrite le_bytes_length. cbn [length]. lia. Qed.

Lemma memcpy_at (a b c d : list Z) off : off = zlength a -> length b = length c ->
  memcpy (a ++ b ++ d) off c = Some (a ++ c ++ d).
Proof.
  intros -> Hl. rewrite memcpy_Some by (rewrite ?zlength_app; unfold zlength; lia). unfold zlength. rewrite Nat2Z.id.
  rewrite take_app_length. do 3 f_equal. rewrite <- drop_drop, drop_app_length. rewrite <- Hl. apply drop_app_length.
Qed.

Lemma put_args_spec big argv : Forall arg_ok argv -> forall a b off, off = zlength a ->
  zlength b = zlength (concat (map arg_bytes argv)) ->
  put_args big (a ++ b) off argv = Some (a ++ concat (map arg_bytes argv)).
Proof.
  induction 1 as [|arg argv Ha Hl IH]; intros a b off -> Hb; cbn [map concat put_args].
  { destruct b; [done|]. cbn in Hb. unfold zlength in Hb. cbn in Hb. lia. }
  destruct (arg_lens arg Ha) as (_ & El & Hw). rewrite El. cbn [map concat] in Hb. rewrite zlength_app, arg_bytes_length in Hb.
  set (n := Z.to_nat (zlength arg + 1)).
  assert (0 <= zlength (concat (map arg_bytes argv))) as H0 by (unfold zlength; lia).
  assert (b = take 2 b ++ take n (drop 2 b) ++ drop (2 + n) b) as Eb.
  { rewrite <- drop_drop, take_drop. by rewrite take_drop. }
  assert (length (take 2 b) = 2%nat /\ length (take n (drop 2 b)) = n) as [L1 L2].
  { rewrite !length_take, length_drop. unfold n, zlength in *. lia. }
  rewrite Eb. rewrite (app_assoc a). rewrite memcpy_at.
  2: { rewrite zlength_app. unfold zlength at 3. rewrite L1. lia. }
  2: { rewrite L2, length_app. cbn [length]. unfold n, zlength. lia. }
  cbn [mbind option_bind]. rewrite <- app_assoc. rewrite wire16 by done.
  rewrite memcpy_at by (done || by rewrite L1, le_bytes_length). cbn [mbind option_bind].
  replace (a ++ le_bytes 2 (zlength arg + 1) ++ (arg ++ [0]) ++ drop (2 + n) b) with ((a ++ arg_bytes arg) ++ drop (2 + n) b)
    by (unfold arg_bytes; by rewrite <- !app_assoc).
  rewrite IH; [by rewrite <- app_assoc| |].
  - rewrite zlength_app, arg_bytes_length. lia.
  - unfold n, zlength in *. rewrite length_drop. lia.
Qed.

Lemma line_is_bytes argv ty : Forall arg_ok argv -> is_bytes (line_bytes argv ty).
Proof.
  intros Ha. unfold line_bytes, is_bytes. rewrite !Forall_app. split; [apply le_bytes_bytes|]. split; [apply le_bytes_bytes|].
  induction Ha as [|arg argv [Hb _] _ IH]; [constructor|]. cbn [map concat]. unfold arg_bytes. rewrite !Forall_app.
  split_and!; [apply le_bytes_bytes| |by repeat constructor|done]. revert Hb. apply Forall_impl. by intros b [H _].
Qed.

Lemma args_total argv : Forall arg_ok argv ->
  fold_right Z.add 0 (map arg_len argv) + zlength argv * 2 = zlength (concat (map arg_bytes argv)).
Proof.
  induction 1 as [|arg argv Ha Hl IH]; [done|]. cbn [map fold_right concat].
  rewrite zlength_app, arg_bytes_length. destruct (arg_lens arg Ha) as (-> & _). unfold zlength in *. cbn [length]. lia.
Qed.

Lemma cmd_line_pdu_spec big junk argv ty : Forall arg_ok argv -> zlength argv < 2 ^ 16 -> is_word 16 ty ->
  cmd_line_pdu big junk argv ty = Some (line_bytes argv ty).
Proof.
  intros Ha Hn Ht. unfold cmd_line_pdu, line_bytes. set (mem := _ + 4 + _).
  pose proof (args_total argv Ha) as Et. set (body := concat (map arg_bytes argv)) in *.
  assert (0 <= zlength body /\ 0 <= zlength argv) as [H0 Hn0] by (unfold zlength; lia).
  assert (zlength (fresh junk mem) = 4 + zlength body) as Ef by (rewrite zlength_fresh; unfold mem; lia).
  set (f := fresh junk mem) in *. clearbody f.
  assert (f = (take 2 f ++ take 2 (drop 2 f)) ++ drop 4 f) as E.
  { rewrite take_take_drop. cbn [Nat.add]. by rewrite take_drop. }
  assert (length (take 2 f) = 2%nat /\ length (take 2 (drop 2 f)) = 2%nat /\ zlength (drop 4 f) = zlength body) as (L1 & L2 & L3).
  { unfold zlength in *. rewrite !length_take, !length_drop. lia. }
  rewrite E, put_args_spec by (done || rewrite zlength_app; unfold zlength; rewrite L1, L2; done). cbn [mbind option_bind]. fold body.
  assert (wrap 16 (zlength argv) = zlength argv /\ wrap 16 ty = ty /\ is_word 16 (zlength argv)) as (-> & -> & Hw).
  { split_and!; [apply wrap_small; unfold is_word; lia|by apply wrap_small|unfold is_word; lia]. }
  rewrite !wire16 by done. rewrite <- app_assoc.
  pose proof (memcpy_at [] (take 2 f) (le_bytes 2 (zlength argv)) (take 2 (drop 2 f) ++ body) 0 eq_refl) as E1.
  cbn [app] in E1. rewrite E1 by by rewrite L1, le_bytes_length. cbn [mbind option_bind].
  rewrite (memcpy_at (le_bytes 2 (zlength argv))); [done|unfold zlength at 1; by rewrite le_bytes_length|by rewrite L2, le_bytes_length].
Qed.

Lemma c_string_spec a r : Forall (fun b => is_word 8 b /\ b <> 0) a -> c_string (a ++ 0 :: r) = Some a.
Proof.
  induction 1 as [|b a [_ Hb] Ha IH]; [done|]. cbn [app c_string]. apply Z.eqb_neq in Hb as ->. by rewrite IH.
Qed.

Lemma drop_to_nat (a b : list Z) off : off = zlength a -> drop (Z.to_nat off) (a ++ b) = b.
Proof. intros ->. unfold zlength. by rewrite Nat2Z.id, drop_app_length. Qed.

Lemma field_at big (a b c : list Z) off n : off = zlength a -> zlength b = n ->
  field big off n (a ++ b ++ c) = Some (host_value big b).
Proof.
  intros Ho Hn. unfold field. rewrite Ho, <- Hn. destruct (Z.ltb_spec (zlength a) 0); [unfold zlength in *; lia|].
  rewrite drop_to_nat by done. unfold zlength. rewrite read_bytes_Some by (rewrite zlength_app; unfold zlength; lia). cbn [mbind option_bind].
  by rewrite Nat2Z.id, take_app_length.
Qed.

Lemma le_field16 big v : is_word 16 v -> le16_to_cpu big (host_value big (le_bytes 2 v)) = v.
Proof.
  intros Hv. rewrite le16_host by (apply le_bytes_bytes || apply le_bytes_length). by apply (value_bytes 2 16).
Qed.

Lemma get_args_spec big argv : Forall arg_ok argv -> forall a rest off, off = zlength a ->
  get_args big (length argv) (a ++ concat (map arg_bytes argv) ++ rest) off = Some argv.
Proof.
  induction 1 as [|arg argv Ha Hl IH]; intros a rest off Ho; cbn [length get_args map concat]; [done|].
  destruct (arg_lens arg Ha) as (_ & _ & Hw). set (body := concat (map arg_bytes argv)) in *. unfold arg_bytes. rewrite <- !app_assoc.
  rewrite (field_at big a (le_bytes 2 (zlength arg + 1))) by (done || (unfold zlength; by rewrite le_bytes_length)). cbn [mbind option_bind]. rewrite le_field16 by done.
  rewrite app_assoc, drop_to_nat by (rewrite zlength_app, Ho; unfold zlength; rewrite le_bytes_length; lia).
  cbn [app]. rewrite c_string_spec by apply Ha. cbn [mbind option_bind].
  replace ((a ++ le_bytes 2 (zlength arg + 1)) ++ arg ++ 0 :: body ++ rest)
    with ((a ++ arg_bytes arg) ++ body ++ rest) by (unfold arg_bytes; by rewrite <- !app_assoc).
  rewrite IH; [done|]. rewrite zlength_app, arg_bytes_length. lia.
Qed.

Lemma jobline_spec big argv ty rest : Forall arg_ok argv -> zlength argv < 2 ^ 16 -> is_word 16 ty ->
  handle_jobline_cmd big (line_bytes argv ty ++ rest) = Some (argv, ty).
Proof.
  intros Ha Hn Ht. unfold handle_jobline_cmd, line_bytes. rewrite <- !app_assoc.
  assert (is_word 16 (zlength argv)) as Hw by (unfold is_word, zlength in *; lia).
  pose proof (field_at big [] (le_bytes 2 (zlength argv)) (le_bytes 2 ty ++ concat (map arg_bytes argv) ++ rest) 0 2 eq_refl) as E0.
  cbn [app] in E0. rewrite E0 by (unfold zlength; by rewrite le_bytes_length). clear E0. cbn [mbind option_bind].
  rewrite (field_at big (le_bytes 2 (zlength argv)) (le_bytes 2 ty)) by (unfold zlength; by rewrite le_bytes_length). cbn [mbind option_bind].
  rewrite !le_field16 by done. unfold zlength at 1. rewrite Nat2Z.id, app_assoc.
  rewrite get_args_spec; [done|done|]. rewrite zlength_app. unfold zlength. by rewrite !le_bytes_length.
Qed.

(** * The laws *)

(** C3: whatever is sent with [fio_net_send_cmd] arrives: between hosts of any byte orders, on
    sockets whose calls move any part of what they are asked for and are interrupted at any
    time, the sender succeeds, and the receiver of the bytes it wrote - with anything behind
    them - gets one command with the opcode, the tag and the payload, however many fragments
    it was cut into, and leaves what is behind it. *)
Theorem command_roundtrip big1 big2 alloc1 alloc2 junk1 junk2 s op tg buf :
  gentle (writes s) -> is_word 16 op -> is_word 64 tg -> is_bytes buf -> zlength buf + 25 <= max_cmd ->
  text_fits op buf -> (forall n, n <= 1048 -> alloc1 n = true) -> (forall n, alloc2 n = true) ->
  exists s' w, fio_net_send_cmd big1 alloc1 junk1 s op (Some buf) (zlength buf) (Some tg) None 0 0
      = Some (0, s', Some tg, None) /\
    outgoing s' = outgoing s ++ w /\
    forall r rest, gentle (reads r) -> is_bytes rest -> incoming r = w ++ rest ->
    exists r' b x, fio_net_recv_cmd big2 alloc2 junk2 r true = Some (Some b, r') /\
      received b op 0 tg buf x /\ incoming r' = rest.
Proof.
  intros Hg Ho Ht Hb Hm Hf Ha1 Ha2. unfold max_cmd in Hm.
  destruct (send_cmd_spec big1 alloc1 junk1 Ha1 s op buf (Some tg) tg None 0 0) as (ret & s' & -> & Hs); try done; [lia|].
  pose proof Hs as (? & ? & ? & ? & ? & H0). rewrite (H0 Hg) in *. exists s', (wire op tg buf). split; [done|].
  split; [apply (wrote_out _ _ _ (sent_as_all _ _ _ _ eq_refl Hs))|]. intros r rest Hgr Hr E.
  destruct (recv_frames big2 alloc2 junk2 r op (map (pair tg) (chunks buf)) rest) as (r' & b & y & -> & Hrec & Htk);
    rewrite ?chunks_data, ?chunks_tag in *; try done; [by apply chunks_sendable|].
  exists r', b, y. split; [done|]. split; [done|].
  pose proof (took_in _ _ _ Htk) as E1. rewrite E in E1. symmetry. by apply app_inv_head in E1.
Qed.

(** C4: whatever comes in, from whomever, in any pieces and with any failures of calls and of
    memory, [fio_net_recv_cmd] ends.  It hands out nothing, or a command that is exactly what
    the bytes it took off the socket make up: fragments with right checksums, of one opcode,
    not too large; and if the socket has such a command and nothing fails it hands it out.
    Nothing is undefined, but for a text whose length is wrong. *)
Theorem recv_accepts_commands big can_alloc junk sk wait : is_bytes (incoming sk) ->
  (exists sk' l, fio_net_recv_cmd big can_alloc junk sk wait = Some (None, sk') /\
     incoming sk = l ++ incoming sk' /\ ~ command_arrives can_alloc sk wait None []) \/
  (exists sk' l op fl tg data, completes None [] l (op, fl, tg) data /\ incoming sk = l ++ incoming sk' /\
     (text_fits op data -> exists b x, fio_net_recv_cmd big can_alloc junk sk wait = Some (Some b, sk') /\
        received b op fl tg data x)).
Proof.
  intros Hb. destruct (recv_cmd_spec big can_alloc junk sk wait Hb) as [(sk' & l & E & Ht & Hn)|(sk' & l & op & fl & tg & data & Hc & Ht & H)].
  - left. exists sk', l. split; [done|]. split; [apply Ht|done].
  - right. exists sk', l, op, fl, tg, data. split; [done|]. split; [apply Ht|done].
Qed.

(** C9: one changed byte, anywhere in the headers and the payload of a command on its way,
    and its receiver hands out nothing - whatever follows and however the bytes come.  The
    command has a payload: without one the receiver does not look at the checksum of the
    payload, [pdu_crc16], and takes a command in which these two bytes have changed. *)
Theorem damaged_command_refused big can_alloc junk r wait op tg buf j x rest :
  is_word 16 op -> is_word 64 tg -> is_bytes buf -> buf <> [] -> zlength buf + 25 <= max_cmd ->
  (j < length (wire op tg buf))%nat -> is_word 8 x -> x <> tbl (wire op tg buf) (Z.of_nat j) -> is_bytes rest ->
  incoming r = <[j := x]> (wire op tg buf) ++ rest ->
  exists r', fio_net_recv_cmd big can_alloc junk r wait = Some (None, r').
Proof.
  intros Ho Ht Hb Hne Hm Hj Hx Hd Hr E.
  assert (is_bytes (incoming r)) as Hin.
  { rewrite E. apply Forall_app. split; [|done]. apply insert_bytes; [|done]. apply frames_bytes. by apply chunks_each. }
  destruct (recv_cmd_spec big can_alloc junk r wait Hin) as [(r' & l & -> & _)|(r' & l & op' & fl' & tg' & data & Hc & Htk & _)]; [by eexists|].
  exfalso. rewrite (took_in _ _ _ Htk) in E. symmetry in E. revert E.
  apply (frames_damaged op (map (pair tg) (chunks buf)) Ho (chunks_each tg buf Ht Hb) (chunks_all_full tg buf Hne) j x None [] l
    (op', fl', tg') data); try done. rewrite chunks_data. change (zlength []) with 0. lia.
Qed.




(** C13: a command line.  The arguments that a client sends - any number below 2^16, each with
    fewer than 2^16 bytes - are the arguments that the server parses, with the type of the
    client, whatever the byte orders and however the bytes come; neither side leaves its
    buffer. *)
Theorem job_line_roundtrip big1 big2 alloc1 alloc2 junk1 junk2 s argv ty :
  gentle (writes s) -> Forall arg_ok argv -> zlength argv < 2 ^ 16 -> is_word 16 ty ->
  zlength (line_bytes argv ty) + 25 <= max_cmd ->
  (forall n, n <= 1048 -> alloc1 n = true) -> (forall n, alloc2 n = true) ->
  exists pdu s' w, cmd_line_pdu big1 junk1 argv ty = Some pdu /\
    fio_net_send_cmd big1 alloc1 junk1 s FIO_NET_CMD_JOBLINE (Some pdu) (zlength pdu) None None 0 0
      = Some (0, s', None, None) /\
    outgoing s' = outgoing s ++ w /\
    forall r rest, gentle (reads r) -> is_bytes rest -> incoming r = w ++ rest ->
    exists r' b, fio_net_recv_cmd big2 alloc2 junk2 r true = Some (Some b, r') /\
      opcode (cmd b) = FIO_NET_CMD_JOBLINE /\ handle_jobline_cmd big2 (payload b) = Some (argv, ty).
Proof.
  intros Hg Ha Hn Ht Hm Ha1 Ha2. exists (line_bytes argv ty).
  assert (is_bytes (line_bytes argv ty)) as Hb by by apply line_is_bytes.
  destruct (send_cmd_spec big1 alloc1 junk1 Ha1 s FIO_NET_CMD_JOBLINE (line_bytes argv ty) None 0 None 0 0) as (ret & s' & -> & Hs);
    try done; [unfold max_cmd in Hm; lia|].
  pose proof Hs as (? & ? & ? & ? & ? & H0). rewrite (H0 Hg) in *.
  exists s', (wire FIO_NET_CMD_JOBLINE 0 (line_bytes argv ty)). split; [by apply cmd_line_pdu_spec|]. split; [done|].
  split; [apply (wrote_out _ _ _ (sent_as_all _ _ _ _ eq_refl Hs))|]. intros r rest Hgr Hr E.
  destruct (recv_frames big2 alloc2 junk2 r FIO_NET_CMD_JOBLINE (map (pair 0) (chunks (line_bytes argv ty))) rest)
    as (r' & b & y & -> & Hrec & _); rewrite ?chunks_data, ?chunks_tag in *; try done; [by apply chunks_sendable|by right|].
  exists r', b. split; [done|]. destruct Hrec as [_ R2 _ _ _ R6]. split; [done|]. rewrite R6.
  replace (terminated _ _ _) with (line_bytes argv ty ++ [y]) by (unfold terminated; by destruct (line_bytes argv ty)).
  by apply jobline_spec.
Qed.

(** A request that waits for a reply is sent with the address of its entry as tag; when a reply
    comes with this tag, the entry is found and the command gets the tag of the request. *)
Theorem reply_finds_request big alloc1 junk s op tg buf l address now c :
  gentle (writes s) -> is_word 16 op -> is_word 64 address -> is_bytes buf -> zlength buf < 2 ^ 63 ->
  (forall n, n <= 1048 -> alloc1 n = true) ->
  Forall (fun q => addr q <> address) l -> tag c = address ->
  exists s' l', fio_net_send_cmd big alloc1 junk s op (Some buf) (zlength buf) (Some tg) (Some l) address now
      = Some (0, s', Some address, Some l') /\
    outgoing s' = outgoing s ++ wire op address buf /\
    remove_reply_cmd l' c = Some (l, set_tag c tg).
Proof.
  intros Hg Ho Ht Hb Hm Ha1 Hl Hc.
  destruct (send_cmd_spec big alloc1 junk Ha1 s op buf (Some tg) address (Some l) address now) as (ret & s' & -> & Hs); try done.
  pose proof Hs as (? & ? & ? & ? & ? & H0). rewrite (H0 Hg) in *.
  exists s', (l ++ [Reply address now tg op]). split; [done|].
  split; [apply (wrote_out _ _ _ (sent_as_all _ _ _ _ eq_refl Hs))|].
  by apply (remove_reply_last l (Reply address now tg op) c).
Qed.

(** A line of text that a server queues is taken by its client, which ends it right behind its
    last character. *)
Theorem text_arrives_ended big level sec usec buf can_alloc can_smalloc junk s :
  is_word 32 level -> is_word 64 sec -> is_word 64 usec -> is_bytes buf -> zlength buf < 2 ^ 31 - 1024 ->
  (forall n, can_alloc n = true) -> (forall n, can_smalloc n = true) ->
  let pdu := text_pdu big level sec usec buf in
  let e := (Entry SK_F_COPY FIO_NET_CMD_TEXT pdu (zlength pdu) 0, []) in
  fio_server_text_output big can_alloc can_smalloc junk s level sec usec buf
    = Some (zlength buf, SkOut (sk s) (queue s ++ [e]) (xmits s)) /\
  takeable e /\ forall b, arrived e b -> payload b = pdu ++ [0].
Proof.
  intros Hl Hs Hu Hb Hz Ha Hsm pdu e. assert (zlength pdu = 24 + zlength buf) as Ep by apply text_pdu_length.
  assert (0 <= zlength buf) as H0 by (unfold zlength; lia).
  assert (is_bytes pdu) as Hpb.
  { unfold pdu. rewrite text_pdu_eq by done. unfold is_bytes. rewrite !Forall_app. split_and!; try apply le_bytes_bytes; done. }
  assert (fragments_data (entry_pieces e) = pdu) as Ed by apply chunks_data.
  split; [|split].
  - unfold fio_server_text_output. rewrite wrap_small by (unfold is_word; lia). rewrite Ha. cbn [c_assert mbind option_bind].
    rewrite Z.leb_refl. cbn [c_assert mbind option_bind]. unfold fio_net_queue_cmd, fio_net_prep_cmd. rewrite !Hsm. fold pdu.
    cbn. rewrite read_bytes_Some by lia. cbn [mbind option_bind]. rewrite <- Ep.
    assert (take (Z.to_nat (zlength pdu)) pdu = pdu) as -> by (unfold zlength; by rewrite Nat2Z.id, firstn_all). done.
  - split; [|done| |].
    + split; [|constructor]. unfold entry_data_ok. cbn [fst e_opcode e_tag e_buf e_size e]. split_and!; try done. lia.
    + rewrite Ed. unfold max_cmd. lia.
    + rewrite Ed. by apply (text_pdu_end big level sec usec buf 0); [..|lia].
  - intros b (x & [_ _ _ _ _ R]). rewrite R, Ed. by apply text_pdu_end; [..|lia].
Qed.

(** * Witnesses and examples *)

Definition plenty (n : Z) : bool := true.
Definition dirt (i : nat) : Z := 0xa5.
Definition quiet : socket := Socket [] [] [] [].

Ltac decided := apply (bool_decide_unpack _); vm_compute; exact I.

(** 1030 bytes, in two fragments. *)
Definition long_payload : list Z := replicate 1030 7.

(** A sender that is interrupted and writes little, on a big-endian host. *)
Definition busy_sender : socket := Socket [] [9] [] [(Fails EINTR, false); (Moves 3, false); (Fails EAGAIN, false); (Moves 40, false)].

Lemma command_roundtrip_witness :
  exists s' w, fio_net_send_cmd true plenty dirt busy_sender 6 (Some long_payload) (zlength long_payload) (Some 77) None 0 0
      = Some (0, s', Some 77, None) /\
    outgoing s' = [9] ++ w /\
    forall r rest, gentle (reads r) -> is_bytes rest -> incoming r = w ++ rest ->
    exists r' b x, fio_net_recv_cmd false plenty dirt r true = Some (Some b, r') /\
      received b 6 0 77 long_payload x /\ incoming r' = rest.
Proof.
  apply (command_roundtrip true false plenty plenty dirt dirt busy_sender 6 77 long_payload);
    [decided|decided|decided|decided|by vm_compute|right; exact I|done|done].
Defined.

Definition short_command : list Z := wire 6 77 [1; 2; 3].

Lemma recv_accepts_commands_witness :
  let sk := Socket (short_command ++ [1]) [] [(Moves 5, false); (Fails EINTR, false)] [] in
  (exists sk' l, fio_net_recv_cmd true plenty dirt sk true = Some (None, sk') /\
     incoming sk = l ++ incoming sk' /\ ~ command_arrives plenty sk true None []) \/
  (exists sk' l op fl tg data, completes None [] l (op, fl, tg) data /\ incoming sk = l ++ incoming sk' /\
     (text_fits op data -> exists b x, fio_net_recv_cmd true plenty dirt sk true = Some (Some b, sk') /\
        received b op fl tg data x)).
Proof. apply (recv_accepts_commands true plenty dirt); decided. Defined.

Lemma damaged_command_refused_witness :
  exists r', fio_net_recv_cmd true plenty dirt (Socket (<[1040%nat := 8]> (wire 6 77 long_payload) ++ [1; 2]) [] [(Moves 100, false)] []) true
    = Some (None, r').
Proof.
  apply (damaged_command_refused true plenty dirt _ true 6 77 long_payload 1040 8 [1; 2]);
    [decided|decided|decided|done|by vm_compute|by apply Nat.ltb_lt; vm_compute|decided|by vm_compute|decided|done].
Defined.







Lemma job_line_roundtrip_witness :
  exists pdu s' w, cmd_line_pdu false dirt [[102; 105; 111]; []; [45; 45; 120]] 1 = Some pdu /\
    fio_net_send_cmd false plenty dirt busy_sender FIO_NET_CMD_JOBLINE (Some pdu) (zlength pdu) None None 0 0
      = Some (0, s', None, None) /\
    outgoing s' = [9] ++ w /\
    forall r rest, gentle (reads r) -> is_bytes rest -> incoming r = w ++ rest ->
    exists r' b, fio_net_recv_cmd true plenty dirt r true = Some (Some b, r') /\
      opcode (cmd b) = FIO_NET_CMD_JOBLINE /\
      handle_jobline_cmd true (payload b) = Some ([[102; 105; 111]; []; [45; 45; 120]], 1).
Proof.
  apply (job_line_roundtrip false true plenty plenty dirt dirt busy_sender [[102; 105; 111]; []; [45; 45; 120]] 1);
    [decided| |by vm_compute|decided|by vm_compute|done|done].
  repeat constructor; decided.
Defined.

(** Of a vector the code has to write again only a part after a short write, and it begins the
    next fragment with what was left of the first element: of 1030 bytes in two fragments, the
    second header comes with 14 of its 24 bytes when the first call has moved 10 bytes. *)
Example short_write_loses_header :
  match fio_send_cmd_ext_pdu true (Socket [] [] [] [(Moves 10, false)]) 17 long_payload 1030 0 0 with
  | Some (0, s') => Some (zlength (outgoing s'))
  | _ => None
  end = Some (24 + 1024 + 14 + 6).
Proof. by vm_compute. Qed.

(** When a short write ends in the payload, the next call is given a vector that ends beyond
    the array. *)
Example short_write_overruns :
  fio_send_cmd_ext_pdu true (Socket [] [] [] [(Moves 30, false)]) 17 [1; 2; 3; 4; 5; 6; 7; 8] 8 0 0 = None.
Proof. by vm_compute. Qed.

(** The checksum of a payload that is empty is not looked at: two bytes of this command have
    changed, and it is taken. *)
Example empty_payload_unchecked :
  match fio_net_recv_cmd false plenty dirt (Socket (<[22%nat := 7]> (<[23%nat := 9]> (wire FIO_NET_CMD_QUIT 0 []))) [] [] []) true with
  | Some (Some b, _) => Some (opcode (cmd b), pdu_len (cmd b))
  | _ => None
  end = Some (FIO_NET_CMD_QUIT, 0).
Proof. by vm_compute. Qed.

(** The length of a text is believed: where it is too large the zero is written outside of the
    command. *)
Example text_length_is_trusted :
  fio_net_recv_cmd false plenty dirt
    (Socket (wire FIO_NET_CMD_TEXT 0 (le_bytes 4 0 ++ le_bytes 4 1000 ++ le_bytes 16 0)) [] [] []) true = None.
Proof. by vm_compute. Qed.

(** An argument of 65,535 bytes has a length of 0 for the server, which takes what is in it for
    the next argument. *)
Example long_argument_is_lost :
  match cmd_line_pdu false dirt [replicate (Z.to_nat 65535) 97; [98]] 1 with
  | Some pdu => match handle_jobline_cmd false (pdu ++ [0]) with
                | Some (argv, _) => Some (map zlength argv)
                | None => None
                end
  | None => None
  end = Some [1; 1].
Proof. by vm_compute. Qed.

(** A queued copy is written where the pool gave no memory. *)
Example copy_without_memory :
  fio_net_queue_cmd true plenty (fun n => n =? sizeof_sk_entry) dirt (SkOut quiet [] []) FIO_NET_CMD_TEXT [1; 2; 3] 3 None SK_F_COPY
    = None.
Proof. by vm_compute. Qed.
